(* ===== verification/_CoqProject ===== *)
-Q . S2P
Prelude.v
Wp.v
Domain.v
Protection.v
Faults.v
Library.v
Bytes.v
Ltfs.v
Shard.v
Paths.v
Leases.v
Catalog.v
Reconcile.v
CatalogStore.v
Scheduler.v
Queue.v
Recovery.v
Orchestrator.v
Mailslot.v
TapeJob.v
Archive.v
ShardRestore.v
RoundTrip.v
FileJob.v
VerifyJob.v
FileRestore.v
FileArchive.v
FormatJob.v
Media.v
Planner.v
Capacity.v
TapeStates.v
Json.v
TapeModels.v
Metadata.v
LtfsBackend.v
Generation.v
NasTables.v
RestorePlanner.v
TreeRestore.v
PathIndex.v
Lifecycle.v
Rebuild.v
CatalogRecovery.v
Rbac.v
RbacRoutes.v
