(* ===== verification/Prelude.v ===== *)
(** OpenBlade: a development for the core of the tape-library controller.

    * The program

    OpenBlade drives a robotic tape library: a changer moves cartridges between
    slots and drives, LTFS volumes are mounted on loaded drives, files are
    archived to tape whole or striped over several tapes, and a catalog (a SQL
    database shared by every process) records files, jobs, drive leases and a
    journal of safety events.  The safety of the data rests on a few
    components, and these are modelled:

    - Prelude.v, Wp.v: exceptions (openblade/domain/errors.py), the
      state-and-exception monad [M S A], Python dictionaries as insertion-ordered
      association lists, decoded JSON, ASCII text; and a weakest-precondition
      calculus for the monad with one rule per operator, with a calculus of
      preserved relations ([preserves]) beside it.
    - Domain.v: openblade/domain/{models,states,capacity,policies,
      media_allowlist,scalar_coordinate}.py.  Protection.v: domain/protection.py.
    - Faults.v: simulator/{faults,fault_injection}.py, the counting fault
      injector both simulated backends consult.
    - Library.v: simulator/{library,drive}.py, [MockLibraryBackend]: slots,
      drives, import/export station, changer lock, snapshots.
    - Ltfs.v: simulator/ltfs_volume.py, [MockLTFSBackend], over a library: a
      mount changes the state of a drive of the shared library.
    - Bytes.v, Shard.v: bytes, SHA-256, and block striping (jobs/shard.py).
    - Paths.v: the normal form of a POSIX path, and stable sorting.
    - Leases.v: the protocol [LeaseStore] of jobs/scheduler.py as a type class
      with its laws ([LeaseStoreLaws]: every call as an update of one table of
      leases), and the in-memory implementation.
    - Catalog.v: catalog/{repository,models}.py, the tables behind archive jobs.
      CatalogStore.v: the catalog as a second implementation of the protocol.
    - Reconcile.v: jobs/reconcile.py, what the journal says about drives of
      unknown physical state.
    - Scheduler.v: [DriveScheduler] of jobs/scheduler.py over any lease store,
      and record_physical_state_unknown of jobs/sharded_archive.py.
    - Queue.v: jobs/queue.py.  Recovery.v: jobs/recovery.py and
      jobs/inventory.py.
    - Orchestrator.v: nas/tape_orchestrator.py, the choke point every tape
      operation of the services goes through, with its log and the export policy
      (catalog/export_policy.py).
      Mailslot.v: nas/mailslot.py and its routes, the two moves through the
      import/export station.
    - TapeJob.v: what the two sharded jobs share, the state of a running job
      over all of these and the steps it takes on them (loading, mounting,
      cleaning up a drive), with the relation [calm] these steps keep.
    - Archive.v: jobs/sharded_archive.py, the archive job in its two modes:
      whole files over the lanes, and one file over all lanes.
    - ShardRestore.v: jobs/sharded_restore.py.  RoundTrip.v: the two jobs
      composed.
    - FileJob.v: what the jobs on whole files share, a disk of files and the
      documents of the emulated console (api/aml_state.py).  FileArchive.v:
      jobs/archive.py.  FileRestore.v: jobs/restore.py, single files and batches.
      TreeRestore.v: jobs/tree_restore.py, everything below a path of the catalog,
      over both kinds of restore.  VerifyJob.v: jobs/verify.py.  FormatJob.v:
      jobs/format.py, the dry run and the confirmation with its token.
    - The network-attached front of the library plans before it writes.
      Media.v: Python's floats, and nas/media.py (which cartridge a drive can
      write).  Planner.v: nas/planner.py, the placement of files on tapes under
      each policy.  Capacity.v: nas/capacity.py, the two ledgers of reserved
      space, replication and export, and the booking of a plan.  TapeStates.v:
      nas/state_machine.py.
    - What a tape says of itself is kept below /.openblade on it.  Json.v: a
      model of Python's json module, the text of these documents.
      TapeModels.v: the document models of nas/{ltfs_manifest,catalog_shard}.py,
      what they accept and how they print.  Metadata.v: their writer, reader and
      validator (nas/{ltfs_manifest,catalog_shard,manifest_validator}.py) over
      any store of tapes, the class [Backend] with its laws; LtfsBackend.v shows
      that the simulated volumes are one.  Generation.v: the writing of a
      generation with its commit marker.
    - NasTables.v: the tables of datasets, files, rebuild runs, manifest versions
      and path mappings (catalog/repository.py, nas/types.py) and the service of
      nas/path_mapping.py; PathIndex.v: what its calls keep.  RestorePlanner.v:
      nas/restore_planner.py over them, with its queries of nas/service.py.
    - Lifecycle.v: nas/archive_lifecycle.py, the steps from bytes on a tape to a
      file marked archived, over a store of tapes and the tables.
    - Rebuild.v: nas/{catalog_rebuild,catalog_rebuild_worker}.py, the catalog
      from the tapes; CatalogRecovery.v: what comes back.
    - Rbac.v: nas/rbac_service.py and its tables, roles, users, tokens and audit
      events.  RbacRoutes.v: the guards and handlers in front of it
      (api/{rbac_deps,routes_rbac}.py), and of the choke point
      (api/routes_tape_ops.py).

    * How code becomes definitions

    A method that can raise or changes its object is a term of [M S A], a state
    transformer whose final state survives a raise; a query is a function of the
    state.  Definitions keep the names of the source; a method with a lock is
    one atomic step, and where the source gives its lock up (a waiting
    [acquire_drives], the three accesses of [_claim_slot]) the model takes what
    others do in between as an argument.  Readings of clocks and identifiers
    drawn at random are arguments.  Integers are unbounded, as Python's; file
    contents are lists of bytes.  The text of an exception is not modelled,
    except the one the fault injector computes.

    * What is shown

    - The simulator is a vault: every robot operation moves exactly one cartridge
      or changes no element, whatever fault fires ([robot_refines_vault],
      [reachable_library_consistent], [changer_lock_released]); every write is an
      atomic update of an abstract byte store ([write_bytes_refines_store]), and
      under any interleaving used space stays exact and within the capacity
      ([ltfs_reachable_consistent]).  Snapshots of both restore them.
    - Striped files come back: [shards_reassemble], [plan_block_stripe_sizes].
    - A drive has one owner: for any store obeying the protocol, in any
      interleaving of schedulers, other processes and the clock
      ([verified_handles_exclusive]), for ever after a rejection
      ([fenced_forever]), and across the job queue ([claim_slot_exclusive]); the
      two stores are interchangeable ([lease_stores_equivalent]).
    - Doubt is kept: an unknown physical state is journaled or its lease is held
      ([unknown_state_fails_closed]), the journal decides what is pending
      ([pending_iff_last_event]), reconciling clears one drive, recovery takes
      nothing from a living process ([recovery_exact], [recovery_idempotent]).
    - The commit of an archive job is atomic and staged data is invisible before
      it ([archive_commit_atomic], [staged_invisible]); a job never stays running
      ([run_job_terminal]); a safety token is used once.
    - The choke point: every accepted request is logged truthfully
      ([execute_audited]), a drive leased by another job is not unloaded
      ([unload_respects_leases]), nothing with archived data on it is exported
      without naming it, if the request spells the barcode as the catalog does
      ([export_guarded], [export_misses_spelling]), and a move through the station
      is what its answer says ([mailslot_moves_exact]).
    - An archive job claims only what is on tape: whatever fails, and in whatever
      order the lanes run, what it makes restorable has the bytes of its source
      at the location the catalog names ([sharded_archive_durable]); a striped
      file reassembles from its tapes to the checksum of its record
      ([block_stripe_restorable]); a file stays
      below /stripe ([stripe_path_contained]).
    - A restore job delivers only what it verified, and changes no tape and no
      table but those of jobs, leases and the journal
      ([restore_delivers_verified]); archiving and then restoring a file gives
      its bytes back ([archive_then_restore]).
    - The jobs on whole files keep the same promises: an archive makes restorable
      only what is on tape ([file_archive_durable]), a restore answers verified
      only for the archived bytes ([restore_file_verified],
      [batch_delivers_verified]), and the restore of a tree plans every record
      once ([tree_plan_exact]) and never leaves its directory
      ([tree_restore_contained]); a verification reads and tells the truth of the
      instances under the barcode as it is spelled ([verify_job_sound],
      [verify_misses_spelling]); a tape is erased only by a token issued for it, once
      ([format_needs_token]).
    - A plan that may be enqueued places every byte of every file once, in order,
      on tapes it may use and within their capacity, and within the budget of its
      pool ([plan_sound]), if it offers no tape twice ([duplicate_tape_overfilled]);
      the planner always answers ([plan_answers]).  Bookings that are not negative,
      under a clock that does not go back, never overcommit a pool
      ([pool_never_overcommitted], [negative_booking_overcommits]), whichever ledger
      serves it ([ledgers_equivalent]), and a plan previewed against the budget of the
      server is booked ([preview_then_book]).  A tape in quarantine leaves it
      only by an act of the operator ([quarantine_holds]).  The plan of a restore
      names exactly the tapes and files it takes ([restore_plan_exact]).
    - The JSON text of a document reads back as the document with its keys in
      order ([loads_dumps]).  A generation is committed by the last of its
      writes or not at all ([generation_atomic]).  A file is marked archived
      only once its tape documents it ([archived_once_documented]); a rebuild
      recovers every committed tape asked for and invents nothing
      ([rebuild_recovers]), so that a file archived survives the loss of the
      catalog ([lost_catalog_recovered]).  The index of paths can always be read
      ([index_well_typed]).
    - Who may do what: a caller without the permission is refused and recorded,
      and changes no user, no token and no role but the built-in ones that every
      request may put back ([rbac_requests_guarded], [tape_ops_guarded]); a user
      deactivated and a token revoked stay out ([lockout_permanent]); the audit
      stores no secrets and everything else ([audit_sanitized]).
    - Domain policies: the free-space rule, the unload guard, protection
      policies, the fault injector, and the wire forms of bit fields and lists.
    - Defects of the code and its documents, most with the theorem that exhibits
      one; the comment of such a theorem says so.

    * Fuel

    [Shard.write_shard_loop] and the loops that read a source to its end take
    the length of the source as fuel: each step consumes a block of at least one
    byte.  [reassemble_terminates] shows that the fuel of the reassembly is
    enough exactly when there is a shard, the loop of the source being infinite
    otherwise.  [acquire_loop] runs over a given list of rounds, and
    [acquire_drives_spec] shows that no list of rounds that passes the deadline
    leaves it waiting.  [Planner.sequential_fuel] counts files and tapes: every
    turn of the loop that fills tape after tape uses up one of them, and
    [plan_answers] shows that it is enough.  The reader of Json.v takes twice the
    length of its text.  [Surroundings] of TapeJob.v is a stream of readings, one per
    tick, so a job of any length has its own.

    * What is not modelled

    What the coercions of Pydantic accept beyond the plain types, and the
    decimal text of floats in JSON, are code outside this repository: the classes
    [Pydantic] and [FloatText], with what is relied on as their fields.  Text is
    Latin-1, a part of Unicode, and its case is that of ASCII.  Keys of JSON
    objects are text.  The instance a write returns names its path as it was given,
    not in normal form, and the index of paths is keyed by pool and
    path, the uniqueness of its ids taken for granted.  A job on whole files is given the scheduler of
    the application: the fallback to leases of its own, in memory, is left out.
    nas/{ingest,hydration}.py compose the modelled planner, lifecycle and catalog
    with threads and shares and are left out, as are the parsers of hardware/ and the cache of fuse/, which
    belong to devices and a kernel.  The other HTTP routes, the login that
    establishes who calls, the command line, the web console, the assistant and
    the real hardware backends are input and output around these and are left
    out, as are logging, thread start-up, and failures of the database other than
    the busy errors that [journal_durable] retries. *)
From stdpp Require Import base list option strings pretty gmap.
From Stdlib Require Import Ascii ZArith QArith Lia.
#[local] Open Scope Z_scope.

(** * Exceptions

    The exception classes the modelled code raises: the typed hierarchy of
    openblade/domain/errors.py, the ones declared beside their module, and the
    Python built-ins.  The text of an exception is not modelled, except for
    [SimulatorFaultError], whose text is computed by the fault injector. *)
Inductive exn : Set :=
(* openblade/domain/errors.py *)
| OpenBladeError | InvalidStateTransitionError | SafetyViolationError
| RealHardwareDisabledError | BarcodeMismatchError | DriveCorrelationError
| DriveOccupiedError | SlotOccupiedError | SlotEmptyError | TapeMountedError
| DriveLeasedError | DriveUnreconciledError | JournalWriteError
| DriveBusyError | StaleLeaseError | ChangerBusyError | NoScratchMediaError
| TapeFullError | ChecksumMismatchError | CartridgeNotFoundError
| CartridgeOfflineError | UnsafeCatalogPathError | MailslotUnsupportedError
| ImportExportSlotError | ExportRefusedError | OpenBladeFileNotFoundError
| JobNotFoundError | FormatRequiresConfirmationError | SimulatedWriteFailure
| SimulatedRobotTimeout | SimulatedMountFailure
(* declared beside their module *)
| SimulatorFaultError (msg : string) | AllowlistError
| UnsupportedProtectionError | InvalidProtectionPolicyError
| UnknownDriveError | PathMappingError | OtherError (cls : string)
(* Python built-ins *)
| KeyError | ValueError | TypeError | PermissionError | AssertionError
| RuntimeError | LookupError | OSError.

#[export] Instance exn_eq_dec : EqDecision exn.
Proof. solve_decision. Defined.

(** FastAPI's, by its status. *)
Definition HTTPException (status : Z) : exn := OtherError ("HTTPException " ++ pretty status).

(** [isinstance(exc, SafetyViolationError)]. *)
Definition is_safety_violation (e : exn) : bool :=
  match e with
  | SafetyViolationError | RealHardwareDisabledError | BarcodeMismatchError
  | DriveCorrelationError | TapeMountedError | DriveLeasedError
  | DriveUnreconciledError | JournalWriteError | UnsafeCatalogPathError
  | ExportRefusedError | FormatRequiresConfirmationError => true
  | _ => false
  end.

(** [isinstance(exc, OpenBladeError)]. *)
Definition is_openblade_error (e : exn) : bool :=
  match e with
  | SimulatorFaultError _ | AllowlistError | UnsupportedProtectionError
  | InvalidProtectionPolicyError | UnknownDriveError | PathMappingError
  | OtherError _ | KeyError | ValueError | TypeError | PermissionError
  | AssertionError | RuntimeError | LookupError | OSError => false
  | _ => true
  end.

(** * Results and the state-and-exception monad

    A Python call either returns or raises; the object it works on keeps the
    mutations made before the raise.  [M S A] is therefore a state transformer
    whose final state is present on both outcomes. *)
Inductive result (A : Type) : Type :=
| Ok (a : A)
| Raise (e : exn).
Arguments Ok {A} a.
Arguments Raise {A} e.

#[export] Instance result_eq_dec `{EqDecision A} : EqDecision (result A).
Proof. solve_decision. Defined.
#[export] Instance result_ret : MRet result := @Ok.
#[export] Instance result_bind : MBind result := λ A B f r,
  match r with Ok a => f a | Raise e => Raise e end.
#[export] Instance result_fmap : FMap result := λ A B f r,
  match r with Ok a => Ok (f a) | Raise e => Raise e end.

Definition is_ok {A} (r : result A) : bool :=
  match r with Ok _ => true | Raise _ => false end.

(** [raise_unless b e]: the guard [if not b: raise e]. *)
Definition raise_unless (b : bool) (e : exn) : result unit :=
  if b then Ok tt else Raise e.

Fixpoint mapR {A B} (f : A → result B) (l : list A) : result (list B) :=
  match l with
  | [] => Ok []
  | x :: l => y ← f x; ys ← mapR f l; Ok (y :: ys)
  end.

Definition M (S A : Type) : Type := S → result A * S.

#[export] Instance M_ret {S} : MRet (M S) := λ A a s, (Ok a, s).
#[export] Instance M_bind {S} : MBind (M S) := λ A B f m s,
  match m s with
  | (Ok a, s') => f a s'
  | (Raise e, s') => (Raise e, s')
  end.
#[export] Instance M_fmap {S} : FMap (M S) := λ A B f m, m ≫= λ a, mret (f a).

Definition raise {S A} (e : exn) : M S A := λ s, (Raise e, s).
Definition getS {S} : M S S := λ s, (Ok s, s).
Definition gets {S A} (f : S → A) : M S A := λ s, (Ok (f s), s).
Definition modify {S} (f : S → S) : M S unit := λ s, (Ok tt, f s).
Definition liftR {S A} (r : result A) : M S A := λ s, (r, s).
Definition raise_if {S} (b : bool) (e : exn) : M S unit := λ s,
  if b then (Raise e, s) else (Ok tt, s).
Definition when {S} (b : bool) (m : M S unit) : M S unit := λ s,
  if b then m s else (Ok tt, s).

(** [try: m finally: fin]: an exception of [fin] replaces the outcome of [m]. *)
Definition try_finally {S A} (m : M S A) (fin : M S unit) : M S A := λ s,
  let '(r, s1) := m s in
  match fin s1 with
  | (Ok _, s2) => (r, s2)
  | (Raise e, s2) => (Raise e, s2)
  end.

(** [try: m except Exception as exc: h exc]. *)
Definition try_except {S A} (m : M S A) (h : exn → M S A) : M S A := λ s,
  match m s with
  | (Ok a, s1) => (Ok a, s1)
  | (Raise e, s1) => h e s1
  end.

(** The outcome of a call as a value: [try: ... except Exception as exc]. *)
Definition attempt {S A} (m : M S A) : M S (result A) := λ s,
  let '(r, s') := m s in (Ok r, s').

(** Run an operation of a part [T] of the state [S]. *)
Definition zoom {S T A} (proj : S → T) (upd : T → S → S) (m : M T A) : M S A :=
  λ s, let '(r, t) := m (proj s) in (r, upd t s).

Fixpoint forM {S A} (l : list A) (f : A → M S unit) : M S unit :=
  match l with
  | [] => mret tt
  | x :: l => f x;; forM l f
  end.

(** * Python dictionaries

    A [dict] is an association list in insertion order: assigning an existing
    key keeps its position, a new key goes to the end, and iteration follows
    the list.  [dict_wf] says that the keys are distinct, which every operation
    preserves. *)
Notation dict K V := (list (K * V)).

Section dict_ops.
Context {K : Type} `{EqDecision K} {V : Type}.

Fixpoint dget (d : dict K V) (k : K) : option V :=
  match d with
  | [] => None
  | (k', v) :: d => if decide (k = k') then Some v else dget d k
  end.

Fixpoint dset (d : dict K V) (k : K) (v : V) : dict K V :=
  match d with
  | [] => [(k, v)]
  | (k', v') :: d => if decide (k = k') then (k, v) :: d else (k', v') :: dset d k v
  end.

Fixpoint ddel (d : dict K V) (k : K) : dict K V :=
  match d with
  | [] => []
  | (k', v') :: d => if decide (k = k') then d else (k', v') :: ddel d k
  end.

(** [d.get(k, default)], [d.setdefault(k, v)], [k in d]. *)
Definition dget_or (d : dict K V) (k : K) (v : V) : V := default v (dget d k).
Definition dsetdefault (d : dict K V) (k : K) (v : V) : dict K V :=
  match dget d k with Some _ => d | None => dset d k v end.
Definition dmem (d : dict K V) (k : K) : bool :=
  match dget d k with Some _ => true | None => false end.
(** A dict built from pairs: a later pair overwrites an earlier one in place. *)
Definition dict_of (l : list (K * V)) : dict K V :=
  foldl (λ d kv, dset d kv.1 kv.2) [] l.

Definition dict_wf (d : dict K V) : Prop := NoDup d.*1.
End dict_ops.

Definition dkeys {K V} (d : dict K V) : list K := d.*1.
Definition dvalues {K V} (d : dict K V) : list V := d.*2.
Definition dmap {K V W} (f : V → W) (d : dict K V) : dict K W :=
  prod_map id f <$> d.

(** [d[k]]: a missing key raises [KeyError]. *)
Definition dindex {K} `{EqDecision K} {V S} (d : dict K V) (k : K) : M S V := λ s,
  match dget d k with Some v => (Ok v, s) | None => (Raise KeyError, s) end.

(** [range(lo, hi)]. *)
Definition zrange (lo hi : Z) : list Z := (λ i, lo + Z.of_nat i) <$> seq 0 (Z.to_nat (hi - lo)).

(** * JSON-shaped values *)
Inductive json : Type :=
| JNull
| JBool (b : bool)
| JInt (z : Z)
| JFloat (q : Q)
| JStr (s : string)
| JArr (l : list json)
| JObj (d : list (string * json)).

(** [bool(x)]. *)
Definition truthy (j : json) : bool :=
  match j with
  | JNull => false
  | JBool b => b
  | JInt z => bool_decide (z ≠ 0)
  | JFloat q => negb (Qeq_bool q 0)
  | JStr s => bool_decide (s ≠ EmptyString)
  | JArr l => match l with [] => false | _ => true end
  | JObj d => match d with [] => false | _ => true end
  end.

(** [data.get(key)] on a decoded object, [None] when absent. *)
Definition jget (d : dict string json) (k : string) : json := dget_or d k JNull.

(** * Text *)
Definition upper_ascii (c : ascii) : ascii :=
  let n := Ascii.N_of_ascii c in
  if decide (97 ≤ n ≤ 122)%N then Ascii.ascii_of_N (n - 32)%N else c.

Definition is_space (c : ascii) : bool :=
  let n := Ascii.N_of_ascii c in
  bool_decide (9 ≤ n ≤ 13)%N || bool_decide (28 ≤ n ≤ 32)%N.

Definition str_map (f : ascii → ascii) (s : string) : string :=
  String.string_of_list_ascii (f <$> String.list_ascii_of_string s).

(** [s.upper()], [s.strip()], [s.startswith(p)] on ASCII text. *)
Definition upper (s : string) : string := str_map upper_ascii s.

Fixpoint lstrip_chars (p : ascii → bool) (l : list ascii) : list ascii :=
  match l with
  | [] => []
  | c :: l' => if p c then lstrip_chars p l' else l
  end.

Definition rstrip_chars (p : ascii → bool) (l : list ascii) : list ascii :=
  rev (lstrip_chars p (rev l)).

Definition strip (s : string) : string :=
  String.string_of_list_ascii
    (rstrip_chars is_space (lstrip_chars is_space (String.list_ascii_of_string s))).

Fixpoint startswith (s p : string) : bool :=
  match p, s with
  | EmptyString, _ => true
  | String c p, String c' s => bool_decide (c = c') && startswith s p
  | _, EmptyString => false
  end.

(** [int(s)]: surrounding white space, an optional sign, then decimal digits
    with single underscores allowed between two of them. *)
Definition digit_val (c : ascii) : option Z :=
  let n := Z.of_N (Ascii.N_of_ascii c) in
  if decide (48 ≤ n ≤ 57) then Some (n - 48) else None.

Fixpoint int_digits (acc : Z) (after_digit : bool) (l : list ascii) : option Z :=
  match l with
  | [] => if after_digit then Some acc else None
  | c :: l =>
      match digit_val c with
      | Some d => int_digits (10 * acc + d) true l
      | None =>
          if bool_decide (c = "_"%char) && after_digit then
            match l with [] => None | _ => int_digits acc false l end
          else None
      end
  end.

Definition py_int (s : string) : option Z :=
  match String.list_ascii_of_string (strip s) with
  | "-"%char :: l => Z.opp <$> int_digits 0 false l
  | "+"%char :: l => int_digits 0 false l
  | l => int_digits 0 false l
  end.

(** [int(x)] of a decoded value; a float truncates towards zero. *)
Definition coerce_int (j : json) : result Z :=
  match j with
  | JInt z => Ok z
  | JBool b => Ok (Z.b2z b)
  | JFloat q => Ok (Z.quot (Qnum q) (Zpos (Qden q)))
  | JStr s => match py_int s with Some z => Ok z | None => Raise ValueError end
  | JNull | JArr _ | JObj _ => Raise TypeError
  end.

(** * Lemmas on dictionaries *)
Section dict_lemmas.
Context {K : Type} `{EqDecision K} {V : Type}.
Implicit Types (d : dict K V) (k : K) (v : V).

Lemma dget_dset_eq d k v : dget (dset d k v) k = Some v.
Proof.
  induction d as [|[k' v'] d IH]; simpl; [by rewrite decide_True|].
  case_decide; simpl; [by rewrite decide_True | by rewrite decide_False].
Qed.

Lemma dget_dset_ne d k k' v : k ≠ k' → dget (dset d k v) k' = dget d k'.
Proof.
  intros Hne. induction d as [|[k0 v0] d IH]; simpl; [by rewrite decide_False|].
  case_decide as Hk; subst; simpl; [by rewrite !decide_False by done|].
  by rewrite IH.
Qed.

Lemma dget_dset d k k' v :
  dget (dset d k v) k' = if decide (k = k') then Some v else dget d k'.
Proof. case_decide; subst; [apply dget_dset_eq | by apply dget_dset_ne]. Qed.

Lemma dget_Some_elem d k v : dget d k = Some v → (k, v) ∈ d.
Proof.
  induction d as [|[k' v'] d IH]; simpl; [done|].
  case_decide; subst; intros; simplify_eq; [by left | right; auto].
Qed.

Lemma dget_None d k : dget d k = None ↔ k ∉ d.*1.
Proof.
  induction d as [|[k' v'] d IH]; csimpl; [split; [by intros _ ?%elem_of_nil | done]|].
  rewrite not_elem_of_cons. case_decide; naive_solver.
Qed.

Lemma elem_dget d k v : dict_wf d → (k, v) ∈ d → dget d k = Some v.
Proof.
  unfold dict_wf. induction d as [|[k' v'] d IH]; csimpl; [by intros _ ?%elem_of_nil|].
  rewrite NoDup_cons, elem_of_cons. intros [Hk Hd] [?|Hin]; simplify_eq/=.
  - by rewrite decide_True.
  - rewrite decide_False; [auto|]. intros ->. apply Hk, list_elem_of_fmap. by exists (k', v).
Qed.

Lemma dget_elem_iff d k v : dict_wf d → dget d k = Some v ↔ (k, v) ∈ d.
Proof. intros Hd. split; [apply dget_Some_elem | by apply elem_dget]. Qed.

Lemma dkeys_dset_in d k v : is_Some (dget d k) → (dset d k v).*1 = d.*1.
Proof.
  induction d as [|[k' v'] d IH]; simpl; [by intros [??]|].
  case_decide; subst; csimpl; [done|]. intros. by rewrite IH.
Qed.

Lemma dset_notin d k v : dget d k = None → dset d k v = d ++ [(k, v)].
Proof.
  induction d as [|[k' v'] d IH]; simpl; [done|].
  case_decide; [done|]. intros. by rewrite IH.
Qed.

Lemma dict_wf_dset d k v : dict_wf d → dict_wf (dset d k v).
Proof.
  unfold dict_wf. destruct (dget d k) eqn:Hk.
  - rewrite dkeys_dset_in; eauto.
  - rewrite dset_notin by done. rewrite fmap_app. intros Hd.
    apply NoDup_app. csimpl. split_and!; [done | | apply NoDup_singleton].
    intros x Hx ->%list_elem_of_singleton. by apply dget_None in Hk.
Qed.

Lemma ddel_notin d k : dget d k = None → ddel d k = d.
Proof.
  induction d as [|[k' v'] d IH]; simpl; [done|].
  case_decide; [done|]. intros. by rewrite IH.
Qed.

Lemma elem_of_ddel_keys d k k' : k' ∈ (ddel d k).*1 → k' ∈ d.*1.
Proof.
  induction d as [|[k0 v0] d IH]; csimpl; [done|].
  case_decide; csimpl; rewrite ?elem_of_cons; naive_solver.
Qed.

Lemma dict_wf_ddel d k : dict_wf d → dict_wf (ddel d k).
Proof.
  unfold dict_wf. induction d as [|[k' v'] d IH]; csimpl; [done|].
  rewrite NoDup_cons. intros [??]. case_decide; csimpl; [done|].
  apply NoDup_cons. split; [|auto]. by intros ?%elem_of_ddel_keys.
Qed.

Lemma dget_ddel d k k' : dict_wf d →
  dget (ddel d k) k' = if decide (k = k') then None else dget d k'.
Proof.
  unfold dict_wf. induction d as [|[k0 v0] d IH]; csimpl; [by case_decide|].
  rewrite NoDup_cons. intros [Hk0 Hd].
  destruct (decide (k = k0)) as [->|Hk]; simpl.
  - case_decide; subst; [by apply dget_None|]. by rewrite decide_False by done.
  - rewrite IH by done. case_decide; subst; [by rewrite decide_False by done | done].
Qed.

Lemma dsetdefault_wf d k v : dict_wf d → dict_wf (dsetdefault d k v).
Proof. unfold dsetdefault. case_match; auto using dict_wf_dset. Qed.

Lemma dict_of_wf (l : list (K * V)) : dict_wf (dict_of l).
Proof.
  unfold dict_of. assert (dict_wf ([] : dict K V)) as H by constructor.
  revert H. generalize ([] : dict K V). induction l as [|[k v] l IH]; simpl; [done|].
  intros d Hd. apply IH. by apply dict_wf_dset.
Qed.

Lemma dict_of_id_aux (l : list (K * V)) d :
  NoDup (d.*1 ++ l.*1) → foldl (λ d kv, dset d kv.1 kv.2) d l = d ++ l.
Proof.
  revert d. induction l as [|[k v] l IH]; csimpl; intros d Hd; [by rewrite app_nil_r|].
  apply NoDup_app in Hd as Hd'. destruct Hd' as (? & Hk & ?).
  rewrite dset_notin by (apply dget_None; intros Hin; eapply Hk; [done | by left]).
  rewrite IH; [by rewrite <-(assoc_L (++))|].
  rewrite fmap_app. csimpl. by rewrite <-(assoc_L (++)).
Qed.

(** Rebuilding a dict from its own items gives it back, order included. *)
Lemma dict_of_id d : dict_wf d → dict_of d = d.
Proof. intros Hd. unfold dict_of. by rewrite dict_of_id_aux. Qed.

Lemma dget_dmap {W} (f : V → W) d k : dget (dmap f d) k = f <$> dget d k.
Proof. induction d as [|[k' v'] d IH]; simpl; [done|]. by case_decide. Qed.

Lemma dkeys_dmap {W} (f : V → W) d : (dmap f d).*1 = d.*1.
Proof. unfold dmap. rewrite <-list_fmap_compose. done. Qed.

Lemma dict_wf_dmap {W} (f : V → W) d : dict_wf d → dict_wf (dmap f d).
Proof. unfold dict_wf. by rewrite dkeys_dmap. Qed.
End dict_lemmas.

(** * Ranges *)
Lemma zrange_NoDup lo hi : NoDup (zrange lo hi).
Proof. apply NoDup_fmap_2; [|apply NoDup_seq]. intros ???. lia. Qed.

Lemma elem_of_zrange lo hi x : x ∈ zrange lo hi ↔ lo ≤ x < hi.
Proof.
  unfold zrange. rewrite list_elem_of_fmap. split.
  - intros (i & -> & Hi%elem_of_seq). lia.
  - intros Hx. exists (Z.to_nat (x - lo)). rewrite elem_of_seq. lia.
Qed.

(** ** Beginnings of a text *)
Lemma startswith_app s t : startswith (s ++ t)%string s = true.
Proof.
  induction s as [|c s IH]; [by destruct t|].
  change (bool_decide (c = c) && startswith (s ++ t)%string s = true). by rewrite bool_decide_true, IH.
Qed.
Lemma startswith_inv s p : startswith s p = true → ∃ r, s = (p ++ r)%string.
Proof.
  revert s. induction p as [|c p IH]; intros s; [by exists s|]. destruct s as [|d s]; [done|].
  change (bool_decide (c = d) && startswith s p = true → ∃ r, String d s = (String c p ++ r)%string).
  case_bool_decide as Hc; [subst d|done]. intros [r ->]%IH. by exists r.
Qed.

(** * Automation *)
Create HintDb openblade.
#[export] Hint Resolve dict_wf_dset dict_wf_ddel dsetdefault_wf dict_of_wf dict_wf_dmap
  : openblade.
#[export] Hint Rewrite @dget_dset_eq @dget_dmap @dkeys_dmap : openblade.

(** Unfold the monad, one layer of every operator. *)
Ltac monad_unfold :=
  unfold mret, mbind, fmap, M_ret, M_bind, M_fmap, result_ret, result_bind, result_fmap,
    raise, getS, gets, modify, liftR, raise_if, raise_unless, when, try_finally, try_except,
    zoom, dindex in *.

Ltac msimp := monad_unfold; cbn [fst snd] in *; simplify_eq/=.

(** Case on every test of a monadic program, discarding the impossible ones. *)
Ltac mcases := repeat (msimp; case_match; simplify_eq/=); msimp.

(** * Dictionaries as lists of entries *)
Section dict_split.
Context {K : Type} `{EqDecision K} {V : Type}.
Implicit Types (d : dict K V) (k : K) (v : V).

(** The entry a lookup finds, and what assigning it does to the list. *)
Lemma dget_split d k v0 : dget d k = Some v0 →
  ∃ d1 d2, d = d1 ++ (k, v0) :: d2 ∧ ∀ v, dset d k v = d1 ++ (k, v) :: d2.
Proof.
  induction d as [|[k' v'] d IH]; simpl; [done|]. case_decide; subst.
  - intros [= ->]. by exists [], d.
  - intros (d1 & d2 & -> & Hset)%IH. exists ((k', v') :: d1), d2. split; [done|].
    intros v. simpl. by rewrite Hset.
Qed.

(** The values selected by [f] before and after assigning an existing key. *)
Lemma omap_dset_perm {B} (f : V → option B) d k v0 : dget d k = Some v0 →
  ∃ rest, omap f d.*2 ≡ₚ option_list (f v0) ++ rest ∧
          ∀ v, omap f (dset d k v).*2 ≡ₚ option_list (f v) ++ rest.
Proof.
  intros (d1 & d2 & -> & Hset)%dget_split.
  exists (omap f d1.*2 ++ omap f d2.*2).
  assert (∀ v, omap f (d1 ++ (k, v) :: d2).*2 ≡ₚ
               option_list (f v) ++ omap f d1.*2 ++ omap f d2.*2) as H.
  { intros v. rewrite fmap_app, omap_app. csimpl. destruct (f v); simpl; [|done].
    by rewrite Permutation_middle. }
  split; [done|]. intros v. by rewrite Hset.
Qed.

(** Assigning a key replaces its entry, if any, up to order. *)
Lemma dset_perm d k : dict_wf d →
  ∃ rest, d ≡ₚ option_list (pair k <$> dget d k) ++ rest ∧ k ∉ rest.*1 ∧
          ∀ v, dset d k v ≡ₚ (k, v) :: rest.
Proof.
  intros Hwf. destruct (dget d k) as [v0|] eqn:Hg; simpl.
  - destruct (dget_split d k v0 Hg) as (d1 & d2 & Hd & Hset). exists (d1 ++ d2).
    unfold dict_wf in Hwf. rewrite Hd, fmap_app in Hwf. csimpl in Hwf.
    rewrite <-Permutation_middle in Hwf. apply NoDup_cons in Hwf as [Hk _].
    split_and!; [by rewrite Hd, <-Permutation_middle | by rewrite fmap_app |].
    intros v. by rewrite Hset, <-Permutation_middle.
  - exists d. split_and!; [done | by apply dget_None |].
    intros v. rewrite dset_notin by done. by rewrite <-Permutation_cons_append.
Qed.

Lemma dset_dset d k v v' : dset (dset d k v) k v' = dset d k v'.
Proof.
  induction d as [|[k' v0] d IH]; simpl; [by rewrite decide_True|].
  case_decide as Hk; simpl; [by rewrite decide_True|]. rewrite decide_False by done.
  by rewrite IH.
Qed.

Lemma dset_id d k v : dget d k = Some v → dset d k v = d.
Proof. intros (d1 & d2 & -> & Hset)%dget_split. apply Hset. Qed.

Lemma Forall_dset (P : K * V → Prop) d k v :
  Forall P d → P (k, v) → Forall P (dset d k v).
Proof.
  intros Hd Hv. induction Hd as [|[k' v'] d Hkv Hd IH]; simpl; [by constructor|].
  case_decide; by constructor.
Qed.

Lemma Forall_dget (P : K * V → Prop) d k v : Forall P d → dget d k = Some v → P (k, v).
Proof. intros Hd Hv%dget_Some_elem. rewrite Forall_forall in Hd. auto. Qed.
End dict_split.

(** * Mapping a function that can raise *)
Lemma mapR_Ok {A B} (f : A → result B) l l' :
  mapR f l = Ok l' ↔ Forall2 (λ a b, f a = Ok b) l l'.
Proof.
  revert l'. induction l as [|a l IH]; simpl; intros l'.
  - split; [intros [= <-]; constructor | by inversion 1].
  - unfold mbind, result_bind. split.
    + destruct (f a) as [b|] eqn:Ha; [|done]. destruct (mapR f l) as [bs|]; [|done].
      intros [= <-]. constructor; [done|]. by apply IH.
    + inversion 1 as [|? b ? bs Hb Hbs]; subst. rewrite Hb.
      by rewrite (proj2 (IH bs) Hbs).
Qed.

Lemma mapR_fmap_id {A B} (f : A → B) (g : B → result A) (l : list A) :
  Forall (λ a, g (f a) = Ok a) l → mapR g (f <$> l) = Ok l.
Proof. intros H. apply mapR_Ok. induction H; by constructor. Qed.

Lemma mapR_fmap {A B C} (f : B → result C) (g : A → B) l : mapR f (g <$> l) = mapR (λ x, f (g x)) l.
Proof. induction l as [|x l IH]; csimpl; [done|]. by destruct (f (g x)); simpl; rewrite ?IH. Qed.

Lemma mapR_is_ok {A B} (f : A → result B) l l' x : mapR f l = Ok l' → x ∈ l → is_ok (f x) = true.
Proof.
  intros Hm%mapR_Ok Hx. induction Hm as [|a b l l' Hab _ IH]; [by apply not_elem_of_nil in Hx|].
  apply elem_of_cons in Hx as [->|Hx]; [by rewrite Hab | auto].
Qed.

Lemma mapR_raise {A B} (f : A → result B) l e : mapR f l = Raise e → ∃ x, f x = Raise e.
Proof.
  induction l as [|x l IH]; simpl; [done|]. destruct (f x) as [y|e'] eqn:Hf; simpl.
  - destruct (mapR f l); [done|]. intros [= ->]. by apply IH.
  - intros [= ->]. by exists x.
Qed.

(** * Selecting from lists *)
Section selecting.
Context {A : Type}.
Implicit Types (P Q : A → Prop) (l : list A).

Lemma filter_all P `{∀ x, Decision (P x)} l : (∀ x, x ∈ l → P x) → filter P l = l.
Proof.
  induction l as [|x l IH]; [done|]. intros Hl. rewrite filter_cons_True by (apply Hl; by left).
  f_equal. apply IH. intros y Hy. apply Hl. by right.
Qed.

Lemma filter_ext_in P Q `{∀ x, Decision (P x), ∀ x, Decision (Q x)} l :
  (∀ x, x ∈ l → P x ↔ Q x) → filter P l = filter Q l.
Proof.
  induction l as [|x l IH]; [done|]. intros Hl. rewrite !filter_cons.
  rewrite IH by (intros y Hy; apply Hl; by right).
  pose proof (Hl x ltac:(by left)). do 2 case_decide; tauto || done.
Qed.

Lemma length_filter_split P `{∀ x, Decision (P x)} l :
  length l = (length (filter P l) + length (filter (λ x, ¬ P x) l))%nat.
Proof.
  induction l as [|x l IH]; [done|]. rewrite !filter_cons.
  destruct (decide (P x)), (decide (¬ P x)); simpl; tauto || lia.
Qed.

Lemma NoDup_fmap_inj {B} (f : A → B) l x y :
  NoDup (f <$> l) → x ∈ l → y ∈ l → f x = f y → x = y.
Proof.
  intros Hnd [i Hi]%list_elem_of_lookup_1 [j Hj]%list_elem_of_lookup_1 Hf.
  assert (i = j) as <-; [|congruence].
  eapply NoDup_lookup; [done|..]; rewrite list_lookup_fmap; [by rewrite Hi | by rewrite Hj, Hf].
Qed.
End selecting.

(** What every assignment of a loop preserves. *)
Lemma foldl_inv {A B} (Q : B → Prop) (f : B → A → B) (l : list A) b :
  Q b → (∀ b x, x ∈ l → Q b → Q (f b x)) → Q (foldl f b l).
Proof.
  intros Hb Hf. revert b Hb. induction l as [|x l IH]; intros b Hb; simpl; [done|].
  apply IH; [|apply Hf; [by left | done]]. intros b' y Hy. apply Hf. by right.
Qed.
