(* ===== verification/Wp.v ===== *)
(** A weakest-precondition calculus for the state-and-exception monad of the
    prelude.  [wp m Q E s] says that running [m] in [s] either returns a value
    and a state satisfying [Q], or raises with an exception and a state
    satisfying [E].  One rule per operator; [wp_step] applies the one that fits. *)
From stdpp Require Import base list option strings.
From Stdlib Require Import ZArith Lia.
From S2P Require Import Prelude.

Definition wp {S A} (m : M S A) (Q : A → S → Prop) (E : exn → S → Prop) (s : S) : Prop :=
  match m s with
  | (Ok a, s') => Q a s'
  | (Raise e, s') => E e s'
  end.

Section rules.
Context {S : Type}.

Lemma wp_mono {A} (m : M S A) (Q Q' : A → S → Prop) (E E' : exn → S → Prop) s :
  wp m Q E s → (∀ a s', Q a s' → Q' a s') → (∀ e s', E e s' → E' e s') → wp m Q' E' s.
Proof. unfold wp. destruct (m s) as [[]]; auto. Qed.

Lemma wp_trivial {A} (m : M S A) s : wp m (λ _ _, True) (λ _ _, True) s.
Proof. unfold wp. by destruct (m s) as [[]]. Qed.

Lemma wp_and {A} (m : M S A) (Q Q' : A → S → Prop) (E E' : exn → S → Prop) s :
  wp m Q E s → wp m Q' E' s → wp m (λ a s', Q a s' ∧ Q' a s') (λ e s', E e s' ∧ E' e s') s.
Proof. unfold wp. by destruct (m s) as [[]]. Qed.

Lemma wp_ret {A} (a : A) (Q : A → S → Prop) E s : Q a s → wp (mret a) Q E s.
Proof. done. Qed.

Lemma wp_bind {A B} (m : M S A) (f : A → M S B) (Q : B → S → Prop) E s :
  wp m (λ a, wp (f a) Q E) E s → wp (m ≫= f) Q E s.
Proof. unfold wp, mbind, M_bind. by destruct (m s) as [[]]. Qed.

Lemma wp_fmap {A B} (f : A → B) (m : M S A) (Q : B → S → Prop) E s :
  wp m (λ a, Q (f a)) E s → wp (f <$> m) Q E s.
Proof. unfold wp, fmap, M_fmap, mbind, M_bind. by destruct (m s) as [[]]. Qed.

Lemma wp_raise {A} e (Q : A → S → Prop) (E : exn → S → Prop) s :
  E e s → wp (raise e) Q E s.
Proof. done. Qed.

Lemma wp_getS (Q : S → S → Prop) E s : Q s s → wp getS Q E s.
Proof. done. Qed.

Lemma wp_gets {A} (f : S → A) (Q : A → S → Prop) E s : Q (f s) s → wp (gets f) Q E s.
Proof. done. Qed.

Lemma wp_modify (f : S → S) (Q : () → S → Prop) E s : Q tt (f s) → wp (modify f) Q E s.
Proof. done. Qed.

Lemma wp_liftR {A} (r : result A) (Q : A → S → Prop) (E : exn → S → Prop) s :
  (∀ a, r = Ok a → Q a s) → (∀ e, r = Raise e → E e s) → wp (liftR r) Q E s.
Proof. unfold wp, liftR. destruct r; auto. Qed.

Lemma wp_raise_if b e (Q : () → S → Prop) (E : exn → S → Prop) s :
  (b = true → E e s) → (b = false → Q tt s) → wp (raise_if b e) Q E s.
Proof. unfold wp, raise_if. destruct b; auto. Qed.

Lemma wp_when b (m : M S ()) (Q : () → S → Prop) E s :
  (b = true → wp m Q E s) → (b = false → Q tt s) → wp (when b m) Q E s.
Proof. unfold wp, when. destruct b; [intros H _; by apply H | intros _ H; by apply H]. Qed.

Lemma wp_zoom {T A} (proj : S → T) (upd : T → S → S) (m : M T A) (Q : A → S → Prop)
    (E : exn → S → Prop) s :
  wp m (λ a t, Q a (upd t s)) (λ e t, E e (upd t s)) (proj s) → wp (zoom proj upd m) Q E s.
Proof. unfold wp, zoom. by destruct (m (proj s)) as [[]]. Qed.

Lemma wp_dindex `{EqDecision K} {V} (d : dict K V) (k : K) (Q : V → S → Prop)
    (E : exn → S → Prop) s :
  (∀ v, dget d k = Some v → Q v s) → (dget d k = None → E KeyError s) →
  wp (dindex d k) Q E s.
Proof. unfold wp, dindex. destruct (dget d k); auto. Qed.

Lemma wp_try_finally {A} (m : M S A) (fin : M S ()) (Q : A → S → Prop)
    (E : exn → S → Prop) s :
  wp m (λ a, wp fin (λ _ s', Q a s') E) (λ e, wp fin (λ _ s', E e s') E) s →
  wp (try_finally m fin) Q E s.
Proof.
  unfold wp, try_finally. destruct (m s) as [[] s1]; by destruct (fin s1) as [[]].
Qed.

Lemma wp_attempt {A} (m : M S A) (Q : result A → S → Prop) E s :
  wp m (λ a, Q (Ok a)) (λ e, Q (Raise e)) s → wp (attempt m) Q E s.
Proof. unfold wp, attempt. by destruct (m s) as [[]]. Qed.

Lemma wp_try_except {A} (m : M S A) (h : exn → M S A) (Q : A → S → Prop)
    (E : exn → S → Prop) s :
  wp m Q (λ e, wp (h e) Q E) s → wp (try_except m h) Q E s.
Proof. unfold wp, try_except. by destruct (m s) as [[]]. Qed.

(** Running through a list keeps an invariant that every step keeps. *)
Lemma wp_forM {A} (l : list A) (f : A → M S ()) (I : S → Prop) (E : exn → S → Prop) s :
  (∀ x s', x ∈ l → I s' → wp (f x) (λ _, I) E s') → I s → wp (forM l f) (λ _, I) E s.
Proof.
  revert s. induction l as [|x l IH]; intros s Hf HI; [done|]. simpl. apply wp_bind.
  eapply wp_mono; [apply Hf; [by left | done] | | done]. intros [] s' HI'. simpl.
  apply IH; [|done]. intros y s'' Hy. apply Hf. by right.
Qed.

(** Reading a triple off a run, and back. *)
Lemma wp_state {A} (m : M S A) (P : S → Prop) s : wp m (λ _, P) (λ _, P) s ↔ P (m s).2.
Proof. unfold wp. by destruct (m s) as [[]]. Qed.

Lemma wp_run {A} (m : M S A) (Q : A → S → Prop) (E : exn → S → Prop) s :
  wp m Q E s → ∀ r s', m s = (r, s') →
  match r with Ok a => Q a s' | Raise e => E e s' end.
Proof. unfold wp. intros H r s' Hm. rewrite Hm in H. by destruct r. Qed.

Lemma wp_unfold {A} (m : M S A) (Q : A → S → Prop) (E : exn → S → Prop) s :
  wp m Q E s ↔ match m s with (Ok a, s') => Q a s' | (Raise e, s') => E e s' end.
Proof. done. Qed.
End rules.

#[global] Opaque wp.

(** One step of a program; a test leaves one goal per outcome. *)
Ltac wp_step :=
  lazymatch goal with
  | |- wp (mbind _ _) _ _ _ => apply wp_bind
  | |- wp (fmap _ _) _ _ _ => apply wp_fmap
  | |- wp (mret _) _ _ _ => apply wp_ret
  | |- wp (raise _) _ _ _ => apply wp_raise
  | |- wp getS _ _ _ => apply wp_getS
  | |- wp (gets _) _ _ _ => apply wp_gets
  | |- wp (modify _) _ _ _ => apply wp_modify
  | |- wp (liftR _) _ _ _ => apply wp_liftR; [intros ? ?|intros ? ?]
  | |- wp (raise_if _ _) _ _ _ => apply wp_raise_if; intros ?
  | |- wp (when _ _) _ _ _ => apply wp_when; intros ?
  | |- wp (zoom _ _ _) _ _ _ => apply wp_zoom
  | |- wp (dindex _ _) _ _ _ => apply wp_dindex; [intros ? ?|intros ?]
  | |- wp (try_finally _ _) _ _ _ => apply wp_try_finally
  | |- wp (try_except _ _) _ _ _ => apply wp_try_except
  | |- wp (attempt _) _ _ _ => apply wp_attempt
  | |- wp (match ?x with _ => _ end) _ _ _ => destruct x eqn:?
  end; cbn beta.

(** * Relations a program preserves

    [preserves R m]: whatever the outcome of [m], its final state is related by
    [R] to its initial one.  For a preorder, one rule per operator. *)
Definition preserves {S A} (R : relation S) (m : M S A) : Prop := ∀ s, R s (m s).2.

(** [eq_on f]: the two states have the same [f]. *)
Definition eq_on {S B} (f : S → B) : relation S := λ s s', f s' = f s.
#[export] Instance eq_on_preorder {S B} (f : S → B) : PreOrder (eq_on f).
Proof. split; [done | by intros s1 s2 s3; unfold eq_on; intros -> ->]. Qed.

Section preserves.
Context {S : Type} (R : relation S) `{!PreOrder R}.

Lemma wp_preserves {A} (m : M S A) s : preserves R m → wp m (λ _, R s) (λ _, R s) s.
Proof. intros Hm. apply wp_state, Hm. Qed.

Lemma preserves_wp {A} (m : M S A) : (∀ s, wp m (λ _, R s) (λ _, R s) s) → preserves R m.
Proof. intros Hm s. by apply (wp_state m (R s)). Qed.

(** A step all of whose outcomes are accounted for by [R]. *)
Lemma wp_bind_preserves {A B} (m : M S A) (k : A → M S B) (Q : B → S → Prop)
    (E : exn → S → Prop) s s0 :
  preserves R m → R s0 s →
  (∀ e s', R s0 s' → E e s') → (∀ a s', R s0 s' → wp (k a) Q E s') → wp (m ≫= k) Q E s.
Proof.
  intros Hm H0 HE HQ. apply wp_bind. eapply wp_mono; [by apply wp_preserves| |]; cbn beta.
  - intros a s' Hs. apply HQ. by etrans.
  - intros e s' Hs. apply HE. by etrans.
Qed.

Lemma preserves_ret {A} (a : A) : preserves R (mret a).
Proof. by intros s. Qed.
Lemma preserves_raise {A} e : preserves R (raise (A := A) e).
Proof. by intros s. Qed.
Lemma preserves_getS : preserves R getS.
Proof. by intros s. Qed.
Lemma preserves_gets {A} (f : S → A) : preserves R (gets f).
Proof. by intros s. Qed.
Lemma preserves_liftR {A} (r : result A) : preserves R (liftR r).
Proof. by intros s. Qed.
Lemma preserves_raise_if b e : preserves R (raise_if b e).
Proof. intros s. unfold raise_if. by destruct b. Qed.
Lemma preserves_modify f : (∀ s, R s (f s)) → preserves R (modify f).
Proof. intros Hf s. apply Hf. Qed.
Lemma preserves_when b m : preserves R m → preserves R (when b m).
Proof. intros Hm s. unfold when. destruct b; [apply Hm | done]. Qed.

Lemma preserves_bind {A B} (m : M S A) (k : A → M S B) :
  preserves R m → (∀ a, preserves R (k a)) → preserves R (m ≫= k).
Proof.
  intros Hm Hk s. specialize (Hm s). unfold mbind, M_bind.
  destruct (m s) as [[a|e] s']; simpl in *; [|done]. etrans; [exact Hm | apply Hk].
Qed.
Lemma preserves_try_finally {A} (m : M S A) fin :
  preserves R m → preserves R fin → preserves R (try_finally m fin).
Proof.
  intros Hm Hfin s. unfold try_finally. specialize (Hm s). destruct (m s) as [r s1].
  specialize (Hfin s1). destruct (fin s1) as [[|] s2]; simpl in *; by etrans.
Qed.
Lemma preserves_try_except {A} (m : M S A) (h : exn → M S A) :
  preserves R m → (∀ e, preserves R (h e)) → preserves R (try_except m h).
Proof.
  intros Hm Hh s. unfold try_except. specialize (Hm s).
  destruct (m s) as [[a|e] s1]; simpl in *; [done|]. etrans; [exact Hm | apply Hh].
Qed.
Lemma preserves_forM {A} (l : list A) (f : A → M S ()) :
  (∀ x, x ∈ l → preserves R (f x)) → preserves R (forM l f).
Proof.
  induction l as [|x l IH]; intros Hf; simpl; [apply preserves_ret|].
  apply preserves_bind; [apply Hf; by left|]. intros _. apply IH. intros y Hy. apply Hf. by right.
Qed.
Lemma preserves_attempt {A} (m : M S A) : preserves R m → preserves R (attempt m).
Proof. intros Hm s. specialize (Hm s). unfold attempt. by destruct (m s). Qed.
End preserves.

Lemma preserves_zoom {S T A} (R : relation S) (R' : relation T) (proj : S → T)
    (upd : T → S → S) (m : M T A) :
  preserves R' m → (∀ s t, R' (proj s) t → R s (upd t s)) → preserves R (zoom proj upd m).
Proof.
  intros Hm Hup s. unfold zoom. specialize (Hm (proj s)). destruct (m (proj s)). by apply Hup.
Qed.

Lemma preserves_impl {S A} (R R' : relation S) (m : M S A) :
  (∀ s s', R s s' → R' s s') → preserves R m → preserves R' m.
Proof. intros Hi Hm s. apply Hi, Hm. Qed.

(** A clean-up that keeps what the body and its failure promise. *)
Lemma wp_finally_kept {S A} (R : relation S) (m : M S A) (fin : M S ()) (Q : A → S → Prop)
    (E : exn → S → Prop) s :
  preserves R fin →
  (∀ a s1 s2, Q a s1 → R s1 s2 → Q a s2) → (∀ a e s1 s2, Q a s1 → R s1 s2 → E e s2) →
  (∀ e e' s1 s2, E e s1 → R s1 s2 → E e' s2) →
  wp m Q E s → wp (try_finally m fin) Q E s.
Proof.
  intros Hfin HQ HQE HE Hm. apply wp_try_finally. eapply wp_mono; [exact Hm| |]; cbn beta.
  - intros a s1 H1. eapply wp_mono; [by apply wp_preserves| |]; cbn beta; eauto.
  - intros e s1 H1. eapply wp_mono; [by apply wp_preserves| |]; cbn beta; eauto.
Qed.

(** A handler that takes a note and raises again. *)
Lemma wp_reraise {S A} (R : relation S) (m : M S A) (note : exn → M S ()) (Q : A → S → Prop)
    (E : exn → S → Prop) s :
  (∀ e, preserves R (note e)) → (∀ e e' s1 s2, E e s1 → R s1 s2 → E e' s2) →
  wp m Q E s → wp (try_except m (λ e, note e;; raise e)) Q E s.
Proof.
  intros Hn HE Hm. apply wp_try_except. eapply wp_mono; [exact Hm|done|]. cbn beta.
  intros e s1 H1. apply wp_bind. eapply wp_mono; [apply wp_preserves, Hn| |]; cbn beta; [|eauto].
  intros _ s2 H2. apply wp_raise. eauto.
Qed.

Create HintDb preserves.
#[export] Hint Resolve preserves_ret preserves_raise preserves_getS preserves_gets preserves_liftR
  preserves_raise_if : preserves.

(** Follow the program; the lemmas about its leaves are in the database. *)
Ltac solve_preserves :=
  repeat first
    [ progress intros
    | solve [eauto with preserves typeclass_instances]
    | match goal with |- preserves _ (modify _) => solve [apply preserves_modify; done] end
    | apply preserves_bind; [apply _|..]
    | apply preserves_when; [apply _|..]
    | apply preserves_try_finally; [apply _|..]
    | apply preserves_try_except; [apply _|..]
    | apply preserves_forM; [apply _|..]
    | apply preserves_attempt
    | match goal with |- preserves _ (match ?x with _ => _ end) => destruct x end ].
