(* ===== verification/Domain.v ===== *)
(** The domain layer: openblade/domain/{models,states,capacity,policies,
    media_allowlist,scalar_coordinate,wire}.py.

    Enumerations with their wire values, barcodes, the records the backends
    exchange, the state-transition tables, the free-space policy, the safety
    policies guarding destructive operations, the scratch-media allowlist and
    the [moveClass] bit field. *)
From stdpp Require Import base list option strings.
From Stdlib Require Import Ascii ZArith QArith Lia.
From S2P Require Import Prelude.
#[local] Open Scope string_scope.
#[local] Open Scope Z_scope.

(** * String enumerations

    A [class X(str, Enum)]: its members in definition order and their values. *)
Class StrEnum (A : Type) := {
  enum_value : A → string;
  enum_members : list A;
}.
#[global] Hint Mode StrEnum ! : typeclass_instances.
#[global] Arguments enum_value {A _} _ : simpl never.

(** What [X(value)] needs: every member is listed and values are distinct. *)
Class StrEnumLaws (A : Type) `{StrEnum A} : Prop := {
  enum_members_all (a : A) : a ∈ (enum_members : list A);
  enum_value_inj (a b : A) : enum_value a = enum_value b → a = b;
}.

(** [X(value)]: the member with this value, [ValueError] when there is none. *)
Definition enum_of_value {A} `{StrEnum A} (s : string) : result A :=
  match list_find (λ a, enum_value a = s) (enum_members : list A) with
  | Some (_, a) => Ok a
  | None => Raise ValueError
  end.
#[global] Arguments enum_of_value {A _} _ : simpl never.

Ltac solve_enum_laws :=
  split; [intros []; apply (bool_decide_unpack _); vm_compute; exact I
         | intros [] []; vm_compute; done].

Module CartridgeState.
Inductive cartridge_state := IN_SLOT | IN_DRIVE | EXPORTED | MISSING | CLEANING.
Definition cartridge_state_value (x : cartridge_state) : string :=
  match x with
  | IN_SLOT => "in_slot"
  | IN_DRIVE => "in_drive"
  | EXPORTED => "exported"
  | MISSING => "missing"
  | CLEANING => "cleaning"
  end.
Definition cartridge_state_members : list cartridge_state :=
  [IN_SLOT; IN_DRIVE; EXPORTED; MISSING; CLEANING].
End CartridgeState.
Notation cartridge_state := CartridgeState.cartridge_state.
#[export] Instance cartridge_state_eq_dec : EqDecision cartridge_state.
Proof. solve_decision. Defined.
#[export] Instance cartridge_state_enum : StrEnum cartridge_state :=
  {| enum_value := CartridgeState.cartridge_state_value; enum_members := CartridgeState.cartridge_state_members |}.
#[export] Instance cartridge_state_enum_laws : StrEnumLaws cartridge_state.
Proof. solve_enum_laws. Qed.

Module DriveState.
Inductive drive_state := EMPTY | LOADED | BUSY | FAILED.
Definition drive_state_value (x : drive_state) : string :=
  match x with
  | EMPTY => "empty"
  | LOADED => "loaded"
  | BUSY => "busy"
  | FAILED => "failed"
  end.
Definition drive_state_members : list drive_state :=
  [EMPTY; LOADED; BUSY; FAILED].
End DriveState.
Notation drive_state := DriveState.drive_state.
#[export] Instance drive_state_eq_dec : EqDecision drive_state.
Proof. solve_decision. Defined.
#[export] Instance drive_state_enum : StrEnum drive_state :=
  {| enum_value := DriveState.drive_state_value; enum_members := DriveState.drive_state_members |}.
#[export] Instance drive_state_enum_laws : StrEnumLaws drive_state.
Proof. solve_enum_laws. Qed.

Module MountState.
Inductive mount_state := UNMOUNTED | MOUNTED_RO | MOUNTED_RW | DIRTY.
Definition mount_state_value (x : mount_state) : string :=
  match x with
  | UNMOUNTED => "unmounted"
  | MOUNTED_RO => "mounted_ro"
  | MOUNTED_RW => "mounted_rw"
  | DIRTY => "dirty"
  end.
Definition mount_state_members : list mount_state :=
  [UNMOUNTED; MOUNTED_RO; MOUNTED_RW; DIRTY].
End MountState.
Notation mount_state := MountState.mount_state.
#[export] Instance mount_state_eq_dec : EqDecision mount_state.
Proof. solve_decision. Defined.
#[export] Instance mount_state_enum : StrEnum mount_state :=
  {| enum_value := MountState.mount_state_value; enum_members := MountState.mount_state_members |}.
#[export] Instance mount_state_enum_laws : StrEnumLaws mount_state.
Proof. solve_enum_laws. Qed.

Module ChangerState.
Inductive changer_state := IDLE | MOVING | ERROR.
Definition changer_state_value (x : changer_state) : string :=
  match x with
  | IDLE => "idle"
  | MOVING => "moving"
  | ERROR => "error"
  end.
Definition changer_state_members : list changer_state :=
  [IDLE; MOVING; ERROR].
End ChangerState.
Notation changer_state := ChangerState.changer_state.
#[export] Instance changer_state_eq_dec : EqDecision changer_state.
Proof. solve_decision. Defined.
#[export] Instance changer_state_enum : StrEnum changer_state :=
  {| enum_value := ChangerState.changer_state_value; enum_members := ChangerState.changer_state_members |}.
#[export] Instance changer_state_enum_laws : StrEnumLaws changer_state.
Proof. solve_enum_laws. Qed.

Module JobState.
Inductive job_state := PENDING | RUNNING | COMPLETED | FAILED | FAILED_RECOVERABLE | CANCELLED.
Definition job_state_value (x : job_state) : string :=
  match x with
  | PENDING => "pending"
  | RUNNING => "running"
  | COMPLETED => "completed"
  | FAILED => "failed"
  | FAILED_RECOVERABLE => "failed_recoverable"
  | CANCELLED => "cancelled"
  end.
Definition job_state_members : list job_state :=
  [PENDING; RUNNING; COMPLETED; FAILED; FAILED_RECOVERABLE; CANCELLED].
End JobState.
Notation job_state := JobState.job_state.
#[export] Instance job_state_eq_dec : EqDecision job_state.
Proof. solve_decision. Defined.
#[export] Instance job_state_enum : StrEnum job_state :=
  {| enum_value := JobState.job_state_value; enum_members := JobState.job_state_members |}.
#[export] Instance job_state_enum_laws : StrEnumLaws job_state.
Proof. solve_enum_laws. Qed.

Module JobType.
Inductive job_type := ARCHIVE | RESTORE | FORMAT | VERIFY | INVENTORY | IMPORT | EXPORT.
Definition job_type_value (x : job_type) : string :=
  match x with
  | ARCHIVE => "archive"
  | RESTORE => "restore"
  | FORMAT => "format"
  | VERIFY => "verify"
  | INVENTORY => "inventory"
  | IMPORT => "import"
  | EXPORT => "export"
  end.
Definition job_type_members : list job_type :=
  [ARCHIVE; RESTORE; FORMAT; VERIFY; INVENTORY; IMPORT; EXPORT].
End JobType.
Notation job_type := JobType.job_type.
#[export] Instance job_type_eq_dec : EqDecision job_type.
Proof. solve_decision. Defined.
#[export] Instance job_type_enum : StrEnum job_type :=
  {| enum_value := JobType.job_type_value; enum_members := JobType.job_type_members |}.
#[export] Instance job_type_enum_laws : StrEnumLaws job_type.
Proof. solve_enum_laws. Qed.

Module MountMode.
Inductive mount_mode := READ_ONLY | READ_WRITE.
Definition mount_mode_value (x : mount_mode) : string :=
  match x with
  | READ_ONLY => "read_only"
  | READ_WRITE => "read_write"
  end.
Definition mount_mode_members : list mount_mode :=
  [READ_ONLY; READ_WRITE].
End MountMode.
Notation mount_mode := MountMode.mount_mode.
#[export] Instance mount_mode_eq_dec : EqDecision mount_mode.
Proof. solve_decision. Defined.
#[export] Instance mount_mode_enum : StrEnum mount_mode :=
  {| enum_value := MountMode.mount_mode_value; enum_members := MountMode.mount_mode_members |}.
#[export] Instance mount_mode_enum_laws : StrEnumLaws mount_mode.
Proof. solve_enum_laws. Qed.

Module FileInstanceState.
Inductive file_instance_state := PENDING | STAGING | VERIFYING | ARCHIVED | VERIFIED | FAILED | QUARANTINED.
Definition file_instance_state_value (x : file_instance_state) : string :=
  match x with
  | PENDING => "pending"
  | STAGING => "staging"
  | VERIFYING => "verifying"
  | ARCHIVED => "archived"
  | VERIFIED => "verified"
  | FAILED => "failed"
  | QUARANTINED => "quarantined"
  end.
Definition file_instance_state_members : list file_instance_state :=
  [PENDING; STAGING; VERIFYING; ARCHIVED; VERIFIED; FAILED; QUARANTINED].
End FileInstanceState.
Notation file_instance_state := FileInstanceState.file_instance_state.
#[export] Instance file_instance_state_eq_dec : EqDecision file_instance_state.
Proof. solve_decision. Defined.
#[export] Instance file_instance_state_enum : StrEnum file_instance_state :=
  {| enum_value := FileInstanceState.file_instance_state_value; enum_members := FileInstanceState.file_instance_state_members |}.
#[export] Instance file_instance_state_enum_laws : StrEnumLaws file_instance_state.
Proof. solve_enum_laws. Qed.

(** * Barcodes *)
Definition is_barcode_char (c : ascii) : bool :=
  let n := Ascii.N_of_ascii c in
  bool_decide (65 ≤ n ≤ 90)%N || bool_decide (48 ≤ n ≤ 57)%N.

(** [_BARCODE_RE.fullmatch]: exactly eight characters of [A-Z0-9]. *)
Definition barcode_re (s : string) : bool :=
  let l := String.list_ascii_of_string s in
  bool_decide (length l = 8%nat) && forallb is_barcode_char l.

(** A [Barcode] is represented by its [value], which the constructor normalises. *)
Notation barcode := string.

Definition Barcode (value : string) : result barcode :=
  let normalized := upper value in
  if barcode_re normalized then Ok normalized else Raise ValueError.

(** * Records exchanged by the backends *)
Record slot_state := SlotStateRec {
  ss_slot_id : Z;
  ss_barcode : option barcode;
  ss_occupied : bool;
}.

Definition is_some {A} (o : option A) : bool :=
  match o with Some _ => true | None => false end.

(** [SlotState(...)], with the check of [__post_init__]. *)
Definition SlotState (slot_id : Z) (bc : option barcode) (occupied : bool)
    : result slot_state :=
  if bool_decide (occupied ≠ is_some bc) then Raise ValueError
  else Ok (SlotStateRec slot_id bc occupied).

Record drive_status := DriveStatus {
  ds_drive_id : Z;
  ds_barcode : option barcode;
  ds_drive_state : drive_state;
  ds_mount_state : mount_state;
}.

Record library_inventory := LibraryInventory {
  inv_library_id : string;
  inv_slots : list slot_state;
  inv_drives : list drive_status;
  inv_changer_state : changer_state;
}.

Record mount_handle := MountHandle {
  mh_handle_id : string;
  mh_barcode : barcode;
  mh_drive_id : Z;
  mh_mode : mount_mode;
  mh_mount_path : string;
}.

Record ltfs_file_stat := LTFSFileStat {
  fs_path : string;
  fs_size_bytes : Z;
  fs_checksum_sha256 : string;
  fs_modified_at : Z;
}.

Record operation_result := OperationResult {
  op_success : bool;
  op_message : string;
  op_details : dict string json;
}.

Record drive_lease := DriveLease {
  dl_id : string;
  dl_drive_id : Z;
  dl_job_id : string;
  dl_barcode : string;
  dl_physical_drive_id : option Z;
  dl_fencing_token : Z;
  dl_acquired_at : Z;
  dl_heartbeat_at : Z;
  dl_expires_at : Z;
  dl_released_at : option Z;
}.

(** * State transitions (states.py) *)
Section transitions.
Context {A : Type} `{EqDecision A}.

Definition _validate_transition (transitions : dict A (list A)) (from to : A) : result unit :=
  if decide (from = to) then Ok tt
  else raise_unless (bool_decide (to ∈ dget_or transitions from [])) InvalidStateTransitionError.
End transitions.

Definition CARTRIDGE_TRANSITIONS : dict cartridge_state (list cartridge_state) :=
  [ (CartridgeState.IN_SLOT, [CartridgeState.IN_DRIVE; CartridgeState.EXPORTED]);
    (CartridgeState.IN_DRIVE, [CartridgeState.IN_SLOT]);
    (CartridgeState.EXPORTED, [CartridgeState.IN_SLOT]);
    (CartridgeState.MISSING, [CartridgeState.IN_SLOT]);
    (CartridgeState.CLEANING, [CartridgeState.IN_SLOT; CartridgeState.IN_DRIVE]) ].

Definition DRIVE_TRANSITIONS : dict drive_state (list drive_state) :=
  [ (DriveState.EMPTY, [DriveState.LOADED]);
    (DriveState.LOADED, [DriveState.EMPTY; DriveState.BUSY; DriveState.FAILED]);
    (DriveState.BUSY, [DriveState.LOADED; DriveState.FAILED]);
    (DriveState.FAILED, [DriveState.EMPTY]) ].

Definition MOUNT_TRANSITIONS : dict mount_state (list mount_state) :=
  [ (MountState.UNMOUNTED, [MountState.MOUNTED_RO; MountState.MOUNTED_RW]);
    (MountState.MOUNTED_RO, [MountState.UNMOUNTED]);
    (MountState.MOUNTED_RW, [MountState.UNMOUNTED; MountState.DIRTY]);
    (MountState.DIRTY, [MountState.UNMOUNTED]) ].

Definition validate_cartridge_transition : cartridge_state → cartridge_state → result unit :=
  _validate_transition CARTRIDGE_TRANSITIONS.
Definition validate_drive_transition : drive_state → drive_state → result unit :=
  _validate_transition DRIVE_TRANSITIONS.
Definition validate_mount_transition : mount_state → mount_state → result unit :=
  _validate_transition MOUNT_TRANSITIONS.

Definition can_unload_drive (ds : drive_state) (ms : mount_state) : bool :=
  bool_decide (ms = MountState.UNMOUNTED)
  && bool_decide (ds ∈ [DriveState.LOADED; DriveState.FAILED]).

(** * Free-space policy (capacity.py) *)
Definition CAPACITY_RESERVE_MAX_BYTES : Z := 64 * 1024 * 1024.
Definition CAPACITY_RESERVE_DIVISOR : Z := 100.

Definition capacity_reserve_bytes (capacity_bytes : Z) : Z :=
  if bool_decide (capacity_bytes ≤ 0) then 0
  else Z.min CAPACITY_RESERVE_MAX_BYTES (capacity_bytes / CAPACITY_RESERVE_DIVISOR).

Definition usable_remaining_bytes (capacity_bytes used_bytes : Z) : Z :=
  let free := capacity_bytes - used_bytes in
  Z.max 0 (free - capacity_reserve_bytes capacity_bytes).

Definition has_room_for (capacity_bytes used_bytes size_bytes : Z) : bool :=
  let usable := usable_remaining_bytes capacity_bytes used_bytes in
  bool_decide (0 < usable) && bool_decide (size_bytes ≤ usable).

(** * Safety policies (policies.py)

    Times are integers of one clock; [now] is the reading of [time.time()]. *)
Record safety_token := SafetyToken {
  st_token : string;
  st_operation : string;
  st_target_barcode : string;
  st_expires_at : Z;
}.

(** [secret] is the value of [secrets.token_urlsafe(32)]. *)
Definition SafetyToken_generate (secret : string) (now : Z)
    (operation target_barcode : string) (ttl_seconds : Z) : safety_token :=
  SafetyToken secret operation target_barcode (now + ttl_seconds).

Definition SafetyToken_is_valid (now : Z) (t : safety_token) : bool :=
  bool_decide (now < st_expires_at t).

Definition SafetyToken_validate (now : Z) (t : safety_token) : result unit :=
  raise_unless (SafetyToken_is_valid now t) SafetyViolationError.

Record format_confirmation := FormatConfirmation {
  fc_expected_barcode : string;
  fc_safety_token : safety_token;
  fc_operator_note : string;
}.

Definition FormatConfirmation_validate (now : Z) (c : format_confirmation)
    (actual_barcode : string) : result unit :=
  _ ← SafetyToken_validate now (fc_safety_token c);
  raise_unless (bool_decide (fc_expected_barcode c = actual_barcode)) BarcodeMismatchError.

Record real_hardware_guard := RealHardwareGuard {
  rg_config_backend : string;
  rg_config_real_hardware_enabled : bool;
  rg_operator_acknowledgment : string;
}.

Definition RealHardwareGuard_validate (g : real_hardware_guard) : result unit :=
  if bool_decide (rg_config_backend g ≠ "real") || negb (rg_config_real_hardware_enabled g)
  then Raise RealHardwareDisabledError
  else raise_unless (bool_decide (rg_operator_acknowledgment g ≠ "")) RealHardwareDisabledError.

(** * Scratch-media allowlist (media_allowlist.py) *)

(** [_SEPARATORS.split]: maximal runs of white space and commas separate the
    tokens; empty tokens, at either end, are the ones the caller drops. *)
Definition is_separator (c : ascii) : bool :=
  is_space c || bool_decide (c = "," % char).

Fixpoint split_tokens (cur : list ascii) (l : list ascii) : list (list ascii) :=
  match l with
  | [] => [rev cur]
  | c :: l =>
      if is_separator c then rev cur :: split_tokens [] l else split_tokens (c :: cur) l
  end.

(** The keys of the dict [seen], in insertion order. *)
Definition add_seen (seen : list string) (b : string) : list string :=
  if bool_decide (b ∈ seen) then seen else (seen ++ [b])%list.

Definition parse_barcodes (raw : option string) : list string :=
  let tokens := split_tokens [] (String.list_ascii_of_string (default "" raw)) in
  foldl (λ seen t,
    match t with
    | [] => seen
    | _ => add_seen seen (upper (strip (String.string_of_list_ascii t)))
    end) [] tokens.

(** [",".join(barcodes)]. *)
Fixpoint str_join (sep : string) (l : list string) : string :=
  match l with
  | [] => ""
  | [x] => x
  | x :: l => x ++ sep ++ str_join sep l
  end.

Definition format_barcodes (barcodes : list string) : string := str_join "," barcodes.

Definition check_subset (requested allowlist : list string) : result (list string) :=
  match allowlist with
  | [] => Raise AllowlistError
  | _ =>
    match requested with
    | [] => Raise AllowlistError
    | _ =>
      match filter (λ b, b ∉ allowlist) requested with
      | [] => Ok requested
      | _ => Raise AllowlistError
      end
    end
  end.

Definition is_scratch_barcode (bc : string) (allowlist : list string) : bool :=
  match allowlist with
  | [] => false
  | _ => bool_decide (upper (strip bc) ∈ allowlist)
  end.

(** * Scalar coordinates and the moveClass bit field (scalar_coordinate.py) *)
Record scalar_coordinate := ScalarCoordinate {
  sc_frame : Z; sc_rack : Z; sc_section : Z; sc_column : Z; sc_row : Z;
  sc_element_type : Z;
}.

Definition ScalarCoordinate_to_dict (c : scalar_coordinate) : dict string json :=
  [ ("frame", JInt (sc_frame c)); ("rack", JInt (sc_rack c));
    ("section", JInt (sc_section c)); ("column", JInt (sc_column c));
    ("row", JInt (sc_row c)); ("type", JInt (sc_element_type c)) ].

(** [data[key]] inside the [try]. *)
Definition jindex (d : dict string json) (k : string) : result json :=
  match dget d k with Some j => Ok j | None => Raise KeyError end.

(** [except (KeyError, TypeError, ValueError) as exc: raise ValueError]. *)
Definition as_value_error {A} (r : result A) : result A :=
  match r with
  | Raise KeyError | Raise TypeError | Raise ValueError => Raise ValueError
  | r => r
  end.

Definition ScalarCoordinate_from_dict (d : dict string json) : result scalar_coordinate :=
  as_value_error (
    frame ← jindex d "frame" ≫= coerce_int;
    rack ← jindex d "rack" ≫= coerce_int;
    section ← jindex d "section" ≫= coerce_int;
    column ← jindex d "column" ≫= coerce_int;
    row ← jindex d "row" ≫= coerce_int;
    element_type ← coerce_int (dget_or d "type" (dget_or d "element_type" (JInt 0)));
    Ok (ScalarCoordinate frame rack section column row element_type)).

Definition _DEPRECATED_UNLOAD_WIRE : Z := 3.

(** A [MoveClass] flag is its integer. *)
Module MoveClass.
Definition NORMAL : Z := 0.
Definition IMPORT : Z := 2.
Definition EXPORT : Z := 4.
Definition UNLOAD : Z := 8.
Definition NO_EJECT : Z := 16.
Definition CLOSEST_SLOT : Z := 32.

Definition is_unload (m : Z) : bool := bool_decide (Z.land m UNLOAD ≠ 0).

Definition is_supported_on_i3 (m : Z) : bool :=
  negb (bool_decide (Z.land m (Z.lor IMPORT EXPORT) ≠ 0)).

Definition from_wire (value : Z) : Z :=
  if bool_decide (value = _DEPRECATED_UNLOAD_WIRE) then UNLOAD
  else foldl (λ acc flag, if bool_decide (Z.land value flag ≠ 0) then Z.lor acc flag else acc)
         NORMAL [IMPORT; EXPORT; UNLOAD; NO_EJECT; CLOSEST_SLOT].

Definition to_wire (m : Z) : Z := m.
End MoveClass.

(** * Lemmas *)

(** Reading back the value of a member gives the member. *)
Lemma enum_of_value_value {A} `{StrEnumLaws A} (a : A) : enum_of_value (enum_value a) = Ok a.
Proof.
  unfold enum_of_value. destruct (list_find _ _) as [[i b]|] eqn:Hf.
  - apply list_find_Some in Hf as (_ & Hb & _). f_equal. by apply enum_value_inj.
  - apply list_find_None in Hf. rewrite Forall_forall in Hf.
    destruct (Hf a); [apply enum_members_all | done].
Qed.
#[export] Hint Rewrite @enum_of_value_value using typeclasses eauto : openblade.

Lemma enum_of_value_Ok {A} `{StrEnum A} s (a : A) :
  enum_of_value s = Ok a → enum_value a = s.
Proof.
  unfold enum_of_value. destruct (list_find _ _) as [[i b]|] eqn:Hf; [|done].
  intros [= ->]. apply list_find_Some in Hf. naive_solver.
Qed.

Lemma raise_unless_Ok b e : raise_unless b e = Ok tt ↔ b = true.
Proof. by destruct b. Qed.

Lemma validate_transition_Ok {A} `{EqDecision A} (t : dict A (list A)) x y :
  _validate_transition t x y = Ok tt ↔ x = y ∨ y ∈ dget_or t x [].
Proof.
  unfold _validate_transition. case_decide; subst; [naive_solver|].
  rewrite raise_unless_Ok, bool_decide_eq_true. naive_solver.
Qed.

Lemma validate_transition_cases {A} `{EqDecision A} (t : dict A (list A)) x y :
  _validate_transition t x y = Ok tt ∨
  _validate_transition t x y = Raise InvalidStateTransitionError.
Proof.
  unfold _validate_transition, raise_unless. case_decide; [by left|].
  case_match; [by left | by right].
Qed.

Lemma capacity_reserve_bounds cap :
  0 ≤ capacity_reserve_bytes cap ∧ capacity_reserve_bytes cap ≤ CAPACITY_RESERVE_MAX_BYTES ∧
  (0 ≤ cap → 100 * capacity_reserve_bytes cap ≤ cap).
Proof.
  unfold capacity_reserve_bytes, CAPACITY_RESERVE_MAX_BYTES, CAPACITY_RESERVE_DIVISOR.
  case_bool_decide; [lia|].
  pose proof (Z.mul_div_le cap 100). pose proof (Z.div_pos cap 100). lia.
Qed.

Lemma has_room_for_true cap used size :
  has_room_for cap used size = true ↔
  0 < usable_remaining_bytes cap used ∧ size ≤ usable_remaining_bytes cap used.
Proof. unfold has_room_for. by rewrite andb_true_iff, !bool_decide_eq_true. Qed.

Lemma Barcode_valid v b : Barcode v = Ok b → barcode_re b = true ∧ b = upper v.
Proof. unfold Barcode. by case_match; intros [= <-]. Qed.

(** ** Text *)
Lemma list_ascii_of_string_of_list l :
  String.list_ascii_of_string (String.string_of_list_ascii l) = l.
Proof. apply String.list_ascii_of_string_of_list_ascii. Qed.

Lemma list_ascii_of_str_map f s :
  String.list_ascii_of_string (str_map f s) = f <$> String.list_ascii_of_string s.
Proof. apply list_ascii_of_string_of_list. Qed.

Lemma list_ascii_app s1 s2 :
  String.list_ascii_of_string (s1 +:+ s2) =
  (String.list_ascii_of_string s1 ++ String.list_ascii_of_string s2)%list.
Proof. induction s1 as [|c s1 IH]; simpl; [done | by rewrite IH]. Qed.

(** A fact about every character, by computation over the 256 of them. *)
Lemma ascii_forall (P : ascii → Prop) `{∀ c, Decision (P c)} :
  forallb (λ c, bool_decide (P c)) ((λ n, Ascii.ascii_of_nat n) <$> seq 0 256) = true →
  ∀ c, P c.
Proof.
  intros HP c. rewrite forallb_forall in HP. eapply bool_decide_unpack, Is_true_eq_left, HP.
  apply list_elem_of_In, list_elem_of_fmap. exists (Ascii.nat_of_ascii c).
  rewrite Ascii.ascii_nat_embedding. split; [done|].
  apply elem_of_seq. pose proof (Ascii.nat_ascii_bounded c). lia.
Qed.

Lemma upper_ascii_idemp c : upper_ascii (upper_ascii c) = upper_ascii c.
Proof.
  by apply (ascii_forall (λ c, upper_ascii (upper_ascii c) = upper_ascii c)).
Qed.

Lemma upper_idemp s : upper (upper s) = upper s.
Proof.
  unfold upper. unfold str_map at 1. rewrite list_ascii_of_str_map, <-list_fmap_compose.
  unfold str_map. f_equal. apply list_fmap_ext. intros ? c _. apply upper_ascii_idemp.
Qed.

Lemma is_separator_upper c : is_separator (upper_ascii c) = is_separator c.
Proof.
  by apply (ascii_forall (λ c, is_separator (upper_ascii c) = is_separator c)).
Qed.

Lemma Barcode_idemp v b : Barcode v = Ok b → Barcode b = Ok b.
Proof.
  unfold Barcode. case_match eqn:Hre; intros [= <-]. by rewrite upper_idemp, Hre.
Qed.

(** A token is a non-empty word without separators. *)
Definition is_token (l : list ascii) : Prop := l ≠ [] ∧ Forall (λ c, is_separator c = false) l.

Lemma split_tokens_sep_free cur l t :
  Forall (λ c, is_separator c = false) cur → t ∈ split_tokens cur l →
  Forall (λ c, is_separator c = false) t.
Proof.
  revert cur. induction l as [|c l IH]; simpl; intros cur Hcur.
  - intros ->%list_elem_of_singleton. by apply Forall_rev.
  - case_match eqn:Hc.
    + intros [->|Hin]%elem_of_cons; [by apply Forall_rev | eapply IH; [|done]; constructor].
    + apply IH. by constructor.
Qed.

Lemma split_tokens_word cur w l :
  Forall (λ c, is_separator c = false) w →
  split_tokens cur (w ++ ","%char :: l) = (rev cur ++ w)%list :: split_tokens [] l.
Proof.
  revert cur. induction w as [|c w IH]; simpl; intros cur Hw.
  - by rewrite app_nil_r.
  - apply Forall_cons in Hw as [Hc Hw]. rewrite Hc, IH by done. simpl.
    by rewrite <-(assoc_L (++)%list).
Qed.

Lemma split_tokens_last cur w :
  Forall (λ c, is_separator c = false) w → split_tokens cur w = [(rev cur ++ w)%list].
Proof.
  revert cur. induction w as [|c w IH]; simpl; intros cur Hw.
  - by rewrite app_nil_r.
  - apply Forall_cons in Hw as [Hc Hw]. rewrite Hc, IH by done. simpl.
    by rewrite <-(assoc_L (++)%list).
Qed.

Lemma lstrip_chars_none p l : Forall (λ c, p c = false) l → lstrip_chars p l = l.
Proof. intros [|c l' Hc _]; simpl; [done | by rewrite Hc]. Qed.

Lemma strip_token l :
  Forall (λ c, is_separator c = false) l →
  strip (String.string_of_list_ascii l) = String.string_of_list_ascii l.
Proof.
  intros Hl. assert (Forall (λ c, is_space c = false) l) as Hs.
  { eapply Forall_impl; [done|]. intros c. unfold is_separator.
    by destruct (is_space c). }
  unfold strip, rstrip_chars. rewrite list_ascii_of_string_of_list.
  rewrite (lstrip_chars_none _ l) by done.
  rewrite lstrip_chars_none by (by apply Forall_rev). by rewrite rev_involutive.
Qed.

(** What the loop of [parse_barcodes] keeps true of [seen]. *)
Definition canonical_barcodes (l : list string) : Prop :=
  NoDup l ∧ Forall (λ b, upper b = b ∧ is_token (String.list_ascii_of_string b)) l.

Lemma add_seen_canonical seen b :
  canonical_barcodes seen → upper b = b → is_token (String.list_ascii_of_string b) →
  canonical_barcodes (add_seen seen b).
Proof.
  intros [Hnd Hall] Hb Ht. unfold add_seen. case_bool_decide as Hin; [by split|]. split.
  - apply NoDup_app. split_and!; [done | | apply NoDup_singleton].
    intros x Hx ->%list_elem_of_singleton. done.
  - apply Forall_app. by split; [|constructor].
Qed.

Lemma parse_barcodes_canonical raw : canonical_barcodes (parse_barcodes raw).
Proof.
  unfold parse_barcodes.
  assert (∀ t, t ∈ split_tokens [] (String.list_ascii_of_string (default "" raw)) →
    Forall (λ c, is_separator c = false) t) as Hts.
  { intros t. by apply split_tokens_sep_free. }
  revert Hts. generalize (split_tokens [] (String.list_ascii_of_string (default "" raw))).
  assert (canonical_barcodes []) as Hnil by (split; constructor).
  revert Hnil. generalize (@nil string). intros seen Hseen ts. revert seen Hseen.
  induction ts as [|t ts IH]; simpl; intros seen Hseen Hts; [done|].
  apply IH; [|intros; apply Hts; by right].
  assert (Forall (λ c, is_separator c = false) t) as Ht by (apply Hts; by left).
  destruct t as [|c t]; [done|]. rewrite strip_token by done.
  apply add_seen_canonical; [done | by rewrite upper_idemp|].
  unfold upper. rewrite list_ascii_of_str_map, list_ascii_of_string_of_list. split; [done|].
  apply Forall_fmap. eapply Forall_impl; [done|]. intros d Hd. simpl.
  by rewrite is_separator_upper.
Qed.

Lemma split_tokens_join l :
  l ≠ [] → Forall (λ b, is_token (String.list_ascii_of_string b)) l →
  split_tokens [] (String.list_ascii_of_string (str_join "," l)) =
  String.list_ascii_of_string <$> l.
Proof.
  induction l as [|b l IH]; [done|]. intros _ [[_ Hb] Hl]%Forall_cons.
  destruct l as [|b' l]; [by simpl; rewrite split_tokens_last|].
  change (str_join "," (b :: b' :: l)) with (b +:+ "," +:+ str_join "," (b' :: l)).
  rewrite !list_ascii_app. change (String.list_ascii_of_string ",") with [","%char].
  csimpl. rewrite split_tokens_word by done. f_equal. by apply IH.
Qed.

Lemma foldl_seen_app seen l :
  Forall (λ b, upper b = b ∧ is_token (String.list_ascii_of_string b)) l →
  NoDup (seen ++ l)%list →
  foldl (λ seen t,
    match t with
    | [] => seen
    | _ => add_seen seen (upper (strip (String.string_of_list_ascii t)))
    end) seen (String.list_ascii_of_string <$> l) = (seen ++ l)%list.
Proof.
  revert seen. induction l as [|b l IH]; csimpl; intros seen Hl Hnd; [by rewrite app_nil_r|].
  apply Forall_cons in Hl as [(Hup & Hne & Hsep) Hl].
  destruct (String.list_ascii_of_string b) as [|c t] eqn:Hb; [done|]. rewrite <-Hb in *.
  rewrite strip_token by done.
  rewrite String.string_of_list_ascii_of_string, Hup. unfold add_seen.
  apply NoDup_app in Hnd as Hnd'. destruct Hnd' as (_ & Hdis & _).
  rewrite bool_decide_false by (intros Hin; apply (Hdis b Hin); by left).
  rewrite IH; [by rewrite <-(assoc_L (++)%list) | done |].
  by rewrite <-(assoc_L (++)%list).
Qed.

(** ** Bits of the wire integer *)
Lemma land_pow2 v n : 0 ≤ n → Z.land v (2 ^ n) = if Z.testbit v n then 2 ^ n else 0.
Proof.
  intros Hn. apply Z.bits_inj'. intros i Hi. rewrite Z.land_spec.
  destruct (decide (i = n)) as [->|Hne].
  - rewrite Z.pow2_bits_true by lia. rewrite andb_true_r.
    destruct (Z.testbit v n) eqn:Hv; [by rewrite Z.pow2_bits_true by lia | by rewrite Z.bits_0].
  - rewrite Z.pow2_bits_false by lia. rewrite andb_false_r.
    case_match; [by rewrite Z.pow2_bits_false by lia | by rewrite Z.bits_0].
Qed.

Lemma keep_flag v acc n : 0 ≤ n →
  (if bool_decide (Z.land v (2 ^ n) ≠ 0) then Z.lor acc (2 ^ n) else acc) =
  Z.lor acc (Z.land v (2 ^ n)).
Proof.
  intros Hn. rewrite land_pow2 by done. assert (2 ^ n ≠ 0) by lia.
  destruct (Z.testbit v n); [by rewrite bool_decide_true|].
  rewrite bool_decide_false by naive_solver. by rewrite Z.lor_0_r.
Qed.

Lemma from_wire_bits v :
  foldl (λ acc flag, if bool_decide (Z.land v flag ≠ 0) then Z.lor acc flag else acc)
    MoveClass.NORMAL
    [MoveClass.IMPORT; MoveClass.EXPORT; MoveClass.UNLOAD; MoveClass.NO_EJECT;
     MoveClass.CLOSEST_SLOT] = Z.land v 62.
Proof.
  simpl. pose proof (λ acc n H, keep_flag v acc n H) as Hk.
  change MoveClass.IMPORT with (2 ^ 1). change MoveClass.EXPORT with (2 ^ 2).
  change MoveClass.UNLOAD with (2 ^ 3). change MoveClass.NO_EJECT with (2 ^ 4).
  change MoveClass.CLOSEST_SLOT with (2 ^ 5). change MoveClass.NORMAL with 0.
  rewrite !Hk by lia. apply Z.bits_inj'. intros i _.
  rewrite !Z.lor_spec, !Z.land_spec, Z.bits_0.
  change 62 with (Z.lor (Z.lor (Z.lor (Z.lor (2 ^ 1) (2 ^ 2)) (2 ^ 3)) (2 ^ 4)) (2 ^ 5)).
  rewrite !Z.lor_spec. by destruct (Z.testbit v i).
Qed.

Lemma land_62_ne_3 v : Z.land v 62 ≠ 3.
Proof.
  intros H. assert (Z.testbit (Z.land v 62) 0 = Z.testbit 3 0) as H0 by by rewrite H.
  by rewrite Z.land_spec, andb_false_r in H0.
Qed.

(** * Properties *)

(** [has_room_for] is exactly "after writing the file, the LTFS reserve is
    still free, and some usable room was left before": an admitted file never
    eats into the reserve, whatever its size, and a tape whose free space is
    within the reserve takes nothing, not even an empty file. *)
Theorem has_room_for_spec (capacity used size : Z) (Hsize : 0 ≤ size) :
  has_room_for capacity used size = true ↔
  used + capacity_reserve_bytes capacity < capacity ∧
  used + size + capacity_reserve_bytes capacity ≤ capacity.
Proof. rewrite has_room_for_true. unfold usable_remaining_bytes. lia. Qed.

Lemma has_room_for_spec_witness :
  0 ≤ 1024 ∧
  (has_room_for 99614720 98617343 1024 = true ↔
   98617343 + capacity_reserve_bytes 99614720 < 99614720 ∧
   98617343 + 1024 + capacity_reserve_bytes 99614720 ≤ 99614720).
Proof. split; [lia | apply (has_room_for_spec 99614720 98617343 1024); lia]. Defined.

(** Parsing a barcode list normalises it: what [parse_barcodes] returns is
    duplicate-free, upper case and free of separators, and printing it with
    [format_barcodes] and parsing again gives the same list. *)
Theorem parse_format_barcodes (raw : option string) :
  NoDup (parse_barcodes raw) ∧
  Forall (λ b, upper b = b ∧ is_token (String.list_ascii_of_string b)) (parse_barcodes raw) ∧
  parse_barcodes (Some (format_barcodes (parse_barcodes raw))) = parse_barcodes raw.
Proof.
  destruct (parse_barcodes_canonical raw) as [Hnd Hall]. split_and!; [done..|].
  unfold parse_barcodes at 1, format_barcodes. simpl.
  destruct (decide (parse_barcodes raw = [])) as [->|Hne]; [done|].
  rewrite split_tokens_join by (done || (eapply Forall_impl; [done | naive_solver])).
  by rewrite foldl_seen_app.
Qed.

(** The transition tables and the unload guard agree: whenever
    [can_unload_drive] allows an unload, the drive table has the edge to
    [EMPTY], and a mounted or dirty tape is never allowed out; in the table
    itself a [BUSY] drive has no edge to [EMPTY]. *)
Theorem can_unload_drive_safe (ds : drive_state) (ms : mount_state) :
  (can_unload_drive ds ms = true →
     validate_drive_transition ds DriveState.EMPTY = Ok tt ∧
     ms = MountState.UNMOUNTED) ∧
  (validate_drive_transition ds DriveState.EMPTY = Ok tt ↔ ds ≠ DriveState.BUSY) ∧
  (ds = DriveState.BUSY → can_unload_drive ds ms = false).
Proof. destruct ds, ms; vm_compute; naive_solver. Qed.

(** [MoveClass.from_wire] keeps exactly the documented bits of the wire
    integer (the deprecated 3 excepted, which means unload), so parsing what
    [to_wire] prints gives the flag back. *)
Theorem MoveClass_from_wire_spec (value : Z) :
  MoveClass.from_wire value =
    (if bool_decide (value = 3) then MoveClass.UNLOAD else Z.land value 62) ∧
  MoveClass.from_wire (MoveClass.to_wire (MoveClass.from_wire value)) =
    MoveClass.from_wire value.
Proof.
  assert (∀ v, v ≠ 3 → MoveClass.from_wire v = Z.land v 62) as Hspec.
  { intros v Hv. unfold MoveClass.from_wire, _DEPRECATED_UNLOAD_WIRE.
    rewrite bool_decide_false by done. apply from_wire_bits. }
  destruct (decide (value = 3)) as [->|Hv]; [by vm_compute|].
  rewrite bool_decide_false, Hspec by done. split; [done|].
  unfold MoveClass.to_wire. rewrite Hspec by (apply land_62_ne_3).
  by rewrite <-Z.land_assoc, Z.land_diag.
Qed.
