(* ===== verification/Protection.v ===== *)
(** Protection axes of archived data: openblade/domain/protection.py.

    Immutable value objects whose constructors reject contradictory axes.  Each
    constructor is the dataclass constructor followed by its [__post_init__];
    [to_dict] and [from_dict] are the persisted form. *)
From stdpp Require Import base list option strings.
From Stdlib Require Import ZArith QArith Lia.
From S2P Require Import Prelude Domain.
#[local] Open Scope string_scope.
#[local] Open Scope Z_scope.

Module Placement.
Inductive placement := SINGLE_TAPE | STRIPED.
Definition placement_value (x : placement) : string :=
  match x with
  | SINGLE_TAPE => "single_tape"
  | STRIPED => "striped"
  end.
Definition placement_members : list placement :=
  [SINGLE_TAPE; STRIPED].
End Placement.
Notation placement := Placement.placement.
#[export] Instance placement_eq_dec : EqDecision placement.
Proof. solve_decision. Defined.
#[export] Instance placement_enum : StrEnum placement :=
  {| enum_value := Placement.placement_value; enum_members := Placement.placement_members |}.
#[export] Instance placement_enum_laws : StrEnumLaws placement.
Proof. solve_enum_laws. Qed.

Module StripingMode.
Inductive striping_mode := NONE | STRIPE | BLOCK_STRIPE.
Definition striping_mode_value (x : striping_mode) : string :=
  match x with
  | NONE => "none"
  | STRIPE => "stripe"
  | BLOCK_STRIPE => "block_stripe"
  end.
Definition striping_mode_members : list striping_mode :=
  [NONE; STRIPE; BLOCK_STRIPE].
End StripingMode.
Notation striping_mode := StripingMode.striping_mode.
#[export] Instance striping_mode_eq_dec : EqDecision striping_mode.
Proof. solve_decision. Defined.
#[export] Instance striping_mode_enum : StrEnum striping_mode :=
  {| enum_value := StripingMode.striping_mode_value; enum_members := StripingMode.striping_mode_members |}.
#[export] Instance striping_mode_enum_laws : StrEnumLaws striping_mode.
Proof. solve_enum_laws. Qed.

Module ProtectionKind.
Inductive protection_kind := NONE | REPLICATION | ERASURE_CODE.
Definition protection_kind_value (x : protection_kind) : string :=
  match x with
  | NONE => "none"
  | REPLICATION => "replication"
  | ERASURE_CODE => "erasure_code"
  end.
Definition protection_kind_members : list protection_kind :=
  [NONE; REPLICATION; ERASURE_CODE].
End ProtectionKind.
Notation protection_kind := ProtectionKind.protection_kind.
#[export] Instance protection_kind_eq_dec : EqDecision protection_kind.
Proof. solve_decision. Defined.
#[export] Instance protection_kind_enum : StrEnum protection_kind :=
  {| enum_value := ProtectionKind.protection_kind_value; enum_members := ProtectionKind.protection_kind_members |}.
#[export] Instance protection_kind_enum_laws : StrEnumLaws protection_kind.
Proof. solve_enum_laws. Qed.

Module FailureDomain.
Inductive failure_domain := DRIVE | TAPE | LIBRARY.
Definition failure_domain_value (x : failure_domain) : string :=
  match x with
  | DRIVE => "drive"
  | TAPE => "tape"
  | LIBRARY => "library"
  end.
Definition failure_domain_members : list failure_domain :=
  [DRIVE; TAPE; LIBRARY].
End FailureDomain.
Notation failure_domain := FailureDomain.failure_domain.
#[export] Instance failure_domain_eq_dec : EqDecision failure_domain.
Proof. solve_decision. Defined.
#[export] Instance failure_domain_enum : StrEnum failure_domain :=
  {| enum_value := FailureDomain.failure_domain_value; enum_members := FailureDomain.failure_domain_members |}.
#[export] Instance failure_domain_enum_laws : StrEnumLaws failure_domain.
Proof. solve_enum_laws. Qed.

Module DurabilityClass.
Inductive durability_class := UNPROTECTED | PERFORMANCE_ONLY | PROTECTED.
Definition durability_class_value (x : durability_class) : string :=
  match x with
  | UNPROTECTED => "unprotected"
  | PERFORMANCE_ONLY => "performance-only"
  | PROTECTED => "protected"
  end.
Definition durability_class_members : list durability_class :=
  [UNPROTECTED; PERFORMANCE_ONLY; PROTECTED].
End DurabilityClass.
Notation durability_class := DurabilityClass.durability_class.
#[export] Instance durability_class_eq_dec : EqDecision durability_class.
Proof. solve_decision. Defined.
#[export] Instance durability_class_enum : StrEnum durability_class :=
  {| enum_value := DurabilityClass.durability_class_value; enum_members := DurabilityClass.durability_class_members |}.
#[export] Instance durability_class_enum_laws : StrEnumLaws durability_class.
Proof. solve_enum_laws. Qed.

(** ** Striping *)

(** [block_size] keeps whatever value the persisted dict held: [JNull] is [None]. *)
Record striping := StripingRec {
  sp_mode : striping_mode;
  sp_block_size : json;
}.

(** [x <= 0]: comparing a non-number with an int raises [TypeError]. *)
Definition le_zero (j : json) : result bool :=
  match j with
  | JInt z => Ok (bool_decide (z ≤ 0))
  | JBool b => Ok (negb b)
  | JFloat q => Ok (Qle_bool q 0)
  | _ => Raise TypeError
  end.

Definition is_none (j : json) : bool :=
  match j with JNull => true | _ => false end.

Definition Striping (mode : striping_mode) (block_size : json) : result striping :=
  match mode with
  | StripingMode.BLOCK_STRIPE =>
      if is_none block_size then Raise InvalidProtectionPolicyError
      else bad ← le_zero block_size;
           if bad : bool then Raise InvalidProtectionPolicyError
           else Ok (StripingRec mode block_size)
  | _ =>
      if is_none block_size then Ok (StripingRec mode block_size)
      else Raise InvalidProtectionPolicyError
  end.

(** ** Protection *)
Record protection := ProtectionRec {
  pt_kind : protection_kind;
  pt_copies : Z;
  pt_k : Z;
  pt_m : Z;
}.

Definition Protection (kind : protection_kind) (copies k m : Z) : result protection :=
  if bool_decide (copies < 1) then Raise InvalidProtectionPolicyError
  else if bool_decide (kind = ProtectionKind.ERASURE_CODE)
          && (bool_decide (k < 1) || bool_decide (m < 1))
  then Raise InvalidProtectionPolicyError
  else Ok (ProtectionRec kind copies k m).

Definition Protection_none : result protection := Protection ProtectionKind.NONE 1 0 0.
Definition Protection_replication (copies : Z) : result protection :=
  Protection ProtectionKind.REPLICATION copies 0 0.
Definition Protection_erasure_code (k m : Z) : result protection :=
  Protection ProtectionKind.ERASURE_CODE 1 k m.

Definition supported (p : protection) : bool :=
  bool_decide (pt_kind p ≠ ProtectionKind.ERASURE_CODE).

Definition redundant (p : protection) : bool :=
  if bool_decide (pt_kind p = ProtectionKind.REPLICATION) then bool_decide (2 ≤ pt_copies p)
  else bool_decide (pt_kind p = ProtectionKind.ERASURE_CODE).

(** ** Restore quorum *)
Record restore_quorum := RestoreQuorumRec {
  rq_tapes_required : Z;
  rq_tapes_total : Z;
}.

Definition RestoreQuorum (tapes_required tapes_total : Z) : result restore_quorum :=
  if bool_decide (tapes_required < 1) || bool_decide (tapes_total < 1)
  then Raise InvalidProtectionPolicyError
  else if bool_decide (tapes_total < tapes_required)
  then Raise InvalidProtectionPolicyError
  else Ok (RestoreQuorumRec tapes_required tapes_total).

(** ** The policy *)
Record protection_policy := ProtectionPolicyRec {
  pp_placement : placement;
  pp_striping : striping;
  pp_protection : protection;
  pp_failure_domain : failure_domain;
  pp_quorum : option restore_quorum;
}.

Definition ProtectionPolicy (pl : placement) (st : striping) (pr : protection)
    (fd : failure_domain) (q : option restore_quorum) : result protection_policy :=
  let striped := bool_decide (sp_mode st ≠ StripingMode.NONE) in
  if bool_decide (striped ≠ bool_decide (pl = Placement.STRIPED))
  then Raise InvalidProtectionPolicyError
  else Ok (ProtectionPolicyRec pl st pr fd q).

Definition is_protected (p : protection_policy) : bool := redundant (pp_protection p).

Definition durability_class_of (p : protection_policy) : durability_class :=
  if is_protected p then DurabilityClass.PROTECTED
  else if bool_decide (sp_mode (pp_striping p) ≠ StripingMode.NONE)
  then DurabilityClass.PERFORMANCE_ONLY
  else DurabilityClass.UNPROTECTED.

Definition require_plannable (p : protection_policy) : result unit :=
  raise_unless (supported (pp_protection p)) UnsupportedProtectionError.

(** ** The persisted form *)
Definition to_dict (p : protection_policy) : dict string json :=
  [ ("placement", JStr (enum_value (pp_placement p)));
    ("striping", JObj [ ("mode", JStr (enum_value (sp_mode (pp_striping p))));
                        ("block_size", sp_block_size (pp_striping p)) ]);
    ("protection", JObj [ ("kind", JStr (enum_value (pt_kind (pp_protection p))));
                          ("copies", JInt (pt_copies (pp_protection p)));
                          ("k", JInt (pt_k (pp_protection p)));
                          ("m", JInt (pt_m (pp_protection p))) ]);
    ("failure_domain", JStr (enum_value (pp_failure_domain p)));
    ("quorum", match pp_quorum p with
               | None => JNull
               | Some q => JObj [ ("tapes_required", JInt (rq_tapes_required q));
                                  ("tapes_total", JInt (rq_tapes_total q)) ]
               end);
    ("durability_class", JStr (enum_value (durability_class_of p))) ].

(** [X(value)] of a decoded value: only a string can be a member's value. *)
Definition enum_of_json {A} `{StrEnum A} (j : json) : result A :=
  match j with JStr s => enum_of_value s | _ => Raise ValueError end.

(** [data.get(key) or {}], then used through [.get]: a truthy value that is not
    a dict has no [get] attribute. *)
Definition sub_dict (j : json) : result (dict string json) :=
  if truthy j then match j with JObj d => Ok d | _ => Raise (OtherError "AttributeError") end
  else Ok [].

(** [quorum[key]] on the value under "quorum". *)
Definition quorum_index (j : json) (k : string) : result json :=
  match j with
  | JObj d => jindex d k
  | _ => Raise TypeError
  end.

Definition from_dict (data : dict string json) : result protection_policy :=
  st ← sub_dict (jget data "striping");
  pr ← sub_dict (jget data "protection");
  let q := jget data "quorum" in
  pl ← enum_of_json (dget_or data "placement" (JStr (enum_value Placement.SINGLE_TAPE)));
  mode ← enum_of_json (dget_or st "mode" (JStr (enum_value StripingMode.NONE)));
  st' ← Striping mode (jget st "block_size");
  kind ← enum_of_json (dget_or pr "kind" (JStr (enum_value ProtectionKind.NONE)));
  copies ← coerce_int (dget_or pr "copies" (JInt 1));
  k ← coerce_int (dget_or pr "k" (JInt 0));
  m ← coerce_int (dget_or pr "m" (JInt 0));
  pr' ← Protection kind copies k m;
  fd ← enum_of_json (dget_or data "failure_domain" (JStr (enum_value FailureDomain.TAPE)));
  q' ← (if is_none q then Ok None
        else req ← quorum_index q "tapes_required" ≫= coerce_int;
             tot ← quorum_index q "tapes_total" ≫= coerce_int;
             Some <$> RestoreQuorum req tot);
  ProtectionPolicy pl st' pr' fd q'.

(** ** Legacy pools

    [replication_factor] is what [getattr(pool, "replication_factor", 1) or 1]
    yields before the [or]; [explicit] is [pool.protection] when that is a
    [ProtectionPolicy]. *)
Definition protection_from_pool (explicit : option protection_policy)
    (replication_factor : Z) : result protection_policy :=
  match explicit with
  | Some p => Ok p
  | None =>
      let copies :=
        Z.max 1 (if bool_decide (replication_factor = 0) then 1 else replication_factor) in
      pr ← (if bool_decide (2 ≤ copies) then Protection_replication copies
            else Protection_none);
      st ← Striping StripingMode.NONE JNull;
      ProtectionPolicy Placement.SINGLE_TAPE st pr FailureDomain.TAPE None
  end.

(** ** Well-formed values: the ones the constructors accept *)
Definition striping_wf (st : striping) : Prop :=
  Striping (sp_mode st) (sp_block_size st) = Ok st.
Definition protection_wf (p : protection) : Prop :=
  Protection (pt_kind p) (pt_copies p) (pt_k p) (pt_m p) = Ok p.
Definition quorum_wf (q : restore_quorum) : Prop :=
  RestoreQuorum (rq_tapes_required q) (rq_tapes_total q) = Ok q.
Definition policy_wf (p : protection_policy) : Prop :=
  striping_wf (pp_striping p) ∧ protection_wf (pp_protection p) ∧
  (∀ q, pp_quorum p = Some q → quorum_wf q) ∧
  ProtectionPolicy (pp_placement p) (pp_striping p) (pp_protection p)
    (pp_failure_domain p) (pp_quorum p) = Ok p.

(** ** Lemmas *)
Lemma Striping_wf mode bs st : Striping mode bs = Ok st → striping_wf st.
Proof.
  unfold striping_wf. intros Hst. enough (st = StripingRec mode bs) as -> by done.
  destruct mode, bs; simpl in Hst; monad_unfold; repeat case_match; naive_solver.
Qed.

Lemma Protection_wf kind copies k m p : Protection kind copies k m = Ok p → protection_wf p.
Proof.
  unfold protection_wf. intros Hp. enough (p = ProtectionRec kind copies k m) as -> by done.
  unfold Protection in Hp. repeat case_match; naive_solver.
Qed.

Lemma RestoreQuorum_wf r t q : RestoreQuorum r t = Ok q → quorum_wf q.
Proof.
  unfold quorum_wf. intros Hq. enough (q = RestoreQuorumRec r t) as -> by done.
  unfold RestoreQuorum in Hq. repeat case_match; naive_solver.
Qed.

Lemma ProtectionPolicy_fields pl st pr fd q p :
  ProtectionPolicy pl st pr fd q = Ok p → p = ProtectionPolicyRec pl st pr fd q.
Proof. unfold ProtectionPolicy. case_match; naive_solver. Qed.

Lemma bind_Ok {A B} (r : result A) (f : A → result B) b :
  r ≫= f = Ok b ↔ ∃ a, r = Ok a ∧ f a = Ok b.
Proof. destruct r; unfold mbind, result_bind; naive_solver. Qed.

Lemma protection_wf_bounds p : protection_wf p →
  1 ≤ pt_copies p ∧ (pt_kind p = ProtectionKind.ERASURE_CODE → 1 ≤ pt_k p ∧ 1 ≤ pt_m p).
Proof.
  unfold protection_wf, Protection. case_bool_decide; [done|].
  destruct (bool_decide (pt_kind p = _)) eqn:Hk; simpl.
  - destruct (bool_decide (pt_k p < 1)) eqn:?, (bool_decide (pt_m p < 1)) eqn:?; try done.
    rewrite !bool_decide_eq_false in *. lia.
  - rewrite bool_decide_eq_false in Hk. split; [lia | done].
Qed.

(** ** Properties *)

(** Every policy the constructors accept survives persistence: [from_dict]
    of its [to_dict] is the same policy, quorum and block size included. *)
Theorem protection_policy_roundtrip (p : protection_policy) (Hwf : policy_wf p) :
  from_dict (to_dict p) = Ok p.
Proof.
  destruct p as [pl st pr fd q], Hwf as (Hst & Hpr & Hq & Hp).
  unfold striping_wf, protection_wf in *. simpl in *.
  unfold from_dict, to_dict. simpl. rewrite !enum_of_value_value. simpl.
  change (jget _ "block_size") with (sp_block_size st).
  rewrite Hst. simpl. rewrite Hpr. simpl.
  destruct q as [q|]; simpl; [|done].
  specialize (Hq q eq_refl). unfold quorum_wf in Hq. unfold jget; simpl. rewrite Hq. done.
Qed.

Lemma protection_policy_roundtrip_witness :
  ∃ p, policy_wf p ∧ durability_class_of p = DurabilityClass.PROTECTED ∧
       from_dict (to_dict p) = Ok p.
Proof.
  exists (ProtectionPolicyRec Placement.STRIPED
    (StripingRec StripingMode.BLOCK_STRIPE (JInt 1048576))
    (ProtectionRec ProtectionKind.REPLICATION 2 0 0) FailureDomain.TAPE
    (Some (RestoreQuorumRec 1 2))).
  assert (policy_wf (ProtectionPolicyRec Placement.STRIPED
    (StripingRec StripingMode.BLOCK_STRIPE (JInt 1048576))
    (ProtectionRec ProtectionKind.REPLICATION 2 0 0) FailureDomain.TAPE
    (Some (RestoreQuorumRec 1 2)))) as Hwf.
  { split_and!; [done | done | by intros ? [= <-] | done]. }
  split_and!; [done | done |]. exact (protection_policy_roundtrip _ Hwf).
Defined.

(** Loading is as strict as constructing: whatever dict [from_dict] accepts,
    the policy it returns has consistent axes, and it is classified PROTECTED
    only when redundant copies (two replicas or more, or erasure coding) back
    it; striping alone is never more than PERFORMANCE_ONLY. *)
Theorem from_dict_sound (data : dict string json) (p : protection_policy)
    (Hload : from_dict data = Ok p) :
  policy_wf p ∧
  (durability_class_of p = DurabilityClass.PROTECTED ↔
     (pt_kind (pp_protection p) = ProtectionKind.REPLICATION ∧ 2 ≤ pt_copies (pp_protection p))
     ∨ pt_kind (pp_protection p) = ProtectionKind.ERASURE_CODE) ∧
  (durability_class_of p = DurabilityClass.PERFORMANCE_ONLY →
     pp_placement p = Placement.STRIPED).
Proof.
  unfold from_dict in Hload. repeat setoid_rewrite bind_Ok in Hload.
  destruct Hload as (st & Hst & pr & Hpr & pl & Hpl & mode & Hmode & st' & Hst' & kind & Hkind
    & copies & Hc & k & Hk & m & Hm & pr' & Hpr' & fd & Hfd & q & Hq & Hp).
  pose proof (ProtectionPolicy_fields _ _ _ _ _ _ Hp) as ->.
  split; [|split].
  - split_and!; simpl; [by eapply Striping_wf | by eapply Protection_wf | | done].
    intros q' ->. destruct (is_none _); [done|].
    apply bind_Ok in Hq as (r & _ & (t & _ & Hq)%bind_Ok).
    destruct (RestoreQuorum r t) eqn:Hrq; [|done]. injection Hq as ->.
    by eapply RestoreQuorum_wf.
  - unfold durability_class_of, is_protected, redundant. simpl.
    destruct (pt_kind pr') eqn:?; simpl; repeat case_bool_decide; naive_solver.
  - unfold ProtectionPolicy in Hp. unfold durability_class_of. simpl.
    destruct (is_protected _); [done|]. destruct pl; [|done].
    by destruct (sp_mode st').
Qed.

Lemma from_dict_sound_witness :
  let data := [("placement", JStr "striped");
    ("striping", JObj [("mode", JStr "stripe")]);
    ("protection", JObj [("kind", JStr "replication"); ("copies", JStr "2")])] in
  ∃ p, from_dict data = Ok p ∧ policy_wf p.
Proof.
  intros data.
  assert (∃ p, from_dict data = Ok p) as [p Hp] by (eexists; vm_compute; reflexivity).
  exists p. split; [exact Hp | exact (proj1 (from_dict_sound _ _ Hp))].
Defined.

(** Mapping a legacy pool never fails, and it is protected exactly when the
    replication factor asks for two copies or more; an explicit policy wins. *)
Theorem protection_from_pool_spec (factor : Z) (explicit : protection_policy) :
  (∃ p, protection_from_pool None factor = Ok p ∧ policy_wf p ∧
        is_protected p = bool_decide (2 ≤ factor) ∧ require_plannable p = Ok tt ∧
        pt_copies (pp_protection p) = Z.max 1 factor) ∧
  protection_from_pool (Some explicit) factor = Ok explicit.
Proof.
  split; [|done]. unfold protection_from_pool, Protection_replication, Protection_none.
  destruct (decide (2 ≤ factor)) as [Hf|Hf].
  - rewrite (bool_decide_false (factor = 0)) by lia.
    rewrite (bool_decide_true (2 ≤ Z.max 1 factor)) by lia.
    unfold Protection at 1. rewrite bool_decide_false by lia. simpl.
    eexists. split; [done|]. unfold policy_wf, striping_wf, protection_wf, Protection,
      is_protected, redundant, require_plannable; simpl.
    rewrite (bool_decide_false (_ < 1)), !bool_decide_true by lia. split_and!; naive_solver lia.
  - rewrite (bool_decide_false (2 ≤ Z.max 1 _)) by (case_bool_decide; lia). simpl.
    eexists. split; [done|]. unfold policy_wf; simpl.
    rewrite (bool_decide_false (2 ≤ factor)) by done. split_and!; naive_solver lia.
Qed.
