(* ===== verification/Faults.v ===== *)
(** Fault injection: openblade/simulator/faults.py (static switches, class
    [FaultConfig]) and openblade/simulator/fault_injection.py (counted faults,
    class [FaultInjector]).  The injector's lock only serialises its methods,
    which are modelled as atomic steps. *)
From stdpp Require Import base list option strings.
From Stdlib Require Import ZArith Lia.
From S2P Require Import Prelude Domain.
#[local] Open Scope string_scope.
#[local] Open Scope Z_scope.

(** * Static switches (faults.py) *)
Module FaultType.
Inductive fault_type := LOAD_FAILURE | UNLOAD_FAILURE | DRIVE_TIMEOUT | MOUNT_FAILURE | WRITE_FAILURE | CHECKSUM_MISMATCH | NO_FREE_SPACE | ROBOT_LOCK_CONFLICT | CHANGER_TIMEOUT | MOVE_FAILURE.
Definition fault_type_value (x : fault_type) : string :=
  match x with
  | LOAD_FAILURE => "load_failure"
  | UNLOAD_FAILURE => "unload_failure"
  | DRIVE_TIMEOUT => "drive_timeout"
  | MOUNT_FAILURE => "mount_failure"
  | WRITE_FAILURE => "write_failure"
  | CHECKSUM_MISMATCH => "checksum_mismatch"
  | NO_FREE_SPACE => "no_free_space"
  | ROBOT_LOCK_CONFLICT => "robot_lock_conflict"
  | CHANGER_TIMEOUT => "changer_timeout"
  | MOVE_FAILURE => "move_failure"
  end.
Definition fault_type_members : list fault_type :=
  [LOAD_FAILURE; UNLOAD_FAILURE; DRIVE_TIMEOUT; MOUNT_FAILURE; WRITE_FAILURE; CHECKSUM_MISMATCH; NO_FREE_SPACE; ROBOT_LOCK_CONFLICT; CHANGER_TIMEOUT; MOVE_FAILURE].
End FaultType.
Notation fault_type := FaultType.fault_type.
#[export] Instance fault_type_eq_dec : EqDecision fault_type.
Proof. solve_decision. Defined.
#[export] Instance fault_type_enum : StrEnum fault_type :=
  {| enum_value := FaultType.fault_type_value; enum_members := FaultType.fault_type_members |}.
#[export] Instance fault_type_enum_laws : StrEnumLaws fault_type.
Proof. solve_enum_laws. Qed.

Record fault_config := FaultConfigRec {
  faults : dict fault_type bool;
  write_fail_after_bytes : option Z;
}.

Definition should_fail (c : fault_config) (ft : fault_type) : bool :=
  dget_or (faults c) ft false.

Definition no_faults : fault_config := FaultConfigRec [] None.
Definition with_fault (ft : fault_type) : fault_config := FaultConfigRec [(ft, true)] None.

Definition FaultConfig_to_json (c : fault_config) : dict string json :=
  [ ("faults", JObj ((λ kv, (enum_value kv.1, JBool kv.2)) <$> faults c));
    ("write_fail_after_bytes",
       match write_fail_after_bytes c with Some n => JInt n | None => JNull end) ].

(** Names that are not a fault type are skipped. *)
Definition fault_items (d : dict string json) : list (fault_type * bool) :=
  omap (λ kv, match enum_of_value kv.1 with
              | Ok ft => Some (ft, truthy kv.2)
              | Raise _ => None
              end) d.

Definition FaultConfig_from_json (payload : json) : result fault_config :=
  if negb (truthy payload) then Ok no_faults
  else match payload with
  | JObj d =>
      match dget_or d "faults" (JObj []) with
      | JObj raw_faults =>
          let fs := dict_of (fault_items raw_faults) in
          match jget d "write_fail_after_bytes" with
          | JNull => Ok (FaultConfigRec fs None)
          | j => n ← coerce_int j; Ok (FaultConfigRec fs (Some n))
          end
      | _ => Raise (OtherError "AttributeError")
      end
  | _ => Raise (OtherError "AttributeError")
  end.

(** * Counted faults (fault_injection.py) *)
Module InjectedFaultType.
Inductive injected_fault_type := LOAD_FAILURE | UNLOAD_FAILURE | WRITE_ERROR | READ_ERROR | CHECKSUM_MISMATCH | DRIVE_UNAVAILABLE | TAPE_NOT_FOUND | MOUNT_TIMEOUT | PARTIAL_WRITE | CATALOG_DB_FAILURE.
Definition injected_fault_type_value (x : injected_fault_type) : string :=
  match x with
  | LOAD_FAILURE => "load_failure"
  | UNLOAD_FAILURE => "unload_failure"
  | WRITE_ERROR => "write_error"
  | READ_ERROR => "read_error"
  | CHECKSUM_MISMATCH => "checksum_mismatch"
  | DRIVE_UNAVAILABLE => "drive_unavailable"
  | TAPE_NOT_FOUND => "tape_not_found"
  | MOUNT_TIMEOUT => "mount_timeout"
  | PARTIAL_WRITE => "partial_write"
  | CATALOG_DB_FAILURE => "catalog_db_failure"
  end.
Definition injected_fault_type_members : list injected_fault_type :=
  [LOAD_FAILURE; UNLOAD_FAILURE; WRITE_ERROR; READ_ERROR; CHECKSUM_MISMATCH; DRIVE_UNAVAILABLE; TAPE_NOT_FOUND; MOUNT_TIMEOUT; PARTIAL_WRITE; CATALOG_DB_FAILURE].
End InjectedFaultType.
Notation injected_fault_type := InjectedFaultType.injected_fault_type.
#[export] Instance injected_fault_type_eq_dec : EqDecision injected_fault_type.
Proof. solve_decision. Defined.
#[export] Instance injected_fault_type_enum : StrEnum injected_fault_type :=
  {| enum_value := InjectedFaultType.injected_fault_type_value; enum_members := InjectedFaultType.injected_fault_type_members |}.
#[export] Instance injected_fault_type_enum_laws : StrEnumLaws injected_fault_type.
Proof. solve_enum_laws. Qed.

Record fault_spec := FaultSpec {
  fsp_fault_type : injected_fault_type;
  fsp_target : string;
  fsp_trigger_after : Z;
  fsp_max_triggers : Z;
  fsp_error_message : string;
  fsp_extra : dict string json;
}.

Record tracked_fault := TrackedFault {
  tf_spec : fault_spec;
  tf_successful_operations : Z;
  tf_trigger_count : Z;
}.

Definition exhausted (t : tracked_fault) : bool :=
  bool_decide (fsp_max_triggers (tf_spec t) ≤ tf_trigger_count t).

Definition _default_error_text (ft : injected_fault_type) : string :=
  match ft with
  | InjectedFaultType.LOAD_FAILURE => "Injected load failure"
  | InjectedFaultType.UNLOAD_FAILURE => "Injected unload failure"
  | InjectedFaultType.WRITE_ERROR => "Injected write error"
  | InjectedFaultType.READ_ERROR => "Injected read error"
  | InjectedFaultType.CHECKSUM_MISMATCH => "Injected checksum mismatch"
  | InjectedFaultType.DRIVE_UNAVAILABLE => "Injected drive unavailable fault"
  | InjectedFaultType.TAPE_NOT_FOUND => "Injected tape not found fault"
  | InjectedFaultType.MOUNT_TIMEOUT => "Injected mount timeout"
  | InjectedFaultType.PARTIAL_WRITE => "Injected partial write"
  | InjectedFaultType.CATALOG_DB_FAILURE => "Injected catalog database failure"
  end.

Record fault_injector := FaultInjector {
  fi_faults : list tracked_fault;
  fi_last_triggered : option fault_spec;
}.

Definition new_injector : fault_injector := FaultInjector [] None.

(** [inject] stores a copy of the spec; values are immutable here. *)
Definition inject (spec : fault_spec) (fi : fault_injector) : fault_injector :=
  FaultInjector (fi_faults fi ++ [TrackedFault spec 0 0])%list (fi_last_triggered fi).

Definition clear (fi : fault_injector) : fault_injector := FaultInjector [] None.

Definition _matches (spec : fault_spec) (ft : injected_fault_type) (target : string) : bool :=
  if bool_decide (fsp_fault_type spec ≠ ft) then false
  else if bool_decide (fsp_target spec ∈ [""; "*"]) then true
  else bool_decide (fsp_target spec = target).

(** The loop of [should_fault]: the first matching fault that is neither
    exhausted nor still in its grace period fires; those in their grace period
    that are passed on the way count one more successful operation. *)
Fixpoint should_fault_loop (ft : injected_fault_type) (target : string)
    (l : list tracked_fault) : option fault_spec * list tracked_fault :=
  match l with
  | [] => (None, [])
  | t :: l =>
      let spec := tf_spec t in
      if exhausted t || negb (_matches spec ft target) then
        let '(r, l') := should_fault_loop ft target l in (r, t :: l')
      else if bool_decide (tf_successful_operations t < fsp_trigger_after spec) then
        let '(r, l') := should_fault_loop ft target l in
        (r, TrackedFault spec (tf_successful_operations t + 1) (tf_trigger_count t) :: l')
      else (Some spec, TrackedFault spec (tf_successful_operations t) (tf_trigger_count t + 1) :: l)
  end.

Definition should_fault (ft : injected_fault_type) (target : string) : M fault_injector bool :=
  λ fi,
    match should_fault_loop ft target (fi_faults fi) with
    | (Some spec, l) => (Ok true, FaultInjector l (Some spec))
    | (None, l) => (Ok false, FaultInjector l (fi_last_triggered fi))
    end.

Definition _matching_spec (fi : fault_injector) (ft : injected_fault_type) (target : string)
    : option fault_spec :=
  match fi_last_triggered fi with
  | Some spec =>
      if _matches spec ft target then Some spec
      else tf_spec <$> (snd <$> list_find (λ t, _matches (tf_spec t) ft target) (fi_faults fi))
  | None => tf_spec <$> (snd <$> list_find (λ t, _matches (tf_spec t) ft target) (fi_faults fi))
  end.

Definition _default_error_message (ft : injected_fault_type) (target : string) : string :=
  if bool_decide (target = "") then _default_error_text ft
  else _default_error_text ft ++ " for " ++ target.

Definition get_error_message (ft : injected_fault_type) (target : string)
    (fi : fault_injector) : string :=
  match _matching_spec fi ft target with
  | Some spec =>
      if bool_decide (fsp_error_message spec ≠ "") then fsp_error_message spec
      else _default_error_message ft target
  | None => _default_error_message ft target
  end.

Definition active_faults (fi : fault_injector) : list fault_spec :=
  tf_spec <$> filter (λ t, exhausted t = false) (fi_faults fi).

(** [_maybe_raise_injected_fault], shared by both simulator backends; [None] is
    a backend without an injector. *)
Definition maybe_raise_injected_fault (ft : injected_fault_type) (target : string)
    : M (option fault_injector) unit := λ o,
  match o with
  | None => (Ok tt, None)
  | Some fi =>
      match should_fault ft target fi with
      | (Ok true, fi') => (Raise (SimulatorFaultError (get_error_message ft target fi')), Some fi')
      | (Ok false, fi') => (Ok tt, Some fi')
      | (Raise e, fi') => (Raise e, Some fi')
      end
  end.

(** * Lemmas *)

(** Every tracked fault fired at most [max_triggers] times. *)
Definition injector_ok (fi : fault_injector) : Prop :=
  Forall (λ t, 0 ≤ tf_trigger_count t ≤ Z.max 0 (fsp_max_triggers (tf_spec t))) (fi_faults fi).

Lemma should_fault_loop_ok ft target l :
  Forall (λ t, 0 ≤ tf_trigger_count t ≤ Z.max 0 (fsp_max_triggers (tf_spec t))) l →
  Forall (λ t, 0 ≤ tf_trigger_count t ≤ Z.max 0 (fsp_max_triggers (tf_spec t)))
    (should_fault_loop ft target l).2 ∧
  tf_spec <$> (should_fault_loop ft target l).2 = tf_spec <$> l.
Proof.
  induction l as [|t l IH]; simpl; [done|]. intros [Ht Hl]%Forall_cons.
  specialize (IH Hl). destruct (should_fault_loop ft target l) as [r l'].
  simpl in *. destruct IH as [IH1 IH2].
  destruct (exhausted t) eqn:Hex; simpl; [split; [by constructor | by f_equal]|].
  unfold exhausted in Hex. rewrite bool_decide_eq_false in Hex.
  destruct (_matches _ _ _); simpl; [|split; [by constructor | by f_equal]].
  case_bool_decide; simpl; (split; [constructor; simpl; [lia | done] | by f_equal]).
Qed.

Lemma should_fault_total ft target fi : ∃ b, (should_fault ft target fi).1 = Ok b.
Proof.
  unfold should_fault. destruct (should_fault_loop _ _ _) as [[?|] ?]; eauto.
Qed.

(** Run [should_fault] on a list of operations. *)
Definition run_ops (ops : list (injected_fault_type * string)) (fi : fault_injector)
    : fault_injector :=
  foldl (λ fi op, (should_fault op.1 op.2 fi).2) fi ops.

Lemma should_fault_ok ft target fi :
  injector_ok fi → injector_ok (should_fault ft target fi).2 ∧
  tf_spec <$> fi_faults (should_fault ft target fi).2 = tf_spec <$> fi_faults fi.
Proof.
  intros Hok. destruct (should_fault_loop_ok ft target _ Hok) as [H1 H2].
  unfold injector_ok, should_fault.
  by destruct (should_fault_loop _ _ _) as [[?|] ?].
Qed.

Lemma run_ops_ok ops fi :
  injector_ok fi → injector_ok (run_ops ops fi) ∧
  tf_spec <$> fi_faults (run_ops ops fi) = tf_spec <$> fi_faults fi.
Proof.
  revert fi. induction ops as [|op ops IH]; simpl; intros fi Hfi; [done|].
  destruct (should_fault_ok op.1 op.2 fi Hfi) as [H1 H2].
  destruct (IH _ H1) as [H3 H4]. split; [done|]. by rewrite H4.
Qed.

Definition one_fault (spec : fault_spec) (succ trig : Z) (last : option fault_spec)
    : fault_injector :=
  FaultInjector [TrackedFault spec succ trig] last.

(** The answers of [n] matching operations in a row. *)
Fixpoint answers (ft : injected_fault_type) (target : string) (n : nat) (fi : fault_injector)
    : list (result bool) :=
  match n with
  | O => []
  | S n => (should_fault ft target fi).1 :: answers ft target n (should_fault ft target fi).2
  end.

Lemma should_fault_one spec ft target succ trig last :
  should_fault ft target (one_fault spec succ trig last) =
  if bool_decide (fsp_max_triggers spec ≤ trig) || negb (_matches spec ft target)
  then (Ok false, one_fault spec succ trig last)
  else if bool_decide (succ < fsp_trigger_after spec)
  then (Ok false, one_fault spec (succ + 1) trig last)
  else (Ok true, one_fault spec succ (trig + 1) (Some spec)).
Proof.
  unfold should_fault, one_fault; simpl. unfold exhausted; simpl.
  destruct (_ || _); [done|]. by destruct (bool_decide (succ < _)).
Qed.

Lemma answers_exhausted spec ft target n succ trig last (f : nat → Prop) `{∀ i, Decision (f i)} :
  fsp_max_triggers spec ≤ trig → (∀ i, ¬ f i) →
  answers ft target n (one_fault spec succ trig last) =
  ((λ i, Ok (bool_decide (f i))) <$> seq 0 n).
Proof.
  intros Hx. revert f H. induction n as [|n IH]; intros f Hdec Hf; [done|]. simpl.
  rewrite should_fault_one, (bool_decide_true (_ ≤ trig)) by done. simpl.
  rewrite bool_decide_false by done. f_equal.
  rewrite (IH (λ i, f (S i)) _) by done. by rewrite <-fmap_S_seq, <-list_fmap_compose.
Qed.

Lemma answers_firing spec ft target n succ trig last :
  _matches spec ft target = true → fsp_trigger_after spec ≤ succ →
  answers ft target n (one_fault spec succ trig last) =
  ((λ i, Ok (bool_decide (trig + Z.of_nat i < fsp_max_triggers spec))) <$> seq 0 n).
Proof.
  intros Hm Hs. revert trig last. induction n as [|n IH]; intros trig last; [done|].
  destruct (decide (fsp_max_triggers spec ≤ trig)) as [Hx|Hx].
  { apply (answers_exhausted spec ft target (S n) succ trig last
      (λ i, trig + Z.of_nat i < fsp_max_triggers spec)); [done | lia]. }
  simpl. rewrite should_fault_one, (bool_decide_false (_ ≤ trig)), Hm,
    (bool_decide_false (succ < _)) by lia. simpl. rewrite bool_decide_true by lia. f_equal.
  rewrite (IH (trig + 1)), <-fmap_S_seq, <-list_fmap_compose. apply list_fmap_ext.
  intros i x _. simpl. f_equal. apply bool_decide_ext. lia.
Qed.

Lemma answers_single spec ft target n succ last :
  _matches spec ft target = true → 0 ≤ succ →
  answers ft target n (one_fault spec succ 0 last) =
  ((λ i, Ok (bool_decide (fsp_trigger_after spec ≤ succ + Z.of_nat i ∧
                          Z.of_nat i < Z.max 0 (fsp_trigger_after spec - succ)
                                       + fsp_max_triggers spec))) <$> seq 0 n).
Proof.
  intros Hm. revert succ last. induction n as [|n IH]; intros succ last Hs; [done|].
  destruct (decide (fsp_trigger_after spec ≤ succ)) as [Ha|Ha].
  { rewrite answers_firing by done. apply list_fmap_ext. intros i x _. f_equal.
    apply bool_decide_ext. lia. }
  destruct (decide (fsp_max_triggers spec ≤ 0)) as [Hx|Hx].
  { apply (answers_exhausted spec ft target (S n) succ 0 last
      (λ i, fsp_trigger_after spec ≤ succ + Z.of_nat i ∧
            Z.of_nat i < Z.max 0 (fsp_trigger_after spec - succ)
                         + fsp_max_triggers spec)); [done | lia]. }
  simpl. rewrite should_fault_one, (bool_decide_false (_ ≤ 0)), Hm,
    (bool_decide_true (succ < _)) by lia. simpl. rewrite bool_decide_false by lia. f_equal.
  rewrite (IH (succ + 1)), <-fmap_S_seq, <-list_fmap_compose by lia. apply list_fmap_ext.
  intros i x _. simpl. f_equal. apply bool_decide_ext. lia.
Qed.

(** A fault configuration survives its JSON form. *)
Lemma fault_config_json (c : fault_config) (Hwf : dict_wf (faults c)) :
  FaultConfig_from_json (JObj (FaultConfig_to_json c)) = Ok c.
Proof.
  destruct c as [fs w]. unfold FaultConfig_from_json. simpl in *.
  assert (fault_items ((λ kv, (enum_value kv.1, JBool kv.2)) <$> fs) = fs) as ->.
  { unfold fault_items. clear Hwf. induction fs as [|[ft b] fs IH]; csimpl; [done|].
    rewrite enum_of_value_value. by rewrite IH. }
  rewrite dict_of_id by done. by destruct w.
Qed.

(** * Properties *)

(** An injected fault fires exactly in its window: of any number of matching
    operations on a fresh injector, the first [trigger_after] succeed, the next
    [max_triggers] fail, and every later one succeeds. *)
Theorem fault_fires_in_window (spec : fault_spec) (ft : injected_fault_type)
    (target : string) (n : nat)
    (Hm : _matches spec ft target = true)
    (Hafter : 0 ≤ fsp_trigger_after spec) (Hmax : 0 ≤ fsp_max_triggers spec) :
  answers ft target n (inject spec new_injector) =
  ((λ i, Ok (bool_decide (fsp_trigger_after spec ≤ Z.of_nat i <
                          fsp_trigger_after spec + fsp_max_triggers spec))) <$> seq 0 n).
Proof.
  change (inject spec new_injector) with (one_fault spec 0 0 None).
  rewrite answers_single by (done || lia).
  apply list_fmap_ext. intros i x _. f_equal. apply bool_decide_ext. lia.
Qed.

Lemma fault_fires_in_window_witness :
  let spec := FaultSpec InjectedFaultType.WRITE_ERROR "*" 1 2 "" [] in
  answers InjectedFaultType.WRITE_ERROR "TAPE0001" 4 (inject spec new_injector) =
  [Ok false; Ok true; Ok true; Ok false].
Proof.
  intros spec.
  refine (fault_fires_in_window spec InjectedFaultType.WRITE_ERROR "TAPE0001" 4 _ _ _);
    [reflexivity | simpl; lia | simpl; lia].
Defined.

(** No sequence of operations makes a fault fire more often than its
    [max_triggers], and operations never add, drop or reorder faults. *)
Theorem injector_never_overfires (ops : list (injected_fault_type * string))
    (specs : list fault_spec) :
  let fi := run_ops ops (foldl (λ fi s, inject s fi) new_injector specs) in
  injector_ok fi ∧ tf_spec <$> fi_faults fi = specs.
Proof.
  simpl. assert (∀ fi, injector_ok fi →
    injector_ok (foldl (λ fi s, inject s fi) fi specs) ∧
    tf_spec <$> fi_faults (foldl (λ fi s, inject s fi) fi specs) =
    ((tf_spec <$> fi_faults fi) ++ specs)%list) as Hinj.
  { induction specs as [|s specs IH]; simpl; intros fi Hfi; [by rewrite app_nil_r|].
    destruct (IH (inject s fi)) as [H1 H2].
    { unfold injector_ok. simpl. apply Forall_app. split; [done|].
      repeat constructor; simpl; lia. }
    split; [done|]. rewrite H2. simpl. by rewrite fmap_app, <-(assoc_L (++)%list). }
  destruct (Hinj new_injector) as [H1 H2]; [constructor|].
  destruct (run_ops_ok ops _ H1) as [H3 H4]. split; [done|]. by rewrite H4, H2.
Qed.
