(* ===== verification/Library.v ===== *)
(** The simulated tape library: openblade/simulator/{library,drive,changer}.py,
    class [MockLibraryBackend].

    Each method is one atomic step under the object's re-entrant lock, so the
    lock itself is not state; the non-blocking changer lock is.  Robot delays
    ([time.sleep]) and logging have no effect on the state and are left out. *)
From stdpp Require Import base list option strings pretty sets.
From Stdlib Require Import ZArith QArith Lia.
From S2P Require Import Prelude Domain Faults.
#[local] Open Scope string_scope.
#[local] Open Scope Z_scope.

(** * State *)
Record slot := Slot {
  slot_id : Z;
  slot_barcode : option barcode;
}.

Record mock_drive := MockDrive {
  drive_id : Z;
  drive_barcode : option barcode;
  drive_drive_state : drive_state;
  drive_mount_state : mount_state;
}.

Record library := Library {
  library_id : string;
  load_delay : Q;
  lib_fault_config : fault_config;
  lib_injector : option fault_injector;
  changer_locked : bool;
  slots : dict Z slot;
  ie_slots : dict Z slot;
  drives : dict Z mock_drive;
  cartridge_states : dict barcode cartridge_state;
  changer : changer_state;
}.

Definition with_injector (i : option fault_injector) (s : library) : library :=
  Library (library_id s) (load_delay s) (lib_fault_config s) i (changer_locked s)
    (slots s) (ie_slots s) (drives s) (cartridge_states s) (changer s).
Definition with_changer (locked : bool) (c : changer_state) (s : library) : library :=
  Library (library_id s) (load_delay s) (lib_fault_config s) (lib_injector s) locked
    (slots s) (ie_slots s) (drives s) (cartridge_states s) c.
Definition with_slots (d : dict Z slot) (s : library) : library :=
  Library (library_id s) (load_delay s) (lib_fault_config s) (lib_injector s)
    (changer_locked s) d (ie_slots s) (drives s) (cartridge_states s) (changer s).
Definition with_ie_slots (d : dict Z slot) (s : library) : library :=
  Library (library_id s) (load_delay s) (lib_fault_config s) (lib_injector s)
    (changer_locked s) (slots s) d (drives s) (cartridge_states s) (changer s).
Definition with_drives (d : dict Z mock_drive) (s : library) : library :=
  Library (library_id s) (load_delay s) (lib_fault_config s) (lib_injector s)
    (changer_locked s) (slots s) (ie_slots s) d (cartridge_states s) (changer s).
Definition with_states (d : dict barcode cartridge_state) (s : library) : library :=
  Library (library_id s) (load_delay s) (lib_fault_config s) (lib_injector s)
    (changer_locked s) (slots s) (ie_slots s) (drives s) d (changer s).

(** [MockLibraryBackend(...)]. *)
Definition MockLibraryBackend (id : string) (num_slots num_drives : Z) (delay : Q)
    (fc : fault_config) (inj : option fault_injector) (num_ie : Z) : library :=
  Library id delay fc inj false
    ((λ i, (i, Slot i None)) <$> zrange 1 (num_slots + 1))
    ((λ i, (i, Slot i None)) <$> zrange (num_slots + 1) (num_slots + 1 + num_ie))
    ((λ i, (i, MockDrive i None DriveState.EMPTY MountState.UNMOUNTED)) <$> zrange 0 num_drives)
    [] ChangerState.IDLE.

(** * Attribute writes

    [slot.barcode = b] on the object stored under [k], and the like. *)
Definition set_barcode_in (d : dict Z slot) (k : Z) (b : option barcode) : dict Z slot :=
  match dget d k with
  | Some sl => dset d k (Slot (slot_id sl) b)
  | None => d
  end.

Definition set_slot_barcode (k : Z) (b : option barcode) : M library unit :=
  modify (λ s, with_slots (set_barcode_in (slots s) k b) s).
Definition set_ie_barcode (k : Z) (b : option barcode) : M library unit :=
  modify (λ s, with_ie_slots (set_barcode_in (ie_slots s) k b) s).
Definition set_drive (k : Z) (b : option barcode) (ds : drive_state) (ms : mount_state)
    : M library unit :=
  modify (λ s, with_drives
    (match dget (drives s) k with
     | Some d => dset (drives s) k (MockDrive (drive_id d) b ds ms)
     | None => drives s
     end) s).
Definition set_cartridge_state (b : barcode) (c : cartridge_state) : M library unit :=
  modify (λ s, with_states (dset (cartridge_states s) b c) s).

(** [self._slots[k]] and [self._drives[k]]. *)
Definition index_slot (k : Z) : M library slot := λ s, dindex (slots s) k s.
Definition index_drive (k : Z) : M library mock_drive := λ s, dindex (drives s) k s.

(** * The internal consistency check *)
Inductive location := AtSlot (k : Z) | AtIe (k : Z) | AtDrive (k : Z).

(** Every loaded element, in the order the check visits them. *)
Definition located_items (s : library) : list (barcode * location) :=
  (omap (λ kv, (λ b, (b, AtSlot kv.1)) <$> slot_barcode kv.2) (slots s) ++
   omap (λ kv, (λ b, (b, AtIe kv.1)) <$> slot_barcode kv.2) (ie_slots s) ++
   omap (λ kv, (λ b, (b, AtDrive kv.1)) <$> drive_barcode kv.2) (drives s))%list.

(** [locations.setdefault(barcode, []).append(location)]. *)
Definition add_location (d : dict barcode (list location)) (it : barcode * location)
    : dict barcode (list location) :=
  dset d it.1 (dget_or d it.1 [] ++ [it.2])%list.

Definition locations (s : library) : dict barcode (list location) :=
  foldl add_location [] (located_items s).

Definition state_located (c : cartridge_state) : bool :=
  bool_decide (c ∈ [CartridgeState.IN_SLOT; CartridgeState.IN_DRIVE; CartridgeState.CLEANING]).

Definition invariants_hold (s : library) : bool :=
  let locs := locations s in
  forallb (λ kv, bool_decide (length kv.2 = 1%nat)) locs
  && forallb (λ kv,
       let location_count := length (dget_or locs kv.1 []) in
       negb (state_located kv.2 && bool_decide (location_count ≠ 1%nat))
       && negb (bool_decide (kv.2 ∈ [CartridgeState.EXPORTED; CartridgeState.MISSING])
                && bool_decide (location_count ≠ 0%nat)))
       (cartridge_states s).

Definition _validate_invariants_locked : M library unit := λ s,
  if invariants_hold s then (Ok tt, s) else (Raise ValueError, s).

Definition _location_count_locked (b : barcode) (s : library) : Z :=
  let here (o : option barcode) := bool_decide (o = Some b) in
  Z.of_nat (length (filter (λ sl, here (slot_barcode sl) = true)
                      (dvalues (slots s) ++ dvalues (ie_slots s))%list))
  + Z.of_nat (length (filter (λ d, here (drive_barcode d) = true) (dvalues (drives s)))).

(** * Cartridge bookkeeping *)
Definition reset : M library unit := modify (λ s,
  Library (library_id s) (load_delay s) (lib_fault_config s) (lib_injector s)
    (changer_locked s)
    (dmap (λ sl, Slot (slot_id sl) None) (slots s))
    (dmap (λ sl, Slot (slot_id sl) None) (ie_slots s))
    (dmap (λ d, MockDrive (drive_id d) None DriveState.EMPTY MountState.UNMOUNTED) (drives s))
    [] ChangerState.IDLE).

Definition add_cartridge (k : Z) (bc : string) : M library unit :=
  sl ← index_slot k;
  raise_if (is_some (slot_barcode sl)) SlotOccupiedError;;
  normalized ← liftR (Barcode bc);
  count ← gets (_location_count_locked normalized);
  raise_if (bool_decide (0 < count)) SlotOccupiedError;;
  previous_state ← gets (λ s, dget (cartridge_states s) normalized);
  match previous_state with
  | Some st => liftR (validate_cartridge_transition st CartridgeState.IN_SLOT)
  | None => mret tt
  end;;
  set_slot_barcode k (Some normalized);;
  set_cartridge_state normalized CartridgeState.IN_SLOT;;
  _validate_invariants_locked.

Definition seed_slots (bcs : list string) : M library unit :=
  reset;;
  ids ← gets (λ s, dkeys (slots s));
  forM (zip ids bcs) (λ kb, add_cartridge kb.1 kb.2).

Definition remove_cartridge (k : Z) : M library barcode :=
  sl ← index_slot k;
  match slot_barcode sl with
  | None => raise SlotEmptyError
  | Some b =>
      set_slot_barcode k None;;
      modify (λ s, with_states (ddel (cartridge_states s) b) s);;
      _validate_invariants_locked;;
      mret b
  end.

(** [SlotState(...)] of a stored slot: [occupied] is computed, so the check of
    its constructor passes. *)
Definition slot_view (sl : slot) : slot_state :=
  SlotStateRec (slot_id sl) (slot_barcode sl) (is_some (slot_barcode sl)).
Definition drive_view (d : mock_drive) : drive_status :=
  DriveStatus (drive_id d) (drive_barcode d) (drive_drive_state d) (drive_mount_state d).

Definition inventory (s : library) : library_inventory :=
  LibraryInventory (library_id s) (slot_view <$> dvalues (slots s))
    (drive_view <$> dvalues (drives s)) (changer s).

Definition list_tapes (s : library) : list (Z * barcode) :=
  omap (λ sl, (λ b, (slot_id sl, b)) <$> slot_barcode sl) (dvalues (slots s)).

Definition get_drive (k : Z) : M library drive_status := drive_view <$> index_drive k.
Definition get_slot (k : Z) : M library slot_state := slot_view <$> index_slot k.

Definition get_cartridge_state (bc : string) (s : library) : result (option cartridge_state) :=
  b ← Barcode bc; Ok (dget (cartridge_states s) b).

Definition find_slot_by_barcode (bc : string) (s : library) : result (option Z) :=
  b ← Barcode bc;
  Ok (fst <$> (snd <$> list_find (λ kv, slot_barcode kv.2 = Some b) (slots s))).

Definition find_drive_by_barcode (bc : string) (s : library) : result (option Z) :=
  b ← Barcode bc;
  Ok (fst <$> (snd <$> list_find (λ kv, drive_barcode kv.2 = Some b) (drives s))).

(** [sorted(self._cartridge_states)]: insertion sort in the string order. *)
Fixpoint insert_sorted (x : string) (l : list string) : list string :=
  match l with
  | [] => [x]
  | y :: l => if String.leb x y then x :: y :: l else y :: insert_sorted x l
  end.
Definition sort_strings (l : list string) : list string := foldr insert_sorted [] l.

Definition get_all_barcodes (s : library) : list barcode :=
  sort_strings (dkeys (cartridge_states s)).

(** * The changer *)
Definition _enter_changer : M library unit := λ s,
  if should_fail (lib_fault_config s) FaultType.ROBOT_LOCK_CONFLICT
  then (Raise ChangerBusyError, s)
  else if changer_locked s then (Raise ChangerBusyError, s)
  else (Ok tt, with_changer true ChangerState.MOVING s).

Definition _leave_changer : M library unit :=
  modify (with_changer false ChangerState.IDLE).

Definition _maybe_fail (fts : list fault_type) : M library unit := λ s,
  if existsb (should_fail (lib_fault_config s)) fts
  then (Raise SimulatedRobotTimeout, s) else (Ok tt, s).

Definition _maybe_raise_injected_fault (ft : injected_fault_type) (target : string)
    : M library unit :=
  zoom lib_injector with_injector (maybe_raise_injected_fault ft target).

Definition _fault_target_for_load (source_slot drive_id : Z) (s : library) : string :=
  match slot_barcode <$> dget (slots s) source_slot with
  | Some (Some b) => b
  | _ => pretty drive_id
  end.

Definition _fault_target_for_unload (drive_id : Z) (s : library) : string :=
  match drive_barcode <$> dget (drives s) drive_id with
  | Some (Some b) => b
  | _ => pretty drive_id
  end.

(** The locked section of [load]. *)
Definition load_body (source_slot drive_id : Z) : M library operation_result :=
  sl ← index_slot source_slot;
  drive ← index_drive drive_id;
  match slot_barcode sl with
  | None => raise SlotEmptyError
  | Some b =>
      raise_if (is_some (drive_barcode drive)) DriveOccupiedError;;
      current_state ← gets (λ s, dget_or (cartridge_states s) b CartridgeState.IN_SLOT);
      liftR (validate_cartridge_transition current_state CartridgeState.IN_DRIVE);;
      liftR (validate_drive_transition (drive_drive_state drive) DriveState.LOADED);;
      set_slot_barcode source_slot None;;
      set_drive drive_id (Some b) DriveState.LOADED MountState.UNMOUNTED;;
      set_cartridge_state b CartridgeState.IN_DRIVE;;
      _validate_invariants_locked;;
      mret (OperationResult true "loaded" [("barcode", JStr b); ("drive", JInt drive_id)])
  end.

Definition load (source_slot drive_id : Z) : M library operation_result :=
  target ← gets (_fault_target_for_load source_slot drive_id);
  _maybe_raise_injected_fault InjectedFaultType.LOAD_FAILURE target;;
  _enter_changer;;
  try_finally
    (_maybe_fail [FaultType.LOAD_FAILURE; FaultType.CHANGER_TIMEOUT; FaultType.DRIVE_TIMEOUT];;
     load_body source_slot drive_id)
    _leave_changer.

Definition unload_body (drive_id target_slot : Z) : M library operation_result :=
  drive ← index_drive drive_id;
  sl ← index_slot target_slot;
  match drive_barcode drive with
  | None => raise SlotEmptyError
  | Some b =>
      raise_if (is_some (slot_barcode sl)) SlotOccupiedError;;
      raise_if (negb (can_unload_drive (drive_drive_state drive) (drive_mount_state drive)))
        TapeMountedError;;
      current_state ← gets (λ s, dget_or (cartridge_states s) b CartridgeState.IN_DRIVE);
      liftR (validate_cartridge_transition current_state CartridgeState.IN_SLOT);;
      liftR (validate_drive_transition (drive_drive_state drive) DriveState.EMPTY);;
      set_drive drive_id None DriveState.EMPTY MountState.UNMOUNTED;;
      set_slot_barcode target_slot (Some b);;
      set_cartridge_state b CartridgeState.IN_SLOT;;
      _validate_invariants_locked;;
      mret (OperationResult true "unloaded" [("barcode", JStr b); ("slot", JInt target_slot)])
  end.

Definition unload (drive_id target_slot : Z) : M library operation_result :=
  target ← gets (_fault_target_for_unload drive_id);
  _maybe_raise_injected_fault InjectedFaultType.UNLOAD_FAILURE target;;
  _enter_changer;;
  try_finally
    (_maybe_fail [FaultType.UNLOAD_FAILURE; FaultType.CHANGER_TIMEOUT; FaultType.DRIVE_TIMEOUT];;
     unload_body drive_id target_slot)
    _leave_changer.

Definition move_body (source_slot target_slot : Z) : M library operation_result :=
  source ← index_slot source_slot;
  target ← index_slot target_slot;
  match slot_barcode source with
  | None => raise SlotEmptyError
  | Some b =>
      raise_if (is_some (slot_barcode target)) SlotOccupiedError;;
      current_state ← gets (λ s, dget_or (cartridge_states s) b CartridgeState.IN_SLOT);
      liftR (validate_cartridge_transition current_state CartridgeState.IN_SLOT);;
      set_slot_barcode target_slot (Some b);;
      set_slot_barcode source_slot None;;
      _validate_invariants_locked;;
      mret (OperationResult true "moved"
              [("source", JInt source_slot); ("target", JInt target_slot); ("barcode", JStr b)])
  end.

Definition move (source_slot target_slot : Z) : M library operation_result :=
  _enter_changer;;
  try_finally
    (failing ← gets (λ s, should_fail (lib_fault_config s) FaultType.MOVE_FAILURE);
     if failing : bool then
       mret (OperationResult false "Injected move failure"
               [("source", JInt source_slot); ("target", JInt target_slot)])
     else
       _maybe_fail [FaultType.CHANGER_TIMEOUT];;
       move_body source_slot target_slot)
    _leave_changer.

(** * Mount state *)
Definition set_drive_mount_state (k : Z) (ms : mount_state) : M library unit :=
  drive ← index_drive k;
  liftR (validate_mount_transition (drive_mount_state drive) ms);;
  let ds :=
    if bool_decide (ms ∈ [MountState.MOUNTED_RO; MountState.MOUNTED_RW; MountState.DIRTY])
    then DriveState.BUSY
    else if is_some (drive_barcode drive) then DriveState.LOADED else DriveState.EMPTY in
  liftR (validate_drive_transition (drive_drive_state drive) ds);;
  set_drive k (drive_barcode drive) ds ms;;
  _validate_invariants_locked.

(** * Import, export and the mailslot *)
Definition export_cartridge (b : string) : M library unit := λ s,
  let out s := with_states (dset (cartridge_states s) b CartridgeState.EXPORTED) s in
  match list_find (λ kv, slot_barcode kv.2 = Some b) (slots s) with
  | Some (_, (k, _)) => (Ok tt, out (with_slots (set_barcode_in (slots s) k None) s))
  | None =>
    match list_find (λ kv, slot_barcode kv.2 = Some b) (ie_slots s) with
    | Some (_, (k, _)) => (Ok tt, out (with_ie_slots (set_barcode_in (ie_slots s) k None) s))
    | None =>
      match list_find (λ kv, drive_barcode kv.2 = Some b) (drives s) with
      | Some (_, (k, d)) =>
          (Ok tt, out (with_drives
             (dset (drives s) k
                (MockDrive (drive_id d) None DriveState.EMPTY MountState.UNMOUNTED)) s))
      | None =>
          if dmem (cartridge_states s) b then (Ok tt, out s) else (Ok tt, s)
      end
    end
  end.

(** [Barcode(barcode) if barcode else None]. *)
Definition opt_barcode (o : option string) : result (option barcode) :=
  match o with
  | Some bc => if bool_decide (bc = "") then Ok None else Some <$> Barcode bc
  | None => Ok None
  end.

Definition seed_import_export_slots (entries : dict Z (option string)) : M library unit :=
  built ← liftR (mapR (λ kv, b ← opt_barcode kv.2; Ok (kv.1, Slot kv.1 b)) entries);
  modify (with_ie_slots built);;
  forM built (λ ksl,
    match slot_barcode ksl.2 with
    | Some b => modify (λ s,
        with_states (dsetdefault (cartridge_states s) b CartridgeState.IN_SLOT) s)
    | None => mret tt
    end);;
  _validate_invariants_locked.

(** [sorted(..., key=slot_id)]: stable insertion sort. *)
Fixpoint insert_by_id (x : slot) (l : list slot) : list slot :=
  match l with
  | [] => [x]
  | y :: l => if bool_decide (slot_id x ≤ slot_id y) then x :: y :: l
              else y :: insert_by_id x l
  end.
Definition import_export_slots (s : library) : list slot_state :=
  slot_view <$> foldr insert_by_id [] (dvalues (ie_slots s)).

Definition import_body (ie_slot target_slot : Z) : M library operation_result :=
  source ← gets (λ s, dget (ie_slots s) ie_slot);
  match source with
  | None => raise SlotEmptyError
  | Some source =>
    match slot_barcode source with
    | None => raise SlotEmptyError
    | Some b =>
      target ← gets (λ s, dget (slots s) target_slot);
      match target with
      | None => raise SlotEmptyError
      | Some target =>
        raise_if (is_some (slot_barcode target)) SlotOccupiedError;;
        set_slot_barcode target_slot (Some b);;
        set_ie_barcode ie_slot None;;
        set_cartridge_state b CartridgeState.IN_SLOT;;
        _validate_invariants_locked;;
        mret (OperationResult true "imported"
                [("barcode", JStr b); ("source_ie_slot", JInt ie_slot);
                 ("target_slot", JInt target_slot)])
      end
    end
  end.

Definition import_cartridge (ie_slot target_slot : Z) : M library operation_result :=
  _enter_changer;;
  try_finally
    (_maybe_fail [FaultType.CHANGER_TIMEOUT];; import_body ie_slot target_slot)
    _leave_changer.

Definition export_to_ie_body (source_slot ie_slot : Z) : M library operation_result :=
  source ← gets (λ s, dget (slots s) source_slot);
  match source with
  | None => raise SlotEmptyError
  | Some source =>
    match slot_barcode source with
    | None => raise SlotEmptyError
    | Some b =>
      target ← gets (λ s, dget (ie_slots s) ie_slot);
      match target with
      | None => raise SlotEmptyError
      | Some target =>
        raise_if (is_some (slot_barcode target)) SlotOccupiedError;;
        set_ie_barcode ie_slot (Some b);;
        set_slot_barcode source_slot None;;
        set_cartridge_state b CartridgeState.IN_SLOT;;
        _validate_invariants_locked;;
        mret (OperationResult true "exported"
                [("barcode", JStr b); ("source_slot", JInt source_slot);
                 ("ie_slot", JInt ie_slot)])
      end
    end
  end.

Definition export_cartridge_to_ie (source_slot ie_slot : Z) : M library operation_result :=
  _enter_changer;;
  try_finally
    (_maybe_fail [FaultType.CHANGER_TIMEOUT];; export_to_ie_body source_slot ie_slot)
    _leave_changer.

(** * Snapshots *)
Definition opt_json (o : option barcode) : json :=
  match o with Some b => JStr b | None => JNull end.

Definition slot_to_json (sl : slot) : json :=
  JObj [("slot_id", JInt (slot_id sl)); ("barcode", opt_json (slot_barcode sl))].

Definition drive_to_json (d : mock_drive) : json :=
  JObj [ ("drive_id", JInt (drive_id d)); ("barcode", opt_json (drive_barcode d));
         ("drive_state", JStr (enum_value (drive_drive_state d)));
         ("mount_state", JStr (enum_value (drive_mount_state d))) ].

Definition library_to_json (s : library) : dict string json :=
  [ ("library_id", JStr (library_id s));
    ("load_delay", JFloat (load_delay s));
    ("fault_config", JObj (FaultConfig_to_json (lib_fault_config s)));
    ("changer_state", JStr (enum_value (changer s)));
    ("slots", JArr (slot_to_json <$> dvalues (slots s)));
    ("import_export_slots", JArr (slot_to_json <$> dvalues (ie_slots s)));
    ("drives", JArr (drive_to_json <$> dvalues (drives s)));
    ("cartridge_states",
       JObj ((λ kv, (kv.1, JStr (enum_value kv.2))) <$> cartridge_states s)) ].

(** Accessors of a decoded payload.  The model covers payloads of the shapes
    [to_json] writes; a field of another shape is a [TypeError] here. *)
Definition as_list (j : json) : result (list json) :=
  match j with JArr l => Ok l | _ => Raise TypeError end.
Definition as_obj (j : json) : result (dict string json) :=
  match j with JObj d => Ok d | _ => Raise TypeError end.
Definition as_str (j : json) : result string :=
  match j with JStr s => Ok s | _ => Raise TypeError end.
(** [float(x)]. *)
Definition coerce_float (j : json) : result Q :=
  match j with
  | JFloat q => Ok q
  | JInt z => Ok (inject_Z z)
  | _ => Raise TypeError
  end.

(** [Barcode(item["barcode"]) if item.get("barcode") else None]. *)
Definition item_barcode (d : dict string json) : result (option barcode) :=
  let j := jget d "barcode" in
  if truthy j then bc ← as_str j; Some <$> Barcode bc else Ok None.

Definition slot_of_json (j : json) : result (Z * slot) :=
  d ← as_obj j;
  id ← jindex d "slot_id" ≫= coerce_int;
  b ← item_barcode d;
  Ok (id, Slot id b).

Definition drive_of_json (j : json) : result (Z * mock_drive) :=
  d ← as_obj j;
  id ← jindex d "drive_id" ≫= coerce_int;
  b ← item_barcode d;
  ds ← (jindex d "drive_state" ≫= as_str) ≫= enum_of_value;
  ms ← (jindex d "mount_state" ≫= as_str) ≫= enum_of_value;
  Ok (id, MockDrive id b ds ms).

Definition state_of_json (kv : string * json) : result (barcode * cartridge_state) :=
  st ← as_str kv.2 ≫= enum_of_value; Ok (kv.1, st).

(** [setdefault] of every loaded element's cartridge. *)
Definition default_states (bs : list (option barcode)) (c : cartridge_state)
    (d : dict barcode cartridge_state) : dict barcode cartridge_state :=
  foldl (λ d o, match o with Some b => dsetdefault d b c | None => d end) d bs.

Definition library_from_json (raw : dict string json) : result library :=
  id ← jindex raw "library_id" ≫= as_str;
  raw_slots ← jindex raw "slots" ≫= as_list;
  raw_drives ← jindex raw "drives" ≫= as_list;
  delay ← coerce_float (dget_or raw "load_delay" (JFloat 0));
  fc ← FaultConfig_from_json (jget raw "fault_config");
  ch ← as_str (dget_or raw "changer_state" (JStr (enum_value ChangerState.IDLE)))
         ≫= enum_of_value;
  sls ← mapR slot_of_json raw_slots;
  raw_ie ← as_list (dget_or raw "import_export_slots" (JArr []));
  ies ← mapR slot_of_json raw_ie;
  drs ← mapR drive_of_json raw_drives;
  raw_states ← as_obj (dget_or raw "cartridge_states" (JObj []));
  sts ← mapR state_of_json raw_states;
  let slots := dict_of sls in
  let ie_slots := dict_of ies in
  let drives := dict_of drs in
  let states1 := default_states (slot_barcode <$> (dvalues slots ++ dvalues ie_slots)%list)
                   CartridgeState.IN_SLOT (dict_of sts) in
  let states2 := default_states (drive_barcode <$> dvalues drives)
                   CartridgeState.IN_DRIVE states1 in
  let s := Library id delay fc None false slots ie_slots drives states2 ch in
  if invariants_hold s then Ok s else Raise ValueError.

(** * Where the cartridges are *)
Definition slot_bcs (d : dict Z slot) : list barcode := omap slot_barcode (dvalues d).
Definition drive_bcs (d : dict Z mock_drive) : list barcode := omap drive_barcode (dvalues d).

(** The cartridges in storage or I/E elements, those in drives, and both. *)
Definition in_slots (s : library) : list barcode :=
  (slot_bcs (slots s) ++ slot_bcs (ie_slots s))%list.
Definition in_drives (s : library) : list barcode := drive_bcs (drives s).
Definition located (s : library) : list barcode := (in_slots s ++ in_drives s)%list.

(** The recorded states agree with the positions. *)
Definition agree (st : dict barcode cartridge_state) (L D : list barcode) : Prop :=
  ∀ b, match dget st b with
       | Some CartridgeState.IN_DRIVE => b ∈ D
       | Some CartridgeState.IN_SLOT | Some CartridgeState.CLEANING => b ∈ L
       | Some CartridgeState.EXPORTED | Some CartridgeState.MISSING | None => b ∉ L ∧ b ∉ D
       end.

(** An empty drive is never busy or mounted; a mounted or dirty one is busy. *)
Definition drive_ok (d : mock_drive) : Prop :=
  match drive_barcode d with
  | None => drive_drive_state d ∈ [DriveState.EMPTY; DriveState.FAILED]
            ∧ drive_mount_state d = MountState.UNMOUNTED
  | Some _ => drive_drive_state d ≠ DriveState.EMPTY
              ∧ (drive_mount_state d ≠ MountState.UNMOUNTED →
                 drive_drive_state d = DriveState.BUSY)
  end.

(** The invariant of the library: distinct elements stored under their own
    ids, every cartridge in at most one place, with a canonical barcode, and
    coherent states and drives. *)
Record lib_inv (s : library) : Prop := {
  inv_slots : dict_wf (slots s) ∧ Forall (λ kv, slot_id kv.2 = kv.1) (slots s);
  inv_ie : dict_wf (ie_slots s) ∧ Forall (λ kv, slot_id kv.2 = kv.1) (ie_slots s);
  inv_drives : dict_wf (drives s) ∧
    Forall (λ kv, drive_id kv.2 = kv.1 ∧ drive_ok kv.2) (drives s);
  inv_states : dict_wf (cartridge_states s);
  inv_nodup : NoDup (located s);
  inv_agree : agree (cartridge_states s) (in_slots s) (in_drives s);
  inv_valid : Forall (λ b, Barcode b = Ok b) (located s);
}.

(** ** The check decides its declarative reading *)
Lemma located_items_fst s : (located_items s).*1 = located s.
Proof.
  assert (∀ {V} (f : V → option barcode) (g : Z → location) (d : dict Z V),
    (omap (λ kv, (λ b, (b, g kv.1)) <$> f kv.2) d).*1 = omap f d.*2) as Hgen.
  { intros V f g d. induction d as [|[k v] d IH]; csimpl; [done|].
    destruct (f v); csimpl; by rewrite IH. }
  unfold located_items, located, in_slots, in_drives, slot_bcs, drive_bcs, dvalues.
  rewrite !fmap_app, (Hgen _ slot_barcode AtSlot), (Hgen _ slot_barcode AtIe),
    (Hgen _ drive_barcode AtDrive). by rewrite (assoc_L (++)%list).
Qed.

Definition count (b : barcode) (l : list barcode) : nat := length (filter (λ x, x = b) l).

Lemma count_cons b x l : count b (x :: l) = ((if decide (x = b) then 1 else 0) + count b l)%nat.
Proof. unfold count. rewrite filter_cons. by case_decide. Qed.

Lemma count_0 b l : count b l = 0%nat ↔ b ∉ l.
Proof.
  induction l as [|x l IH]; [split; [by intros _ ?%elem_of_nil | done]|].
  rewrite count_cons, not_elem_of_cons. case_decide; naive_solver lia.
Qed.

Lemma count_NoDup l : NoDup l ↔ ∀ b, (count b l ≤ 1)%nat.
Proof.
  induction l as [|x l IH]; [split; [unfold count; simpl; lia | constructor]|].
  rewrite NoDup_cons, IH. setoid_rewrite count_cons. split.
  - intros [Hx Hl] b. specialize (Hl b). case_decide; subst; [|lia].
    apply count_0 in Hx. lia.
  - intros H. split; [|intros b; specialize (H b); lia].
    specialize (H x). rewrite decide_True in H by done. apply count_0. lia.
Qed.

Lemma locations_count items d b :
  length (dget_or (foldl add_location d items) b []) =
  (length (dget_or d b []) + count b items.*1)%nat.
Proof.
  revert d. induction items as [|[x loc] items IH]; csimpl; intros d.
  { unfold count; simpl. lia. }
  rewrite IH, count_cons. unfold add_location, dget_or; simpl. rewrite dget_dset.
  case_decide; simpl; [rewrite length_app; simpl; subst; lia | lia].
Qed.

Lemma locations_wf items d : dict_wf d → dict_wf (foldl add_location d items).
Proof.
  revert d. induction items as [|it items IH]; simpl; [done|]. intros d Hd.
  apply IH. by apply dict_wf_dset.
Qed.

Lemma locations_length s b : length (dget_or (locations s) b []) = count b (located s).
Proof. unfold locations. by rewrite locations_count, located_items_fst. Qed.

Lemma locations_entry s b ls : (b, ls) ∈ locations s → length ls = count b (located s).
Proof.
  intros Hin. rewrite <-locations_length. unfold dget_or.
  by rewrite (elem_dget _ b ls) by (done || apply locations_wf; constructor).
Qed.

Lemma locations_nonempty items d :
  (∀ b ls, (b, ls) ∈ d → ls ≠ []) → ∀ b ls, (b, ls) ∈ foldl add_location d items → ls ≠ [].
Proof.
  revert d. induction items as [|it items IH]; simpl; [done|]. intros d Hd. apply IH.
  intros b ls. unfold add_location. revert Hd. generalize (dget_or d it.1 []).
  induction d as [|[k v] d IHd]; simpl; intros l0 Hd.
  - intros [= -> ->]%list_elem_of_singleton. by destruct l0.
  - case_decide; subst; rewrite elem_of_cons; intros [?|?]; simplify_eq.
    + by destruct l0.
    + eapply Hd. by right.
    + eapply Hd. by left.
    + eapply IHd; [|done]. intros ???. eapply Hd. by right.
Qed.

Lemma invariants_hold_spec s :
  dict_wf (cartridge_states s) →
  invariants_hold s = true ↔
  NoDup (located s) ∧
  ∀ b c, dget (cartridge_states s) b = Some c →
    if state_located c then b ∈ located s else b ∉ located s.
Proof.
  intros Hst. unfold invariants_hold. rewrite andb_true_iff, !forallb_forall.
  setoid_rewrite <-list_elem_of_In. split.
  - intros [H1 H2]. assert (NoDup (located s)) as Hnd.
    { apply count_NoDup. intros b. rewrite <-locations_length. unfold dget_or.
      destruct (dget (locations s) b) as [ls|] eqn:Hls; simpl; [|lia].
      apply dget_Some_elem in Hls. specialize (H1 _ Hls). simpl in H1.
      apply bool_decide_eq_true in H1. lia. }
    split; [done|]. intros b c Hc%dget_Some_elem. specialize (H2 _ Hc). simpl in H2.
    rewrite locations_length in H2. rewrite count_NoDup in Hnd. specialize (Hnd b).
    pose proof (count_0 b (located s)) as H0.
    destruct c; simpl in *; repeat case_bool_decide; try done;
      destruct (decide (b ∈ located s)); naive_solver lia.
  - intros [Hnd Hagree]. split.
    + intros [b ls] Hls. simpl. apply bool_decide_eq_true.
      pose proof (locations_nonempty _ [] ltac:(by intros ?? ?%elem_of_nil) _ _ Hls).
      apply locations_entry in Hls. rewrite count_NoDup in Hnd. specialize (Hnd b).
      destruct ls; [done|]. simpl in *. lia.
    + intros [b c] Hc. simpl. rewrite locations_length.
      specialize (Hagree b c (elem_dget _ _ _ Hst Hc)). rewrite count_NoDup in Hnd.
      specialize (Hnd b). pose proof (count_0 b (located s)) as H0.
      destruct c; simpl in *; repeat case_bool_decide; simpl; try done; naive_solver lia.
Qed.

Lemma inv_holds s : lib_inv s → invariants_hold s = true.
Proof.
  intros [_ _ _ Hst Hnd Hag _]. apply invariants_hold_spec; [done|]. split; [done|].
  intros b c Hc. specialize (Hag b). rewrite Hc in Hag. unfold located.
  destruct c; simpl; rewrite elem_of_app; naive_solver.
Qed.

Lemma validate_inv s : lib_inv s → _validate_invariants_locked s = (Ok tt, s).
Proof. intros Hs%inv_holds. unfold _validate_invariants_locked. by rewrite Hs. Qed.

(** ** Effect of the attribute writes on the positions *)
Definition slots_ok (d : dict Z slot) : Prop :=
  dict_wf d ∧ Forall (λ kv, slot_id kv.2 = kv.1) d.
Definition drives_ok (d : dict Z mock_drive) : Prop :=
  dict_wf d ∧ Forall (λ kv, drive_id kv.2 = kv.1 ∧ drive_ok kv.2) d.

Lemma slots_ok_set d k o : slots_ok d → slots_ok (set_barcode_in d k o).
Proof.
  intros [Hwf Hid]. unfold set_barcode_in. destruct (dget d k) as [sl|] eqn:Hk; [|done].
  split; [by apply dict_wf_dset|]. apply Forall_dset; [done|].
  by apply (Forall_dget _ _ _ _ Hid Hk).
Qed.

Lemma drives_ok_set d k dr o ds ms :
  drives_ok d → dget d k = Some dr → drive_ok (MockDrive k o ds ms) →
  drives_ok (dset d k (MockDrive (drive_id dr) o ds ms)).
Proof.
  intros [Hwf Hd] Hk Hok. split; [by apply dict_wf_dset|]. apply Forall_dset; [done|].
  destruct (Forall_dget _ _ _ _ Hd Hk) as [Hid _]. simpl in *. by rewrite Hid.
Qed.

Lemma dget_set_barcode d k k' o :
  dget (set_barcode_in d k o) k' =
  if decide (k = k') then (λ sl, Slot (slot_id sl) o) <$> dget d k else dget d k'.
Proof.
  unfold set_barcode_in. destruct (dget d k) as [sl|] eqn:Hk.
  - rewrite dget_dset. by case_decide.
  - case_decide; subst; [by rewrite Hk | done].
Qed.

Lemma slot_take d k sl b :
  dget d k = Some sl → slot_barcode sl = Some b →
  slot_bcs d ≡ₚ b :: slot_bcs (set_barcode_in d k None).
Proof.
  intros Hk Hb. unfold slot_bcs, dvalues, set_barcode_in. rewrite Hk.
  destruct (omap_dset_perm slot_barcode d k sl Hk) as (rest & -> & ->). by rewrite Hb.
Qed.

Lemma slot_put d k sl b :
  dget d k = Some sl → slot_barcode sl = None →
  slot_bcs (set_barcode_in d k (Some b)) ≡ₚ b :: slot_bcs d.
Proof.
  intros Hk Hb. unfold slot_bcs, dvalues, set_barcode_in. rewrite Hk.
  destruct (omap_dset_perm slot_barcode d k sl Hk) as (rest & -> & ->). by rewrite Hb.
Qed.

Lemma drive_set d k dr dr' :
  dget d k = Some dr →
  ∃ rest, drive_bcs d ≡ₚ (option_list (drive_barcode dr) ++ rest)%list ∧
          drive_bcs (dset d k dr') ≡ₚ (option_list (drive_barcode dr') ++ rest)%list.
Proof.
  intros Hk. destruct (omap_dset_perm drive_barcode d k dr Hk) as (rest & H1 & H2).
  exists rest. split; [exact H1 | exact (H2 dr')].
Qed.

Lemma slot_bcs_elem d k sl b :
  dget d k = Some sl → slot_barcode sl = Some b → b ∈ slot_bcs d.
Proof. intros Hk Hb. rewrite (slot_take _ _ _ _ Hk Hb). by left. Qed.

Lemma drive_bcs_elem d k dr b :
  dget d k = Some dr → drive_barcode dr = Some b → b ∈ drive_bcs d.
Proof.
  intros Hk Hb. destruct (drive_set d k dr dr Hk) as (rest & -> & _). rewrite Hb. by left.
Qed.

(** ** Agreement under the state changes *)
Lemma agree_perm st L L' D D' : L ≡ₚ L' → D ≡ₚ D' → agree st L D → agree st L' D'.
Proof.
  intros HL HD Hag b. specialize (Hag b).
  destruct (dget st b) as [[]|]; by rewrite <-?HL, <-?HD.
Qed.

(** [b] gets state [c]; nothing else moves. *)
Lemma agree_update st b c L D L' D' :
  (∀ x, x ≠ b → (x ∈ L ↔ x ∈ L') ∧ (x ∈ D ↔ x ∈ D')) →
  match c with
  | CartridgeState.IN_DRIVE => b ∈ D'
  | CartridgeState.IN_SLOT | CartridgeState.CLEANING => b ∈ L'
  | CartridgeState.EXPORTED | CartridgeState.MISSING => b ∉ L' ∧ b ∉ D'
  end →
  agree st L D → agree (dset st b c) L' D'.
Proof.
  intros Hx Hc Hag x. rewrite dget_dset. case_decide as Hb; subst; [by destruct c|].
  destruct (Hx x) as [HL HD]; [done|]. specialize (Hag x).
  destruct (dget st x) as [[]|]; naive_solver.
Qed.

Lemma lib_inv_build s L D :
  slots_ok (slots s) → slots_ok (ie_slots s) → drives_ok (drives s) →
  dict_wf (cartridge_states s) → in_slots s ≡ₚ L → in_drives s ≡ₚ D →
  NoDup (L ++ D)%list → agree (cartridge_states s) L D →
  Forall (λ b, Barcode b = Ok b) (L ++ D)%list → lib_inv s.
Proof.
  intros ???? HL HD Hnd Hag Hval. split; [assumption..| | |].
  - unfold located. by rewrite HL, HD.
  - by eapply agree_perm; [symmetry..|].
  - unfold located. by rewrite HL, HD.
Qed.

Lemma agree_in_slot st L D b : agree st L D → b ∈ L → b ∉ D →
  dget st b = Some CartridgeState.IN_SLOT ∨ dget st b = Some CartridgeState.CLEANING.
Proof.
  intros Hag HL HD. specialize (Hag b). destruct (dget st b) as [[]|]; naive_solver.
Qed.

Lemma agree_in_drive st L D b : agree st L D → b ∈ D → b ∉ L →
  dget st b = Some CartridgeState.IN_DRIVE.
Proof.
  intros Hag HD HL. specialize (Hag b). destruct (dget st b) as [[]|]; naive_solver.
Qed.

(** ** The successful moves preserve the invariant and move one cartridge *)
Definition parts_ok (s : library) : Prop :=
  slots_ok (slots s) ∧ slots_ok (ie_slots s) ∧ drives_ok (drives s).

Lemma lib_inv_parts s : lib_inv s → parts_ok s.
Proof. by intros [Hs Hi Hd _ _ _ _]. Qed.

Section relocate.
Context (s s' : library) (b : barcode).
Hypothesis Hinv : lib_inv s.
Hypothesis Hparts : parts_ok s'.

Lemma lib_inv_relocate (c : cartridge_state) :
  cartridge_states s' = dset (cartridge_states s) b c →
  located s' ≡ₚ located s →
  (∀ x, x ≠ b → (x ∈ in_slots s ↔ x ∈ in_slots s') ∧ (x ∈ in_drives s ↔ x ∈ in_drives s')) →
  match c with
  | CartridgeState.IN_DRIVE => b ∈ in_drives s'
  | CartridgeState.IN_SLOT | CartridgeState.CLEANING => b ∈ in_slots s'
  | CartridgeState.EXPORTED | CartridgeState.MISSING => b ∉ in_slots s' ∧ b ∉ in_drives s'
  end →
  lib_inv s'.
Proof.
  intros Hst Hloc Hx Hc. destruct Hinv as [_ _ _ Hwf Hnd Hag Hval], Hparts as (?&?&?).
  split; [assumption..| | | |].
  - rewrite Hst. by apply dict_wf_dset.
  - by rewrite Hloc.
  - rewrite Hst. by eapply agree_update.
  - by rewrite Hloc.
Qed.

Lemma inv_slot_to_drive :
  cartridge_states s' = dset (cartridge_states s) b CartridgeState.IN_DRIVE →
  in_slots s ≡ₚ b :: in_slots s' → in_drives s' ≡ₚ b :: in_drives s →
  lib_inv s' ∧ located s' ≡ₚ located s.
Proof.
  intros Hst HS HD. assert (located s' ≡ₚ located s) as Hloc.
  { unfold located. rewrite HS, HD. simpl. by rewrite Permutation_middle. }
  split; [|done]. apply (lib_inv_relocate CartridgeState.IN_DRIVE); [done..| |].
  - intros x Hx. rewrite HS, HD, !elem_of_cons. naive_solver.
  - rewrite HD. by left.
Qed.

Lemma inv_drive_to_slot :
  cartridge_states s' = dset (cartridge_states s) b CartridgeState.IN_SLOT →
  in_slots s' ≡ₚ b :: in_slots s → in_drives s ≡ₚ b :: in_drives s' →
  lib_inv s' ∧ located s' ≡ₚ located s.
Proof.
  intros Hst HS HD. assert (located s' ≡ₚ located s) as Hloc.
  { unfold located. rewrite HS, HD. simpl. by rewrite Permutation_middle. }
  split; [|done]. apply (lib_inv_relocate CartridgeState.IN_SLOT); [done..| |].
  - intros x Hx. rewrite HS, HD, !elem_of_cons. naive_solver.
  - rewrite HS. by left.
Qed.

Lemma inv_slot_to_slot :
  cartridge_states s' = dset (cartridge_states s) b CartridgeState.IN_SLOT →
  in_slots s' ≡ₚ in_slots s → b ∈ in_slots s → in_drives s' = in_drives s →
  lib_inv s' ∧ located s' ≡ₚ located s.
Proof.
  intros Hst HS Hb HD. assert (located s' ≡ₚ located s) as Hloc.
  { unfold located. by rewrite HS, HD. }
  split; [|done]. apply (lib_inv_relocate CartridgeState.IN_SLOT); [done..| |].
  - intros x Hx. by rewrite HS, HD.
  - by rewrite HS.
Qed.

Lemma inv_same_states :
  cartridge_states s' = cartridge_states s →
  in_slots s' ≡ₚ in_slots s → in_drives s' ≡ₚ in_drives s →
  lib_inv s' ∧ located s' ≡ₚ located s.
Proof.
  intros Hst HS HD. assert (located s' ≡ₚ located s) as Hloc.
  { unfold located. by rewrite HS, HD. }
  split; [|done]. destruct Hinv as [_ _ _ Hwf Hnd Hag Hval], Hparts as (?&?&?).
  split; [assumption..| | | |].
  - by rewrite Hst.
  - by rewrite Hloc.
  - rewrite Hst. by eapply agree_perm; [symmetry..|].
  - by rewrite Hloc.
Qed.
End relocate.

Definition after_load (s : library) (k dk : Z) (dr : mock_drive) (b : barcode) : library :=
  with_states (dset (cartridge_states s) b CartridgeState.IN_DRIVE)
    (with_drives (dset (drives s) dk
        (MockDrive (drive_id dr) (Some b) DriveState.LOADED MountState.UNMOUNTED))
      (with_slots (set_barcode_in (slots s) k None) s)).

Definition after_unload (s : library) (dk k : Z) (dr : mock_drive) (b : barcode) : library :=
  with_states (dset (cartridge_states s) b CartridgeState.IN_SLOT)
    (with_slots (set_barcode_in (slots s) k (Some b))
      (with_drives (dset (drives s) dk
        (MockDrive (drive_id dr) None DriveState.EMPTY MountState.UNMOUNTED)) s)).

Definition after_move (s : library) (k k' : Z) (b : barcode) : library :=
  with_slots (set_barcode_in (set_barcode_in (slots s) k' (Some b)) k None) s.

Definition after_import (s : library) (k k' : Z) (b : barcode) : library :=
  with_states (dset (cartridge_states s) b CartridgeState.IN_SLOT)
    (with_ie_slots (set_barcode_in (ie_slots s) k None)
      (with_slots (set_barcode_in (slots s) k' (Some b)) s)).

Definition after_export (s : library) (k k' : Z) (b : barcode) : library :=
  with_states (dset (cartridge_states s) b CartridgeState.IN_SLOT)
    (with_slots (set_barcode_in (slots s) k None)
      (with_ie_slots (set_barcode_in (ie_slots s) k' (Some b)) s)).

Section moves.
Context (s : library) (b : barcode).
Hypothesis Hinv : lib_inv s.

Lemma after_load_inv k dk sl dr :
  dget (slots s) k = Some sl → slot_barcode sl = Some b →
  dget (drives s) dk = Some dr → drive_barcode dr = None →
  lib_inv (after_load s k dk dr b) ∧ located (after_load s k dk dr b) ≡ₚ located s.
Proof.
  intros Hk Hb Hdk Hdb. destruct (lib_inv_parts _ Hinv) as (?&?&?).
  apply (inv_slot_to_drive s _ b Hinv); [| done | |].
  - split_and!; [by apply slots_ok_set | done | by apply drives_ok_set; [..|split]].
  - unfold in_slots at 1. by rewrite (slot_take _ _ _ _ Hk Hb).
  - destruct (drive_set (drives s) dk dr
      (MockDrive (drive_id dr) (Some b) DriveState.LOADED MountState.UNMOUNTED) Hdk)
      as (rest & HD & HD'). unfold in_drives; simpl. by rewrite HD', HD, Hdb.
Qed.

Lemma after_unload_inv k dk sl dr :
  dget (slots s) k = Some sl → slot_barcode sl = None →
  dget (drives s) dk = Some dr → drive_barcode dr = Some b →
  lib_inv (after_unload s dk k dr b) ∧ located (after_unload s dk k dr b) ≡ₚ located s.
Proof.
  intros Hk Hb Hdk Hdb. destruct (lib_inv_parts _ Hinv) as (?&?&?).
  apply (inv_drive_to_slot s _ b Hinv); [| done | |].
  - split_and!; [by apply slots_ok_set | done | apply drives_ok_set; [done..|]].
    split; [by left | done].
  - unfold in_slots; simpl. by rewrite (slot_put _ _ _ b Hk Hb).
  - destruct (drive_set (drives s) dk dr
      (MockDrive (drive_id dr) None DriveState.EMPTY MountState.UNMOUNTED) Hdk)
      as (rest & HD & HD'). unfold in_drives; simpl. by rewrite HD', HD, Hdb.
Qed.

Lemma after_move_inv k k' sl sl' :
  dget (slots s) k = Some sl → slot_barcode sl = Some b →
  dget (slots s) k' = Some sl' → slot_barcode sl' = None →
  lib_inv (after_move s k k' b) ∧ located (after_move s k k' b) ≡ₚ located s.
Proof.
  intros Hk Hb Hk' Hb'. destruct (lib_inv_parts _ Hinv) as (?&?&?).
  assert (k' ≠ k) as Hne by naive_solver.
  apply (inv_same_states s _ Hinv); [| done | | done].
  - split_and!; [by repeat apply slots_ok_set | done..].
  - unfold in_slots; simpl. f_equiv. apply (Permutation_cons_inv (a := b)).
    rewrite <-(slot_take _ k sl b), (slot_put _ _ _ b Hk' Hb'); [done| |done].
    by rewrite dget_set_barcode, decide_False by done.
Qed.

Lemma after_import_inv k k' sl sl' :
  dget (ie_slots s) k = Some sl → slot_barcode sl = Some b →
  dget (slots s) k' = Some sl' → slot_barcode sl' = None →
  lib_inv (after_import s k k' b) ∧ located (after_import s k k' b) ≡ₚ located s.
Proof.
  intros Hk Hb Hk' Hb'. destruct (lib_inv_parts _ Hinv) as (?&?&?).
  apply (inv_slot_to_slot s _ b Hinv); [| done | | | done].
  - split_and!; [by apply slots_ok_set..| done].
  - unfold in_slots; simpl.
    rewrite (slot_put _ _ _ b Hk' Hb'), (slot_take (ie_slots s) _ _ _ Hk Hb).
    apply Permutation_middle.
  - apply elem_of_app. right. by eapply slot_bcs_elem.
Qed.

Lemma after_export_inv k k' sl sl' :
  dget (slots s) k = Some sl → slot_barcode sl = Some b →
  dget (ie_slots s) k' = Some sl' → slot_barcode sl' = None →
  lib_inv (after_export s k k' b) ∧ located (after_export s k k' b) ≡ₚ located s.
Proof.
  intros Hk Hb Hk' Hb'. destruct (lib_inv_parts _ Hinv) as (?&?&?).
  apply (inv_slot_to_slot s _ b Hinv); [| done | | | done].
  - split_and!; [by apply slots_ok_set..| done].
  - unfold in_slots; simpl.
    rewrite (slot_put _ _ _ b Hk' Hb'), (slot_take (slots s) _ _ _ Hk Hb).
    symmetry. apply Permutation_middle.
  - apply elem_of_app. left. by eapply slot_bcs_elem.
Qed.
End moves.

(** * Abstract specification: a vault of elements

    An element of the library either does not exist, is empty, or holds one
    cartridge.  The robot's contract is stated on this view alone. *)
#[export] Instance location_eq_dec : EqDecision location.
Proof. solve_decision. Defined.

Definition element (s : library) (l : location) : option (option barcode) :=
  match l with
  | AtSlot k => slot_barcode <$> dget (slots s) k
  | AtIe k => slot_barcode <$> dget (ie_slots s) k
  | AtDrive k => drive_barcode <$> dget (drives s) k
  end.

Definition state_at (l : location) : cartridge_state :=
  match l with AtDrive _ => CartridgeState.IN_DRIVE | _ => CartridgeState.IN_SLOT end.

(** Nothing about the media changed: at most the changer and the injector did. *)
Definition same_media (s s' : library) : Prop :=
  slots s' = slots s ∧ ie_slots s' = ie_slots s ∧ drives s' = drives s ∧
  cartridge_states s' = cartridge_states s.

(** One cartridge went from [src], which is now empty, to [dst], which was;
    every other element, and every mounted drive, is as before. *)
Record transferred (src dst : location) (s s' : library) : Prop := {
  tr_moved : ∃ b, element s src = Some (Some b) ∧ element s dst = Some None ∧
    (∀ l, element s' l = if decide (l = dst) then Some (Some b)
                         else if decide (l = src) then Some None else element s l) ∧
    (state_at src ≠ state_at dst → dget (cartridge_states s') b = Some (state_at dst)) ∧
    (∀ b', b' ≠ b → dget (cartridge_states s') b' = dget (cartridge_states s) b');
  tr_mounted : ∀ k dr, dget (drives s) k = Some dr →
    drive_mount_state dr ≠ MountState.UNMOUNTED → dget (drives s') k = Some dr;
  tr_inv : lib_inv s';
  tr_located : located s' ≡ₚ located s;
}.

(** What a changer operation may do: complete the transfer, report an injected
    failure, or raise, in both cases with the media untouched; the internal
    consistency check ([ValueError]) never fires. *)
Definition changer_outcome (src dst : location) (s : library)
    (rs : result operation_result * library) : Prop :=
  match rs.1 with
  | Ok r => if op_success r then transferred src dst s rs.2 else same_media s rs.2
  | Raise e => e ≠ ValueError ∧ same_media s rs.2
  end.

Lemma same_media_refl s : same_media s s.
Proof. done. Qed.
#[local] Hint Resolve same_media_refl : openblade.

Lemma same_media_inv s s' : same_media s s' → lib_inv s → lib_inv s'.
Proof.
  intros (H1 & H2 & H3 & H4) [Hs Hi Hd Hst Hnd Hag Hval]. split;
    unfold located, in_slots, in_drives in *; by rewrite ?H1, ?H2, ?H3, ?H4.
Qed.

Lemma same_media_located s s' : same_media s s' → located s' = located s.
Proof. intros (H1 & H2 & H3 & _). unfold located, in_slots, in_drives. by rewrite H1, H2, H3. Qed.

Lemma same_media_element s s' l : same_media s s' → element s' l = element s l.
Proof. intros (H1 & H2 & H3 & _). destruct l; simpl; by rewrite ?H1, ?H2, ?H3. Qed.

(** The outcome only depends on the media of the initial and final states. *)
Lemma changer_outcome_media src dst s0 s rs s1 :
  same_media s0 s → same_media rs.2 s1 →
  changer_outcome src dst s rs → changer_outcome src dst s0 (rs.1, s1).
Proof.
  intros H0 H1. unfold changer_outcome. destruct rs as [[r|e] s2]; simpl in *.
  - assert (same_media s s2 → same_media s0 s1) as Hsame.
    { unfold same_media in *. naive_solver congruence. }
    case_match; [|done]. intros [(b & Hsrc & Hdst & Hl & Hstd & Hst) Hm Hinv Hloc].
    destruct H0 as (E1 & E2 & E3 & E4), H1 as (F1 & F2 & F3 & F4). split.
    + exists b. rewrite <-(same_media_element s0 s), <-(same_media_element s0 s dst) by done.
      split_and!; [done..| | |].
      * intros l. rewrite (same_media_element s2 s1), (Hl l) by done.
        by rewrite (same_media_element s0 s l) by done.
      * by rewrite F4.
      * intros b' Hb'. rewrite F4, <-E4. auto.
    + intros k dr. rewrite F3, <-E3. apply Hm.
    + by apply (same_media_inv s2).
    + rewrite (same_media_located s2) by done. by rewrite Hloc, (same_media_located s0).
  - unfold same_media in *. naive_solver congruence.
Qed.

Lemma changer_section {A} (m : M library A) s :
  (_enter_changer;; try_finally m _leave_changer) s =
  if should_fail (lib_fault_config s) FaultType.ROBOT_LOCK_CONFLICT || changer_locked s
  then (Raise ChangerBusyError, s)
  else let '(r, s2) := m (with_changer true ChangerState.MOVING s) in
       (r, with_changer false ChangerState.IDLE s2).
Proof.
  unfold _enter_changer, try_finally, _leave_changer. msimp.
  destruct (should_fail _ _); simpl; [done|]. destruct (changer_locked s); simpl; [done|].
  by destruct (m _).
Qed.

(** A section guarded by the changer lock inherits the outcome of its body. *)
Lemma changer_section_outcome src dst (m : M library operation_result) s :
  changer_outcome src dst (with_changer true ChangerState.MOVING s)
    (m (with_changer true ChangerState.MOVING s)) →
  changer_outcome src dst s ((_enter_changer;; try_finally m _leave_changer) s).
Proof.
  intros Hm. rewrite changer_section. destruct (_ || _); [done|].
  destruct (m _) as [r s2] eqn:Hrs.
  by apply (changer_outcome_media _ _ s (with_changer true ChangerState.MOVING s) (r, s2)
    (with_changer false ChangerState.IDLE s2)).
Qed.

Lemma maybe_fail_outcome src dst fts (m : M library operation_result) s :
  changer_outcome src dst s (m s) → changer_outcome src dst s ((_maybe_fail fts;; m) s).
Proof. intros Hm. unfold _maybe_fail. msimp. destruct (existsb _ _); done. Qed.

Lemma injected_fault_outcome src dst ft target (m : M library operation_result) s :
  (∀ i, changer_outcome src dst (with_injector i s) (m (with_injector i s))) →
  changer_outcome src dst s ((_maybe_raise_injected_fault ft target;; m) s).
Proof.
  intros Hm. unfold _maybe_raise_injected_fault, maybe_raise_injected_fault. msimp.
  assert (∀ i, changer_outcome src dst s (m (with_injector i s))) as Hm'.
  { intros i. destruct (m (with_injector i s)) as [r s2] eqn:Hrs.
    apply (changer_outcome_media _ _ s (with_injector i s) (r, s2) s2); [done..|].
    by rewrite <-Hrs. }
  destruct (lib_injector s) as [fi|]; [|apply Hm'].
  destruct (should_fault _ _ _) as [[[]|e] fi'] eqn:Hf; [done | apply Hm' |].
  destruct (should_fault_total ft target fi) as [b Hb]. rewrite Hf in Hb. done.
Qed.

(** ** The bodies meet the contract *)
Lemma element_set_barcode d k o k' :
  is_Some (dget d k) →
  slot_barcode <$> dget (set_barcode_in d k o) k' =
  if decide (k' = k) then Some o else slot_barcode <$> dget d k'.
Proof.
  intros [sl Hk]. rewrite dget_set_barcode. repeat case_decide; subst; try done.
  by rewrite Hk.
Qed.

Lemma cartridge_validate_cases x y :
  validate_cartridge_transition x y = Ok tt ∨
  validate_cartridge_transition x y = Raise InvalidStateTransitionError.
Proof. apply validate_transition_cases. Qed.
Lemma drive_validate_cases x y :
  validate_drive_transition x y = Ok tt ∨
  validate_drive_transition x y = Raise InvalidStateTransitionError.
Proof. apply validate_transition_cases. Qed.
Lemma mount_validate_cases x y :
  validate_mount_transition x y = Ok tt ∨
  validate_mount_transition x y = Raise InvalidStateTransitionError.
Proof. apply validate_transition_cases. Qed.

Ltac unfold_body :=
  unfold index_slot, index_drive, set_slot_barcode, set_ie_barcode, set_drive,
    set_cartridge_state; monad_unfold.

(** The check at the end of a body passes in the state [st] it is run in. *)
Ltac check_passes st :=
  match goal with |- context [_validate_invariants_locked ?x] => change x with st end;
  rewrite (validate_inv st).

Lemma load_body_cases k dk s :
  (∃ e, load_body k dk s = (Raise e, s) ∧ e ≠ ValueError) ∨
  (∃ sl dr b, dget (slots s) k = Some sl ∧ slot_barcode sl = Some b ∧
     dget (drives s) dk = Some dr ∧ drive_barcode dr = None ∧
     validate_drive_transition (drive_drive_state dr) DriveState.LOADED = Ok tt ∧
     (lib_inv s → load_body k dk s =
        (Ok (OperationResult true "loaded" [("barcode", JStr b); ("drive", JInt dk)]),
         after_load s k dk dr b))).
Proof.
  unfold load_body. unfold_body.
  destruct (dget (slots s) k) as [sl|] eqn:Hk; [|left; eexists; by split].
  destruct (dget (drives s) dk) as [dr|] eqn:Hdk; [|left; eexists; by split].
  destruct (slot_barcode sl) as [b|] eqn:Hb; [|left; eexists; by split].
  destruct (drive_barcode dr) as [b'|] eqn:Hdb; simpl; [left; eexists; by split|].
  destruct (cartridge_validate_cases (dget_or (cartridge_states s) b CartridgeState.IN_SLOT)
    CartridgeState.IN_DRIVE) as [->| ->]; [|left; eexists; by split].
  destruct (drive_validate_cases (drive_drive_state dr) DriveState.LOADED) as [Hv|Hv];
    rewrite Hv; [|left; eexists; by split].
  right. exists sl, dr, b. split_and!; [done..|]. intros Hinv.
  destruct (after_load_inv s b Hinv k dk sl dr) as [Hinv' _]; [done..|].
  rewrite Hdk. by check_passes (after_load s k dk dr b).
Qed.

(** A raise from a body, media untouched. *)
Ltac body_raises := left; eexists; by split.

Lemma unload_body_cases dk k s :
  (∃ e, unload_body dk k s = (Raise e, s) ∧ e ≠ ValueError) ∨
  (∃ sl dr b, dget (slots s) k = Some sl ∧ slot_barcode sl = None ∧
     dget (drives s) dk = Some dr ∧ drive_barcode dr = Some b ∧
     can_unload_drive (drive_drive_state dr) (drive_mount_state dr) = true ∧
     (lib_inv s → unload_body dk k s =
        (Ok (OperationResult true "unloaded" [("barcode", JStr b); ("slot", JInt k)]),
         after_unload s dk k dr b))).
Proof.
  unfold unload_body. unfold_body.
  destruct (dget (drives s) dk) as [dr|] eqn:Hdk; [|body_raises].
  destruct (dget (slots s) k) as [sl|] eqn:Hk; [|body_raises].
  destruct (drive_barcode dr) as [b|] eqn:Hdb; [|body_raises].
  destruct (slot_barcode sl) as [b'|] eqn:Hb; simpl; [body_raises|].
  destruct (can_unload_drive _ _) eqn:Hcan; simpl; [|body_raises].
  destruct (cartridge_validate_cases (dget_or (cartridge_states s) b CartridgeState.IN_DRIVE)
    CartridgeState.IN_SLOT) as [->| ->]; [|body_raises].
  destruct (drive_validate_cases (drive_drive_state dr) DriveState.EMPTY) as [-> | ->];
    [|body_raises].
  right. exists sl, dr, b. split_and!; [done..|]. intros Hinv.
  destruct (after_unload_inv s b Hinv k dk sl dr) as [Hinv' _]; [done..|].
  rewrite Hdk. by check_passes (after_unload s dk k dr b).
Qed.

Lemma move_body_cases k k' s :
  (∃ e, move_body k k' s = (Raise e, s) ∧ e ≠ ValueError) ∨
  (∃ sl sl' b, dget (slots s) k = Some sl ∧ slot_barcode sl = Some b ∧
     dget (slots s) k' = Some sl' ∧ slot_barcode sl' = None ∧
     (lib_inv s → move_body k k' s =
        (Ok (OperationResult true "moved"
               [("source", JInt k); ("target", JInt k'); ("barcode", JStr b)]),
         after_move s k k' b))).
Proof.
  unfold move_body. unfold_body.
  destruct (dget (slots s) k) as [sl|] eqn:Hk; [|body_raises].
  destruct (dget (slots s) k') as [sl'|] eqn:Hk'; [|body_raises].
  destruct (slot_barcode sl) as [b|] eqn:Hb; [|body_raises].
  destruct (slot_barcode sl') as [b'|] eqn:Hb'; simpl; [body_raises|].
  destruct (cartridge_validate_cases (dget_or (cartridge_states s) b CartridgeState.IN_SLOT)
    CartridgeState.IN_SLOT) as [->| ->]; [|body_raises].
  right. exists sl, sl', b. split_and!; [done..|]. intros Hinv.
  destruct (after_move_inv s b Hinv k k' sl sl') as [Hinv' _]; [done..|].
  by check_passes (after_move s k k' b).
Qed.

Lemma import_body_cases k k' s :
  (∃ e, import_body k k' s = (Raise e, s) ∧ e ≠ ValueError) ∨
  (∃ sl sl' b, dget (ie_slots s) k = Some sl ∧ slot_barcode sl = Some b ∧
     dget (slots s) k' = Some sl' ∧ slot_barcode sl' = None ∧
     (lib_inv s → import_body k k' s =
        (Ok (OperationResult true "imported"
               [("barcode", JStr b); ("source_ie_slot", JInt k); ("target_slot", JInt k')]),
         after_import s k k' b))).
Proof.
  unfold import_body. unfold_body.
  destruct (dget (ie_slots s) k) as [sl|] eqn:Hk; [|body_raises].
  destruct (slot_barcode sl) as [b|] eqn:Hb; [|body_raises].
  destruct (dget (slots s) k') as [sl'|] eqn:Hk'; [|body_raises].
  destruct (slot_barcode sl') as [b'|] eqn:Hb'; simpl; [body_raises|].
  right. exists sl, sl', b. split_and!; [done..|]. intros Hinv.
  destruct (after_import_inv s b Hinv k k' sl sl') as [Hinv' _]; [done..|].
  by check_passes (after_import s k k' b).
Qed.

Lemma export_body_cases k k' s :
  (∃ e, export_to_ie_body k k' s = (Raise e, s) ∧ e ≠ ValueError) ∨
  (∃ sl sl' b, dget (slots s) k = Some sl ∧ slot_barcode sl = Some b ∧
     dget (ie_slots s) k' = Some sl' ∧ slot_barcode sl' = None ∧
     (lib_inv s → export_to_ie_body k k' s =
        (Ok (OperationResult true "exported"
               [("barcode", JStr b); ("source_slot", JInt k); ("ie_slot", JInt k')]),
         after_export s k k' b))).
Proof.
  unfold export_to_ie_body. unfold_body.
  destruct (dget (slots s) k) as [sl|] eqn:Hk; [|body_raises].
  destruct (slot_barcode sl) as [b|] eqn:Hb; [|body_raises].
  destruct (dget (ie_slots s) k') as [sl'|] eqn:Hk'; [|body_raises].
  destruct (slot_barcode sl') as [b'|] eqn:Hb'; simpl; [body_raises|].
  right. exists sl, sl', b. split_and!; [done..|]. intros Hinv.
  destruct (after_export_inv s b Hinv k k' sl sl') as [Hinv' _]; [done..|].
  by check_passes (after_export s k k' b).
Qed.

(** Positions after each kind of move. *)
Ltac element_cases :=
  intros []; simpl; rewrite ?element_set_barcode by eauto; rewrite ?dget_dset;
  repeat case_decide; simplify_eq/=; try done.

Lemma element_after_load s k dk sl dr b :
  dget (slots s) k = Some sl → dget (drives s) dk = Some dr →
  ∀ l, element (after_load s k dk dr b) l =
       if decide (l = AtDrive dk) then Some (Some b)
       else if decide (l = AtSlot k) then Some None else element s l.
Proof. intros Hk Hdk. unfold after_load. element_cases. Qed.

Lemma element_after_unload s k dk sl dr b :
  dget (slots s) k = Some sl → dget (drives s) dk = Some dr →
  ∀ l, element (after_unload s dk k dr b) l =
       if decide (l = AtSlot k) then Some (Some b)
       else if decide (l = AtDrive dk) then Some None else element s l.
Proof. intros Hk Hdk. unfold after_unload. element_cases. Qed.

Lemma element_after_move s k k' sl sl' b :
  dget (slots s) k = Some sl → dget (slots s) k' = Some sl' → k ≠ k' →
  ∀ l, element (after_move s k k' b) l =
       if decide (l = AtSlot k') then Some (Some b)
       else if decide (l = AtSlot k) then Some None else element s l.
Proof.
  intros Hk Hk' Hne. unfold after_move. intros []; simpl; [|done..].
  rewrite element_set_barcode by (rewrite dget_set_barcode; case_decide; subst; [by rewrite Hk'|eauto]).
  rewrite element_set_barcode by eauto. repeat case_decide; simplify_eq/=; done.
Qed.

Lemma element_after_import s k k' sl sl' b :
  dget (ie_slots s) k = Some sl → dget (slots s) k' = Some sl' →
  ∀ l, element (after_import s k k' b) l =
       if decide (l = AtSlot k') then Some (Some b)
       else if decide (l = AtIe k) then Some None else element s l.
Proof. intros Hk Hk'. unfold after_import. element_cases. Qed.

Lemma element_after_export s k k' sl sl' b :
  dget (slots s) k = Some sl → dget (ie_slots s) k' = Some sl' →
  ∀ l, element (after_export s k k' b) l =
       if decide (l = AtIe k') then Some (Some b)
       else if decide (l = AtSlot k) then Some None else element s l.
Proof. intros Hk Hk'. unfold after_export. element_cases. Qed.

Lemma element_slot s k sl o :
  dget (slots s) k = Some sl → slot_barcode sl = o → element s (AtSlot k) = Some o.
Proof. simpl. by intros -> <-. Qed.
Lemma element_ie s k sl o :
  dget (ie_slots s) k = Some sl → slot_barcode sl = o → element s (AtIe k) = Some o.
Proof. simpl. by intros -> <-. Qed.
Lemma element_drive s k dr o :
  dget (drives s) k = Some dr → drive_barcode dr = o → element s (AtDrive k) = Some o.
Proof. simpl. by intros -> <-. Qed.

(** ** Each operation meets the contract *)
Lemma load_outcome k dk s :
  lib_inv s → changer_outcome (AtSlot k) (AtDrive dk) s (load k dk s).
Proof.
  intros Hinv. unfold load. unfold gets at 1. unfold mbind at 1, M_bind at 1.
  apply injected_fault_outcome. intros i. apply changer_section_outcome, maybe_fail_outcome.
  set (s1 := with_changer _ _ _). assert (lib_inv s1) as Hinv1.
  { by apply (same_media_inv s). }
  destruct (load_body_cases k dk s1) as [(e & -> & He)|(sl & dr & b & Hk & Hb & Hdk & Hdb & _ & Heq)];
    [by split|].
  rewrite Heq by done. unfold changer_outcome; simpl.
  destruct (after_load_inv s1 b Hinv1 k dk sl dr) as [Hi Hl]; [done..|].
  split; [|..|done|done].
  - exists b. split_and!; [by eapply element_slot | by eapply element_drive | by apply (element_after_load s1 k dk sl) | |].
    + intros _. apply dget_dset_eq.
    + intros b' Hb'. by apply dget_dset_ne.
  - intros k' dr' Hk' Hm. simpl. rewrite dget_dset. case_decide; [|done]. subst.
    replace dr' with dr in Hm by congruence.
    destruct (Forall_dget _ _ _ _ (proj2 (inv_drives _ Hinv1)) Hdk) as [_ Hok].
    unfold drive_ok in Hok; simpl in Hok. rewrite Hdb in Hok. naive_solver.
Qed.

Lemma unload_outcome dk k s :
  lib_inv s → changer_outcome (AtDrive dk) (AtSlot k) s (unload dk k s).
Proof.
  intros Hinv. unfold unload. unfold gets at 1. unfold mbind at 1, M_bind at 1.
  apply injected_fault_outcome. intros i. apply changer_section_outcome, maybe_fail_outcome.
  set (s1 := with_changer _ _ _). assert (lib_inv s1) as Hinv1.
  { by apply (same_media_inv s). }
  destruct (unload_body_cases dk k s1)
    as [(e & -> & He)|(sl & dr & b & Hk & Hb & Hdk & Hdb & Hcan & Heq)]; [by split|].
  rewrite Heq by done. unfold changer_outcome; simpl.
  destruct (after_unload_inv s1 b Hinv1 k dk sl dr) as [Hi Hl]; [done..|].
  split; [|..|done|done].
  - exists b. split_and!; [by eapply element_drive | by eapply element_slot | by apply (element_after_unload s1 k dk sl) | |].
    + intros _. apply dget_dset_eq.
    + intros b' Hb'. by apply dget_dset_ne.
  - intros k' dr' Hk' Hm. simpl. rewrite dget_dset. case_decide; [|done]. subst.
    replace dr' with dr in Hm by congruence.
    unfold can_unload_drive in Hcan. apply andb_true_iff in Hcan as [Hcan _].
    by apply bool_decide_eq_true in Hcan.
Qed.

Lemma move_outcome k k' s :
  lib_inv s → changer_outcome (AtSlot k) (AtSlot k') s (move k k' s).
Proof.
  intros Hinv. unfold move. apply changer_section_outcome.
  set (s1 := with_changer _ _ _). assert (lib_inv s1) as Hinv1.
  { by apply (same_media_inv s). }
  unfold gets at 1. unfold mbind at 1, M_bind at 1.
  destruct (should_fail _ _); [done|]. apply maybe_fail_outcome.
  destruct (move_body_cases k k' s1)
    as [(e & -> & He)|(sl & sl' & b & Hk & Hb & Hk' & Hb' & Heq)]; [by split|].
  rewrite Heq by done. unfold changer_outcome; simpl.
  destruct (after_move_inv s1 b Hinv1 k k' sl sl') as [Hi Hl]; [done..|].
  split; [|done..]. exists b.
  split_and!; [by eapply element_slot | by eapply element_slot | apply (element_after_move s1 k k' sl sl'); [done..|] | done | done].
  intros ->. congruence.
Qed.

Lemma import_outcome k k' s :
  lib_inv s → changer_outcome (AtIe k) (AtSlot k') s (import_cartridge k k' s).
Proof.
  intros Hinv. unfold import_cartridge. apply changer_section_outcome, maybe_fail_outcome.
  set (s1 := with_changer _ _ _). assert (lib_inv s1) as Hinv1.
  { by apply (same_media_inv s). }
  destruct (import_body_cases k k' s1)
    as [(e & -> & He)|(sl & sl' & b & Hk & Hb & Hk' & Hb' & Heq)]; [by split|].
  rewrite Heq by done. unfold changer_outcome; simpl.
  destruct (after_import_inv s1 b Hinv1 k k' sl sl') as [Hi Hl]; [done..|].
  split; [|done..]. exists b.
  split_and!; [by eapply element_ie | by eapply element_slot | by apply (element_after_import s1 k k' sl sl') | done |].
  intros b' Hne. by apply dget_dset_ne.
Qed.

Lemma export_outcome k k' s :
  lib_inv s → changer_outcome (AtSlot k) (AtIe k') s (export_cartridge_to_ie k k' s).
Proof.
  intros Hinv. unfold export_cartridge_to_ie. apply changer_section_outcome, maybe_fail_outcome.
  set (s1 := with_changer _ _ _). assert (lib_inv s1) as Hinv1.
  { by apply (same_media_inv s). }
  destruct (export_body_cases k k' s1)
    as [(e & -> & He)|(sl & sl' & b & Hk & Hb & Hk' & Hb' & Heq)]; [by split|].
  rewrite Heq by done. unfold changer_outcome; simpl.
  destruct (after_export_inv s1 b Hinv1 k k' sl sl') as [Hi Hl]; [done..|].
  split; [|done..]. exists b.
  split_and!; [by eapply element_slot | by eapply element_ie | by apply (element_after_export s1 k k' sl sl') | done |].
  intros b' Hne. by apply dget_dset_ne.
Qed.

(** * The other operations preserve the invariant *)
Lemma count_located s b : _location_count_locked b s = Z.of_nat (count b (located s)).
Proof.
  assert (∀ {V} (f : V → option barcode) (l : list V),
    length (filter (λ v, bool_decide (f v = Some b) = true) l) = count b (omap f l)) as Hgen.
  { intros V f l. induction l as [|v l IH]; [done|]. rewrite filter_cons.
    csimpl. destruct (f v) as [x|]; rewrite ?count_cons; repeat case_decide; simpl;
      rewrite ?IH, ?bool_decide_eq_true in *; naive_solver. }
  unfold _location_count_locked. rewrite (Hgen _ slot_barcode), (Hgen _ drive_barcode).
  unfold located, in_slots, in_drives, slot_bcs, drive_bcs, count.
  rewrite omap_app, !filter_app, !length_app. lia.
Qed.

Lemma find_dget {V} `{P : Z * V → Prop, ∀ x, Decision (P x)} (d : dict Z V) i k v :
  dict_wf d → list_find P d = Some (i, (k, v)) → dget d k = Some v ∧ P (k, v).
Proof.
  intros Hwf (Hi & HP & _)%list_find_Some. split; [|done].
  apply elem_dget; [done|]. by eapply list_elem_of_lookup_2.
Qed.

Definition after_add (s : library) (k : Z) (b : barcode) : library :=
  with_states (dset (cartridge_states s) b CartridgeState.IN_SLOT)
    (with_slots (set_barcode_in (slots s) k (Some b)) s).

Lemma after_add_inv s k sl b :
  lib_inv s → dget (slots s) k = Some sl → slot_barcode sl = None → b ∉ located s →
  Barcode b = Ok b → lib_inv (after_add s k b).
Proof.
  intros Hinv Hk Hb Hnew Hval. destruct (lib_inv_parts _ Hinv) as (?&?&?).
  destruct Hinv as [_ _ _ Hst Hnd Hag Hvals].
  assert (in_slots (after_add s k b) ≡ₚ b :: in_slots s) as HL.
  { unfold in_slots; simpl. by rewrite (slot_put _ _ _ b Hk Hb). }
  apply (lib_inv_build _ (b :: in_slots s) (in_drives s)); [by apply slots_ok_set | done..
    | by apply dict_wf_dset | done | done | by constructor | | by constructor].
  eapply agree_update; [| by left | exact Hag].
  intros x Hx. rewrite elem_of_cons. naive_solver.
Qed.

Lemma add_cartridge_inv k bc s : lib_inv s → lib_inv (add_cartridge k bc s).2.
Proof.
  intros Hinv. unfold add_cartridge. unfold_body.
  destruct (dget (slots s) k) as [sl|] eqn:Hk; [|done].
  destruct (slot_barcode sl) eqn:Hb; simpl; [done|].
  destruct (Barcode bc) as [b|e] eqn:Hbc; [|done]. apply Barcode_idemp in Hbc.
  case_bool_decide as Hcount; [done|].
  assert (b ∉ located s) as Hnew by (apply count_0; rewrite count_located in Hcount; lia).
  assert (lib_inv (after_add s k b)) as Hinv' by by eapply after_add_inv.
  destruct (dget (cartridge_states s) b) as [st|]; simpl.
  - destruct (cartridge_validate_cases st CartridgeState.IN_SLOT) as [->| ->]; [|done].
    by check_passes (after_add s k b).
  - by check_passes (after_add s k b).
Qed.

Definition after_remove (s : library) (k : Z) (b : barcode) : library :=
  with_states (ddel (cartridge_states s) b)
    (with_slots (set_barcode_in (slots s) k None) s).

Lemma after_remove_inv s k sl b :
  lib_inv s → dget (slots s) k = Some sl → slot_barcode sl = Some b →
  lib_inv (after_remove s k b).
Proof.
  intros Hinv Hk Hb. destruct (lib_inv_parts _ Hinv) as (?&?&?).
  destruct Hinv as [_ _ _ Hst Hnd Hag Hval].
  assert (in_slots s ≡ₚ b :: in_slots (after_remove s k b)) as HL.
  { unfold in_slots at 1. by rewrite (slot_take _ _ _ _ Hk Hb). }
  unfold located in Hnd, Hval. rewrite HL in Hnd, Hval. simpl in Hnd, Hval.
  apply NoDup_cons in Hnd as [Hb' Hnd]. apply Forall_cons in Hval as [_ Hval].
  apply (lib_inv_build _ (in_slots (after_remove s k b)) (in_drives s));
    [by apply slots_ok_set | done.. | by apply dict_wf_ddel | done | done | done | | done].
  intros x. simpl. rewrite dget_ddel by done. case_decide; subst; [set_solver|].
  specialize (Hag x).
  destruct (dget (cartridge_states s) x) as [[]|]; rewrite ?HL in Hag; set_solver.
Qed.

Lemma remove_cartridge_inv k s : lib_inv s → lib_inv (remove_cartridge k s).2.
Proof.
  intros Hinv. unfold remove_cartridge. unfold_body.
  destruct (dget (slots s) k) as [sl|] eqn:Hk; [|done].
  destruct (slot_barcode sl) as [b|] eqn:Hb; [|done].
  assert (lib_inv (after_remove s k b)) as Hinv' by by eapply after_remove_inv.
  by check_passes (after_remove s k b).
Qed.

Lemma set_drive_inv s k dr o ds ms :
  lib_inv s → dget (drives s) k = Some dr → o = drive_barcode dr →
  drive_ok (MockDrive k o ds ms) →
  lib_inv (with_drives (dset (drives s) k (MockDrive (drive_id dr) o ds ms)) s).
Proof.
  intros Hinv Hk -> Hok. destruct (lib_inv_parts _ Hinv) as (?&?&?).
  apply (inv_same_states s _ Hinv); [|done..|].
  - split_and!; [done..|]. by apply drives_ok_set.
  - unfold in_drives; simpl.
    destruct (drive_set (drives s) k dr (MockDrive (drive_id dr) (drive_barcode dr) ds ms) Hk)
      as (rest & -> & ->). done.
Qed.

Lemma mounted_drive_ok dr k ms ds :
  drive_ok dr → validate_drive_transition (drive_drive_state dr) ds = Ok tt →
  ds = (if bool_decide (ms ∈ [MountState.MOUNTED_RO; MountState.MOUNTED_RW; MountState.DIRTY])
        then DriveState.BUSY
        else if is_some (drive_barcode dr) then DriveState.LOADED else DriveState.EMPTY) →
  drive_ok (MockDrive k (drive_barcode dr) ds ms).
Proof.
  unfold drive_ok; simpl. destruct dr as [? [b|] st st']; simpl; destruct ms, st;
    simpl; intros ?? ->; set_solver.
Qed.

Lemma set_drive_mount_state_inv k ms s : lib_inv s → lib_inv (set_drive_mount_state k ms s).2.
Proof.
  intros Hinv. unfold set_drive_mount_state. unfold_body.
  destruct (dget (drives s) k) as [dr|] eqn:Hk; [|done].
  destruct (mount_validate_cases (drive_mount_state dr) ms) as [->| ->]; [|done].
  set (ds := if bool_decide _ then _ else _).
  destruct (drive_validate_cases (drive_drive_state dr) ds) as [Hv|Hv]; rewrite Hv; [|done].
  simpl. rewrite Hk. set (s' := with_drives _ s).
  assert (lib_inv s') as Hinv'; [|by rewrite (validate_inv s')].
  apply (set_drive_inv s k dr); [done..|]. eapply mounted_drive_ok; [|exact Hv|done].
  by destruct (Forall_dget _ _ _ _ (proj2 (inv_drives _ Hinv)) Hk).
Qed.

(** Taking a cartridge out: [L] and [D] lose [b] between them. *)
Lemma exported_inv s s' b :
  lib_inv s → parts_ok s' →
  cartridge_states s' = dset (cartridge_states s) b CartridgeState.EXPORTED →
  located s ≡ₚ b :: located s' →
  (∀ x, x ≠ b → (x ∈ in_slots s ↔ x ∈ in_slots s') ∧ (x ∈ in_drives s ↔ x ∈ in_drives s')) →
  lib_inv s'.
Proof.
  intros [_ _ _ Hst Hnd Hag Hval] (?&?&?) Hst' Hloc Hx. rewrite Hloc in Hnd, Hval.
  apply NoDup_cons in Hnd as [Hb Hnd]. apply Forall_cons in Hval as [_ Hval].
  split; [assumption..| | | |done].
  - rewrite Hst'. by apply dict_wf_dset.
  - done.
  - rewrite Hst'. eapply agree_update; [done | | exact Hag].
    unfold located in Hb. rewrite elem_of_app in Hb. naive_solver.
Qed.

Lemma absent_inv s b :
  lib_inv s → b ∉ located s →
  lib_inv (with_states (dset (cartridge_states s) b CartridgeState.EXPORTED) s).
Proof.
  intros Hinv Hb. destruct (lib_inv_parts _ Hinv) as (?&?&?).
  destruct Hinv as [_ _ _ Hst Hnd Hag Hval]. split; [assumption..| | | |done].
  - by apply dict_wf_dset.
  - done.
  - eapply agree_update; [done | | exact Hag]. unfold located in Hb.
    rewrite elem_of_app in Hb. naive_solver.
Qed.

Lemma find_None_notin {V} (f : V → option barcode) (d : dict Z V) b :
  list_find (λ kv, f kv.2 = Some b) d = None → b ∉ omap f (dvalues d).
Proof.
  intros Hn Hin. apply list_find_None in Hn. apply list_elem_of_omap in Hin as (v & Hv & Hf).
  unfold dvalues in Hv. apply list_elem_of_fmap in Hv as (kv & -> & Hkv).
  rewrite Forall_forall in Hn. by apply (Hn kv).
Qed.

Lemma export_cartridge_inv b s : lib_inv s → lib_inv (export_cartridge b s).2.
Proof.
  intros Hinv. destruct (lib_inv_parts _ Hinv) as (Hs&Hi&Hd). unfold export_cartridge.
  destruct (list_find _ (slots s)) as [[i [k sl]]|] eqn:Hf1; simpl.
  { apply find_dget in Hf1 as [Hk Hb]; [|apply Hs]. simpl in Hb.
    pose proof (slot_take _ _ _ _ Hk Hb) as HS.
    apply (exported_inv s _ b Hinv); [by split_and!; [apply slots_ok_set|..] | done | |].
    - unfold located, in_slots; simpl. by rewrite HS.
    - unfold in_slots; simpl. intros x Hx. rewrite HS. set_solver. }
  destruct (list_find _ (ie_slots s)) as [[i [k sl]]|] eqn:Hf2; simpl.
  { apply find_dget in Hf2 as [Hk Hb]; [|apply Hi]. simpl in Hb.
    pose proof (slot_take _ _ _ _ Hk Hb) as HS.
    apply (exported_inv s _ b Hinv); [by split_and!; [|apply slots_ok_set|..] | done | |].
    - unfold located, in_slots; simpl. rewrite HS. by rewrite <-Permutation_middle.
    - unfold in_slots; simpl. intros x Hx. rewrite HS. set_solver. }
  destruct (list_find _ (drives s)) as [[i [k dr]]|] eqn:Hf3; simpl.
  { apply find_dget in Hf3 as [Hk Hb]; [|apply Hd]. simpl in Hb.
    destruct (drive_set (drives s) k dr (MockDrive (drive_id dr) None DriveState.EMPTY
      MountState.UNMOUNTED) Hk) as (rest & HD & HD'). rewrite Hb in HD. simpl in HD, HD'.
    apply (exported_inv s _ b Hinv); [split_and!; [done..|] | done | |].
    - apply drives_ok_set; [done..|]. split; [by left | done].
    - unfold located, in_drives; simpl. rewrite HD, HD'. by rewrite Permutation_middle.
    - unfold in_drives; simpl. intros x Hx. rewrite HD, HD'. set_solver. }
  destruct (dmem _ _); simpl; [|done]. apply absent_inv; [done|].
  apply find_None_notin in Hf1, Hf2, Hf3.
  unfold located, in_slots, in_drives, slot_bcs, drive_bcs. rewrite !elem_of_app. naive_solver.
Qed.

Lemma slots_ok_reset d : slots_ok d → slots_ok (dmap (λ sl, Slot (slot_id sl) None) d).
Proof.
  intros [Hwf Hid]. split; [by apply dict_wf_dmap|]. unfold dmap. apply Forall_fmap.
  eapply Forall_impl; [done|]. by intros [??].
Qed.

Lemma slot_bcs_reset d : slot_bcs (dmap (λ sl, Slot (slot_id sl) None) d) = [].
Proof. unfold slot_bcs, dvalues, dmap. induction d as [|[??] d IH]; [done|]. by csimpl. Qed.

Lemma reset_inv s : lib_inv s → lib_inv (reset s).2.
Proof.
  intros Hinv. destruct (lib_inv_parts _ Hinv) as (Hs&Hi&Hd).
  apply (lib_inv_build _ [] []); simpl; [by apply slots_ok_reset.. | | constructor | | |
    constructor | by intros b; split; intros ?%elem_of_nil | constructor].
  - destruct Hd as [Hwf Hid]. split; [by apply dict_wf_dmap|]. unfold dmap. apply Forall_fmap.
    eapply Forall_impl; [done|]. intros [??] [Hk _]. split; [done|]. split; [by left | done].
  - unfold in_slots; simpl. by rewrite !slot_bcs_reset.
  - unfold in_drives, drive_bcs, dvalues; simpl. clear Hd Hinv.
    generalize (drives s). intros d. unfold dmap. induction d as [|[??] d IH]; [done|]. by csimpl.
Qed.

Lemma forM_inv {A} (f : A → M library unit) (l : list A) s :
  (∀ a s, lib_inv s → lib_inv (f a s).2) → lib_inv s → lib_inv (forM l f s).2.
Proof.
  intros Hf. revert s. induction l as [|a l IH]; simpl; intros s Hs; [done|].
  unfold mbind, M_bind. pose proof (Hf a s Hs) as Ha. destruct (f a s) as [[]s']; auto.
Qed.

Lemma seed_slots_inv bcs s : lib_inv s → lib_inv (seed_slots bcs s).2.
Proof.
  intros Hinv. unfold seed_slots. unfold mbind, M_bind at 1.
  destruct (reset s) as [r s'] eqn:Hr. pose proof (reset_inv s Hinv) as Hr'.
  rewrite Hr in Hr'. simpl in Hr'. destruct r; [|done]. unfold gets, M_bind.
  apply forM_inv; [|done]. intros [??] ??. by apply add_cartridge_inv.
Qed.

(** ** A fresh library, and seeding the I/E station *)
Lemma fresh_keys {V} (f : Z → V) l : (((λ i, (i, f i)) <$> l) : list (Z * V)).*1 = l.
Proof. rewrite <-list_fmap_compose. apply list_fmap_id. Qed.

Lemma fresh_slots_ok lo hi : slots_ok ((λ i, (i, Slot i None)) <$> zrange lo hi).
Proof.
  split; [unfold dict_wf; rewrite fresh_keys; apply zrange_NoDup|].
  by apply Forall_fmap, Forall_true.
Qed.

Lemma fresh_inv id n d delay fc inj nie : lib_inv (MockLibraryBackend id n d delay fc inj nie).
Proof.
  assert (∀ l, slot_bcs ((λ i, (i, Slot i None)) <$> l) = []) as Hs.
  { intros l. unfold slot_bcs, dvalues. induction l as [|i l IH]; [done|]. by csimpl. }
  assert (∀ l, drive_bcs ((λ i, (i, MockDrive i None DriveState.EMPTY MountState.UNMOUNTED))
    <$> l) = []) as Hd.
  { intros l. unfold drive_bcs, dvalues. induction l as [|i l IH]; [done|]. by csimpl. }
  apply (lib_inv_build _ [] []); simpl; [apply fresh_slots_ok.. | | constructor | | |
    constructor | by intros b; split; intros ?%elem_of_nil | constructor].
  - split; [unfold dict_wf; rewrite fresh_keys; apply zrange_NoDup|].
    apply Forall_fmap, Forall_true. intros i. split; [done|]. split; [by left | done].
  - unfold in_slots; simpl. by rewrite !Hs.
  - unfold in_drives; simpl. by rewrite Hd.
Qed.

Lemma seed_built_ok (entries : dict Z (option string)) built :
  dict_wf entries →
  mapR (λ kv, b ← opt_barcode kv.2; Ok (kv.1, Slot kv.1 b)) entries = Ok built →
  slots_ok built ∧ Forall (λ b, Barcode b = Ok b) (slot_bcs built).
Proof.
  intros Hwf Hb%mapR_Ok. assert (built.*1 = entries.*1) as Hkeys.
  { clear Hwf. induction Hb as [|[k o] [k' sl] l l' Hkv _ IH]; csimpl; [done|].
    unfold mbind, result_bind in Hkv. simpl in Hkv.
    destruct (opt_barcode o); simplify_eq. by f_equal. }
  split; [split; [unfold dict_wf; by rewrite Hkeys|]|]; clear Hwf Hkeys.
  - induction Hb as [|[k o] [k' sl] l l' Hkv _ IH]; constructor; [|done].
    unfold mbind, result_bind in Hkv. simpl in *. destruct (opt_barcode o); by simplify_eq.
  - unfold slot_bcs, dvalues. induction Hb as [|[k o] [k' sl] l l' Hkv _ IH]; csimpl; [done|].
    unfold mbind, result_bind in Hkv. simpl in *. destruct (opt_barcode o) as [ob|] eqn:Ho; [|done].
    simplify_eq/=. destruct ob as [b|]; simpl; [|done]. constructor; [|done].
    unfold opt_barcode in Ho. destruct o as [bc|]; [|done].
    case_bool_decide; [done|]. unfold fmap, result_fmap in Ho.
    destruct (Barcode bc) eqn:Hbc; [|done]. simplify_eq. by eapply Barcode_idemp.
Qed.

Definition seed_states (built : dict Z slot) (st : dict barcode cartridge_state)
    : dict barcode cartridge_state :=
  foldl (λ st b, dsetdefault st b CartridgeState.IN_SLOT) st (slot_bcs built).

Lemma seed_states_run built s :
  forM built (λ ksl, match slot_barcode ksl.2 with
    | Some b => modify (λ s,
        with_states (dsetdefault (cartridge_states s) b CartridgeState.IN_SLOT) s)
    | None => mret tt
    end) s = (Ok tt, with_states (seed_states built (cartridge_states s)) s).
Proof.
  unfold seed_states. revert s. induction built as [|[k sl] built IH]; simpl; intros s.
  - by destruct s.
  - unfold mbind, M_bind, modify, mret, M_ret. unfold slot_bcs, dvalues. csimpl.
    destruct (slot_barcode sl) as [b|]; simpl; rewrite IH; by destruct s.
Qed.

Lemma seed_states_spec (bs : list barcode) (st : dict barcode cartridge_state) b :
  dict_wf st →
  dict_wf (foldl (λ st b, dsetdefault st b CartridgeState.IN_SLOT) st bs) ∧
  dget (foldl (λ st b, dsetdefault st b CartridgeState.IN_SLOT) st bs) b =
  match dget st b with
  | Some c => Some c
  | None => if decide (b ∈ bs) then Some CartridgeState.IN_SLOT else None
  end.
Proof.
  revert st. induction bs as [|x bs IH]; simpl; intros st Hst.
  - split; [done|]. by destruct (dget st b).
  - destruct (IH (dsetdefault st x CartridgeState.IN_SLOT)) as [Hwf ->]; [by apply dsetdefault_wf|].
    split; [done|]. unfold dsetdefault. destruct (dget st x) eqn:Hx.
    + destruct (dget st b) eqn:Hb; [done|].
      by repeat case_decide; set_solver.
    + rewrite dget_dset. destruct (decide (x = b)) as [->|];
        [by rewrite Hx, decide_True by set_solver|].
      destruct (dget st b); [done|]. by repeat case_decide; set_solver.
Qed.

Lemma seed_ie_inv entries s :
  lib_inv s → dict_wf entries → (seed_import_export_slots entries s).1 = Ok tt →
  lib_inv (seed_import_export_slots entries s).2.
Proof.
  intros Hinv Hwf. unfold seed_import_export_slots.
  destruct (mapR _ entries) as [built|] eqn:Hm; [|done].
  apply seed_built_ok in Hm as [Hok Hval]; [|done]. monad_unfold.
  rewrite seed_states_run. simpl.
  set (s' := with_states _ _). unfold _validate_invariants_locked.
  destruct (invariants_hold s') eqn:Hh; [|done]. intros _. simpl.
  destruct (lib_inv_parts _ Hinv) as (?&?&?).
  destruct Hinv as [_ _ _ Hst Hnd0 Hag Hvals].
  assert (∀ b, b ∈ in_slots s → b ∉ in_drives s) as Hdis.
  { apply NoDup_app in Hnd0. naive_solver. }
  pose proof (λ b, seed_states_spec (slot_bcs built) (cartridge_states s) b Hst) as Hget.
  apply invariants_hold_spec in Hh as [Hnd Hloc]; [|apply (Hget "")].
  split; [assumption..|apply (Hget "")|done| |].
  - intros b. specialize (Hget b) as [_ Hb]. specialize (Hag b). specialize (Hloc b).
    specialize (Hdis b). change (cartridge_states s') with (seed_states built (cartridge_states s)) in *.
    unfold seed_states in *. rewrite Hb in *.
    unfold in_slots, located, in_drives, in_slots in *; simpl in *.
    destruct (dget (cartridge_states s) b) as [[]|]; try case_decide; simpl in *;
      try specialize (Hloc _ eq_refl); simpl in Hloc; rewrite ?elem_of_app in *; try naive_solver.
  - unfold located, in_slots, in_drives in *; simpl. rewrite !Forall_app in *. naive_solver.
Qed.

(** ** Snapshots *)
Lemma Barcode_truthy b : Barcode b = Ok b → truthy (JStr b) = true.
Proof.
  intros Hb. apply bool_decide_eq_true. intros ->. by vm_compute in Hb.
Qed.

Lemma item_barcode_json (d : dict string json) o :
  jget d "barcode" = opt_json o → (∀ b, o = Some b → Barcode b = Ok b) →
  item_barcode d = Ok o.
Proof.
  intros Hj Hval. unfold item_barcode. rewrite Hj. destruct o as [b|]; [|done].
  simpl opt_json. rewrite (Barcode_truthy b) by auto. simpl. by rewrite (Hval b).
Qed.

Lemma slot_json_roundtrip k sl :
  slot_id sl = k → (∀ b, slot_barcode sl = Some b → Barcode b = Ok b) →
  slot_of_json (slot_to_json sl) = Ok (k, sl).
Proof.
  intros <- Hval. unfold slot_of_json, slot_to_json. simpl.
  rewrite (item_barcode_json _ (slot_barcode sl)) by done. simpl. by destruct sl.
Qed.

Lemma drive_json_roundtrip k dr :
  drive_id dr = k → (∀ b, drive_barcode dr = Some b → Barcode b = Ok b) →
  drive_of_json (drive_to_json dr) = Ok (k, dr).
Proof.
  intros <- Hval. unfold drive_of_json, drive_to_json. simpl.
  rewrite (item_barcode_json _ (drive_barcode dr)) by done. simpl.
  rewrite !enum_of_value_value. simpl. by destruct dr.
Qed.

Lemma slots_json_roundtrip d :
  slots_ok d → Forall (λ b, Barcode b = Ok b) (slot_bcs d) →
  mapR slot_of_json (slot_to_json <$> dvalues d) = Ok d.
Proof.
  intros [_ Hid] Hval. unfold dvalues. rewrite <-list_fmap_compose.
  apply (mapR_fmap_id (slot_to_json ∘ snd)). unfold slot_bcs, dvalues in Hval.
  induction d as [|[k sl] d IH]; [constructor|]. apply Forall_cons in Hid as [Hk Hid].
  csimpl in *. constructor; [|apply IH; [done|]; destruct (slot_barcode sl);
    [by apply Forall_cons in Hval as [_ ?] | done]].
  apply slot_json_roundtrip; [done|]. intros b Hb. simpl in *. rewrite Hb in Hval.
  by apply Forall_cons in Hval as [? _].
Qed.

Lemma drives_json_roundtrip d :
  drives_ok d → Forall (λ b, Barcode b = Ok b) (drive_bcs d) →
  mapR drive_of_json (drive_to_json <$> dvalues d) = Ok d.
Proof.
  intros [_ Hid] Hval. unfold dvalues. rewrite <-list_fmap_compose.
  apply (mapR_fmap_id (drive_to_json ∘ snd)). unfold drive_bcs, dvalues in Hval.
  induction d as [|[k dr] d IH]; [constructor|]. apply Forall_cons in Hid as [[Hk _] Hid].
  csimpl in *. constructor; [|apply IH; [done|]; destruct (drive_barcode dr);
    [by apply Forall_cons in Hval as [_ ?] | done]].
  apply drive_json_roundtrip; [done|]. intros b Hb. simpl in *. rewrite Hb in Hval.
  by apply Forall_cons in Hval as [? _].
Qed.

Lemma states_json_roundtrip (st : dict barcode cartridge_state) :
  mapR state_of_json ((λ kv, (kv.1, JStr (enum_value kv.2))) <$> st) = Ok st.
Proof.
  apply (mapR_fmap_id (λ kv, (kv.1, JStr (enum_value kv.2)))), Forall_true.
  intros [b c]. unfold state_of_json. simpl. by rewrite enum_of_value_value.
Qed.

Lemma default_states_id os c (st : dict barcode cartridge_state) :
  (∀ b, Some b ∈ os → is_Some (dget st b)) → default_states os c st = st.
Proof.
  unfold default_states. induction os as [|[b|] os IH]; simpl; intros H; [done| |].
  - destruct (H b) as [x Hx]; [by left|]. unfold dsetdefault. rewrite Hx.
    apply IH. intros b' Hb'. apply H. by right.
  - apply IH. intros b' Hb'. apply H. by right.
Qed.

Lemma agree_located st L D b : agree st L D → b ∈ L ∨ b ∈ D → is_Some (dget st b).
Proof. intros Hag Hb. specialize (Hag b). destruct (dget st b); naive_solver. Qed.

(** ** Operation sequences *)
Inductive lib_op :=
| DoAdd (k : Z) (bc : string) | DoRemove (k : Z)
| DoLoad (k dk : Z) | DoUnload (dk k : Z) | DoMove (k k' : Z)
| DoImport (k k' : Z) | DoExportToIe (k k' : Z)
| DoSetMount (dk : Z) (ms : mount_state) | DoExport (b : string)
| DoReset | DoSeed (bcs : list string) | DoSeedIe (entries : dict Z (option string)).

Definition run_lib_op (o : lib_op) : M library unit :=
  match o with
  | DoAdd k bc => add_cartridge k bc
  | DoRemove k => remove_cartridge k;; mret tt
  | DoLoad k dk => load k dk;; mret tt
  | DoUnload dk k => unload dk k;; mret tt
  | DoMove k k' => move k k';; mret tt
  | DoImport k k' => import_cartridge k k';; mret tt
  | DoExportToIe k k' => export_cartridge_to_ie k k';; mret tt
  | DoSetMount dk ms => set_drive_mount_state dk ms
  | DoExport b => export_cartridge b
  | DoReset => reset
  | DoSeed bcs => seed_slots bcs
  | DoSeedIe entries => seed_import_export_slots entries
  end.

(** States a client can reach from a new library.  Calls may raise: the state
    they leave counts, except that [seed_import_export_slots] must succeed. *)
Inductive reachable : library → Prop :=
| reach_new id n d delay fc inj nie : reachable (MockLibraryBackend id n d delay fc inj nie)
| reach_op s o : reachable s →
    (∀ entries, o = DoSeedIe entries → dict_wf entries ∧ (run_lib_op o s).1 = Ok tt) →
    reachable (run_lib_op o s).2.

Lemma outcome_inv src dst s rs : lib_inv s → changer_outcome src dst s rs → lib_inv rs.2.
Proof.
  intros Hinv. unfold changer_outcome. destruct rs as [[r|e] s']; simpl.
  - case_match; [by intros [_ _ ? _] | intros; by eapply same_media_inv].
  - intros [_ ?]. by eapply same_media_inv.
Qed.

Lemma discard_state {S A} (m : M S A) s : ((m;; mret tt) s).2 = (m s).2.
Proof. unfold mbind, M_bind. by destruct (m s) as [[]?]. Qed.

Lemma run_lib_op_inv o s :
  lib_inv s → (∀ entries, o = DoSeedIe entries → dict_wf entries ∧ (run_lib_op o s).1 = Ok tt) →
  lib_inv (run_lib_op o s).2.
Proof.
  intros Hinv Hie. destruct o; simpl; rewrite ?discard_state.
  - by apply add_cartridge_inv.
  - by apply remove_cartridge_inv.
  - by eapply outcome_inv; [|apply load_outcome].
  - by eapply outcome_inv; [|apply unload_outcome].
  - by eapply outcome_inv; [|apply move_outcome].
  - by eapply outcome_inv; [|apply import_outcome].
  - by eapply outcome_inv; [|apply export_outcome].
  - by apply set_drive_mount_state_inv.
  - by apply export_cartridge_inv.
  - by apply reset_inv.
  - by apply seed_slots_inv.
  - destruct (Hie entries eq_refl). by apply seed_ie_inv.
Qed.

Lemma reachable_inv s : reachable s → lib_inv s.
Proof. induction 1; [apply fresh_inv | by apply run_lib_op_inv]. Qed.

(** ** Consequences used by the properties *)
Lemma element_drive_in s k b :
  element s (AtDrive k) = Some (Some b) → b ∈ in_drives s.
Proof.
  simpl. destruct (dget (drives s) k) as [dr|] eqn:Hk; [|done]. intros [= Hb].
  by eapply drive_bcs_elem.
Qed.

(** With distinct values, two keys holding the same one are equal. *)
Lemma omap_key_inj {V} (f : V → option barcode) (d : dict Z V) k k' v v' b :
  NoDup (omap f (dvalues d)) → dget d k = Some v → dget d k' = Some v' →
  f v = Some b → f v' = Some b → k = k'.
Proof.
  unfold dvalues. induction d as [|[k0 v0] d IH]; csimpl; [done|].
  assert (∀ k v, dget d k = Some v → f v = Some b → b ∈ omap f d.*2) as Hin.
  { intros k1 v1 Hk1%dget_Some_elem Hv1. apply list_elem_of_omap. exists v1.
    split; [|done]. apply list_elem_of_fmap. by exists (k1, v1). }
  intros Hnd. repeat case_decide; subst; simpl; try done.
  - intros [= ->] Hk' Hv Hv'. rewrite Hv in Hnd. apply NoDup_cons in Hnd as [Hn _].
    destruct Hn. eauto.
  - intros Hk [= ->] Hv Hv'. rewrite Hv' in Hnd. apply NoDup_cons in Hnd as [Hn _].
    destruct Hn. eauto.
  - apply IH. destruct (f v0); [by apply NoDup_cons in Hnd as [_ ?] | done].
Qed.

Lemma element_unique s : lib_inv s → ∀ b l l',
  element s l = Some (Some b) → element s l' = Some (Some b) → l = l'.
Proof.
  intros [_ _ _ _ Hnd _ _] b l l' Hl Hl'. unfold located, in_slots, in_drives in Hnd.
  apply NoDup_app in Hnd as (HndS & Hdis2 & Hnd3).
  apply NoDup_app in HndS as (Hnd1 & Hdis1 & Hnd2).
  assert (∀ x, x ∈ slot_bcs (slots s) → x ∉ drive_bcs (drives s)) by set_solver.
  assert (∀ x, x ∈ slot_bcs (ie_slots s) → x ∉ drive_bcs (drives s)) by set_solver.
  destruct l as [k|k|k], l' as [k'|k'|k']; unfold element in Hl, Hl';
    apply fmap_Some in Hl as (v & Hk & Hl); apply fmap_Some in Hl' as (v' & Hk' & Hl');
    symmetry in Hl, Hl';
    try first [ f_equal; by apply (omap_key_inj slot_barcode (slots s) k k' v v' b)
              | f_equal; by apply (omap_key_inj slot_barcode (ie_slots s) k k' v v' b)
              | f_equal; by apply (omap_key_inj drive_barcode (drives s) k k' v v' b) ];
    exfalso;
    repeat match goal with
    | H : dget _ _ = Some _, E : slot_barcode _ = _ |- _ =>
        pose proof (slot_bcs_elem _ _ _ _ H E); clear H
    | H : dget _ _ = Some _, E : drive_barcode _ = _ |- _ =>
        pose proof (drive_bcs_elem _ _ _ _ H E); clear H
    end; naive_solver.
Qed.

Lemma injected_fault_locked ft target s r s' :
  _maybe_raise_injected_fault ft target s = (r, s') →
  changer_locked s' = changer_locked s ∧ same_media s s' ∧
  lib_fault_config s' = lib_fault_config s.
Proof.
  unfold _maybe_raise_injected_fault, zoom. destruct (maybe_raise_injected_fault _ _ _).
  by intros [= <- <-].
Qed.

Ltac stuck_raise := split; [done|]; intros; split; [done | by eexists].

Lemma section_lock {A} (m : M library A) s :
  changer_locked ((_enter_changer;; try_finally m _leave_changer) s).2 = changer_locked s ∧
  (changer_locked s = true →
     same_media s ((_enter_changer;; try_finally m _leave_changer) s).2 ∧
     ∃ e, ((_enter_changer;; try_finally m _leave_changer) s).1 = Raise e).
Proof.
  rewrite changer_section. destruct (should_fail _ _) eqn:Hf; simpl; [by stuck_raise|].
  destruct (changer_locked s) eqn:Hl; simpl; [by stuck_raise|].
  by destruct (m _) as [r s2].
Qed.

Lemma faulty_section_lock {A} ft target (m : M library A) s :
  let op := _maybe_raise_injected_fault ft target;;
            _enter_changer;; try_finally m _leave_changer in
  changer_locked (op s).2 = changer_locked s ∧
  (changer_locked s = true → same_media s (op s).2 ∧ ∃ e, (op s).1 = Raise e).
Proof.
  simpl. unfold mbind at 1 3 5, M_bind at 1 3 5.
  destruct (_maybe_raise_injected_fault ft target s) as [r s'] eqn:Hi.
  destruct (injected_fault_locked _ _ _ _ _ Hi) as (Hl & Hm & _).
  destruct r as [?|e]; simpl; [|by stuck_raise].
  destruct (section_lock m s') as [H1 H2]. rewrite Hl in H1, H2. split; [done|].
  intros Ht. destruct (H2 Ht) as [H3 H4]. split; [|done].
  unfold same_media in *. naive_solver congruence.
Qed.

Lemma robot_lock (op : M library operation_result) s :
  (∃ m, op = (_enter_changer;; try_finally m _leave_changer)) ∨
  (∃ ft tgt m, op = (λ s, (_maybe_raise_injected_fault ft (tgt s);;
                           _enter_changer;; try_finally m _leave_changer) s)) →
  changer_locked (op s).2 = changer_locked s ∧
  (changer_locked s = true → same_media s (op s).2 ∧ ∃ e, (op s).1 = Raise e).
Proof.
  intros [[m ->]|(ft & tgt & m & ->)]; [apply section_lock|].
  apply (faulty_section_lock ft (tgt s) m s).
Qed.

Lemma elem_of_omap_fmap {V} (f : V → option barcode) (l : list V) b :
  Some b ∈ f <$> l → b ∈ omap f l.
Proof.
  intros (v & Hv & Hin)%list_elem_of_fmap. apply list_elem_of_omap. by exists v.
Qed.

(** ** Load, then unload to the same slot *)
Lemma load_ok_inv k dk s r s1 :
  lib_inv s → lib_injector s = None → load k dk s = (Ok r, s1) →
  ∃ sl dr b, dget (slots s) k = Some sl ∧ slot_barcode sl = Some b ∧
    dget (drives s) dk = Some dr ∧ drive_barcode dr = None ∧
    validate_drive_transition (drive_drive_state dr) DriveState.LOADED = Ok tt ∧
    s1 = with_changer false ChangerState.IDLE
           (after_load (with_changer true ChangerState.MOVING (with_injector None s)) k dk dr b).
Proof.
  intros Hinv Hinj. unfold load. unfold gets at 1. unfold mbind at 1, M_bind at 1.
  unfold _maybe_raise_injected_fault, zoom. unfold mbind at 1, M_bind at 1. rewrite Hinj. simpl.
  rewrite changer_section. destruct (_ || _); [done|].
  set (s0 := with_changer true ChangerState.MOVING (with_injector None s)).
  unfold mbind at 1, M_bind at 1, _maybe_fail. destruct (existsb _ _); [done|].
  destruct (load_body_cases k dk s0) as [(e & -> & _)|(sl & dr & b & ? & ? & ? & ? & ? & Heq)];
    [done|].
  rewrite Heq by by apply (same_media_inv s). intros [= <- <-]. by exists sl, dr, b.
Qed.

Lemma unload_after_load s k dk sl dr b :
  lib_inv s → lib_fault_config s = no_faults →
  dget (slots s) k = Some sl → slot_barcode sl = Some b →
  dget (drives s) dk = Some dr → drive_barcode dr = None →
  let s1 := with_changer false ChangerState.IDLE
    (after_load (with_changer true ChangerState.MOVING (with_injector None s)) k dk dr b) in
  let dr1 := MockDrive (drive_id dr) (Some b) DriveState.LOADED MountState.UNMOUNTED in
  ∃ r2, unload dk k s1 =
    (Ok r2, with_changer false ChangerState.IDLE
       (after_unload (with_changer true ChangerState.MOVING s1) dk k dr1 b)) ∧
    op_success r2 = true.
Proof.
  intros Hinv Hfc Hk Hb Hdk Hdb s1 dr1. unfold unload.
  unfold gets at 1. unfold mbind at 1, M_bind at 1.
  unfold _maybe_raise_injected_fault, zoom. unfold mbind at 1, M_bind at 1. simpl.
  change (with_injector None s1) with s1. rewrite changer_section.
  change (lib_fault_config s1) with (lib_fault_config s). rewrite Hfc. simpl.
  set (s2 := with_changer true ChangerState.MOVING s1).
  unfold mbind at 1, M_bind at 1, _maybe_fail.
  change (lib_fault_config s2) with (lib_fault_config s). rewrite Hfc. simpl.
  assert (dget (drives s2) dk = Some dr1) as Hdk2 by apply dget_dset_eq.
  assert (dget (slots s2) k = Some (Slot (slot_id sl) None)) as Hk2.
  { simpl. by rewrite dget_set_barcode, decide_True, Hk by done. }
  assert (lib_inv s2) as Hinv2.
  { apply (same_media_inv (after_load s k dk dr b)); [done|]. by eapply after_load_inv. }
  unfold unload_body. unfold_body. rewrite Hdk2, Hk2. simpl.
  rewrite dget_dset_eq. unfold dget_or. rewrite dget_dset_eq. simpl.
  match goal with |- context [_validate_invariants_locked ?x] =>
    change x with (after_unload s2 dk k dr1 b) end.
  rewrite (validate_inv (after_unload s2 dk k dr1 b)).
  - eexists. by split.
  - by eapply after_unload_inv.
Qed.

Lemma undo_load s k dk sl dr b :
  lib_inv s → dget (slots s) k = Some sl → slot_barcode sl = Some b →
  dget (drives s) dk = Some dr → drive_barcode dr = None →
  validate_drive_transition (drive_drive_state dr) DriveState.LOADED = Ok tt →
  let dr1 := MockDrive (drive_id dr) (Some b) DriveState.LOADED MountState.UNMOUNTED in
  let s2 := after_unload (after_load s k dk dr b) dk k dr1 b in
  slots s2 = slots s ∧ ie_slots s2 = ie_slots s ∧ drives s2 = drives s.
Proof.
  intros Hinv Hk Hb Hdk Hdb Hv dr1 s2. split_and!; [|done|]; simpl.
  - unfold set_barcode_in at 2. rewrite Hk. unfold set_barcode_in. rewrite dget_dset_eq.
    rewrite dset_dset. simpl. apply dset_id. rewrite Hk. by destruct sl; simplify_eq/=.
  - rewrite dset_dset. apply dset_id. rewrite Hdk. f_equal. destruct dr as [i o ds ms]. simpl in *.
    destruct (Forall_dget _ _ _ _ (proj2 (inv_drives _ Hinv)) Hdk) as [_ Hok].
    unfold drive_ok in Hok. simpl in Hok. rewrite Hdb in Hok. destruct Hok as [Hds ->].
    f_equal; [done|]. apply elem_of_cons in Hds as [?|Hds%list_elem_of_singleton]; [done|]. subst ds.
    by vm_compute in Hv.
Qed.

Lemma seed_empty_breaks s b :
  lib_inv s → b ∈ slot_bcs (ie_slots s) → invariants_hold (with_ie_slots [] s) = false.
Proof.
  intros [_ _ _ Hst Hnd Hag _] Hb. apply not_true_is_false. intros Hh.
  apply invariants_hold_spec in Hh as [_ Hloc]; [|done].
  assert (b ∉ slot_bcs (slots s) ∧ b ∉ in_drives s) as [Hs Hd].
  { unfold located, in_slots in Hnd. apply NoDup_app in Hnd as (Hnd & Hdis & _).
    apply NoDup_app in Hnd as (_ & Hdis' & _). set_solver. }
  destruct (agree_in_slot _ (in_slots s) (in_drives s) b Hag) as [Hc|Hc];
    [unfold in_slots; set_solver | done | |];
    specialize (Hloc b _ Hc); simpl in Hloc; unfold located, in_slots in Hloc; simpl in Hloc;
    rewrite app_nil_r, elem_of_app in Hloc; naive_solver.
Qed.

#[local] Arguments FaultConfig_from_json : simpl never.
#[local] Arguments FaultConfig_to_json : simpl never.
#[local] Arguments mapR : simpl never.
#[local] Arguments dict_of : simpl never.
#[local] Arguments default_states : simpl never.
#[local] Arguments invariants_hold : simpl never.

(** * Properties *)

(** The five robot operations, with the elements each one works on. *)
Inductive robot_op :=
| RLoad (k dk : Z) | RUnload (dk k : Z) | RMove (k k' : Z)
| RImport (k k' : Z) | RExport (k k' : Z).

Definition run_robot (o : robot_op) : M library operation_result :=
  match o with
  | RLoad k dk => load k dk
  | RUnload dk k => unload dk k
  | RMove k k' => move k k'
  | RImport k k' => import_cartridge k k'
  | RExport k k' => export_cartridge_to_ie k k'
  end.

Definition robot_src (o : robot_op) : location :=
  match o with
  | RLoad k _ | RMove k _ | RExport k _ => AtSlot k
  | RUnload dk _ => AtDrive dk
  | RImport k _ => AtIe k
  end.
Definition robot_dst (o : robot_op) : location :=
  match o with
  | RLoad _ dk => AtDrive dk
  | RUnload _ k | RMove _ k | RImport _ k => AtSlot k
  | RExport _ k => AtIe k
  end.

(** What robot operations mean for other clients of the library. *)
Lemma robot_media (o : robot_op) (s : library) : lib_inv s →
  lib_inv (run_robot o s).2 ∧
  ∀ k dr, dget (drives s) k = Some dr → drive_mount_state dr ≠ MountState.UNMOUNTED →
    dget (drives (run_robot o s).2) k = Some dr.
Proof.
  intros Hinv.
  assert (changer_outcome (robot_src o) (robot_dst o) s (run_robot o s)) as Ho.
  { destruct o; [by apply load_outcome | by apply unload_outcome | by apply move_outcome
      | by apply import_outcome | by apply export_outcome]. }
  split; [by eapply outcome_inv|]. intros k dr Hk Hm. revert Ho. unfold changer_outcome.
  destruct (run_robot o s) as [[r|e] s']; simpl.
  - case_match; [intros [_ Ht _ _]; by apply Ht | intros (_ & _ & Hd & _); by rewrite Hd].
  - intros (_ & _ & _ & Hd & _). by rewrite Hd.
Qed.

(** C1: The robot refines the vault: on a consistent library each of load,
    unload, move, import and export either completes, and then exactly one
    cartridge went from the named source to the named, previously empty,
    destination with every mounted drive and every other element untouched, or
    it reports a failure or raises and no element changed; the internal
    consistency check never fires, and the library stays consistent. *)
Theorem robot_refines_vault (o : robot_op) (s : library) (Hinv : lib_inv s) :
  changer_outcome (robot_src o) (robot_dst o) s (run_robot o s) ∧
  lib_inv (run_robot o s).2.
Proof.
  assert (changer_outcome (robot_src o) (robot_dst o) s (run_robot o s)) as Ho.
  { destruct o; [by apply load_outcome | by apply unload_outcome | by apply move_outcome
      | by apply import_outcome | by apply export_outcome]. }
  split; [done | by eapply outcome_inv].
Qed.

Definition sample_library : library :=
  (seed_slots ["TAPE01L8"; "TAPE02L8"]
     (MockLibraryBackend "lib" 4 2 0 no_faults None 1)).2.

Lemma robot_refines_vault_witness :
  lib_inv sample_library ∧
  changer_outcome (AtSlot 1) (AtDrive 0) sample_library (load 1 0 sample_library) ∧
  (load 1 0 sample_library).1 =
    Ok (OperationResult true "loaded" [("barcode", JStr "TAPE01L8"); ("drive", JInt 0)]).
Proof.
  assert (lib_inv sample_library) as Hinv by (apply seed_slots_inv, fresh_inv).
  split; [exact Hinv | split; [exact (proj1 (robot_refines_vault (RLoad 1 0) _ Hinv)) |]].
  vm_compute. reflexivity.
Defined.

(** C23: Every library a client can reach is consistent: by any sequence of operations,
    whatever faults fired and exceptions were raised on the way, except that a
    seeding of the import/export station that raises ends it (after one the library
    is not consistent: see [seed_ie_drops_cartridge]), the check of
    [_validate_invariants_locked] passes and each cartridge is in at most one
    element. *)
Theorem reachable_library_consistent (s : library) (Hreach : reachable s) :
  lib_inv s ∧ invariants_hold s = true ∧
  ∀ b l l', element s l = Some (Some b) → element s l' = Some (Some b) → l = l'.
Proof.
  apply reachable_inv in Hreach. split_and!; [done | by apply inv_holds|].
  by apply element_unique.
Qed.

Lemma reachable_library_consistent_witness :
  reachable (run_lib_op (DoLoad 1 0) sample_library).2 ∧
  invariants_hold (run_lib_op (DoLoad 1 0) sample_library).2 = true.
Proof.
  assert (reachable (run_lib_op (DoLoad 1 0) sample_library).2) as Hr.
  { refine (reach_op sample_library (DoLoad 1 0) _ _); [|by intros].
    refine (reach_op (MockLibraryBackend "lib" 4 2 0 no_faults None 1)
      (DoSeed ["TAPE01L8"; "TAPE02L8"]) (reach_new _ _ _ _ _ _ _) _). by intros. }
  split; [exact Hr | exact (proj1 (proj2 (reachable_library_consistent _ Hr)))].
Defined.

(** The changer lock never leaks: whatever a robot operation does, and
    however it ends, the lock is free afterwards if it was free before, and a
    call that finds it taken raises [ChangerBusyError] and changes no medium. *)
Theorem changer_lock_released (o : robot_op) (s : library) :
  changer_locked (run_robot o s).2 = changer_locked s ∧
  (changer_locked s = true → same_media s (run_robot o s).2 ∧
     ∃ e, (run_robot o s).1 = Raise e).
Proof.
  destruct o as [k dk|dk k|k k'|k k'|k k']; apply robot_lock.
  - right. by exists InjectedFaultType.LOAD_FAILURE, (_fault_target_for_load k dk),
      (_maybe_fail [FaultType.LOAD_FAILURE; FaultType.CHANGER_TIMEOUT; FaultType.DRIVE_TIMEOUT];;
       load_body k dk).
  - right. by exists InjectedFaultType.UNLOAD_FAILURE, (_fault_target_for_unload dk),
      (_maybe_fail [FaultType.UNLOAD_FAILURE; FaultType.CHANGER_TIMEOUT;
                    FaultType.DRIVE_TIMEOUT];; unload_body dk k).
  - left. by eexists.
  - left. by eexists.
  - left. by eexists.
Qed.

(** Unloading to the slot a cartridge was loaded from undoes the load: with
    no fault configured, the unload succeeds and every slot, I/E element and
    drive is as it was before the load. *)
Theorem load_unload_roundtrip (s s1 : library) (k dk : Z) (r : operation_result)
    (Hinv : lib_inv s) (Hinj : lib_injector s = None) (Hnofault : lib_fault_config s = no_faults)
    (Hload : load k dk s = (Ok r, s1)) :
  ∃ r2 s2, unload dk k s1 = (Ok r2, s2) ∧ op_success r2 = true ∧
    slots s2 = slots s ∧ ie_slots s2 = ie_slots s ∧ drives s2 = drives s.
Proof.
  destruct (load_ok_inv _ _ _ _ _ Hinv Hinj Hload)
    as (sl & dr & b & Hk & Hb & Hdk & Hdb & Hv & ->).
  destruct (unload_after_load s k dk sl dr b) as (r2 & Hun & Hr2); [done..|].
  eexists _, _. split; [exact Hun|]. split; [done|].
  apply (undo_load s k dk sl dr b); done.
Qed.

Lemma load_unload_roundtrip_witness :
  ∃ r s1, load 2 1 sample_library = (Ok r, s1) ∧
    ∃ r2 s2, unload 1 2 s1 = (Ok r2, s2) ∧ op_success r2 = true ∧
      slots s2 = slots sample_library ∧ ie_slots s2 = ie_slots sample_library ∧
      drives s2 = drives sample_library.
Proof.
  assert (∃ r, load 2 1 sample_library = (Ok r, (load 2 1 sample_library).2)) as [r Hr].
  { eexists. vm_compute. reflexivity. }
  exists r, (load 2 1 sample_library).2. split; [exact Hr|].
  refine (load_unload_roundtrip _ _ _ _ _ _ _ _ Hr); [apply seed_slots_inv, fresh_inv | | ];
    vm_compute; reflexivity.
Defined.

(** A snapshot of a consistent library restores it: [from_json] of
    [to_json] succeeds and gives back every element, drive state, cartridge
    state and fault switch; only the fault injector and a held changer lock,
    which are not persisted, are reset. *)
Theorem library_snapshot_roundtrip (s : library) (Hinv : lib_inv s)
    (Hfc : dict_wf (faults (lib_fault_config s))) :
  library_from_json (library_to_json s) =
  Ok (Library (library_id s) (load_delay s) (lib_fault_config s) None false
        (slots s) (ie_slots s) (drives s) (cartridge_states s) (changer s)).
Proof.
  pose proof (λ s', same_media_inv s s') as Hsame.
  destruct (lib_inv_parts _ Hinv) as (Hs & Hi & Hd).
  destruct (Hinv) as [_ _ _ Hst _ Hag Hval].
  unfold located, in_slots, in_drives in Hval. rewrite !Forall_app in Hval.
  destruct Hval as [[Hv1 Hv2] Hv3].
  unfold library_from_json, library_to_json, jget. simpl.
  change (dget_or _ "fault_config" JNull) with (JObj (FaultConfig_to_json (lib_fault_config s))).
  rewrite fault_config_json by done. simpl. rewrite enum_of_value_value. simpl.
  rewrite slots_json_roundtrip by done. simpl. rewrite slots_json_roundtrip by done. simpl.
  rewrite drives_json_roundtrip by done. simpl. rewrite states_json_roundtrip. simpl.
  rewrite !dict_of_id by (apply Hs || apply Hi || apply Hd || done).
  rewrite (default_states_id (slot_barcode <$> _)), (default_states_id (drive_barcode <$> _)).
  - by rewrite (inv_holds (Library _ _ _ _ _ _ _ _ _ _)) by by apply Hsame.
  - intros b Hb. apply (agree_located _ _ _ _ Hag). right. by apply elem_of_omap_fmap.
  - intros b Hb. apply (agree_located _ _ _ _ Hag). left. unfold in_slots, slot_bcs.
    rewrite <-omap_app. by apply elem_of_omap_fmap.
Qed.

Lemma library_snapshot_roundtrip_witness :
  ∃ s, library_from_json (library_to_json sample_library) = Ok s.
Proof.
  eexists. apply (library_snapshot_roundtrip sample_library).
  - apply seed_slots_inv, fresh_inv.
  - constructor.
Defined.

(** Replacing the I/E station forgets the cartridges that were in it but
    keeps their state: if a cartridge of the old station is not in the new
    mapping, seeding the empty station raises and leaves a library whose
    consistency check fails. *)
Theorem seed_ie_drops_cartridge (s : library) (b : barcode) (Hinv : lib_inv s)
    (Hb : b ∈ slot_bcs (ie_slots s)) :
  (seed_import_export_slots [] s).1 = Raise ValueError ∧
  invariants_hold (seed_import_export_slots [] s).2 = false.
Proof.
  pose proof (seed_empty_breaks s b Hinv Hb) as Hbreaks.
  unfold seed_import_export_slots. msimp. unfold _validate_invariants_locked.
  rewrite Hbreaks. by split.
Qed.

Lemma seed_ie_drops_cartridge_witness :
  let s := (export_cartridge_to_ie 1 5 sample_library).2 in
  lib_inv s ∧ (seed_import_export_slots [] s).1 = Raise ValueError.
Proof.
  intros s. assert (lib_inv s) as Hinv.
  { eapply outcome_inv; [|apply export_outcome]; apply seed_slots_inv, fresh_inv. }
  split; [exact Hinv|].
  refine (proj1 (seed_ie_drops_cartridge s "TAPE01L8" Hinv _)).
  apply (bool_decide_unpack _). vm_compute. exact I.
Defined.
