(* ===== verification/Bytes.v ===== *)
(** Byte strings of the Python standard library: [bytes.hex], [bytes.fromhex]
    and [hashlib.sha256(...).hexdigest()].  SHA-256 is the algorithm of FIPS
    180-4 on 32-bit words kept in [Z]. *)
From stdpp Require Import base list option strings.
From Stdlib Require Import Ascii ZArith Lia.
From Stdlib.Strings Require Byte.
From S2P Require Import Prelude.
#[local] Open Scope string_scope.
#[local] Open Scope Z_scope.

Notation bytes := (list Byte.byte).

#[export] Instance byte_eq_dec : EqDecision Byte.byte := Byte.byte_eq_dec.

Definition byte_val (b : Byte.byte) : Z := Z.of_N (Byte.to_N b).
Definition byte_of (z : Z) : Byte.byte := default Byte.x00 (Byte.of_N (Z.to_N (z mod 256))).

(** [len(content)]. *)
Definition blen (l : bytes) : Z := Z.of_nat (length l).

(** * Hexadecimal text *)
Definition hex_digit (n : Z) : ascii :=
  Ascii.ascii_of_N (Z.to_N (if bool_decide (n < 10) then 48 + n else 87 + n)).

Definition hex_val (c : ascii) : option Z :=
  let n := Z.of_N (Ascii.N_of_ascii c) in
  if bool_decide (48 ≤ n ≤ 57) then Some (n - 48)
  else if bool_decide (97 ≤ n ≤ 102) then Some (n - 87)
  else if bool_decide (65 ≤ n ≤ 70) then Some (n - 55)
  else None.

Fixpoint hex_chars (l : bytes) : list ascii :=
  match l with
  | [] => []
  | b :: l => hex_digit (byte_val b / 16) :: hex_digit (byte_val b mod 16) :: hex_chars l
  end.

(** [content.hex()]. *)
Definition hex (l : bytes) : string := String.string_of_list_ascii (hex_chars l).

(** White space is skipped between bytes, not between the digits of one. *)
Definition is_hex_space (c : ascii) : bool :=
  let n := Ascii.N_of_ascii c in bool_decide (9 ≤ n ≤ 13)%N || bool_decide (n = 32)%N.

Fixpoint unhex_chars (l : list ascii) : option bytes :=
  match l with
  | [] => Some []
  | c :: l =>
      if is_hex_space c then unhex_chars l
      else match hex_val c, l with
           | Some hi, c' :: l' =>
               match hex_val c' with
               | Some lo => cons (byte_of (16 * hi + lo)) <$> unhex_chars l'
               | None => None
               end
           | _, _ => None
           end
  end.

(** [bytes.fromhex(s)]. *)
Definition fromhex (s : string) : result bytes :=
  match unhex_chars (String.list_ascii_of_string s) with
  | Some l => Ok l
  | None => Raise ValueError
  end.

(** * SHA-256 *)
Module Sha256.
Definition wrap (z : Z) : Z := z mod 2 ^ 32.
Definition add (a b : Z) : Z := wrap (a + b).
Definition rotr (n x : Z) : Z := Z.lor (Z.shiftr x n) (wrap (Z.shiftl x (32 - n))).

(** The constants are the first 32 fractional bits of the cube roots of the first
    64 primes, and of the square roots of the first 8. *)
Definition is_prime (n : Z) : bool :=
  forallb (λ d, negb (bool_decide (n mod d = 0))) (zrange 2 n).
Definition primes : list Z := filter (λ n, is_prime n) (zrange 2 312).

(** The integer cube root, bit by bit from [2 ^ n]. *)
Fixpoint cube_root (n : nat) (root x : Z) : Z :=
  let next := root + 2 ^ Z.of_nat n in
  let root := if bool_decide (next ^ 3 ≤ x) then next else root in
  match n with O => root | S n => cube_root n root x end.

Definition K : list Z :=
  Eval vm_compute in (λ p, wrap (cube_root 34 0 (p * 2 ^ 96))) <$> primes.
Definition H0 : list Z :=
  Eval vm_compute in (λ p, wrap (Z.sqrt (p * 2 ^ 64))) <$> take 8 primes.

(** The [n] low bytes of [z], most significant first. *)
Fixpoint be_bytes (n : nat) (z : Z) : list Z :=
  match n with
  | O => []
  | S n => (z / 256 ^ Z.of_nat n) mod 256 :: be_bytes n z
  end.

Definition pad (msg : list Z) : list Z :=
  let len := Z.of_nat (length msg) in
  (msg ++ 0x80 :: repeat 0%Z (Z.to_nat ((55 - len) mod 64)) ++ be_bytes 8 (8 * len))%list.

Fixpoint words (l : list Z) : list Z :=
  match l with
  | a :: b :: c :: d :: l => (a * 2 ^ 24 + b * 2 ^ 16 + c * 2 ^ 8 + d) :: words l
  | _ => []
  end.

Definition sigma0 (x : Z) : Z := Z.lxor (Z.lxor (rotr 7 x) (rotr 18 x)) (Z.shiftr x 3).
Definition sigma1 (x : Z) : Z := Z.lxor (Z.lxor (rotr 17 x) (rotr 19 x)) (Z.shiftr x 10).
Definition Sigma0 (x : Z) : Z := Z.lxor (Z.lxor (rotr 2 x) (rotr 13 x)) (rotr 22 x).
Definition Sigma1 (x : Z) : Z := Z.lxor (Z.lxor (rotr 6 x) (rotr 11 x)) (rotr 25 x).
Definition Ch (x y z : Z) : Z := Z.lxor (Z.land x y) (Z.land (wrap (Z.lnot x)) z).
Definition Maj (x y z : Z) : Z := Z.lxor (Z.lxor (Z.land x y) (Z.land x z)) (Z.land y z).

(** The message schedule: the window [w] holds the last sixteen words. *)
Fixpoint rounds (ks : list Z) (w : list Z) (h : list Z) : list Z :=
  match ks with
  | [] => h
  | k :: ks =>
      match h with
      | [a; b; c; d; e; f; g; hh] =>
          let w0 := nth 0 w 0 in
          let t1 := add (add (add (add hh (Sigma1 e)) (Ch e f g)) k) w0 in
          let t2 := add (Sigma0 a) (Maj a b c) in
          let w16 := add (add (add (sigma1 (nth 14 w 0)) (nth 9 w 0)) (sigma0 (nth 1 w 0))) w0 in
          rounds ks (drop 1 w ++ [w16])%list [add t1 t2; a; b; c; add d t1; e; f; g]
      | _ => h
      end
  end.

Definition block (h w : list Z) : list Z := zip_with add h (rounds K w h).

Fixpoint blocks (fuel : nat) (h ws : list Z) : list Z :=
  match fuel, ws with
  | O, _ | _, [] => h
  | S fuel, _ => blocks fuel (block h (take 16 ws)) (drop 16 ws)
  end.

Definition digest (msg : bytes) : list Z :=
  let ws := words (pad (byte_val <$> msg)) in blocks (length ws) H0 ws.
End Sha256.

(** [hashlib.sha256(content).hexdigest()]. *)
Definition sha256_hex (msg : bytes) : string :=
  String.string_of_list_ascii
    (hex_chars (byte_of <$> mjoin (Sha256.be_bytes 4 <$> Sha256.digest msg))).

Definition bytes_of (s : string) : bytes := String.list_byte_of_string s.

(** * Lemmas *)
Example sha256_abc : sha256_hex (bytes_of "abc") =
  "ba7816bf8f01cfea414140de5dae2223b00361a396177a9cb410ff61f20015ad".
Proof. vm_compute. reflexivity. Qed.

Example sha256_two_blocks :
  sha256_hex (bytes_of "abcdbcdecdefdefgefghfghighijhijkijkljklmklmnlmnomnopnopq") =
  "248d6a61d20638b8e5c026930c3e6039a33ce45964ff2167f6ecedd419db06c1".
Proof. vm_compute. reflexivity. Qed.

(** A fact about every byte, by computation over the 256 of them. *)
Lemma byte_forall (P : Byte.byte → Prop) `{∀ b, Decision (P b)} :
  forallb (λ n, match Byte.of_N (N.of_nat n) with
                | Some b => bool_decide (P b) | None => false end) (seq 0 256) = true →
  ∀ b, P b.
Proof.
  intros HP b. rewrite forallb_forall in HP.
  specialize (HP (N.to_nat (Byte.to_N b))).
  rewrite N2Nat.id, Byte.of_to_N in HP.
  eapply bool_decide_unpack, Is_true_eq_left, HP, list_elem_of_In, elem_of_seq.
  pose proof (Byte.to_N_bounded b). lia.
Qed.

Lemma hex_byte b l :
  unhex_chars (hex_digit (byte_val b / 16) :: hex_digit (byte_val b mod 16) :: l) =
  cons b <$> unhex_chars l.
Proof.
  assert (is_hex_space (hex_digit (byte_val b / 16)) = false ∧
    hex_val (hex_digit (byte_val b / 16)) = Some (byte_val b / 16) ∧
    hex_val (hex_digit (byte_val b mod 16)) = Some (byte_val b mod 16) ∧
    byte_of (16 * (byte_val b / 16) + byte_val b mod 16) = b) as (H1 & H2 & H3 & H4).
  { revert b. apply (byte_forall _). vm_compute. reflexivity. }
  simpl. by rewrite H1, H2, H3, H4.
Qed.

Lemma fromhex_hex (l : bytes) : fromhex (hex l) = Ok l.
Proof.
  unfold fromhex, hex. rewrite String.list_ascii_of_string_of_list_ascii.
  assert (unhex_chars (hex_chars l) = Some l) as ->; [|done].
  induction l as [|b l IH]; [done|]. cbn [hex_chars]. by rewrite hex_byte, IH.
Qed.
