(* ===== verification/Ltfs.v ===== *)
(** The simulated LTFS layer: openblade/simulator/ltfs_volume.py, class
    [MockLTFSBackend], on top of the simulated library.

    The backend holds a reference to its library, so the library is part of its
    state.  A tape object is named by its key in [_tapes], whose entries are
    never replaced.  The fault injector is none, the backend's own, or the very
    object the library holds ([SharedInjector]): the latter aliasing is kept. *)
From stdpp Require Import base list option strings pretty sets.
From Stdlib Require Import Ascii ZArith QArith Lia.
From S2P Require Import Prelude Wp Domain Faults Library Bytes.
#[local] Open Scope string_scope.
#[local] Open Scope Z_scope.

(** * Dates of the standard library

    Instants are integers; [isoformat] is their text.  The reader of that text
    is only used to restore a snapshot. *)
Class DateTime := {
  isoformat : Z → string;
  fromisoformat : string → result Z;
}.
Class DateTimeLaws `{DateTime} : Prop :=
  fromisoformat_isoformat t : fromisoformat (isoformat t) = Ok t.

(** * State *)
Record file_record := MockFileRecord {
  fr_tape_path : string;
  fr_size_bytes : Z;
  fr_checksum_sha256 : string;
  fr_content : bytes;
  fr_modified_at : Z;
}.

Record tape := MockTapeContents {
  tp_barcode : string;
  tp_capacity_bytes : Z;
  tp_used_bytes : Z;
  tp_files : dict string file_record;
  tp_formatted : bool;
  tp_mount_state : mount_state;
}.

(** [MockTapeContents(barcode=..., capacity_bytes=...)]. *)
Definition blank_tape (barcode : string) (capacity_bytes : Z) : tape :=
  MockTapeContents barcode capacity_bytes 0 [] false MountState.UNMOUNTED.

Record active_mount := ActiveMount {
  am_handle : mount_handle;
  am_barcode : string;
  am_drive_id : Z;
  am_mode : mount_mode;
  am_active : bool;
  am_dirty : bool;
  am_write_in_progress : bool;
}.

Inductive injector_ref := NoInjector | SharedInjector | OwnInjector (fi : fault_injector).

Record ltfs := Ltfs {
  lt_library : library;
  lt_capacity_bytes : Z;
  lt_fault_config : fault_config;
  lt_injector : injector_ref;
  tapes : dict string tape;
  active_mounts : dict string active_mount;
}.

Definition with_library (l : library) (s : ltfs) : ltfs :=
  Ltfs l (lt_capacity_bytes s) (lt_fault_config s) (lt_injector s) (tapes s) (active_mounts s).
Definition with_tapes (d : dict string tape) (s : ltfs) : ltfs :=
  Ltfs (lt_library s) (lt_capacity_bytes s) (lt_fault_config s) (lt_injector s) d
    (active_mounts s).
Definition with_mounts (d : dict string active_mount) (s : ltfs) : ltfs :=
  Ltfs (lt_library s) (lt_capacity_bytes s) (lt_fault_config s) (lt_injector s) (tapes s) d.

Definition MockLTFSBackend (lib : library) (capacity_bytes : Z) (fc : fault_config)
    (inj : injector_ref) : ltfs :=
  Ltfs lib capacity_bytes fc inj
    (dict_of ((λ b, (b, blank_tape b capacity_bytes)) <$> get_all_barcodes lib)) [].

(** ** References to parts of the state *)
Definition on_library {A} (m : M library A) : M ltfs A := zoom lt_library with_library m.

Definition lt_injector_value (s : ltfs) : option fault_injector :=
  match lt_injector s with
  | NoInjector => None
  | SharedInjector => lib_injector (lt_library s)
  | OwnInjector fi => Some fi
  end.
Definition set_lt_injector_value (o : option fault_injector) (s : ltfs) : ltfs :=
  match lt_injector s, o with
  | SharedInjector, _ => with_library (with_injector o (lt_library s)) s
  | OwnInjector _, Some fi =>
      Ltfs (lt_library s) (lt_capacity_bytes s) (lt_fault_config s) (OwnInjector fi)
        (tapes s) (active_mounts s)
  | _, _ => s
  end.

Definition index_tape (key : string) : M ltfs tape := λ s, dindex (tapes s) key s.

(** Attribute writes on the tape under [key] and on the mount under [hid]. *)
Definition put_tape (key : string) (f : tape → tape) : M ltfs unit :=
  modify (λ s, match dget (tapes s) key with
               | Some t => with_tapes (dset (tapes s) key (f t)) s
               | None => s
               end).
Definition put_mount (hid : string) (f : active_mount → active_mount) : M ltfs unit :=
  modify (λ s, match dget (active_mounts s) hid with
               | Some m => with_mounts (dset (active_mounts s) hid (f m)) s
               | None => s
               end).

Definition set_tape_mount_state (ms : mount_state) (t : tape) : tape :=
  MockTapeContents (tp_barcode t) (tp_capacity_bytes t) (tp_used_bytes t) (tp_files t)
    (tp_formatted t) ms.
Definition set_wip (b : bool) (m : active_mount) : active_mount :=
  ActiveMount (am_handle m) (am_barcode m) (am_drive_id m) (am_mode m) (am_active m)
    (am_dirty m) b.
Definition set_dirty (m : active_mount) : active_mount :=
  ActiveMount (am_handle m) (am_barcode m) (am_drive_id m) (am_mode m) (am_active m)
    true (am_write_in_progress m).

(** * Operations *)
Definition lt_maybe_raise_injected_fault (ft : injected_fault_type) (target : string)
    : M ltfs unit :=
  zoom lt_injector_value set_lt_injector_value (maybe_raise_injected_fault ft target).

(** [ensure_tape] returns the tape, that is, its key. *)
Definition ensure_tape (bc : string) : M ltfs string :=
  normalized ← liftR (Barcode bc);
  lt_maybe_raise_injected_fault InjectedFaultType.TAPE_NOT_FOUND normalized;;
  s ← getS;
  (if dmem (tapes s) normalized then mret tt
   else if bool_decide (normalized ∈ get_all_barcodes (lt_library s)) then
     modify (λ s, with_tapes
       (dset (tapes s) normalized (blank_tape normalized (lt_capacity_bytes s))) s)
   else raise CartridgeNotFoundError);;
  mret normalized.

Definition format (now : Z) (bc : string) (confirmation : option format_confirmation)
    : M ltfs operation_result :=
  match confirmation with
  | None => raise FormatRequiresConfirmationError
  | Some c =>
      liftR (FormatConfirmation_validate now c bc);;
      key ← ensure_tape bc;
      put_tape key (λ t, MockTapeContents (tp_barcode t) (tp_capacity_bytes t) 0 [] true
                           MountState.UNMOUNTED);;
      tape ← index_tape key;
      modify (λ s, with_mounts
        (filter (λ kv, am_barcode kv.2 ≠ tp_barcode tape) (active_mounts s)) s);;
      s ← getS;
      drive ← liftR (find_drive_by_barcode bc (lt_library s));
      match drive with
      | Some d => on_library (set_drive_mount_state d MountState.UNMOUNTED)
      | None => mret tt
      end;;
      mret (OperationResult true "formatted" [("barcode", JStr (tp_barcode tape))])
  end.

Definition target_mount_state (mode : mount_mode) : mount_state :=
  if bool_decide (mode = MountMode.READ_ONLY) then MountState.MOUNTED_RO
  else MountState.MOUNTED_RW.

(** The active mounts a new mount of [bc] is checked against. *)
Definition active_for (bc : string) (s : ltfs) : list active_mount :=
  filter (λ m, am_barcode m = bc) (dvalues (active_mounts s)).

(** [uuid] is the value of [uuid.uuid4()]. *)
Definition mount (uuid : string) (bc : string) (mode : mount_mode) : M ltfs mount_handle :=
  normalized ← liftR (Barcode bc);
  lt_maybe_raise_injected_fault InjectedFaultType.MOUNT_TIMEOUT normalized;;
  lt_maybe_raise_injected_fault InjectedFaultType.DRIVE_UNAVAILABLE normalized;;
  s ← getS;
  raise_if (should_fail (lt_fault_config s) FaultType.MOUNT_FAILURE) SimulatedMountFailure;;
  drive ← liftR (find_drive_by_barcode bc (lt_library s));
  match drive with
  | None => raise CartridgeNotFoundError
  | Some drive_id =>
      key ← ensure_tape bc;
      tape ← index_tape key;
      raise_if (negb (tp_formatted tape)) FormatRequiresConfirmationError;;
      active_for_tape ← gets (active_for bc);
      raise_if (bool_decide (active_for_tape ≠ []) &&
                (bool_decide (mode = MountMode.READ_WRITE) ||
                 existsb (λ m, bool_decide (am_mode m = MountMode.READ_WRITE)) active_for_tape))
        SimulatedMountFailure;;
      let target_state := target_mount_state mode in
      when (bool_decide (active_for_tape = []))
        (on_library (set_drive_mount_state drive_id target_state);;
         put_tape key (set_tape_mount_state target_state));;
      b ← liftR (Barcode bc);
      let handle := MountHandle uuid b drive_id mode ("mock-mount/" ++ bc) in
      modify (λ s, with_mounts
        (dset (active_mounts s) (mh_handle_id handle)
           (ActiveMount handle (tp_barcode tape) drive_id mode true false false)) s);;
      mret handle
  end.

Definition unmount (handle : mount_handle) : M ltfs operation_result :=
  s ← getS;
  match dget (active_mounts s) (mh_handle_id handle) with
  | None => raise CartridgeNotFoundError
  | Some active_mount =>
      raise_if (negb (am_active active_mount)) CartridgeNotFoundError;;
      modify (λ s, with_mounts (ddel (active_mounts s) (mh_handle_id handle)) s);;
      key ← ensure_tape (mh_barcode handle);
      tape ← index_tape key;
      remaining ← gets (active_for (tp_barcode tape));
      let ms :=
        if am_write_in_progress active_mount || am_dirty active_mount then MountState.DIRTY
        else if existsb (λ m, bool_decide (am_mode m = MountMode.READ_WRITE)) remaining
        then MountState.MOUNTED_RW
        else if bool_decide (remaining ≠ []) then MountState.MOUNTED_RO
        else MountState.UNMOUNTED in
      put_tape key (set_tape_mount_state ms);;
      on_library (set_drive_mount_state (mh_drive_id handle) ms);;
      mret (OperationResult true "unmounted"
              [("barcode", JStr (mh_barcode handle)); ("drive", JInt (mh_drive_id handle))])
  end.

Definition _require_active_mount (handle : mount_handle) : M ltfs active_mount := λ s,
  match dget (active_mounts s) (mh_handle_id handle) with
  | Some m => if am_active m then (Ok m, s) else (Raise CartridgeNotFoundError, s)
  | None => (Raise CartridgeNotFoundError, s)
  end.

Definition _should_flip_checksum (target : string) : M ltfs bool := λ s,
  if should_fail (lt_fault_config s) FaultType.CHECKSUM_MISMATCH then (Ok true, s)
  else match lt_injector_value s with
       | None => (Ok false, s)
       | Some fi =>
           let '(r, fi') := should_fault InjectedFaultType.CHECKSUM_MISMATCH target fi in
           (r, set_lt_injector_value (Some fi') s)
       end.

Definition _flip_checksum (checksum : string) : string :=
  match checksum with
  | EmptyString => checksum
  | String c rest => String (if bool_decide (c ≠ "0"%char) then "0"%char else "1"%char) rest
  end.

(** ** Writing *)
Record file_instance := FileInstance {
  in_file_record_id : string;
  in_barcode : barcode;
  in_tape_path : string;
  in_state : file_instance_state;
  in_archived_at : option Z;
}.

(** [used - previous + stored] and the record stored under [path_key]. *)
Definition previous_size (t : tape) (path_key : string) : Z :=
  match dget (tp_files t) path_key with Some r => fr_size_bytes r | None => 0 end.
Definition projected_used_bytes (t : tape) (path_key : string) (stored_size : Z) : Z :=
  tp_used_bytes t - previous_size t path_key + stored_size.
Definition store_file (r : file_record) (used : Z) (t : tape) : tape :=
  MockTapeContents (tp_barcode t) (tp_capacity_bytes t) used
    (dset (tp_files t) (fr_tape_path r) r) (tp_formatted t) (tp_mount_state t).

Definition _write_mounted_bytes (now : Z) (handle : mount_handle) (path_key : string)
    (content : bytes) (size_bytes : option Z) (checksum_sha256 : option string)
    : M ltfs file_instance :=
  lt_maybe_raise_injected_fault InjectedFaultType.WRITE_ERROR (mh_barcode handle);;
  lt_maybe_raise_injected_fault InjectedFaultType.PARTIAL_WRITE (mh_barcode handle);;
  active_mount ← _require_active_mount handle;
  raise_if (bool_decide (mh_mode handle ≠ MountMode.READ_WRITE)) PermissionError;;
  key ← ensure_tape (mh_barcode handle);
  let hid := mh_handle_id handle in
  let stored_size := default (blen content) size_bytes in
  put_mount hid (set_wip true);;
  s ← getS;
  when (should_fail (lt_fault_config s) FaultType.NO_FREE_SPACE)
    (put_mount hid (set_wip false);; raise TapeFullError);;
  when (should_fail (lt_fault_config s) FaultType.WRITE_FAILURE)
    (put_mount hid (set_wip false);; put_mount hid set_dirty;; raise SimulatedWriteFailure);;
  when (match write_fail_after_bytes (lt_fault_config s) with
        | Some failure_point => bool_decide (failure_point < blen content)
        | None => false
        end)
    (put_mount hid (set_wip false);; put_mount hid set_dirty;; raise SimulatedWriteFailure);;
  tape ← index_tape key;
  let projected := projected_used_bytes tape path_key stored_size in
  when (bool_decide (tp_capacity_bytes tape < projected))
    (put_mount hid (set_wip false);; raise TapeFullError);;
  let checksum :=
    match checksum_sha256 with
    | Some c => if bool_decide (c = "") then sha256_hex content else c
    | None => sha256_hex content
    end in
  put_tape key (store_file (MockFileRecord path_key stored_size checksum content now) projected);;
  put_tape key (set_tape_mount_state MountState.MOUNTED_RW);;
  put_mount hid (set_wip false);;
  on_library (set_drive_mount_state (mh_drive_id handle) MountState.MOUNTED_RW);;
  b ← liftR (Barcode (mh_barcode handle));
  mret (FileInstance checksum b path_key FileInstanceState.ARCHIVED (Some now)).

Definition _write_metadata_bytes (now : Z) (bc path_key : string) (content : bytes)
    : M ltfs unit :=
  b ← liftR (Barcode bc);
  lt_maybe_raise_injected_fault InjectedFaultType.WRITE_ERROR b;;
  lt_maybe_raise_injected_fault InjectedFaultType.PARTIAL_WRITE b;;
  key ← ensure_tape bc;
  tape ← index_tape key;
  let projected := projected_used_bytes tape path_key (blen content) in
  raise_if (bool_decide (tp_capacity_bytes tape < projected)) TapeFullError;;
  put_tape key
    (store_file (MockFileRecord path_key (blen content) (sha256_hex content) content now)
       projected).

(** [write_bytes] takes a mount handle or, for metadata, a barcode. *)
Definition write_bytes (now : Z) (handle_or_barcode : mount_handle + string) (dest : string)
    (content : bytes) (size_bytes : option Z) (checksum_sha256 : option string)
    : M ltfs (option file_instance) :=
  match handle_or_barcode with
  | inl handle =>
      Some <$> _write_mounted_bytes now handle dest content size_bytes checksum_sha256
  | inr bc => _write_metadata_bytes now bc dest content;; mret None
  end.

(** [content] is what [source.read_bytes()] gives. *)
Definition write_file (now : Z) (handle : mount_handle) (content : bytes) (dest : string)
    : M ltfs file_instance :=
  instance ← write_bytes now (inl handle) dest content None None;
  match instance with Some i => mret i | None => raise AssertionError end.

(** ** Reading *)
Fixpoint first_content (ts : list tape) (path : string) : option bytes :=
  match ts with
  | [] => None
  | t :: ts =>
      match dget (tp_files t) path with
      | Some r => Some (fr_content r)
      | None => first_content ts path
      end
  end.

Definition read_bytes (barcode_or_path : string) (path : option string)
    : M ltfs (option bytes) :=
  match path with
  | None =>
      lt_maybe_raise_injected_fault InjectedFaultType.READ_ERROR "";;
      gets (λ s, first_content (dvalues (tapes s)) barcode_or_path)
  | Some p =>
      b ← liftR (Barcode barcode_or_path);
      lt_maybe_raise_injected_fault InjectedFaultType.READ_ERROR b;;
      key ← ensure_tape barcode_or_path;
      tape ← index_tape key;
      mret (fr_content <$> dget (tp_files tape) p)
  end.

(** The bytes [read_file] writes to the destination, with its result. *)
Definition read_file (handle : mount_handle) (source : string)
    : M ltfs (bytes * operation_result) :=
  lt_maybe_raise_injected_fault InjectedFaultType.READ_ERROR (mh_barcode handle);;
  _require_active_mount handle;;
  key ← ensure_tape (mh_barcode handle);
  tape ← index_tape key;
  match dget (tp_files tape) source with
  | None => raise OpenBladeFileNotFoundError
  | Some record =>
      let payload := fr_content record in
      let checksum := sha256_hex payload in
      flip ← _should_flip_checksum (mh_barcode handle);
      let checksum := if (flip : bool) then _flip_checksum checksum else checksum in
      mret (payload, OperationResult true "read"
                       [("path", JStr source); ("checksum", JStr checksum)])
  end.

Definition stat (handle : mount_handle) (path : string) : M ltfs ltfs_file_stat :=
  _require_active_mount handle;;
  key ← ensure_tape (mh_barcode handle);
  tape ← index_tape key;
  match dget (tp_files tape) path with
  | None => raise OpenBladeFileNotFoundError
  | Some record =>
      flip ← _should_flip_checksum (mh_barcode handle);
      let checksum := fr_checksum_sha256 record in
      let checksum := if (flip : bool) then _flip_checksum checksum else checksum in
      mret (LTFSFileStat path (fr_size_bytes record) checksum (fr_modified_at record))
  end.

Definition remaining_capacity (bc : string) : M ltfs Z :=
  key ← ensure_tape bc;
  tape ← index_tape key;
  mret (Z.max 0 (tp_capacity_bytes tape - tp_used_bytes tape)).

(** * Snapshots *)
Section snapshots.
Context `{DateTime}.

Definition record_to_json (r : file_record) : json :=
  JObj [ ("tape_path", JStr (fr_tape_path r)); ("size_bytes", JInt (fr_size_bytes r));
         ("checksum_sha256", JStr (fr_checksum_sha256 r));
         ("content_hex", JStr (hex (fr_content r)));
         ("modified_at", JStr (isoformat (fr_modified_at r))) ].

Definition record_of_json (j : json) : result file_record :=
  d ← as_obj j;
  path ← jindex d "tape_path" ≫= as_str;
  size ← jindex d "size_bytes" ≫= coerce_int;
  sum ← jindex d "checksum_sha256" ≫= as_str;
  content ← (jindex d "content_hex" ≫= as_str) ≫= fromhex;
  at_ ← (jindex d "modified_at" ≫= as_str) ≫= fromisoformat;
  Ok (MockFileRecord path size sum content at_).

Definition tape_to_json (t : tape) : json :=
  JObj [ ("barcode", JStr (tp_barcode t)); ("capacity_bytes", JInt (tp_capacity_bytes t));
         ("used_bytes", JInt (tp_used_bytes t)); ("formatted", JBool (tp_formatted t));
         ("mount_state", JStr (enum_value (tp_mount_state t)));
         ("files", JObj (dmap record_to_json (tp_files t))) ].

(** A comprehension over the items of a decoded object. *)
Definition items_of_json {A} (f : json → result A) (d : dict string json)
    : result (dict string A) :=
  dict_of <$> mapR (λ kv, x ← f kv.2; Ok (kv.1, x)) d.

Definition tape_of_json (j : json) : result tape :=
  d ← as_obj j;
  bc ← jindex d "barcode" ≫= as_str;
  cap ← jindex d "capacity_bytes" ≫= coerce_int;
  used ← coerce_int (dget_or d "used_bytes" (JInt 0));
  raw_files ← as_obj (dget_or d "files" (JObj []));
  files ← items_of_json record_of_json raw_files;
  let formatted := truthy (dget_or d "formatted" (JBool false)) in
  ms ← as_str (dget_or d "mount_state" (JStr (enum_value MountState.UNMOUNTED)))
         ≫= enum_of_value;
  Ok (MockTapeContents bc cap used files formatted ms).

Definition ltfs_to_json (s : ltfs) : dict string json :=
  [ ("capacity_bytes", JInt (lt_capacity_bytes s));
    ("fault_config", JObj (FaultConfig_to_json (lt_fault_config s)));
    ("tapes", JObj (dmap tape_to_json (tapes s))) ].

Definition default_tapes (lib : library) (cap : Z) (d : dict string tape) : dict string tape :=
  foldl (λ d b, dsetdefault d b (blank_tape b cap)) d (get_all_barcodes lib).

Definition ltfs_from_json (lib : library) (raw : dict string json) : result ltfs :=
  cap ← coerce_int (dget_or raw "capacity_bytes" (JInt 12000000000));
  fc ← FaultConfig_from_json (jget raw "fault_config");
  raw_tapes ← as_obj (dget_or raw "tapes" (JObj []));
  ts ← items_of_json tape_of_json raw_tapes;
  Ok (Ltfs lib cap fc NoInjector (default_tapes lib cap ts) []).
End snapshots.

(** * Well-formedness *)
Definition file_bytes (d : dict string file_record) : Z :=
  foldr Z.add 0 (fr_size_bytes <$> dvalues d).

(** The accounting of one tape: distinct paths, records filed under their own
    path, and [used_bytes] the sum of the sizes, within the capacity. *)
Record tape_ok (k : string) (t : tape) : Prop := {
  tk_key : tp_barcode t = k;
  tk_valid : Barcode k = Ok k;
  tk_cap : 0 ≤ tp_capacity_bytes t;
  tk_files : dict_wf (tp_files t);
  tk_paths : Forall (λ kv, fr_tape_path kv.2 = kv.1) (tp_files t);
  tk_used : tp_used_bytes t = file_bytes (tp_files t);
  tk_room : tp_used_bytes t ≤ tp_capacity_bytes t;
}.

(** An active mount: its fields are those of its handle, no write is pending,
    its tape is formatted and sits in its drive, which is in the mount state of
    its mode. *)
Record mount_ok (s : ltfs) (hid : string) (m : active_mount) : Prop := {
  mk_id : mh_handle_id (am_handle m) = hid;
  mk_handle : am_barcode m = mh_barcode (am_handle m) ∧
              am_drive_id m = mh_drive_id (am_handle m) ∧ am_mode m = mh_mode (am_handle m);
  mk_flags : am_active m = true ∧ am_write_in_progress m = false;
  mk_dirty : am_dirty m = true → am_mode m = MountMode.READ_WRITE;
  mk_tape : ∃ t, dget (tapes s) (am_barcode m) = Some t ∧ tp_formatted t = true;
  mk_drive : ∃ dr, dget (drives (lt_library s)) (am_drive_id m) = Some dr ∧
               drive_barcode dr = Some (am_barcode m) ∧
               drive_mount_state dr = target_mount_state (am_mode m);
}.

Definition mounts_exclusive (d : dict string active_mount) : Prop :=
  ∀ hid m hid' m', dget d hid = Some m → dget d hid' = Some m' →
    am_barcode m = am_barcode m' → am_mode m = MountMode.READ_WRITE → hid = hid'.

Record lt_inv (s : ltfs) : Prop := {
  li_lib : lib_inv (lt_library s);
  li_cap : 0 ≤ lt_capacity_bytes s;
  li_tapes_wf : dict_wf (tapes s);
  li_tapes : ∀ k t, dget (tapes s) k = Some t → tape_ok k t;
  li_mounts_wf : dict_wf (active_mounts s);
  li_mounts : ∀ hid m, dget (active_mounts s) hid = Some m → mount_ok s hid m;
  li_exclusive : mounts_exclusive (active_mounts s);
}.

(** The contents a client sees: the bytes stored under a path of a tape. *)
Definition content_at (s : ltfs) (b p : string) : option bytes :=
  t ← dget (tapes s) b; fr_content <$> dget (tp_files t) p.

(** [ext s s']: at most the fault injector moved and blank tapes were added. *)
Record ext (s s' : ltfs) : Prop := {
  ext_mounts : active_mounts s' = active_mounts s;
  ext_cap : lt_capacity_bytes s' = lt_capacity_bytes s;
  ext_fc : lt_fault_config s' = lt_fault_config s;
  ext_lib : lt_library s' = with_injector (lib_injector (lt_library s')) (lt_library s);
  ext_inj : lt_injector s = NoInjector → lt_injector s' = NoInjector ∧ lt_library s' = lt_library s;
  ext_wf : dict_wf (tapes s) → dict_wf (tapes s');
  ext_old : ∀ k t, dget (tapes s) k = Some t → dget (tapes s') k = Some t;
  ext_new : ∀ k t, dget (tapes s') k = Some t → dget (tapes s) k = Some t ∨
              dget (tapes s) k = None ∧ t = blank_tape k (lt_capacity_bytes s) ∧ Barcode k = Ok k;
}.

(** * Lemmas *)

Lemma ext_refl s : ext s s.
Proof. split; auto. by destruct s as [[] ? ? ? ? ?]. Qed.

Lemma ext_trans s1 s2 s3 : ext s1 s2 → ext s2 s3 → ext s1 s3.
Proof.
  intros [] []. split; try congruence; eauto.
  - rewrite ext_lib1, ext_lib0. done.
  - intros H. destruct (ext_inj0 H) as [H' ?]. destruct (ext_inj1 H'). by split; congruence.
  - intros k t Hk. destruct (ext_new1 k t Hk) as [Hk'|(Hk' & -> & ?)]; [by auto|].
    right. rewrite ext_cap0. split_and!; [|done..].
    destruct (dget (tapes s1) k) eqn:He; [|done]. apply ext_old0 in He. congruence.
Qed.

Lemma ext_drives s s' : ext s s' → drives (lt_library s') = drives (lt_library s).
Proof. intros []. by rewrite ext_lib0. Qed.

Lemma ext_content s s' b p : ext s s' → content_at s' b p = content_at s b p.
Proof.
  intros [_ _ _ _ _ _ Hold Hnew]. unfold content_at.
  destruct (dget (tapes s') b) as [t|] eqn:Hb; simpl.
  - by destruct (Hnew _ _ Hb) as [Ht | (Ht & -> & _)]; rewrite Ht.
  - destruct (dget (tapes s) b) as [t|] eqn:Hb'; [|done]. apply Hold in Hb'. congruence.
Qed.

Lemma with_injector_media i l : same_media l (with_injector i l).
Proof. done. Qed.

Lemma blank_tape_ok k cap : Barcode k = Ok k → 0 ≤ cap → tape_ok k (blank_tape k cap).
Proof. split; simpl; try done. constructor. Qed.

Lemma ext_inv s s' : ext s s' → lt_inv s → lt_inv s'.
Proof.
  intros Hext Hinv. pose proof (ext_drives _ _ Hext) as Hd. destruct Hext, Hinv. split.
  - rewrite ext_lib0. by apply (same_media_inv (lt_library s)).
  - congruence.
  - auto.
  - intros k t Hk. destruct (ext_new0 _ _ Hk) as [?|(_ & -> & ?)]; [by auto|].
    by apply blank_tape_ok.
  - by rewrite ext_mounts0.
  - intros hid m. rewrite ext_mounts0. intros Hm. destruct (li_mounts0 _ _ Hm).
    split; try done; [|by rewrite Hd]. destruct mk_tape0 as (t & Ht & ?). eauto.
  - by rewrite ext_mounts0.
Qed.

(** ** Rules for the operations on parts of the state *)
Lemma maybe_fault_cases ft tgt o :
  ∃ o', (maybe_raise_injected_fault ft tgt o = (Ok tt, o') ∨
         ∃ msg, maybe_raise_injected_fault ft tgt o = (Raise (SimulatorFaultError msg), o')) ∧
        (o = None → o' = None ∧ maybe_raise_injected_fault ft tgt o = (Ok tt, None)) ∧
        (is_Some o → is_Some o').
Proof.
  destruct o as [fi|]; simpl; [|by exists None; eauto].
  destruct (should_fault_total ft tgt fi) as [b Hb].
  destruct (should_fault ft tgt fi) as [r fi']. simpl in Hb. subst r.
  exists (Some fi'). split_and!; [destruct b; eauto | done | eauto].
Qed.

Lemma set_injector_ext s o :
  (lt_injector_value s = None → o = None) → (is_Some (lt_injector_value s) → is_Some o) →
  ext s (set_lt_injector_value o s).
Proof.
  unfold lt_injector_value, set_lt_injector_value. intros HN HS.
  destruct s as [[] ? ? [| |fi] ? ?]; simpl in *.
  - apply ext_refl.
  - by split; auto.
  - destruct HS as [fi' ->]; [eauto|]. by split; auto.
Qed.

Lemma wp_fault ft tgt (Q : () → ltfs → Prop) (E : exn → ltfs → Prop) s :
  (∀ s', ext s s' → Q tt s') → (∀ msg s', ext s s' → E (SimulatorFaultError msg) s') →
  wp (lt_maybe_raise_injected_fault ft tgt) Q E s.
Proof.
  intros HQ HE. unfold lt_maybe_raise_injected_fault. wp_step.
  destruct (maybe_fault_cases ft tgt (lt_injector_value s)) as (o' & Hrun & Hnone & Hsome).
  assert (ext s (set_lt_injector_value o' s)) as Hext.
  { apply set_injector_ext; [|done]. intros Hs. by destruct (Hnone Hs). }
  apply wp_unfold. destruct Hrun as [-> | [msg ->]]; eauto.
Qed.

Definition ensure_error (bc : string) (e : exn) : Prop :=
  (e = ValueError ∧ Barcode bc = Raise ValueError) ∨ e = CartridgeNotFoundError ∨
  ∃ msg, e = SimulatorFaultError msg.

Lemma Barcode_raise bc e : Barcode bc = Raise e → e = ValueError.
Proof. unfold Barcode. by case_match; intros [= <-]. Qed.

Lemma wp_ensure bc (Q : string → ltfs → Prop) (E : exn → ltfs → Prop) s :
  (∀ key t s', Barcode bc = Ok key → ext s s' → dget (tapes s') key = Some t → Q key s') →
  (∀ e s', ext s s' → ensure_error bc e → E e s') → wp (ensure_tape bc) Q E s.
Proof.
  intros HQ HE. unfold ensure_tape. do 2 wp_step.
  2: { apply HE; [apply ext_refl|]. left. split; [by eapply Barcode_raise|].
       by destruct (Barcode_raise _ _ H). }
  rename a into key, H into Hkey. wp_step. apply wp_fault.
  2: { intros. apply HE; [done|]. right; right. eauto. }
  intros s1 Hext. do 2 wp_step. wp_step. destruct (dmem (tapes s1) key) eqn:Hmem.
  { do 2 wp_step. unfold dmem in Hmem. destruct (dget (tapes s1) key) eqn:Hk; [|done]. eauto. }
  unfold dmem in Hmem. destruct (dget (tapes s1) key) eqn:Hk; [done|].
  case_bool_decide; [|wp_step; apply HE; [done|]; by right; left].
  do 2 wp_step. eapply HQ; [done | | simpl; apply dget_dset_eq].
  eapply ext_trans; [exact Hext|]. split; simpl; try done.
  - by destruct s1 as [[] ? ? ? ? ?].
  - by apply dict_wf_dset.
  - intros k t Ht. rewrite dget_dset_ne; [done|]. congruence.
  - intros k t. rewrite dget_dset. case_decide; [|by left]. intros [= <-]. subst k. right.
    split_and!; [done..|]. by eapply Barcode_idemp.
Qed.

Lemma wp_index_tape key t (Q : tape → ltfs → Prop) E s :
  dget (tapes s) key = Some t → Q t s → wp (index_tape key) Q E s.
Proof. intros Ht HQ. apply wp_unfold. unfold index_tape, dindex. by rewrite Ht. Qed.

(** What [set_drive_mount_state] does to a consistent library. *)
Lemma set_mount_cases k ms l : lib_inv l →
  (∃ e, set_drive_mount_state k ms l = (Raise e, l)) ∨
  ∃ dr ds, dget (drives l) k = Some dr ∧
    validate_mount_transition (drive_mount_state dr) ms = Ok tt ∧
    let l' := with_drives (dset (drives l) k
                (MockDrive (drive_id dr) (drive_barcode dr) ds ms)) l in
    set_drive_mount_state k ms l = (Ok tt, l') ∧ lib_inv l'.
Proof.
  intros Hinv. pose proof (set_drive_mount_state_inv k ms l Hinv) as Hinv'. revert Hinv'.
  unfold set_drive_mount_state. unfold_body.
  destruct (dget (drives l) k) as [dr|] eqn:Hk; [|by left; eauto].
  destruct (mount_validate_cases (drive_mount_state dr) ms) as [Hm|Hm]; rewrite Hm;
    [|by left; eauto].
  set (ds := if bool_decide _ then _ else _).
  destruct (drive_validate_cases (drive_drive_state dr) ds) as [Hv|Hv]; rewrite Hv;
    [|by left; eauto].
  simpl. rewrite Hk. intros Hinv'. right. exists dr, ds. split; [done|]. split; [done|].
  assert (lib_inv (with_drives (dset (drives l) k
    (MockDrive (drive_id dr) (drive_barcode dr) ds ms)) l)) as Hi.
  { unfold _validate_invariants_locked in Hinv'. by destruct (invariants_hold _). }
  split; [by rewrite validate_inv | done].
Qed.

Lemma wp_set_mount k ms (Q : () → ltfs → Prop) (E : exn → ltfs → Prop) s :
  lib_inv (lt_library s) →
  (∀ dr ds, dget (drives (lt_library s)) k = Some dr →
     let l' := with_drives (dset (drives (lt_library s)) k
                 (MockDrive (drive_id dr) (drive_barcode dr) ds ms)) (lt_library s) in
     lib_inv l' → Q tt (with_library l' s)) →
  (∀ e, E e s) → wp (on_library (set_drive_mount_state k ms)) Q E s.
Proof.
  intros Hinv HQ HE. unfold on_library. wp_step. apply wp_unfold.
  destruct (set_mount_cases k ms _ Hinv) as [[e ->]|(dr & ds & Hk & _ & -> & Hi)].
  - specialize (HE e). by destruct s.
  - by apply HQ.
Qed.

(** A drive already in the mount state of an active mount stays as it is. *)
Lemma set_mount_idem k l dr b : lib_inv l →
  dget (drives l) k = Some dr → drive_barcode dr = Some b →
  drive_mount_state dr = MountState.MOUNTED_RW →
  set_drive_mount_state k MountState.MOUNTED_RW l = (Ok tt, l).
Proof.
  intros Hinv Hk Hb Hm. unfold set_drive_mount_state. unfold_body. rewrite Hk, Hm. simpl.
  destruct (Forall_dget _ _ _ _ (proj2 (inv_drives _ Hinv)) Hk) as [_ Hok].
  unfold drive_ok in Hok. simpl in Hok. rewrite Hb in Hok. destruct Hok as [_ Hbusy].
  assert (drive_drive_state dr = DriveState.BUSY) as Hds by (apply Hbusy; by rewrite Hm).
  rewrite Hds. simpl. rewrite Hk.
  assert (MockDrive (drive_id dr) (drive_barcode dr) DriveState.BUSY MountState.MOUNTED_RW = dr)
    as -> by (destruct dr; simpl in *; congruence).
  rewrite dset_id by done. rewrite validate_inv; destruct l; done.
Qed.

Lemma wp_put_tape key t f (Q : () → ltfs → Prop) E s :
  dget (tapes s) key = Some t → Q tt (with_tapes (dset (tapes s) key (f t)) s) →
  wp (put_tape key f) Q E s.
Proof. intros Ht HQ. unfold put_tape. wp_step. by rewrite Ht. Qed.

Lemma wp_put_mount hid m f (Q : () → ltfs → Prop) E s :
  dget (active_mounts s) hid = Some m →
  Q tt (with_mounts (dset (active_mounts s) hid (f m)) s) → wp (put_mount hid f) Q E s.
Proof. intros Hm HQ. unfold put_mount. wp_step. by rewrite Hm. Qed.

Lemma wp_require handle (Q : active_mount → ltfs → Prop) (E : exn → ltfs → Prop) s :
  (∀ m, dget (active_mounts s) (mh_handle_id handle) = Some m → am_active m = true → Q m s) →
  E CartridgeNotFoundError s → wp (_require_active_mount handle) Q E s.
Proof.
  intros HQ HE. apply wp_unfold. unfold _require_active_mount.
  destruct (dget _ _) as [m|]; [|done]. destruct (am_active m) eqn:?; auto.
Qed.

(** ** Updates that keep the invariant *)
Lemma dget_filter {V} (P : string * V → Prop) `{∀ x, Decision (P x)} (d : dict string V) k v :
  dict_wf d → dget (filter P d) k = Some v → dget d k = Some v ∧ P (k, v).
Proof.
  intros Hd [HP Hin]%dget_Some_elem%list_elem_of_filter. split; [by apply elem_dget | done].
Qed.

Lemma dict_wf_filter {V} (P : string * V → Prop) `{∀ x, Decision (P x)} (d : dict string V) :
  dict_wf d → dict_wf (filter P d).
Proof.
  unfold dict_wf. induction d as [|kv d IH]; [done|]. rewrite fmap_cons, NoDup_cons, filter_cons.
  intros [Hk Hd]. case_decide; [|auto]. rewrite fmap_cons, NoDup_cons. split; [|auto].
  intros Hin. apply Hk. apply list_elem_of_fmap in Hin as (x & -> & [_ Hx]%list_elem_of_filter).
  apply list_elem_of_fmap. eauto.
Qed.

Lemma file_bytes_dset d k r :
  file_bytes (dset d k r) =
  file_bytes d - match dget d k with Some r0 => fr_size_bytes r0 | None => 0 end + fr_size_bytes r.
Proof.
  unfold file_bytes, dvalues. induction d as [|[k' r'] d IH]; csimpl; [lia|].
  case_decide; csimpl; lia.
Qed.

Lemma store_file_ok key t r used :
  tape_ok key t → used = projected_used_bytes t (fr_tape_path r) (fr_size_bytes r) →
  used ≤ tp_capacity_bytes t → tape_ok key (store_file r used t).
Proof.
  intros [] -> ?. split; simpl; try done; auto with openblade.
  - by apply Forall_dset.
  - unfold projected_used_bytes, previous_size. rewrite file_bytes_dset. lia.
Qed.

Lemma set_state_ok key t ms : tape_ok key t → tape_ok key (set_tape_mount_state ms t).
Proof. by intros []; split. Qed.

Lemma inv_put_tape s key t t' :
  lt_inv s → dget (tapes s) key = Some t → tape_ok key t' →
  (tp_formatted t = true → tp_formatted t' = true) →
  lt_inv (with_tapes (dset (tapes s) key t') s).
Proof.
  intros [] Ht Hok Hf. split; simpl; try done; [by apply dict_wf_dset | |].
  - intros k t0. rewrite dget_dset. case_decide; [|auto]. by intros [= <-]; subst.
  - intros hid m Hm. destruct (li_mounts0 _ _ Hm). split; try done.
    destruct mk_tape0 as (t0 & Ht0 & ?). simpl. rewrite dget_dset.
    case_decide; [subst; simplify_eq; eauto | eauto].
Qed.

Lemma inv_sub_mounts s d :
  lt_inv s → dict_wf d →
  (∀ hid m, dget d hid = Some m → dget (active_mounts s) hid = Some m) →
  lt_inv (with_mounts d s).
Proof.
  intros [] Hd Hsub. split; simpl; try done.
  - intros hid m Hm. by destruct (li_mounts0 _ _ (Hsub _ _ Hm)).
  - intros hid m hid' m' Hm Hm'. eauto.
Qed.

Lemma inv_set_drive s k dr ds ms :
  lt_inv s → dget (drives (lt_library s)) k = Some dr →
  (∀ hid m, dget (active_mounts s) hid = Some m → am_drive_id m = k →
     target_mount_state (am_mode m) = ms) →
  let l' := with_drives (dset (drives (lt_library s)) k
              (MockDrive (drive_id dr) (drive_barcode dr) ds ms)) (lt_library s) in
  lib_inv l' → lt_inv (with_library l' s).
Proof.
  intros [] Hk Hms l' Hl'. split; simpl; try done.
  intros hid m Hm. destruct (li_mounts0 _ _ Hm). split; try done. simpl.
  destruct mk_drive0 as (dr0 & Hdr0 & Hb & Hmode). rewrite dget_dset. case_decide; [|eauto].
  subst k. simplify_eq. eexists. split_and!; [done | done |]. symmetry. eauto.
Qed.

Lemma inv_add_mount s hid m :
  lt_inv s → dget (active_mounts s) hid = None → mount_ok s hid m →
  (∀ hid' m', dget (active_mounts s) hid' = Some m' → am_barcode m' = am_barcode m →
     am_mode m = MountMode.READ_ONLY ∧ am_mode m' = MountMode.READ_ONLY) →
  lt_inv (with_mounts (dset (active_mounts s) hid m) s).
Proof.
  intros [] Hhid Hok Hex. split; simpl; try done; [by apply dict_wf_dset | |].
  - intros hid' m'. rewrite dget_dset. case_decide; [intros [= <-]; subst|intros Hm'].
    + by destruct Hok.
    + by destruct (li_mounts0 _ _ Hm').
  - intros h1 m1 h2 m2. rewrite !dget_dset. repeat case_decide; subst.
    + done.
    + intros [= <-] Hm2 Heq Hrw. destruct (Hex _ _ Hm2); [done | congruence].
    + intros Hm1 [= <-] Heq Hrw. destruct (Hex _ _ Hm1); [done | congruence].
    + eauto.
Qed.

(** The drive that [find_drive_by_barcode] finds holds the cartridge. *)
Lemma find_drive_spec bc l d b : lib_inv l →
  find_drive_by_barcode bc l = Ok (Some d) → Barcode bc = Ok b →
  ∃ dr, dget (drives l) d = Some dr ∧ drive_barcode dr = Some b.
Proof.
  intros Hinv Hf Hb. unfold find_drive_by_barcode in Hf. rewrite Hb in Hf. simpl in Hf.
  destruct (list_find _ _) as [[i [k dr]]|] eqn:Hfind; simplify_eq/=.
  apply list_find_Some in Hfind as (Hin & ? & _).
  exists dr. split; [|done]. apply elem_dget; [apply Hinv|]. by eapply list_elem_of_lookup_2.
Qed.

Lemma elem_active_for s b hid m :
  dget (active_mounts s) hid = Some m → am_barcode m = b → m ∈ active_for b s.
Proof.
  intros Hm%dget_Some_elem Hb. unfold active_for, dvalues. apply list_elem_of_filter.
  split; [done|]. apply list_elem_of_fmap. by exists (hid, m).
Qed.

Lemma active_for_elem s b m :
  dict_wf (active_mounts s) → m ∈ active_for b s →
  am_barcode m = b ∧ ∃ hid, dget (active_mounts s) hid = Some m.
Proof.
  unfold active_for, dvalues. rewrite list_elem_of_filter, list_elem_of_fmap.
  intros Hwf (Hb & [hid m'] & -> & Hin). split; [done|]. exists hid. by apply elem_dget.
Qed.

Lemma mount_drive_barcode s hid m k dr b :
  lt_inv s → dget (active_mounts s) hid = Some m → am_drive_id m = k →
  dget (drives (lt_library s)) k = Some dr → drive_barcode dr = Some b → am_barcode m = b.
Proof.
  intros Hinv Hm <- Hk Hb. destruct (li_mounts _ Hinv _ _ Hm).
  destruct mk_drive0 as (dr' & ? & ? & ?). simplify_eq. congruence.
Qed.

(** ** Every operation keeps the invariant *)
Notation keeps m := (∀ s, lt_inv s → wp m (λ _, lt_inv) (λ _, lt_inv) s).

Lemma format_keeps now bc conf : keeps (format now bc conf).
Proof.
  intros s Hinv. unfold format. destruct conf as [c|]; [|by wp_step].
  do 2 wp_step; [|done]. wp_step.
  apply wp_ensure; [|by intros; eapply ext_inv]. intros key t s1 Hkey Hext Ht.
  apply (ext_inv _ _ Hext) in Hinv. destruct (li_tapes _ Hinv _ _ Ht) eqn:Hok. clear Hok.
  wp_step. eapply wp_put_tape; [done|].
  match goal with |- context [dset _ key ?x] => set (t1 := x) end.
  assert (tape_ok key t1) as Hok1 by (split; simpl; try done; constructor).
  eapply inv_put_tape in Hinv; [|done|exact Hok1|done].
  wp_step. eapply wp_index_tape; [simpl; apply dget_dset_eq|].
  wp_step. wp_step.
  match goal with |- wp _ _ _ ?x => set (s2 := x) end.
  assert (lt_inv s2) as Hinv2.
  { apply inv_sub_mounts; [done | by apply dict_wf_filter, Hinv |].
    intros hid m Hm. by apply dget_filter in Hm as [??]; [|apply Hinv]. }
  do 4 wp_step; [|done]. wp_step. destruct a0 as [d|]; [|by do 2 wp_step].
  destruct (find_drive_spec _ _ _ _ (li_lib _ Hinv2) H0 Hkey) as (dr & Hdr & Hb).
  apply wp_set_mount; [by destruct Hinv2 | | done].
  intros dr' ds Hdr' l' Hl'. wp_step. apply inv_set_drive; [done..| |done].
  intros hid m Hm Hd. exfalso.
  assert (am_barcode m = key) as Heq by by apply (mount_drive_barcode s2 hid m d dr).
  apply dget_filter in Hm as [_ Hne]; [|by apply Hinv]. apply Hne. simpl. by rewrite tk_key0.
Qed.

(** The exclusivity test of [mount], on a list that is not empty. *)
Lemma mount_test_false mode ms :
  bool_decide (ms ≠ []) &&
    (bool_decide (mode = MountMode.READ_WRITE) ||
     existsb (λ m, bool_decide (am_mode m = MountMode.READ_WRITE)) ms) = false →
  ∀ m, m ∈ ms → mode = MountMode.READ_ONLY ∧ am_mode m = MountMode.READ_ONLY.
Proof.
  intros Ht m Hm. rewrite bool_decide_true in Ht by (intros ->; by apply elem_of_nil in Hm).
  simpl in Ht. apply orb_false_iff in Ht as [H1 H2].
  apply bool_decide_eq_false in H1. split; [by destruct mode|].
  destruct (am_mode m) eqn:Hmode; [done|].
  assert (existsb (λ m, bool_decide (am_mode m = MountMode.READ_WRITE)) ms = true); [|congruence].
  apply existsb_exists. exists m. rewrite Hmode. by rewrite <-list_elem_of_In.
Qed.

Lemma mount_keeps uuid bc mode s :
  lt_inv s → Barcode bc = Ok bc → dget (active_mounts s) uuid = None →
  wp (mount uuid bc mode) (λ _, lt_inv) (λ _, lt_inv) s.
Proof.
  intros Hinv Hbc Hfresh. unfold mount. do 2 wp_step; [|done]. simplify_eq.
  wp_step. apply wp_fault; [|by intros; eapply ext_inv]. intros s1 H1.
  apply (ext_inv _ _ H1) in Hinv. rewrite <-(ext_mounts _ _ H1) in Hfresh.
  wp_step. apply wp_fault; [|by intros; eapply ext_inv]. intros s2 H2.
  apply (ext_inv _ _ H2) in Hinv. rewrite <-(ext_mounts _ _ H2) in Hfresh.
  do 4 wp_step; [done|]. do 2 wp_step; [|done]. destruct a0 as [d|]; [|done].
  destruct (find_drive_spec _ _ _ _ (li_lib _ Hinv) H3 Hbc) as (dr & Hdr & Hb).
  wp_step. apply wp_ensure; [|by intros; eapply ext_inv]. intros key t s3 Hkey H4 Ht.
  assert (bc = key) as -> by congruence. pose proof (ext_drives _ _ H4) as Hd3. rewrite <-Hd3 in Hdr.
  apply (ext_inv _ _ H4) in Hinv. rewrite <-(ext_mounts _ _ H4) in Hfresh.
  destruct (li_tapes _ Hinv _ _ Ht) eqn:Hok. clear Hok.
  wp_step. eapply wp_index_tape; [done|]. do 2 wp_step; [done|]. do 4 wp_step; [done|].
  rename H5 into Hfmt, H6 into Htest.
  pose proof (mount_test_false _ _ Htest) as Hro. apply negb_false_iff in Hfmt. wp_step.
  assert (∀ s', lt_inv s' → active_mounts s' = active_mounts s3 →
    (∃ t', dget (tapes s') key = Some t' ∧ tp_formatted t' = true) →
    (∃ dr', dget (drives (lt_library s')) d = Some dr' ∧ drive_barcode dr' = Some key ∧
            drive_mount_state dr' = target_mount_state mode) →
    wp (b ← liftR (Barcode key);
        let handle := MountHandle uuid b d mode ("mock-mount/" ++ key) in
        modify (λ s, with_mounts
          (dset (active_mounts s) (mh_handle_id handle)
             (ActiveMount handle (tp_barcode t) d mode true false false)) s);;
        mret handle) (λ _, lt_inv) (λ _, lt_inv) s') as Hlast.
  { intros s' Hinv' Hm' Ht' Hd'. do 2 wp_step; [|done]. cbv zeta. do 3 wp_step.
    assert (a0 = key) as -> by congruence. rewrite tk_key0.
    apply inv_add_mount; [done | by rewrite Hm' | |].
    - by split; simpl.
    - intros hid' m'. rewrite Hm'. simpl. intros Hm Heq.
      apply Hro. eapply elem_active_for; [done | congruence]. }
  wp_step; rename H5 into Hact; [|apply Hlast; [done | done | by eauto |]].
  - apply bool_decide_eq_true in Hact. wp_step. apply wp_set_mount; [apply Hinv| |done].
    intros dr' ds Hdr' l' Hl'. simplify_eq.
    eapply wp_put_tape; [done|]. apply Hlast.
    + eapply (inv_put_tape (with_library l' s3)); [|done| |done].
      * apply inv_set_drive; [done..| |done]. intros hid m Hm Hdm. exfalso.
        assert (m ∈ active_for (tp_barcode t) s3) as Hin.
        { eapply elem_active_for; [done|]. by apply (mount_drive_barcode s3 hid m d dr). }
        rewrite Hact in Hin. by apply elem_of_nil in Hin.
      * by split.
    + done.
    + simpl. rewrite dget_dset_eq. by eexists.
    + simpl. rewrite dget_dset_eq. by eexists.
  - apply bool_decide_eq_false in Hact. destruct (active_for key s3) as [|m ms] eqn:Hlist; [done|].
    destruct (active_for_elem s3 key m) as [Hmb [hid Hm]];
      [apply Hinv | rewrite Hlist; by left |].
    destruct (Hro m) as [-> Hmode]; [by left|].
    destruct (li_mounts _ Hinv _ _ Hm). destruct mk_drive0 as (dr' & Hdr' & Hb' & Hst).
    assert (am_drive_id m = d) as <-; [|by exists dr'; rewrite Hmode in Hst; simplify_eq].
    destruct (li_lib _ Hinv) as [_ _ _ _ Hnd _ _].
    apply NoDup_app in Hnd as (_ & _ & Hnd).
    apply (omap_key_inj drive_barcode (drives (lt_library s3)) _ _ dr' dr key);
      [done..|congruence|done].
Qed.

(** Handles are the ones [mount] returned: a live id belongs to its handle. *)
Definition genuine (s : ltfs) (h : mount_handle) : Prop :=
  ∀ m, dget (active_mounts s) (mh_handle_id h) = Some m → am_handle m = h.

Lemma genuine_ext s s' h : ext s s' → genuine s h → genuine s' h.
Proof. intros Hext Hg m. rewrite (ext_mounts _ _ Hext). auto. Qed.

(** The state a tape is left in by [unmount], given the other mounts of it. *)
Definition unmounted_state (m : active_mount) (remaining : list active_mount) : mount_state :=
  if am_write_in_progress m || am_dirty m then MountState.DIRTY
  else if existsb (λ m, bool_decide (am_mode m = MountMode.READ_WRITE)) remaining
  then MountState.MOUNTED_RW
  else if bool_decide (remaining ≠ []) then MountState.MOUNTED_RO
  else MountState.UNMOUNTED.

Lemma unmounted_state_ok s hid m hid' m' rest :
  lt_inv s → dget (active_mounts s) hid = Some m → dget (active_mounts s) hid' = Some m' →
  hid ≠ hid' → am_barcode m' = am_barcode m → m' ∈ rest →
  (∀ x, x ∈ rest → am_barcode x = am_barcode m ∧ ∃ h, h ≠ hid ∧ dget (active_mounts s) h = Some x) →
  target_mount_state (am_mode m') = unmounted_state m rest.
Proof.
  intros Hinv Hm Hm' Hne Hb Hin Hrest.
  assert (∀ x, x ∈ rest → am_mode x = MountMode.READ_ONLY) as Hro.
  { intros x Hx. destruct (Hrest _ Hx) as (Hxb & h & Hh & Hxm).
    destruct (am_mode x) eqn:Hmode; [done|]. destruct Hh.
    by apply (li_exclusive _ Hinv h x hid m). }
  assert (am_mode m = MountMode.READ_ONLY) as Hmro.
  { destruct (am_mode m) eqn:Hmode; [done|]. destruct Hne.
    by apply (li_exclusive _ Hinv hid m hid' m'). }
  destruct (li_mounts _ Hinv _ _ Hm). destruct mk_flags0 as [_ Hwip].
  unfold unmounted_state. rewrite Hwip, (Hro m' Hin). simpl.
  destruct (am_dirty m); [by specialize (mk_dirty0 eq_refl); congruence|].
  assert (existsb (λ m, bool_decide (am_mode m = MountMode.READ_WRITE)) rest = false) as ->.
  { apply not_true_is_false. intros (x & Hx & Hxm)%existsb_exists.
    apply list_elem_of_In in Hx. apply bool_decide_eq_true in Hxm. rewrite Hro in Hxm; done. }
  rewrite bool_decide_true; [done|]. intros ->. by apply elem_of_nil in Hin.
Qed.

Lemma dget_ddel_Some {V} (d : dict string V) k k' v :
  dict_wf d → dget (ddel d k) k' = Some v → k ≠ k' ∧ dget d k' = Some v.
Proof. intros Hd. rewrite dget_ddel by done. by case_decide. Qed.

Lemma unmount_keeps h s :
  lt_inv s → genuine s h → wp (unmount h) (λ _, lt_inv) (λ _, lt_inv) s.
Proof.
  intros Hinv Hg. unfold unmount. do 2 wp_step. wp_step; [|done].
  rename a into m, Heqo into Hm. specialize (Hg _ Hm).
  do 2 wp_step; [done|]. do 2 wp_step.
  set (hid := mh_handle_id h) in *. set (d := ddel (active_mounts s) hid).
  pose proof (li_mounts_wf _ Hinv) as Hwf.
  assert (lt_inv (with_mounts d s)) as Hinv1.
  { apply inv_sub_mounts; [done | by apply dict_wf_ddel |].
    intros hid' m' Hm'. by apply dget_ddel_Some in Hm' as [??]. }
  wp_step. apply wp_ensure; [|by intros; eapply ext_inv]. intros key t s1 Hkey Hext Ht.
  pose proof (ext_drives _ _ Hext) as Hdr1. pose proof (ext_mounts _ _ Hext) as Hm1.
  apply (ext_inv _ _ Hext) in Hinv1. destruct (li_tapes _ Hinv1 _ _ Ht) eqn:Hok. clear Hok.
  destruct (li_mounts _ Hinv _ _ Hm) eqn:Hok. clear Hok. rewrite Hg in *.
  destruct mk_handle0 as (Hmb & Hmd & _).
  assert (am_barcode m = key) as Hmk.
  { destruct mk_tape0 as (t0 & Ht0 & _). destruct (li_tapes _ Hinv _ _ Ht0). congruence. }
  wp_step. eapply wp_index_tape; [done|]. do 3 wp_step.
  rewrite tk_key0. fold (unmounted_state m (active_for key s1)).
  eapply wp_put_tape; [done|]. wp_step.
  eapply (inv_put_tape _ _ _ (set_tape_mount_state (unmounted_state m (active_for key s1)) t))
    in Hinv1 as Hinv2; [|done | by split | done].
  apply wp_set_mount; [apply Hinv2 | | done]. intros dr ds Hdr l' Hl'. wp_step.
  apply inv_set_drive; [done..| |done]. intros hid' m' Hm' Hdm.
  simpl in Hm'. pose proof Hm' as Hin. rewrite Hm1 in Hm'. simpl in Hm'.
  apply dget_ddel_Some in Hm' as [Hne Hm']; [|done].
  destruct mk_drive0 as (dr0 & Hdr0 & Hb0 & _).
  assert (am_barcode m' = am_barcode m) as Hbb.
  { apply (mount_drive_barcode s hid' m' (am_drive_id m) dr0); congruence. }
  apply (unmounted_state_ok s hid m hid' m'); try done.
  - eapply elem_active_for; [exact Hin | congruence].
  - intros x Hx. apply active_for_elem in Hx as [Hxb [hx Hx]]; [|apply Hinv1].
    split; [congruence|]. rewrite Hm1 in Hx. simpl in Hx.
    apply dget_ddel_Some in Hx as [??]; [|done]. by exists hx.
Qed.

(** ** Writing *)
Definition write_error (e : exn) : Prop :=
  e = CartridgeNotFoundError ∨ e = PermissionError ∨ e = TapeFullError ∨
  e = SimulatedWriteFailure ∨ ∃ msg, e = SimulatorFaultError msg.

Definition stored_record (now : Z) (path : string) (content : bytes) (size : option Z)
    (sum : option string) : file_record :=
  MockFileRecord path (default (blen content) size)
    (match sum with
     | Some c => if bool_decide (c = "") then sha256_hex content else c
     | None => sha256_hex content
     end) content now.

(** The state a completed write leaves: one record replaced on one tape. *)
Definition written (s : ltfs) (key : string) (t : tape) (r : file_record) : ltfs :=
  with_tapes (dset (tapes s) key (set_tape_mount_state MountState.MOUNTED_RW
    (store_file r (projected_used_bytes t (fr_tape_path r) (fr_size_bytes r)) t))) s.

Lemma wip_undone s hid m :
  dget (active_mounts s) hid = Some m → am_write_in_progress m = false →
  with_mounts (dset (dset (active_mounts s) hid (set_wip true m)) hid
    (set_wip false (set_wip true m))) s = s.
Proof.
  intros Hm Hw. rewrite dset_dset. rewrite dset_id; [by destruct s|].
  rewrite Hm. f_equal. destruct m; simpl in *. by rewrite Hw.
Qed.

Lemma mount_tape s hid m :
  lt_inv s → dget (active_mounts s) hid = Some m →
  ∃ t, dget (tapes s) (am_barcode m) = Some t ∧ tape_ok (am_barcode m) t ∧
       tp_formatted t = true.
Proof.
  intros Hinv Hm. destruct (mk_tape _ _ _ (li_mounts _ Hinv _ _ Hm)) as (t & Ht & ?).
  exists t. split_and!; [done | by eapply li_tapes | done].
Qed.

Definition written_twice (s : ltfs) (key : string) (t : tape) (r : file_record) : ltfs :=
  let t1 := store_file r (projected_used_bytes t (fr_tape_path r) (fr_size_bytes r)) t in
  with_tapes (dset (dset (tapes s) key t1) key (set_tape_mount_state MountState.MOUNTED_RW t1)) s.

Lemma written_mounts s s4 hid m key t r :
  with_mounts (dset (active_mounts s4) hid (set_wip false (set_wip true m))) s4 = s →
  with_mounts (dset (active_mounts s4) hid (set_wip false (set_wip true m)))
    (written_twice s key t r) = written s key t r.
Proof.
  intros <-. unfold written_twice, written. rewrite dset_dset. done.
Qed.

(** A mounted drive is told again that it is mounted: nothing changes. *)
Lemma wp_keep_mounted s hid m key t r (Q : () → ltfs → Prop) E :
  lt_inv s → dget (active_mounts s) hid = Some m → am_mode m = MountMode.READ_WRITE →
  Q tt (written s key t r) →
  wp (on_library (set_drive_mount_state (mh_drive_id (am_handle m)) MountState.MOUNTED_RW)) Q E
    (written s key t r).
Proof.
  intros Hinv Hm Hmode HQ. destruct (li_mounts _ Hinv _ _ Hm).
  destruct mk_handle0 as (_ & <- & _). destruct mk_drive0 as (dr & Hdr & Hb & Hst).
  unfold on_library. wp_step. apply wp_unfold. simpl.
  rewrite (set_mount_idem _ _ dr (am_barcode m)); [done | apply Hinv | done..|].
  by rewrite Hst, Hmode.
Qed.

(** A failing branch of the write: the pending flag is taken back. *)
Ltac write_fails Hundo :=
  wp_step; eapply wp_put_mount; [done|]; rewrite Hundo; wp_step.

Lemma write_outcome now h path content size sum s :
  lt_inv s → genuine s h →
  let r := stored_record now path content size sum in
  wp (_write_mounted_bytes now h path content size sum)
    (λ i s', ∃ s1 t, ext s s1 ∧ dget (tapes s1) (mh_barcode h) = Some t ∧
       projected_used_bytes t path (fr_size_bytes r) ≤ tp_capacity_bytes t ∧
       s' = written s1 (mh_barcode h) t r ∧ in_barcode i = mh_barcode h ∧
       in_tape_path i = path ∧ in_file_record_id i = fr_checksum_sha256 r)
    (λ e s', write_error e ∧
       (ext s s' ∨ ∃ s1 m, ext s s1 ∧ dget (active_mounts s1) (mh_handle_id h) = Some m ∧
          am_mode m = MountMode.READ_WRITE ∧
          s' = with_mounts (dset (active_mounts s1) (mh_handle_id h) (set_dirty m)) s1)) s.
Proof.
  intros Hinv Hg r. unfold write_error, _write_mounted_bytes.
  wp_step. apply wp_fault; [|by eauto 8]. intros s1 Hs1. wp_step. apply wp_fault.
  2: { intros. split; [eauto 7|]. left. by eapply ext_trans. }
  intros s2 Hs2. pose proof (ext_trans _ _ _ Hs1 Hs2) as Hext. clear s1 Hs1 Hs2.
  wp_step. apply wp_require; [|by eauto]. intros m Hm _.
  rewrite (ext_mounts _ _ Hext) in Hm. specialize (Hg _ Hm). rename Hm into Hm0.
  destruct (li_mounts _ Hinv _ _ Hm0). rewrite Hg in *. destruct mk_handle0 as (Hmb & _ & Hmm).
  destruct (mount_tape _ _ _ Hinv Hm0) as (t0 & _ & Hok0 & _). rewrite Hmb in Hok0.
  do 2 wp_step; [by eauto|]. apply bool_decide_eq_false, dec_stable in H.
  wp_step. apply wp_ensure.
  2: { intros e s3 H3 He. split; [|left; by eapply ext_trans].
       destruct He as [[_ Hb]|[->|[msg ->]]]; eauto 7.
       rewrite (tk_valid _ _ Hok0) in Hb. done. }
  intros key t s3 Hkey H3 Ht. pose proof (ext_trans _ _ _ Hext H3) as Hext3.
  pose proof (ext_inv _ _ Hext3 Hinv) as Hinv3.
  rewrite (tk_valid _ _ Hok0) in Hkey. injection Hkey as <-.
  rewrite <-(ext_mounts _ _ Hext3) in Hm0. pose proof Hm0 as Hm.
  wp_step. eapply wp_put_mount; [exact Hm|]. set (s4 := with_mounts _ s3).
  assert (dget (active_mounts s4) (mh_handle_id h) = Some (set_wip true m)) as Hm4
    by apply dget_dset_eq.
  assert (with_mounts (dset (active_mounts s4) (mh_handle_id h) (set_wip false (set_wip true m)))
    s4 = s3) as Hundo by exact (wip_undone s3 _ m Hm (proj2 mk_flags0)).
  do 4 wp_step; [by write_fails Hundo; split; [eauto 7|left]|].
  do 2 wp_step; [by write_fails Hundo; eapply wp_put_mount; [done|]; wp_step; split;
    [eauto 7 | right; exists s3, m; split_and!; [..|congruence|]]|].
  do 2 wp_step; [by write_fails Hundo; eapply wp_put_mount; [done|]; wp_step; split;
    [eauto 7 | right; exists s3, m; split_and!; [..|congruence|]]|].
  wp_step. eapply wp_index_tape; [exact Ht|]. cbv zeta.
  do 2 wp_step; [by write_fails Hundo; split; [eauto 7|left]|].
  match goal with Hp : bool_decide (tp_capacity_bytes t < _) = false |- _ =>
    apply bool_decide_eq_false, Z.nlt_ge in Hp; rename Hp into Hroom end.
  change (stored_record _ _ _ _ _) with r.
  wp_step. eapply wp_put_tape; [exact Ht|].
  wp_step. eapply wp_put_tape; [apply dget_dset_eq|].
  wp_step. eapply wp_put_mount; [exact Hm4|].
  match goal with |- wp _ _ _ ?x =>
    change x with (with_mounts (dset (active_mounts s4) (mh_handle_id h)
      (set_wip false (set_wip true m))) (written_twice s3 (mh_barcode h) t r)) end.
  rewrite (written_mounts s3 s4 (mh_handle_id h) m (mh_barcode h) t r Hundo).
  wp_step. rewrite <-Hg. apply (wp_keep_mounted _ _ _ _ _ _ _ _ Hinv3 Hm); [congruence|]. rewrite Hg.
  do 2 wp_step; [|by rewrite (tk_valid _ _ Hok0) in *].
  wp_step. exists s3, t. split_and!; try done. simpl.
  rewrite (tk_valid _ _ Hok0) in *. by simplify_eq.
Qed.

Lemma metadata_outcome now bc path content s :
  wp (_write_metadata_bytes now bc path content)
    (λ _ s', ∃ s1 t key, Barcode bc = Ok key ∧ ext s s1 ∧ dget (tapes s1) key = Some t ∧
       let r := stored_record now path content None None in
       let used := projected_used_bytes t path (blen content) in
       used ≤ tp_capacity_bytes t ∧ s' = with_tapes (dset (tapes s1) key (store_file r used t)) s1)
    (λ _ s', ext s s') s.
Proof.
  unfold _write_metadata_bytes. do 2 wp_step; [|by apply ext_refl].
  wp_step. apply wp_fault; [|done]. intros s1 H1. wp_step.
  apply wp_fault; [|by intros; eapply ext_trans]. intros s2 H2.
  pose proof (ext_trans _ _ _ H1 H2) as Hext. wp_step.
  apply wp_ensure; [|by intros; eapply ext_trans]. intros key t s3 Hkey H3 Ht.
  pose proof (ext_trans _ _ _ Hext H3) as Hext3.
  wp_step. eapply wp_index_tape; [exact Ht|]. cbv zeta. do 2 wp_step; [done|].
  eapply wp_put_tape; [exact Ht|]. exists s3, t, key. split_and!; try done.
  match goal with Hp : bool_decide (_ < _) = false |- _ => apply bool_decide_eq_false in Hp end.
  lia.
Qed.

Lemma write_keeps now h path content size sum s :
  lt_inv s → genuine s h →
  wp (_write_mounted_bytes now h path content size sum) (λ _, lt_inv) (λ _, lt_inv) s.
Proof.
  intros Hinv Hg. eapply wp_mono; [by apply write_outcome | |].
  - intros i s' (s1 & t & Hext & Ht & Hroom & -> & _).
    apply (ext_inv _ _ Hext) in Hinv. eapply inv_put_tape; [done..| |done].
    apply set_state_ok. by eapply store_file_ok; [eapply li_tapes | |].
  - intros e s' [_ [Hext|(s1 & m & Hext & Hm & Hmode & ->)]]; [by eapply ext_inv|].
    apply (ext_inv _ _ Hext) in Hinv. destruct Hinv. destruct (li_mounts0 _ _ Hm).
    split; simpl; try done; [by apply dict_wf_dset | |].
    + intros hid' m'. rewrite dget_dset. case_decide; [intros [= <-]; subst|intros Hm'].
      * by split.
      * by destruct (li_mounts0 _ _ Hm').
    + intros h1 m1 h2 m2. rewrite !dget_dset. unfold mounts_exclusive in *.
      repeat case_decide; subst; intros; simplify_eq/=; eauto.
Qed.

Lemma metadata_keeps now bc path content : keeps (_write_metadata_bytes now bc path content).
Proof.
  intros s Hinv. eapply wp_mono; [apply metadata_outcome | | by cbn beta; intros; eapply ext_inv].
  intros [] s' (s1 & t & key & Hkey & Hext & Ht & Hroom & ->).
  apply (ext_inv _ _ Hext) in Hinv. eapply inv_put_tape; [done..| |done].
  by eapply store_file_ok; [eapply li_tapes | |].
Qed.

(** ** Reading changes nothing *)
Notation reads m := (∀ s, wp m (λ _, ext s) (λ _, ext s) s).

Lemma flip_reads tgt : reads (_should_flip_checksum tgt).
Proof.
  intros s. apply wp_unfold. unfold _should_flip_checksum.
  destruct (should_fail _ _); [apply ext_refl|]. destruct (lt_injector_value s) as [fi|] eqn:Hi;
    [|apply ext_refl].
  destruct (should_fault_total InjectedFaultType.CHECKSUM_MISMATCH tgt fi) as [b Hb].
  destruct (should_fault _ tgt fi) as [r fi']. simpl in Hb. subst r.
  apply set_injector_ext; [congruence | eauto].
Qed.

Lemma read_bytes_spec bc p s :
  wp (read_bytes bc (Some p))
    (λ v s', ext s s' ∧ ∃ b, Barcode bc = Ok b ∧ v = content_at s b p) (λ _, ext s) s.
Proof.
  unfold read_bytes. do 2 wp_step; [|apply ext_refl]. wp_step. apply wp_fault; [|done].
  intros s1 H1. wp_step. apply wp_ensure; [|by intros; eapply ext_trans].
  intros key t s2 Hkey H2 Ht. pose proof (ext_trans _ _ _ H1 H2) as Hext.
  wp_step. eapply wp_index_tape; [exact Ht|]. wp_step. split; [done|].
  exists key. split; [done|]. rewrite <-(ext_content _ _ _ _ Hext). unfold content_at.
  by rewrite Ht.
Qed.

Lemma read_file_spec h p s :
  wp (read_file h p)
    (λ v s', ext s s' ∧ ∃ b, Barcode (mh_barcode h) = Ok b ∧ content_at s b p = Some v.1)
    (λ _, ext s) s.
Proof.
  unfold read_file. wp_step. apply wp_fault; [|done]. intros s1 H1. wp_step.
  apply wp_require; [|done]. intros m _ _. wp_step.
  apply wp_ensure; [|by intros; eapply ext_trans]. intros key t s2 Hkey H2 Ht.
  pose proof (ext_trans _ _ _ H1 H2) as Hext.
  wp_step. eapply wp_index_tape; [exact Ht|]. wp_step; [|done]. wp_step.
  eapply wp_mono; [apply flip_reads | | by intros; eapply ext_trans]. intros flip s3 H3.
  cbv zeta. wp_step. split; [by eapply ext_trans|]. exists key. split; [done|].
  rewrite <-(ext_content _ _ _ _ Hext). unfold content_at. rewrite Ht. simpl. by rewrite Heqo.
Qed.

Lemma stat_reads h p : reads (stat h p).
Proof.
  intros s. unfold stat. wp_step. apply wp_require; [|apply ext_refl]. intros m _ _. wp_step.
  apply wp_ensure; [|done]. intros key t s2 Hkey H2 Ht.
  wp_step. eapply wp_index_tape; [exact Ht|]. wp_step; [|done]. wp_step.
  eapply wp_mono; [apply flip_reads | | by intros; eapply ext_trans]. intros flip s3 H3.
  cbv zeta. wp_step. by eapply ext_trans.
Qed.

Lemma remaining_capacity_spec bc s :
  lt_inv s → wp (remaining_capacity bc) (λ c s', ext s s' ∧ 0 ≤ c) (λ _, ext s) s.
Proof.
  intros Hinv. unfold remaining_capacity. wp_step. apply wp_ensure; [|done].
  intros key t s2 Hkey H2 Ht. wp_step. eapply wp_index_tape; [exact Ht|]. wp_step.
  split; [done | lia].
Qed.

Lemma robot_keeps o : keeps (on_library (run_robot o)).
Proof.
  intros s Hinv. unfold on_library. wp_step. apply wp_unfold.
  pose proof (robot_media o (lt_library s) (li_lib _ Hinv)) as (Hlib & Hdr).
  assert (lt_inv (with_library (run_robot o (lt_library s)).2 s)) as H.
  { destruct Hinv. split; simpl; try done. intros hid m Hm.
    destruct (li_mounts0 _ _ Hm). split; try done. simpl.
    destruct mk_drive0 as (dr & Hk & Hb & Hst). exists dr. split; [|done].
    apply Hdr; [done|]. rewrite Hst. by destruct (am_mode m). }
  by destruct (run_robot o (lt_library s)) as [[]].
Qed.

(** ** Sequences of operations *)
Inductive ltfs_op :=
| LFormat (now : Z) (bc : string) (conf : option format_confirmation)
| LMount (uuid bc : string) (mode : mount_mode)
| LUnmount (h : mount_handle)
| LWrite (now : Z) (h : mount_handle) (path : string) (content : bytes) (size : option Z)
    (sum : option string)
| LMetadata (now : Z) (bc path : string) (content : bytes)
| LRead (bc path : string)
| LReadFile (h : mount_handle) (path : string)
| LStat (h : mount_handle) (path : string)
| LRemaining (bc : string)
| LRobot (o : robot_op).

Definition run_ltfs_op (o : ltfs_op) : M ltfs unit :=
  match o with
  | LFormat now bc conf => format now bc conf;; mret tt
  | LMount uuid bc mode => mount uuid bc mode;; mret tt
  | LUnmount h => unmount h;; mret tt
  | LWrite now h path content size sum =>
      write_bytes now (inl h) path content size sum;; mret tt
  | LMetadata now bc path content => write_bytes now (inr bc) path content None None;; mret tt
  | LRead bc path => read_bytes bc (Some path);; mret tt
  | LReadFile h path => read_file h path;; mret tt
  | LStat h path => stat h path;; mret tt
  | LRemaining bc => remaining_capacity bc;; mret tt
  | LRobot o => on_library (run_robot o);; mret tt
  end.

(** Clients mount by canonical barcode, identifiers are fresh, and handles are
    used as they were returned. *)
Definition op_proper (s : ltfs) (o : ltfs_op) : Prop :=
  match o with
  | LMount uuid bc _ => Barcode bc = Ok bc ∧ dget (active_mounts s) uuid = None
  | LUnmount h | LWrite _ h _ _ _ _ => genuine s h
  | _ => True
  end.

(** Robot moves on the shared library interleave freely with the operations. *)
Inductive ltfs_reachable : ltfs → Prop :=
| ltfs_new lib cap fc inj :
    reachable lib → 0 ≤ cap → Forall (λ b, Barcode b = Ok b) (get_all_barcodes lib) →
    ltfs_reachable (MockLTFSBackend lib cap fc inj)
| ltfs_step s o : ltfs_reachable s → op_proper s o → ltfs_reachable (run_ltfs_op o s).2.

Lemma discard_keeps {A} (m : M ltfs A) s :
  wp m (λ _, lt_inv) (λ _, lt_inv) s → lt_inv ((m;; mret tt) s).2.
Proof. rewrite discard_state. apply wp_state. Qed.

Lemma reads_keep {A} (m : M ltfs A) s :
  lt_inv s → wp m (λ _, ext s) (λ _, ext s) s → wp m (λ _, lt_inv) (λ _, lt_inv) s.
Proof. intros Hinv Hm. eapply wp_mono; [exact Hm| |]; cbn beta; intros; by eapply ext_inv. Qed.

Lemma run_ltfs_op_inv o s : lt_inv s → op_proper s o → lt_inv (run_ltfs_op o s).2.
Proof.
  intros Hinv Hop. destruct o; cbn [run_ltfs_op op_proper] in *; apply discard_keeps.
  - by apply format_keeps.
  - destruct Hop. by apply mount_keeps.
  - by apply unmount_keeps.
  - unfold write_bytes. wp_step. by apply write_keeps.
  - unfold write_bytes. wp_step. eapply wp_mono; [by apply metadata_keeps | done | done].
  - apply reads_keep; [done|]. eapply wp_mono; [apply read_bytes_spec | by intros ?? [] | done].
  - apply reads_keep; [done|]. eapply wp_mono; [apply read_file_spec | by intros ?? [] | done].
  - apply reads_keep; [done|]. apply stat_reads.
  - apply reads_keep; [done|]. eapply wp_mono;
      [by apply remaining_capacity_spec | by intros ?? [] | done].
  - by apply robot_keeps.
Qed.

Lemma dict_of_keys {V} (f : string → V) (l : list string) k v :
  dget (dict_of ((λ b, (b, f b)) <$> l)) k = Some v → k ∈ l ∧ v = f k.
Proof.
  intros Hk. unfold dict_of in Hk.
  assert (∀ d, dget (foldl (λ d kv, dset d kv.1 kv.2) d ((λ b, (b, f b)) <$> l)) k = Some v →
    k ∈ l ∧ v = f k ∨ dget d k = Some v) as Hgen.
  { clear Hk. induction l as [|b l IH]; csimpl; intros d Hd; [by right|].
    destruct (IH _ Hd) as [[Hin ->]|Hin]; [left; split; [by right | done]|].
    rewrite dget_dset in Hin. case_decide; [|by right]. subst. simplify_eq.
    left. split; [by left | done]. }
  by destruct (Hgen _ Hk) as [|].
Qed.

Lemma new_ltfs_inv lib cap fc inj :
  lib_inv lib → 0 ≤ cap → Forall (λ b, Barcode b = Ok b) (get_all_barcodes lib) →
  lt_inv (MockLTFSBackend lib cap fc inj).
Proof.
  intros Hlib Hcap Hval. split; simpl; try done.
  - apply dict_of_wf.
  - intros k t [Hin ->]%dict_of_keys. rewrite Forall_forall in Hval. apply blank_tape_ok; auto.
  - constructor.
Qed.

Lemma ltfs_reachable_lt_inv s : ltfs_reachable s → lt_inv s.
Proof.
  induction 1; [apply new_ltfs_inv; [by apply reachable_inv | done..] |]. by apply run_ltfs_op_inv.
Qed.

(** ** Contents *)
Lemma filter_none {A} (P : A → Prop) `{∀ x, Decision (P x)} (l : list A) :
  (∀ x, x ∈ l → ¬ P x) → filter P l = [].
Proof.
  intros Hl. destruct (filter P l) as [|x l'] eqn:Hf; [done|].
  assert (x ∈ filter P l) as Hx by (rewrite Hf; by left).
  apply list_elem_of_filter in Hx as [? ?]. by destruct (Hl x).
Qed.
Lemma content_put_tape s key t t' b p :
  dget (tapes s) key = Some t →
  content_at (with_tapes (dset (tapes s) key t') s) b p =
  if decide (b = key) then fr_content <$> dget (tp_files t') p else content_at s b p.
Proof.
  intros Ht. unfold content_at. simpl. rewrite dget_dset.
  repeat case_decide; subst; try done.
Qed.

Lemma content_written s key t r b p :
  dget (tapes s) key = Some t →
  content_at (written s key t r) b p =
  if decide (b = key ∧ p = fr_tape_path r) then Some (fr_content r) else content_at s b p.
Proof.
  intros Ht. unfold written. rewrite (content_put_tape _ _ t) by done. simpl.
  rewrite dget_dset. unfold content_at.
  destruct (decide (b = key)); [subst; rewrite Ht; simpl|].
  - repeat case_decide; naive_solver.
  - rewrite decide_False by naive_solver. done.
Qed.

Lemma read_bytes_run bc b p s t :
  lt_injector s = NoInjector → Barcode bc = Ok b → dget (tapes s) b = Some t →
  read_bytes bc (Some p) s = (Ok (content_at s b p), s).
Proof.
  intros Hi Hb Ht. unfold read_bytes, ensure_tape, lt_maybe_raise_injected_fault, index_tape,
    content_at.
  assert (lt_injector_value s = None) as Hv by (unfold lt_injector_value; by rewrite Hi).
  assert (set_lt_injector_value None s = s) as Hs by (unfold set_lt_injector_value; by rewrite Hi).
  rewrite Hb. monad_unfold. rewrite Hv. simpl. rewrite Hs, Hv. simpl. rewrite Hs.
  unfold dmem. rewrite Ht. simpl. by rewrite Ht.
Qed.

Lemma content_with_mounts d s b p : content_at (with_mounts d s) b p = content_at s b p.
Proof. done. Qed.

(** ** What leaves the contents alone *)
Definition same_content : relation ltfs := λ s s', ∀ b p, content_at s' b p = content_at s b p.
#[export] Instance same_content_preorder : PreOrder same_content.
Proof. split; [done | by intros s1 s2 s3 H1 H2 b p; rewrite H2, H1]. Qed.

Lemma ext_same_content s s' : ext s s' → same_content s s'.
Proof. intros Hext b p. by apply ext_content. Qed.

Lemma ensure_same_content bc : preserves same_content (ensure_tape bc).
Proof. apply preserves_wp. intros s. apply wp_ensure; intros; by apply ext_same_content. Qed.
Lemma fault_same_content ft tgt :
  preserves same_content (lt_maybe_raise_injected_fault ft tgt).
Proof. apply preserves_wp. intros s. apply wp_fault; intros; by apply ext_same_content. Qed.
Lemma library_same_content {A} (m : M library A) : preserves same_content (on_library m).
Proof. intros s b p. unfold on_library, zoom. by destruct (m _). Qed.
Lemma index_same_content key : preserves same_content (index_tape key).
Proof. intros s. unfold index_tape, dindex. by destruct (dget _ _). Qed.
Lemma state_same_content key ms : preserves same_content (put_tape key (set_tape_mount_state ms)).
Proof.
  intros s b p. unfold put_tape, modify. simpl. destruct (dget (tapes s) key) as [t|] eqn:Ht; [|done].
  rewrite (content_put_tape _ _ t) by done. case_decide; [|done]. subst.
  unfold content_at. by rewrite Ht.
Qed.
Lemma mounts_same_content f : preserves same_content (modify (λ s, with_mounts (f s) s)).
Proof. done. Qed.
Lemma flip_same_content tgt : preserves same_content (_should_flip_checksum tgt).
Proof.
  apply preserves_wp. intros s. eapply wp_mono; [apply flip_reads| |]; intros; by apply ext_same_content.
Qed.
Lemma require_same_content h : preserves same_content (_require_active_mount h).
Proof. intros s. unfold _require_active_mount. by repeat case_match. Qed.
#[export] Hint Resolve ensure_same_content fault_same_content library_same_content
  index_same_content state_same_content mounts_same_content flip_same_content
  require_same_content : preserves.

Lemma mount_same_content uuid bc mode : preserves same_content (mount uuid bc mode).
Proof. unfold mount. solve_preserves. Qed.
Lemma unmount_same_content h : preserves same_content (unmount h).
Proof. unfold unmount. solve_preserves. Qed.
Lemma stat_same_content h p : preserves same_content (stat h p).
Proof. unfold stat. solve_preserves. Qed.
#[export] Hint Resolve mount_same_content unmount_same_content stat_same_content : preserves.

(** A handle names the cartridge mounted. *)
Lemma mount_barcode uuid bc mode s :
  wp (mount uuid bc mode) (λ h _, Barcode bc = Ok (mh_barcode h)) (λ _ _, True) s.
Proof.
  unfold mount. do 2 wp_step; [|done]. wp_step. apply wp_fault; [|done]. intros s1 _.
  wp_step. apply wp_fault; [|done]. intros s2 _. do 4 wp_step; [done|]. do 2 wp_step; [|done].
  destruct a0; [|done]. wp_step. apply wp_ensure; [|done]. intros key t s3 _ _ Ht.
  wp_step. eapply wp_index_tape; [done|]. do 2 wp_step; [done|]. do 4 wp_step; [done|]. wp_step.
  eapply wp_mono; [apply (wp_preserves same_content); solve_preserves| |done].
  intros _ s4 _. do 2 wp_step; [|done]. cbv zeta. do 3 wp_step. simpl. congruence.
Qed.

Lemma wp_put_mount_tapes hid f (Q : () → ltfs → Prop) E s :
  (∀ s', tapes s' = tapes s → Q tt s') → wp (put_mount hid f) Q E s.
Proof. intros HQ. unfold put_mount. wp_step. apply HQ. by case_match. Qed.
Lemma library_tapes {A} (m : M library A) : preserves (eq_on tapes) (on_library m).
Proof. intros s. unfold on_library, zoom, eq_on. by destruct (m _). Qed.
Lemma content_tapes s s' b p : tapes s' = tapes s → content_at s' b p = content_at s b p.
Proof. unfold content_at. by intros ->. Qed.

(** A write changes one location at most, and has changed it when it returns. *)
Lemma write_content now h path content size sum s b :
  Barcode (mh_barcode h) = Ok b →
  wp (_write_mounted_bytes now h path content size sum)
    (λ _ s', ∀ b' p, content_at s' b' p =
       if decide (b' = b ∧ p = path) then Some content else content_at s b' p)
    (λ _ s', ∀ b' p, ¬ (b' = b ∧ p = path) → content_at s' b' p = content_at s b' p) s.
Proof.
  intros Hb. set (other := λ s' : ltfs, ∀ b' p, ¬ (b' = b ∧ p = path) →
    content_at s' b' p = content_at s b' p).
  assert (∀ s', same_content s s' → other s') as Hother by (intros s' Hs b' p _; apply Hs).
  unfold _write_mounted_bytes. wp_step.
  apply wp_fault; [|by intros; apply Hother, ext_same_content]. intros s1 H1%ext_same_content. wp_step.
  apply wp_fault; [|by intros; apply Hother; etrans; [exact H1 | by apply ext_same_content]].
  intros s2 H2%ext_same_content. pose proof (transitivity H1 H2) as H12.
  wp_step. apply wp_require; [|by apply Hother]. intros m Hm _.
  do 2 wp_step; [by apply Hother|]. wp_step.
  apply wp_ensure; [|by intros; apply Hother; etrans; [exact H12 | by apply ext_same_content]].
  intros key t s3 Hkey H3%ext_same_content Ht. rewrite Hb in Hkey. injection Hkey as <-.
  pose proof (transitivity H12 H3) as Hs3.
  assert (∀ s4, tapes s4 = tapes s3 → other s4) as Hsame.
  { intros s4 H4. apply Hother. etrans; [exact Hs3|]. intros b' p. by apply content_tapes. }
  clear H1 H2 H3 H12 Hm. wp_step. apply wp_put_mount_tapes; intros s4 H4. do 2 wp_step.
  do 3 (wp_step; wp_step; [wp_step; apply wp_put_mount_tapes; intros s5 H5;
    try (wp_step; apply wp_put_mount_tapes; intros s6 H6); wp_step; apply Hsame; congruence|]).
  rewrite <-H4 in Ht. wp_step. eapply wp_index_tape; [exact Ht|]. cbv zeta. wp_step.
  wp_step; [wp_step; apply wp_put_mount_tapes; intros s5 H5; wp_step; apply Hsame; congruence|].
  set (r := MockFileRecord _ _ _ _ _).
  wp_step. eapply wp_put_tape; [exact Ht|]. wp_step. eapply wp_put_tape; [apply dget_dset_eq|].
  assert (∀ s5, tapes s5 = tapes (written_twice s4 b t r) → ∀ b' p, content_at s5 b' p =
    if decide (b' = b ∧ p = path) then Some content else content_at s b' p) as Hdone.
  { intros s5 H5 b' p. rewrite (content_tapes (written s4 b t r) s5), (content_written _ _ t) by
      (done || (rewrite H5; simpl; by rewrite dset_dset)). simpl.
    rewrite (content_tapes s3 s4) by done. by rewrite (Hs3 b' p). }
  assert (∀ s5, tapes s5 = tapes (written_twice s4 b t r) → other s5) as Hlate.
  { intros s5 H5 b' p Hne. rewrite (Hdone _ H5). by rewrite decide_False. }
  wp_step. apply wp_put_mount_tapes; intros s5 Hs5. wp_step.
  assert (∀ s6, eq_on tapes s5 s6 → tapes s6 = tapes (written_twice s4 b t r)) as Hend
    by (intros s6 ->; exact Hs5).
  eapply wp_mono; [apply (wp_preserves (eq_on tapes)), library_tapes| |]; intros ? s6 Hs6%Hend;
    [|by apply Hlate].
  do 2 wp_step; [|by apply Hlate]. wp_step. by apply Hdone.
Qed.

Lemma format_outcome now bc c s : lt_inv s →
  wp (format now bc (Some c))
    (λ _ s', FormatConfirmation_validate now c bc = Ok tt ∧ ∃ b t, Barcode bc = Ok b ∧
       (∀ b' p, content_at s' b' p = if decide (b' = b) then None else content_at s b' p) ∧
       dget (tapes s') b = Some t ∧ tp_formatted t = true ∧ tp_used_bytes t = 0 ∧
       active_for b s' = [])
    (λ _ s', FormatConfirmation_validate now c bc ≠ Ok tt → s' = s) s.
Proof.
  intros Hinv. unfold format. do 2 wp_step; [|done]. destruct a. rename H into Hval. wp_step.
  apply wp_ensure; [|by intros]. intros key t s1 Hkey Hext Ht.
  apply (ext_inv _ _ Hext) in Hinv. pose proof (tk_key _ _ (li_tapes _ Hinv _ _ Ht)) as Hbc.
  wp_step. eapply wp_put_tape; [done|].
  wp_step. eapply wp_index_tape; [simpl; apply dget_dset_eq|]. simpl.
  do 6 wp_step; [|by intros]. wp_step.
  match goal with |- context [with_mounts ?d (with_tapes ?ts s1)] =>
    set (s2 := with_mounts d (with_tapes ts s1)) end.
  assert (∀ l, (∀ b' p, content_at (with_library l s2) b' p =
                        if decide (b' = key) then None else content_at s b' p) ∧
    active_for key (with_library l s2) = []) as Hs2.
  { intros l. split.
    - intros b' p. change (content_at (with_library l s2) b' p) with
        (content_at (with_tapes (tapes s2) s1) b' p). simpl.
      rewrite (content_put_tape _ _ t), (ext_content _ _ _ _ Hext) by done. by case_decide.
    - unfold active_for, dvalues. simpl. rewrite Hbc.
      apply filter_none. intros m Hm.
      apply list_elem_of_fmap in Hm as ([h' m'] & -> & [Hne _]%list_elem_of_filter). done. }
  assert (with_library (lt_library s2) s2 = s2) as Hid by done.
  destruct a as [d|]; [eapply wp_mono; [apply (wp_set_mount _ _
      (λ _ s', ∃ l, s' = with_library l s2) (λ _ _, True)); [apply Hinv|by eauto|done] | | by intros]
    | wp_step].
  - intros [] s' [l ->]. wp_step. destruct (Hs2 l). split; [done|]. eexists key, _.
    do 2 (split; [done|]). split; [simpl; apply dget_dset_eq | by split_and!].
  - wp_step. destruct (Hs2 (lt_library s2)). split; [done|]. eexists key, _.
    do 2 (split; [done|]). split; [simpl; apply dget_dset_eq | by split_and!].
Qed.

(** ** Snapshots *)
Section snapshot_lemmas.
Context `{DateTimeLaws}.

Lemma record_json_roundtrip r : record_of_json (record_to_json r) = Ok r.
Proof.
  unfold record_of_json, record_to_json. simpl. rewrite fromhex_hex. simpl.
  rewrite fromisoformat_isoformat. simpl. by destruct r.
Qed.

Lemma items_json_roundtrip {A} (f : json → result A) (g : A → json) (d : dict string A) :
  dict_wf d → (∀ a, f (g a) = Ok a) → items_of_json f (dmap g d) = Ok d.
Proof.
  intros Hd Hfg. unfold items_of_json, dmap.
  rewrite (mapR_fmap_id (prod_map id g)).
  - simpl. f_equal. by apply dict_of_id.
  - apply Forall_forall. intros [k a] _. simpl. by rewrite Hfg.
Qed.

#[local] Arguments items_of_json : simpl never.
Lemma tape_json_roundtrip t : dict_wf (tp_files t) → tape_of_json (tape_to_json t) = Ok t.
Proof.
  intros Ht. unfold tape_of_json, tape_to_json. simpl.
  rewrite items_json_roundtrip by (done || apply record_json_roundtrip). simpl.
  rewrite enum_of_value_value. simpl. by destruct t.
Qed.

Lemma items_json_roundtrip_in {A} (f : json → result A) (g : A → json) (d : dict string A) :
  dict_wf d → (∀ k a, (k, a) ∈ d → f (g a) = Ok a) → items_of_json f (dmap g d) = Ok d.
Proof.
  intros Hd Hfg. unfold items_of_json, dmap.
  rewrite (mapR_fmap_id (prod_map id g)).
  - simpl. f_equal. by apply dict_of_id.
  - apply Forall_forall. intros [k a] Hin. simpl. by erewrite Hfg.
Qed.
End snapshot_lemmas.

Lemma default_tapes_content lib cap d b p :
  (t ← dget (default_tapes lib cap d) b; fr_content <$> dget (tp_files t) p) =
  (t ← dget d b; fr_content <$> dget (tp_files t) p).
Proof.
  unfold default_tapes. revert d. induction (get_all_barcodes lib) as [|k l IH]; [done|].
  intros d. simpl. rewrite IH. unfold dsetdefault. destruct (dget d k) eqn:Hk; [done|].
  rewrite dget_dset. case_decide; [|done]. subst. by rewrite Hk.
Qed.

(** A concrete date text, for examples: the binary digits of the instant. *)
Fixpoint pos_digits (p : positive) : string :=
  match p with
  | xH => "."
  | xO p => String "0" (pos_digits p)
  | xI p => String "1" (pos_digits p)
  end.
Fixpoint digits_pos (s : string) : result positive :=
  match s with
  | String c s =>
      if bool_decide (c = "."%char) then Ok xH
      else if bool_decide (c = "0"%char) then xO <$> digits_pos s
      else xI <$> digits_pos s
  | EmptyString => Raise ValueError
  end.
Definition binary_clock : DateTime :=
  {| isoformat t := match t with
                    | Z0 => "Z" | Zpos p => String "+" (pos_digits p)
                    | Zneg p => String "-" (pos_digits p)
                    end;
     fromisoformat s := match s with
                        | "Z" => Ok 0
                        | String "+"%char s => Zpos <$> digits_pos s
                        | String "-"%char s => Zneg <$> digits_pos s
                        | _ => Raise ValueError
                        end |}.

Lemma digits_pos_digits p : digits_pos (pos_digits p) = Ok p.
Proof. induction p as [p IH|p IH|]; simpl; [by rewrite IH..|done]. Qed.

Lemma binary_clock_laws : @DateTimeLaws binary_clock.
Proof.
  intros [|p|p]; [done|..]; cbn [isoformat binary_clock fromisoformat];
    cbn; by rewrite digits_pos_digits.
Qed.

(** ** A worked state: one drive, one tape, formatted and mounted *)
Definition confirm (b : string) : format_confirmation :=
  FormatConfirmation b (SafetyToken "t" "format" b 100) "note".
Definition loaded_library : library := (load 1 0 sample_library).2.
Definition ready_ltfs : ltfs :=
  (format 1 "TAPE01L8" (Some (confirm "TAPE01L8"))
     (MockLTFSBackend loaded_library 1000 no_faults NoInjector)).2.
Definition sample_handle : mount_handle :=
  MountHandle "h1" "TAPE01L8" 0 MountMode.READ_WRITE "mock-mount/TAPE01L8".
Definition mounted_ltfs : ltfs := (mount "h1" "TAPE01L8" MountMode.READ_WRITE ready_ltfs).2.

Lemma loaded_library_reachable : reachable loaded_library.
Proof.
  assert ((run_lib_op (DoLoad 1 0) sample_library).2 = loaded_library) as <-
    by (vm_compute; reflexivity).
  refine (reach_op sample_library (DoLoad 1 0) _ _); [|by intros].
  refine (reach_op (MockLibraryBackend "lib" 4 2 0 no_faults None 1)
    (DoSeed ["TAPE01L8"; "TAPE02L8"]) (reach_new _ _ _ _ _ _ _) _). by intros.
Qed.

Lemma mounted_ltfs_reachable : ltfs_reachable mounted_ltfs.
Proof.
  assert (mounted_ltfs = (run_ltfs_op (LMount "h1" "TAPE01L8" MountMode.READ_WRITE)
    (run_ltfs_op (LFormat 1 "TAPE01L8" (Some (confirm "TAPE01L8")))
      (MockLTFSBackend loaded_library 1000 no_faults NoInjector)).2).2) as ->
    by (vm_compute; reflexivity).
  apply ltfs_step; [apply ltfs_step; [apply ltfs_new|exact I]|].
  - apply loaded_library_reachable.
  - lia.
  - apply (bool_decide_unpack _). vm_compute. exact I.
  - split; vm_compute; reflexivity.
Qed.

#[local] Arguments FaultConfig_from_json : simpl never.
#[local] Arguments FaultConfig_to_json : simpl never.
#[local] Arguments items_of_json : simpl never.

(** * Properties *)

(** C26: Whatever sequence of LTFS operations and robot moves a client runs, with
    whatever faults, as long as it mounts tapes by the normalised spelling of their
    barcode and uses the handles it was given, every tape's [used_bytes] is the sum
    of its file sizes and at most its capacity, a read-write mount excludes every other mount of its tape, a mounted
    tape is formatted and sits in its drive in the matching mount state, and the
    library underneath stays consistent.  (Mounts under another spelling bypass the
    exclusion: see [mount_lowercase_bypasses_exclusion].) *)
Theorem ltfs_reachable_consistent (s : ltfs) (Hreach : ltfs_reachable s) :
  (∀ k t, dget (tapes s) k = Some t →
     tp_used_bytes t = file_bytes (tp_files t) ∧ tp_used_bytes t ≤ tp_capacity_bytes t) ∧
  mounts_exclusive (active_mounts s) ∧
  (∀ hid m, dget (active_mounts s) hid = Some m → ∃ t dr,
     dget (tapes s) (am_barcode m) = Some t ∧ tp_formatted t = true ∧
     dget (drives (lt_library s)) (am_drive_id m) = Some dr ∧
     drive_barcode dr = Some (am_barcode m) ∧
     drive_mount_state dr = target_mount_state (am_mode m)) ∧
  invariants_hold (lt_library s) = true.
Proof.
  apply ltfs_reachable_lt_inv in Hreach as Hinv. destruct Hinv. split_and!.
  - intros k t Ht. by destruct (li_tapes0 _ _ Ht).
  - done.
  - intros hid m Hm. destruct (li_mounts0 _ _ Hm).
    destruct mk_tape0 as (t & ? & ?), mk_drive0 as (dr & ? & ? & ?). by exists t, dr.
  - by apply inv_holds.
Qed.

Lemma ltfs_reachable_consistent_witness :
  ltfs_reachable mounted_ltfs ∧ mounts_exclusive (active_mounts mounted_ltfs).
Proof.
  split; [exact mounted_ltfs_reachable|].
  exact (proj1 (proj2 (ltfs_reachable_consistent _ mounted_ltfs_reachable))).
Defined.

(** C21: [write_bytes] through a mount is an atomic write to an abstract store:
    when it returns, exactly the file named holds exactly the given bytes, and
    it fits the tape; when it raises, whatever the cause, no file of any tape
    changed, and the cause is one of the documented ones. *)
Theorem write_bytes_refines_store (s : ltfs) (h : mount_handle) (now : Z) (path : string)
    (content : bytes) (size : option Z) (sum : option string)
    (Hinv : lt_inv s) (Hgenuine : genuine s h) :
  match write_bytes now (inl h) path content size sum s with
  | (Ok i, s') =>
      lt_inv s' ∧ (in_tape_path <$> i) = Some path ∧ (in_barcode <$> i) = Some (mh_barcode h) ∧
      ∀ b p, content_at s' b p =
             if decide (b = mh_barcode h ∧ p = path) then Some content else content_at s b p
  | (Raise e, s') => lt_inv s' ∧ write_error e ∧ ∀ b p, content_at s' b p = content_at s b p
  end.
Proof.
  apply (wp_unfold (write_bytes now (inl h) path content size sum)
    (λ i s', lt_inv s' ∧ _) (λ e s', lt_inv s' ∧ _)).
  unfold write_bytes. wp_step. pose proof (write_outcome now h path content size sum s Hinv Hgenuine)
    as Hout. pose proof (write_keeps now h path content size sum s Hinv Hgenuine) as Hkeep.
  rewrite wp_unfold in Hout, Hkeep. apply wp_unfold.
  destruct (_write_mounted_bytes now h path content size sum s) as [[i|e] s'];
    (split; [done|]).
  - destruct Hout as (s1 & t & Hext & Ht & _ & -> & Hb & Hp & _). simpl.
    split_and!; [by f_equal..|]. intros b p. rewrite content_written by done. simpl.
    case_decide; [done | by apply ext_content].
  - destruct Hout as [He [Hext|(s1 & m & Hext & _ & _ & ->)]]; (split; [done|]); intros b p;
      [|rewrite content_with_mounts]; by apply ext_content.
Qed.

Lemma write_bytes_refines_store_witness :
  let w := write_bytes 5 (inl sample_handle) "/a" (bytes_of "hello") None None mounted_ltfs in
  is_ok w.1 = true ∧
  match w with
  | (Ok _, s') => ∀ b p, content_at s' b p = if decide (b = "TAPE01L8" ∧ p = "/a")
                         then Some (bytes_of "hello") else content_at mounted_ltfs b p
  | (Raise _, _) => False
  end.
Proof.
  assert (lt_inv mounted_ltfs) as Hinv by apply ltfs_reachable_lt_inv, mounted_ltfs_reachable.
  assert (genuine mounted_ltfs sample_handle) as Hg.
  { intros m. vm_compute. by intros [= <-]. }
  intros w. assert (is_ok w.1 = true) as Hok by (vm_compute; reflexivity).
  split; [exact Hok|].
  pose proof (write_bytes_refines_store mounted_ltfs sample_handle 5 "/a" (bytes_of "hello")
    None None Hinv Hg) as H. fold w in H. destruct w as [[i|e] s']; [|discriminate Hok].
  exact (proj2 (proj2 (proj2 H))).
Defined.

(** What was written is read back: without an injector, reading the same
    path of the same tape right after a write that returned gives the bytes
    written, and leaves the state alone. *)
Theorem write_read_roundtrip (s s' : ltfs) (h : mount_handle) (now : Z) (path : string)
    (content : bytes) (i : option file_instance)
    (Hinv : lt_inv s) (Hgenuine : genuine s h) (Hinj : lt_injector s = NoInjector)
    (Hw : write_bytes now (inl h) path content None None s = (Ok i, s')) :
  read_bytes (mh_barcode h) (Some path) s' = (Ok (Some content), s').
Proof.
  unfold write_bytes in Hw.
  pose proof (write_outcome now h path content None None s Hinv Hgenuine) as Hout.
  rewrite wp_unfold in Hout. revert Hw. unfold fmap, M_fmap, mbind, M_bind.
  destruct (_write_mounted_bytes now h path content None None s) as [[i'|e] s1]; [|done].
  intros [= <- <-]. destruct Hout as (s2 & t & Hext & Ht & _ & -> & _).
  pose proof (ext_inv _ _ Hext Hinv) as Hinv2.
  rewrite (read_bytes_run _ (mh_barcode h) _ _ (set_tape_mount_state MountState.MOUNTED_RW
    (store_file (stored_record now path content None None) (projected_used_bytes t path
       (blen content)) t))).
  - rewrite content_written by done. by rewrite decide_True.
  - simpl. by destruct (ext_inj _ _ Hext Hinj).
  - apply (tk_valid _ _ (li_tapes _ Hinv2 _ _ Ht)).
  - simpl. by rewrite dget_dset_eq.
Qed.

Lemma write_read_roundtrip_witness :
  ∃ i s', write_bytes 5 (inl sample_handle) "/a" (bytes_of "hello") None None mounted_ltfs =
            (Ok i, s') ∧
    read_bytes "TAPE01L8" (Some "/a") s' = (Ok (Some (bytes_of "hello")), s').
Proof.
  set (w := write_bytes 5 (inl sample_handle) "/a" (bytes_of "hello") None None mounted_ltfs).
  assert (∃ i, w = (Ok i, w.2)) as [i Hw] by (eexists; vm_compute; reflexivity).
  exists i, w.2. split; [exact Hw|].
  refine (write_read_roundtrip mounted_ltfs w.2 sample_handle 5 "/a" (bytes_of "hello") i _ _ _ Hw).
  - apply ltfs_reachable_lt_inv, mounted_ltfs_reachable.
  - intros m. vm_compute. by intros [= <-].
  - vm_compute. reflexivity.
Defined.

(** A snapshot restores the tapes: [from_json] of [to_json] over the same
    library gives back every tape and every stored byte, with blank tapes for
    cartridges that had none; active mounts and the injector are not kept. *)
Theorem ltfs_snapshot_roundtrip `{DateTimeLaws} (s : ltfs) (Hinv : lt_inv s)
    (Hfc : dict_wf (faults (lt_fault_config s))) :
  let restored := Ltfs (lt_library s) (lt_capacity_bytes s) (lt_fault_config s) NoInjector
    (default_tapes (lt_library s) (lt_capacity_bytes s) (tapes s)) [] in
  ltfs_from_json (lt_library s) (ltfs_to_json s) = Ok restored ∧
  ∀ b p, content_at restored b p = content_at s b p.
Proof.
  split; [|intros b p; apply default_tapes_content].
  unfold ltfs_from_json, ltfs_to_json, jget. simpl.
  change (dget_or _ "fault_config" JNull) with (JObj (FaultConfig_to_json (lt_fault_config s))).
  rewrite fault_config_json by done. simpl.
  rewrite items_json_roundtrip_in; [done | apply Hinv|].
  intros k t Hkt. apply tape_json_roundtrip.
  apply (elem_dget _ _ _ (li_tapes_wf _ Hinv)) in Hkt. apply (li_tapes _ Hinv _ _ Hkt).
Qed.

Lemma ltfs_snapshot_roundtrip_witness :
  let s := (write_bytes 5 (inl sample_handle) "/a" (bytes_of "hello") None None mounted_ltfs).2 in
  lt_inv s ∧ ∃ s', @ltfs_from_json binary_clock (lt_library s) (@ltfs_to_json binary_clock s) = Ok s'
    ∧ content_at s' "TAPE01L8" "/a" = Some (bytes_of "hello").
Proof.
  intros s. assert (lt_inv s) as Hinv.
  { assert (s = (run_ltfs_op (LWrite 5 sample_handle "/a" (bytes_of "hello") None None)
                   mounted_ltfs).2) as -> by (vm_compute; reflexivity).
    apply run_ltfs_op_inv; [apply ltfs_reachable_lt_inv, mounted_ltfs_reachable|].
    intros m. vm_compute. by intros [= <-]. }
  split; [exact Hinv|].
  destruct (@ltfs_snapshot_roundtrip binary_clock binary_clock_laws s Hinv) as [H1 H2].
  { constructor. }
  eexists. split; [exact H1|]. rewrite H2. vm_compute. reflexivity.
Defined.

(** [format] erases one tape and only with a valid confirmation: when it
    returns, the confirmation was valid for that barcode, no file is left on
    that tape and no mount of it is active, its whole capacity is free, and
    every other tape is untouched; a missing or invalid confirmation raises and
    changes nothing. *)
Theorem format_erases_one_tape (s : ltfs) (now : Z) (bc : string)
    (conf : option format_confirmation) (Hinv : lt_inv s) :
  match format now bc conf s with
  | (Ok _, s') => ∃ c b t, conf = Some c ∧ FormatConfirmation_validate now c bc = Ok tt ∧
      Barcode bc = Ok b ∧
      (∀ b' p, content_at s' b' p = if decide (b' = b) then None else content_at s b' p) ∧
      dget (tapes s') b = Some t ∧ tp_formatted t = true ∧ tp_used_bytes t = 0 ∧
      active_for b s' = []
  | (Raise _, s') =>
      (conf = None ∨ ∃ c, conf = Some c ∧ FormatConfirmation_validate now c bc ≠ Ok tt) → s' = s
  end.
Proof.
  destruct conf as [c|]; [|done].
  pose proof (format_outcome now bc c s Hinv) as Hout. rewrite wp_unfold in Hout.
  destruct (format now bc (Some c) s) as [[r|e] s'].
  - destruct Hout as (Hval & b & t & ?). by exists c, b, t.
  - intros [?|(c' & ? & ?)]; simplify_eq. auto.
Qed.

Lemma format_erases_one_tape_witness :
  lt_inv mounted_ltfs ∧
  match format 1 "TAPE01L8" None mounted_ltfs with
  | (Ok _, _) => False
  | (Raise e, s') => e = FormatRequiresConfirmationError ∧ s' = mounted_ltfs
  end.
Proof.
  assert (lt_inv mounted_ltfs) as Hinv by apply ltfs_reachable_lt_inv, mounted_ltfs_reachable.
  split; [exact Hinv|]. split; [reflexivity|].
  exact (format_erases_one_tape mounted_ltfs 1 "TAPE01L8" None Hinv (or_introl eq_refl)).
Defined.

(** The exclusivity test of [mount] compares the barcode as given, not the
    normalised one: from a state where the tape has no mount, two read-write
    mounts of the same tape through a lower-case barcode both succeed. *)
Theorem mount_lowercase_bypasses_exclusion :
  let r1 := mount "h1" "tape01l8" MountMode.READ_WRITE ready_ltfs in
  let r2 := mount "h2" "tape01l8" MountMode.READ_WRITE r1.2 in
  active_mounts ready_ltfs = [] ∧ is_ok r1.1 = true ∧ is_ok r2.1 = true ∧
  ¬ mounts_exclusive (active_mounts r2.2).
Proof.
  intros r1 r2. split; [vm_compute; reflexivity|]. split; [vm_compute; reflexivity|].
  split; [vm_compute; reflexivity|]. intros Hex.
  assert ("h1" = "h2") as Hne; [|discriminate Hne].
  eapply Hex; vm_compute; reflexivity.
Qed.
