(* ===== verification/Shard.v ===== *)
(** The shard engine: openblade/jobs/shard.py.  A file is split into blocks dealt
    round-robin to tape lanes, and reassembled from the lanes on restore.

    Files are their contents; [source_path.stat().st_size] is the length of the
    content read, and the path's name is an argument. *)
From stdpp Require Import base list option strings pretty.
From Stdlib Require Import Ascii ZArith Lia.
From S2P Require Import Prelude Domain Bytes.
#[local] Open Scope string_scope.
#[local] Open Scope Z_scope.

Definition DEFAULT_BLOCK_SIZE : Z := 128 * 1024 * 1024.
Definition BLOCK_STRIPE_THRESHOLD : Z := 64 * 1024 * 1024.

Module ShardMode.
Inductive shard_mode := NONE | STRIPE | BLOCK_STRIPE.
Definition shard_mode_value (x : shard_mode) : string :=
  match x with NONE => "none" | STRIPE => "stripe" | BLOCK_STRIPE => "block_stripe" end.
Definition shard_mode_members : list shard_mode := [NONE; STRIPE; BLOCK_STRIPE].
End ShardMode.
Notation shard_mode := ShardMode.shard_mode.
#[export] Instance shard_mode_eq_dec : EqDecision shard_mode.
Proof. solve_decision. Defined.
#[export] Instance shard_mode_enum : StrEnum shard_mode :=
  {| enum_value := ShardMode.shard_mode_value; enum_members := ShardMode.shard_mode_members |}.
#[export] Instance shard_mode_enum_laws : StrEnumLaws shard_mode.
Proof. solve_enum_laws. Qed.

Record shard_spec := ShardSpec {
  sh_shard_index : Z;
  sh_shard_total : Z;
  sh_barcode : string;
  sh_tape_path : string;
  sh_block_start : Z;
  sh_block_end : Z;
  sh_shard_group_id : string;
}.

Record shard_plan := ShardPlan {
  sp_source_name : string;
  sp_file_size : Z;
  sp_checksum_sha256 : string;
  sp_mode : shard_mode;
  sp_shards : list shard_spec;
  sp_shard_group_id : string;
}.

(** * Reading a file by chunks *)

(** [handle.read(n)] on the bytes left: what it returns and what remains. *)
Definition py_read (n : Z) (l : bytes) : bytes * bytes :=
  if bool_decide (n < 0) then (l, []) else (take (Z.to_nat n) l, drop (Z.to_nat n) l).

(** The chunks of [iter(lambda: handle.read(n), b"")].  A round takes at least
    one byte, so the length of the file bounds the number of rounds. *)
Fixpoint read_chunks (fuel : nat) (n : Z) (l : bytes) : list bytes :=
  match fuel with
  | O => []
  | S fuel =>
      match py_read n l with
      | ([], _) => []
      | (chunk, rest) => chunk :: read_chunks fuel n rest
      end
  end.
Definition chunks (n : Z) (l : bytes) : list bytes := read_chunks (length l) n l.

(** The digest is fed chunk by chunk; it is the digest of their concatenation. *)
Definition compute_checksum (source : bytes) : string :=
  sha256_hex (mjoin (chunks (1024 * 1024) source)).

(** * Planning *)
Definition plan_stripe (group_id source_name : string) (source : bytes)
    (lane_barcodes : list string) (catalog_base_path : string) : result shard_plan :=
  match lane_barcodes with
  | [bc] =>
      let file_size := blen source in
      let spec := ShardSpec 0 1 bc (catalog_base_path ++ "/" ++ source_name) 0 file_size group_id in
      Ok (ShardPlan source_name file_size (compute_checksum source) ShardMode.STRIPE [spec] group_id)
  | _ => Raise AssertionError
  end.

(** [f"{n:04d}"] of a non-negative integer. *)
Definition zero_pad4 (n : nat) : string :=
  let s := pretty n in
  String.string_of_list_ascii (repeat "0"%char (4 - String.length s)) ++ s.

(** [for block_index in range(...): lane_sizes[block_index % lane_count] += ...];
    [m] blocks are left, from block [k] on. *)
Fixpoint lane_sizes_loop (block_size file_size lane_count : Z) (k : Z) (m : nat)
    (lane_sizes : list Z) : list Z :=
  match m with
  | O => lane_sizes
  | S m =>
      let lane_index := k mod lane_count in
      let block_start := k * block_size in
      let block_end := Z.min (block_start + block_size) file_size in
      lane_sizes_loop block_size file_size lane_count (k + 1) m
        (alter (λ size, size + (block_end - block_start)) (Z.to_nat lane_index) lane_sizes)
  end.

Definition num_blocks (block_size file_size : Z) : Z :=
  Z.max 1 ((file_size + block_size - 1) / block_size).

Definition lane_sizes (block_size file_size : Z) (lanes : nat) : list Z :=
  lane_sizes_loop block_size file_size (Z.of_nat lanes) 0
    (Z.to_nat (num_blocks block_size file_size)) (repeat 0 lanes).

Definition plan_block_stripe (group_id source_name : string) (source : bytes)
    (lane_barcodes : list string) (catalog_base_path : string) (block_size : Z)
    : result shard_plan :=
  let lane_count := length lane_barcodes in
  if bool_decide (lane_count < 2)%nat then Raise AssertionError
  else if bool_decide (block_size = 0) then Raise (OtherError "ZeroDivisionError")
  else
    let file_size := blen source in
    let sizes := lane_sizes block_size file_size lane_count in
    let shards := imap (λ lane_index bc,
      ShardSpec (Z.of_nat lane_index) (Z.of_nat lane_count) bc
        (catalog_base_path ++ "/" ++ group_id ++ "/" ++ source_name ++ ".shard"
           ++ zero_pad4 lane_index)
        0 (nth lane_index sizes 0) group_id) lane_barcodes in
    Ok (ShardPlan source_name file_size (compute_checksum source) ShardMode.BLOCK_STRIPE
          shards group_id).

(** * Splitting *)
Fixpoint write_shard_loop (fuel : nat) (block_size shard_total shard_index block_index : Z)
    (source : bytes) : bytes :=
  match fuel with
  | O => []
  | S fuel =>
      match py_read block_size source with
      | ([], _) => []
      | (chunk, rest) =>
          ((if bool_decide (block_index mod shard_total = shard_index) then chunk else [])
           ++ write_shard_loop fuel block_size shard_total shard_index (block_index + 1) rest)%list
      end
  end.

(** The content of the temporary file; a zero [shard_total] fails at the first
    block. *)
Definition write_shard_to_tempfile (source : bytes) (shard_index shard_total block_size : Z)
    : result bytes :=
  if bool_decide (shard_total = 0) && bool_decide ((py_read block_size source).1 ≠ [])
  then Raise (OtherError "ZeroDivisionError")
  else Ok (write_shard_loop (length source) block_size shard_total shard_index 0 source).

(** * Reassembly *)

(** One pass of [for shard_handle in handles]: whether a shard was exhausted,
    the handles after the pass, and the bytes written. *)
Fixpoint reassemble_pass (block_size : Z) (handles : list bytes) : bool * list bytes * bytes :=
  match handles with
  | [] => (false, [], [])
  | h :: hs =>
      match py_read block_size h with
      | ([], _) => (true, h :: hs, [])
      | (chunk, rest) =>
          let '(done, hs', out) := reassemble_pass block_size hs in
          (done, rest :: hs', chunk ++ out)%list
      end
  end.

(** [while not done]; [None] is a loop that has not ended within [fuel]. *)
Fixpoint reassemble_loop (fuel : nat) (block_size : Z) (handles : list bytes) : option bytes :=
  match fuel with
  | O => None
  | S fuel =>
      let '(done, handles', out) := reassemble_pass block_size handles in
      if (done : bool) then Some out
      else app out <$> reassemble_loop fuel block_size handles'
  end.

(** The destination file and the checksum returned. *)
Definition reassemble_block_stripe (fuel : nat) (shard_files : list bytes) (block_size : Z)
    : option (bytes * string) :=
  (λ out, (out, sha256_hex out)) <$> reassemble_loop fuel block_size shard_files.

(** * Blocks and lanes *)

(** The blocks of one lane, [k] being the number of the first block. *)
Fixpoint lane (n i k : Z) (cs : list bytes) : list bytes :=
  match cs with
  | [] => []
  | c :: cs => if bool_decide (k mod n = i) then c :: lane n i (k + 1) cs else lane n i (k + 1) cs
  end.

(** Blocks of one size, except a last one that may be short; none is empty. *)
Fixpoint chunked (bs : Z) (cs : list bytes) : Prop :=
  match cs with
  | [] => True
  | c :: cs => 0 < blen c ≤ bs ∧ (cs ≠ [] → blen c = bs) ∧ chunked bs cs
  end.

(** * Lemmas *)
Lemma py_read_pos n l : 0 < n → py_read n l = (take (Z.to_nat n) l, drop (Z.to_nat n) l).
Proof. intros Hn. unfold py_read. by rewrite bool_decide_false by lia. Qed.

Lemma py_read_nil n l : 0 < n → (py_read n l).1 = [] → l = [].
Proof.
  intros Hn. rewrite py_read_pos by done. simpl. destruct l as [|b l]; [done|].
  by destruct (Z.to_nat n) eqn:?; [lia|].
Qed.

Lemma py_read_block bs c rest :
  0 < blen c ≤ bs → (rest ≠ [] → blen c = bs) → py_read bs (c ++ rest)%list = (c, rest).
Proof.
  unfold blen. intros Hc Hrest. rewrite py_read_pos by lia.
  destruct (decide (rest = [])) as [->|Hne].
  - rewrite app_nil_r, take_ge, drop_ge by lia. done.
  - specialize (Hrest Hne). rewrite take_app_length', drop_app_length' by lia. done.
Qed.

Lemma join_cons (c : bytes) cs : mjoin (c :: cs) = (c ++ mjoin cs)%list.
Proof. done. Qed.

Lemma read_chunks_spec fuel n l : 0 < n → (length l ≤ fuel)%nat →
  mjoin (read_chunks fuel n l) = l ∧ chunked n (read_chunks fuel n l).
Proof.
  intros Hn. revert l. induction fuel as [|fuel IH]; intros l Hl; [by destruct l; simpl in *; try lia|].
  simpl. destruct (py_read n l) as [c rest] eqn:Hr.
  destruct c as [|b c]; [by rewrite (py_read_nil n l Hn) by by rewrite Hr|].
  rewrite py_read_pos in Hr by done. injection Hr as Hc Hrest.
  assert (length (b :: c) = length (take (Z.to_nat n) l)) as Hlen by by rewrite Hc.
  rewrite length_take in Hlen. simpl in Hlen.
  destruct (IH rest) as [IH1 IH2]; [rewrite <-Hrest, length_drop; lia|].
  rewrite join_cons. split; [rewrite IH1, <-(take_drop (Z.to_nat n) l); congruence|].
  simpl. unfold blen. simpl. split_and!; [lia | lia | | done].
  intros Hne. assert (rest ≠ []) as Hr; [intros ->; apply Hne; by destruct fuel; simpl; [|rewrite py_read_pos, take_nil]|].
  assert (length rest ≠ 0%nat) as Hr' by by destruct rest.
  rewrite <-Hrest, length_drop in Hr'. lia.
Qed.

Lemma chunks_join n l : 0 < n → mjoin (chunks n l) = l.
Proof. intros. by apply read_chunks_spec. Qed.
Lemma chunks_chunked n l : 0 < n → chunked n (chunks n l).
Proof. intros. by apply read_chunks_spec. Qed.

Lemma compute_checksum_spec l : compute_checksum l = sha256_hex l.
Proof. unfold compute_checksum. by rewrite chunks_join by lia. Qed.

Lemma write_shard_lane fuel bs n i k l :
  write_shard_loop fuel bs n i k l = mjoin (lane n i k (read_chunks fuel bs l)).
Proof.
  revert k l. induction fuel as [|fuel IH]; intros k l; [done|]. simpl.
  destruct (py_read bs l) as [[|b c] rest]; [done|]. rewrite IH. simpl.
  by case_bool_decide.
Qed.

Lemma mod_apart k j n : 0 ≤ j → j + 1 < n → (k + 1 + j) mod n ≠ k mod n.
Proof.
  intros Hj Hn Heq. assert (n ≠ 0) as Hn0 by lia.
  pose proof (Z.div_mod k n Hn0) as H1. pose proof (Z.div_mod (k + 1 + j) n Hn0) as H2.
  rewrite Heq in H2. set (a := k / n) in *. set (b := (k + 1 + j) / n) in *.
  assert (j + 1 = n * (b - a)) as Hd by lia.
  assert (b - a ≤ 0 ∨ 1 ≤ b - a) as [|] by lia; nia.
Qed.

Lemma lane_skip n i k cs m : (∀ j, 0 ≤ j < Z.of_nat m → (k + j) mod n ≠ i) →
  lane n i k cs = lane n i (k + Z.of_nat m) (drop m cs).
Proof.
  revert k cs. induction m as [|m IH]; intros k cs Hj; [by rewrite drop_0, Z.add_0_r|].
  destruct cs as [|c cs]; [by rewrite drop_nil|]. cbn [lane drop].
  rewrite bool_decide_false by (specialize (Hj 0); rewrite Z.add_0_r in Hj; apply Hj; lia).
  rewrite (IH (k + 1)); [f_equal; lia|]. intros j Hj'.
  replace (k + 1 + j) with (k + (j + 1)) by lia. apply Hj. lia.
Qed.

(** The lanes [i], [i+1], ..., [n-1]. *)
Definition lanes_from (n i k : Z) (m : nat) (cs : list bytes) : list bytes :=
  (λ j, mjoin (lane n (i + Z.of_nat j) k cs)) <$> seq 0 m.

Lemma lanes_from_S n i k m cs :
  lanes_from n i k (S m) cs = mjoin (lane n i k cs) :: lanes_from n (i + 1) k m cs.
Proof.
  unfold lanes_from. simpl. rewrite Z.add_0_r. f_equal. rewrite <-fmap_S_seq, <-list_fmap_compose.
  apply list_fmap_ext. intros ? j _. simpl. do 2 f_equal. lia.
Qed.

Lemma lane_join_nil bs n i k cs : chunked bs cs → mjoin (lane n i k cs) ≠ [] → cs ≠ [].
Proof. by intros _ H ->. Qed.

(** A pass over the lanes takes the next [m] blocks, one from each lane. *)
Lemma reassemble_pass_lanes bs n i k m cs :
  chunked bs cs → 0 ≤ i → i + Z.of_nat m = n → k mod n = i mod n →
  reassemble_pass bs (lanes_from n i k m cs) =
  if decide (length cs < m)%nat
  then (true, (reassemble_pass bs (lanes_from n i k m cs)).1.2, mjoin cs)
  else (false, lanes_from n i (k + Z.of_nat m) m (drop m cs), mjoin (take m cs)).
Proof.
  revert i k cs. induction m as [|m IH]; intros i k cs Hcs Hi Hn Hk.
  { rewrite decide_False by lia. by rewrite take_0. }
  rewrite lanes_from_S. assert (k mod n = i) as Hki by (rewrite Hk; apply Z.mod_small; lia).
  destruct cs as [|c cs].
  { rewrite decide_True by (simpl; lia). simpl. by destruct (py_read bs []) as [[|??]?] eqn:E;
      unfold py_read in E; case_bool_decide; rewrite ?take_nil in E. }
  simpl in Hcs. destruct Hcs as (Hlen & Hfull & Hcs).
  cbn [lane]. rewrite bool_decide_true, join_cons by done. cbn [reassemble_pass].
  rewrite py_read_block by (done || (intros Hne; by apply Hfull, (lane_join_nil bs n i (k + 1)))).
  destruct c as [|b c]; [unfold blen in Hlen; simpl in Hlen; lia|].
  assert (lanes_from n (i + 1) k m ((b :: c) :: cs) = lanes_from n (i + 1) (k + 1) m cs) as ->.
  { unfold lanes_from. apply list_fmap_ext. intros ? j Hj%lookup_seq. cbn [lane].
    rewrite bool_decide_false by lia. done. }
  rewrite IH; [|done|lia|lia|].
  2: { rewrite <-Z.add_mod_idemp_l, Hki by lia. done. }
  simpl length. repeat case_decide; try lia.
  - done.
  - cbn [drop take]. rewrite lanes_from_S.
    rewrite (lane_skip n i (k + 1) cs m) by (intros j Hj; rewrite <-Hki; apply mod_apart; lia).
    replace (k + 1 + Z.of_nat m) with (k + Z.of_nat (S m)) by lia. done.
Qed.

Lemma reassemble_loop_lanes fuel bs m k cs :
  (0 < m)%nat → chunked bs cs → k mod Z.of_nat m = 0 → (length cs < fuel)%nat →
  reassemble_loop fuel bs (lanes_from (Z.of_nat m) 0 k m cs) = Some (mjoin cs).
Proof.
  intros Hm. revert k cs. induction fuel as [|fuel IH]; intros k cs Hcs Hk Hlen; [lia|].
  cbn [reassemble_loop].
  rewrite reassemble_pass_lanes; [|done | lia | lia | by rewrite Hk, Z.mod_0_l by lia].
  case_decide; [done|].
  assert (chunked bs (drop m cs)) as Hdrop.
  { clear -Hcs. revert m. induction cs as [|c cs IH]; intros m; [by rewrite drop_nil|].
    destruct m as [|m]; [done|]. apply IH. by destruct Hcs as (_ & _ & ?). }
  rewrite IH; [|done| |rewrite length_drop; lia].
  - simpl. f_equal. rewrite <-(take_drop m cs) at 3. by rewrite join_app.
  - rewrite <-Z.add_mod_idemp_r, Z.mod_same, Z.add_0_r by lia. done.
Qed.

Lemma read_chunks_length fuel n l : (length (read_chunks fuel n l) ≤ fuel)%nat.
Proof.
  revert l. induction fuel as [|fuel IH]; intros l; simpl; [lia|].
  destruct (py_read n l) as [[|b c] rest]; simpl; [lia|]. specialize (IH rest). lia.
Qed.

(** All the lanes of a file, as [write_shard_to_tempfile] produces them. *)
Definition all_shards (content : bytes) (lanes : nat) (block_size : Z) : result (list bytes) :=
  mapR (λ i, write_shard_to_tempfile content (Z.of_nat i) (Z.of_nat lanes) block_size)
    (seq 0 lanes).

Lemma write_shard_Ok content i n bs : 0 < n →
  write_shard_to_tempfile content i n bs = Ok (mjoin (lane n i 0 (chunks bs content))).
Proof.
  intros Hn. unfold write_shard_to_tempfile. rewrite bool_decide_false by lia. simpl.
  by rewrite write_shard_lane.
Qed.

Lemma mapR_all {A B} (f : A → result B) (g : A → B) l :
  (∀ a, a ∈ l → f a = Ok (g a)) → mapR f l = Ok (g <$> l).
Proof.
  induction l as [|a l IH]; simpl; intros Hf; [done|]. rewrite Hf by by left. simpl.
  rewrite IH; [done|]. intros b Hb. apply Hf. by right.
Qed.

Lemma all_shards_Ok content lanes bs : (0 < lanes)%nat →
  all_shards content lanes bs = Ok (lanes_from (Z.of_nat lanes) 0 0 lanes (chunks bs content)).
Proof.
  intros Hl. unfold all_shards.
  rewrite (mapR_all _ (λ j, mjoin (lane (Z.of_nat lanes) (Z.of_nat j) 0 (chunks bs content)))).
  - done.
  - intros i _. by rewrite write_shard_Ok by lia.
Qed.

(** ** The sizes planned *)
Lemma length_lane_sizes_loop bs fs n k m sizes :
  length (lane_sizes_loop bs fs n k m sizes) = length sizes.
Proof.
  revert k sizes. induction m as [|m IH]; intros k sizes; simpl; [done|].
  by rewrite IH, length_alter.
Qed.

Lemma nth_alter (f : Z → Z) i j l :
  (i < length l)%nat → nth j (alter f i l) 0 = if decide (i = j) then f (nth j l 0) else nth j l 0.
Proof.
  intros Hi. rewrite !nth_lookup. destruct (decide (i = j)) as [->|Hne].
  - rewrite list_lookup_alter_eq. by destruct (lookup_lt_is_Some_2 l j Hi) as [x ->].
  - by rewrite list_lookup_alter_ne.
Qed.

Lemma blen_app l1 l2 : blen (l1 ++ l2)%list = blen l1 + blen l2.
Proof. unfold blen. rewrite length_app. lia. Qed.

Lemma block_size_at bs fs k c cs :
  0 < bs → chunked bs (c :: cs) → fs - k * bs = blen (mjoin (c :: cs)) →
  Z.min (k * bs + bs) fs - k * bs = blen c ∧ (cs ≠ [] → fs - (k + 1) * bs = blen (mjoin cs)).
Proof.
  intros Hbs (Hc & Hfull & Hcs) Hfs. rewrite join_cons, blen_app in Hfs.
  destruct (decide (cs = [])) as [->|Hne].
  - assert (blen (mjoin []) = 0) as Hnil by done. rewrite Hnil in Hfs. split; [lia | done].
  - specialize (Hfull Hne). assert (0 ≤ blen (mjoin cs)) by (unfold blen; lia). split; [|intros _]; lia.
Qed.

Lemma lane_sizes_loop_spec bs fs n k cs sizes j :
  0 < bs → 0 < n → Z.of_nat (length sizes) = n → chunked bs cs → 0 ≤ k →
  fs - k * bs = blen (mjoin cs) → (j < length sizes)%nat →
  nth j (lane_sizes_loop bs fs n k (length cs) sizes) 0 =
  nth j sizes 0 + blen (mjoin (lane n (Z.of_nat j) k cs)).
Proof.
  intros Hbs Hn. revert k sizes. induction cs as [|c cs IH]; intros k sizes Hlen Hcs Hk Hfs Hj.
  { simpl. unfold blen. simpl. lia. }
  destruct (block_size_at bs fs k c cs Hbs Hcs Hfs) as [Hsize Hnext].
  destruct Hcs as (Hc & _ & Hcs).
  pose proof (Z.mod_pos_bound k n Hn) as Hkn. cbn [length lane_sizes_loop lane]. rewrite Hsize.
  destruct (decide (cs = [])) as [->|Hne].
  - cbn [length lane_sizes_loop lane]. rewrite nth_alter by lia.
    case_bool_decide; case_decide; try lia; unfold blen; simpl; rewrite ?app_nil_r; lia.
  - rewrite IH; [|by rewrite length_alter|done|lia| |by rewrite length_alter].
    + rewrite nth_alter by lia. case_bool_decide; case_decide; try lia.
      rewrite join_cons, blen_app. lia.
    + by apply Hnext.
Qed.

Definition sum (l : list Z) : Z := foldr Z.add 0 l.

Lemma sum_alter d i l : (i < length l)%nat → sum (alter (λ size, size + d) i l) = sum l + d.
Proof.
  unfold sum. revert i. induction l as [|x l IH]; intros [|i] Hi; csimpl in *; try lia.
  rewrite IH by lia. lia.
Qed.

Lemma sum_lane_sizes_loop bs fs n k cs sizes :
  0 < bs → 0 < n → Z.of_nat (length sizes) = n → chunked bs cs →
  (cs ≠ [] → fs - k * bs = blen (mjoin cs)) →
  sum (lane_sizes_loop bs fs n k (length cs) sizes) = sum sizes + blen (mjoin cs).
Proof.
  intros Hbs Hn. revert k sizes. induction cs as [|c cs IH]; intros k sizes Hlen Hcs Hfs.
  { simpl. unfold blen. simpl. lia. }
  destruct (block_size_at bs fs k c cs Hbs Hcs (Hfs ltac:(done))) as [Hsize Hnext].
  destruct Hcs as (Hc & _ & Hcs). pose proof (Z.mod_pos_bound k n Hn) as Hkn.
  cbn [length lane_sizes_loop]. rewrite Hsize, IH, sum_alter, join_cons, blen_app;
    [lia | lia | by rewrite length_alter | done | done].
Qed.

Lemma num_blocks_chunks bs l : 0 < bs → l ≠ [] →
  Z.to_nat (num_blocks bs (blen l)) = length (chunks bs l).
Proof.
  intros Hbs Hl. unfold num_blocks.
  pose proof (chunks_join bs l Hbs) as Hjoin. pose proof (chunks_chunked bs l Hbs) as Hch.
  assert (blen l = blen (mjoin (chunks bs l))) as -> by by rewrite Hjoin.
  assert (chunks bs l ≠ []) as Hne by (intros E; by rewrite E in Hjoin).
  revert Hch Hne. clear -Hbs. induction (chunks bs l) as [|c cs IH]; [done|].
  intros (Hc & Hfull & Hcs) _. rewrite join_cons, blen_app. destruct cs as [|c' cs].
  - assert (blen (mjoin []) = 0) as -> by done. rewrite Z.add_0_r.
    assert ((blen c + bs - 1) / bs = 1) as ->; [|done].
    symmetry. apply (Z.div_unique _ _ _ (blen c - 1)); lia.
  - specialize (IH Hcs ltac:(done)). cbn [length] in *. rewrite <-IH, Hfull by done.
    replace (bs + blen (mjoin (c' :: cs)) + bs - 1)
      with (blen (mjoin (c' :: cs)) + bs - 1 + 1 * bs) by lia.
    rewrite Z.div_add by lia.
    assert (0 ≤ (blen (mjoin (c' :: cs)) + bs - 1) / bs).
    { apply Z.div_pos; [unfold blen; lia | done]. }
    assert (1 ≤ (blen (mjoin (c' :: cs)) + bs - 1) / bs); [|lia].
    destruct Hcs as (Hc' & _). rewrite join_cons, blen_app.
    apply Z.div_le_lower_bound; [done|]. unfold blen in *. lia.
Qed.

Lemma lane_sizes_spec bs l lanes j : 0 < bs → (0 < lanes)%nat → (j < lanes)%nat →
  nth j (lane_sizes bs (blen l) lanes) 0 =
  blen (mjoin (lane (Z.of_nat lanes) (Z.of_nat j) 0 (chunks bs l))).
Proof.
  intros Hbs Hlanes Hj. unfold lane_sizes. destruct (decide (l = [])) as [->|Hl].
  - unfold num_blocks. assert ((blen [] + bs - 1) / bs = 0) as ->.
    { apply Z.div_small. unfold blen. simpl. lia. }
    simpl. rewrite Z.mod_0_l by lia. rewrite nth_alter by (rewrite repeat_length; lia).
    rewrite nth_repeat. unfold blen. simpl. case_decide; lia.
  - rewrite num_blocks_chunks by done.
    rewrite lane_sizes_loop_spec; [|done|lia|by rewrite repeat_length|by apply chunks_chunked
      |lia| |by rewrite repeat_length].
    + by rewrite nth_repeat.
    + rewrite chunks_join by done. lia.
Qed.

Lemma sum_repeat_0 n : sum (repeat 0 n) = 0.
Proof. unfold sum. induction n; simpl; lia. Qed.

Lemma sum_lane_sizes bs l lanes : 0 < bs → (0 < lanes)%nat →
  sum (lane_sizes bs (blen l) lanes) = blen l.
Proof.
  intros Hbs Hlanes. unfold lane_sizes. destruct (decide (l = [])) as [->|Hl].
  - unfold num_blocks. assert ((blen [] + bs - 1) / bs = 0) as ->.
    { apply Z.div_small. unfold blen. simpl. lia. }
    replace (Z.to_nat (Z.max 1 0)) with 1%nat by done. cbn [lane_sizes_loop]. rewrite Z.mod_0_l by lia.
    rewrite sum_alter by (rewrite repeat_length; lia). rewrite sum_repeat_0. unfold blen. simpl. lia.
  - rewrite num_blocks_chunks, sum_lane_sizes_loop, sum_repeat_0, chunks_join;
      [done|done|done|lia|by rewrite repeat_length|by apply chunks_chunked|intros _|done|done].
    rewrite chunks_join by done. lia.
Qed.

(** ** Termination *)
Definition total (hs : list bytes) : nat := length (mjoin hs).

Lemma py_read_decreases n l c rest : py_read n l = (c, rest) → c ≠ [] →
  (length rest < length l)%nat.
Proof.
  unfold py_read. case_bool_decide; intros [= <- <-] Hc; simpl.
  - destruct l; [done | simpl; lia].
  - rewrite length_drop. destruct (Z.to_nat n) eqn:?; [by rewrite take_0 in Hc|].
    destruct l; [by rewrite take_nil in Hc | simpl; lia].
Qed.

Lemma reassemble_pass_decreases bs hs :
  let '(done, hs', _) := reassemble_pass bs hs in
  done = true ∨ length hs' = length hs ∧ (total hs' + length hs ≤ total hs)%nat.
Proof.
  induction hs as [|h hs IH]; simpl; [by right|].
  destruct (py_read bs h) as [[|b c] rest] eqn:Hr; [by left|].
  destruct (reassemble_pass bs hs) as [[done hs'] out].
  destruct IH as [->|[Hl Ht]]; [by left|]. right. simpl. rewrite Hl. split; [done|].
  unfold total in *. rewrite !join_cons, !length_app.
  apply py_read_decreases in Hr; [lia | done].
Qed.

Lemma reassemble_loop_total fuel bs hs :
  hs ≠ [] → (total hs < fuel)%nat → is_Some (reassemble_loop fuel bs hs).
Proof.
  revert hs. induction fuel as [|fuel IH]; intros hs Hne Hf; [lia|]. simpl.
  pose proof (reassemble_pass_decreases bs hs) as Hp.
  destruct (reassemble_pass bs hs) as [[done hs'] out]. destruct Hp as [->|[Hl Ht]]; [by eauto|].
  destruct done; [by eauto|]. apply fmap_is_Some, IH.
  - intros ->. by destruct hs.
  - destruct hs; simpl in *; [done | lia].
Qed.

Lemma reassemble_loop_empty fuel bs : reassemble_loop fuel bs [] = None.
Proof. induction fuel as [|fuel IH]; simpl; [done | by rewrite IH]. Qed.

(** More fuel changes nothing. *)
Lemma reassemble_loop_fuel fuel fuel' bs hs out :
  (fuel ≤ fuel')%nat → reassemble_loop fuel bs hs = Some out → reassemble_loop fuel' bs hs = Some out.
Proof.
  revert fuel' hs out. induction fuel as [|fuel IH]; intros [|fuel'] hs out Hle; simpl; try done; [lia|].
  destruct (reassemble_pass bs hs) as [[done hs'] o]. destruct done; [done|].
  intros (out' & Hrun & ->)%fmap_Some. by rewrite (IH fuel' hs' out'); [|lia|].
Qed.

(** ** Splitting and reassembling *)
Lemma reassemble_all_shards (content : bytes) (lanes fuel : nat) (bs : Z) :
  0 < bs → (0 < lanes)%nat → (length content < fuel)%nat →
  ∃ shards, all_shards content lanes bs = Ok shards ∧ length shards = lanes ∧
    reassemble_block_stripe fuel shards bs = Some (content, compute_checksum content).
Proof.
  intros Hbs Hlanes Hfuel. eexists. split; [by apply all_shards_Ok|].
  split; [unfold lanes_from; by rewrite length_fmap, length_seq|].
  unfold reassemble_block_stripe. rewrite reassemble_loop_lanes; [|done| | |].
  - simpl. by rewrite chunks_join, compute_checksum_spec.
  - by apply chunks_chunked.
  - apply Z.mod_0_l. lia.
  - pose proof (read_chunks_length (length content) bs content). unfold chunks. lia.
Qed.

(** * Properties *)

(** C22: Sharding loses nothing: splitting any file into any positive number of
    lanes with any positive block size, and reassembling the shards, gives back
    the file byte for byte together with the checksum recorded in its plan; the
    reassembly loop ends within one pass more than the file has bytes. *)
Theorem shards_reassemble (content : bytes) (lanes fuel : nat) (block_size : Z)
    (Hbs : 0 < block_size) (Hlanes : (0 < lanes)%nat) (Hfuel : (length content < fuel)%nat) :
  ∃ shards, all_shards content lanes block_size = Ok shards ∧ length shards = lanes ∧
    reassemble_block_stripe fuel shards block_size = Some (content, compute_checksum content).
Proof. by apply reassemble_all_shards. Qed.

Lemma shards_reassemble_witness :
  ∃ shards, all_shards (bytes_of "abcdefghij") 3 2 = Ok shards ∧ length shards = 3%nat ∧
    shards = [bytes_of "abgh"; bytes_of "cdij"; bytes_of "ef"] ∧
    reassemble_block_stripe 11 shards 2 =
      Some (bytes_of "abcdefghij", compute_checksum (bytes_of "abcdefghij")).
Proof.
  destruct (shards_reassemble (bytes_of "abcdefghij") 3 11 2 ltac:(lia) ltac:(lia)
    ltac:(vm_compute; lia)) as (shards & H1 & H2 & H3).
  exists shards. split; [exact H1|]. split; [exact H2|]. split; [|exact H3].
  assert (Ok shards = Ok [bytes_of "abgh"; bytes_of "cdij"; bytes_of "ef"]) as H4
    by (rewrite <-H1; vm_compute; reflexivity).
  injection H4 as H4. exact H4.
Defined.

(** The block-stripe plan describes the shards that are written: one shard
    per lane, on the lane's barcode, whose planned size is the length of the
    shard file; the sizes add up to the file, whose checksum the plan carries. *)
Theorem plan_block_stripe_sizes (content : bytes) (group name base : string)
    (barcodes : list string) (block_size : Z)
    (Hbs : 0 < block_size) (Hlanes : (2 ≤ length barcodes)%nat) :
  ∃ p shards, plan_block_stripe group name content barcodes base block_size = Ok p ∧
    all_shards content (length barcodes) block_size = Ok shards ∧
    sh_barcode <$> sp_shards p = barcodes ∧
    sh_block_end <$> sp_shards p = blen <$> shards ∧
    sum (sh_block_end <$> sp_shards p) = sp_file_size p ∧
    sp_file_size p = blen content ∧ sp_checksum_sha256 p = sha256_hex content.
Proof.
  eexists _, _. unfold plan_block_stripe. rewrite !bool_decide_false by lia.
  split; [reflexivity|]. split; [apply all_shards_Ok; lia|]. simpl.
  set (sizes := lane_sizes block_size (blen content) (length barcodes)).
  assert (length sizes = length barcodes) as Hlen.
  { unfold sizes, lane_sizes. by rewrite length_lane_sizes_loop, repeat_length. }
  rewrite !fmap_imap. unfold compose. simpl.
  assert (imap (λ i (_ : string), nth i sizes 0) barcodes = sizes) as ->.
  { apply list_eq. intros i. rewrite list_lookup_imap.
    destruct (decide (i < length barcodes)%nat) as [Hi|Hi].
    - destruct (lookup_lt_is_Some_2 barcodes i Hi) as [b ->]. simpl.
      symmetry. rewrite nth_lookup. by destruct (lookup_lt_is_Some_2 sizes i) as [x ->]; [lia|].
    - rewrite !lookup_ge_None_2 by lia. done. }
  split_and!.
  - apply list_eq. intros i. rewrite list_lookup_imap. by destruct (barcodes !! i).
  - apply list_eq. intros i. unfold lanes_from. rewrite <-list_fmap_compose, list_lookup_fmap.
    destruct (decide (i < length barcodes)%nat) as [Hi|Hi].
    + rewrite lookup_seq_lt by done. simpl. rewrite Z.add_0_l, <-lane_sizes_spec by lia.
      fold sizes. rewrite nth_lookup. by destruct (lookup_lt_is_Some_2 sizes i) as [x ->]; [lia|].
    + rewrite lookup_ge_None_2 by lia. rewrite lookup_seq_ge by lia. done.
  - unfold sizes. apply sum_lane_sizes; lia.
  - done.
  - apply compute_checksum_spec.
Qed.

Lemma plan_block_stripe_sizes_witness :
  ∃ p, plan_block_stripe "g" "f" (bytes_of "abcdefghij") ["A"; "B"; "C"] "/base" 2 = Ok p ∧
    sh_block_end <$> sp_shards p = [4; 4; 2].
Proof.
  destruct (plan_block_stripe_sizes (bytes_of "abcdefghij") "g" "f" "/base" ["A"; "B"; "C"] 2
    ltac:(lia) ltac:(simpl; lia)) as (p & shards & H1 & H2 & _ & H4 & _).
  exists p. split; [exact H1|]. rewrite H4.
  assert (Ok shards = Ok [bytes_of "abgh"; bytes_of "cdij"; bytes_of "ef"]) as H5
    by (rewrite <-H2; vm_compute; reflexivity).
  injection H5 as ->. reflexivity.
Defined.

(** Reassembly returns exactly when it is given at least one shard: with
    shards it ends within one pass more than they hold bytes, whatever the block
    size; with none, the loop never sets its flag and runs for ever. *)
Theorem reassemble_terminates (shard_files : list bytes) (block_size : Z) :
  (shard_files ≠ [] → ∀ fuel, (total shard_files < fuel)%nat →
     is_Some (reassemble_block_stripe fuel shard_files block_size)) ∧
  (shard_files = [] → ∀ fuel, reassemble_block_stripe fuel shard_files block_size = None).
Proof.
  unfold reassemble_block_stripe. split.
  - intros Hne fuel Hf. by apply fmap_is_Some, reassemble_loop_total.
  - intros -> fuel. by rewrite reassemble_loop_empty.
Qed.
