(* ===== verification/Paths.v ===== *)
(** [pathlib.PurePosixPath] of the standard library: the normal form
    [str(PurePosixPath(s))] the catalog stores paths in, and stable sorting. *)
From stdpp Require Import base list option strings sorting sets.
From Stdlib Require Import Ascii ZArith Lia.
From S2P Require Import Prelude.
#[local] Open Scope string_scope.
#[local] Open Scope Z_scope.

(** * Path text *)
Fixpoint split_on (sep : ascii) (s : string) : list string :=
  match s with
  | EmptyString => [""]
  | String c s =>
      if bool_decide (c = sep) then "" :: split_on sep s
      else match split_on sep s with
           | [] => [String c ""]
           | w :: ws => String c w :: ws
           end
  end.

(** The parts of a path: empty and ["."] components are dropped. *)
Definition path_parts (s : string) : list string :=
  filter (λ p, p ≠ "" ∧ p ≠ ".") (split_on "/"%char s).

(** The root: exactly two leading slashes are kept as such. *)
Definition path_root (s : string) : string :=
  match s with
  | String "/"%char (String "/"%char (String "/"%char _)) => "/"
  | String "/"%char (String "/"%char _) => "//"
  | String "/"%char _ => "/"
  | _ => ""
  end.

Fixpoint join_parts (l : list string) : string :=
  match l with
  | [] => ""
  | [p] => p
  | p :: l => p ++ "/" ++ join_parts l
  end.

(** [str(PurePosixPath(s))]. *)
Definition posix_path (s : string) : string :=
  let r := path_root s in
  let ps := path_parts s in
  if bool_decide (r = "" ∧ ps = []) then "." else r ++ join_parts ps.

(** ** Splitting and joining *)
Definition no_slash (s : string) : Prop := "/"%char ∉ String.list_ascii_of_string s.

Lemma split_on_no_slash s : Forall no_slash (split_on "/"%char s).
Proof.
  induction s as [|c s IH]; simpl; [constructor; [apply not_elem_of_nil|done]|].
  case_bool_decide; [constructor; [apply not_elem_of_nil|done]|].
  destruct (split_on _ s) as [|x xs]; [constructor; [|done]|inversion IH; subst; constructor; [|done]];
    unfold no_slash; simpl; rewrite not_elem_of_cons; split; try done; apply not_elem_of_nil.
Qed.

Lemma split_on_cons_no_slash s : no_slash s → split_on "/"%char s = [s].
Proof.
  unfold no_slash. induction s as [|c s IH]; simpl; [done|]. rewrite not_elem_of_cons. intros [Hc Hs].
  rewrite bool_decide_false by congruence. by rewrite IH.
Qed.

Lemma split_on_app s t : no_slash s → split_on "/"%char (s ++ String "/" t) = s :: split_on "/"%char t.
Proof.
  unfold no_slash. induction s as [|c s IH]; simpl; [done|]. rewrite not_elem_of_cons. intros [Hc Hs].
  rewrite bool_decide_false by congruence. by rewrite IH.
Qed.

Lemma split_on_join l : l ≠ [] → Forall no_slash l → split_on "/"%char (join_parts l) = l.
Proof.
  induction l as [|p l IH]; [done|]. intros _ [Hp Hl]%Forall_cons. destruct l as [|q l].
  - by apply split_on_cons_no_slash.
  - change (join_parts (p :: q :: l)) with (p ++ String "/" (join_parts (q :: l))).
    by rewrite split_on_app, IH.
Qed.

(** A component that names something below. *)
Definition proper (p : string) : Prop := p ∉ [""; "."; ".."] ∧ no_slash p.

Lemma path_parts_join l : l ≠ [] → Forall proper l → path_parts (join_parts l) = l.
Proof.
  intros Hne Hl. unfold path_parts. rewrite split_on_join; [|done|eapply Forall_impl; [exact Hl|]; by intros p []].
  clear Hne. induction Hl as [|p l [Hp _] _ IH]; [done|].
  rewrite filter_cons_True, IH; [done|]. rewrite !not_elem_of_cons in Hp. naive_solver.
Qed.

(** ** The normal form is normal *)
Lemma path_root_other c s : c ≠ "/"%char → path_root (String c s) = "".
Proof. by destruct c as [[] [] [] [] [] [] [] []]. Qed.
Lemma path_root_cases s : path_root s ∈ [""; "/"; "//"].
Proof.
  destruct s as [|c s]; [by left|].
  destruct (decide (c = "/"%char)) as [->|]; [|rewrite path_root_other by done; by left].
  destruct s as [|c s]; [by right; left|]. destruct (decide (c = "/"%char)) as [->|].
  - destruct s as [|c s]; [by do 2 right; left|].
    destruct c as [[] [] [] [] [] [] [] []]; simpl; set_solver.
  - destruct c as [[] [] [] [] [] [] [] []]; simpl; set_solver.
Qed.

Lemma path_parts_elem s x : x ∈ path_parts s → x ≠ "" ∧ x ≠ "." ∧ no_slash x.
Proof.
  unfold path_parts. rewrite list_elem_of_filter. intros [[H1 H2] Hx].
  split_and!; [done..|]. pose proof (split_on_no_slash s) as H. rewrite Forall_forall in H. by apply H.
Qed.

Lemma path_parts_normal s : path_parts (join_parts (path_parts s)) = path_parts s.
Proof.
  pose proof (path_parts_elem s) as Hp. destruct (decide (path_parts s = [])) as [->|Hne]; [done|].
  unfold path_parts at 1. rewrite split_on_join; [|done|apply Forall_forall; intros x Hx; by apply Hp].
  by apply list_filter_filter_r.
Qed.

Lemma path_parts_slash s : path_parts (String "/" s) = path_parts s.
Proof. done. Qed.

Lemma path_parts_posix s : path_parts (posix_path s) = path_parts s.
Proof.
  unfold posix_path. case_bool_decide as Hs; [by destruct Hs as [_ ->]|].
  pose proof (path_root_cases s) as Hr. rewrite !elem_of_cons in Hr.
  destruct Hr as [->|[->|[->|[]%elem_of_nil]]]; simpl; rewrite ?path_parts_slash; apply path_parts_normal.
Qed.

Lemma posix_path_idemp s : posix_path (posix_path s) = posix_path s.
Proof.
  pose proof (path_parts_posix s) as Hparts. revert Hparts.
  unfold posix_path at 1 3 4. case_bool_decide as Hs; [done|]. intros Hparts.
  assert (path_root (path_root s ++ join_parts (path_parts s)) = path_root s) as Hroot.
  { destruct (path_parts s) as [|p ps] eqn:Hps.
    - pose proof (path_root_cases s) as Hr. rewrite !elem_of_cons in Hr.
      destruct Hr as [->|[->|[->|[]%elem_of_nil]]]; done.
    - destruct (path_parts_elem s p) as (Hne & _ & Hsl); [rewrite Hps; by left|].
      destruct p as [|c p]; [done|]. assert (c ≠ "/"%char) as Hc by (intros ->; apply Hsl; by left).
      assert (∃ u, join_parts (String c p :: ps) = String c u) as [u ->].
      { destruct ps; simpl; by eexists. }
      pose proof (path_root_cases s) as Hr. rewrite !elem_of_cons in Hr.
      destruct Hr as [->|[->|[->|[]%elem_of_nil]]]; simpl; [by apply path_root_other|..];
        by destruct c as [[] [] [] [] [] [] [] []]. }
  unfold posix_path. rewrite Hparts, Hroot. by rewrite bool_decide_false.
Qed.

(** A path goes on in its last part. *)
Lemma split_on_suffix s t : no_slash t → ∃ init x,
  split_on "/"%char s = (init ++ [x])%list ∧ split_on "/"%char (s ++ t) = (init ++ [(x ++ t)%string])%list.
Proof.
  intros Ht. induction s as [|c s (init & x & Hs & Hst)]; simpl.
  { exists [], "". by rewrite split_on_cons_no_slash. }
  rewrite Hs, Hst. case_bool_decide; [by exists ("" :: init), x|].
  destruct init as [|y init]; [by exists [], (String c x) | by exists (String c y :: init), x].
Qed.
Lemma path_extended s t : no_slash t → (1 < String.length t)%nat → posix_path s ≠ posix_path (s ++ t).
Proof.
  intros Ht Hlen Heq. apply (f_equal path_parts) in Heq. rewrite !path_parts_posix in Heq.
  destruct (split_on_suffix s t Ht) as (init & x & Hs & Hst). revert Heq. unfold path_parts.
  rewrite Hs, Hst, !filter_app. intros Heq%app_inv_head.
  assert (∀ y, (1 < String.length (y ++ t)%string)%nat) as Hl.
  { intros y. induction y as [|c y IH]; simpl; [done | simpl in IH; lia]. }
  rewrite (filter_cons_True _ (x ++ t)%string) in Heq.
  2: { specialize (Hl x). split; intros H; rewrite H in Hl; simpl in Hl; lia. }
  rewrite filter_cons in Heq. case_decide; [|done]. injection Heq as Heq. clear -Heq Hlen.
  induction x as [|c x IH]; simpl in Heq; [change ("" = t) in Heq; subst t; simpl in Hlen; lia|].
  injection Heq as Heq. auto.
Qed.

Lemma join_parts_inj l l' :
  l ≠ [] → l' ≠ [] → Forall no_slash l → Forall no_slash l' → join_parts l = join_parts l' → l = l'.
Proof. intros ???? H. apply (f_equal (split_on "/"%char)) in H. by rewrite !split_on_join in H. Qed.

(** * Sorting

    [sorted(l, key=...)] and [ORDER BY]: insertion sort, stable. *)
Section sort.
Context {A : Type} (le : A → A → bool).

Fixpoint insert_by (x : A) (l : list A) : list A :=
  match l with
  | [] => [x]
  | y :: l => if le x y then x :: y :: l else y :: insert_by x l
  end.
Definition sort_by (l : list A) : list A := foldr insert_by [] l.

Lemma insert_by_perm x l : insert_by x l ≡ₚ x :: l.
Proof.
  induction l as [|y l IH]; simpl; [done|]. destruct (le x y); [done|].
  rewrite IH. apply Permutation_swap.
Qed.

Lemma sort_by_perm l : sort_by l ≡ₚ l.
Proof. induction l as [|x l IH]; simpl; [done|]. by rewrite insert_by_perm, IH. Qed.

Lemma elem_of_sort_by x l : x ∈ sort_by l ↔ x ∈ l.
Proof. by rewrite sort_by_perm. Qed.

Definition le_all (x : A) (l : list A) : Prop := Forall (λ y, le x y = true) l.

Definition le_rel (x y : A) : Prop := le x y = true.

Lemma insert_by_sorted (Htotal : ∀ x y, le x y = true ∨ le y x = true)
    (Htrans : ∀ x y z, le x y = true → le y z = true → le x z = true) x l :
  StronglySorted le_rel l → StronglySorted le_rel (insert_by x l).
Proof.
  induction 1 as [|y l Hl IH Hy]; simpl; [repeat constructor|].
  destruct (le x y) eqn:Hxy.
  - constructor; [by constructor|]. constructor; [done|].
    eapply Forall_impl; [done|]. intros z Hz. by eapply Htrans.
  - constructor; [done|]. rewrite insert_by_perm. constructor; [|done].
    destruct (Htotal x y); [congruence | done].
Qed.

Lemma sort_by_sorted (Htotal : ∀ x y, le x y = true ∨ le y x = true)
    (Htrans : ∀ x y z, le x y = true → le y z = true → le x z = true) l :
  StronglySorted le_rel (sort_by l).
Proof. induction l as [|x l IH]; simpl; [constructor|]. by apply insert_by_sorted. Qed.

(** Sorting by a key that tells the elements apart gives the sorted list. *)
Lemma sort_by_unique (Htotal : ∀ x y, le x y = true ∨ le y x = true)
    (Htrans : ∀ x y z, le x y = true → le y z = true → le x z = true) l l' :
  l ≡ₚ l' → StronglySorted le_rel l' →
  (∀ x y, x ∈ l' → y ∈ l' → le x y = true → le y x = true → x = y) → sort_by l = l'.
Proof.
  intros Hp Hs Hanti. assert (sort_by l ≡ₚ l') as Hp' by by rewrite sort_by_perm.
  apply (StronglySorted_unique_strong le_rel); [|by apply sort_by_sorted | done..].
  intros x y Hx Hy. apply Hanti; [by rewrite <-Hp' | done].
Qed.

(** Selecting and sorting commute. *)
Lemma insert_by_filter_in (P : A → Prop) `{∀ x, Decision (P x)} 
    (Htrans : ∀ x y z, le x y = true → le y z = true → le x z = true) x l :
  StronglySorted le_rel l → P x → filter P (insert_by x l) = insert_by x (filter P l).
Proof.
  intros Hs Hx. induction Hs as [|y l Hl IH Hy]; simpl.
  { by rewrite filter_cons_True, filter_nil. }
  destruct (le x y) eqn:Hxy.
  - rewrite filter_cons_True by done.
    assert (∀ z, z ∈ filter P (y :: l) → le x z = true) as Hle.
    { intros z [_ [->|Hz]%elem_of_cons]%list_elem_of_filter; [done|].
      rewrite Forall_forall in Hy. eapply Htrans; [done | by apply Hy]. }
    destruct (filter P (y :: l)) as [|z l'] eqn:Hf; simpl; [done|].
    by rewrite Hle by by left.
  - rewrite !filter_cons. case_decide; simpl; rewrite IH; [|done]. by rewrite Hxy.
Qed.

Lemma insert_by_filter_out (P : A → Prop) `{∀ x, Decision (P x)} x l :
  ¬ P x → filter P (insert_by x l) = filter P l.
Proof.
  intros Hx. induction l as [|y l IH]; simpl; [by rewrite filter_cons_False|].
  destruct (le x y); [by rewrite filter_cons_False|]. rewrite !filter_cons. by rewrite IH.
Qed.

Lemma filter_sort_by (P : A → Prop) `{∀ x, Decision (P x)}
    (Htotal : ∀ x y, le x y = true ∨ le y x = true)
    (Htrans : ∀ x y z, le x y = true → le y z = true → le x z = true) l :
  filter P (sort_by l) = sort_by (filter P l).
Proof.
  induction l as [|x l IH]; [done|]. simpl. rewrite filter_cons. case_decide.
  - rewrite insert_by_filter_in by (done || by apply sort_by_sorted). simpl. by rewrite IH.
  - by rewrite insert_by_filter_out.
Qed.

(** A sorted list is its own sorting. *)
Fixpoint sorted_by (l : list A) : Prop :=
  match l with [] => True | x :: l => le_all x l ∧ sorted_by l end.

Lemma sort_by_id l : sorted_by l → sort_by l = l.
Proof.
  induction l as [|x l IH]; simpl; [done|]. intros [Hx Hl]. rewrite IH by done.
  destruct l as [|y l]; simpl; [done|]. apply Forall_cons in Hx as [-> _]. done.
Qed.
End sort.
