(* ===== verification/Leases.v ===== *)
(** Drive leases: the [LeaseStore] protocol of openblade/jobs/scheduler.py as a
    type class with its contract, and the process-local store
    [InMemoryLeaseStore].  Instants are integers; every operation takes the
    reading [now] of the clock it makes, and [uuid i] is the [i]-th identifier
    the call draws. *)
From stdpp Require Import base list option strings sets.
From Stdlib Require Import ZArith Lia.
From S2P Require Import Prelude Wp Domain.
#[local] Open Scope string_scope.
#[local] Open Scope Z_scope.

Definition _live (lease : drive_lease) (now : Z) : bool :=
  negb (is_some (dl_released_at lease)) && bool_decide (now < dl_expires_at lease).

(** [replace(lease, ...)]. *)
Definition lease_beat (now ttl : Z) (l : drive_lease) : drive_lease :=
  DriveLease (dl_id l) (dl_drive_id l) (dl_job_id l) (dl_barcode l) (dl_physical_drive_id l)
    (dl_fencing_token l) (dl_acquired_at l) now (now + ttl) (dl_released_at l).
Definition lease_released (now : Z) (l : drive_lease) : drive_lease :=
  DriveLease (dl_id l) (dl_drive_id l) (dl_job_id l) (dl_barcode l) (dl_physical_drive_id l)
    (dl_fencing_token l) (dl_acquired_at l) (dl_heartbeat_at l) (dl_expires_at l) (Some now).
Definition lease_at_drive (physical : Z) (l : drive_lease) : drive_lease :=
  DriveLease (dl_id l) (dl_drive_id l) (dl_job_id l) (dl_barcode l) (Some physical)
    (dl_fencing_token l) (dl_acquired_at l) (dl_heartbeat_at l) (dl_expires_at l)
    (dl_released_at l).

(** A new lease. *)
Definition fresh_lease (now ttl : Z) (job_id id : string) (drive_id : Z) (bc : string)
    (token : Z) : drive_lease :=
  DriveLease id drive_id job_id bc None token now now (now + ttl) None.

(** * The protocol *)
Class LeaseStore (T : Type) := {
  ls_acquire : (nat → string) → Z → string → list string → Z → Z → list Z →
    T → option (list drive_lease) * T;
  ls_acquire_drive_lease_at : string → Z → string → Z → string → Z →
    T → option drive_lease * T;
  ls_unreconciled_drives : T → dict Z (option string);
  ls_unreconciled_barcodes : T → list string;
  ls_heartbeat : Z → list string → Z → T → T;
  ls_set_physical_drive : string → Z → T → T;
  ls_release : Z → list string → T → T;
  ls_is_live : Z → string → Z → T → bool;
  ls_live_leases : Z → T → list drive_lease;
}.

(** ** Its contract

    Stated on the table of all leases ever granted, by identifier. *)
Notation leases := (dict string drive_lease).

Definition table_wf (d : leases) : Prop :=
  dict_wf d ∧ (∀ id l, dget d id = Some l → dl_id l = id) ∧
  (∀ i1 l1 i2 l2, dget d i1 = Some l1 → dget d i2 = Some l2 →
     dl_fencing_token l1 = dl_fencing_token l2 → i1 = i2).

(** No drive has two live leases at [now]. *)
Definition exclusive_at (now : Z) (d : leases) : Prop :=
  ∀ i1 l1 i2 l2, dget d i1 = Some l1 → dget d i2 = Some l2 →
    _live l1 now = true → _live l2 now = true → dl_drive_id l1 = dl_drive_id l2 → i1 = i2.

Definition busy_drives (now : Z) (d : leases) : list Z :=
  dl_drive_id <$> filter (λ l, _live l now = true) (dvalues d).

Definition free_drives (now num_drives : Z) (exclude : list Z) (d : leases) : list Z :=
  filter (λ x, x ∉ busy_drives now d ∧ x ∉ exclude) (zrange 0 num_drives).

(** What a successful [acquire] hands out: the [i]-th barcode on the [i]-th free
    drive, under consecutive new tokens. *)
Definition granted (uuid : nat → string) (now ttl : Z) (job_id : string) (token : Z)
    (pairs : list (Z * string)) : list drive_lease :=
  imap (λ i p, fresh_lease now ttl job_id (uuid i) p.1 p.2 (token + 1 + Z.of_nat i)) pairs.

Definition add_leases (ls : list drive_lease) (d : leases) : leases :=
  foldl (λ d l, dset d (dl_id l) l) d ls.

Definition on_leases (ids : list string) (p : drive_lease → bool) (f : drive_lease → drive_lease)
    (id : string) (l : drive_lease) : drive_lease :=
  if bool_decide (id ∈ ids) && p l then f l else l.

(** The identifiers a call draws are distinct and not in the table. *)
Definition uuids_fresh (uuid : nat → string) (n : nat) (d : leases) : Prop :=
  (∀ i, (i < n)%nat → dget d (uuid i) = None) ∧
  (∀ i j, (i < n)%nat → (j < n)%nat → uuid i = uuid j → i = j).

Class LeaseStoreLaws (T : Type) `{LeaseStore T} := {
  ls_table : T → leases;
  ls_last_token : T → Z;
  ls_acquire_spec uuid now job bcs num ttl ex s :
    ls_acquire uuid now job bcs num ttl ex s = (None, s) ∧
      (length (free_drives now num ex (ls_table s)) < length bcs)%nat ∨
    (length bcs ≤ length (free_drives now num ex (ls_table s)))%nat ∧
    ∃ s', ls_acquire uuid now job bcs num ttl ex s =
        (Some (granted uuid now ttl job (ls_last_token s)
                 (zip (free_drives now num ex (ls_table s)) bcs)), s') ∧
      (uuids_fresh uuid (length bcs) (ls_table s) →
       ls_table s' = add_leases (granted uuid now ttl job (ls_last_token s)
                       (zip (free_drives now num ex (ls_table s)) bcs)) (ls_table s) ∧
       ls_last_token s' = ls_last_token s + Z.of_nat (length bcs));
  ls_acquire_at_spec id now job drive bc ttl s :
    drive ∈ busy_drives now (ls_table s) ∧
      ls_acquire_drive_lease_at id now job drive bc ttl s = (None, s) ∨
    drive ∉ busy_drives now (ls_table s) ∧
    let l := fresh_lease now ttl job id drive bc (ls_last_token s + 1) in
    ∃ s', ls_acquire_drive_lease_at id now job drive bc ttl s = (Some l, s') ∧
      (dget (ls_table s) id = None →
       ls_table s' = dset (ls_table s) id l ∧ ls_last_token s' = ls_last_token s + 1);
  ls_heartbeat_spec now ids ttl s id : table_wf (ls_table s) →
    dget (ls_table (ls_heartbeat now ids ttl s)) id =
    on_leases ids (λ l, _live l now) (lease_beat now ttl) id <$> dget (ls_table s) id;
  ls_physical_spec lid p s id : table_wf (ls_table s) →
    dget (ls_table (ls_set_physical_drive lid p s)) id =
    on_leases [lid] (λ _, true) (lease_at_drive p) id <$> dget (ls_table s) id;
  ls_release_spec now ids s id : table_wf (ls_table s) →
    dget (ls_table (ls_release now ids s)) id =
    on_leases ids (λ l, negb (is_some (dl_released_at l))) (lease_released now) id
      <$> dget (ls_table s) id;
  ls_updates_wf now ids ttl lid p s : dict_wf (ls_table s) →
    dict_wf (ls_table (ls_heartbeat now ids ttl s)) ∧
    dict_wf (ls_table (ls_set_physical_drive lid p s)) ∧
    dict_wf (ls_table (ls_release now ids s));
  ls_updates_token now ids ttl lid p s :
    ls_last_token (ls_heartbeat now ids ttl s) = ls_last_token s ∧
    ls_last_token (ls_set_physical_drive lid p s) = ls_last_token s ∧
    ls_last_token (ls_release now ids s) = ls_last_token s;
  ls_is_live_spec now id token s :
    ls_is_live now id token s =
    match dget (ls_table s) id with
    | Some l => bool_decide (dl_fencing_token l = token) && _live l now
    | None => false
    end;
  ls_live_leases_spec now s l : table_wf (ls_table s) →
    l ∈ ls_live_leases now s ↔ l ∈ dvalues (ls_table s) ∧ _live l now = true;
}.

(** * The in-memory store *)
Record mem_store := InMemoryLeaseStore {
  ms_unreconciled : dict Z (option string);
  ms_unreconciled_barcode_set : list string;
  ms_leases : leases;
  ms_last_token : Z;
}.
Definition new_mem_store : mem_store := InMemoryLeaseStore [] [] [] 0.

Definition with_leases (d : leases) (token : Z) (s : mem_store) : mem_store :=
  InMemoryLeaseStore (ms_unreconciled s) (ms_unreconciled_barcode_set s) d token.

(** The loop over [zip(free, barcodes)]. *)
Fixpoint mem_acquire_loop (uuid : nat → string) (i : nat) (now ttl : Z) (job_id : string)
    (pairs : list (Z * string)) (s : mem_store) : list drive_lease * mem_store :=
  match pairs with
  | [] => ([], s)
  | (drive_id, bc) :: pairs =>
      let token := ms_last_token s + 1 in
      let lease := fresh_lease now ttl job_id (uuid i) drive_id bc token in
      let '(acquired, s') := mem_acquire_loop uuid (S i) now ttl job_id pairs
        (with_leases (dset (ms_leases s) (dl_id lease) lease) token s) in
      (lease :: acquired, s')
  end.

Definition mem_acquire (uuid : nat → string) (now : Z) (job_id : string) (barcodes : list string)
    (num_drives ttl : Z) (exclude : list Z) (s : mem_store)
    : option (list drive_lease) * mem_store :=
  let busy := dl_drive_id <$> filter (λ l, _live l now = true) (dvalues (ms_leases s)) in
  let free := filter (λ d, d ∉ busy ∧ d ∉ exclude) (zrange 0 num_drives) in
  if bool_decide (length free < length barcodes)%nat then (None, s)
  else
    let '(acquired, s') := mem_acquire_loop uuid 0 now ttl job_id (zip free barcodes) s in
    (Some acquired, s').

Definition mem_acquire_drive_lease_at (uuid : string) (now : Z) (job_id : string) (drive_id : Z)
    (bc : string) (ttl : Z) (s : mem_store) : option drive_lease * mem_store :=
  if existsb (λ l, bool_decide (dl_drive_id l = drive_id) && _live l now) (dvalues (ms_leases s))
  then (None, s)
  else
    let token := ms_last_token s + 1 in
    let lease := fresh_lease now ttl job_id uuid drive_id bc token in
    (Some lease, with_leases (dset (ms_leases s) (dl_id lease) lease) token s).

(** [for lease_id in lease_ids: lease = self._leases.get(lease_id) ...]. *)
Definition update_each (p : drive_lease → bool) (f : drive_lease → drive_lease)
    (ids : list string) (d : leases) : leases :=
  foldl (λ d id, match dget d id with
                 | Some l => if p l then dset d id (f l) else d
                 | None => d
                 end) d ids.

Definition mem_heartbeat (now : Z) (lease_ids : list string) (ttl : Z) (s : mem_store)
    : mem_store :=
  with_leases (update_each (λ l, _live l now) (lease_beat now ttl) lease_ids (ms_leases s))
    (ms_last_token s) s.

Definition mem_set_physical_drive (lease_id : string) (physical : Z) (s : mem_store) : mem_store :=
  match dget (ms_leases s) lease_id with
  | Some l => with_leases (dset (ms_leases s) lease_id (lease_at_drive physical l))
                (ms_last_token s) s
  | None => s
  end.

Definition mem_release (now : Z) (lease_ids : list string) (s : mem_store) : mem_store :=
  with_leases (update_each (λ l, negb (is_some (dl_released_at l))) (lease_released now)
                 lease_ids (ms_leases s)) (ms_last_token s) s.

Definition mem_is_live (now : Z) (lease_id : string) (fencing_token : Z) (s : mem_store) : bool :=
  match dget (ms_leases s) lease_id with
  | Some l => bool_decide (dl_fencing_token l = fencing_token) && _live l now
  | None => false
  end.

Definition mem_live_leases (now : Z) (s : mem_store) : list drive_lease :=
  filter (λ l, _live l now = true) (dvalues (ms_leases s)).

#[export] Instance mem_lease_store : LeaseStore mem_store := {|
  ls_acquire := mem_acquire;
  ls_acquire_drive_lease_at := mem_acquire_drive_lease_at;
  ls_unreconciled_drives := ms_unreconciled;
  ls_unreconciled_barcodes := ms_unreconciled_barcode_set;
  ls_heartbeat := mem_heartbeat;
  ls_set_physical_drive := mem_set_physical_drive;
  ls_release := mem_release;
  ls_is_live := mem_is_live;
  ls_live_leases := mem_live_leases;
|}.

(** * Lemmas *)
Lemma granted_cons uuid now ttl job token d bc pairs :
  granted uuid now ttl job token ((d, bc) :: pairs) =
  fresh_lease now ttl job (uuid 0%nat) d bc (token + 1) ::
  granted (uuid ∘ S) now ttl job (token + 1) pairs.
Proof.
  unfold granted. simpl. f_equal; [f_equal; lia|]. apply imap_ext. intros i [d' bc'] _.
  simpl. f_equal. lia.
Qed.

Lemma mem_acquire_loop_spec uuid i now ttl job pairs s :
  mem_acquire_loop uuid i now ttl job pairs s =
  let ls := granted (λ j, uuid (i + j)%nat) now ttl job (ms_last_token s) pairs in
  (ls, with_leases (add_leases ls (ms_leases s)) (ms_last_token s + Z.of_nat (length pairs)) s).
Proof.
  revert i s. induction pairs as [|[d bc] pairs IH]; intros i s.
  { simpl. rewrite Z.add_0_r. by destruct s. }
  cbn [mem_acquire_loop]. rewrite IH. cbv zeta. rewrite granted_cons, Nat.add_0_r.
  assert (granted (λ j, uuid (S i + j)%nat) now ttl job (ms_last_token s + 1) pairs =
          granted ((λ j, uuid (i + j)%nat) ∘ S) now ttl job (ms_last_token s + 1) pairs) as Heq.
  { apply imap_ext. intros j p _. simpl. do 2 f_equal. lia. }
  cbn [with_leases ms_last_token ms_leases]. rewrite Heq. f_equal.
  unfold with_leases. simpl. f_equal. lia.
Qed.

Lemma update_each_get p f ids d id :
  (∀ l, p (f l) = false ∨ f (f l) = f l) →
  dget (update_each p f ids d) id = on_leases ids p f id <$> dget d id.
Proof.
  intros Hidem. unfold update_each, on_leases. revert d.
  induction ids as [|i ids IH]; intros d; simpl.
  - by destruct (dget d id).
  - rewrite IH. destruct (decide (i = id)) as [->|Hne].
    + destruct (dget d id) as [l|] eqn:Hl; [|by rewrite Hl]. destruct (p l) eqn:Hp.
      * rewrite dget_dset_eq. simpl. rewrite (bool_decide_true (id ∈ id :: ids)) by by left.
        rewrite Hp. simpl. destruct (Hidem l) as [->| ->]; [by rewrite andb_false_r|].
        by destruct (_ && _).
      * rewrite Hl. simpl. by rewrite Hp, !andb_false_r.
    + assert (bool_decide (id ∈ i :: ids) = bool_decide (id ∈ ids)) as ->.
      { apply bool_decide_ext. rewrite elem_of_cons. naive_solver. }
      destruct (dget d i) as [l|] eqn:Hl; [|done]. destruct (p l); [|done].
      by rewrite dget_dset_ne.
Qed.

Lemma update_each_wf p f ids d : dict_wf d → dict_wf (update_each p f ids d).
Proof.
  unfold update_each. revert d. induction ids as [|i ids IH]; intros d Hd; simpl; [done|].
  apply IH. destruct (dget d i) as [l|]; [|done]. destruct (p l); auto using dict_wf_dset.
Qed.

Lemma busy_drives_elem now d x : dict_wf d →
  x ∈ busy_drives now d ↔ ∃ id l, dget d id = Some l ∧ _live l now = true ∧ dl_drive_id l = x.
Proof.
  intros Hd. unfold busy_drives, dvalues. rewrite list_elem_of_fmap. split.
  - intros (l & -> & [Hl ([id l'] & -> & Hin)%list_elem_of_fmap]%list_elem_of_filter).
    exists id, l'. split; [by apply elem_dget | done].
  - intros (id & l & Hl%dget_Some_elem & Hlive & <-). exists l. split; [done|].
    apply list_elem_of_filter. split; [done|]. apply list_elem_of_fmap. by exists (id, l).
Qed.

#[export] Program Instance mem_lease_store_laws : LeaseStoreLaws mem_store := {|
  ls_table := ms_leases;
  ls_last_token := ms_last_token;
|}.
Next Obligation.
  intros uuid now job bcs num ttl ex s. simpl. unfold mem_acquire.
  change (filter _ (zrange 0 num)) with (free_drives now num ex (ms_leases s)).
  case_bool_decide as Hlen; [by left|]. right. split; [lia|].
  rewrite mem_acquire_loop_spec. cbv zeta. eexists. split; [reflexivity|]. intros _. simpl.
  split; [done|]. rewrite length_zip. lia.
Qed.
Next Obligation.
  intros id now job drive bc ttl s. simpl. unfold mem_acquire_drive_lease_at.
  destruct (existsb _ _) eqn:He.
  - left. split; [|done]. apply existsb_exists in He as (l & Hin & Hl).
    apply andb_true_iff in Hl as [Hd Hl]. apply bool_decide_eq_true in Hd.
    unfold busy_drives. apply list_elem_of_fmap. exists l. split; [done|].
    apply list_elem_of_filter. split; [done|]. by apply list_elem_of_In.
  - right. split; [|by eexists].
    unfold busy_drives. intros (l & -> & [Hl Hin]%list_elem_of_filter)%list_elem_of_fmap.
    assert (existsb (λ l0, bool_decide (dl_drive_id l0 = dl_drive_id l) && _live l0 now)
              (dvalues (ms_leases s)) = true); [|congruence].
    apply existsb_exists. exists l. split; [by apply list_elem_of_In|].
    by rewrite Hl, bool_decide_true.
Qed.
Next Obligation.
  intros now ids ttl s id _. simpl. apply update_each_get. intros l. right. done.
Qed.
Next Obligation.
  intros lid p s id _. simpl. unfold mem_set_physical_drive, on_leases.
  destruct (dget (ms_leases s) lid) as [l|] eqn:Hl; simpl.
  - rewrite dget_dset. case_decide; subst.
    + rewrite Hl. simpl. by rewrite bool_decide_true by by left.
    + rewrite bool_decide_false by (intros ?%list_elem_of_singleton; congruence).
      by destruct (dget _ id).
  - destruct (dget (ms_leases s) id) as [l|] eqn:Hid; [|done]. simpl.
    rewrite bool_decide_false; [done|]. intros ->%list_elem_of_singleton. congruence.
Qed.
Next Obligation.
  intros now ids s id _. simpl. apply update_each_get. intros l. left. done.
Qed.
Next Obligation.
  intros now ids ttl lid p s Hd. simpl. unfold mem_set_physical_drive.
  split_and!; [by apply update_each_wf | | by apply update_each_wf].
  destruct (dget _ lid); [by apply dict_wf_dset | done].
Qed.
Next Obligation.
  intros now ids ttl lid p s. simpl. unfold mem_set_physical_drive.
  split_and!; [done | by destruct (dget _ lid) | done].
Qed.
Next Obligation. done. Qed.
Next Obligation.
  intros now s l _. simpl. unfold mem_live_leases. rewrite list_elem_of_filter. naive_solver.
Qed.

(** * Consequences of the contract *)
Lemma live_later l now now' : now ≤ now' → _live l now' = true → _live l now = true.
Proof. unfold _live. rewrite !andb_true_iff, !bool_decide_eq_true. intros ? [? ?]. split; [done | lia]. Qed.

Lemma add_leases_get ls d id l : dget (add_leases ls d) id = Some l →
  l ∈ ls ∧ dl_id l = id ∨ dget d id = Some l.
Proof.
  revert d. induction ls as [|l0 ls IH]; intros d; simpl; [by right|].
  intros [[? ?]|Hd]%IH; [left; split; [by right | done]|].
  rewrite dget_dset in Hd. case_decide; [|by right]. simplify_eq. left. split; [by left | done].
Qed.

Lemma add_leases_keep ls d id : (∀ l, l ∈ ls → dl_id l ≠ id) →
  dget (add_leases ls d) id = dget d id.
Proof.
  revert d. induction ls as [|l0 ls IH]; intros d Hid; simpl; [done|].
  rewrite IH by (intros l Hl; apply Hid; by right). apply dget_dset_ne, Hid. by left.
Qed.

Lemma add_leases_new ls d l : NoDup (dl_id <$> ls) → l ∈ ls →
  dget (add_leases ls d) (dl_id l) = Some l.
Proof.
  revert d. induction ls as [|l0 ls IH]; intros d; [by intros _ ?%elem_of_nil|].
  csimpl. rewrite NoDup_cons, elem_of_cons. intros [Hn Hnd] [->|Hl]; [|by apply IH].
  rewrite add_leases_keep; [apply dget_dset_eq|]. intros l Hl Heq. apply Hn.
  rewrite <-Heq. by apply list_elem_of_fmap_2.
Qed.

Lemma add_leases_wf ls d : dict_wf d → dict_wf (add_leases ls d).
Proof.
  revert d. induction ls as [|l ls IH]; intros d Hd; simpl; [done|].
  apply IH. by apply dict_wf_dset.
Qed.

Lemma elem_granted uuid now ttl job token pairs l :
  l ∈ granted uuid now ttl job token pairs ↔
  ∃ i p, pairs !! i = Some p ∧
    l = fresh_lease now ttl job (uuid i) p.1 p.2 (token + 1 + Z.of_nat i).
Proof.
  unfold granted. rewrite list_elem_of_lookup. split.
  - intros [i Hi]. rewrite list_lookup_imap_Some in Hi. destruct Hi as (p & ? & ?). eauto.
  - intros (i & p & ? & ->). exists i. apply list_lookup_imap_Some. eauto.
Qed.

(** ** What every store keeps *)
Section store.
Context `{LeaseStoreLaws T}.
Implicit Types (s : T) (now : Z).

Record store_ok (now : Z) (s : T) : Prop := {
  so_wf : table_wf (ls_table s);
  so_excl : exclusive_at now (ls_table s);
  so_tokens : ∀ id l, dget (ls_table s) id = Some l → dl_fencing_token l ≤ ls_last_token s;
}.

Lemma store_ok_later now now' s : now ≤ now' → store_ok now s → store_ok now' s.
Proof.
  intros Hle []. split; [done| |done]. intros i1 l1 i2 l2 H1 H2 L1 L2.
  eapply so_excl0; [done|done|by eapply live_later|by eapply live_later].
Qed.

(** Updating leases in place, without reviving any. *)
Lemma store_ok_update now s s' (g : string → drive_lease → drive_lease) :
  store_ok now s → dict_wf (ls_table s') → ls_last_token s' = ls_last_token s →
  (∀ id, dget (ls_table s') id = g id <$> dget (ls_table s) id) →
  (∀ id l, dl_id (g id l) = dl_id l ∧ dl_drive_id (g id l) = dl_drive_id l ∧
           dl_fencing_token (g id l) = dl_fencing_token l ∧
           (_live (g id l) now = true → _live l now = true)) →
  store_ok now s'.
Proof.
  intros [(_ & Hid & Htok) Hex Hmax] Hwf' Ht Hget Hg.
  assert (∀ id l', dget (ls_table s') id = Some l' → ∃ l, dget (ls_table s) id = Some l ∧
    l' = g id l) as Hinv.
  { intros id l'. rewrite Hget. intros (l & -> & ?)%fmap_Some. eauto. }
  split; [split_and!; [done| |]| |].
  - intros id l' (l & Hl & ->)%Hinv. destruct (Hg id l) as (-> & _). by apply Hid.
  - intros i1 l1' i2 l2' (l1 & H1 & ->)%Hinv (l2 & H2 & ->)%Hinv.
    destruct (Hg i1 l1) as (_ & _ & -> & _), (Hg i2 l2) as (_ & _ & -> & _). by eapply Htok.
  - intros i1 l1' i2 l2' (l1 & H1 & ->)%Hinv (l2 & H2 & ->)%Hinv.
    destruct (Hg i1 l1) as (_ & -> & _ & L1), (Hg i2 l2) as (_ & -> & _ & L2).
    intros ?? Heq. eapply Hex; eauto.
  - intros id l' (l & Hl & ->)%Hinv. destruct (Hg id l) as (_ & _ & -> & _). rewrite Ht. eauto.
Qed.

Lemma on_leases_fields ids p f now id l :
  dl_id (f l) = dl_id l ∧ dl_drive_id (f l) = dl_drive_id l ∧
    dl_fencing_token (f l) = dl_fencing_token l ∧
    (p l = true → _live (f l) now = true → _live l now = true) →
  dl_id (on_leases ids p f id l) = dl_id l ∧
  dl_drive_id (on_leases ids p f id l) = dl_drive_id l ∧
  dl_fencing_token (on_leases ids p f id l) = dl_fencing_token l ∧
  (_live (on_leases ids p f id l) now = true → _live l now = true).
Proof.
  intros (? & ? & ? & Hl). unfold on_leases. destruct (bool_decide _); simpl; [|done].
  destruct (p l); auto.
Qed.

Lemma heartbeat_ok now ids ttl s : store_ok now s → store_ok now (ls_heartbeat now ids ttl s).
Proof.
  intros Hok. pose proof (so_wf _ _ Hok) as Hwf.
  eapply store_ok_update; [done | | |intros id; by apply ls_heartbeat_spec|].
  - by eapply (ls_updates_wf now ids ttl "" 0), Hwf.
  - by destruct (ls_updates_token now ids ttl "" 0 s).
  - intros id l. by apply on_leases_fields.
Qed.

Lemma physical_ok now lid p s : store_ok now s → store_ok now (ls_set_physical_drive lid p s).
Proof.
  intros Hok. pose proof (so_wf _ _ Hok) as Hwf.
  eapply store_ok_update; [done | | |intros id; by apply ls_physical_spec|].
  - by eapply (ls_updates_wf now [] 0 lid p), Hwf.
  - by destruct (ls_updates_token now [] 0 lid p s) as (_ & ? & _).
  - intros id l. by apply on_leases_fields.
Qed.

Lemma release_ok now now' ids s : store_ok now s → store_ok now (ls_release now' ids s).
Proof.
  intros Hok. pose proof (so_wf _ _ Hok) as Hwf.
  eapply store_ok_update; [done | | |intros id; by apply ls_release_spec|].
  - by eapply (ls_updates_wf now' ids 0 "" 0), Hwf.
  - by destruct (ls_updates_token now' ids 0 "" 0 s) as (_ & _ & ?).
  - intros id l. by apply on_leases_fields.
Qed.

Lemma free_drives_elem now num ex d x :
  x ∈ free_drives now num ex d ↔ x ∉ busy_drives now d ∧ x ∉ ex ∧ 0 ≤ x < num.
Proof. unfold free_drives. rewrite list_elem_of_filter, elem_of_zrange. naive_solver. Qed.

Lemma free_drives_NoDup now num ex d : NoDup (free_drives now num ex d).
Proof. apply NoDup_filter, zrange_NoDup. Qed.

(** Adding fresh leases for distinct free drives. *)
Lemma store_ok_add now s s' (ls : list drive_lease) :
  store_ok now s → NoDup (dl_id <$> ls) → NoDup (dl_drive_id <$> ls) →
  NoDup (dl_fencing_token <$> ls) →
  (∀ l, l ∈ ls → dget (ls_table s) (dl_id l) = None ∧
     dl_drive_id l ∉ busy_drives now (ls_table s) ∧
     ls_last_token s < dl_fencing_token l ≤ ls_last_token s') →
  ls_table s' = add_leases ls (ls_table s) → ls_last_token s ≤ ls_last_token s' →
  store_ok now s'.
Proof.
  intros [(Hwf & Hid & Htok) Hex Hmax] Hnid Hnd Hnt Hnew Htab Hle.
  assert (∀ id l, dget (ls_table s') id = Some l →
    l ∈ ls ∧ dl_id l = id ∨ dget (ls_table s) id = Some l) as Hcase.
  { intros id l. rewrite Htab. apply add_leases_get. }
  assert (∀ (A : Type) (f : drive_lease → A) l1 l2, NoDup (f <$> ls) → l1 ∈ ls → l2 ∈ ls →
    f l1 = f l2 → l1 = l2) as Hinj.
  { intros A f l1 l2 Hn. revert Hn. clear. induction ls as [|l ls IH]; csimpl.
    - by intros _ ?%elem_of_nil.
    - rewrite NoDup_cons, !elem_of_cons. intros [Hn Hnd] [->|H1] [->|H2] Heq; auto.
      + destruct Hn. rewrite Heq. by apply list_elem_of_fmap_2.
      + destruct Hn. rewrite <-Heq. by apply list_elem_of_fmap_2. }
  split; [split_and!| |].
  - rewrite Htab. by apply add_leases_wf.
  - intros id l [[_ ?]|Hl]%Hcase; [done | by apply Hid].
  - intros i1 l1 i2 l2 [[H1 <-]|H1]%Hcase [[H2 <-]|H2]%Hcase Heq.
    + f_equal. by apply (Hinj _ dl_fencing_token).
    + destruct (Hnew _ H1) as (_ & _ & ?). specialize (Hmax _ _ H2). lia.
    + destruct (Hnew _ H2) as (_ & _ & ?). specialize (Hmax _ _ H1). lia.
    + by eapply Htok.
  - intros i1 l1 i2 l2 [[H1 <-]|H1]%Hcase [[H2 <-]|H2]%Hcase L1 L2 Heq.
    + f_equal. by apply (Hinj _ dl_drive_id).
    + destruct (Hnew _ H1) as (_ & [] & _). apply busy_drives_elem; [done|]. by exists i2, l2.
    + destruct (Hnew _ H2) as (_ & [] & _). apply busy_drives_elem; [done|]. by exists i1, l1.
    + by eapply Hex.
  - intros id l [[Hl _]|Hl]%Hcase; [by destruct (Hnew _ Hl) as (_ & _ & ?); lia|].
    specialize (Hmax _ _ Hl). lia.
Qed.

Lemma granted_NoDup uuid now ttl job token (A : Type) (f : drive_lease → A) pairs :
  (∀ i j p q, pairs !! i = Some p → pairs !! j = Some q →
     f (fresh_lease now ttl job (uuid i) p.1 p.2 (token + 1 + Z.of_nat i)) =
     f (fresh_lease now ttl job (uuid j) q.1 q.2 (token + 1 + Z.of_nat j)) → i = j) →
  NoDup (f <$> granted uuid now ttl job token pairs).
Proof.
  intros Hf. apply NoDup_alt. intros i j x. rewrite !list_lookup_fmap. unfold granted.
  rewrite !list_lookup_imap. destruct (pairs !! i) as [p|] eqn:Hi, (pairs !! j) as [q|] eqn:Hj;
    simpl; intros; simplify_eq. eapply Hf; [done|done|congruence].
Qed.

Lemma acquire_ok uuid now job bcs num ttl ex s :
  store_ok now s → uuids_fresh uuid (length bcs) (ls_table s) →
  store_ok now (ls_acquire uuid now job bcs num ttl ex s).2.
Proof.
  intros Hok Hfresh.
  destruct (ls_acquire_spec uuid now job bcs num ttl ex s) as [[-> _]|(Hlen & s' & -> & Hs')];
    [done|]. destruct (Hs' Hfresh) as [Htab Htok]. simpl.
  set (free := free_drives now num ex (ls_table s)) in *.
  assert (∀ i p, zip free bcs !! i = Some p → free !! i = Some p.1 ∧ (i < length bcs)%nat) as Hzip.
  { intros i p (x & y & -> & ? & Hy)%lookup_zip_with_Some. simpl.
    split; [done | by eapply lookup_lt_Some]. }
  destruct Hfresh as [Hf1 Hf2].
  eapply store_ok_add; [done| | | | |exact Htab|lia].
  - apply granted_NoDup. simpl. intros i j p q [_ Hi]%Hzip [_ Hj]%Hzip. auto.
  - apply granted_NoDup. simpl. intros i j p q [Hi _]%Hzip [Hj _]%Hzip Heq.
    rewrite <-Heq in Hj. by eapply NoDup_lookup; [apply (free_drives_NoDup now num ex)| |].
  - apply granted_NoDup. simpl. intros. lia.
  - intros l (i & p & Hp & ->)%elem_granted. simpl. destruct (Hzip _ _ Hp) as [Hfree Hi].
    split; [auto|]. apply list_elem_of_lookup_2, free_drives_elem in Hfree as (? & _).
    split; [done | lia].
Qed.

Lemma acquire_at_ok id now job drive bc ttl s :
  store_ok now s → dget (ls_table s) id = None →
  store_ok now (ls_acquire_drive_lease_at id now job drive bc ttl s).2.
Proof.
  intros Hok Hfresh.
  destruct (ls_acquire_at_spec id now job drive bc ttl s) as [[_ ->]|(Hfree & s' & -> & Hs')];
    [done|]. destruct (Hs' Hfresh) as [Htab Htok]. simpl.
  eapply (store_ok_add now s s' [fresh_lease now ttl job id drive bc (ls_last_token s + 1)]); [done|apply NoDup_singleton..| |exact Htab|lia].
  intros l ->%list_elem_of_singleton. simpl. split; [done|]. split; [done | lia].
Qed.

(** A lease is live for a token exactly when it is the table's, unexpired and
    unreleased. *)
Lemma is_live_true now id token s :
  ls_is_live now id token s = true ↔
  ∃ l, dget (ls_table s) id = Some l ∧ dl_fencing_token l = token ∧ _live l now = true.
Proof.
  rewrite ls_is_live_spec. destruct (dget _ id) as [l|]; [|naive_solver].
  rewrite andb_true_iff, bool_decide_eq_true. naive_solver.
Qed.
End store.
