(* ===== verification/Catalog.v ===== *)
(** The catalog: openblade/catalog/repository.py over the tables of
    openblade/catalog/models.py.

    A table is a dictionary of rows by primary key, in insertion order; a method
    is one committed transaction under the repository lock.  Errors of the
    database itself (a lost connection, a full disk) are not modelled, except in
    [journal_durable], whose point they are.  Instants are integers, [now] being
    the reading of the clock, and identifiers drawn by [uuid4] are arguments. *)
From stdpp Require Import base list option strings pretty sets sorting.
From Stdlib Require Import ZArith QArith Lia.
From S2P Require Import Prelude Wp Domain Paths Leases.
#[local] Open Scope string_scope.
#[local] Open Scope Z_scope.

(** * Tables *)
Record volume_group_row := VolumeGroupRow {
  vg_id : string;
  vg_name : string;
  vg_created_at : Z;
}.

Record cartridge_row := CartridgeRow {
  cr_id : string;
  cr_barcode : string;
  cr_volume_group_id : option string;
  cr_library_id : option Z;
  cr_capacity_bytes : Z;
  cr_used_bytes : Z;
  cr_state : string;
  cr_formatted : bool;
  cr_created_at : Z;
}.

Record file_row := FileRecordRow {
  fl_id : string;
  fl_path : string;
  fl_size_bytes : Z;
  fl_checksum_sha256 : string;
  fl_volume_group_id : string;
  fl_shard_count : option Z;
  fl_shard_index : option Z;
  fl_block_size : option Z;
  fl_shard_profile : option string;
  fl_parent_id : option string;
  fl_created_at : Z;
}.

Record instance_row := FileInstanceRow {
  fi_id : string;
  fi_file_record_id : string;
  fi_barcode : string;
  fi_tape_path : string;
  fi_state : string;
  fi_archived_at : option Z;
  fi_checksum_verified : bool;
  fi_created_at : Z;
}.

Record job_row := JobRow {
  jb_id : string;
  jb_job_type : string;
  jb_state : string;
  jb_metadata : dict string json;
  jb_error : option string;
  jb_created_at : Z;
  jb_updated_at : Z;
}.

Record journal_entry := JobJournalEntry {
  je_id : Z;
  je_job_id : string;
  je_at : Z;
  je_event : string;
  je_detail : dict string json;
}.

Record catalog := Catalog {
  ct_volume_groups : dict string volume_group_row;
  ct_cartridges : dict string cartridge_row;
  ct_files : dict string file_row;
  ct_instances : dict string instance_row;
  ct_jobs : dict string job_row;
  ct_journal : list journal_entry;
  ct_leases : leases;
  ct_tokens : dict string safety_token;
}.
Definition empty_catalog : catalog := Catalog [] [] [] [] [] [] [] [].

Definition with_volume_groups d (c : catalog) : catalog :=
  Catalog d (ct_cartridges c) (ct_files c) (ct_instances c) (ct_jobs c) (ct_journal c)
    (ct_leases c) (ct_tokens c).
Definition with_cartridges d (c : catalog) : catalog :=
  Catalog (ct_volume_groups c) d (ct_files c) (ct_instances c) (ct_jobs c) (ct_journal c)
    (ct_leases c) (ct_tokens c).
Definition with_files d (c : catalog) : catalog :=
  Catalog (ct_volume_groups c) (ct_cartridges c) d (ct_instances c) (ct_jobs c) (ct_journal c)
    (ct_leases c) (ct_tokens c).
Definition with_instances d (c : catalog) : catalog :=
  Catalog (ct_volume_groups c) (ct_cartridges c) (ct_files c) d (ct_jobs c) (ct_journal c)
    (ct_leases c) (ct_tokens c).
Definition with_jobs d (c : catalog) : catalog :=
  Catalog (ct_volume_groups c) (ct_cartridges c) (ct_files c) (ct_instances c) d (ct_journal c)
    (ct_leases c) (ct_tokens c).
Definition with_journal d (c : catalog) : catalog :=
  Catalog (ct_volume_groups c) (ct_cartridges c) (ct_files c) (ct_instances c) (ct_jobs c) d
    (ct_leases c) (ct_tokens c).
Definition with_lease_table d (c : catalog) : catalog :=
  Catalog (ct_volume_groups c) (ct_cartridges c) (ct_files c) (ct_instances c) (ct_jobs c)
    (ct_journal c) d (ct_tokens c).
Definition with_tokens d (c : catalog) : catalog :=
  Catalog (ct_volume_groups c) (ct_cartridges c) (ct_files c) (ct_instances c) (ct_jobs c)
    (ct_journal c) (ct_leases c) d.

(** [SELECT ... WHERE p] and [scalar_one_or_none], the latter on a unique column. *)
Definition select {R} (p : R → bool) (d : dict string R) : list R := filter p (dvalues d).
Definition select_one {R} (p : R → bool) (d : dict string R) : option R := head (select p d).

(** * Volume groups and cartridges *)
Definition get_volume_group (name : string) (c : catalog) : option volume_group_row :=
  select_one (λ r, bool_decide (vg_name r = name)) (ct_volume_groups c).

Definition create_volume_group (uuid : string) (now : Z) (name : string)
    : M catalog volume_group_row :=
  existing ← gets (get_volume_group name);
  match existing with
  | Some g => mret g
  | None =>
      let group := VolumeGroupRow uuid name now in
      modify (λ c, with_volume_groups (dset (ct_volume_groups c) uuid group) c);;
      mret group
  end.

Definition get_cartridge (bc : string) (c : catalog) : option cartridge_row :=
  select_one (λ r, bool_decide (cr_barcode r = bc)) (ct_cartridges c).

Definition put_cartridge (r : cartridge_row) : M catalog unit :=
  modify (λ c, with_cartridges (dset (ct_cartridges c) (cr_id r) r) c).

Definition add_cartridge (uuid : string) (now : Z) (bc : string) (volume_group_id : option string)
    : M catalog cartridge_row :=
  existing ← gets (get_cartridge bc);
  match existing with
  | None =>
      let r := CartridgeRow uuid bc volume_group_id None 12000000000 0 "in_slot" false now in
      put_cartridge r;; mret r
  | Some r =>
      match volume_group_id with
      | Some g =>
          let r := CartridgeRow (cr_id r) (cr_barcode r) (Some g) (cr_library_id r)
            (cr_capacity_bytes r) (cr_used_bytes r) (cr_state r) (cr_formatted r)
            (cr_created_at r) in
          put_cartridge r;; mret r
      | None => mret r
      end
  end.

Definition set_cartridge_state (bc state : string) : M catalog (option cartridge_row) :=
  existing ← gets (get_cartridge bc);
  match existing with
  | None => mret None
  | Some r =>
      let r := CartridgeRow (cr_id r) (cr_barcode r) (cr_volume_group_id r) (cr_library_id r)
        (cr_capacity_bytes r) (cr_used_bytes r) state (cr_formatted r) (cr_created_at r) in
      put_cartridge r;; mret (Some r)
  end.

(** [ORDER BY name] and [ORDER BY barcode]. *)
Definition list_volume_groups (c : catalog) : list volume_group_row :=
  sort_by (λ a b, String.leb (vg_name a) (vg_name b)) (dvalues (ct_volume_groups c)).
Definition list_cartridges (c : catalog) : list cartridge_row :=
  sort_by (λ a b, String.leb (cr_barcode a) (cr_barcode b)) (dvalues (ct_cartridges c)).

(** * File records and instances *)
Definition get_file_record (path : string) (c : catalog) : option file_row :=
  select_one (λ r, bool_decide (fl_path r = posix_path path)) (ct_files c).

Definition get_file_record_by_id (file_id : string) (c : catalog) : option file_row :=
  dget (ct_files c) file_id.

Definition put_file (r : file_row) : M catalog unit :=
  modify (λ c, with_files (dset (ct_files c) (fl_id r) r) c).

Record shard_fields := ShardFields {
  sf_shard_count : option Z;
  sf_shard_index : option Z;
  sf_block_size : option Z;
  sf_shard_profile : option string;
  sf_parent_id : option string;
}.
Definition no_shard : shard_fields := ShardFields None None None None None.

Definition create_file_record (uuid : string) (now : Z) (path : string) (size_bytes : Z)
    (checksum vg_id : string) (sf : shard_fields) : M catalog file_row :=
  let normalized := posix_path path in
  existing ← gets (get_file_record normalized);
  let r := match existing with
    | None => FileRecordRow uuid normalized size_bytes checksum vg_id (sf_shard_count sf)
        (sf_shard_index sf) (sf_block_size sf) (sf_shard_profile sf) (sf_parent_id sf) now
    | Some r => FileRecordRow (fl_id r) (fl_path r) size_bytes checksum vg_id (sf_shard_count sf)
        (sf_shard_index sf) (sf_block_size sf) (sf_shard_profile sf) (sf_parent_id sf)
        (fl_created_at r)
    end in
  put_file r;; mret r.

(** [ORDER BY shard_index, created_at]: NULLs first. *)
Definition shard_le (a b : file_row) : bool :=
  match fl_shard_index a, fl_shard_index b with
  | None, Some _ => true
  | Some _, None => false
  | Some i, Some j =>
      bool_decide (i < j) || bool_decide (i = j) && bool_decide (fl_created_at a ≤ fl_created_at b)
  | None, None => bool_decide (fl_created_at a ≤ fl_created_at b)
  end.

Definition list_shard_records (parent_id : string) (c : catalog) : list file_row :=
  sort_by shard_le (select (λ r, bool_decide (fl_parent_id r = Some parent_id)) (ct_files c)).

(** Deleting a record deletes its instances ([cascade="all, delete-orphan"]). *)
Definition delete_file_row (id : string) (c : catalog) : catalog :=
  with_instances (filter (λ kv, fi_file_record_id kv.2 ≠ id) (ct_instances c))
    (with_files (ddel (ct_files c) id) c).

Definition delete_file_record (file_id : string) : M catalog unit :=
  record ← gets (get_file_record_by_id file_id);
  match record with
  | None => raise OpenBladeFileNotFoundError
  | Some _ =>
      shards ← gets (list_shard_records file_id);
      forM shards (λ r, modify (delete_file_row (fl_id r)));;
      modify (delete_file_row file_id)
  end.

Definition put_instance (r : instance_row) : M catalog unit :=
  modify (λ c, with_instances (dset (ct_instances c) (fi_id r) r) c).

Definition create_file_instance (uuid : string) (now : Z) (file_record_id bc tape_path : string)
    : M catalog instance_row :=
  let r := FileInstanceRow uuid file_record_id bc (posix_path tape_path)
    (enum_value FileInstanceState.PENDING) None false now in
  put_instance r;; mret r.

Definition set_instance_state (st : string) (r : instance_row) : instance_row :=
  FileInstanceRow (fi_id r) (fi_file_record_id r) (fi_barcode r) (fi_tape_path r) st
    (fi_archived_at r) (fi_checksum_verified r) (fi_created_at r).
Definition archived_instance (now : Z) (verified : bool) (r : instance_row) : instance_row :=
  FileInstanceRow (fi_id r) (fi_file_record_id r) (fi_barcode r) (fi_tape_path r)
    (enum_value FileInstanceState.ARCHIVED) (Some now) verified (fi_created_at r).

Definition get_instance (id : string) : M catalog instance_row := λ c,
  match dget (ct_instances c) id with
  | Some r => (Ok r, c)
  | None => (Raise OpenBladeFileNotFoundError, c)
  end.

Definition mark_instance_archived (now : Z) (id : string) (checksum_verified : bool)
    : M catalog unit :=
  r ← get_instance id; put_instance (archived_instance now checksum_verified r).

Definition mark_instance_failed (id : string) : M catalog unit :=
  r ← get_instance id; put_instance (set_instance_state (enum_value FileInstanceState.FAILED) r).

Definition save_file_record (file_uuid inst_uuid : string) (now : Z) (path : string)
    (size_bytes : Z) (checksum vg_id : string) (sf : shard_fields) (bc tape_path : string)
    (state : file_instance_state) : M catalog instance_row :=
  file_record ← create_file_record file_uuid now path size_bytes checksum vg_id sf;
  instance ← create_file_instance inst_uuid now (fl_id file_record) bc tape_path;
  when (bool_decide (state ∈ [FileInstanceState.ARCHIVED; FileInstanceState.VERIFIED]))
    (mark_instance_archived now (fi_id instance)
       (bool_decide (state = FileInstanceState.VERIFIED)));;
  get_instance (fi_id instance).

Definition get_file (path : string) (c : catalog) : result file_row :=
  match get_file_record path c with
  | Some r => Ok r
  | None => Raise OpenBladeFileNotFoundError
  end.

Definition archived_states : list string :=
  [enum_value FileInstanceState.ARCHIVED; enum_value FileInstanceState.VERIFIED].
Definition staged_states : list string :=
  [enum_value FileInstanceState.STAGING; enum_value FileInstanceState.VERIFYING].

(** The instances of a record, ordered by creation. *)
Definition instances_of (file_id : string) (c : catalog) : list instance_row :=
  sort_by (λ a b, bool_decide (fi_created_at a ≤ fi_created_at b))
    (select (λ r, bool_decide (fi_file_record_id r = file_id)) (ct_instances c)).

Definition get_latest_instance_for_path (path : string) (c : catalog)
    : result (file_row * instance_row) :=
  match get_file_record path c with
  | None => Raise OpenBladeFileNotFoundError
  | Some record =>
      let archived := sort_by (λ a b, bool_decide (fi_created_at a ≤ fi_created_at b))
        (filter (λ r, fi_state r ∈ archived_states) (instances_of (fl_id record) c)) in
      match last archived with
      | None => Raise OpenBladeFileNotFoundError
      | Some i => Ok (record, i)
      end
  end.

Definition list_instances_for_barcode (bc : string) (c : catalog) : list instance_row :=
  sort_by (λ a b, bool_decide (fi_created_at a ≤ fi_created_at b))
    (select (λ r, bool_decide (fi_barcode r = bc)) (ct_instances c)).

Definition delete_file_record_if_unarchived (path : string) : M catalog unit :=
  record ← gets (get_file_record path);
  match record with
  | None => mret tt
  | Some r =>
      c ← getS;
      when (negb (existsb (λ i, bool_decide (fi_state i ∈ archived_states) ||
                               bool_decide (fi_state i ∈ staged_states))
                    (instances_of (fl_id r) c)))
        (modify (delete_file_row (fl_id r)))
  end.

(** * The job journal *)

(** The autoincremented key: rows are never deleted. *)
Definition next_journal_id (c : catalog) : Z := Z.of_nat (length (ct_journal c)) + 1.

Definition add_journal (now : Z) (job_id event : string) (detail : dict string json) (c : catalog)
    : catalog :=
  with_journal (ct_journal c ++
    [JobJournalEntry (next_journal_id c) job_id now event detail])%list c.

Definition journal (now : Z) (job_id event : string) (detail : dict string json)
    : M catalog journal_entry :=
  c ← getS;
  modify (add_journal now job_id event detail);;
  mret (JobJournalEntry (next_journal_id c) job_id now event detail).

(** [journal_durable]: one attempt and three retries.  [attempts] says, attempt
    by attempt, whether the database raises [OperationalError] ("database is
    locked"); an attempt past the list succeeds. *)
Definition _JOURNAL_RETRY_DELAYS : list Q := [5 # 100; 10 # 100; 20 # 100]%Q.

Fixpoint journal_durable_loop (delays : list (option Q)) (attempts : list bool) (now : Z)
    (job_id event : string) (detail : dict string json) : M catalog unit :=
  match delays with
  | [] => mret tt
  | delay :: delays =>
      if default false (head attempts) then
        match delay with
        | None => raise (OtherError "OperationalError")
        | Some _ => journal_durable_loop delays (tail attempts) now job_id event detail
        end
      else modify (add_journal now job_id event detail)
  end.

Definition journal_durable (attempts : list bool) (now : Z) (job_id event : string)
    (detail : dict string json) : M catalog unit :=
  journal_durable_loop ((Some <$> _JOURNAL_RETRY_DELAYS) ++ [None])%list attempts
    now job_id event detail.

(** [ORDER BY at, id]. *)
Definition journal_le (a b : journal_entry) : bool :=
  bool_decide (je_at a < je_at b) ||
  bool_decide (je_at a = je_at b) && bool_decide (je_id a ≤ je_id b).

Definition job_journal (job_id : string) (c : catalog) : list journal_entry :=
  sort_by journal_le (filter (λ e, je_job_id e = job_id) (ct_journal c)).

Definition journal_events (event : string) (since : option Z) (c : catalog) : list journal_entry :=
  sort_by journal_le
    (filter (λ e, bool_decide (je_event e = event) &&
               match since with Some t => bool_decide (t ≤ je_at e) | None => true end)
       (ct_journal c)).

(** * Staged instances *)
Definition _SHARD_STAGED_EVENT : string := "shard_staged".

Record staged_instance := StagedInstance {
  si_instance_id : string;
  si_file_record_id : string;
  si_barcode : string;
  si_tape_path : string;
  si_shard_index : option Z;
  si_state : string;
}.

Definition create_staged_instance (uuid : string) (now : Z)
    (job_id file_record_id bc tape_path : string) (state : file_instance_state)
    : M catalog instance_row :=
  raise_if (bool_decide (enum_value state ∉ staged_states)) ValueError;;
  record ← gets (λ c, dget (ct_files c) file_record_id);
  match record with
  | None => raise OpenBladeFileNotFoundError
  | Some r =>
      let instance := FileInstanceRow uuid file_record_id bc (posix_path tape_path)
        (enum_value state) None false now in
      put_instance instance;;
      modify (add_journal now job_id _SHARD_STAGED_EVENT
        [ ("instance_id", JStr uuid); ("barcode", JStr bc);
          ("tape_path", JStr (fi_tape_path instance));
          ("shard_index", match fl_shard_index r with Some i => JInt i | None => JNull end) ]);;
      mret instance
  end.

(** The key [(shard_index is None, shard_index or 0, barcode)]. *)
Definition staged_le (a b : staged_instance) : bool :=
  let na := negb (is_some (si_shard_index a)) in
  let nb := negb (is_some (si_shard_index b)) in
  let ia := default 0 (si_shard_index a) in
  let ib := default 0 (si_shard_index b) in
  if Bool.eqb na nb then
    bool_decide (ia < ib) || bool_decide (ia = ib) && String.leb (si_barcode a) (si_barcode b)
  else nb.

(** [str(x)] of a decoded scalar.  No writer of the journal stores a float, a
    list or an object where its text is taken. *)
Definition py_str (j : json) : string :=
  match j with
  | JStr s => s
  | JInt z => pretty z
  | JBool b => if b then "True" else "False"
  | _ => "None"
  end.
Definition detail_str (d : dict string json) (k : string) : string := py_str (jget d k).

(** Instance rows joined with the shard index of their file record. *)
Definition staged_of (ids : list string) (c : catalog) (r : instance_row)
    : option staged_instance :=
  match dget (ct_files c) (fi_file_record_id r) with
  | Some f =>
      if bool_decide (fi_id r ∈ ids) && bool_decide (fi_state r ∈ staged_states)
      then Some (StagedInstance (fi_id r) (fi_file_record_id r) (fi_barcode r) (fi_tape_path r)
                   (fl_shard_index f) (fi_state r))
      else None
  | None => None
  end.

Definition list_staged_instances (job_id : string) (c : catalog) : list staged_instance :=
  let instance_ids := (λ e, detail_str (je_detail e) "instance_id") <$>
    filter (λ e, je_event e = _SHARD_STAGED_EVENT) (job_journal job_id c) in
  if bool_decide (instance_ids = []) then []
  else sort_by staged_le (omap (staged_of instance_ids c) (dvalues (ct_instances c))).

(** [dict.fromkeys(ids)]: the identifiers without repetition, in order. *)
Fixpoint unique (seen l : list string) : list string :=
  match l with
  | [] => []
  | x :: l => if bool_decide (x ∈ seen) then unique seen l else x :: unique (x :: seen) l
  end.

Fixpoint _load_instances_in (ids allowed_states : list string) : M catalog (list instance_row) :=
  match ids with
  | [] => mret []
  | id :: ids =>
      instance ← get_instance id;
      raise_if (bool_decide (fi_state instance ∉ allowed_states)) ValueError;;
      instances ← _load_instances_in ids allowed_states;
      mret (instance :: instances)
  end.

Definition mark_instances_verifying (ids : list string) : M catalog unit :=
  instances ← _load_instances_in (unique [] ids) staged_states;
  forM instances (λ i,
    put_instance (set_instance_state (enum_value FileInstanceState.VERIFYING) i)).

Definition mark_instances_archived (now : Z) (ids : list string) (checksum_verified : bool)
    : M catalog unit :=
  instances ← _load_instances_in (unique [] ids) [enum_value FileInstanceState.VERIFYING];
  forM instances (λ i, put_instance (archived_instance now checksum_verified i)).

(** * Jobs *)
Definition create_job (uuid : string) (now : Z) (job_type : string) (metadata : dict string json)
    : M catalog job_row :=
  let job := JobRow uuid job_type "pending" metadata None now now in
  modify (λ c, with_jobs (dset (ct_jobs c) uuid job) c);; mret job.

Definition get_job (job_id : string) (c : catalog) : option job_row := dget (ct_jobs c) job_id.

Definition set_job_state (now : Z) (state : string) (error : option string) (j : job_row)
    : job_row :=
  JobRow (jb_id j) (jb_job_type j) state (jb_metadata j) error (jb_created_at j) now.

Definition update_job_state (now : Z) (job_id state : string) (error : option string)
    : M catalog unit :=
  job ← gets (get_job job_id);
  match job with
  | None => raise OpenBladeFileNotFoundError
  | Some j => modify (λ c, with_jobs (dset (ct_jobs c) job_id (set_job_state now state error j)) c)
  end.

(** [ORDER BY created_at DESC]. *)
Definition list_jobs (state : option string) (c : catalog) : list job_row :=
  sort_by (λ a b, bool_decide (jb_created_at b ≤ jb_created_at a))
    (select (λ j, match state with Some st => bool_decide (jb_state j = st) | None => true end)
       (ct_jobs c)).

(** * Safety tokens *)
Definition save_safety_token (t : safety_token) : M catalog unit :=
  modify (λ c, with_tokens (dset (ct_tokens c) (st_token t) t) c).

Definition get_safety_token (token_value : string) (c : catalog) : option safety_token :=
  dget (ct_tokens c) token_value.

(** The row count of the DELETE decides the one caller that consumed it. *)
Definition delete_safety_token (token_value : string) : M catalog bool := λ c,
  (Ok (dmem (ct_tokens c) token_value), with_tokens (ddel (ct_tokens c) token_value) c).

(** * Drive leases *)

(** [SELECT coalesce(max(fencing_token), 0)]. *)
Definition max_token (d : leases) : Z :=
  foldr Z.max 0 (dl_fencing_token <$> dvalues d).

Fixpoint acquire_rows (uuid : nat → string) (i : nat) (now ttl : Z) (job_id : string)
    (token : Z) (pairs : list (Z * string)) (d : leases) : list drive_lease * leases :=
  match pairs with
  | [] => ([], d)
  | (drive_id, bc) :: pairs =>
      let token := token + 1 in
      let row := fresh_lease now ttl job_id (uuid i) drive_id bc token in
      let '(rows, d') := acquire_rows uuid (S i) now ttl job_id token pairs
                           (dset d (dl_id row) row) in
      (row :: rows, d')
  end.

Definition acquire_drive_leases (uuid : nat → string) (now : Z) (job_id : string)
    (barcodes : list string) (num_drives ttl : Z) (exclude : list Z) (c : catalog)
    : option (list drive_lease) * catalog :=
  let busy := dl_drive_id <$> select (λ l, _live l now) (ct_leases c) in
  let free := filter (λ d, d ∉ busy ∧ d ∉ exclude) (zrange 0 num_drives) in
  if bool_decide (length free < length barcodes)%nat then (None, c)
  else
    let '(rows, d) := acquire_rows uuid 0 now ttl job_id (max_token (ct_leases c))
                        (zip free barcodes) (ct_leases c) in
    (Some rows, with_lease_table d c).

Definition acquire_drive_lease_at (uuid : string) (now : Z) (job_id : string) (drive_id : Z)
    (bc : string) (ttl : Z) (c : catalog) : option drive_lease * catalog :=
  let held := select (λ l, bool_decide (dl_drive_id l = drive_id) && _live l now) (ct_leases c) in
  if bool_decide (held ≠ []) then (None, c)
  else
    let row := fresh_lease now ttl job_id uuid drive_id bc (max_token (ct_leases c) + 1) in
    (Some row, with_lease_table (dset (ct_leases c) (dl_id row) row) c).

(** [UPDATE] of the rows a condition selects. *)
Definition update_rows (p : drive_lease → bool) (f : drive_lease → drive_lease) (d : leases)
    : leases := dmap (λ l, if p l then f l else l) d.

Definition heartbeat_leases (now : Z) (lease_ids : list string) (ttl : Z) (c : catalog) : catalog :=
  with_lease_table (update_rows (λ l, bool_decide (dl_id l ∈ lease_ids) && _live l now)
    (lease_beat now ttl) (ct_leases c)) c.

Definition set_lease_physical_drive (lease_id : string) (physical_drive_id : Z) (c : catalog)
    : catalog :=
  match dget (ct_leases c) lease_id with
  | Some l => with_lease_table (dset (ct_leases c) lease_id (lease_at_drive physical_drive_id l)) c
  | None => c
  end.

Definition release_leases (now : Z) (lease_ids : list string) (c : catalog) : catalog :=
  with_lease_table (update_rows
    (λ l, bool_decide (dl_id l ∈ lease_ids) && negb (is_some (dl_released_at l)))
    (lease_released now) (ct_leases c)) c.

Definition lease_is_live (now : Z) (lease_id : string) (fencing_token : Z) (c : catalog) : bool :=
  match dget (ct_leases c) lease_id with
  | Some l => bool_decide (dl_fencing_token l = fencing_token) && _live l now
  | None => false
  end.

Definition token_le (a b : drive_lease) : bool :=
  bool_decide (dl_fencing_token a ≤ dl_fencing_token b).

Definition live_leases (now : Z) (c : catalog) : list drive_lease :=
  sort_by token_le (select (λ l, _live l now) (ct_leases c)).

(** Unreleased, with an expiry at or before [now]. *)
Definition _expired (l : drive_lease) (now : Z) : bool :=
  negb (is_some (dl_released_at l)) && bool_decide (dl_expires_at l ≤ now).

Definition expired_leases (now : Z) (c : catalog) : list drive_lease :=
  sort_by token_le (select (λ l, _expired l now) (ct_leases c)).

Definition release_leases_for_job (now : Z) (job_id : string) (c : catalog) : Z * catalog :=
  let p := λ l, bool_decide (dl_job_id l = job_id) && negb (is_some (dl_released_at l)) in
  (Z.of_nat (length (select p (ct_leases c))),
   with_lease_table (update_rows p (lease_released now) (ct_leases c)) c).

(** * Lemmas *)

(** The journal is append-only and numbered from one. *)
Definition journal_wf (c : catalog) : Prop :=
  ∀ i e, ct_journal c !! i = Some e → je_id e = Z.of_nat i + 1.

Lemma add_journal_wf now job event detail c :
  journal_wf c → journal_wf (add_journal now job event detail c).
Proof.
  intros Hwf i e. simpl. unfold next_journal_id. rewrite lookup_app_Some.
  intros [?|[Hge Hi]]; [by apply Hwf|].
  destruct (i - length (ct_journal c))%nat eqn:Hd; [|done]. simplify_eq/=. lia.
Qed.

(** Entries selected from the journal, sorted by id: the journal's own order. *)
Definition id_le (a b : journal_entry) : bool := bool_decide (je_id a ≤ je_id b).

Lemma journal_sorted c : journal_wf c →
  StronglySorted (λ a b, je_id a < je_id b) (ct_journal c).
Proof.
  unfold journal_wf. generalize (ct_journal c). intros l Hl.
  assert (∃ k, ∀ i e, l !! i = Some e → je_id e = k + Z.of_nat i) as [k Hk].
  { exists 1. intros i e He. rewrite (Hl _ _ He). lia. }
  clear Hl. revert k Hk. induction l as [|e l IH]; intros k Hk; constructor.
  - apply (IH (k + 1)). intros i e' He'. rewrite (Hk (S i) e' He'). lia.
  - apply Forall_forall. intros e' [i He']%list_elem_of_lookup.
    rewrite (Hk 0%nat e eq_refl), (Hk (S i) e' He'). lia.
Qed.

Lemma StronglySorted_filter {A} (R : A → A → Prop) (P : A → Prop) `{∀ x, Decision (P x)} l :
  StronglySorted R l → StronglySorted R (filter P l).
Proof.
  induction 1 as [|x l Hl IH Hx]; [constructor|]. rewrite filter_cons. case_decide; [|done].
  constructor; [done|]. rewrite Forall_forall in *. intros y [_ Hy]%list_elem_of_filter. auto.
Qed.

Lemma sort_by_id_journal c (P : journal_entry → Prop) `{∀ e, Decision (P e)} l :
  journal_wf c → l ≡ₚ filter P (ct_journal c) → sort_by id_le l = filter P (ct_journal c).
Proof.
  intros Hwf Hl.
  pose proof (StronglySorted_filter _ P _ (journal_sorted c Hwf)) as Hs.
  unfold id_le. apply sort_by_unique.
  - intros x y. rewrite !bool_decide_eq_true. lia.
  - intros x y z. rewrite !bool_decide_eq_true. lia.
  - done.
  - unfold le_rel. clear -Hs. induction Hs as [|x l Hs IH Hx]; constructor; [done|].
    eapply Forall_impl; [exact Hx|]. intros y. rewrite bool_decide_eq_true. lia.
  - intros x y Hx Hy. rewrite !bool_decide_eq_true. intros ??.
    apply list_elem_of_filter in Hx as [_ [i Hi]%list_elem_of_lookup].
    apply list_elem_of_filter in Hy as [_ [j Hj]%list_elem_of_lookup].
    pose proof (Hwf _ _ Hi). pose proof (Hwf _ _ Hj).
    assert (i = j) as -> by lia. congruence.
Qed.

(** A durable journal entry is written once or the catalog is left alone; it
    fails only when the first attempt and its three retries all do. *)
Lemma journal_durable_spec attempts now job event detail c :
  journal_durable attempts now job event detail c =
  if bool_decide (take 4 attempts = [true; true; true; true])
  then (Raise (OtherError "OperationalError"), c)
  else (Ok tt, add_journal now job event detail c).
Proof.
  unfold journal_durable, _JOURNAL_RETRY_DELAYS.
  destruct attempts as [|[] [|[] [|[] [|[] l]]]]; reflexivity.
Qed.

(** ** Instances *)
Definition instances_wf (c : catalog) : Prop :=
  dict_wf (ct_instances c) ∧ ∀ id r, dget (ct_instances c) id = Some r → fi_id r = id.

Lemma elem_of_unique seen l x : x ∈ unique seen l ↔ x ∈ l ∧ x ∉ seen.
Proof.
  revert seen. induction l as [|y l IH]; intros seen; simpl.
  { split; [by intros ?%elem_of_nil | by intros [?%elem_of_nil _]]. }
  case_bool_decide; rewrite ?elem_of_cons, IH, ?elem_of_cons; [naive_solver|].
  destruct (decide (x = y)); naive_solver.
Qed.

Lemma unique_NoDup seen l : NoDup (unique seen l).
Proof.
  revert seen. induction l as [|y l IH]; intros seen; simpl; [constructor|].
  case_bool_decide; [done|]. constructor; [|done]. rewrite elem_of_unique, elem_of_cons. tauto.
Qed.

(** Loading stops at the first identifier that is unknown or in another state. *)
Lemma load_instances_spec ids states c :
  (∃ rs, _load_instances_in ids states c = (Ok rs, c) ∧
     Forall2 (λ id r, dget (ct_instances c) id = Some r ∧ fi_state r ∈ states) ids rs) ∨
  ∃ id e, id ∈ ids ∧ _load_instances_in ids states c = (Raise e, c) ∧
    (dget (ct_instances c) id = None ∧ e = OpenBladeFileNotFoundError ∨
     ∃ r, dget (ct_instances c) id = Some r ∧ fi_state r ∉ states ∧ e = ValueError).
Proof.
  induction ids as [|id ids IH]; simpl.
  { left. exists []. by split; [|constructor]. }
  unfold mbind, M_bind, get_instance. destruct (dget (ct_instances c) id) as [r|] eqn:Hr.
  2: { right. exists id, OpenBladeFileNotFoundError. split_and!; [by left | done | by left]. }
  unfold raise_if. case_bool_decide as Hst.
  { right. exists id, ValueError. split_and!; [by left | done | right; by exists r]. }

  destruct IH as [(rs & -> & Hrs)|(id' & e & Hin & -> & Hcase)].
  - left. exists (r :: rs). split; [done|]. by constructor.
  - right. exists id', e. split_and!; [by right | done | done].
Qed.

(** Writing rows back, each under its own key. *)
Lemma put_instances_spec (g : instance_row → instance_row) rs c :
  (∀ r, fi_id (g r) = fi_id r) → NoDup (fi_id <$> rs) →
  ∃ d, forM rs (λ i, put_instance (g i)) c = (Ok tt, with_instances d c) ∧
    (∀ r, r ∈ rs → dget d (fi_id r) = Some (g r)) ∧
    (∀ id, id ∉ fi_id <$> rs → dget d id = dget (ct_instances c) id) ∧
    (dict_wf (ct_instances c) → dict_wf d).
Proof.
  intros Hg. revert c. induction rs as [|r rs IH]; intros c; csimpl.
  { intros _. exists (ct_instances c). split_and!; [by destruct c | |done..].
    by intros r ?%elem_of_nil. }
  rewrite NoDup_cons. intros [Hnotin Hnd].
  destruct (IH (with_instances (dset (ct_instances c) (fi_id (g r)) (g r)) c) Hnd)
    as (d & Hrun & Hin & Hout & Hd).
  exists d. unfold mbind, M_bind, put_instance at 1, modify at 1. rewrite Hrun. simpl in *.
  split_and!; [done| | |intros; by apply Hd, dict_wf_dset].
  - intros r' [->|Hr']%elem_of_cons; [|by apply Hin]. rewrite Hout by done. rewrite Hg.
    apply dget_dset_eq.
  - intros id [Hne Hid]%not_elem_of_cons. rewrite Hout, Hg by done. by apply dget_dset_ne.
Qed.

(** The instances a load gave have the identifiers asked for. *)
Lemma loaded_ids c ids (states : list string) rs : instances_wf c →
  Forall2 (λ id r, dget (ct_instances c) id = Some r ∧ fi_state r ∈ states) ids rs →
  fi_id <$> rs = ids.
Proof.
  intros [_ Hid]. induction 1 as [|id r ids rs [Hr _] _ IH]; csimpl; [done|].
  by rewrite (Hid _ _ Hr), IH.
Qed.

(** Updating the instances named, all of which must be in one of [states]: all
    of them are, or none. *)
Definition update_instances (ids states : list string) (g : instance_row → instance_row)
    : M catalog unit :=
  instances ← _load_instances_in (unique [] ids) states;
  forM instances (λ i, put_instance (g i)).

Lemma update_instances_spec ids states g c :
  instances_wf c → (∀ r, fi_id (g r) = fi_id r) →
  wp (update_instances ids states g)
    (λ _ c', (∀ id, id ∈ ids → ∃ r, dget (ct_instances c) id = Some r ∧ fi_state r ∈ states ∧
                dget (ct_instances c') id = Some (g r)) ∧
       (∀ id, id ∉ ids → dget (ct_instances c') id = dget (ct_instances c) id) ∧
       c' = with_instances (ct_instances c') c ∧ instances_wf c')
    (λ e c', c' = c ∧ ∃ id, id ∈ ids ∧
       (dget (ct_instances c) id = None ∧ e = OpenBladeFileNotFoundError ∨
        ∃ r, dget (ct_instances c) id = Some r ∧ fi_state r ∉ states ∧ e = ValueError)) c.
Proof.
  intros Hwf Hg. apply wp_unfold. unfold update_instances, mbind, M_bind.
  destruct (load_instances_spec (unique [] ids) states c)
    as [(rs & -> & Hrs)|(id & e & Hin & -> & Hcase)].
  2: { split; [done|]. exists id. by apply elem_of_unique in Hin as [Hin _]. }
  pose proof (loaded_ids _ _ _ _ Hwf Hrs) as Hids.
  destruct (put_instances_spec g rs c) as (d & -> & Hset & Hout & Hd);
    [done | rewrite Hids; apply unique_NoDup|]. rewrite Hids in Hout. simpl.
  assert (∀ id, id ∈ unique [] ids ↔ id ∈ ids) as Huniq.
  { intros id. rewrite elem_of_unique. split; [tauto|]. intros. split; [done | by intros ?%elem_of_nil]. }
  destruct Hwf as [Hdw Hkey].
  assert (∀ id, id ∈ ids → ∃ r, dget (ct_instances c) id = Some r ∧ fi_state r ∈ states ∧
    dget d id = Some (g r)) as Hupd.
  { intros id Hid%Huniq%list_elem_of_lookup. destruct Hid as [i Hi].
    destruct (Forall2_lookup_l _ _ _ _ _ Hrs Hi) as (r & Hr & Hget & Hst).
    exists r. split_and!; [done..|]. rewrite <-(Hkey _ _ Hget) at 1. apply Hset.
    by eapply list_elem_of_lookup_2. }
  split_and!; [done | intros id Hid; apply Hout; by rewrite Huniq | done | split; [by apply Hd|] ].
  intros id r. simpl. destruct (decide (id ∈ ids)) as [Hid|Hid].
  - destruct (Hupd _ Hid) as (r0 & Hr0 & _ & ->). intros [= <-]. rewrite Hg. by apply Hkey.
  - rewrite Hout by (by rewrite Huniq). apply Hkey.
Qed.

(** ** Looking up the latest archived instance *)
Definition created_le (a b : instance_row) : bool := bool_decide (fi_created_at a ≤ fi_created_at b).
Lemma created_total x y : created_le x y = true ∨ created_le y x = true.
Proof. unfold created_le. rewrite !bool_decide_eq_true. lia. Qed.
Lemma created_trans x y z :
  created_le x y = true → created_le y z = true → created_le x z = true.
Proof. unfold created_le. rewrite !bool_decide_eq_true. lia. Qed.

Definition archived_rows (c : catalog) : list instance_row :=
  filter (λ r, fi_state r ∈ archived_states) (dvalues (ct_instances c)).

Lemma latest_ext c c' path : ct_files c' = ct_files c → archived_rows c' = archived_rows c →
  get_latest_instance_for_path path c' = get_latest_instance_for_path path c.
Proof.
  intros Hf Ha. unfold get_latest_instance_for_path, get_file_record. rewrite Hf.
  destruct (select_one _ _) as [f|]; [|done].
  assert (∀ c, filter (λ r, fi_state r ∈ archived_states) (instances_of (fl_id f) c) =
    sort_by created_le (filter (λ r, bool_decide (fi_file_record_id r = fl_id f)) (archived_rows c)))
    as Heq.
  { intros c0. unfold instances_of, select, archived_rows.
    change (λ a b : instance_row, bool_decide (fi_created_at a ≤ fi_created_at b)) with created_le.
    rewrite filter_sort_by by (apply created_total || apply created_trans). f_equal.
    rewrite !list_filter_filter. apply list_filter_iff. intros r. tauto. }
  by rewrite !Heq, Ha.
Qed.

Lemma filter_dset {V} (P : V → Prop) `{∀ x, Decision (P x)} (d : dict string V) k v :
  ¬ P v → (∀ v0, dget d k = Some v0 → ¬ P v0) →
  filter P (dvalues (dset d k v)) = filter P (dvalues d).
Proof.
  unfold dvalues. intros Hv Hold. induction d as [|[k' v'] d IH]; csimpl.
  { by rewrite filter_cons_False, filter_nil. }
  simpl in Hold. case_decide; subst; csimpl.
  - rewrite !filter_cons_False; auto.
  - rewrite !filter_cons. by rewrite IH.
Qed.

Lemma staged_not_archived st : st ∈ staged_states → st ∉ archived_states.
Proof.
  intros Hst Ha. pose proof (bool_decide_eq_true_2 _ Ha) as Hb. clear Ha.
  repeat (apply elem_of_cons in Hst as [->|Hst]; [vm_compute in Hb; discriminate|]).
  by apply elem_of_nil in Hst.
Qed.

(** ** Examples *)
Definition sample_instance (id st : string) (t : Z) : instance_row :=
  FileInstanceRow id "f" "TAPE01L8" "/f" st None false t.
Definition sample_rows : catalog :=
  with_files [("f", FileRecordRow "f" "/f" 3 "sum" "vg" None (Some 0) None None None 0)]
    (with_instances [("a", sample_instance "a" "verifying" 0); ("b", sample_instance "b" "verifying" 1);
                     ("c", sample_instance "c" "staging" 2); ("d", sample_instance "d" "archived" 3)]
       empty_catalog).

Lemma sample_rows_wf : instances_wf sample_rows.
Proof.
  split; [apply (bool_decide_unpack _); vm_compute; exact I|].
  intros id r Hr%dget_Some_elem. simpl in Hr.
  repeat (apply elem_of_cons in Hr as [[= -> ->]|Hr]; [done|]). by apply elem_of_nil in Hr.
Qed.

(** * Properties *)

(** C24: Committing the verified shards of a job is all or nothing: either every
    instance named becomes archived, with the time and the verdict given, and no
    other instance changes; or one of them is unknown or not being verified, the
    call raises, and no row changes. *)
Theorem archive_commit_atomic (now : Z) (ids : list string) (verified : bool) (c : catalog)
    (Hwf : instances_wf c) :
  match mark_instances_archived now ids verified c with
  | (Ok _, c') =>
      (∀ id, id ∈ ids → ∃ r, dget (ct_instances c) id = Some r ∧
         fi_state r = enum_value FileInstanceState.VERIFYING ∧
         dget (ct_instances c') id = Some (archived_instance now verified r)) ∧
      (∀ id, id ∉ ids → dget (ct_instances c') id = dget (ct_instances c) id) ∧
      c' = with_instances (ct_instances c') c
  | (Raise e, c') =>
      c' = c ∧ ∃ id, id ∈ ids ∧
        match dget (ct_instances c) id with
        | None => e = OpenBladeFileNotFoundError
        | Some r => fi_state r ≠ enum_value FileInstanceState.VERIFYING ∧ e = ValueError
        end
  end.
Proof.
  pose proof (update_instances_spec ids [enum_value FileInstanceState.VERIFYING]
    (archived_instance now verified) c Hwf (λ _, eq_refl)) as Hspec.
  apply wp_unfold in Hspec.
  change (mark_instances_archived now ids verified c) with
    (update_instances ids [enum_value FileInstanceState.VERIFYING]
       (archived_instance now verified) c).
  destruct (update_instances _ _ _ c) as [[u|e] c'].
  - destruct Hspec as (Hin & Hout & Heq & _). split_and!; [|done..]. intros id Hid.
    destruct (Hin id Hid) as (r & ? & Hst & ?). exists r. split_and!; try done.
    by apply list_elem_of_singleton in Hst.
  - destruct Hspec as (-> & id & Hid & Hcase). split; [done|]. exists id. split; [done|].
    destruct Hcase as [[-> ->]|(r & -> & Hst & ->)]; [done|]. split; [|done].
    intros Heq. apply Hst. rewrite Heq. by left.
Qed.

Lemma archive_commit_atomic_witness :
  instances_wf sample_rows ∧
  fi_state <$> dget (ct_instances (mark_instances_archived 9 ["a"; "b"] true sample_rows).2) "b"
    = Some "archived" ∧
  (mark_instances_archived 9 ["a"; "c"] true sample_rows).2 = sample_rows.
Proof.
  split; [exact sample_rows_wf|]. split.
  - pose proof (archive_commit_atomic 9 ["a"; "b"] true sample_rows sample_rows_wf) as H.
    destruct (mark_instances_archived 9 ["a"; "b"] true sample_rows) as [[u|e] c'] eqn:E;
      [|vm_compute in E; discriminate E].
    destruct H as [Hin _]. destruct (Hin "b") as (r & _ & _ & Hb); [right; left|].
    cbn [snd]. rewrite Hb. reflexivity.
  - pose proof (archive_commit_atomic 9 ["a"; "c"] true sample_rows sample_rows_wf) as H.
    destruct (mark_instances_archived 9 ["a"; "c"] true sample_rows) as [[u|e] c'] eqn:E;
      [vm_compute in E; discriminate E|]. exact (proj1 H).
Defined.

(** Staged data is never restorable: staging a shard under a fresh
    identifier, and starting its verification, change the answer of no lookup of
    a path's latest archived instance; only [mark_instances_archived] does. *)
Theorem staged_invisible (uuid : string) (now : Z) (job file bc tape_path path : string)
    (st : file_instance_state) (ids : list string) (c : catalog)
    (Hwf : instances_wf c) (Hfresh : dget (ct_instances c) uuid = None) :
  get_latest_instance_for_path path (create_staged_instance uuid now job file bc tape_path st c).2
    = get_latest_instance_for_path path c ∧
  get_latest_instance_for_path path (mark_instances_verifying ids c).2
    = get_latest_instance_for_path path c.
Proof.
  split.
  - unfold create_staged_instance. unfold mbind, M_bind, raise_if.
    case_bool_decide as Hst; [done|]. simpl.
    destruct (dget (ct_files c) file) as [f|]; [|done]. simpl. apply latest_ext; [done|].
    unfold archived_rows. simpl. apply filter_dset; [|intros; congruence]. simpl.
    by apply staged_not_archived.
  - unfold mark_instances_verifying, mbind, M_bind.
    destruct (load_instances_spec (unique [] ids) staged_states c)
      as [(rs & -> & Hrs)|(id & e & Hin & -> & Hcase)]; [|done].
    pose proof (loaded_ids _ _ _ _ Hwf Hrs) as Hids.
    pose proof (unique_NoDup [] ids) as Hnd. rewrite <-Hids in Hnd.
    assert (Forall (λ r, dget (ct_instances c) (fi_id r) = Some r ∧ fi_state r ∈ staged_states) rs)
      as Hall.
    { apply Forall_forall. intros r [i Hi]%list_elem_of_lookup.
      destruct (Forall2_lookup_r _ _ _ _ _ Hrs Hi) as (id & _ & Hget & Hst).
      destruct Hwf as [_ Hkey]. by rewrite (Hkey _ _ Hget). }
    clear Hrs Hids Hwf Hfresh. revert c Hall. induction rs as [|r rs IH]; intros c Hall; [done|].
    apply Forall_cons in Hall as [[Hr Hst] Hall]. csimpl in Hnd.
    apply NoDup_cons in Hnd as [Hnotin Hnd].
    simpl. unfold mbind, M_bind, put_instance at 1, modify at 1. rewrite IH; [|done|].
    + apply latest_ext; [done|]. unfold archived_rows. simpl.
      apply filter_dset; [vm_compute; set_solver|]. intros r0 Hr0. simplify_eq.
      by apply staged_not_archived.
    + eapply Forall_impl; [apply Forall_and; split; [exact Hall|]|].
      * apply Forall_forall. intros r' Hr'. exact (Hr' : r' ∈ rs).
      * intros r' [[Hget ?] Hin]. split; [|done]. simpl. rewrite dget_dset_ne; [done|].
        intros Heq. apply Hnotin. rewrite Heq. by apply list_elem_of_fmap_2.
Qed.

Lemma staged_invisible_witness :
  get_latest_instance_for_path "/f"
    (create_staged_instance "e" 9 "job" "f" "TAPE02L8" "/f" FileInstanceState.STAGING sample_rows).2
    = get_latest_instance_for_path "/f" sample_rows ∧
  is_ok (create_staged_instance "e" 9 "job" "f" "TAPE02L8" "/f" FileInstanceState.STAGING
           sample_rows).1 = true.
Proof.
  split; [|vm_compute; reflexivity].
  exact (proj1 (staged_invisible "e" 9 "job" "f" "TAPE02L8" "/f" "/f" FileInstanceState.STAGING []
    sample_rows sample_rows_wf eq_refl)).
Defined.

(** A safety token is consumed at most once: of two deletions exactly the
    first of a stored token succeeds, it can no longer be read, and every other
    token stays. *)
Theorem safety_token_single_use (token : string) (c : catalog) (Hwf : dict_wf (ct_tokens c)) :
  let '(r1, c1) := delete_safety_token token c in
  let '(r2, c2) := delete_safety_token token c1 in
  r1 = Ok (is_some (get_safety_token token c)) ∧ r2 = Ok false ∧ c2 = c1 ∧
  ∀ t, get_safety_token t c1 = if decide (t = token) then None else get_safety_token t c.
Proof.
  unfold delete_safety_token, get_safety_token, dmem. simpl.
  assert (dget (ddel (ct_tokens c) token) token = None) as Hnone.
  { rewrite dget_ddel by done. by rewrite decide_True. }
  rewrite Hnone, (ddel_notin _ _ Hnone). split_and!; [by destruct (dget _ _)|done|done|].
  intros t. rewrite dget_ddel by done. by repeat case_decide.
Qed.

Lemma safety_token_single_use_witness :
  let t := SafetyToken_generate "tok" 0 "format" "TAPE01L8" 300 in
  let c := with_tokens [("tok", t)] empty_catalog in
  dict_wf (ct_tokens c) ∧
  (delete_safety_token "tok" (delete_safety_token "tok" c).2).1 = Ok false.
Proof.
  intros t c. assert (dict_wf (ct_tokens c)) as Hwf by apply NoDup_singleton.
  split; [exact Hwf|]. exact (proj1 (proj2 (safety_token_single_use "tok" c Hwf))).
Defined.
