(* ===== verification/Reconcile.v ===== *)
(** Drives of unknown physical state: openblade/jobs/reconcile.py.

    A failed unmount or unload journals [physical_state_unknown]; until a later
    [drive_reconciled] names the drive, nothing may use it. *)
From stdpp Require Import base list option strings pretty sets.
From Stdlib Require Import ZArith Lia.
From S2P Require Import Prelude Wp Domain Paths Leases Catalog Faults Library.
#[local] Open Scope string_scope.
#[local] Open Scope Z_scope.

Definition PHYSICAL_STATE_UNKNOWN : string := "physical_state_unknown".
Definition DRIVE_RECONCILED : string := "drive_reconciled".

Record pending_reconciliation := PendingReconciliation {
  pr_drive_id : Z;
  pr_barcode : option string;
  pr_op : string;
  pr_job_id : string;
  pr_at : Z;
}.

(** [int(str(drive))]; the text of a float, a list or an object is no integer. *)
Definition _drive_of (detail : dict string json) : option Z :=
  match jget detail "drive" with
  | JInt z => Some z
  | JStr s => py_int s
  | _ => None
  end.

Definition opt_text (j : json) : option string :=
  match j with JNull => None | j => Some (py_str j) end.

(** The events of both kinds, in the order of their ids. *)
Definition physical_events (c : catalog) : list journal_entry :=
  sort_by id_le
    (journal_events PHYSICAL_STATE_UNKNOWN None c ++ journal_events DRIVE_RECONCILED None c)%list.

Definition pending_of (e : journal_entry) (drive : Z) : pending_reconciliation :=
  PendingReconciliation drive (opt_text (jget (je_detail e) "barcode"))
    (py_str (dget_or (je_detail e) "op" (JStr ""))) (je_job_id e) (je_at e).

Definition pending_step (pending : dict Z pending_reconciliation) (e : journal_entry)
    : dict Z pending_reconciliation :=
  match _drive_of (je_detail e) with
  | None => pending
  | Some drive =>
      if bool_decide (je_event e = DRIVE_RECONCILED) then ddel pending drive
      else dset pending drive (pending_of e drive)
  end.

Definition drives_pending_reconciliation (c : catalog) : dict Z pending_reconciliation :=
  foldl pending_step [] (physical_events c).

(** Sets of barcodes are lists here; order and repetition carry no meaning. *)
Definition driveless_step (driveless : list string) (e : journal_entry) : list string :=
  match opt_text (jget (je_detail e) "barcode") with
  | None => driveless
  | Some b =>
      if bool_decide (je_event e = DRIVE_RECONCILED) then filter (λ x, x ≠ b) driveless
      else if bool_decide (_drive_of (je_detail e) = None) then b :: driveless
      else driveless
  end.

Definition driveless_pending (c : catalog) : list string :=
  foldl driveless_step [] (physical_events c).

Definition barcodes_pending_reconciliation (c : catalog) : list string :=
  (driveless_pending c ++ omap pr_barcode (dvalues (drives_pending_reconciliation c)))%list.

Definition ensure_drive_reconciled (c : catalog) (drive_id : Z) (bc : option string)
    : result unit :=
  if match bc with
     | Some b => bool_decide (b ∈ barcodes_pending_reconciliation c)
     | None => false
     end
  then Raise DriveUnreconciledError
  else match dget (drives_pending_reconciliation c) drive_id with
       | Some _ => Raise DriveUnreconciledError
       | None => Ok tt
       end.

(** [InventoryService(library).snapshot()] is [library.inventory()]. *)
Definition reconcile_drive (now : Z) (lib : library) (drive_id : Z) (job_id : string)
    : M catalog pending_reconciliation :=
  match list_find (λ d, ds_drive_id d = drive_id) (Domain.inv_drives (inventory lib)) with
  | None => raise UnknownDriveError
  | Some (_, drive) =>
      let observed := ds_barcode drive in
      raise_if (bool_decide (ds_mount_state drive ≠ MountState.UNMOUNTED)) DriveUnreconciledError;;
      entry ← journal now job_id DRIVE_RECONCILED
                [("drive", JInt drive_id); ("observed_barcode", opt_json observed)];
      mret (PendingReconciliation drive_id observed DRIVE_RECONCILED job_id (je_at entry))
  end.

(** * The events, declaratively *)
Definition is_physical (e : journal_entry) : bool :=
  bool_decide (je_event e = PHYSICAL_STATE_UNKNOWN) || bool_decide (je_event e = DRIVE_RECONCILED).

Definition names_drive (d : Z) (e : journal_entry) : bool :=
  is_physical e && bool_decide (_drive_of (je_detail e) = Some d).

(** Entries about a barcode whose drive is not known: an unknown state without a
    drive, or a reconciliation; both must carry the barcode itself. *)
Definition names_barcode (b : string) (e : journal_entry) : bool :=
  bool_decide (opt_text (jget (je_detail e) "barcode") = Some b) &&
  (bool_decide (je_event e = DRIVE_RECONCILED) ||
   bool_decide (je_event e = PHYSICAL_STATE_UNKNOWN) &&
   bool_decide (_drive_of (je_detail e) = None)).

Definition last_event (p : journal_entry → bool) (c : catalog) : option journal_entry :=
  last (filter (λ e, p e = true) (ct_journal c)).

(** * Lemmas *)
Lemma filter_perm_or {A} (p q : A → bool) (l : list A) :
  (∀ x, p x = true → q x = false) →
  filter (λ x, p x) l ++ filter (λ x, q x) l ≡ₚ filter (λ x, p x || q x = true) l.
Proof.
  intros Hpq. induction l as [|x l IH]; [done|]. rewrite !filter_cons.
  destruct (p x) eqn:Hp, (q x) eqn:Hq; simpl; repeat case_decide; try done.
  - specialize (Hpq _ Hp). congruence.
  - simpl. by rewrite IH.
  - rewrite <-Permutation_middle. by rewrite IH.
Qed.

Lemma physical_events_eq c : journal_wf c →
  physical_events c = filter (λ e, is_physical e = true) (ct_journal c).
Proof.
  intros Hwf. unfold physical_events, journal_events. apply sort_by_id_journal; [done|].
  rewrite !sort_by_perm.
  etrans; [|apply (filter_perm_or (λ e, bool_decide (je_event e = PHYSICAL_STATE_UNKNOWN))
    (λ e, bool_decide (je_event e = DRIVE_RECONCILED)))].
  - f_equiv; apply reflexive_eq, list_filter_iff; intros e; by rewrite andb_true_r.
  - intros e He%bool_decide_eq_true. rewrite He. done.
Qed.

Lemma pending_wf l d : dict_wf d → dict_wf (foldl pending_step d l).
Proof.
  revert d. induction l as [|e l IH]; intros d Hd; simpl; [done|]. apply IH.
  unfold pending_step. repeat case_match; auto using dict_wf_ddel, dict_wf_dset.
Qed.

(** What the last event of [l] naming the drive says. *)
Definition verdict (drive : Z) (o : option journal_entry) : option pending_reconciliation :=
  match o with
  | Some e => if bool_decide (je_event e = DRIVE_RECONCILED) then None else Some (pending_of e drive)
  | None => None
  end.

Lemma pending_fold l d drive : dict_wf d →
  dget (foldl pending_step d l) drive =
  match last (filter (λ e, _drive_of (je_detail e) = Some drive) l) with
  | Some e => verdict drive (Some e)
  | None => dget d drive
  end.
Proof.
  revert d. induction l as [|e l IH] using rev_ind; intros d Hd; [done|].
  rewrite foldl_snoc, filter_app, last_app. simpl. rewrite filter_cons, filter_nil.
  unfold pending_step at 1. destruct (_drive_of (je_detail e)) as [dr|] eqn:Hdr.
  - case_decide as Heq; simplify_eq; simpl.
    + case_bool_decide; [rewrite dget_ddel by by apply pending_wf | rewrite dget_dset];
        by rewrite decide_True.
    + case_bool_decide; [rewrite dget_ddel by by apply pending_wf | rewrite dget_dset];
        rewrite decide_False by congruence; by apply IH.
  - rewrite decide_False by done. simpl. by apply IH.
Qed.

Lemma filter_filter_and {A} (p q r : A → bool) (l : list A) :
  (∀ x, r x = p x && q x) →
  filter (λ x, q x = true) (filter (λ x, p x = true) l) = filter (λ x, r x = true) l.
Proof.
  intros Hr. induction l as [|x l IH]; [done|]. rewrite !filter_cons, Hr.
  destruct (p x) eqn:Hp; simpl; [rewrite filter_cons|]; repeat case_decide; congruence.
Qed.

Lemma drives_pending_last c d : journal_wf c →
  dget (drives_pending_reconciliation c) d = verdict d (last_event (names_drive d) c).
Proof.
  intros Hwf. unfold drives_pending_reconciliation, last_event.
  rewrite pending_fold, physical_events_eq by (done || constructor).
  rewrite (list_filter_iff (λ e, _drive_of (je_detail e) = Some d)
    (λ e, bool_decide (_drive_of (je_detail e) = Some d) = true)) by
    (intros e; by rewrite bool_decide_eq_true).
  rewrite (filter_filter_and _ _ (names_drive d)) by done. by destruct (last _).
Qed.

Lemma driveless_fold l acc b :
  b ∈ foldl driveless_step acc l ↔
  match last (filter (λ e, opt_text (jget (je_detail e) "barcode") = Some b ∧
     (je_event e = DRIVE_RECONCILED ∨ _drive_of (je_detail e) = None)) l) with
  | Some e => je_event e ≠ DRIVE_RECONCILED
  | None => b ∈ acc
  end.
Proof.
  revert acc. induction l as [|e l IH] using rev_ind; intros acc; [done|].
  rewrite foldl_snoc, filter_app, last_app, filter_cons, filter_nil. simpl.
  unfold driveless_step at 1. destruct (opt_text _) as [b'|] eqn:Hb; [|rewrite decide_False
    by naive_solver; simpl; apply IH].
  case_bool_decide as Hev; [|case_bool_decide as Hdr].
  - destruct (decide (b' = b)) as [->|Hne].
    + rewrite decide_True by naive_solver. simpl. rewrite list_elem_of_filter. naive_solver.
    + rewrite decide_False by naive_solver. simpl. rewrite list_elem_of_filter, IH. naive_solver.
  - destruct (decide (b' = b)) as [->|Hne].
    + rewrite decide_True by naive_solver. simpl. rewrite elem_of_cons. naive_solver.
    + rewrite decide_False by naive_solver. simpl. rewrite elem_of_cons, IH. naive_solver.
  - rewrite decide_False by naive_solver. simpl. apply IH.
Qed.

Lemma driveless_last c b : journal_wf c →
  b ∈ driveless_pending c ↔
  ∃ e, last_event (names_barcode b) c = Some e ∧ je_event e = PHYSICAL_STATE_UNKNOWN.
Proof.
  intros Hwf. unfold driveless_pending, last_event. rewrite driveless_fold, physical_events_eq by done.
  rewrite (list_filter_iff (λ e, opt_text (jget (je_detail e) "barcode") = Some b ∧
      (je_event e = DRIVE_RECONCILED ∨ _drive_of (je_detail e) = None))
    (λ e, bool_decide (opt_text (jget (je_detail e) "barcode") = Some b) &&
      (bool_decide (je_event e = DRIVE_RECONCILED) || bool_decide (_drive_of (je_detail e) = None))
      = true)).
  2: { intros e. rewrite andb_true_iff, orb_true_iff, !bool_decide_eq_true. done. }
  rewrite (filter_filter_and _ _ (names_barcode b)).
  2: { intros e. unfold names_barcode, is_physical.
       destruct (bool_decide (opt_text _ = _)), (bool_decide (je_event e = DRIVE_RECONCILED)),
         (bool_decide (je_event e = PHYSICAL_STATE_UNKNOWN)), (bool_decide (_drive_of _ = _)); done. }
  destruct (last (filter _ (ct_journal c))) as [e|] eqn:Hlast.
  2: { split; [by intros ?%elem_of_nil | naive_solver]. }
  assert (names_barcode b e = true) as Hn.
  { apply last_Some_elem_of, list_elem_of_filter in Hlast. by destruct Hlast. }
  unfold names_barcode in Hn. apply andb_true_iff in Hn as [_ Hn].
  apply orb_true_iff in Hn. rewrite andb_true_iff, !bool_decide_eq_true in Hn.
  split; [intros; exists e; naive_solver | intros (? & ? & Hev); simplify_eq].
  rewrite Hev. done.
Qed.

Lemma last_event_add p now job event detail c :
  last_event p (add_journal now job event detail c) =
  let e := JobJournalEntry (next_journal_id c) job now event detail in
  if p e then Some e else last_event p c.
Proof.
  unfold last_event. simpl. rewrite filter_app, last_app, filter_cons, filter_nil.
  destruct (p _) eqn:Hp; [by rewrite decide_True | by rewrite decide_False by congruence].
Qed.

Lemma reconcile_drive_cases now lib d job c :
  (list_find (λ x, ds_drive_id x = d) (Domain.inv_drives (inventory lib)) = None ∧
   reconcile_drive now lib d job c = (Raise UnknownDriveError, c)) ∨
  ∃ i x, list_find (λ x, ds_drive_id x = d) (Domain.inv_drives (inventory lib)) = Some (i, x) ∧
    (ds_mount_state x ≠ MountState.UNMOUNTED ∧
     reconcile_drive now lib d job c = (Raise DriveUnreconciledError, c) ∨
     ds_mount_state x = MountState.UNMOUNTED ∧
     reconcile_drive now lib d job c =
       (Ok (PendingReconciliation d (ds_barcode x) DRIVE_RECONCILED job now),
        add_journal now job DRIVE_RECONCILED
          [("drive", JInt d); ("observed_barcode", opt_json (ds_barcode x))] c)).
Proof.
  unfold reconcile_drive. destruct (list_find _ _) as [[i x]|]; [|by left].
  right. exists i, x. split; [done|]. unfold journal. monad_unfold.
  destruct (decide (ds_mount_state x = MountState.UNMOUNTED)) as [Hm|Hm].
  - rewrite bool_decide_false by (intros []; done). right. by split.
  - rewrite bool_decide_true by done. by left.
Qed.

Lemma names_drive_reconciled d d' c job now x :
  names_drive d' (JobJournalEntry (next_journal_id c) job now DRIVE_RECONCILED
    [("drive", JInt d); ("observed_barcode", x)]) = bool_decide (d = d').
Proof.
  match goal with |- ?x = _ => change x with (bool_decide (Some d = Some d')) end.
  apply bool_decide_ext. naive_solver.
Qed.

(** What journaling an unknown state makes pending. *)
Lemma pending_drive_barcode c d p b :
  dget (drives_pending_reconciliation c) d = Some p → pr_barcode p = Some b →
  b ∈ barcodes_pending_reconciliation c.
Proof.
  intros Hp%dget_Some_elem Hb. unfold barcodes_pending_reconciliation.
  apply elem_of_app. right. apply list_elem_of_omap. exists p. split; [|done].
  apply list_elem_of_fmap. by exists (d, p).
Qed.

Lemma journaled_unknown_pending now job op b drive c : journal_wf c →
  let c' := add_journal now job PHYSICAL_STATE_UNKNOWN
              [("op", JStr op); ("barcode", JStr b);
               ("drive", match drive with Some d => JInt d | None => JNull end)] c in
  b ∈ barcodes_pending_reconciliation c' ∧
  ∀ d, drive = Some d → is_Some (dget (drives_pending_reconciliation c') d).
Proof.
  intros Hwf c'. assert (journal_wf c') as Hwf' by by apply add_journal_wf.
  destruct drive as [d|].
  - assert (∃ p, dget (drives_pending_reconciliation c') d = Some p ∧ pr_barcode p = Some b)
      as (p & Hp & Hb).
    { rewrite drives_pending_last by done. unfold c'. rewrite last_event_add. cbv zeta.
      assert (∀ e, je_event e = PHYSICAL_STATE_UNKNOWN → _drive_of (je_detail e) = Some d →
        names_drive d e = true) as Hn.
      { intros e He Hd. unfold names_drive, is_physical.
        rewrite (bool_decide_true (je_event e = _)), (bool_decide_true (_drive_of _ = _)) by done.
        done. }
      rewrite Hn by done. by eexists. }
    split; [by eapply pending_drive_barcode | intros ? [= <-]; by eexists].
  - split; [|done]. unfold barcodes_pending_reconciliation. apply elem_of_app. left.
    apply driveless_last; [done|]. unfold c'. rewrite last_event_add. cbv zeta.
    assert (∀ e, je_event e = PHYSICAL_STATE_UNKNOWN → _drive_of (je_detail e) = None →
      opt_text (jget (je_detail e) "barcode") = Some b → names_barcode b e = true) as Hn.
    { intros e He Hd Hb. unfold names_barcode.
      rewrite (bool_decide_true (opt_text _ = _)), (bool_decide_true (je_event e = PHYSICAL_STATE_UNKNOWN)),
        (bool_decide_true (_drive_of _ = _)) by done. by rewrite orb_true_r. }
    rewrite Hn by done. by eexists.
Qed.

(** ** Examples *)
Definition unknown_entry (b : string) (drive : json) : dict string json :=
  [("op", JStr "unmount"); ("barcode", JStr b); ("drive", drive)].
Definition sample_catalog : catalog :=
  add_journal 1 "j" PHYSICAL_STATE_UNKNOWN (unknown_entry "TAPE01L8" (JInt 0))
    (add_journal 0 "j" PHYSICAL_STATE_UNKNOWN (unknown_entry "TAPE02L8" JNull) empty_catalog).

Lemma sample_catalog_wf : journal_wf sample_catalog.
Proof. do 2 apply add_journal_wf. by intros i e. Qed.

(** * Properties *)

(** C35: A drive is pending reconciliation exactly when the last entry of the journal
    about that drive, of a [physical_state_unknown] or of a reconciliation, is a
    [physical_state_unknown], and the record returned is that entry's.  A barcode
    is pending exactly when it is the one recorded for a pending drive, or when,
    among the entries that carry it as their barcode and are of an unknown state
    without a drive or of a reconciliation, the last is of an unknown state.  (The
    barcode that a reconciliation of a drive observed does not count as carried.) *)
Theorem pending_iff_last_event (c : catalog) (Hwf : journal_wf c) :
  (∀ d p, dget (drives_pending_reconciliation c) d = Some p ↔
     ∃ e, last_event (names_drive d) c = Some e ∧ je_event e = PHYSICAL_STATE_UNKNOWN ∧
          p = pending_of e d) ∧
  (∀ b, b ∈ barcodes_pending_reconciliation c ↔
     (∃ d p, dget (drives_pending_reconciliation c) d = Some p ∧ pr_barcode p = Some b) ∨
     ∃ e, last_event (names_barcode b) c = Some e ∧ je_event e = PHYSICAL_STATE_UNKNOWN).
Proof.
  split.
  - intros d p. rewrite drives_pending_last by done. unfold verdict.
    destruct (last_event (names_drive d) c) as [e|] eqn:He; [|naive_solver].
    assert (is_physical e = true) as Hp.
    { unfold last_event in He. apply last_Some_elem_of, list_elem_of_filter in He as [He _].
      by apply andb_true_iff in He as [? _]. }
    unfold is_physical in Hp. rewrite orb_true_iff, !bool_decide_eq_true in Hp.
    destruct Hp as [Hev|Hev].
    + rewrite bool_decide_false by (rewrite Hev; done). naive_solver.
    + rewrite bool_decide_true by done. split; [done|]. intros (e' & ? & Hev' & _). simplify_eq.
      by rewrite Hev in Hev'.
  - intros b. unfold barcodes_pending_reconciliation.
    rewrite elem_of_app, (driveless_last c b Hwf), list_elem_of_omap.
    assert (dict_wf (drives_pending_reconciliation c)) as Hd by (apply pending_wf; constructor).
    split; (intros [H|H]; [right | left]); try exact H.
    + destruct H as (p & Hin & Hb). apply list_elem_of_fmap in Hin as ([d p'] & -> & Hin).
      exists d, p'. split; [by apply elem_dget | done].
    + destruct H as (d & p & Hp%dget_Some_elem & Hb). exists p. split; [|done].
      apply list_elem_of_fmap. by exists (d, p).
Qed.

Lemma pending_iff_last_event_witness :
  journal_wf sample_catalog ∧
  "TAPE02L8" ∈ barcodes_pending_reconciliation sample_catalog.
Proof.
  split; [exact sample_catalog_wf|].
  apply (proj2 (pending_iff_last_event sample_catalog sample_catalog_wf)). right.
  eexists. split; vm_compute; reflexivity.
Defined.

(** [reconcile_drive] clears exactly one drive, and only when it is safe:
    it refuses a drive the library does not report or still reports mounted,
    leaving the catalog alone; otherwise the drive is no longer pending, every
    other drive is as it was, and the new state is what the inventory shows. *)
Theorem reconcile_drive_clears_one (c : catalog) (lib : library) (now d : Z) (job : string)
    (Hwf : journal_wf c) :
  match reconcile_drive now lib d job c with
  | (Ok p, c') =>
      (∃ x, x ∈ Domain.inv_drives (inventory lib) ∧ ds_drive_id x = d ∧
         ds_mount_state x = MountState.UNMOUNTED ∧ pr_barcode p = ds_barcode x) ∧
      journal_wf c' ∧
      ∀ d', dget (drives_pending_reconciliation c') d' =
            if decide (d' = d) then None else dget (drives_pending_reconciliation c) d'
  | (Raise e, c') => c' = c ∧ (e = UnknownDriveError ∨ e = DriveUnreconciledError)
  end.
Proof.
  destruct (reconcile_drive_cases now lib d job c)
    as [[_ ->]|(i & x & Hf & [[_ ->]|[Hm ->]])]; [by auto..|].
  apply list_find_Some in Hf as (Hi & Hd & _).
  split; [exists x; split_and!; [by eapply list_elem_of_lookup_2|done..]|].
  assert (journal_wf (add_journal now job DRIVE_RECONCILED
    [("drive", JInt d); ("observed_barcode", opt_json (ds_barcode x))] c)) as Hwf'
    by by apply add_journal_wf.
  split; [done|]. intros d'. rewrite !drives_pending_last, last_event_add by done.
  cbv zeta. rewrite names_drive_reconciled.
  destruct (decide (d' = d)) as [->|Hne]; [by rewrite bool_decide_true|].
  by rewrite bool_decide_false.
Qed.

Lemma reconcile_drive_clears_one_witness :
  let c' := (reconcile_drive 5 sample_library 0 "op" sample_catalog).2 in
  is_ok (reconcile_drive 5 sample_library 0 "op" sample_catalog).1 = true ∧
  dget (drives_pending_reconciliation sample_catalog) 0 ≠ None ∧
  dget (drives_pending_reconciliation c') 0 = None.
Proof.
  intros c'. split; [vm_compute; reflexivity|]. split; [vm_compute; discriminate|].
  pose proof (reconcile_drive_clears_one sample_catalog sample_library 5 0 "op" sample_catalog_wf)
    as H. unfold c'.
  destruct (reconcile_drive 5 sample_library 0 "op" sample_catalog) as [[p|e] c1] eqn:E.
  - exact (proj2 (proj2 H) 0).
  - vm_compute in E. discriminate E.
Defined.

(** Reconciling a drive never clears a barcode whose unknown state was
    journaled without a drive: whatever drive is reconciled, and whatever
    cartridge is seen in it, the barcode stays pending. *)
Theorem reconcile_keeps_driveless (c : catalog) (lib : library) (now d : Z) (job b : string)
    (Hwf : journal_wf c) (Hb : b ∈ driveless_pending c) :
  b ∈ barcodes_pending_reconciliation (reconcile_drive now lib d job c).2.
Proof.
  unfold barcodes_pending_reconciliation. apply elem_of_app. left.
  destruct (reconcile_drive_cases now lib d job c)
    as [[_ ->]|(i & x & Hf & [[_ ->]|[Hm ->]])]; [done..|]. cbn [snd].
  apply driveless_last in Hb as (e & He & Hev); [|done].
  apply driveless_last; [by apply add_journal_wf|]. exists e. split; [|done].
  rewrite last_event_add. done.
Qed.

Lemma reconcile_keeps_driveless_witness :
  let lib := (load 2 0 sample_library).2 in
  pr_barcode <$> (match (reconcile_drive 5 lib 0 "op" sample_catalog).1 with
                  | Ok p => Some p | Raise _ => None end) = Some (Some "TAPE02L8") ∧
  "TAPE02L8" ∈ barcodes_pending_reconciliation (reconcile_drive 5 lib 0 "op" sample_catalog).2.
Proof.
  intros lib. split; [vm_compute; reflexivity|].
  apply (reconcile_keeps_driveless sample_catalog lib 5 0 "op" "TAPE02L8" sample_catalog_wf).
  apply (bool_decide_unpack _). vm_compute. exact I.
Defined.
