(* ===== verification/CatalogStore.v ===== *)
(** [CatalogLeaseStore] of openblade/jobs/scheduler.py: the lease store every
    process sharing a catalog uses, as an instance of the [LeaseStore] protocol,
    and its agreement with the in-memory store. *)
From stdpp Require Import base list option strings sets sorting.
From Stdlib Require Import ZArith Lia.
From S2P Require Import Prelude Wp Domain Paths Leases Catalog Faults Library Reconcile.
#[local] Open Scope string_scope.
#[local] Open Scope Z_scope.

#[export] Instance catalog_lease_store : LeaseStore catalog := {|
  ls_acquire := acquire_drive_leases;
  ls_acquire_drive_lease_at := acquire_drive_lease_at;
  ls_unreconciled_drives c := dmap pr_barcode (drives_pending_reconciliation c);
  ls_unreconciled_barcodes := barcodes_pending_reconciliation;
  ls_heartbeat := heartbeat_leases;
  ls_set_physical_drive := set_lease_physical_drive;
  ls_release := release_leases;
  ls_is_live := lease_is_live;
  ls_live_leases := live_leases;
|}.

(** * Lemmas *)
Lemma acquire_rows_spec uuid i now ttl job token pairs d :
  acquire_rows uuid i now ttl job token pairs d =
  let ls := granted (λ j, uuid (i + j)%nat) now ttl job token pairs in (ls, add_leases ls d).
Proof.
  revert i token d. induction pairs as [|[dr bc] pairs IH]; intros i token d; [done|].
  cbn [acquire_rows]. rewrite IH. cbv zeta. rewrite granted_cons, Nat.add_0_r.
  assert (granted (λ j, uuid (S i + j)%nat) now ttl job (token + 1) pairs =
          granted ((λ j, uuid (i + j)%nat) ∘ S) now ttl job (token + 1) pairs) as ->; [|done].
  apply imap_ext. intros j p _. simpl. do 2 f_equal. lia.
Qed.

Lemma max_token_ge d id l : dget d id = Some l → dl_fencing_token l ≤ max_token d.
Proof.
  unfold max_token, dvalues. induction d as [|[k v] d IH]; csimpl; [done|].
  case_decide; [intros [= ->]; lia|]. intros ?%IH. lia.
Qed.

Lemma max_token_app d k l : max_token (d ++ [(k, l)])%list = Z.max (max_token d) (dl_fencing_token l).
Proof.
  unfold max_token, dvalues. rewrite !fmap_app, foldr_app. simpl.
  induction d as [|[k' v] d IH]; csimpl; [lia|]. rewrite IH. lia.
Qed.

Lemma max_token_nonneg d : 0 ≤ max_token d.
Proof. unfold max_token. induction (dl_fencing_token <$> dvalues d); simpl; lia. Qed.

Lemma max_token_granted uuid now ttl job pairs d :
  uuids_fresh uuid (length pairs) d →
  max_token (add_leases (granted uuid now ttl job (max_token d) pairs) d) =
  max_token d + Z.of_nat (length pairs).
Proof.
  revert uuid d. induction pairs as [|[dr bc] pairs IH]; intros uuid d [Hf Hinj];
    [simpl; lia|].
  rewrite granted_cons. cbn [add_leases foldl].
  set (l := fresh_lease now ttl job (uuid 0%nat) dr bc (max_token d + 1)).
  change (foldl _ ?a ?b) with (add_leases b a).
  assert (dget d (uuid 0%nat) = None) as H0 by (apply Hf; simpl; lia).
  assert (max_token (dset d (dl_id l) l) = max_token d + 1) as Hmax.
  { simpl. rewrite dset_notin, max_token_app by done. simpl. lia. }
  rewrite <-Hmax, IH, Hmax; [simpl; lia|]. split.
  - intros i Hi. simpl. rewrite dget_dset_ne; [apply Hf; simpl; lia|].
    intros Heq. apply Hinj in Heq; simpl; lia.
  - intros i j Hi Hj Heq. apply Hinj in Heq; simpl; lia.
Qed.

Lemma select_live_busy now (d : leases) :
  dl_drive_id <$> select (λ l, _live l now) d = busy_drives now d.
Proof.
  unfold select, busy_drives. f_equal. apply list_filter_iff. intros l. by destruct (_live l now).
Qed.

Lemma update_rows_get p f (d : leases) id :
  dget (update_rows p f d) id = (λ l, if p l then f l else l) <$> dget d id.
Proof. apply dget_dmap. Qed.

Lemma update_rows_on_leases ids p f (d : leases) id : table_wf d →
  dget (update_rows (λ l, bool_decide (dl_id l ∈ ids) && p l) f d) id =
  on_leases ids p f id <$> dget d id.
Proof.
  intros (_ & Hid & _). rewrite update_rows_get. unfold on_leases.
  destruct (dget d id) as [l|] eqn:Hl; [|done]. simpl. by rewrite (Hid _ _ Hl).
Qed.

#[export] Program Instance catalog_lease_store_laws : LeaseStoreLaws catalog := {|
  ls_table := ct_leases;
  ls_last_token c := max_token (ct_leases c);
|}.
Next Obligation.
  intros uuid now job bcs num ttl ex c. simpl. unfold acquire_drive_leases.
  rewrite select_live_busy.
  change (filter _ (zrange 0 num)) with (free_drives now num ex (ct_leases c)).
  case_bool_decide as Hlen; [by left|]. right. split; [lia|].
  rewrite acquire_rows_spec. cbv zeta. eexists. split; [reflexivity|]. intros Hfresh. simpl.
  split; [done|]. assert (length (zip (free_drives now num ex (ct_leases c)) bcs) = length bcs)
    as Hz by (rewrite length_zip; lia).
  rewrite max_token_granted by (by rewrite Hz). by rewrite Hz.
Qed.
Next Obligation.
  intros id now job drive bc ttl c. simpl. unfold acquire_drive_lease_at.
  case_bool_decide as Hheld.
  - left. split; [|done].
    destruct (select _ (ct_leases c)) as [|l ls] eqn:Hs; [done|].
    assert (l ∈ select (λ l, bool_decide (dl_drive_id l = drive) && _live l now) (ct_leases c))
      as Hl by (rewrite Hs; by left).
    apply list_elem_of_filter in Hl as [Hl Hin]. apply Is_true_true, andb_true_iff in Hl as [Hd Hl].
    apply bool_decide_eq_true in Hd. apply list_elem_of_fmap. exists l. split; [done|].
    by apply list_elem_of_filter.
  - right. split.
    + intros (l & -> & [Hl Hin]%list_elem_of_filter)%list_elem_of_fmap.
      assert (l ∈ select (λ l0, bool_decide (dl_drive_id l0 = dl_drive_id l) && _live l0 now)
        (ct_leases c)) as Hx; [|rewrite Hheld in Hx; by apply elem_of_nil in Hx].
      apply list_elem_of_filter. split; [|done]. by rewrite bool_decide_true, Hl.
    + eexists. split; [reflexivity|]. intros Hfresh. simpl. split; [done|].
      rewrite dset_notin, max_token_app by done. simpl. pose proof (max_token_nonneg (ct_leases c)).
      lia.
Qed.
Next Obligation. intros now ids ttl c id Hwf. by apply update_rows_on_leases. Qed.
Next Obligation.
  intros lid p c id (_ & Hid & _). simpl. unfold set_lease_physical_drive, on_leases.
  destruct (dget (ct_leases c) lid) as [l|] eqn:Hl; simpl.
  - rewrite dget_dset. case_decide; subst.
    + rewrite Hl. simpl. by rewrite bool_decide_true by by left.
    + rewrite bool_decide_false by (intros ?%list_elem_of_singleton; congruence).
      by destruct (dget _ id).
  - destruct (dget (ct_leases c) id) as [l|] eqn:Hi; [|done]. simpl.
    rewrite bool_decide_false; [done|]. intros ->%list_elem_of_singleton. congruence.
Qed.
Next Obligation. intros now ids c id Hwf. by apply update_rows_on_leases. Qed.
Next Obligation.
  intros now ids ttl lid p c Hd. simpl. unfold set_lease_physical_drive.
  split_and!; [by apply dict_wf_dmap | | by apply dict_wf_dmap].
  destruct (dget _ lid); [by apply dict_wf_dset | done].
Qed.
Next Obligation.
  intros now ids ttl lid p c. simpl.
  assert (∀ (f : drive_lease → drive_lease) (d : leases),
    (∀ l, dl_fencing_token (f l) = dl_fencing_token l) → max_token (dmap f d) = max_token d) as Hmap.
  { intros f d Hf. unfold max_token, dvalues, dmap. induction d as [|[k l] d IH]; csimpl; [done|].
    by rewrite Hf, IH. }
  split_and!.
  - apply Hmap. intros l. by destruct (_ && _).
  - unfold set_lease_physical_drive. destruct (dget _ lid) as [l|] eqn:Hl; [|done]. simpl.
    apply dget_split in Hl as (d1 & d2 & -> & ->). unfold max_token, dvalues.
    by rewrite !fmap_app.
  - apply Hmap. intros l. by destruct (_ && _).
Qed.
Next Obligation. done. Qed.
Next Obligation.
  intros now c l _. simpl. unfold live_leases. rewrite elem_of_sort_by. unfold select.
  rewrite list_elem_of_filter, Is_true_true. naive_solver.
Qed.

(** * Calls on a store *)
Inductive lease_call :=
| CAcquire (uuid : nat → string) (now : Z) (job : string) (barcodes : list string)
    (num_drives ttl : Z) (exclude : list Z)
| CAcquireAt (uuid : string) (now : Z) (job : string) (drive : Z) (bc : string) (ttl : Z)
| CHeartbeat (now : Z) (ids : list string) (ttl : Z)
| CPhysical (id : string) (physical : Z)
| CRelease (now : Z) (ids : list string)
| CIsLive (now : Z) (id : string) (token : Z)
| CLiveLeases (now : Z).

Inductive lease_reply :=
| RLeases (o : option (list drive_lease)) | RLease (o : option drive_lease)
| RUnit | RBool (b : bool) | RList (l : list drive_lease).

Definition run_call `{LeaseStore T} (call : lease_call) (s : T) : lease_reply * T :=
  match call with
  | CAcquire uuid now job bcs num ttl ex =>
      let '(r, s') := ls_acquire uuid now job bcs num ttl ex s in (RLeases r, s')
  | CAcquireAt uuid now job drive bc ttl =>
      let '(r, s') := ls_acquire_drive_lease_at uuid now job drive bc ttl s in (RLease r, s')
  | CHeartbeat now ids ttl => (RUnit, ls_heartbeat now ids ttl s)
  | CPhysical id p => (RUnit, ls_set_physical_drive id p s)
  | CRelease now ids => (RUnit, ls_release now ids s)
  | CIsLive now id token => (RBool (ls_is_live now id token s), s)
  | CLiveLeases now => (RList (ls_live_leases now s), s)
  end.

Fixpoint run_calls `{LeaseStore T} (calls : list lease_call) (s : T) : list lease_reply * T :=
  match calls with
  | [] => ([], s)
  | call :: calls =>
      let '(r, s') := run_call call s in
      let '(rs, s'') := run_calls calls s' in (r :: rs, s'')
  end.

(** The identifiers drawn along a run are new each time. *)
Definition call_fresh (call : lease_call) (d : leases) : Prop :=
  match call with
  | CAcquire uuid _ _ bcs _ _ _ => uuids_fresh uuid (length bcs) d
  | CAcquireAt uuid _ _ _ _ _ => dget d uuid = None
  | _ => True
  end.
Fixpoint calls_fresh (calls : list lease_call) (c : catalog) : Prop :=
  match calls with
  | [] => True
  | call :: calls => call_fresh call (ct_leases c) ∧ calls_fresh calls (run_call call c).2
  end.

(** * The two stores agree *)
Definition token_lt (a b : drive_lease) : Prop := dl_fencing_token a < dl_fencing_token b.
Definition in_order (d : leases) : Prop := StronglySorted token_lt (dvalues d).

Record same_leases (s : mem_store) (c : catalog) : Prop := {
  sl_table : ms_leases s = ct_leases c;
  sl_token : ms_last_token s = max_token (ct_leases c);
  sl_wf : dict_wf (ct_leases c);
  sl_keys : ∀ id l, dget (ct_leases c) id = Some l → dl_id l = id;
  sl_order : in_order (ct_leases c);
}.

Lemma dict_eq {V} (d1 d2 : dict string V) :
  dict_wf d1 → d1.*1 = d2.*1 → (∀ k, dget d1 k = dget d2 k) → d1 = d2.
Proof.
  unfold dict_wf. revert d2. induction d1 as [|[k v] d1 IH]; intros [|[k' v'] d2]; csimpl; try done.
  rewrite NoDup_cons. intros [Hn Hnd] [= -> Hk] Hget. f_equal.
  - specialize (Hget k'). rewrite !decide_True in Hget by done. congruence.
  - apply IH; [done..|]. intros k. specialize (Hget k). case_decide; [|done]. subst.
    assert (dget d1 k' = None) as -> by by apply dget_None.
    symmetry. apply dget_None. by rewrite <-Hk.
Qed.

Lemma update_each_keys p f ids (d : leases) : (update_each p f ids d).*1 = d.*1.
Proof.
  unfold update_each. revert d. induction ids as [|i ids IH]; intros d; simpl; [done|].
  rewrite IH. destruct (dget d i) as [l|] eqn:Hl; [|done]. destruct (p l); [|done].
  apply dkeys_dset_in. by eexists.
Qed.

Lemma update_each_rows p f ids (d : leases) :
  dict_wf d → (∀ id l, dget d id = Some l → dl_id l = id) →
  (∀ l, p (f l) = false ∨ f (f l) = f l) →
  update_each p f ids d = update_rows (λ l, bool_decide (dl_id l ∈ ids) && p l) f d.
Proof.
  intros Hwf Hid Hidem. apply dict_eq.
  - by apply update_each_wf.
  - rewrite update_each_keys. unfold update_rows. by rewrite dkeys_dmap.
  - intros k. rewrite update_each_get, update_rows_get by done. unfold on_leases.
    destruct (dget d k) as [l|] eqn:Hl; [|done]. simpl. by rewrite (Hid _ _ Hl).
Qed.

Lemma in_order_snoc d id l : in_order d → max_token d < dl_fencing_token l →
  dget d id = None → in_order (dset d id l).
Proof.
  intros Hd Hmax Hid. rewrite dset_notin by done. unfold in_order, dvalues in *.
  rewrite fmap_app. simpl.
  assert (Forall (λ x, token_lt x l) d.*2) as Hall.
  { clear -Hmax. unfold token_lt, max_token, dvalues in *.
    induction d as [|[k v] d IH]; csimpl in *; constructor; [lia | apply IH; lia]. }
  clear -Hd Hall. induction Hd as [|x xs Hxs IH Hx]; simpl; [repeat constructor|].
  apply Forall_cons in Hall as [? ?]. constructor; [by apply IH|].
  apply Forall_app. split; [done | by repeat constructor].
Qed.

Lemma in_order_map f (d : leases) : (∀ l, dl_fencing_token (f l) = dl_fencing_token l) →
  in_order d → in_order (dmap f d).
Proof.
  intros Hf. unfold in_order, dvalues, dmap. rewrite <-list_fmap_compose.
  assert ((snd ∘ prod_map id f) <$> d = f <$> d.*2) as ->
    by (rewrite <-list_fmap_compose; by apply list_fmap_ext).
  generalize d.*2. induction 1 as [|x l Hl IH Hx]; csimpl; constructor; [done|].
  rewrite Forall_fmap. eapply Forall_impl; [exact Hx|]. intros y. unfold token_lt. simpl.
  by rewrite !Hf.
Qed.

Lemma in_order_add uuid now ttl job pairs d :
  uuids_fresh uuid (length pairs) d → in_order d →
  in_order (add_leases (granted uuid now ttl job (max_token d) pairs) d).
Proof.
  revert uuid d. induction pairs as [|[dr bc] pairs IH]; intros uuid d [Hf Hinj] Hd; [done|].
  rewrite granted_cons. cbn [add_leases foldl].
  set (l := fresh_lease now ttl job (uuid 0%nat) dr bc (max_token d + 1)).
  change (foldl _ ?a ?b) with (add_leases b a).
  assert (dget d (uuid 0%nat) = None) as H0 by (apply Hf; simpl; lia).
  assert (max_token (dset d (dl_id l) l) = max_token d + 1) as <-.
  { simpl. rewrite dset_notin, max_token_app by done. simpl. lia. }
  apply IH; [split|].
  - intros i Hi. simpl. rewrite dget_dset_ne; [apply Hf; simpl; lia|].
    intros Heq. apply Hinj in Heq; simpl; lia.
  - intros i j Hi Hj Heq. apply Hinj in Heq; simpl; lia.
  - apply in_order_snoc; simpl; [done | lia | done].
Qed.

(** Building the relation again after an update of the rows. *)
Lemma same_leases_map s c f d :
  same_leases s c → d = dmap f (ct_leases c) →
  (∀ l, dl_id (f l) = dl_id l ∧ dl_fencing_token (f l) = dl_fencing_token l) →
  same_leases (with_leases d (ms_last_token s) s) (with_lease_table d c).
Proof.
  intros [] -> Hf.
  assert (max_token (dmap f (ct_leases c)) = max_token (ct_leases c)) as Hmax.
  { unfold max_token, dvalues, dmap. clear -Hf. induction (ct_leases c) as [|[k l] d IH]; [done|].
    csimpl. rewrite IH. by destruct (Hf l) as [_ ->]. }
  split; simpl; [done | by rewrite Hmax | by apply dict_wf_dmap | |].
  - intros id l. rewrite dget_dmap. intros (l0 & Hl0 & ->)%fmap_Some.
    destruct (Hf l0) as [-> _]. by apply sl_keys0.
  - apply in_order_map; [|done]. intros l. by destruct (Hf l).
Qed.

Lemma same_leases_grant s c uuid now ttl job pairs :
  same_leases s c → uuids_fresh uuid (length pairs) (ct_leases c) →
  let ls := granted uuid now ttl job (max_token (ct_leases c)) pairs in
  same_leases (with_leases (add_leases ls (ms_leases s))
                 (max_token (ct_leases c) + Z.of_nat (length pairs)) s)
    (with_lease_table (add_leases ls (ct_leases c)) c).
Proof.
  intros [] Hfresh ls. split; simpl.
  - by rewrite sl_table0.
  - unfold ls. by rewrite max_token_granted.
  - by apply add_leases_wf.
  - intros id l [[_ ?]|Hl]%add_leases_get; [done | by apply sl_keys0].
  - by apply in_order_add.
Qed.

Lemma live_leases_order now c : in_order (ct_leases c) →
  live_leases now c = filter (λ l, _live l now = true) (dvalues (ct_leases c)).
Proof.
  intros Ho. unfold live_leases, select, token_le.
  rewrite (list_filter_iff _ (λ l, _live l now = true)) by (intros l; by rewrite Is_true_true).
  apply sort_by_unique.
  - intros x y. rewrite !bool_decide_eq_true. lia.
  - intros x y z. rewrite !bool_decide_eq_true. lia.
  - done.
  - unfold le_rel. apply StronglySorted_filter. clear -Ho. unfold in_order in Ho.
    induction Ho as [|x l Hl IH Hx]; constructor; [done|].
    eapply Forall_impl; [exact Hx|]. intros y. unfold token_lt. rewrite bool_decide_eq_true. lia.
  - assert (∀ x y, x ∈ dvalues (ct_leases c) → y ∈ dvalues (ct_leases c) →
      dl_fencing_token x = dl_fencing_token y → x = y) as Hinj.
    { clear -Ho. unfold in_order in Ho. induction Ho as [|a l Hl IH Ha].
      - by intros ?? ?%elem_of_nil.
      - rewrite Forall_forall in Ha. unfold token_lt in Ha.
        intros x y. rewrite !elem_of_cons. intros [->|Hx] [->|Hy] Heq; auto.
        + specialize (Ha _ Hy). lia.
        + specialize (Ha _ Hx). lia. }
    intros x y [_ Hx]%list_elem_of_filter [_ Hy]%list_elem_of_filter.
    rewrite !bool_decide_eq_true. intros ??. apply Hinj; [done..|lia].
Qed.

Lemma run_call_same call s c : same_leases s c → call_fresh call (ct_leases c) →
  (run_call call s).1 = (run_call call c).1 ∧
  same_leases (run_call call s).2 (run_call call c).2.
Proof.
  intros Hsame Hfresh. pose proof Hsame as [Htab Htok Hwf Hid Hord].
  destruct call as [uuid now job bcs num ttl ex|uuid now job drive bc ttl|now ids ttl|id p|now ids
    |now id token|now]; simpl in *.
  - unfold mem_acquire, acquire_drive_leases. rewrite select_live_busy, Htab.
    change (filter _ (zrange 0 num)) with (free_drives now num ex (ct_leases c)).
    case_bool_decide as Hlen; [done|].
    rewrite mem_acquire_loop_spec, acquire_rows_spec. cbv zeta. simpl. rewrite Htok.
    split; [done|]. set (pairs := zip _ bcs).
    assert (uuids_fresh uuid (length pairs) (ct_leases c)) as Hf.
    { unfold pairs. rewrite length_zip. destruct Hfresh as [H1 H2].
      split; [intros; apply H1; lia|]. intros; apply H2; [lia..|done]. }
    pose proof (same_leases_grant s c uuid now ttl job pairs Hsame Hf) as HG. cbv zeta in HG.
    by rewrite Htab in *.
  - pose proof (ls_acquire_at_spec uuid now job drive bc ttl s) as H1.
    pose proof (ls_acquire_at_spec uuid now job drive bc ttl c) as H2. simpl in H1, H2.
    unfold mem_acquire_drive_lease_at, acquire_drive_lease_at in *. rewrite Htab in *.
    destruct (existsb _ _), (bool_decide _); [done| | |].
    + destruct H1 as [[? _]|[_ (? & [=] & _)]]. destruct H2 as [[_ [=]]|[? _]]. done.
    + destruct H1 as [[_ [=]]|[? _]]. destruct H2 as [[? _]|[_ (? & [=] & _)]]. done.
    + simpl. rewrite Htok. split; [done|]. split; simpl.
      * done.
      * rewrite dset_notin, max_token_app by done. simpl. lia.
      * by apply dict_wf_dset.
      * intros id l. rewrite dget_dset. case_decide; [by intros [= <-]|apply Hid].
      * apply in_order_snoc; simpl; [done | lia | done].
  - split; [done|]. unfold mem_heartbeat, heartbeat_leases. rewrite Htab.
    rewrite update_each_rows by (done || by right). eapply same_leases_map; [done|done|].
    intros l. cbn beta. by case_match.
  - split; [done|]. unfold mem_set_physical_drive, set_lease_physical_drive. rewrite Htab.
    destruct (dget (ct_leases c) id) as [l|] eqn:Hl; [|done].
    eapply (same_leases_map s c (λ x, if bool_decide (dl_id x = id) then lease_at_drive p x else x));
      [done | | by intros x; cbn beta; case_bool_decide].
    apply dict_eq; [by apply dict_wf_dset | | ].
    + rewrite dkeys_dset_in by (by eexists). by rewrite dkeys_dmap.
    + intros k. rewrite dget_dset, dget_dmap. case_decide; subst.
      * rewrite Hl. simpl. by rewrite bool_decide_true by by apply Hid.
      * destruct (dget (ct_leases c) k) as [x|] eqn:Hx; [|done]. simpl.
        rewrite bool_decide_false; [done|]. rewrite (Hid _ _ Hx). congruence.
  - split; [done|]. unfold mem_release, release_leases. rewrite Htab.
    rewrite update_each_rows by (done || by left). eapply same_leases_map; [done|done|].
    intros l. cbn beta. by case_match.
  - split; [|done]. unfold mem_is_live, lease_is_live. by rewrite Htab.
  - split; [|done]. f_equal. rewrite live_leases_order by done. unfold mem_live_leases.
    by rewrite Htab.
Qed.

(** * Properties *)

(** C36: The process-local lease store and the catalog's are interchangeable: on
    any sequence of calls, with fresh identifiers, both give the same replies,
    fencing tokens included, and end with the same table of leases. *)
Theorem lease_stores_equivalent (calls : list lease_call)
    (Hfresh : calls_fresh calls empty_catalog) :
  (run_calls calls new_mem_store).1 = (run_calls calls empty_catalog).1 ∧
  ms_leases (run_calls calls new_mem_store).2 = ct_leases (run_calls calls empty_catalog).2.
Proof.
  assert (same_leases new_mem_store empty_catalog) as Hsame by (split; by try constructor).
  revert Hsame Hfresh. generalize new_mem_store, empty_catalog.
  induction calls as [|call calls IH]; intros s c Hsame Hfresh; simpl.
  { split; [done | apply Hsame]. }
  destruct Hfresh as [Hcall Hrest].
  destruct (run_call_same call s c Hsame Hcall) as [Hr Hsame'].
  destruct (run_call call s) as [r1 s1], (run_call call c) as [r2 c1]. simpl in *. subst r2.
  destruct (IH s1 c1 Hsame' Hrest) as [IH1 IH2].
  destruct (run_calls calls s1) as [rs1 s2], (run_calls calls c1) as [rs2 c2]. simpl in *.
  by subst.
Qed.

Definition sample_calls : list lease_call :=
  [ CAcquire (λ i, nth i ["a"; "b"] "") 0 "job1" ["TAPE01L8"; "TAPE02L8"] 3 10 [1];
    CAcquireAt "c" 5 "job2" 0 "TAPE03L8" 10; CHeartbeat 5 ["b"] 10; CRelease 6 ["a"];
    CAcquireAt "d" 7 "job2" 0 "TAPE03L8" 10; CIsLive 12 "b" 2; CLiveLeases 12 ].

Lemma lease_stores_equivalent_witness :
  calls_fresh sample_calls empty_catalog ∧
  (run_calls sample_calls new_mem_store).1 = (run_calls sample_calls empty_catalog).1 ∧
  (run_calls sample_calls empty_catalog).1 !! 5%nat = Some (RBool true).
Proof.
  assert (calls_fresh sample_calls empty_catalog) as Hf.
  { unfold sample_calls. cbn [calls_fresh call_fresh].
    split; [split|repeat (split; [first [exact I | vm_compute; reflexivity]|]); exact I].
    - intros [|[|i]] Hi; [vm_compute; reflexivity..|simpl in Hi; lia].
    - intros [|[|i]] [|[|j]] Hi Hj; simpl in *; try done; lia. }
  split; [exact Hf|]. split; [exact (proj1 (lease_stores_equivalent sample_calls Hf))|].
  vm_compute. reflexivity.
Defined.
