(* ===== verification/Scheduler.v ===== *)
(** The drive scheduler: class [DriveScheduler] of openblade/jobs/scheduler.py,
    over any lease store, and [record_physical_state_unknown] of
    openblade/jobs/sharded_archive.py.

    Handles are shared mutable objects: the scheduler keeps every handle it made
    in [sd_handles] and refers to it by position.  A waiting [acquire_drives]
    gives up the scheduler's lock, so other threads and processes may change the
    store between two attempts; each round of the loop carries that change, and
    the readings of both clocks. *)
From stdpp Require Import base list option strings sets relations.
From Stdlib Require Import ZArith Lia.
From S2P Require Import Prelude Wp Domain Leases Catalog Faults Library Reconcile CatalogStore.
#[local] Open Scope string_scope.
#[local] Open Scope Z_scope.

(** * State *)
Record drive_handle := DriveHandle {
  dh_drive_id : Z;
  dh_barcode : string;
  dh_physical_drive_id : option Z;
  dh_lease_id : string;
  dh_fencing_token : Z;
  dh_released : bool;
  dh_hold_unjournaled : bool;
}.

(** The drive physical operations target. *)
Definition physical (h : drive_handle) : Z := default (dh_drive_id h) (dh_physical_drive_id h).

Definition DEFAULT_LEASE_TTL : Z := 15 * 60 * 1000000.

Record scheduler := DriveScheduler {
  sd_num_drives : Z;
  sd_job_id : string;
  sd_ttl : Z;
  sd_handles : list drive_handle;
  sd_held : list nat;
  sd_stop_heartbeat : bool;
  sd_heartbeat_alive : bool;
}.
Definition new_scheduler (num_drives : Z) (job_id : string) (ttl : Z) : scheduler :=
  DriveScheduler num_drives job_id ttl [] [] false false.

Definition with_handles (hs : list drive_handle) (sc : scheduler) : scheduler :=
  DriveScheduler (sd_num_drives sc) (sd_job_id sc) (sd_ttl sc) hs (sd_held sc)
    (sd_stop_heartbeat sc) (sd_heartbeat_alive sc).
Definition with_held (held : list nat) (sc : scheduler) : scheduler :=
  DriveScheduler (sd_num_drives sc) (sd_job_id sc) (sd_ttl sc) (sd_handles sc) held
    (sd_stop_heartbeat sc) (sd_heartbeat_alive sc).
Definition with_thread (stop alive : bool) (sc : scheduler) : scheduler :=
  DriveScheduler (sd_num_drives sc) (sd_job_id sc) (sd_ttl sc) (sd_handles sc) (sd_held sc)
    stop alive.

Definition mark_released (h : drive_handle) : drive_handle :=
  DriveHandle (dh_drive_id h) (dh_barcode h) (dh_physical_drive_id h) (dh_lease_id h)
    (dh_fencing_token h) true (dh_hold_unjournaled h).
Definition mark_hold (h : drive_handle) : drive_handle :=
  DriveHandle (dh_drive_id h) (dh_barcode h) (dh_physical_drive_id h) (dh_lease_id h)
    (dh_fencing_token h) (dh_released h) true.
Definition set_physical (d : Z) (h : drive_handle) : drive_handle :=
  DriveHandle (dh_drive_id h) (dh_barcode h) (Some d) (dh_lease_id h) (dh_fencing_token h)
    (dh_released h) (dh_hold_unjournaled h).

(** The handle of a lease. *)
Definition handle_of (l : drive_lease) : drive_handle :=
  DriveHandle (dl_drive_id l) (dl_barcode l) None (dl_id l) (dl_fencing_token l) false false.

(** The objects behind references, and an attribute write on each of them. *)
Definition deref (refs : list nat) (sc : scheduler) : list drive_handle :=
  omap (λ i, sd_handles sc !! i) refs.
Definition update_handles (f : drive_handle → drive_handle) (refs : list nat) (sc : scheduler)
    : scheduler := with_handles (foldl (λ hs i, alter f i hs) (sd_handles sc) refs) sc.

Definition has (p : drive_handle → bool) (sc : scheduler) (i : nat) : bool :=
  match sd_handles sc !! i with Some h => p h | None => false end.

Section scheduler_ops.
Context {T : Type} `{LeaseStore T}.
Notation st := (T * scheduler)%type.

(** * Acquiring *)

(** One pass of the loop of [acquire_drives]: [None] is "not enough free drives". *)
Definition acquire_attempt (uuid : nat → string) (now : Z) (barcodes : list string)
    : M st (option (list drive_lease)) := λ '(s, sc),
  let pending := filter (λ b, b ∈ ls_unreconciled_barcodes s) barcodes in
  if bool_decide (pending ≠ []) then (Raise DriveUnreconciledError, (s, sc))
  else
    let excluded := filter (λ d, 0 ≤ d < sd_num_drives sc) (dkeys (ls_unreconciled_drives s)) in
    if bool_decide (sd_num_drives sc - Z.of_nat (length excluded) < Z.of_nat (length barcodes))
    then (Raise DriveUnreconciledError, (s, sc))
    else
      let '(leases, s') := ls_acquire uuid now (sd_job_id sc) barcodes (sd_num_drives sc)
                             (sd_ttl sc) excluded s in
      (Ok leases, (s', sc)).

Definition _ensure_heartbeat_thread (sc : scheduler) : scheduler :=
  if sd_heartbeat_alive sc then sc else with_thread false true sc.

(** The handles of the leases obtained, kept as held; references to them. *)
Definition register (leases : list drive_lease) : M st (list nat) := λ '(s, sc),
  let refs := seq (length (sd_handles sc)) (length leases) in
  let sc := with_handles (sd_handles sc ++ (handle_of <$> leases))%list sc in
  let sc := with_held (sd_held sc ++ refs)%list sc in
  (Ok refs, (s, _ensure_heartbeat_thread sc)).

Record round := Round {
  r_uuid : nat → string;
  r_now : Z;
  (* the monotonic clock, read after the attempt *)
  r_monotonic : Z;
  (* what other threads and processes do while this one waits *)
  r_others : T → T;
}.

(** [None]: still waiting after these rounds. *)
Fixpoint acquire_loop (deadline : Z) (rounds : list round) (barcodes : list string)
    : M st (option (list nat)) :=
  match rounds with
  | [] => mret None
  | r :: rounds =>
      leases ← acquire_attempt (r_uuid r) (r_now r) barcodes;
      match leases with
      | Some leases => Some <$> register leases
      | None =>
          if bool_decide (deadline - r_monotonic r ≤ 0) then raise DriveBusyError
          else modify (λ '(s, sc), (r_others r s, sc));; acquire_loop deadline rounds barcodes
      end
  end.

(** [start] is the monotonic clock when the call begins. *)
Definition acquire_drives (start timeout : Z) (rounds : list round) (barcodes : list string)
    : M st (option (list nat)) :=
  sc ← gets snd;
  raise_if (bool_decide (sd_num_drives sc < Z.of_nat (length barcodes))) DriveBusyError;;
  raise_if (bool_decide (¬ NoDup barcodes)) ValueError;;
  acquire_loop (start + timeout) rounds barcodes.

(** * Holding and releasing *)
Definition release_drives (now : Z) (refs : list nat) : M st unit := λ '(s, sc),
  let pending := filter (λ i, has (λ h, negb (dh_released h) && negb (dh_hold_unjournaled h)) sc i)
                   refs in
  let s' := ls_release now (dh_lease_id <$> deref pending sc) s in
  let sc1 := update_handles mark_released pending sc in
  let held := filter (λ i, has (λ h, negb (dh_released h)) sc1 i) (sd_held sc1) in
  let sc2 := with_held held sc1 in
  let sc3 := if bool_decide (held = []) then with_thread true (sd_heartbeat_alive sc2) sc2
             else sc2 in
  let kept := filter (λ i, has (λ h, dh_hold_unjournaled h && negb (dh_released h)) sc3 i) refs in
  ((if bool_decide (kept ≠ []) then Raise JournalWriteError else Ok tt), (s', sc3)).

Definition verify (now : Z) (h : drive_handle) (s : T) : result unit :=
  if dh_released h || negb (ls_is_live now (dh_lease_id h) (dh_fencing_token h) s)
  then Raise StaleLeaseError else Ok tt.

Definition heartbeat (now : Z) (refs : list nat) : M st unit :=
  modify (λ '(s, sc), (ls_heartbeat now (dh_lease_id <$> deref refs sc) (sd_ttl sc) s, sc)).

Definition record_physical_drives (refs : list nat) : M st unit :=
  modify (λ '(s, sc),
    (foldl (λ s h, match dh_physical_drive_id h with
                   | Some d => ls_set_physical_drive (dh_lease_id h) d s
                   | None => s
                   end) s (deref refs sc), sc)).

(** One wake-up of the heartbeat thread. *)
Definition heartbeat_thread_step (now : Z) : M st unit := λ '(s, sc),
  if negb (sd_heartbeat_alive sc) then (Ok tt, (s, sc))
  else if sd_stop_heartbeat sc then (Ok tt, (s, with_thread true false sc))
  else
    let handles := filter (λ i, has (λ h, negb (dh_released h)) sc i) (sd_held sc) in
    if bool_decide (handles = []) then (Ok tt, (s, with_thread false false sc))
    else heartbeat now handles (s, sc).

(** * Queries *)
Definition available_count (now : Z) (s : T) (sc : scheduler) : Z :=
  let held := dl_drive_id <$> ls_live_leases now s in
  Z.of_nat (length (filter (λ d, d ∉ held) (zrange 0 (sd_num_drives sc)))).

Definition status (now : Z) (s : T) (sc : scheduler) : dict Z (option string) :=
  foldl (λ d l, if dmem d (dl_drive_id l) then dset d (dl_drive_id l) (Some (dl_barcode l)) else d)
    ((λ i, (i, None)) <$> zrange 0 (sd_num_drives sc)) (ls_live_leases now s).
End scheduler_ops.

(** * Journaling an unknown physical state (sharded_archive.py) *)
Definition opt_drive_json (o : option Z) : json :=
  match o with Some d => JInt d | None => JNull end.

Definition matches_handle (bc : string) (drive : option Z) (h : drive_handle) : bool :=
  bool_decide (dh_barcode h = bc) ||
  match drive with
  | Some d => bool_decide (d = dh_drive_id h) || bool_decide (d = physical h)
  | None => false
  end.

Definition record_physical_state_unknown (attempts : list bool) (now : Z) (job_id op bc : string)
    (drive : option Z) (refs : list nat) : M (catalog * scheduler) unit :=
  try_except
    (zoom fst (λ c st, (c, st.2))
       (journal_durable attempts now job_id PHYSICAL_STATE_UNKNOWN
          [("op", JStr op); ("barcode", JStr bc); ("drive", opt_drive_json drive)]))
    (λ _,
       matched ← gets (λ st, filter (λ i, has (matches_handle bc drive) st.2 i) refs);
       raise_if (bool_decide (matched = [])) JournalWriteError;;
       modify (λ st, (st.1, update_handles mark_hold matched st.2))).

(** * A world of schedulers over one store *)
Section world.
Context {T : Type} `{LeaseStore T}.

Inductive sched_op :=
| OpAcquire (uuid : nat → string) (barcodes : list string)
| OpRelease (refs : list nat)
| OpHeartbeat (refs : list nat)
| OpThread
| OpRecordPhysical (refs : list nat)
| OpSetPhysical (ref : nat) (drive : Z)
| OpHold (ref : nat).

Definition run_sched_op (now : Z) (o : sched_op) : M (T * scheduler) unit :=
  match o with
  | OpAcquire uuid barcodes =>
      leases ← acquire_attempt uuid now barcodes;
      match leases with
      | Some leases => register leases;; mret tt
      | None => mret tt
      end
  | OpRelease refs => release_drives now refs
  | OpHeartbeat refs => heartbeat now refs
  | OpThread => heartbeat_thread_step now
  | OpRecordPhysical refs => record_physical_drives refs
  | OpSetPhysical ref d => modify (λ st, (st.1, update_handles (set_physical d) [ref] st.2))
  | OpHold ref => modify (λ st, (st.1, update_handles mark_hold [ref] st.2))
  end.

Record world := World {
  w_store : T;
  w_now : Z;
  w_scheds : list scheduler;
}.

(** Scheduler [i] runs [o]; time passes; another client of the store leases or
    releases; the identifiers drawn are fresh. *)
Inductive world_step `{!LeaseStoreLaws T} : world → world → Prop :=
| step_sched w i sc o s' sc' :
    w_scheds w !! i = Some sc →
    (∀ uuid bcs, o = OpAcquire uuid bcs → uuids_fresh uuid (length bcs) (ls_table (w_store w))) →
    (run_sched_op (w_now w) o (w_store w, sc)).2 = (s', sc') →
    world_step w (World s' (w_now w) (<[i := sc']> (w_scheds w)))
| step_time w now' : w_now w ≤ now' → world_step w (World (w_store w) now' (w_scheds w))
| step_claim w id job drive bc ttl :
    dget (ls_table (w_store w)) id = None →
    world_step w (World
      (ls_acquire_drive_lease_at id (w_now w) job drive bc ttl (w_store w)).2
      (w_now w) (w_scheds w))
| step_free w ids :
    world_step w (World (ls_release (w_now w) ids (w_store w)) (w_now w) (w_scheds w)).

Inductive world_reachable `{!LeaseStoreLaws T} : world → Prop :=
| world_start s now scs :
    ls_table s = [] → Forall (λ sc, sd_handles sc = []) scs →
    world_reachable (World s now scs)
| world_next w w' : world_reachable w → world_step w w' → world_reachable w'.
End world.
Arguments world : clear implicits.

(** * Lemmas *)

(** Leases are never dropped, keep their drive, cartridge and token, and are not
    brought back to life. *)
Definition table_le (now : Z) (d d' : leases) : Prop :=
  ∀ id l, dget d id = Some l → ∃ l', dget d' id = Some l' ∧
    dl_drive_id l' = dl_drive_id l ∧ dl_fencing_token l' = dl_fencing_token l ∧
    dl_barcode l' = dl_barcode l ∧ (_live l' now = true → _live l now = true).

Lemma table_le_refl now d : table_le now d d.
Proof. intros id l Hl. by exists l. Qed.
Lemma table_le_trans now d1 d2 d3 : table_le now d1 d2 → table_le now d2 d3 → table_le now d1 d3.
Proof.
  intros H1 H2 id l Hl. destruct (H1 _ _ Hl) as (l' & Hl' & ? & ? & ? & ?).
  destruct (H2 _ _ Hl') as (l'' & ? & ? & ? & ? & ?).
  exists l''. split_and!; [congruence..|auto].
Qed.

(** A handle stands for the lease of the table it was made from. *)
Definition handle_ok (d : leases) (h : drive_handle) : Prop :=
  ∃ l, dget d (dh_lease_id h) = Some l ∧ dl_drive_id l = dh_drive_id h ∧
    dl_fencing_token l = dh_fencing_token h ∧ dl_barcode l = dh_barcode h.

Lemma handle_ok_le now d d' h : table_le now d d' → handle_ok d h → handle_ok d' h.
Proof.
  intros Hle (l & Hl & ? & ? & ?). destruct (Hle _ _ Hl) as (l' & ? & ? & ? & ? & ?).
  exists l'. split_and!; congruence.
Qed.

Definition same_lease (h h' : drive_handle) : Prop :=
  dh_drive_id h' = dh_drive_id h ∧ dh_barcode h' = dh_barcode h ∧
  dh_lease_id h' = dh_lease_id h ∧ dh_fencing_token h' = dh_fencing_token h.

Lemma update_handles_ok d f refs sc :
  (∀ h, same_lease h (f h)) → Forall (handle_ok d) (sd_handles sc) →
  Forall (handle_ok d) (sd_handles (update_handles f refs sc)).
Proof.
  intros Hf. unfold update_handles. simpl. generalize (sd_handles sc). clear sc.
  induction refs as [|i refs IH]; intros hs Hhs; simpl; [done|]. apply IH.
  apply Forall_alter; [done|]. intros h _ (l & Hl & ? & ? & ?).
  destruct (Hf h) as (? & ? & ? & ?). exists l. split_and!; congruence.
Qed.

Section keeps.
Context {T : Type} `{LeaseStoreLaws T}.

Lemma on_leases_le now (s s' : T) ids p f :
  (∀ id, dget (ls_table s') id = on_leases ids p f id <$> dget (ls_table s) id) →
  (∀ l, dl_drive_id (f l) = dl_drive_id l ∧ dl_fencing_token (f l) = dl_fencing_token l ∧
        dl_barcode (f l) = dl_barcode l ∧
        (p l = true → _live (f l) now = true → _live l now = true)) →
  table_le now (ls_table s) (ls_table s').
Proof.
  intros Hget Hf id l Hl. exists (on_leases ids p f id l). rewrite Hget, Hl. split; [done|].
  destruct (Hf l) as (? & ? & ? & ?). unfold on_leases.
  destruct (bool_decide _); simpl; [|done]. destruct (p l); auto.
Qed.

Lemma heartbeat_le now ids ttl (s : T) : table_wf (ls_table s) →
  table_le now (ls_table s) (ls_table (ls_heartbeat now ids ttl s)).
Proof. intros. eapply on_leases_le; [intros; by apply ls_heartbeat_spec | done]. Qed.
Lemma release_le now ids (s : T) : table_wf (ls_table s) →
  table_le now (ls_table s) (ls_table (ls_release now ids s)).
Proof. intros. eapply on_leases_le; [intros; by apply ls_release_spec | done]. Qed.
Lemma physical_le now id p (s : T) : table_wf (ls_table s) →
  table_le now (ls_table s) (ls_table (ls_set_physical_drive id p s)).
Proof. intros. eapply on_leases_le; [intros; by apply ls_physical_spec | done]. Qed.

Lemma acquire_le uuid now job bcs num ttl ex (s : T) :
  uuids_fresh uuid (length bcs) (ls_table s) →
  table_le now (ls_table s) (ls_table (ls_acquire uuid now job bcs num ttl ex s).2) ∧
  ∀ ls, (ls_acquire uuid now job bcs num ttl ex s).1 = Some ls →
    Forall (λ l, handle_ok (ls_table (ls_acquire uuid now job bcs num ttl ex s).2) (handle_of l)) ls.
Proof.
  intros Hfresh.
  destruct (ls_acquire_spec uuid now job bcs num ttl ex s) as [[-> _]|(Hlen & s' & -> & Hs')];
    [split; [apply table_le_refl | done]|].
  destruct (Hs' Hfresh) as [Htab _]. simpl. rewrite Htab.
  set (ls := granted _ _ _ _ _ _). destruct Hfresh as [Hf Hinj].
  assert (∀ l, l ∈ ls → ∃ i, (i < length bcs)%nat ∧ dl_id l = uuid i) as Hids.
  { intros l (i & p & Hp & ->)%elem_granted. exists i. split; [|done].
    apply lookup_lt_Some in Hp. rewrite length_zip in Hp. lia. }
  split.
  - intros id l Hl. exists l. split; [|done]. rewrite add_leases_keep; [done|].
    intros l' (i & Hi & Heq)%Hids Hid. rewrite <-Hid, Heq, Hf in Hl by done. done.
  - intros ? [= <-]. apply Forall_forall. intros l Hl. exists l. split; [|done]. simpl.
    apply add_leases_new; [|done]. apply granted_NoDup. simpl. intros i j p q Hi Hj.
    apply lookup_lt_Some in Hi, Hj. rewrite length_zip in Hi, Hj. apply Hinj; lia.
Qed.

(** What one operation of a scheduler may do to the store and its handles. *)
Definition keeps_leases (now : Z) {A} (m : M (T * scheduler) A) : Prop :=
  ∀ s sc, store_ok now s → Forall (handle_ok (ls_table s)) (sd_handles sc) →
    store_ok now (m (s, sc)).2.1 ∧ table_le now (ls_table s) (ls_table (m (s, sc)).2.1) ∧
    Forall (handle_ok (ls_table (m (s, sc)).2.1)) (sd_handles (m (s, sc)).2.2).

Lemma keeps_update now s s' (sc sc' : scheduler) :
  table_le now (ls_table s) (ls_table s') → store_ok now s' → sd_handles sc' = sd_handles sc →
  Forall (handle_ok (ls_table s)) (sd_handles sc) →
  store_ok now s' ∧ table_le now (ls_table s) (ls_table s') ∧
  Forall (handle_ok (ls_table s')) (sd_handles sc').
Proof.
  intros Hle Hok -> Hh. split_and!; [done..|]. eapply Forall_impl; [exact Hh|].
  intros h. by eapply handle_ok_le.
Qed.

Lemma ensure_handles sc : sd_handles (_ensure_heartbeat_thread sc) = sd_handles sc.
Proof. unfold _ensure_heartbeat_thread. by destruct (sd_heartbeat_alive sc). Qed.

Lemma acquire_keeps now uuid bcs s sc :
  store_ok now s → Forall (handle_ok (ls_table s)) (sd_handles sc) →
  uuids_fresh uuid (length bcs) (ls_table s) →
  let r := run_sched_op now (OpAcquire uuid bcs) (s, sc) in
  store_ok now r.2.1 ∧ table_le now (ls_table s) (ls_table r.2.1) ∧
  Forall (handle_ok (ls_table r.2.1)) (sd_handles r.2.2).
Proof.
  intros Hok Hh Hfresh. simpl. unfold mbind, M_bind, acquire_attempt.
  case_bool_decide; [by split_and!; [|apply table_le_refl|]|].
  case_bool_decide; [by split_and!; [|apply table_le_refl|]|].
  set (ex := filter _ (dkeys _)).
  destruct (acquire_le uuid now (sd_job_id sc) bcs (sd_num_drives sc) (sd_ttl sc) ex s Hfresh)
    as [Hle Hnew].
  pose proof (acquire_ok uuid now (sd_job_id sc) bcs (sd_num_drives sc) (sd_ttl sc) ex s Hok Hfresh)
    as Hok'.
  destruct (ls_acquire uuid now (sd_job_id sc) bcs (sd_num_drives sc) (sd_ttl sc) ex s)
    as [[ls|] s'] eqn:Hacq; simpl in *; [|by eapply keeps_update].
  split_and!; [done..|]. rewrite ensure_handles. simpl. apply Forall_app. split.
  - eapply Forall_impl; [exact Hh|]. intros h. by eapply handle_ok_le.
  - apply Forall_fmap. by apply Hnew.
Qed.

Lemma sched_op_keeps now o s sc :
  store_ok now s → Forall (handle_ok (ls_table s)) (sd_handles sc) →
  (∀ uuid bcs, o = OpAcquire uuid bcs → uuids_fresh uuid (length bcs) (ls_table s)) →
  let r := run_sched_op now o (s, sc) in
  store_ok now r.2.1 ∧ table_le now (ls_table s) (ls_table r.2.1) ∧
  Forall (handle_ok (ls_table r.2.1)) (sd_handles r.2.2).
Proof.
  intros Hok Hh Hfresh. pose proof (so_wf _ _ Hok) as Hwf.
  destruct o as [uuid bcs|refs|refs| |refs|ref d|ref].
  - apply acquire_keeps; auto.
  - simpl. split_and!; [by apply release_ok | by apply release_le|].
    assert (Forall (handle_ok (ls_table (ls_release now
      (dh_lease_id <$> deref (filter (λ i, has (λ h, negb (dh_released h) &&
         negb (dh_hold_unjournaled h)) sc i) refs) sc) s))) (sd_handles sc)) as Hh'.
    { eapply Forall_impl; [exact Hh|]. intros h. eapply handle_ok_le. by apply (release_le now). }
    case_bool_decide; simpl; by apply (update_handles_ok _ mark_released).
  - simpl. eapply keeps_update; [by apply heartbeat_le | by apply heartbeat_ok | done..].
  - simpl. unfold heartbeat_thread_step.
    destruct (negb _); [by split_and!; [|apply table_le_refl|]|].
    destruct (sd_stop_heartbeat sc); [by split_and!; [|apply table_le_refl|]|].
    case_bool_decide; [by split_and!; [|apply table_le_refl|]|].
    simpl. eapply keeps_update; [by apply heartbeat_le | by apply heartbeat_ok | done..].
  - simpl. generalize (deref refs sc). intros hs. revert s Hok Hh Hfresh Hwf.
    induction hs as [|h hs IH]; intros s Hok Hh Hfresh Hwf; simpl.
    { by split_and!; [|apply table_le_refl|]. }
    destruct (dh_physical_drive_id h) as [d|]; [|by apply IH].
    destruct (IH (ls_set_physical_drive (dh_lease_id h) d s)) as (H1 & H2 & H3).
    + by apply physical_ok.
    + eapply Forall_impl; [exact Hh|]. intros h'. eapply handle_ok_le. by apply (physical_le now).
    + done.
    + by apply (physical_ok now).
    + split_and!; [done| |done]. eapply table_le_trans; [by apply physical_le | done].
  - simpl. split_and!; [done | apply table_le_refl|]. by apply (update_handles_ok _ (set_physical d) [ref]).
  - simpl. split_and!; [done | apply table_le_refl|]. by apply (update_handles_ok _ mark_hold [ref]).
Qed.

(** ** The world *)
Definition world_ok (w : world T) : Prop :=
  store_ok (w_now w) (w_store w) ∧
  ∀ i sc, w_scheds w !! i = Some sc → Forall (handle_ok (ls_table (w_store w))) (sd_handles sc).

Lemma world_ok_store now w s' now' :
  world_ok w → store_ok now' s' → table_le now (ls_table (w_store w)) (ls_table s') →
  world_ok (World s' now' (w_scheds w)).
Proof.
  intros [_ Hh] Hok Hle. split; [done|]. intros i sc Hi. eapply Forall_impl; [by eapply Hh|].
  intros h. by eapply handle_ok_le.
Qed.

Lemma world_step_ok w w' : world_ok w → world_step w w' → world_ok w'.
Proof.
  intros [Hok Hh] Hstep. destruct Hstep as [w i sc o s' sc' Hi Hfresh Hrun|w now' Hle
    |w id job drive bc ttl Hid|w ids].
  - destruct (sched_op_keeps (w_now w) o (w_store w) sc Hok (Hh _ _ Hi) Hfresh) as (H1 & H2 & H3).
    rewrite Hrun in H1, H2, H3. split; [done|]. simpl. intros j scj Hj.
    destruct (decide (i = j)) as [<-|Hne].
    + rewrite list_lookup_insert_eq in Hj by by eapply lookup_lt_Some. by simplify_eq.
    + rewrite list_lookup_insert_ne in Hj by done. eapply Forall_impl; [by eapply Hh|].
      intros h. by eapply handle_ok_le.
  - apply (world_ok_store now'); [by split | by eapply store_ok_later | apply table_le_refl].
  - apply (world_ok_store (w_now w)); [by split | by apply acquire_at_ok |].
    destruct (ls_acquire_at_spec id (w_now w) job drive bc ttl (w_store w))
      as [[_ ->]|(_ & s' & -> & Hs')]; [apply table_le_refl|]. simpl.
    destruct (Hs' Hid) as [-> _]. intros id' l Hl. exists l. split; [|done].
    rewrite dget_dset_ne; [done|]. congruence.
  - apply (world_ok_store (w_now w)); [by split | by apply release_ok | apply release_le, Hok].
Qed.

Lemma world_reachable_ok w : world_reachable w → world_ok w.
Proof.
  induction 1 as [s now scs Htab Hscs|w w' _ IH Hstep]; [|by eapply world_step_ok].
  split; simpl.
  - split; [split_and! | |]; rewrite Htab; try done. constructor.
  - intros i sc Hi. rewrite Forall_forall in Hscs.
    rewrite (Hscs sc) by by eapply list_elem_of_lookup_2. done.
Qed.
End keeps.

(** ** Time and handles only move forward *)
Definition handles_le (hs hs' : list drive_handle) : Prop :=
  ∀ k h, hs !! k = Some h → ∃ h', hs' !! k = Some h' ∧ same_lease h h' ∧
    (dh_released h = true → dh_released h' = true).

Lemma handles_le_refl hs : handles_le hs hs.
Proof. intros k h Hk. by exists h. Qed.
Lemma handles_le_trans hs1 hs2 hs3 : handles_le hs1 hs2 → handles_le hs2 hs3 → handles_le hs1 hs3.
Proof.
  intros H1 H2 k h Hk. destruct (H1 _ _ Hk) as (h' & Hk' & (? & ? & ? & ?) & ?).
  destruct (H2 _ _ Hk') as (h'' & Hk'' & (? & ? & ? & ?) & ?). exists h''.
  split_and!; [done|split_and!; congruence|auto].
Qed.

Lemma update_handles_le f refs sc :
  (∀ h, same_lease h (f h) ∧ (dh_released h = true → dh_released (f h) = true)) →
  handles_le (sd_handles sc) (sd_handles (update_handles f refs sc)).
Proof.
  intros Hf. unfold update_handles. simpl. generalize (sd_handles sc). clear sc.
  induction refs as [|i refs IH]; intros hs; simpl; [apply handles_le_refl|].
  eapply handles_le_trans; [|apply IH]. intros k h Hk.
  destruct (decide (i = k)) as [->|Hne].
  - exists (f h). rewrite list_lookup_alter, decide_True, Hk by done. split; [done | apply Hf].
  - exists h. rewrite list_lookup_alter, decide_False by done. done.
Qed.

(** References to handles just appended. *)
Lemma lookup_new {A} (old new : list A) :
  omap (λ i, (old ++ new)%list !! i) (seq (length old) (length new)) = new.
Proof.
  revert old. induction new as [|x new IH]; intros old; [done|]. simpl.
  rewrite list_lookup_middle by done. f_equal.
  specialize (IH (old ++ [x])%list). rewrite length_app, Nat.add_1_r in IH.
  by rewrite <-(assoc_L (++)) in IH.
Qed.

Section forward.
Context {T : Type} `{LeaseStoreLaws T}.

Lemma sched_op_handles now o (st : T * scheduler) :
  handles_le (sd_handles st.2) (sd_handles (run_sched_op now o st).2.2).
Proof.
  destruct st as [s sc]. destruct o as [uuid bcs|refs|refs| |refs|ref d|ref]; simpl.
  - unfold mbind, M_bind, acquire_attempt. repeat case_bool_decide; try apply handles_le_refl.
    destruct (ls_acquire _ _ _ _ _ _ _ _) as [[ls|] s']; [|apply handles_le_refl]. simpl.
    rewrite ensure_handles. simpl. intros k h Hk. exists h. split; [|done].
    by apply lookup_app_l_Some.
  - case_bool_decide; simpl; by apply (update_handles_le mark_released).
  - apply handles_le_refl.
  - unfold heartbeat_thread_step. destruct (negb _); [apply handles_le_refl|].
    destruct (sd_stop_heartbeat sc); [apply handles_le_refl|].
    case_bool_decide; apply handles_le_refl.
  - apply handles_le_refl.
  - by apply (update_handles_le (set_physical d) [ref]).
  - by apply (update_handles_le mark_hold [ref]).
Qed.

(** What a step of the world never undoes. *)
Definition world_le (w w' : world T) : Prop :=
  table_le (w_now w') (ls_table (w_store w)) (ls_table (w_store w')) ∧
  w_now w ≤ w_now w' ∧
  ∀ i sc, w_scheds w !! i = Some sc → ∃ sc', w_scheds w' !! i = Some sc' ∧
    handles_le (sd_handles sc) (sd_handles sc').

Lemma world_step_le w w' : world_ok w → world_step w w' → world_le w w'.
Proof.
  intros [Hok Hh] Hstep. destruct Hstep as [w i sc o s' sc' Hi Hfresh Hrun|w now' Hle
    |w id job drive bc ttl Hid|w ids]; (split; [|split]); simpl; try lia;
    try (intros ? ? ->; eexists; split; [reflexivity | apply handles_le_refl]).
  - destruct (sched_op_keeps (w_now w) o (w_store w) sc Hok (Hh _ _ Hi) Hfresh) as (_ & H2 & _).
    by rewrite Hrun in H2.
  - intros j scj Hj. destruct (decide (i = j)) as [<-|Hne].
    + exists sc'. rewrite list_lookup_insert_eq by by eapply lookup_lt_Some. split; [done|].
      pose proof (sched_op_handles (w_now w) o (w_store w, sc)) as Hle. rewrite Hrun in Hle.
      simplify_eq. done.
    + exists scj. rewrite list_lookup_insert_ne by done. split; [done | apply handles_le_refl].
  - apply table_le_refl.
  - destruct (ls_acquire_at_spec id (w_now w) job drive bc ttl (w_store w))
      as [[_ ->]|(_ & s' & -> & Hs')]; [apply table_le_refl|]. simpl.
    destruct (Hs' Hid) as [-> _]. intros id' l Hl. exists l. split; [|done].
    rewrite dget_dset_ne; [done|]. congruence.
  - apply release_le, Hok.
Qed.

Lemma verify_ok now h (s : T) : verify now h s = Ok tt ↔
  dh_released h = false ∧ ls_is_live now (dh_lease_id h) (dh_fencing_token h) s = true.
Proof.
  unfold verify. destruct (dh_released h), (ls_is_live _ _ _ _); simpl; naive_solver.
Qed.
Lemma verify_raise now h (s : T) e : verify now h s = Raise e ↔
  e = StaleLeaseError ∧
  (dh_released h = true ∨ ls_is_live now (dh_lease_id h) (dh_fencing_token h) s = false).
Proof.
  unfold verify. destruct (dh_released h), (ls_is_live _ _ _ _); simpl; naive_solver.
Qed.

(** A fenced handle stays fenced across one step. *)
Lemma stale_step w w' h h' : world_le w w' → handle_ok (ls_table (w_store w)) h →
  same_lease h h' → (dh_released h = true → dh_released h' = true) →
  verify (w_now w) h (w_store w) = Raise StaleLeaseError →
  verify (w_now w') h' (w_store w') = Raise StaleLeaseError.
Proof.
  intros (Htab & Hnow & _) (l & Hl & _ & Htok & _) (_ & _ & Hid & Ht) Hrel.
  rewrite !verify_raise. intros [_ [?|Hdead]]; (split; [done|]); [by left; auto | right].
  rewrite Hid, Ht. apply not_true_iff_false. intros (l' & Hl' & _ & Hlive)%is_live_true.
  apply not_true_iff_false in Hdead. apply Hdead, is_live_true. exists l.
  destruct (Htab _ _ Hl) as (l'' & ? & _ & _ & _ & Hback). simplify_eq.
  split_and!; [done..|]. by eapply live_later; [|apply Hback].
Qed.
End forward.

(** ** Acquiring *)
Section acquire.
Context {T : Type} `{LeaseStoreLaws T}.

(** The store after the rounds others had. *)
Definition waited (rounds : list round) (s : T) : T := foldl (λ s r, r_others r s) s rounds.

(** What a granted request looks like, from the store it was granted in. *)
Definition acquired (now : Z) (bcs : list string) (s0 s' : T) (sc sc' : scheduler)
    (refs : list nat) : Prop :=
  (∀ b, b ∈ bcs → b ∉ ls_unreconciled_barcodes s0) ∧
  sd_held sc' = (sd_held sc ++ refs)%list ∧ sd_heartbeat_alive sc' = true ∧
  dh_barcode <$> deref refs sc' = bcs ∧
  NoDup (dh_drive_id <$> deref refs sc') ∧
  ∀ h, h ∈ deref refs sc' →
    0 ≤ dh_drive_id h < sd_num_drives sc ∧
    dh_drive_id h ∉ dkeys (ls_unreconciled_drives s0) ∧
    dh_drive_id h ∉ busy_drives now (ls_table s0) ∧
    (0 < sd_ttl sc → verify now h s' = Ok tt).

Lemma register_spec leases (s : T) sc :
  ∃ refs sc', register leases (s, sc) = (Ok refs, (s, sc')) ∧
    sd_held sc' = (sd_held sc ++ refs)%list ∧ sd_heartbeat_alive sc' = true ∧
    deref refs sc' = handle_of <$> leases.
Proof.
  eexists _, _. split; [reflexivity|]. unfold _ensure_heartbeat_thread, deref. simpl.
  rewrite <-(length_fmap handle_of leases).
  split_and!; [by case_match | by case_match|]. case_match; simpl; apply lookup_new.
Qed.

Lemma granted_fields uuid now ttl job token free bcs :
  (length bcs ≤ length free)%nat →
  dl_barcode <$> granted uuid now ttl job token (zip free bcs) = bcs ∧
  dl_drive_id <$> granted uuid now ttl job token (zip free bcs) = take (length bcs) free.
Proof.
  revert uuid token free. induction bcs as [|b bcs IH]; intros uuid token [|d free] Hlen;
    simpl in Hlen; try lia; try done.
  cbn [zip zip_with]. rewrite granted_cons. csimpl.
  destruct (IH (uuid ∘ S) (token + 1) free) as [-> ->]; [lia | done].
Qed.

Lemma acquire_attempt_spec uuid now bcs (s : T) sc :
  uuids_fresh uuid (length bcs) (ls_table s) →
  acquire_attempt uuid now bcs (s, sc) = (Raise DriveUnreconciledError, (s, sc)) ∨
  acquire_attempt uuid now bcs (s, sc) = (Ok None, (s, sc)) ∨
  ∃ leases s', acquire_attempt uuid now bcs (s, sc) = (Ok (Some leases), (s', sc)) ∧
    ∀ refs sc', sd_held sc' = (sd_held sc ++ refs)%list → sd_heartbeat_alive sc' = true →
      deref refs sc' = handle_of <$> leases → acquired now bcs s s' sc sc' refs.
Proof.
  intros Hfresh. unfold acquire_attempt. case_bool_decide as Hpend; [by left|].
  case_bool_decide; [by left|]. set (ex := filter _ (dkeys _)).
  destruct (ls_acquire_spec uuid now (sd_job_id sc) bcs (sd_num_drives sc) (sd_ttl sc) ex s)
    as [[-> _]|(Hlen & s' & -> & Hs')]; [by right; left|]. right; right.
  destruct (Hs' Hfresh) as [Htab _]. eexists _, s'. split; [reflexivity|].
  intros refs sc' Hheld Halive Href. unfold acquired. rewrite Href.
  destruct (granted_fields uuid now (sd_ttl sc) (sd_job_id sc) (ls_last_token s) _ _ Hlen)
    as [Hbcs Hdrives].
  split_and!; [|done..| | |].
  - intros b Hb Hu. apply (not_elem_of_nil b). rewrite <-Hpend.
    by apply list_elem_of_filter.
  - by rewrite <-list_fmap_compose.
  - rewrite <-list_fmap_compose. change (dh_drive_id ∘ handle_of) with dl_drive_id.
    rewrite Hdrives. eapply sublist_NoDup; [apply free_drives_NoDup | apply sublist_take].
  - intros h (l & -> & Hl)%list_elem_of_fmap. simpl.
    assert (dl_drive_id l ∈ free_drives now (sd_num_drives sc) ex (ls_table s)) as Hfree.
    { eapply subseteq_take. rewrite <-Hdrives.
      by apply list_elem_of_fmap_2. }
    apply free_drives_elem in Hfree as (Hbusy & Hex & Hrange). split_and!; [lia|lia| |done|].
    + intros Hu. apply Hex, list_elem_of_filter. by split.
    + intros Httl. apply verify_ok. split; [done|]. apply is_live_true. simpl. exists l.
      rewrite Htab. split_and!; [|done|].
      * apply add_leases_new; [|done]. apply granted_NoDup. intros i j p q Hi Hj.
        apply lookup_lt_Some in Hi, Hj. rewrite length_zip in Hi, Hj.
        destruct Hfresh as [_ Hinj]. apply Hinj; lia.
      * apply elem_granted in Hl as (i & p & _ & ->). unfold _live. simpl.
        apply bool_decide_eq_true. lia.
Qed.
End acquire.

(** ** Failing closed *)
Lemma update_handles_lookup f refs sc i :
  (∀ h, f (f h) = f h) →
  sd_handles (update_handles f refs sc) !! i =
  (if bool_decide (i ∈ refs) then f else id) <$> (sd_handles sc !! i).
Proof.
  intros Hf. unfold update_handles. simpl. generalize (sd_handles sc). clear sc.
  induction refs as [|j refs IH]; intros hs; simpl.
  { by destruct (hs !! i). }
  rewrite IH, list_lookup_alter. destruct (decide (j = i)) as [->|Hne].
  - rewrite (bool_decide_true (i ∈ i :: refs)) by by left.
    destruct (hs !! i); [|done]. simpl. f_equal. by case_bool_decide; rewrite ?Hf.
  - f_equal. rewrite (bool_decide_ext (i ∈ j :: refs) (i ∈ refs)); [done|].
    rewrite elem_of_cons. naive_solver.
Qed.

Lemma has_filter p (refs : list nat) sc i : i ∈ filter (λ i, has p sc i) refs ↔
  i ∈ refs ∧ ∃ h, sd_handles sc !! i = Some h ∧ p h = true.
Proof.
  rewrite list_elem_of_filter. unfold has. destruct (sd_handles sc !! i); simpl; [|naive_solver].
  rewrite Is_true_true. naive_solver.
Qed.

Definition lease_ids_distinct (sc : scheduler) : Prop :=
  ∀ i j hi hj, sd_handles sc !! i = Some hi → sd_handles sc !! j = Some hj →
    dh_lease_id hi = dh_lease_id hj → i = j.

(** A held, unreleased handle keeps its lease through [release_drives]. *)
Lemma release_keeps_held {T : Type} `{LeaseStoreLaws T} now refs (s : T) sc i h :
  table_wf (ls_table s) → lease_ids_distinct sc → i ∈ refs → sd_handles sc !! i = Some h →
  dh_hold_unjournaled h = true → dh_released h = false →
  let r := release_drives now refs (s, sc) in
  r.1 = Raise JournalWriteError ∧
  dget (ls_table r.2.1) (dh_lease_id h) = dget (ls_table s) (dh_lease_id h).
Proof.
  intros Hwf Hids Hi Hh Hhold Hrel. unfold release_drives.
  set (pending := filter (λ i, has _ sc i) refs).
  assert (i ∉ pending) as Hpend.
  { intros (_ & h' & ? & Hp)%has_filter. simplify_eq. by rewrite Hrel, Hhold in Hp. }
  set (sc1 := update_handles mark_released pending sc). simpl. split.
  - rewrite bool_decide_true; [done|]. intros Hnil. apply (not_elem_of_nil i). rewrite <-Hnil.
    apply has_filter. split; [done|]. exists h. rewrite Hhold, Hrel. split; [|done].
    assert (sd_handles sc1 !! i = Some h) as Hsc1.
    { unfold sc1. rewrite update_handles_lookup by done. rewrite bool_decide_false by done.
      by rewrite Hh. }
    case_bool_decide; exact Hsc1.
  - rewrite ls_release_spec by done. unfold on_leases. rewrite bool_decide_false.
    { by destruct (dget _ _). }
    intros (h' & Hid & (j & Hj & Hlook)%list_elem_of_omap)%list_elem_of_fmap.
    assert (i = j) as <- by by eapply Hids. done.
Qed.

(** ** Examples *)
Definition sample_uuid (i : nat) : string := nth i ["a"; "ax"] "".
Definition sample_sched : scheduler := new_scheduler 2 "job" 10.
Definition sample_world : world mem_store := World new_mem_store 0 [sample_sched; sample_sched].
Definition run_on (i : nat) (o : sched_op) (w : world mem_store) : world mem_store :=
  match w_scheds w !! i with
  | Some sc => let '(s', sc') := (run_sched_op (w_now w) o (w_store w, sc)).2 in
               World s' (w_now w) (<[i := sc']> (w_scheds w))
  | None => w
  end.
Definition sample_world1 : world mem_store :=
  run_on 0 (OpAcquire sample_uuid ["TAPE01L8"; "TAPE02L8"]) sample_world.
Definition sample_world2 : world mem_store := World (w_store sample_world1) 60 (w_scheds sample_world1).

Lemma run_on_step i o w : is_Some (w_scheds w !! i) →
  (∀ uuid bcs, o = OpAcquire uuid bcs → uuids_fresh uuid (length bcs) (ls_table (w_store w))) →
  world_step w (run_on i o w).
Proof.
  intros [sc Hsc] Hf. unfold run_on. rewrite Hsc.
  destruct (run_sched_op (w_now w) o (w_store w, sc)).2 as [s' sc'] eqn:Hrun.
  by eapply step_sched.
Qed.

Lemma sample_world_step : world_step sample_world sample_world1.
Proof.
  apply run_on_step; [by eexists|]. intros uuid bcs [= <- <-]. split; [done|].
  intros [|[|i]] [|[|j]] Hi Hj; simpl in *; try done; lia.
Qed.
Lemma sample_world1_reachable : world_reachable sample_world1.
Proof.
  apply world_next with sample_world; [|apply sample_world_step].
  apply world_start; [done|]. repeat constructor.
Qed.

(** * Properties *)

(** C20: A drive is one job's at a time: in every reachable world, for schedulers
    of any processes over one store, two handles that both pass [verify] for the
    same drive are handles of the same lease. *)
Theorem verified_handles_exclusive {T : Type} `{LeaseStoreLaws T} (w : world T)
    (i j : nat) (si sj : scheduler) (hi hj : drive_handle)
    (Hw : world_reachable w)
    (Hi : w_scheds w !! i = Some si ∧ hi ∈ sd_handles si)
    (Hj : w_scheds w !! j = Some sj ∧ hj ∈ sd_handles sj)
    (Hvi : verify (w_now w) hi (w_store w) = Ok tt)
    (Hvj : verify (w_now w) hj (w_store w) = Ok tt)
    (Hdrive : dh_drive_id hi = dh_drive_id hj) :
  dh_lease_id hi = dh_lease_id hj ∧ dh_fencing_token hi = dh_fencing_token hj ∧
  dh_barcode hi = dh_barcode hj.
Proof.
  destruct (world_reachable_ok w Hw) as [Hok Hh].
  destruct Hi as [Hsi Hi], Hj as [Hsj Hj].
  apply Hh in Hsi, Hsj. rewrite Forall_forall in Hsi, Hsj.
  destruct (Hsi _ Hi) as (li & Hli & Hdi & Hti & Hbi), (Hsj _ Hj) as (lj & Hlj & Hdj & Htj & Hbj).
  apply verify_ok in Hvi as [_ (li' & ? & _ & Hlivei)%is_live_true].
  apply verify_ok in Hvj as [_ (lj' & ? & _ & Hlivej)%is_live_true]. simplify_eq.
  assert (dh_lease_id hi = dh_lease_id hj) as Heq by (eapply so_excl; [done..|congruence]).
  assert (li' = lj') as -> by congruence. split_and!; congruence.
Qed.

Lemma verified_handles_exclusive_witness :
  ∃ sc h, w_scheds sample_world1 !! 0%nat = Some sc ∧ sd_handles sc !! 1%nat = Some h ∧
    dh_drive_id h = 1 ∧ verify (w_now sample_world1) h (w_store sample_world1) = Ok tt ∧
    dh_lease_id h = "ax".
Proof.
  destruct (w_scheds sample_world1 !! 0%nat) as [sc|] eqn:Hsc; [|vm_compute in Hsc; discriminate].
  destruct (sd_handles sc !! 1%nat) as [h|] eqn:Hh.
  2: { vm_compute in Hsc. injection Hsc as <-. vm_compute in Hh. discriminate. }
  set (h1 := DriveHandle 1 "TAPE02L8" None "ax" 2 false false).
  assert (h = h1) as Hh1.
  { vm_compute in Hsc. injection Hsc as <-. vm_compute in Hh. by injection Hh as <-. }
  exists sc, h. split; [reflexivity|]. split; [exact Hh|].
  assert (dh_drive_id h = 1 ∧ verify (w_now sample_world1) h (w_store sample_world1) = Ok tt)
    as [Hd Hv] by (rewrite Hh1; split; vm_compute; reflexivity).
  split; [exact Hd|]. split; [exact Hv|].
  apply (verified_handles_exclusive sample_world1 0 0 sc sc h h1 sample_world1_reachable).
  - split; [exact Hsc | exact (list_elem_of_lookup_2 _ 1 _ Hh)].
  - split; [exact Hsc | rewrite <-Hh1; exact (list_elem_of_lookup_2 _ 1 _ Hh)].
  - exact Hv.
  - vm_compute. reflexivity.
  - rewrite Hh1. reflexivity.
Defined.

(** Fencing is final: once [verify] rejects a handle, it rejects it in every
    later state of the world, whatever the schedulers, the other clients of the
    store and the clock do. *)
Theorem fenced_forever {T : Type} `{LeaseStoreLaws T} (w w' : world T)
    (i k : nat) (sc : scheduler) (h : drive_handle) (e : exn)
    (Hw : world_reachable w) (Hsteps : rtc world_step w w')
    (Hsc : w_scheds w !! i = Some sc) (Hk : sd_handles sc !! k = Some h)
    (He : verify (w_now w) h (w_store w) = Raise e) :
  ∃ sc' h', w_scheds w' !! i = Some sc' ∧ sd_handles sc' !! k = Some h' ∧
    dh_lease_id h' = dh_lease_id h ∧
    verify (w_now w') h' (w_store w') = Raise StaleLeaseError.
Proof.
  apply verify_raise in He as Hcase. destruct Hcase as [-> _].
  apply world_reachable_ok in Hw. revert sc h Hw Hsc Hk He.
  induction Hsteps as [w|w w1 w' Hstep _ IH]; intros sc h Hw Hsc Hk He; [by exists sc, h|].
  pose proof (world_step_le _ _ Hw Hstep) as Hle. pose proof Hle as (_ & _ & Hscheds).
  destruct (Hscheds _ _ Hsc) as (sc1 & Hsc1 & Hhs).
  destruct (Hhs _ _ Hk) as (h1 & Hk1 & Hsame & Hrel).
  destruct (IH sc1 h1) as (sc' & h' & ? & ? & Hid & ?); [by eapply world_step_ok|done|done| |].
  - eapply stale_step; [done| |done..]. destruct Hw as [_ Hh].
    eapply Forall_lookup_1; [by eapply Hh | done].
  - exists sc', h'. destruct Hsame as (_ & _ & ? & _). split_and!; congruence.
Qed.

Lemma fenced_forever_witness :
  ∃ sc h, w_scheds sample_world2 !! 0%nat = Some sc ∧ sd_handles sc !! 0%nat = Some h ∧
    verify 60 h (w_store sample_world2) = Raise StaleLeaseError ∧
    ∃ sc' h', w_scheds (run_on 0 (OpHeartbeat [0%nat]) sample_world2) !! 0%nat = Some sc' ∧
      sd_handles sc' !! 0%nat = Some h' ∧ dh_lease_id h' = dh_lease_id h ∧
      verify 60 h' (w_store (run_on 0 (OpHeartbeat [0%nat]) sample_world2))
        = Raise StaleLeaseError.
Proof.
  destruct (w_scheds sample_world2 !! 0%nat) as [sc|] eqn:Hsc; [|vm_compute in Hsc; discriminate].
  destruct (sd_handles sc !! 0%nat) as [h|] eqn:Hh.
  2: { vm_compute in Hsc. injection Hsc as <-. vm_compute in Hh. discriminate. }
  exists sc, h. split; [reflexivity|]. split; [exact Hh|].
  assert (verify 60 h (w_store sample_world2) = Raise StaleLeaseError) as Hv.
  { vm_compute in Hsc. injection Hsc as <-. vm_compute in Hh. injection Hh as <-.
    vm_compute. reflexivity. }
  split; [exact Hv|].
  apply (fenced_forever sample_world2 (run_on 0 (OpHeartbeat [0%nat]) sample_world2) 0 0 sc h
           StaleLeaseError).
  - apply world_next with sample_world1; [exact sample_world1_reachable|].
    apply step_time. vm_compute. discriminate.
  - apply rtc_once, run_on_step; [by eexists|]. intros ? ? [=].
  - exact Hsc.
  - exact Hh.
  - exact Hv.
Defined.

(** The keep-alive thread can be lost while drives are held: when a release
    empties the scheduler and an acquisition follows before the stopped thread
    has exited, the acquisition starts no thread, the old one exits, and from
    then on no wake-up ever extends the leases. *)
Theorem heartbeat_lost {T : Type} `{LeaseStore T} (leases : list drive_lease) (s : T)
    (sc : scheduler) (now : Z)
    (Hstopping : sd_stop_heartbeat sc = true ∧ sd_heartbeat_alive sc = true)
    (Hleases : leases ≠ []) :
  let '(r, st1) := register leases (s, sc) in
  let '(_, (s2, sc2)) := heartbeat_thread_step now st1 in
  ∃ refs, r = Ok refs ∧ sd_held sc2 = (sd_held sc ++ refs)%list ∧ refs ≠ [] ∧
    deref refs sc2 = handle_of <$> leases ∧ s2 = s ∧
    ∀ t s', heartbeat_thread_step t (s', sc2) = (Ok tt, (s', sc2)).
Proof.
  destruct Hstopping as [Hstop Halive]. unfold register, _ensure_heartbeat_thread. simpl.
  rewrite Halive. unfold heartbeat_thread_step. simpl. rewrite Halive, Hstop. simpl.
  eexists. split_and!; try done.
  - by destruct leases.
  - unfold deref. simpl. rewrite <-(length_fmap handle_of leases). apply lookup_new.
Qed.

(** Two drives held, released before the thread wakes, and held again. *)
Lemma heartbeat_lost_witness :
  let w := run_on 0 (OpRelease [0%nat; 1%nat]) sample_world1 in
  ∃ sc, w_scheds w !! 0%nat = Some sc ∧
    let '(r, st1) := register [fresh_lease 1 10 "job" "b" 0 "TAPE01L8" 3] (w_store w, sc) in
    (heartbeat_thread_step 1 st1).2.2 = (heartbeat_thread_step 5 (heartbeat_thread_step 1 st1).2).2.2 ∧
    sd_held (heartbeat_thread_step 1 st1).2.2 = [2%nat].
Proof.
  intros w. destruct (w_scheds w !! 0%nat) as [sc|] eqn:Hsc; [|vm_compute in Hsc; discriminate].
  exists sc. split; [reflexivity|]. vm_compute in Hsc. injection Hsc as <-.
  pose proof (heartbeat_lost [fresh_lease 1 10 "job" "b" 0 "TAPE01L8" 3] (w_store w)
    (DriveScheduler 2 "job" 10
       [DriveHandle 0 "TAPE01L8" None "a" 1 true false;
        DriveHandle 1 "TAPE02L8" None "ax" 2 true false] [] true true) 1) as Hlost.
  match type of Hlost with _ → _ → let '(_, _) := ?m in _ =>
    destruct m as [r [s1 sc1]] eqn:Hreg end.
  destruct (heartbeat_thread_step 1 (s1, sc1)) as [r2 [s2 sc2]] eqn:Hstep.
  destruct Hlost as (refs & _ & Hheld & _ & _ & _ & Hdead); [by split | discriminate |].
  cbn [fst snd]. rewrite Hdead. split; [reflexivity|].
  vm_compute in Hreg. injection Hreg as <- <- <-. vm_compute in Hstep. injection Hstep as <- <- <-.
  reflexivity.
Defined.

(** C25: [acquire_drives] gives one drive per barcode, in the order of the
    barcodes: distinct drives of the library, none leased and none awaiting
    reconciliation when it was granted, no cartridge awaiting reconciliation, all
    held, kept alive and passing [verify].  It gives up with a typed error and no
    handle, and it is still waiting only as long as no round has passed the
    deadline. *)
Theorem acquire_drives_spec {T : Type} `{LeaseStoreLaws T} (start timeout : Z)
    (rounds : list round) (bcs : list string) (s : T) (sc : scheduler)
    (Hfresh : ∀ before r rest, rounds = (before ++ r :: rest)%list →
       uuids_fresh (r_uuid r) (length bcs) (ls_table (waited before s))) :
  match acquire_drives start timeout rounds bcs (s, sc) with
  | (Ok (Some refs), (s', sc')) =>
      ∃ before r rest, rounds = (before ++ r :: rest)%list ∧
        acquired (r_now r) bcs (waited before s) s' sc sc' refs
  | (Ok None, (s', sc')) =>
      sc' = sc ∧ s' = waited rounds s ∧ Forall (λ r, r_monotonic r < start + timeout) rounds
  | (Raise e, (s', sc')) =>
      sc' = sc ∧ (∃ n, s' = waited (take n rounds) s) ∧
      (e = DriveBusyError ∨ e = DriveUnreconciledError ∨ e = ValueError ∧ ¬ NoDup bcs)
  end.
Proof.
  unfold acquire_drives. monad_unfold. simpl.
  destruct (bool_decide (sd_num_drives sc < _)); [by split_and!; [|exists 0%nat|left]|].
  destruct (bool_decide (¬ NoDup bcs)) eqn:Hnd.
  { apply bool_decide_eq_true in Hnd. split_and!; [done|by exists 0%nat|naive_solver]. }
  clear Hnd. revert s Hfresh. induction rounds as [|r rounds IH]; intros s Hfresh; simpl.
  { by split_and!. }
  unfold mbind, M_bind.
  destruct (acquire_attempt_spec (r_uuid r) (r_now r) bcs s sc (Hfresh [] r rounds eq_refl))
    as [->|[->|(leases & s' & -> & Hacq)]].
  - split_and!; [done|by exists 0%nat|naive_solver].
  - case_bool_decide; [by split_and!; [|exists 0%nat|left]|]. simpl.
    specialize (IH (r_others r s)).
    destruct (acquire_loop _ rounds bcs _) as [[[refs|]|e] [s' sc']].
    + destruct IH as (before & r' & rest & -> & Hacq).
      { intros before r' rest ->. apply (Hfresh (r :: before) r' rest). done. }
      by exists (r :: before), r', rest.
    + destruct IH as (-> & -> & ?).
      { intros before r' rest ->. apply (Hfresh (r :: before) r' rest). done. }
      split_and!; [done|done|]. constructor; [lia | done].
    + destruct IH as (-> & [n ->] & ?).
      { intros before r' rest ->. apply (Hfresh (r :: before) r' rest). done. }
      split_and!; [done|by exists (S n)|done].
  - destruct (register_spec leases s' sc) as (refs & sc' & Hreg & ? & ? & ?).
    unfold fmap, M_fmap, mbind, M_bind. rewrite Hreg. exists [], r, rounds.
    split; [done|]. by apply Hacq.
Qed.

Definition sample_round : round (T := mem_store) := Round sample_uuid 0 0 id.

Lemma acquire_drives_spec_witness :
  ∃ refs s' sc', acquire_drives 0 300 [sample_round] ["TAPE01L8"; "TAPE02L8"]
      (new_mem_store, sample_sched) = (Ok (Some refs), (s', sc')) ∧
    dh_barcode <$> deref refs sc' = ["TAPE01L8"; "TAPE02L8"].
Proof.
  pose proof (acquire_drives_spec 0 300 [sample_round] ["TAPE01L8"; "TAPE02L8"] new_mem_store
    sample_sched) as Hspec.
  destruct (acquire_drives 0 300 [sample_round] _ _) as [[[refs|]|e] [s' sc']] eqn:Hrun;
    [|vm_compute in Hrun; discriminate..].
  exists refs, s', sc'. split; [reflexivity|].
  destruct Hspec as (before & r & rest & _ & _ & _ & _ & Hbcs & _); [|exact Hbcs].
  intros before r rest Heq.
  destruct before as [|? [|]]; simpl in Heq; [|discriminate..]. injection Heq as <- <-.
  split; [reflexivity|]. intros [|[|i]] [|[|j]] Hi Hj; simpl in *; try done; lia.
Defined.

(** C28: An unknown physical state fails closed, however the database behaves:
    either it is journaled, and then the cartridge and the drive are pending
    reconciliation; or every handle it concerns keeps its lease through
    [release_drives], which raises; or no handle is concerned and it raises at
    once, with nothing changed. *)
Theorem unknown_state_fails_closed (attempts : list bool) (now now' : Z) (job op bc : string)
    (drive : option Z) (refs : list nat) (c : catalog) (sc : scheduler)
    (Hwf : journal_wf c) (Htab : table_wf (ct_leases c)) (Hids : lease_ids_distinct sc) :
  match record_physical_state_unknown attempts now job op bc drive refs (c, sc) with
  | (Raise e, (c', sc')) =>
      e = JournalWriteError ∧ c' = c ∧ sc' = sc ∧
      ∀ i h, i ∈ refs → sd_handles sc !! i = Some h → matches_handle bc drive h = false
  | (Ok _, (c', sc')) =>
      sc' = sc ∧ bc ∈ barcodes_pending_reconciliation c' ∧
        (∀ d, drive = Some d → is_Some (dget (drives_pending_reconciliation c') d)) ∨
      c' = c ∧ ∀ i h, i ∈ refs → sd_handles sc !! i = Some h →
        matches_handle bc drive h = true → dh_released h = false →
        let '(r, (c'', _)) := release_drives now' refs (c', sc') in
        r = Raise JournalWriteError ∧
        dget (ct_leases c'') (dh_lease_id h) = dget (ct_leases c) (dh_lease_id h)
  end.
Proof.
  unfold record_physical_state_unknown, try_except, zoom. simpl.
  rewrite journal_durable_spec. case_bool_decide.
  2: { left. split; [done|]. by apply journaled_unknown_pending. }
  monad_unfold. simpl. set (matched := filter (λ i, has _ sc i) refs).
  case_bool_decide as Hm.
  { split_and!; [done..|]. intros i h Hi Hh. apply not_true_iff_false. intros Hmatch.
    apply (not_elem_of_nil i). rewrite <-Hm. apply has_filter. eauto. }
  right. split; [done|]. intros i h Hi Hh Hmatch Hrel.
  pose proof (release_keeps_held now' refs c (update_handles mark_hold matched sc) i (mark_hold h))
    as Hkeep.
  refine (Hkeep _ _ _ _ _ _); try done.
  - intros j k hj hk. rewrite !update_handles_lookup by done.
    intros (hj' & ? & ->)%fmap_Some (hk' & ? & ->)%fmap_Some Heq. eapply Hids; [done..|].
    by repeat case_bool_decide.
  - rewrite update_handles_lookup by done. rewrite bool_decide_true; [by rewrite Hh|].
    apply has_filter. eauto.
Qed.

Lemma unknown_state_fails_closed_witness :
  let sc := with_handles [DriveHandle 0 "TAPE01L8" None "a" 1 false false] sample_sched in
  match record_physical_state_unknown [true; true; true; true] 0 "job" "unload" "TAPE01L8" None
          [0%nat] (empty_catalog, sc) with
  | (Ok _, (c', sc')) => (release_drives 5 [0%nat] (c', sc')).1 = Raise JournalWriteError
  | _ => False
  end.
Proof.
  intros sc.
  pose proof (unknown_state_fails_closed [true; true; true; true] 0 5 "job" "unload" "TAPE01L8" None
    [0%nat] empty_catalog sc) as Hspec.
  destruct (record_physical_state_unknown _ _ _ _ _ _ _ _) as [[[]|e] [c' sc']] eqn:Hrun.
  2: { vm_compute in Hrun. discriminate. }
  destruct Hspec as [(_ & Hp & _)|[_ Hkeep]].
  - intros i e. done.
  - split; [constructor|]. split; intros; done.
  - intros [|i] [|j]; try done.
  - vm_compute in Hrun. injection Hrun as <- <-. vm_compute in Hp. inversion Hp.
  - specialize (Hkeep 0%nat _ (list_elem_of_here _ _) eq_refl eq_refl eq_refl).
    destruct (release_drives 5 [0%nat] (c', sc')) as [r [c'' sc'']]. exact (proj1 Hkeep).
Defined.
