(* ===== verification/Queue.v ===== *)
(** The job queue: openblade/jobs/queue.py, class [JobQueue], wired as
    bootstrap.create_context wires it: jobs and slot leases live in one catalog
    ([CatalogLeaseStore] of the same repository). *)
From stdpp Require Import base list option strings pretty sets.
From Stdlib Require Import ZArith Lia.
From S2P Require Import Prelude Wp Domain Leases Catalog Faults Library Reconcile CatalogStore.
#[local] Open Scope string_scope.
#[local] Open Scope Z_scope.

Definition CHANGER_DRIVE_ID : Z := -1.
Definition _CHANGER_KIND : string := "CHANGER".
Definition _DRIVE_KIND : string := "QUEUE-CLAIM".

(** * Jobs *)
Record job := Job {
  j_id : string;
  j_job_type : job_type;
  j_state : job_state;
  j_created_at : Z;
  j_updated_at : Z;
  j_error : option string;
  j_metadata : dict string json;
}.

Definition _job_from_row (row : job_row) : result job :=
  ty ← enum_of_value (jb_job_type row);
  st ← enum_of_value (jb_state row);
  Ok (Job (jb_id row) ty st (jb_created_at row) (jb_updated_at row) (jb_error row)
        (jb_metadata row)).

Definition create_job (uuid : string) (now : Z) (ty : job_type) (metadata : dict string json)
    : M catalog job :=
  row ← Catalog.create_job uuid now (enum_value ty) metadata;
  liftR (_job_from_row row).

Definition get_job (job_id : string) : M catalog job :=
  row ← gets (Catalog.get_job job_id);
  match row with
  | None => raise JobNotFoundError
  | Some row => liftR (_job_from_row row)
  end.

Definition update_job (now : Z) (job_id : string) (state : option job_state)
    (error : option string) : M catalog job :=
  j ← get_job job_id;
  update_job_state now job_id (enum_value (default (j_state j) state)) error;;
  get_job job_id.

(** * Slots *)
Definition _owner (now slot : Z) (c : catalog) : option string :=
  dl_job_id <$> head (filter (λ l, dl_drive_id l = slot) (ls_live_leases now c)).

(** [now i] is the [i]-th reading of the clock and [others i] what other processes
    do to the catalog between the call's accesses to it. *)
Definition _claim_slot (ttl : Z) (uuid : string) (now : nat → Z) (others : nat → catalog → catalog)
    (slot : Z) (job_id kind : string) (busy : exn) : M catalog unit :=
  owner ← gets (_owner (now 0%nat) slot);
  if bool_decide (owner = Some job_id) then mret tt
  else
    match owner with
    | Some _ => raise busy
    | None =>
        modify (others 0%nat);;
        lease ← (λ c, let '(l, c') := ls_acquire_drive_lease_at uuid (now 1%nat) job_id slot
                                         (kind ++ ":" ++ pretty slot) ttl c in (Ok l, c'));
        match lease with
        | Some _ => mret tt
        | None =>
            modify (others 1%nat);;
            owner ← gets (_owner (now 2%nat) slot);
            if bool_decide (owner = Some job_id) then mret tt else raise busy
        end
    end.

Definition slot_leases (now slot : Z) (job_id : string) (c : catalog) : list string :=
  dl_id <$> filter (λ l, dl_drive_id l = slot ∧ dl_job_id l = job_id) (ls_live_leases now c).

Definition _release_slot (now now' : Z) (slot : Z) (job_id : string) : M catalog unit :=
  mine ← gets (slot_leases now slot job_id);
  when (bool_decide (mine ≠ [])) (modify (ls_release now' mine)).

Definition claim_drive (ttl : Z) (uuid : string) (now : nat → Z)
    (others : nat → catalog → catalog) (drive_id : Z) (job_id : string) : M catalog unit :=
  raise_if (bool_decide (drive_id < 0)) ValueError;;
  c ← getS;
  liftR (ensure_drive_reconciled c drive_id None);;
  _claim_slot ttl uuid now others drive_id job_id _DRIVE_KIND DriveOccupiedError.

Definition release_drive (now now' drive_id : Z) (job_id : string) : M catalog unit :=
  _release_slot now now' drive_id job_id.

Definition claim_changer (ttl : Z) (uuid : string) (now : nat → Z)
    (others : nat → catalog → catalog) (job_id : string) : M catalog unit :=
  _claim_slot ttl uuid now others CHANGER_DRIVE_ID job_id _CHANGER_KIND ChangerBusyError.

Definition release_changer (now now' : Z) (job_id : string) : M catalog unit :=
  _release_slot now now' CHANGER_DRIVE_ID job_id.

Definition heartbeat (ttl now now' : Z) (job_id : string) : M catalog unit :=
  mine ← gets (λ c, dl_id <$> filter (λ l, dl_job_id l = job_id) (ls_live_leases now c));
  when (bool_decide (mine ≠ [])) (modify (ls_heartbeat now' mine ttl)).

(** * Running a job

    The text and the class name of an exception are arguments. *)
Section run.
Context (str_of class_of : exn → string).

Definition safe_job_error (e : exn) : string :=
  if is_openblade_error e then str_of e
  else "Job failed (" ++ class_of e ++ "); see server logs for detail".

(** [func] includes whatever else touches the catalog while it runs, the beats of
    the heartbeat thread among them. *)
Definition run_job {A} (now : nat → Z) (job_id : string) (func : M catalog A)
    : M catalog (job * A) :=
  update_job (now 0%nat) job_id (Some JobState.RUNNING) None;;
  a ← try_except func (λ e,
        update_job (now 1%nat) job_id (Some JobState.FAILED) (Some (safe_job_error e));; raise e);
  completed ← update_job (now 2%nat) job_id (Some JobState.COMPLETED) None;
  mret (completed, a).
End run.

(** * Lemmas *)

(** A live lease of the slot held by the job. *)
Definition holds_slot (now slot : Z) (job_id : string) (c : catalog) : Prop :=
  ∃ id l, dget (ct_leases c) id = Some l ∧ _live l now = true ∧ dl_drive_id l = slot ∧
    dl_job_id l = job_id.

Lemma live_elem now c l : table_wf (ct_leases c) →
  l ∈ ls_live_leases now c ↔ dget (ct_leases c) (dl_id l) = Some l ∧ _live l now = true.
Proof.
  intros Hwf. rewrite (ls_live_leases_spec now c l) by done. cbn [ls_table catalog_lease_store_laws].
  destruct Hwf as (Hd & Hid & _). split; intros [Hl ?]; (split; [|done]).
  - apply list_elem_of_fmap in Hl as ([id l'] & -> & Hin). apply elem_dget in Hin; [|done].
    simpl. by rewrite (Hid _ _ Hin).
  - apply list_elem_of_fmap. exists (dl_id l, l). split; [done | by apply dget_Some_elem].
Qed.

Lemma owner_Some now slot c job : table_wf (ct_leases c) →
  _owner now slot c = Some job → holds_slot now slot job c.
Proof.
  intros Hwf. unfold _owner. destruct (filter _ _) as [|l ls] eqn:Hf; [done|]. intros [= <-].
  assert (l ∈ filter (λ l, dl_drive_id l = slot) (ls_live_leases now c)) as Hl
    by (rewrite Hf; by left).
  apply list_elem_of_filter in Hl as [Hs Hl]. apply live_elem in Hl as [Hl Hlive]; [|done].
  by exists (dl_id l), l.
Qed.

(** When the slot is leased at most once, the owner is the holder. *)
Lemma owner_holds now slot c job : table_wf (ct_leases c) → exclusive_at now (ct_leases c) →
  _owner now slot c = Some job ↔ holds_slot now slot job c.
Proof.
  intros Hwf Hex. split; [by apply owner_Some|]. intros (id & l & Hl & Hlive & Hs & Hj).
  destruct (_owner now slot c) as [job'|] eqn:Ho.
  - destruct (owner_Some _ _ _ _ Hwf Ho) as (id' & l' & Hl' & Hlive' & Hs' & Hj').
    assert (id' = id) as -> by (eapply Hex; [done..|congruence]). congruence.
  - unfold _owner in Ho. destruct (filter _ _) as [|l0 ls] eqn:Hf; [|done].
    assert (dl_id l = id) as Hid by by apply Hwf.
    assert (l ∈ filter (λ l, dl_drive_id l = slot) (ls_live_leases now c)) as Hin.
    { apply list_elem_of_filter. split; [done|]. apply live_elem; [done|]. by rewrite Hid. }
    rewrite Hf in Hin. by apply elem_of_nil in Hin.
Qed.

Definition valid_row (r : job_row) : Prop := ∃ j, _job_from_row r = Ok j.

Lemma valid_row_set now st error r : valid_row r →
  valid_row (set_job_state now (enum_value (A := job_state) st) error r).
Proof.
  unfold valid_row, _job_from_row. unfold mbind, result_bind. simpl. intros [j Hj].
  destruct (enum_of_value (jb_job_type r)); [|done]. rewrite enum_of_value_value. by eexists.
Qed.

Lemma update_job_row now id st error c r :
  dget (ct_jobs c) id = Some r → valid_row r →
  ∃ j, update_job now id (Some st) error c =
    (Ok j, with_jobs (dset (ct_jobs c) id (set_job_state now (enum_value st) error r)) c) ∧
    _job_from_row (set_job_state now (enum_value st) error r) = Ok j.
Proof.
  intros Hr Hv. destruct (valid_row_set now st error r Hv) as [j' Hj']. destruct Hv as [j Hj].
  exists j'. split; [|done]. unfold update_job, get_job, update_job_state, Catalog.get_job.
  monad_unfold. rewrite Hr, Hj. simpl. rewrite Hr. simpl. rewrite dget_dset_eq. by rewrite Hj'.
Qed.

Lemma holds_slot_unique now slot j1 j2 c : exclusive_at now (ct_leases c) →
  holds_slot now slot j1 c → holds_slot now slot j2 c → j1 = j2.
Proof.
  intros Hex (i1 & l1 & H1 & L1 & S1 & <-) (i2 & l2 & H2 & L2 & S2 & <-).
  assert (i1 = i2) as -> by (eapply Hex; [done..|congruence]). congruence.
Qed.

(** ** Examples *)
Definition sample_now : nat → Z := Z.of_nat.
Definition queue_catalog : catalog :=
  (create_job "j1" 0 JobType.ARCHIVE [] empty_catalog).2.

Lemma empty_store_ok now : store_ok now empty_catalog.
Proof. split; [split; [constructor|split; done] | done | done]. Qed.

(** * Properties *)

(** C34: Claiming a slot is exclusive under interference: whatever the other
    processes do between the steps, as long as they keep the leases of a drive
    exclusive, a claim that returns leaves the job, and no other job, with a live
    lease of the slot; a claim that raises has written nothing, and another job
    held the slot. *)
Theorem claim_slot_exclusive (ttl : Z) (uuid : string) (now : nat → Z)
    (others : nat → catalog → catalog) (slot : Z) (job_id kind : string) (busy : exn) (c : catalog)
    (Httl : 0 < ttl) (Hnow : now 0%nat ≤ now 1%nat ≤ now 2%nat)
    (Hok : store_ok (now 0%nat) c)
    (Hothers : ∀ i t c, store_ok t c → store_ok t (others i c))
    (Hfresh : dget (ct_leases (others 0%nat c)) uuid = None) :
  match _claim_slot ttl uuid now others slot job_id kind busy c with
  | (Ok _, c') => ∃ i, holds_slot (now i) slot job_id c' ∧
      ∀ other, holds_slot (now i) slot other c' → other = job_id
  | (Raise e, c') => e = busy ∧
      (c' = c ∧ (∃ other, other ≠ job_id ∧ holds_slot (now 0%nat) slot other c) ∨
       c' = others 1%nat (others 0%nat c) ∧
         ∃ other, holds_slot (now 1%nat) slot other (others 0%nat c))
  end.
Proof.
  assert (∀ i c', store_ok (now i) c' → holds_slot (now i) slot job_id c' →
    ∃ i, holds_slot (now i) slot job_id c' ∧
      ∀ other, holds_slot (now i) slot other c' → other = job_id) as Hdone.
  { intros i c' Hok' Hh. exists i. split; [done|]. intros other Ho.
    eapply holds_slot_unique; [apply Hok' | done..]. }
  assert (store_ok (now 1%nat) (others 0%nat c)) as Hok1.
  { apply Hothers. eapply store_ok_later; [|done]. lia. }
  unfold _claim_slot, mbind, M_bind, gets. case_bool_decide as Ho.
  { apply (Hdone 0%nat); [done|]. apply owner_Some; [apply Hok | done]. }
  destruct (_owner (now 0%nat) slot c) as [other|] eqn:Howner.
  { unfold raise. split; [done|]. left. split; [done|]. exists other. split; [congruence|].
    apply owner_Some; [apply Hok | done]. }
  unfold modify at 1. cbn [fst snd].
  destruct (ls_acquire_at_spec uuid (now 1%nat) job_id slot (kind ++ ":" ++ pretty slot) ttl
    (others 0%nat c)) as [[Hbusy Heq]|(Hfree & s' & Heq & Hs')].
  - rewrite Heq. unfold modify. cbn [fst snd].
    assert (∃ other, holds_slot (now 1%nat) slot other (others 0%nat c)) as Hother.
    { apply busy_drives_elem in Hbusy as (id & l & Hl & Hlive & Hs); [|apply Hok1].
      exists (dl_job_id l), id, l. done. }
    case_bool_decide as Ho2.
    + assert (store_ok (now 2%nat) (others 1%nat (others 0%nat c))) as Hok2.
      { apply Hothers. eapply store_ok_later; [|done]. lia. }
      apply (Hdone 2%nat); [done|]. apply owner_Some; [apply Hok2 | done].
    + split; [done|]. right. by split.
  - destruct (Hs' Hfresh) as [Htab _].
    pose proof (acquire_at_ok uuid (now 1%nat) job_id slot (kind ++ ":" ++ pretty slot) ttl
      (others 0%nat c) Hok1 Hfresh) as Hok'.
    rewrite Heq in Hok' |- *. apply (Hdone 1%nat); [done|].
    eexists uuid, _. cbn [snd] in *. cbn [ls_table catalog_lease_store_laws] in Htab.
    rewrite Htab, dget_dset_eq. split_and!; [done| |done|done].
    unfold _live. simpl. apply bool_decide_eq_true. lia.
Qed.

Lemma claim_slot_exclusive_witness :
  match claim_changer 10 "u" sample_now (λ _, id) "j1" queue_catalog with
  | (Ok _, c') => ∃ i, holds_slot (sample_now i) CHANGER_DRIVE_ID "j1" c'
  | _ => False
  end.
Proof.
  pose proof (claim_slot_exclusive 10 "u" sample_now (λ _, id) CHANGER_DRIVE_ID "j1" _CHANGER_KIND
    ChangerBusyError queue_catalog) as Hspec.
  unfold claim_changer.
  destruct (_claim_slot _ _ _ _ _ _ _ _ _) as [[u|e] c'] eqn:Hrun;
    [|vm_compute in Hrun; discriminate].
  destruct Hspec as (i & Hi & _); [lia | vm_compute; split; discriminate | |done|reflexivity|
    by exists i].
  split; [split; [constructor|split; done] | done | done].
Defined.

(** A job never stays running: when the row of the job is valid and the work
    leaves it in place, [run_job] ends with the job completed and the value of the
    work, or with the job failed, a safe error text in its row, and the exception
    of the work re-raised. *)
Theorem run_job_terminal (str_of class_of : exn → string) {A} (now : nat → Z) (job_id : string)
    (func : M catalog A) (c : catalog)
    (Hrow : ∃ r, dget (ct_jobs c) job_id = Some r ∧ valid_row r)
    (Hfunc : ∀ c r, dget (ct_jobs c) job_id = Some r → valid_row r →
       ∃ r', dget (ct_jobs (func c).2) job_id = Some r' ∧ valid_row r') :
  let c1 := (update_job (now 0%nat) job_id (Some JobState.RUNNING) None c).2 in
  let '(r, c') := run_job str_of class_of now job_id func c in
  ∃ row, dget (ct_jobs c') job_id = Some row ∧
    match (func c1).1 with
    | Ok a => (∃ j, r = Ok (j, a) ∧ j_state j = JobState.COMPLETED) ∧
        jb_state row = "completed" ∧ jb_error row = None
    | Raise e => r = Raise e ∧ jb_state row = "failed" ∧
        jb_error row = Some (safe_job_error str_of class_of e)
    end.
Proof.
  destruct Hrow as (r & Hr & Hv).
  destruct (update_job_row (now 0%nat) job_id JobState.RUNNING None c r Hr Hv) as (j0 & Hrun & _).
  intros c1. unfold run_job, mbind, M_bind, try_except. unfold c1. rewrite Hrun. cbn [snd].
  set (c2 := with_jobs _ c).
  destruct (Hfunc c2 (set_job_state (now 0%nat) (enum_value JobState.RUNNING) None r))
    as (r' & Hr' & Hv'); [by apply dget_dset_eq | by apply valid_row_set|].
  destruct (func c2) as [[a|e] c3]; cbn [fst snd] in *.
  - destruct (update_job_row (now 2%nat) job_id JobState.COMPLETED None c3 r' Hr' Hv')
      as (j & -> & Hj). eexists. split; [apply dget_dset_eq|]. split; [|done].
    exists j. split; [done|]. unfold _job_from_row, mbind, result_bind in Hj. simpl in Hj.
    destruct (enum_of_value (jb_job_type r')); [|done]. by injection Hj as <-.
  - destruct (update_job_row (now 1%nat) job_id JobState.FAILED
      (Some (safe_job_error str_of class_of e)) c3 r' Hr' Hv') as (j & -> & _).
    eexists. by split; [apply dget_dset_eq|].
Qed.

Lemma run_job_terminal_witness :
  let func : M catalog nat := raise DriveBusyError in
  let '(r, c') := run_job (λ _, "drive busy") (λ _, "") sample_now "j1" func queue_catalog in
  ∃ row, dget (ct_jobs c') "j1" = Some row ∧ jb_error row = Some "drive busy".
Proof.
  intros func.
  pose proof (run_job_terminal (λ _, "drive busy") (λ _, "") sample_now "j1" func queue_catalog)
    as Hspec. cbv zeta in Hspec.
  destruct (run_job _ _ _ _ _ _) as [r c'].
  destruct Hspec as (row & Hrow & _ & _ & Herr).
  - eexists. split; [vm_compute; reflexivity|]. eexists. vm_compute. reflexivity.
  - intros c r0 Hr Hv. by exists r0.
  - by exists row.
Defined.
