(* ===== verification/Recovery.v ===== *)
(** Restart recovery: openblade/jobs/recovery.py over the catalog, and
    [run_inventory_job] of openblade/jobs/inventory.py.

    Recovery never moves media; it fails the jobs whose leases expired, releases
    orphaned leases and reports.  [readings] are the readings of the clock the
    pass makes, in the order it makes them. *)
From stdpp Require Import base list option strings pretty sets.
From Stdlib Require Import ZArith Lia.
From S2P Require Import Prelude Wp Domain Paths Leases Catalog Faults Library Reconcile CatalogStore Scheduler.
#[local] Open Scope string_scope.
#[local] Open Scope Z_scope.

Definition _QUEUE_CLAIM_PREFIXES : list string := ["QUEUE-CLAIM:"; "CHANGER:"].

Definition _is_queue_claim (l : drive_lease) : bool :=
  bool_decide (dl_drive_id l < 0) ||
  existsb (λ p, startswith (dl_barcode l) p) _QUEUE_CLAIM_PREFIXES.

Definition _NON_TERMINAL_JOB_STATES : list string := ["pending"; "running"].
Definition _FAILED_JOB_STATES : list string := ["failed"; "failed_recoverable"].

Definition INTERRUPTED_ERROR : string :=
  "interrupted: drive lease expired without a heartbeat; physical state unknown — reconcile before retry".

Record drive_mismatch := DriveMismatch {
  dm_lease_id : string;
  dm_job_id : string;
  dm_drive_id : Z;
  dm_expected_barcode : string;
  dm_observed_barcode : option string;
}.

Record recovery_report := RecoveryReport {
  rr_interrupted_job_ids : list string;
  rr_released_lease_ids : list string;
  rr_mismatches : list drive_mismatch;
  rr_staged_instances : dict string (list staged_instance);
  rr_stale_pending_job_ids : list string;
  rr_pending_reconciliation : list pending_reconciliation;
  rr_held_failed_lease_ids : list string;
}.

Record readings := Readings {
  rd_expired : Z;
  (* the instant stamped on the row and the journal entry of each failed job *)
  rd_failed : string → Z;
  rd_live : Z;
  rd_release : Z;
  rd_report : Z;
}.

Definition _is_older_than (created_at ttl now : Z) : bool := bool_decide (created_at < now - ttl).

(** * The pass *)
Definition fail_job (now : Z) (job_id lease_id : string) : M catalog unit :=
  update_job_state now job_id "failed_recoverable" (Some INTERRUPTED_ERROR);;
  journal now job_id "recovered" [("lease_id", JStr lease_id); ("error", JStr INTERRUPTED_ERROR)];;
  mret tt.

(** The loop over the expired leases; the result extends [interrupted]. *)
Fixpoint interrupt_jobs (rd : readings) (ls : list drive_lease) (interrupted : list string)
    : M catalog (list string) :=
  match ls with
  | [] => mret interrupted
  | l :: ls =>
      owner ← gets (get_job (dl_job_id l));
      match owner with
      | Some j =>
          if bool_decide (jb_state j = "running") && bool_decide (jb_id j ∉ interrupted) then
            fail_job (rd_failed rd (jb_id j)) (jb_id j) (dl_id l);;
            interrupt_jobs rd ls (interrupted ++ [jb_id j])
          else interrupt_jobs rd ls interrupted
      | None => interrupt_jobs rd ls interrupted
      end
  end.

(** What becomes of a live lease, by the state of its job. *)
Definition is_held (c : catalog) (l : drive_lease) : bool :=
  match get_job (dl_job_id l) c with
  | Some j => bool_decide (jb_state j ∈ _FAILED_JOB_STATES)
  | None => false
  end.
Definition is_orphaned (c : catalog) (l : drive_lease) : bool :=
  match get_job (dl_job_id l) c with
  | Some j => bool_decide (jb_state j ∉ _FAILED_JOB_STATES) &&
              bool_decide (jb_state j ∉ _NON_TERMINAL_JOB_STATES)
  | None => true
  end.

Definition mismatch_of (observed : dict Z (option string)) (l : drive_lease)
    : option drive_mismatch :=
  if _is_queue_claim l then None
  else
    let physical := default (dl_drive_id l) (dl_physical_drive_id l) in
    let seen := dget_or observed physical None in
    if bool_decide (seen ≠ Some (dl_barcode l)) then
      Some (DriveMismatch (dl_id l) (dl_job_id l) physical (dl_barcode l) seen)
    else None.

Definition recover_after_restart (rd : readings) (lib : library) : M catalog recovery_report :=
  expired ← gets (expired_leases (rd_expired rd));
  interrupted ← interrupt_jobs rd expired [];
  c ← getS;
  let live := live_leases (rd_live rd) c in
  let held := filter (λ l, is_held c l = true) live in
  let orphaned := (expired ++ filter (λ l, is_orphaned c l = true) live)%list in
  modify (release_leases (rd_release rd) (dl_id <$> orphaned));;
  let observed := dict_of ((λ d, (ds_drive_id d, ds_barcode d)) <$>
                             Domain.inv_drives (inventory lib)) in
  c ← getS;
  mret {|
    rr_interrupted_job_ids := interrupted;
    rr_released_lease_ids := dl_id <$> orphaned;
    rr_mismatches := omap (mismatch_of observed) orphaned;
    rr_staged_instances := (λ j, (jb_id j, list_staged_instances (jb_id j) c)) <$>
                             list_jobs (Some "failed_recoverable") c;
    rr_stale_pending_job_ids := jb_id <$>
      filter (λ j, jb_id j ∉ dl_job_id <$> live ∧
                   _is_older_than (jb_created_at j) DEFAULT_LEASE_TTL (rd_report rd) = true)
        (list_jobs (Some "pending") c);
    rr_pending_reconciliation := dvalues (drives_pending_reconciliation c);
    rr_held_failed_lease_ids := dl_id <$> held;
  |}.

(** * Inventory synchronisation *)
Definition set_cartridge (uuid : string) (now : Z) (bc state : string) : M catalog unit :=
  r ← Catalog.add_cartridge uuid now bc None;
  put_cartridge (CartridgeRow (cr_id r) (cr_barcode r) (cr_volume_group_id r) (cr_library_id r)
    (cr_capacity_bytes r) (cr_used_bytes r) state (cr_formatted r) (cr_created_at r)).

(** The barcodes with the state each pass gives them: slots, then drives, then the
    backend's own states. *)
Definition inventory_states (lib : library) : list (string * string) :=
  (omap (λ s, (λ b, (b, "in_slot")) <$> ss_barcode s) (Domain.inv_slots (inventory lib)) ++
   omap (λ d, (λ b, (b, "in_drive")) <$> ds_barcode d) (Domain.inv_drives (inventory lib)) ++
   ((λ kv, (kv.1, enum_value kv.2)) <$> cartridge_states lib))%list.

(** [uuid b]: the identifier drawn if [b] is new to the catalog. *)
Definition run_inventory_job (uuid : string → string) (now : Z) (lib : library)
    : M catalog (Z * list string) :=
  let states := inventory_states lib in
  forM states (λ p, set_cartridge (uuid p.1) now p.1 p.2);;
  mret (Z.of_nat (length (omap ss_barcode (Domain.inv_slots (inventory lib))) +
                  length (omap ds_barcode (Domain.inv_drives (inventory lib)))),
        sort_by String.leb (unique [] states.*1)).

(** * Lemmas *)
Definition jobs_wf (c : catalog) : Prop :=
  ∀ id j, dget (ct_jobs c) id = Some j → jb_id j = id.

Definition is_running (j : job_row) : bool := bool_decide (jb_state j = "running").

(** The row of a job after the pass, given the leases that expired. *)
Definition failed_row (rd : readings) (ls : list drive_lease) (id : string) (j : job_row) : job_row :=
  if is_running j && existsb (λ l, bool_decide (dl_job_id l = id)) ls
  then set_job_state (rd_failed rd id) "failed_recoverable" (Some INTERRUPTED_ERROR) j
  else j.

Lemma failed_row_state rd ls id j :
  is_running (failed_row rd ls id j) = true → failed_row rd ls id j = j.
Proof. unfold failed_row. by destruct (_ && _). Qed.

Lemma fail_job_spec now id lid c j : dget (ct_jobs c) id = Some j →
  fail_job now id lid c = (Ok tt, add_journal now id "recovered"
    [("lease_id", JStr lid); ("error", JStr INTERRUPTED_ERROR)]
    (with_jobs (dset (ct_jobs c) id
       (set_job_state now "failed_recoverable" (Some INTERRUPTED_ERROR) j)) c)).
Proof.
  intros Hj. unfold fail_job, update_job_state, get_job. monad_unfold. rewrite Hj. done.
Qed.

(** One expired lease, then the rest. *)
Lemma failed_row_cons rd l ls id j : failed_row rd (l :: ls) id j =
  failed_row rd ls id (failed_row rd [l] id j).
Proof.
  unfold failed_row. simpl. destruct (is_running j) eqn:Hr; simpl; [|by rewrite Hr].
  destruct (bool_decide (dl_job_id l = id)); simpl; [done|]. by rewrite Hr.
Qed.

Lemma interrupt_jobs_spec rd ls acc c : jobs_wf c →
  (∀ id j, id ∈ acc → dget (ct_jobs c) id = Some j → is_running j = false) →
  ∃ acc' c', interrupt_jobs rd ls acc c = (Ok acc', c') ∧
    ct_leases c' = ct_leases c ∧
    (∀ id, dget (ct_jobs c') id = failed_row rd ls id <$> dget (ct_jobs c) id) ∧
    ∀ id, id ∈ acc' ↔ id ∈ acc ∨ ∃ j l, dget (ct_jobs c) id = Some j ∧ is_running j = true ∧
                       l ∈ ls ∧ dl_job_id l = id.
Proof.
  revert acc c. induction ls as [|l ls IH]; intros acc c Hwf His; simpl.
  { eexists acc, c. split_and!; [done|done| |].
    - intros id. destruct (dget _ id) as [j|]; [|done]. simpl. unfold failed_row. simpl.
      by rewrite andb_false_r.
    - intros id. split; [by left|]. intros [?|(? & ? & _ & _ & ?%elem_of_nil & _)]; done. }
  unfold mbind, M_bind, gets, get_job. cbn [fst snd].
  destruct (dget (ct_jobs c) (dl_job_id l)) as [j|] eqn:Hj.
  2: { destruct (IH acc c Hwf His) as (acc' & c' & -> & Hls & Hjobs & Hin).
    eexists acc', c'. split_and!; [done..| |].
    - intros id. rewrite Hjobs. destruct (dget (ct_jobs c) id) as [j|] eqn:Hid; [|done]. simpl.
      unfold failed_row. simpl. rewrite (bool_decide_false (dl_job_id l = id)); [done|congruence].
    - intros id. rewrite Hin. split.
      { intros [?|(j' & l' & ? & ? & ? & ?)]; [by left | right]. exists j', l'.
        split_and!; [done..|by right|done]. }
      intros [?|(j' & l' & Hj' & Hr' & [->|?]%elem_of_cons & Heq)]; [by left|congruence|].
      right. by exists j', l'. }
  pose proof (Hwf _ _ Hj) as Hid. rewrite Hid.
  change (bool_decide (jb_state j = "running")) with (is_running j).
  destruct (is_running j) eqn:Hrun; simpl.
  2: { destruct (IH acc c Hwf His) as (acc' & c' & -> & Hls & Hjobs & Hin).
    eexists acc', c'. split_and!; [done..| |].
    - intros id. rewrite Hjobs. destruct (dget (ct_jobs c) id) as [j'|] eqn:Hid'; [|done]. simpl.
      f_equal. unfold failed_row. simpl. case_bool_decide; [|done]. subst. simplify_eq.
      by rewrite Hrun.
    - intros id. rewrite Hin. split.
      { intros [?|(j' & l' & ? & ? & ? & ?)]; [by left | right]. exists j', l'.
        split_and!; [done..|by right|done]. }
      intros [?|(j' & l' & Hj' & Hr' & [->|?]%elem_of_cons & Heq)]; [by left|congruence|].
      right. by exists j', l'. }
  rewrite bool_decide_true by (intros Hin; specialize (His _ _ Hin Hj); congruence).
  rewrite (fail_job_spec _ _ _ _ _ Hj).
  set (c1 := add_journal _ _ _ _ _).
  assert (∀ id, dget (ct_jobs c1) id = failed_row rd [l] id <$> dget (ct_jobs c) id) as Hc1.
  { intros id. unfold c1. simpl. rewrite dget_dset. unfold failed_row. simpl.
    rewrite orb_false_r. case_decide as Heq; subst.
    - rewrite Hj. simpl. rewrite Hrun, bool_decide_true by done. done.
    - destruct (dget _ id); [|done]. simpl. by rewrite bool_decide_false, andb_false_r. }
  destruct (IH (acc ++ [dl_job_id l])%list c1) as (acc' & c' & -> & Hls & Hjobs & Hin).
  - intros id j' Hj'. rewrite Hc1 in Hj'. apply fmap_Some in Hj' as (j0 & Hj0 & ->).
    unfold failed_row. rewrite <-(Hwf _ _ Hj0). by destruct (_ && _).
  - intros id j' Hin Hj'. rewrite Hc1 in Hj'. apply fmap_Some in Hj' as (j0 & Hj0 & ->).
    apply elem_of_app in Hin as [Hin| ->%list_elem_of_singleton].
    + pose proof (His _ _ Hin Hj0) as Hr. unfold failed_row. by rewrite Hr.
    + simplify_eq. unfold failed_row. simpl. by rewrite Hrun, bool_decide_true.
  - eexists acc', c'. split_and!; [done|done| |].
    + intros id. rewrite Hjobs, Hc1. destruct (dget (ct_jobs c) id); [|done]. simpl.
      by rewrite <-failed_row_cons.
    + intros id. rewrite Hin, elem_of_app, list_elem_of_singleton. split.
      * intros [[?| ->]|(j' & l' & Hj' & Hrun' & Hl' & <-)]; [by left|right..].
        -- exists j, l. split_and!; [done|done|by left|done].
        -- rewrite Hc1 in Hj'. apply fmap_Some in Hj' as (j0 & Hj0 & ->).
           rewrite failed_row_state in Hrun' by done.
           exists j0, l'. split_and!; [done|done|by right|done].
      * intros [?|(j' & l' & Hj' & Hrun' & [->|Hl']%elem_of_cons & <-)]; [by left; left| |].
        -- left. by right.
        -- destruct (decide (dl_job_id l' = dl_job_id l)) as [Heq|Hne]; [left; by right|].
           right. exists j', l'. rewrite Hc1, Hj'. split_and!; [|done..]. simpl. f_equal.
           unfold failed_row. simpl. by rewrite bool_decide_false, andb_false_r by done.
Qed.

(** The job states that keep a live lease. *)
Definition keeping_states : list string := (_NON_TERMINAL_JOB_STATES ++ _FAILED_JOB_STATES)%list.

(** A lease the pass releases, by the jobs as the pass leaves them. *)
Definition releasable (rd : readings) (c : catalog) (l : drive_lease) : bool :=
  _expired l (rd_expired rd) ||
  _live l (rd_live rd) &&
  negb (existsb (λ st, bool_decide (jb_state <$> get_job (dl_job_id l) c = Some st)) keeping_states).

Lemma is_orphaned_keeping c l : is_orphaned c l =
  negb (existsb (λ st, bool_decide (jb_state <$> get_job (dl_job_id l) c = Some st)) keeping_states).
Proof.
  unfold is_orphaned. destruct (get_job _ c) as [j|]; [|done]. simpl.
  generalize (jb_state j). intros st.
  repeat match goal with |- context [bool_decide (Some st = Some ?x)] =>
    rewrite (bool_decide_ext (Some st = Some x) (st = x)) by (split; congruence) end.
  destruct (decide (st ∈ keeping_states)) as [Hin|Hout].
  - repeat (apply elem_of_cons in Hin as [->|Hin]; [done|]). by apply elem_of_nil in Hin.
  - rewrite !bool_decide_true by (intros Hin; apply Hout; unfold keeping_states;
      apply elem_of_app; tauto).
    rewrite !bool_decide_false; [done|..]; intros ->; apply Hout; apply (bool_decide_unpack _);
      vm_compute; exact I.
Qed.

Lemma elem_values c l : table_wf (ct_leases c) →
  l ∈ dvalues (ct_leases c) ↔ dget (ct_leases c) (dl_id l) = Some l.
Proof.
  intros (Hd & Hid & _). unfold dvalues. split.
  - intros ([id l'] & -> & Hin)%list_elem_of_fmap. apply elem_dget in Hin; [|done]. simpl.
    by rewrite (Hid _ _ Hin).
  - intros Hl%dget_Some_elem. apply list_elem_of_fmap. by exists (dl_id l, l).
Qed.

Lemma elem_selected c l p (le : drive_lease → drive_lease → bool) : table_wf (ct_leases c) →
  l ∈ sort_by le (select p (ct_leases c)) ↔ dget (ct_leases c) (dl_id l) = Some l ∧ p l = true.
Proof.
  intros Hwf. unfold select. rewrite elem_of_sort_by, list_elem_of_filter, Is_true_true.
  rewrite elem_values by done. tauto.
Qed.

Lemma update_rows_wf p f (d : leases) : table_wf d →
  (∀ l, dl_id (f l) = dl_id l ∧ dl_fencing_token (f l) = dl_fencing_token l) →
  table_wf (update_rows p f d).
Proof.
  intros (Hd & Hid & Htok) Hf.
  assert (∀ id l', dget (update_rows p f d) id = Some l' → ∃ l, dget d id = Some l ∧
    dl_id l' = dl_id l ∧ dl_fencing_token l' = dl_fencing_token l) as Hinv.
  { intros id l'. rewrite update_rows_get. intros (l & Hl & ->)%fmap_Some. exists l.
    split; [done|]. destruct (p l); [apply Hf | done]. }
  split_and!.
  - by apply dict_wf_dmap.
  - intros id l' (l & Hl & -> & _)%Hinv. by apply Hid.
  - intros i1 l1' i2 l2' (l1 & H1 & _ & ->)%Hinv (l2 & H2 & _ & ->)%Hinv. by eapply Htok.
Qed.

Lemma recover_spec rd lib c : jobs_wf c → table_wf (ct_leases c) →
  ∃ rep c', recover_after_restart rd lib c = (Ok rep, c') ∧
    (∀ id, dget (ct_jobs c') id =
       failed_row rd (expired_leases (rd_expired rd) c) id <$> dget (ct_jobs c) id) ∧
    (∀ id, id ∈ rr_interrupted_job_ids rep ↔ ∃ j l, dget (ct_jobs c) id = Some j ∧
       is_running j = true ∧ l ∈ expired_leases (rd_expired rd) c ∧ dl_job_id l = id) ∧
    (∀ id, dget (ct_leases c') id =
       (λ l, if releasable rd c' l then lease_released (rd_release rd) l else l)
         <$> dget (ct_leases c) id) ∧
    (∀ id, id ∈ rr_released_lease_ids rep ↔
       ∃ l, dget (ct_leases c) id = Some l ∧ releasable rd c' l = true) ∧
    jobs_wf c' ∧ table_wf (ct_leases c').
Proof.
  intros Hjobs Hwf. unfold recover_after_restart. unfold mbind, M_bind, gets. cbn [fst snd].
  set (expired := expired_leases (rd_expired rd) c).
  destruct (interrupt_jobs_spec rd expired [] c Hjobs) as (ids & c1 & -> & Hls & Hj & Hin).
  { by intros ? ? ?%elem_of_nil. }
  unfold getS, modify. cbn [fst snd].
  set (orphaned := (expired ++ _)%list).
  set (c2 := release_leases _ _ c1).
  assert (∀ l, l ∈ orphaned ↔ dget (ct_leases c) (dl_id l) = Some l ∧ releasable rd c2 l = true)
    as Horph.
  { intros l. unfold orphaned, expired, expired_leases, live_leases.
    rewrite elem_of_app, list_elem_of_filter, (elem_selected c1), Hls, (elem_selected c) by
      (rewrite ?Hls; done).
    unfold releasable. rewrite orb_true_iff, andb_true_iff.
    rewrite is_orphaned_keeping. change (get_job (dl_job_id l) c2) with (get_job (dl_job_id l) c1).
    tauto. }
  assert (∀ id, id ∈ dl_id <$> orphaned ↔
    ∃ l, dget (ct_leases c) id = Some l ∧ releasable rd c2 l = true) as Hids.
  { intros id. rewrite list_elem_of_fmap. split.
    - intros (l & -> & Hl%Horph). by exists l.
    - intros (l & Hl & Hr). assert (dl_id l = id) as Hid by by apply Hwf. exists l. split; [done|].
      apply Horph. by rewrite Hid. }
  eexists _, c2. split; [reflexivity|]. cbn [rr_interrupted_job_ids rr_released_lease_ids].
  split_and!; [exact Hj| | |exact Hids| |].
  - intros id. rewrite Hin. split; [intros [?%elem_of_nil|?]; done | by right].
  - intros id. unfold c2 at 1, release_leases. cbn [ct_leases with_lease_table].
    rewrite update_rows_get, Hls. destruct (dget (ct_leases c) id) as [l|] eqn:Hl; [|done].
    simpl. f_equal. assert (dl_id l = id) as Hid by by apply Hwf.
    destruct (releasable rd c2 l) eqn:Hr.
    + rewrite bool_decide_true by (apply Hids; exists l; by rewrite Hid).
      assert (is_some (dl_released_at l) = false) as ->; [|done].
      unfold releasable, _expired, _live in Hr. by destruct (is_some (dl_released_at l)).
    + rewrite bool_decide_false; [done|]. intros (l' & ? & ?)%Hids. rewrite Hid in *.
      simplify_eq. congruence.
  - intros id j Hget. cbn [ct_jobs c2 release_leases with_lease_table] in Hget.
    rewrite Hj in Hget. apply fmap_Some in Hget as (j0 & Hj0 & ->).
    rewrite <-(Hjobs _ _ Hj0). unfold failed_row. by destruct (_ && _).
  - unfold c2, release_leases. cbn [ct_leases with_lease_table]. rewrite Hls.
    apply update_rows_wf; [done|]. by intros.
Qed.

Lemma releasable_ext rd c c' l : get_job (dl_job_id l) c = get_job (dl_job_id l) c' →
  releasable rd c l = releasable rd c' l.
Proof. unfold releasable. by intros ->. Qed.

(** ** Examples *)
Definition sample_readings : readings := Readings 100 (λ _, 101) 102 103 104.
Definition recovery_catalog : catalog :=
  let c := (create_job "j3" 0 "archive" [] (create_job "j2" 0 "archive" []
             (create_job "j1" 0 "archive" [] empty_catalog).2).2).2 in
  let c := (update_job_state 1 "j1" "running" None c).2 in
  let c := (update_job_state 1 "j2" "completed" None c).2 in
  let c := (acquire_drive_leases (λ _, "a") 1 "j1" ["TAPE01L8"] 3 50 [] c).2 in
  let c := (acquire_drive_leases (λ _, "b") 2 "j2" ["TAPE02L8"] 3 500 [] c).2 in
  (acquire_drive_leases (λ _, "c") 3 "j3" ["TAPE03L8"] 3 500 [] c).2.

Lemma dict_forall {V} (P : string → V → Prop) (d : dict string V) :
  Forall (λ kv, P kv.1 kv.2) d → ∀ k v, dget d k = Some v → P k v.
Proof. intros Hd k v Hv%dget_Some_elem. rewrite Forall_forall in Hd. exact (Hd _ Hv). Qed.

Lemma recovery_catalog_wf : jobs_wf recovery_catalog ∧ table_wf (ct_leases recovery_catalog).
Proof.
  split; [|split; [|split]].
  - refine (dict_forall (λ id j, jb_id j = id) _ _). vm_compute. repeat constructor.
  - apply (bool_decide_unpack _). vm_compute. exact I.
  - refine (dict_forall (λ id l, dl_id l = id) _ _). vm_compute. repeat constructor.
  - intros i1 l1 i2 l2 H1%dget_Some_elem H2%dget_Some_elem. vm_compute in H1, H2.
    repeat (apply elem_of_cons in H1 as [[= -> ->]|H1];
      [repeat (apply elem_of_cons in H2 as [[= -> ->]|H2]; [done|]); by apply elem_of_nil in H2|]).
    by apply elem_of_nil in H1.
Qed.

(** * Properties *)

(** C29: Restart recovery takes no drive and no job from a living process.  It
    fails exactly the jobs that are running and own an expired lease; it
    releases exactly the leases that expired, and the live ones whose job is
    gone or ended otherwise than by failing; every other lease and every other
    job is left as it was, and the report lists what was done. *)
Theorem recovery_exact (rd : readings) (lib : library) (c : catalog)
    (Hjobs : jobs_wf c) (Hwf : table_wf (ct_leases c)) :
  let expired := λ l, l ∈ expired_leases (rd_expired rd) c in
  ∃ rep c', recover_after_restart rd lib c = (Ok rep, c') ∧
    (∀ id j, dget (ct_jobs c) id = Some j →
       let fails := jb_state j = "running" ∧ ∃ l, expired l ∧ dl_job_id l = id in
       (id ∈ rr_interrupted_job_ids rep ↔ fails) ∧
       (fails → dget (ct_jobs c') id = Some (set_job_state (rd_failed rd id)
                  "failed_recoverable" (Some INTERRUPTED_ERROR) j)) ∧
       (¬ fails → dget (ct_jobs c') id = Some j)) ∧
    (∀ id l, dget (ct_leases c) id = Some l →
       let freed := _expired l (rd_expired rd) = true ∨ _live l (rd_live rd) = true ∧
         (∀ j, get_job (dl_job_id l) c' = Some j → jb_state j ∉ keeping_states) in
       (id ∈ rr_released_lease_ids rep ↔ freed) ∧
       (freed → dget (ct_leases c') id = Some (lease_released (rd_release rd) l)) ∧
       (¬ freed → dget (ct_leases c') id = Some l)).
Proof.
  intros expired. destruct (recover_spec rd lib c Hjobs Hwf)
    as (rep & c' & Hrun & Hj & Hint & Hl & Hrel & _).
  exists rep, c'. split; [done|]. split.
  - intros id j Hget fails.
    assert (fails ↔ is_running j && existsb (λ l, bool_decide (dl_job_id l = id))
      (expired_leases (rd_expired rd) c) = true) as Hfails.
    { unfold fails, is_running, expired. rewrite andb_true_iff, bool_decide_eq_true, existsb_exists.
      setoid_rewrite bool_decide_eq_true. setoid_rewrite list_elem_of_In. done. }
    rewrite Hj, Hint, Hget. simpl. unfold failed_row. split; [|split].
    + unfold fails, expired. unfold is_running. setoid_rewrite bool_decide_eq_true.
      split; [intros (? & l & ? & ? & ? & ?); simplify_eq; eauto | naive_solver].
    + intros ->%Hfails. done.
    + intros Hn. destruct (_ && _) eqn:Hb; [|done]. destruct Hn; by apply Hfails.
  - intros id l Hget freed.
    assert (freed ↔ releasable rd c' l = true) as Hfreed.
    { unfold freed, releasable. rewrite orb_true_iff, andb_true_iff, <-is_orphaned_keeping.
      unfold is_orphaned. destruct (get_job _ c') as [j|]; [|naive_solver].
      rewrite andb_true_iff, !bool_decide_eq_true. unfold keeping_states.
      setoid_rewrite not_elem_of_app. naive_solver. }
    rewrite Hl, Hrel, Hget. simpl. split; [|split].
    + rewrite Hfreed. naive_solver.
    + intros ->%Hfreed. done.
    + intros Hn. destruct (releasable rd c' l) eqn:Hb; [|done]. destruct Hn; by apply Hfreed.
Qed.

(** Of a running job whose lease expired, a completed one and a pending one, the
    first is failed and the first two lose their leases. *)
Lemma recovery_exact_witness :
  let '(r, c') := recover_after_restart sample_readings sample_library recovery_catalog in
  jb_state <$> dget (ct_jobs c') "j1" = Some "failed_recoverable" ∧
  dget (ct_leases c') "c" = dget (ct_leases recovery_catalog) "c".
Proof.
  destruct recovery_catalog_wf as [Hjobs Hwf].
  destruct (recovery_exact sample_readings sample_library recovery_catalog Hjobs Hwf)
    as (rep & c' & Hrun & Hj & Hl).
  rewrite Hrun.
  destruct (dget (ct_jobs recovery_catalog) "j1") as [j|] eqn:Hj1; [|vm_compute in Hj1; discriminate].
  destruct (dget (ct_leases recovery_catalog) "c") as [l|] eqn:Hl3; [|vm_compute in Hl3; discriminate].
  specialize (Hj _ _ Hj1) as (_ & Hfail & _). specialize (Hl _ _ Hl3) as (_ & _ & Hkeep).
  split.
  - rewrite Hfail; [reflexivity|]. vm_compute in Hj1. injection Hj1 as <-. split; [reflexivity|].
    exists (DriveLease "a" 0 "j1" "TAPE01L8" None 1 1 1 51 None). split; [|reflexivity].
    vm_compute. left.
  - rewrite Hkeep; [reflexivity|]. vm_compute in Hl3. injection Hl3 as <-.
    intros [He|[_ Hk]]; [vm_compute in He; discriminate|].
    vm_compute in Hrun. injection Hrun as _ <-.
    apply (Hk _ eq_refl). apply (bool_decide_unpack _). vm_compute. exact I.
Defined.

(** Recovery is idempotent: a second pass with the same readings of the clock
    fails no job, releases no lease, and leaves both tables as they are. *)
Theorem recovery_idempotent (rd : readings) (lib lib' : library) (c : catalog)
    (Hjobs : jobs_wf c) (Hwf : table_wf (ct_leases c)) :
  let c' := (recover_after_restart rd lib c).2 in
  ∃ rep c'', recover_after_restart rd lib' c' = (Ok rep, c'') ∧
    rr_interrupted_job_ids rep = [] ∧ rr_released_lease_ids rep = [] ∧
    (∀ id, dget (ct_jobs c'') id = dget (ct_jobs c') id) ∧
    (∀ id, dget (ct_leases c'') id = dget (ct_leases c') id).
Proof.
  destruct (recover_spec rd lib c Hjobs Hwf)
    as (rep & c' & -> & Hj & _ & Hl & _ & Hjobs' & Hwf'). cbn [snd].
  destruct (recover_spec rd lib' c' Hjobs' Hwf')
    as (rep' & c'' & -> & Hj' & Hint' & Hl' & Hrel' & _).
  assert (∀ l, l ∈ expired_leases (rd_expired rd) c' → False) as Hnone.
  { intros l [Hget He]%elem_selected; [|done]. rewrite Hl in Hget.
    apply fmap_Some in Hget as (l0 & Hl0 & Heq). destruct (releasable rd c' l0) eqn:Hr.
    - rewrite Heq in He. done.
    - subst l0. unfold releasable in Hr. by rewrite He in Hr. }
  assert (expired_leases (rd_expired rd) c' = []) as Hnil.
  { destruct (expired_leases _ c') as [|l ls]; [done|]. destruct (Hnone l). by left. }
  assert (∀ id, dget (ct_jobs c'') id = dget (ct_jobs c') id) as Hsame.
  { intros id. rewrite Hj', Hnil. destruct (dget (ct_jobs c') id); [|done]. simpl.
    unfold failed_row. simpl. by rewrite andb_false_r. }
  assert (∀ id l, dget (ct_leases c') id = Some l → releasable rd c'' l = false) as Hkeep.
  { intros id l Hget. rewrite (releasable_ext rd c'' c') by apply Hsame. rewrite Hl in Hget.
    apply fmap_Some in Hget as (l0 & Hl0 & Heq). destruct (releasable rd c' l0) eqn:Hr;
      by rewrite Heq. }
  exists rep', c''. split_and!; [done| | |done|].
  - apply elem_of_nil_inv. intros id (j & l & _ & _ & Hex & _)%Hint'. by eapply Hnone.
  - apply elem_of_nil_inv. intros id (l & Hget & Hr)%Hrel'. by rewrite (Hkeep _ _ Hget) in Hr.
  - intros id. rewrite Hl'. destruct (dget (ct_leases c') id) as [l|] eqn:Hget; [|done]. simpl.
    by rewrite (Hkeep _ _ Hget).
Qed.

Lemma recovery_idempotent_witness :
  rr_interrupted_job_ids <$> (match (recover_after_restart sample_readings sample_library
      (recover_after_restart sample_readings sample_library recovery_catalog).2).1 with
    | Ok rep => Some rep | Raise _ => None end) = Some [].
Proof.
  destruct recovery_catalog_wf as [Hjobs Hwf].
  destruct (recovery_idempotent sample_readings sample_library sample_library recovery_catalog
    Hjobs Hwf) as (rep & c'' & Hrun & Hint & _).
  rewrite Hrun. cbn. by rewrite Hint.
Defined.
