(* ===== verification/Orchestrator.v ===== *)
(** The choke point of tape operations: openblade/nas/tape_orchestrator.py, with
    the export policy of openblade/catalog/export_policy.py and the operation log
    of openblade/catalog/repository.py.

    The orchestrator's own locks serialise operations on one drive or cartridge;
    an operation is one step here, so they are not state. *)
From stdpp Require Import base list option strings pretty sets.
From Stdlib Require Import ZArith Lia.
From S2P Require Import Prelude Wp Domain Paths Leases Catalog Faults Library Bytes Ltfs.
#[local] Open Scope string_scope.
#[local] Open Scope Z_scope.

(** * Requests and records *)
Module TapeOpType.
Inductive tape_op_type :=
  LOAD | UNLOAD | FORMAT | WRITE | READ | MOVE | VERIFY | EJECT | IMPORT | EXPORT.
Definition tape_op_type_value (x : tape_op_type) : string :=
  match x with
  | LOAD => "load" | UNLOAD => "unload" | FORMAT => "format" | WRITE => "write"
  | READ => "read" | MOVE => "move" | VERIFY => "verify" | EJECT => "eject"
  | IMPORT => "import" | EXPORT => "export"
  end.
End TapeOpType.
Notation tape_op_type := TapeOpType.tape_op_type.
#[export] Instance tape_op_type_eq_dec : EqDecision tape_op_type.
Proof. solve_decision. Defined.

Module TapeOpStatus.
Inductive tape_op_status := QUEUED | RUNNING | COMPLETED | FAILED | CANCELLED | SKIPPED.
End TapeOpStatus.
Notation tape_op_status := TapeOpStatus.tape_op_status.
#[export] Instance tape_op_status_eq_dec : EqDecision tape_op_status.
Proof. solve_decision. Defined.

(** [rq_format_confirmation] is [extras["format_confirmation"]], the one extra
    that is not a JSON value. *)
Record tape_op_request := TapeOpRequest {
  rq_op_type : tape_op_type;
  rq_barcode : string;
  rq_drive_id : option Z;
  rq_slot_id : option Z;
  rq_tape_path : option string;
  rq_content : option bytes;
  rq_size_bytes : option Z;
  rq_checksum_sha256 : option string;
  rq_requested_by : string;
  rq_job_id : option string;
  rq_priority : Z;
  rq_extras : dict string json;
  rq_format_confirmation : option format_confirmation;
}.

Record tape_op_record := TapeOpRecord {
  to_op_id : string;
  to_op_type : tape_op_type;
  to_barcode : string;
  to_drive_id : option Z;
  to_slot_id : option Z;
  to_tape_path : option string;
  to_size_bytes : option Z;
  to_checksum_sha256 : option string;
  to_requested_by : string;
  to_job_id : option string;
  to_priority : Z;
  to_status : tape_op_status;
  to_result : dict string json;
  to_error : option string;
  to_created_at : Z;
  to_started_at : option Z;
  to_completed_at : option Z;
}.

Definition OperationNotConfirmedError : exn := OtherError "OperationNotConfirmedError".
Definition TapeOperationFailedError : exn := OtherError "TapeOperationFailedError".

(** * The plant: the catalog, its operation log, and the backends *)
Record plant := Plant {
  pl_catalog : catalog;
  pl_ops : dict string tape_op_record;
  pl_ltfs : ltfs;
}.
Definition on_catalog {A} (m : M catalog A) : M plant A :=
  zoom pl_catalog (λ c p, Plant c (pl_ops p) (pl_ltfs p)) m.
Definition on_ltfs {A} (m : M ltfs A) : M plant A :=
  zoom pl_ltfs (λ l p, Plant (pl_catalog p) (pl_ops p) l) m.
Definition on_lib {A} (m : M library A) : M plant A := on_ltfs (on_library m).
Definition pl_library (p : plant) : library := lt_library (pl_ltfs p).
Definition ask {A} (f : library → result A) : M plant A := λ p, (f (pl_library p), p).

(** ** The operation log *)
Definition with_ops (d : dict string tape_op_record) (p : plant) : plant :=
  Plant (pl_catalog p) d (pl_ltfs p).

Definition create_tape_op (r : tape_op_record) : M plant unit :=
  modify (λ p, with_ops (dset (pl_ops p) (to_op_id r) r) p).

Definition update_tape_op (op_id : string) (f : tape_op_record → tape_op_record)
    : M plant (option tape_op_record) := λ p,
  match dget (pl_ops p) op_id with
  | None => (Ok None, p)
  | Some r => (Ok (Some (f r)), with_ops (dset (pl_ops p) op_id (f r)) p)
  end.

Definition op_running (now : Z) (r : tape_op_record) : tape_op_record :=
  TapeOpRecord (to_op_id r) (to_op_type r) (to_barcode r) (to_drive_id r) (to_slot_id r)
    (to_tape_path r) (to_size_bytes r) (to_checksum_sha256 r) (to_requested_by r) (to_job_id r)
    (to_priority r) TapeOpStatus.RUNNING (to_result r) (to_error r) (to_created_at r) (Some now)
    (to_completed_at r).
Definition op_completed (now : Z) (result : dict string json) (r : tape_op_record)
    : tape_op_record :=
  TapeOpRecord (to_op_id r) (to_op_type r) (to_barcode r) (to_drive_id r) (to_slot_id r)
    (to_tape_path r) (to_size_bytes r) (to_checksum_sha256 r) (to_requested_by r) (to_job_id r)
    (to_priority r) TapeOpStatus.COMPLETED result None (to_created_at r) (to_started_at r)
    (Some now).
Definition op_failed (now : Z) (error : string) (r : tape_op_record) : tape_op_record :=
  TapeOpRecord (to_op_id r) (to_op_type r) (to_barcode r) (to_drive_id r) (to_slot_id r)
    (to_tape_path r) (to_size_bytes r) (to_checksum_sha256 r) (to_requested_by r) (to_job_id r)
    (to_priority r) TapeOpStatus.FAILED (to_result r) (Some error) (to_created_at r)
    (to_started_at r) (Some now).

(** * The export policy *)
Record export_assessment := ExportAssessment {
  ea_barcode : string;
  ea_volume_group : option string;
  ea_archived_files_on_cartridge : Z;
  ea_pending_files_on_cartridge : Z;
  ea_bytes_on_cartridge : Z;
  ea_sample_paths : list string;
  ea_volume_group_barcodes_with_data : list string;
}.

Definition carries_data (a : export_assessment) : bool :=
  bool_decide (0 < ea_archived_files_on_cartridge a) ||
  bool_decide (0 < ea_pending_files_on_cartridge a).

Definition _SAMPLE_LIMIT : nat := 5.

Definition assess_export (c : catalog) (bc : string) : export_assessment :=
  let instances := list_instances_for_barcode bc c in
  let archived := filter (λ i, fi_state i ∈ archived_states) instances in
  let pending := filter (λ i, fi_state i = enum_value FileInstanceState.PENDING) instances in
  let records := omap (λ i, get_file_record_by_id (fi_file_record_id i) c) archived in
  let base := ExportAssessment bc None (Z.of_nat (length archived)) (Z.of_nat (length pending))
    (foldr (λ r n, fl_size_bytes r + n) 0 records) (take _SAMPLE_LIMIT (fl_path <$> records)) [] in
  match get_cartridge bc c ≫= cr_volume_group_id with
  | None => base
  | Some g =>
      let name := vg_name <$> head (filter (λ v, vg_id v = g) (list_volume_groups c)) in
      let siblings := filter (λ r, cr_volume_group_id r = Some g ∧ cr_barcode r ≠ bc ∧
          existsb (λ i, bool_decide (fi_state i ∈ archived_states))
            (list_instances_for_barcode (cr_barcode r) c) = true) (list_cartridges c) in
      ExportAssessment bc name (ea_archived_files_on_cartridge base)
        (ea_pending_files_on_cartridge base) (ea_bytes_on_cartridge base) (ea_sample_paths base)
        (sort_by String.leb (cr_barcode <$> siblings))
  end.

(** * Operations *)

(** What one request draws and reads: its identifier, the identifiers of a mount
    and of a new cartridge row, and the clock at its successive readings. *)
Record op_env := OpEnv {
  oe_op_id : string;
  oe_mount_id : string;
  oe_cartridge_id : string;
  oe_created_at : Z;
  oe_started_at : Z;
  oe_now : Z;
  oe_completed_at : Z;
}.

Definition opt_int (o : option Z) : json := match o with Some z => JInt z | None => JNull end.

(** [payload.setdefault] over the backend's details. *)
Definition _operation_result (r : operation_result) (fallback : dict string json)
    : dict string json :=
  foldl (λ d kv, dsetdefault d kv.1 kv.2)
    (dsetdefault (dsetdefault (op_details r) "success" (JBool (op_success r)))
       "message" (JStr (op_message r))) fallback.

(** [extras[key]] as an element number. *)
Definition _required_int (extras : dict string json) (key : string) : result Z :=
  match jget extras key with
  | JNull => Raise ValueError
  | j => match coerce_int j with Ok z => Ok z | Raise _ => Raise ValueError end
  end.

(** [extras["confirmBarcode"]] names the cartridge. *)
Definition confirms_barcode (rq : tape_op_request) : bool :=
  match jget (rq_extras rq) "confirmBarcode" with
  | JNull => false
  | j => bool_decide (py_str j = rq_barcode rq)
  end.

Section orchestrator.
(** [persistent]: a catalog was given; without one a transient log is used, which
    has no leases, instances or cartridges.  [str_of] is the text of an
    exception. *)
Context (persistent : bool) (str_of : exn → string) (env : op_env).

Definition _find_empty_slot : M plant Z :=
  ask (λ l, match list_find (λ s, ss_barcode s = None) (Domain.inv_slots (inventory l)) with
            | Some (_, s) => Ok (ss_slot_id s)
            | None => Raise ValueError
            end).

Definition _refuse_if_leased_by_another_job (drive_id : Z) (job_id : option string)
    : M plant unit :=
  raise_if (negb persistent) (OtherError "AttributeError");;
  leases ← gets (λ p, live_leases (oe_now env) (pl_catalog p));
  raise_if (existsb (λ l, bool_decide (default (dl_drive_id l) (dl_physical_drive_id l) = drive_id)
                          && bool_decide (Some (dl_job_id l) ≠ job_id)) leases) DriveLeasedError.

Definition _load (rq : tape_op_request) : M plant (dict string json) :=
  slot ← match rq_slot_id rq with
         | Some s => mret (Some s)
         | None => ask (find_slot_by_barcode (rq_barcode rq))
         end;
  match slot with
  | None => raise ValueError
  | Some slot_id =>
      let drive_id := default 0 (rq_drive_id rq) in
      r ← on_lib (load slot_id drive_id);
      mret (_operation_result r [("barcode", JStr (rq_barcode rq)); ("drive_id", JInt drive_id);
                                 ("slot_id", JInt slot_id)])
  end.

Definition _unload (rq : tape_op_request) : M plant (dict string json) :=
  drive ← match rq_drive_id rq with
          | Some d => mret (Some d)
          | None => ask (find_drive_by_barcode (rq_barcode rq))
          end;
  match drive with
  | None => raise ValueError
  | Some drive_id =>
      slot_id ← match rq_slot_id rq with Some s => mret s | None => _find_empty_slot end;
      _refuse_if_leased_by_another_job drive_id (rq_job_id rq);;
      r ← on_lib (unload drive_id slot_id);
      mret (_operation_result r [("barcode", JStr (rq_barcode rq)); ("drive_id", JInt drive_id);
                                 ("slot_id", JInt slot_id)])
  end.

Definition _ensure_loaded (bc : string) (drive_id : option Z) : M plant (Z * option Z) :=
  loaded ← ask (find_drive_by_barcode bc);
  match loaded with
  | Some d => mret (d, None)
  | None =>
      slot ← ask (find_slot_by_barcode bc);
      match slot with
      | None => raise ValueError
      | Some slot_id =>
          let target := default 0 drive_id in
          on_lib (load slot_id target);;
          mret (target, Some slot_id)
      end
  end.

Definition _format (rq : tape_op_request) : M plant (dict string json) :=
  match rq_format_confirmation rq with
  | None => raise OperationNotConfirmedError
  | Some confirmation =>
      liftR (FormatConfirmation_validate (oe_now env) confirmation (rq_barcode rq));;
      loaded ← _ensure_loaded (rq_barcode rq) (rq_drive_id rq);
      r ← try_finally
            (on_ltfs (Ltfs.format (oe_now env) (rq_barcode rq) (Some confirmation)))
            (match loaded.2 with
             | Some slot => on_lib (unload loaded.1 slot);; mret tt
             | None => mret tt
             end);
      mret (_operation_result r [("barcode", JStr (rq_barcode rq)); ("formatted", JBool true);
                                 ("drive_id", JInt loaded.1)])
  end.

Definition _write (rq : tape_op_request) : M plant (dict string json) :=
  loaded ← _ensure_loaded (rq_barcode rq) (rq_drive_id rq);
  handle ← on_ltfs (mount (oe_mount_id env) (rq_barcode rq) MountMode.READ_WRITE);
  let path := posix_path (match rq_tape_path rq with
                          | Some p => if bool_decide (p = "") then "/" else p
                          | None => "/"
                          end) in
  try_finally
    (on_ltfs (write_bytes (oe_now env) (inl handle) path (default [] (rq_content rq))
                (rq_size_bytes rq) (rq_checksum_sha256 rq));;
     st ← on_ltfs (stat handle path);
     mret [ ("drive_id", JInt loaded.1); ("slot_id", opt_int loaded.2);
            ("tape_path", opt_json (rq_tape_path rq)); ("bytes_written", JInt (fs_size_bytes st));
            ("checksum", JStr (fs_checksum_sha256 st)) ])
    (on_ltfs (unmount handle);;
     match loaded.2 with
     | Some slot => on_lib (unload loaded.1 slot);; mret tt
     | None => mret tt
     end).

Definition _read (rq : tape_op_request) : M plant (dict string json) :=
  data ← on_ltfs (read_bytes (rq_barcode rq) (rq_tape_path rq));
  match data with
  | None => raise OpenBladeFileNotFoundError
  | Some data => mret [("bytes_read", JInt (blen data)); ("checksum", JStr (sha256_hex data))]
  end.

Definition _verify (rq : tape_op_request) : M plant (dict string json) :=
  data ← on_ltfs (read_bytes (rq_barcode rq) (rq_tape_path rq));
  match data with
  | None => raise OpenBladeFileNotFoundError
  | Some data =>
      let checksum := sha256_hex data in
      raise_if (match rq_checksum_sha256 rq with
                | Some c => bool_decide (c ≠ "") && bool_decide (checksum ≠ c)
                | None => false
                end) ChecksumMismatchError;;
      mret [("bytes_read", JInt (blen data)); ("checksum", JStr checksum); ("verified", JBool true)]
  end.

Definition _source_slot (rq : tape_op_request) : M plant Z :=
  match dget_or (rq_extras rq) "source_slot_id"
          (dget_or (rq_extras rq) "source_slot" (opt_int (rq_slot_id rq))) with
  | JNull =>
      slot ← ask (find_slot_by_barcode (rq_barcode rq));
      match slot with Some s => mret s | None => raise ValueError end
  | j => liftR (coerce_int j)
  end.

Definition _dest_slot (rq : tape_op_request) : M plant Z :=
  match dget_or (rq_extras rq) "dest_slot_id"
          (dget_or (rq_extras rq) "dest_slot" (opt_int (rq_slot_id rq))) with
  | JNull => raise ValueError
  | j =>
      d ← liftR (coerce_int j);
      known ← ask (λ l, Ok (ss_slot_id <$> Domain.inv_slots (inventory l)));
      raise_if (bool_decide (d ∉ known)) ValueError;;
      mret d
  end.

Definition _move (rq : tape_op_request) : M plant (dict string json) :=
  source_slot ← _source_slot rq;
  dest_slot ← _dest_slot rq;
  r ← on_lib (move source_slot dest_slot);
  mret (_operation_result r [("barcode", JStr (rq_barcode rq)); ("source_slot", JInt source_slot);
                             ("destination_slot", JInt dest_slot)]).

(** The simulated library has no [eject]. *)
Definition _eject (rq : tape_op_request) : M plant (dict string json) := _unload rq.

Definition find_element (k : Z) (l : list slot_state) : option slot_state :=
  snd <$> list_find (λ s, ss_slot_id s = k) l.

Definition _require_ie_element (ie_slot : Z) : M plant slot_state :=
  ask (λ l, match find_element ie_slot (import_export_slots l) with
            | Some s => Ok s
            | None => Raise ImportExportSlotError
            end).
Definition _require_storage_slot (slot_id : Z) : M plant slot_state :=
  ask (λ l, match find_element slot_id (Domain.inv_slots (inventory l)) with
            | Some s => Ok s
            | None => Raise ImportExportSlotError
            end).

Definition _record_cartridge_state (bc state : string) : M plant unit :=
  when persistent
    (on_catalog (Catalog.add_cartridge (oe_cartridge_id env) (oe_now env) bc None);;
     on_catalog (Catalog.set_cartridge_state bc state);; mret tt).

Definition _import (rq : tape_op_request) : M plant (dict string json) :=
  ie_slot ← liftR (_required_int (rq_extras rq) "ie_slot");
  source ← _require_ie_element ie_slot;
  match ss_barcode source with
  | None => raise ImportExportSlotError
  | Some b =>
      raise_if (bool_decide (b ≠ rq_barcode rq)) ImportExportSlotError;;
      match rq_slot_id rq with
      | None => raise ImportExportSlotError
      | Some target_slot =>
          target ← _require_storage_slot target_slot;
          raise_if (is_some (ss_barcode target)) ImportExportSlotError;;
          r ← on_lib (import_cartridge ie_slot target_slot);
          _record_cartridge_state (rq_barcode rq) "in_slot";;
          mret (_operation_result r [("barcode", JStr (rq_barcode rq)); ("ie_slot", JInt ie_slot);
                                     ("target_slot", JInt target_slot)])
      end
  end.

Definition _guard_export (rq : tape_op_request) : M plant unit :=
  when (negb (confirms_barcode rq))
    (raise_if (negb persistent) ExportRefusedError;;
     assessment ← gets (λ p, assess_export (pl_catalog p) (rq_barcode rq));
     raise_if (carries_data assessment) ExportRefusedError).

Definition _export (rq : tape_op_request) : M plant (dict string json) :=
  source ← ask (find_slot_by_barcode (rq_barcode rq));
  match source with
  | None => raise ImportExportSlotError
  | Some source_slot =>
      raise_if (match rq_slot_id rq with
                | Some s => bool_decide (s ≠ source_slot)
                | None => false
                end) ImportExportSlotError;;
      _guard_export rq;;
      ie_slot ← liftR (_required_int (rq_extras rq) "ie_slot");
      target ← _require_ie_element ie_slot;
      raise_if (is_some (ss_barcode target)) ImportExportSlotError;;
      r ← on_lib (export_cartridge_to_ie source_slot ie_slot);
      _record_cartridge_state (rq_barcode rq) "exported";;
      mret (_operation_result r [("barcode", JStr (rq_barcode rq)); ("source_slot", JInt source_slot);
                                 ("ie_slot", JInt ie_slot)])
  end.

Definition _dispatch (rq : tape_op_request) : M plant (dict string json) :=
  match rq_op_type rq with
  | TapeOpType.LOAD => _load rq
  | TapeOpType.UNLOAD => _unload rq
  | TapeOpType.FORMAT => _format rq
  | TapeOpType.WRITE => _write rq
  | TapeOpType.READ => _read rq
  | TapeOpType.MOVE => _move rq
  | TapeOpType.VERIFY => _verify rq
  | TapeOpType.EJECT => _eject rq
  | TapeOpType.IMPORT => _import rq
  | TapeOpType.EXPORT => _export rq
  end.

Definition _resolve_drive_for_write (rq : tape_op_request) : M plant Z :=
  match rq_drive_id rq with
  | Some d => mret d
  | None => loaded ← ask (find_drive_by_barcode (rq_barcode rq)); mret (default 0 loaded)
  end.

Definition _execute_locked (rq : tape_op_request) : M plant (dict string json) :=
  match rq_op_type rq with
  | TapeOpType.WRITE | TapeOpType.FORMAT => _resolve_drive_for_write rq;; _dispatch rq
  | _ => _dispatch rq
  end.

(** * Running a request *)
Definition _validate_request (rq : tape_op_request) : M plant unit :=
  raise_if (bool_decide (strip (rq_barcode rq) = "")) ValueError;;
  raise_if (bool_decide (rq_op_type rq ∈ [TapeOpType.READ; TapeOpType.WRITE; TapeOpType.VERIFY]) &&
            bool_decide (default "" (rq_tape_path rq) = "")) ValueError;;
  raise_if (bool_decide (rq_op_type rq = TapeOpType.WRITE) && negb (is_some (rq_content rq)))
    ValueError;;
  when (bool_decide (rq_op_type rq = TapeOpType.MOVE))
    (source_slot ← _source_slot rq;
     dest_slot ← _dest_slot rq;
     raise_if (bool_decide (source_slot = dest_slot)) ValueError);;
  raise_if (bool_decide (rq_op_type rq = TapeOpType.FORMAT) &&
            match jget (rq_extras rq) "confirmed_format" with JBool true => false | _ => true end)
    OperationNotConfirmedError.

Definition _safe_error_message (ty : tape_op_type) (e : exn) : string :=
  if bool_decide (e = OperationNotConfirmedError) then
    "Format operations require explicit confirmation"
  else if bool_decide (e = ChecksumMismatchError) then "Checksum verification failed"
  else if bool_decide (e ∈ [ExportRefusedError; MailslotUnsupportedError; ImportExportSlotError])
  then str_of e
  else "Tape " ++ TapeOpType.tape_op_type_value ty ++ " operation failed".

Definition queued_record (rq : tape_op_request) : tape_op_record :=
  TapeOpRecord (oe_op_id env) (rq_op_type rq) (rq_barcode rq) (rq_drive_id rq) (rq_slot_id rq)
    (rq_tape_path rq) (rq_size_bytes rq) (rq_checksum_sha256 rq) (rq_requested_by rq)
    (rq_job_id rq) (rq_priority rq) TapeOpStatus.QUEUED [] None (oe_created_at env) None None.

Definition is_refusal (e : exn) : bool :=
  bool_decide (e ∈ [OperationNotConfirmedError; ExportRefusedError]).

(** [assert persisted is not None]. *)
Definition assert_some {A} (o : option A) : M plant A :=
  match o with Some a => mret a | None => raise AssertionError end.

Definition execute (rq : tape_op_request) : M plant tape_op_record :=
  _validate_request rq;;
  create_tape_op (queued_record rq);;
  update_tape_op (oe_op_id env) (op_running (oe_started_at env));;
  try_except
    (result ← _execute_locked rq;
     persisted ← update_tape_op (oe_op_id env) (op_completed (oe_completed_at env) result);
     assert_some persisted)
    (λ e,
     persisted ← update_tape_op (oe_op_id env)
       (op_failed (oe_completed_at env) (_safe_error_message (rq_op_type rq) e));
     r ← assert_some persisted;
     if is_refusal e then raise e else mret r).
End orchestrator.

(** A transient log starts empty and is thrown away. *)
Definition execute_tape_request (persistent : bool) (str_of : exn → string) (env : op_env)
    (raise_on_failed : bool) (rq : tape_op_request) : M plant tape_op_record := λ p,
  let '(r, p') := (record ← execute persistent str_of env rq;
                   raise_if (raise_on_failed && bool_decide (to_status record = TapeOpStatus.FAILED))
                     TapeOperationFailedError;;
                   mret record) (if persistent then p else with_ops [] p) in
  (r, if persistent then p' else with_ops (pl_ops p) p').

(** * Lemmas *)

(** ** What a program leaves alone

    [keeps f m]: running [m] does not change [f] of the plant. *)
Notation keeps f m := (preserves (eq_on f) m).

Lemma keeps_ask {A B} (f : plant → B) (q : library → result A) : keeps f (ask q).
Proof. by intros p. Qed.
Lemma keeps_ops_ltfs {A} (m : M ltfs A) : keeps pl_ops (on_ltfs m).
Proof. intros p. unfold eq_on, on_ltfs, zoom. by destruct (m (pl_ltfs p)). Qed.
Lemma keeps_ops_catalog {A} (m : M catalog A) : keeps pl_ops (on_catalog m).
Proof. intros p. unfold eq_on, on_catalog, zoom. by destruct (m (pl_catalog p)). Qed.
Lemma keeps_catalog_ltfs {A} (m : M ltfs A) : keeps pl_catalog (on_ltfs m).
Proof. intros p. unfold eq_on, on_ltfs, zoom. by destruct (m (pl_ltfs p)). Qed.
Lemma keeps_ltfs_catalog {A} (m : M catalog A) : keeps pl_ltfs (on_catalog m).
Proof. intros p. unfold eq_on, on_catalog, zoom. by destruct (m (pl_catalog p)). Qed.

(** The robot touches no tape's content and no mount. *)
Definition media_of (l : ltfs) := (tapes l, active_mounts l).
Lemma keeps_media_lib {A} (m : M library A) : keeps (λ p, media_of (pl_ltfs p)) (on_lib m).
Proof.
  intros p. unfold eq_on, on_lib, on_ltfs, on_library, zoom. by destruct (m _).
Qed.
Lemma keeps_catalog_lib {A} (m : M library A) : keeps pl_catalog (on_lib m).
Proof. apply keeps_catalog_ltfs. Qed.
Lemma keeps_ops_lib {A} (m : M library A) : keeps pl_ops (on_lib m).
Proof. apply keeps_ops_ltfs. Qed.

#[export] Hint Resolve keeps_ask keeps_ops_ltfs keeps_ops_catalog keeps_catalog_ltfs
  keeps_ltfs_catalog keeps_media_lib keeps_catalog_lib keeps_ops_lib : preserves.

Section log.
Context (persistent : bool) (str_of : exn → string) (env : op_env).

Lemma slots_keep {B} (f : plant → B) rq : keeps f (_source_slot rq) ∧ keeps f (_dest_slot rq).
Proof. unfold _source_slot, _dest_slot. split; solve_preserves. Qed.

Lemma validate_pure rq p : (_validate_request rq p).2 = p.
Proof.
  destruct (slots_keep (λ p, p) rq). apply (λ H : keeps (λ p, p) (_validate_request rq), H p).
  unfold _validate_request. solve_preserves.
Qed.

Lemma execute_keeps_log rq : keeps pl_ops (_execute_locked persistent env rq).
Proof.
  destruct (slots_keep pl_ops rq).
  unfold _execute_locked, _resolve_drive_for_write, _dispatch, _load, _unload, _format, _write,
    _read, _verify, _move, _eject, _unload, _import, _export, _ensure_loaded, _find_empty_slot,
    _refuse_if_leased_by_another_job, _require_ie_element, _require_storage_slot, _guard_export,
    _record_cartridge_state.
  solve_preserves.
Qed.
End log.

(** ** Running a request *)
Section run.
Context (persistent : bool) (str_of : exn → string) (env : op_env).

(** The plant with the row of the request running. *)
Definition started (rq : tape_op_request) (p : plant) : plant :=
  with_ops (dset (pl_ops p) (oe_op_id env)
              (op_running (oe_started_at env) (queued_record env rq))) p.

(** The row once the backends have answered. *)
Definition final_record (rq : tape_op_request) (r : result (dict string json)) : tape_op_record :=
  let running := op_running (oe_started_at env) (queued_record env rq) in
  match r with
  | Ok result => op_completed (oe_completed_at env) result running
  | Raise e => op_failed (oe_completed_at env) (_safe_error_message str_of (rq_op_type rq) e) running
  end.

Lemma execute_eq rq p :
  execute persistent str_of env rq p =
  match (_validate_request rq p).1 with
  | Raise e => (Raise e, p)
  | Ok _ =>
      let '(r, p1) := _execute_locked persistent env rq (started rq p) in
      let row := final_record rq r in
      (match r with Ok _ => Ok row | Raise e => if is_refusal e then Raise e else Ok row end,
       with_ops (dset (pl_ops p) (oe_op_id env) row) p1)
  end.
Proof.
  pose proof (validate_pure rq p) as Hpure. unfold execute, mbind, M_bind, try_except.
  destruct (_validate_request rq p) as [[u|e] p0]; simpl in Hpure; subst p0; [|done].
  unfold create_tape_op, modify, update_tape_op at 1. cbn [pl_ops with_ops fst snd].
  rewrite dget_dset_eq, dset_dset.
  match goal with |- context [with_ops ?d (with_ops _ p)] =>
    change (with_ops d (with_ops _ p)) with (started rq p) end.
  pose proof (execute_keeps_log persistent env rq (started rq p)) as Hlog.
  destruct (_execute_locked persistent env rq (started rq p)) as [[d|e] p1]; simpl in Hlog;
    unfold update_tape_op; rewrite Hlog; simpl; rewrite dget_dset_eq, dset_dset; simpl;
    [done|]. by destruct (is_refusal e).
Qed.
End run.

Lemma wp_ask {A} (f : library → result A) (Q : A → plant → Prop) (E : exn → plant → Prop) p :
  (∀ a, f (pl_library p) = Ok a → Q a p) → (∀ e, f (pl_library p) = Raise e → E e p) →
  wp (ask f) Q E p.
Proof. intros HQ HE. apply wp_unfold. unfold ask. destruct (f (pl_library p)); auto. Qed.

Lemma wp_on_lib {A} (m : M library A) (Q : A → plant → Prop) (E : exn → plant → Prop) p :
  wp m (λ a l, Q a (Plant (pl_catalog p) (pl_ops p) (with_library l (pl_ltfs p))))
       (λ e l, E e (Plant (pl_catalog p) (pl_ops p) (with_library l (pl_ltfs p)))) (pl_library p) →
  wp (on_lib m) Q E p.
Proof.
  rewrite !wp_unfold. unfold on_lib, on_ltfs, on_library, zoom, pl_library.
  by destruct (m _) as [[]].
Qed.

(** ** The export policy *)
Lemma filter_nil_iff {A} (P : A → Prop) `{∀ x, Decision (P x)} (l : list A) :
  filter P l = [] ↔ ∀ x, x ∈ l → ¬ P x.
Proof.
  split.
  - intros Hf x Hx HP. apply (not_elem_of_nil x). rewrite <-Hf. by apply list_elem_of_filter.
  - intros Hn. apply elem_of_nil_inv. intros x [HP Hx]%list_elem_of_filter. by apply (Hn x).
Qed.

Definition on_tape (c : catalog) (bc : string) (i : instance_row) : Prop :=
  i ∈ dvalues (ct_instances c) ∧ fi_barcode i = bc.

Lemma elem_instances bc c i : i ∈ list_instances_for_barcode bc c ↔ on_tape c bc i.
Proof.
  unfold list_instances_for_barcode, on_tape, select.
  rewrite elem_of_sort_by, list_elem_of_filter, Is_true_true, bool_decide_eq_true. tauto.
Qed.

Lemma carries_data_spec c bc :
  carries_data (assess_export c bc) = false ↔
  ∀ i, on_tape c bc i → fi_state i ∉ archived_states ∧
                        fi_state i ≠ enum_value FileInstanceState.PENDING.
Proof.
  assert (∀ l : list instance_row, Z.of_nat (length l) ≤ 0 ↔ l = []) as Hlen.
  { intros [|? l]; simpl; split; try done; lia. }
  assert (carries_data (assess_export c bc) =
    bool_decide (0 < Z.of_nat (length (filter (λ i, fi_state i ∈ archived_states)
                   (list_instances_for_barcode bc c)))) ||
    bool_decide (0 < Z.of_nat (length (filter (λ i, fi_state i = enum_value FileInstanceState.PENDING)
                   (list_instances_for_barcode bc c))))) as ->.
  { unfold assess_export. by destruct (get_cartridge bc c ≫= cr_volume_group_id). }
  rewrite orb_false_iff, !bool_decide_eq_false, !Z.nlt_ge, !Hlen, !filter_nil_iff.
  setoid_rewrite elem_instances. naive_solver.
Qed.

Lemma guard_cases persistent rq p :
  (_guard_export persistent rq p = (Raise ExportRefusedError, p)) ∨
  _guard_export persistent rq p = (Ok tt, p) ∧
  (confirms_barcode rq = true ∨
   persistent = true ∧ carries_data (assess_export (pl_catalog p) (rq_barcode rq)) = false).
Proof.
  unfold _guard_export. destruct (confirms_barcode rq); monad_unfold; simpl.
  - right. split; [done | by left].
  - destruct persistent; simpl; [|by left].
    destruct (carries_data _) eqn:Hd; [by left|]. right. split; [done | by right].
Qed.

Lemma found_slot bc l k : find_slot_by_barcode bc l = Ok (Some k) →
  ∃ b sl, Barcode bc = Ok b ∧ (k, sl) ∈ slots l ∧ slot_barcode sl = Some b.
Proof.
  unfold find_slot_by_barcode. destruct (Barcode bc) as [b|]; [|done]. simpl.
  destruct (list_find _ _) as [[i [k' sl]]|] eqn:Hf; [|done]. intros [= ->]. exists b, sl.
  apply list_find_Some in Hf as (Hl & Hsl & _). split_and!; [done | by eapply list_elem_of_lookup_2 | done].
Qed.

(** The request spells the barcode again. *)
Definition confirmed (rq : tape_op_request) : Prop :=
  jget (rq_extras rq) "confirmBarcode" ≠ JNull ∧ py_str (jget (rq_extras rq) "confirmBarcode") = rq_barcode rq.

(** What an export may do to the backends: nothing, or move the cartridge named
    from its own slot, with the override or with no data under the barcode as the
    request spells it. *)
Definition export_allowed (persistent : bool) (rq : tape_op_request) (p p' : plant) : Prop :=
  pl_ltfs p' = pl_ltfs p ∨
  ∃ b source sl ie, Barcode (rq_barcode rq) = Ok b ∧
    (source, sl) ∈ slots (pl_library p) ∧ slot_barcode sl = Some b ∧
    (rq_slot_id rq = None ∨ rq_slot_id rq = Some source) ∧
    pl_ltfs p' = with_library (export_cartridge_to_ie source ie (pl_library p)).2 (pl_ltfs p) ∧
    (confirmed rq ∨
     persistent = true ∧ ∀ i, on_tape (pl_catalog p) (rq_barcode rq) i →
       fi_state i ∉ archived_states ∧ fi_state i ≠ enum_value FileInstanceState.PENDING).

Lemma export_spec persistent env rq p :
  wp (_export persistent env rq) (λ _ p', export_allowed persistent rq p p')
     (λ _ p', export_allowed persistent rq p p') p.
Proof.
  unfold _export. wp_step. apply wp_ask; [|by left]. intros [source|] Hsource;
    [|wp_step; by left].
  wp_step. wp_step; [by left|]. wp_step.
  destruct (guard_cases persistent rq p) as [Hg|[Hg Hallow]]; apply wp_unfold; rewrite Hg;
    [by left|].
  wp_step. wp_step; [|by left]. wp_step. apply wp_ask; [|by left]. intros target _. wp_step.
  wp_step; [by left|]. wp_step. apply wp_on_lib.
  assert (∀ p', pl_ltfs p' = with_library (export_cartridge_to_ie source a (pl_library p)).2
      (pl_ltfs p) → export_allowed persistent rq p p') as Hdone.
  { intros p' Hp'. right. destruct (found_slot _ _ _ Hsource) as (b & sl & Hb & Hin & Hsl).
    exists b, source, sl, a. split_and!; [done..| |done|].
    - destruct (rq_slot_id rq) as [s|]; [right|by left].
      match goal with H : bool_decide (s ≠ source) = false |- _ =>
        apply bool_decide_eq_false in H; apply dec_stable in H end. congruence.
    - destruct Hallow as [Hc|[? Hd]]; [left | right].
      { revert Hc. unfold confirms_barcode, confirmed. destruct (jget _ _); try done; by intros ?%bool_decide_eq_true. }
      split; [done|].
      by apply carries_data_spec. }
  apply wp_unfold. destruct (export_cartridge_to_ie source a (pl_library p)) as [[r|e] l'];
    [|by apply Hdone].
  wp_step. eapply wp_mono; [apply (wp_preserves (eq_on pl_ltfs)); unfold _record_cartridge_state; solve_preserves| |].
  - intros ? p' Hp'. wp_step. apply Hdone. exact Hp'.
  - intros e p' Hp'. apply Hdone. exact Hp'.
Qed.

(** ** Unloading *)
Lemma unload_leased env rq p l d :
  match rq_drive_id rq with
  | Some d' => d' = d
  | None => find_drive_by_barcode (rq_barcode rq) (pl_library p) = Ok (Some d)
  end →
  l ∈ live_leases (oe_now env) (pl_catalog p) →
  default (dl_drive_id l) (dl_physical_drive_id l) = d → Some (dl_job_id l) ≠ rq_job_id rq →
  ∃ e, _unload true env rq p = (Raise e, p).
Proof.
  intros Hd Hl Hphys Hjob.
  assert (∀ slot, ∃ e, (_refuse_if_leased_by_another_job true env d (rq_job_id rq) ≫= λ _,
    r ← on_lib (unload d slot);
    mret (_operation_result r [("barcode", JStr (rq_barcode rq)); ("drive_id", JInt d);
                               ("slot_id", JInt slot)])) p = (Raise e, p)) as Hrefuse.
  { intros slot. exists DriveLeasedError. unfold _refuse_if_leased_by_another_job.
    monad_unfold. simpl. assert (existsb (λ l0, bool_decide
      (default (dl_drive_id l0) (dl_physical_drive_id l0) = d) &&
      bool_decide (Some (dl_job_id l0) ≠ rq_job_id rq))
      (live_leases (oe_now env) (pl_catalog p)) = true) as ->; [|done].
    apply existsb_exists. exists l. split; [by apply list_elem_of_In|].
    by rewrite !bool_decide_true. }
  unfold _unload, mbind, M_bind.
  assert ((match rq_drive_id rq with Some d0 => mret (Some d0)
           | None => ask (find_drive_by_barcode (rq_barcode rq)) end) p = (Ok (Some d), p)) as ->.
  { destruct (rq_drive_id rq) as [d'|]; [by subst|]. unfold ask. by rewrite Hd. }
  destruct (rq_slot_id rq) as [slot|]; [apply Hrefuse|].
  unfold _find_empty_slot, ask. destruct (list_find _ _) as [[i sl]|]; [apply Hrefuse|].
  by eexists.
Qed.

(** ** Examples *)
Definition sample_request (ty : tape_op_type) (drive slot : option Z) (extras : dict string json)
    : tape_op_request :=
  TapeOpRequest ty "TAPE01L8" drive slot None None None None "test" (Some "j1") 5 extras None.
Definition sample_env : op_env := OpEnv "op1" "m1" "c1" 1 2 3 4.
Definition sample_plant : plant :=
  Plant empty_catalog [] (MockLTFSBackend sample_library 1000 no_faults NoInjector).
Definition leased_plant : plant :=
  Plant (acquire_drive_leases (λ _, "l1") 1 "other" ["TAPE01L8"] 2 100 [] empty_catalog).2 []
    (MockLTFSBackend loaded_library 1000 no_faults NoInjector).
Definition staged_plant : plant :=
  Plant (with_instances [("a", sample_instance "a" "staging" 0)] empty_catalog) []
    (MockLTFSBackend sample_library 1000 no_faults NoInjector).
Definition archived_plant : plant :=
  Plant (with_instances [("a", sample_instance "a" "archived" 0)] empty_catalog) []
    (MockLTFSBackend sample_library 1000 no_faults NoInjector).

(** * Properties *)

(** C37: Every accepted request is logged, once and truthfully: the log gains the
    row of the request, completed with the backend's answer or failed with a
    curated text, and no other row changes; the call returns that row, except
    that a refusal is also raised.  A request that does not pass validation
    leaves no trace. *)
Theorem execute_audited (persistent : bool) (str_of : exn → string) (env : op_env)
    (rq : tape_op_request) (p : plant) :
  match execute persistent str_of env rq p with
  | (Ok row, p') =>
      let '(r, p1) := _execute_locked persistent env rq (started env rq p) in
      row = final_record str_of env rq r ∧ p' = with_ops (dset (pl_ops p) (oe_op_id env) row) p1 ∧
      to_status row = (if is_ok r then TapeOpStatus.COMPLETED else TapeOpStatus.FAILED) ∧
      (is_some (to_error row) = negb (is_ok r))
  | (Raise e, p') =>
      p' = p ∧ (_validate_request rq p).1 = Raise e ∨
      is_refusal e = true ∧
      let '(r, p1) := _execute_locked persistent env rq (started env rq p) in
      r = Raise e ∧
      p' = with_ops (dset (pl_ops p) (oe_op_id env) (final_record str_of env rq r)) p1 ∧
      to_status (final_record str_of env rq r) = TapeOpStatus.FAILED
  end.
Proof.
  rewrite execute_eq. destruct (_validate_request rq p).1 as [u|e]; [|by left].
  destruct (_execute_locked persistent env rq (started env rq p)) as [[d|e] p1]; [done|].
  destruct (is_refusal e) eqn:Hr; [|done]. right. done.
Qed.

(** No request unloads a drive that another job holds: when a live lease of
    another job covers the drive, by the drive reserved or by the one the tape
    really is in, an unload or eject is logged as failed and moves nothing. *)
Theorem unload_respects_leases (str_of : exn → string) (env : op_env) (rq : tape_op_request)
    (p : plant) (l : drive_lease) (d : Z)
    (Hop : rq_op_type rq ∈ [TapeOpType.UNLOAD; TapeOpType.EJECT])
    (Hdrive : match rq_drive_id rq with
              | Some d' => d' = d
              | None => find_drive_by_barcode (rq_barcode rq) (pl_library p) = Ok (Some d)
              end)
    (Hl : l ∈ live_leases (oe_now env) (pl_catalog p))
    (Hphys : default (dl_drive_id l) (dl_physical_drive_id l) = d)
    (Hjob : Some (dl_job_id l) ≠ rq_job_id rq) :
  let '(r, p') := execute true str_of env rq p in
  pl_ltfs p' = pl_ltfs p ∧ ∀ row, r = Ok row → to_status row = TapeOpStatus.FAILED.
Proof.
  destruct (unload_leased env rq (started env rq p) l d) as [e He]; [done..|].
  assert (_execute_locked true env rq (started env rq p) = (Raise e, started env rq p)) as Hrun.
  { unfold _execute_locked, _dispatch, _eject.
    apply elem_of_cons in Hop as [->|[->|[]%elem_of_nil]%elem_of_cons]; exact He. }
  rewrite execute_eq, Hrun. destruct (_validate_request rq p).1; [|done].
  split; [done|]. intros row. destruct (is_refusal e); [done|]. by intros [= <-].
Qed.

Lemma unload_respects_leases_witness :
  let '(r, p') := execute true (λ _, "") sample_env
                    (sample_request TapeOpType.UNLOAD (Some 0) (Some 1) []) leased_plant in
  pl_ltfs p' = pl_ltfs leased_plant.
Proof.
  pose proof (unload_respects_leases (λ _, "") sample_env
    (sample_request TapeOpType.UNLOAD (Some 0) (Some 1) []) leased_plant
    (DriveLease "l1" 0 "other" "TAPE01L8" None 1 1 1 101 None) 0) as Hspec.
  destruct (execute _ _ _ _ _) as [r p']. apply Hspec.
  - left.
  - reflexivity.
  - vm_compute. left.
  - reflexivity.
  - discriminate.
Defined.

(** C33: Nothing leaves the library unseen, as far as the barcode is spelled as the
    catalog spells it.  Whatever request of type export is executed, the backends
    are as before, or the robot was asked to move the cartridge named (its barcode
    normalised), from the slot it is in, and either the request spelled its barcode
    again as confirmation, or there is a catalog and no instance in it under the
    barcode as the request spells it is archived or pending.  (Under another
    spelling archived data does leave: see [export_misses_spelling]; staged and
    verifying shards are never asked for: see [export_ignores_staged].) *)
Theorem export_guarded (persistent : bool) (str_of : exn → string) (env : op_env)
    (rq : tape_op_request) (p : plant) (Hop : rq_op_type rq = TapeOpType.EXPORT) :
  export_allowed persistent rq p (execute persistent str_of env rq p).2.
Proof.
  rewrite execute_eq. destruct (_validate_request rq p).1; [|by left].
  assert (_execute_locked persistent env rq (started env rq p) =
          _export persistent env rq (started env rq p)) as ->
    by (unfold _execute_locked, _dispatch; by rewrite Hop).
  pose proof (export_spec persistent env rq (started env rq p)) as Hspec.
  rewrite wp_unfold in Hspec.
  destruct (_export persistent env rq (started env rq p)) as [[d|e] p1]; exact Hspec.
Qed.

Lemma export_guarded_witness :
  export_allowed true (sample_request TapeOpType.EXPORT None None [("ie_slot", JInt 5)]) sample_plant
    (execute true (λ _, "") sample_env
       (sample_request TapeOpType.EXPORT None None [("ie_slot", JInt 5)]) sample_plant).2 ∧
  find_slot_by_barcode "TAPE01L8" (pl_library (execute true (λ _, "") sample_env
    (sample_request TapeOpType.EXPORT None None [("ie_slot", JInt 5)]) sample_plant).2) = Ok None.
Proof.
  split; [|vm_compute; reflexivity].
  apply (export_guarded true (λ _, "") sample_env
    (sample_request TapeOpType.EXPORT None None [("ie_slot", JInt 5)]) sample_plant).
  reflexivity.
Defined.

(** The guard looks at the barcode as it is spelled, the library at the
    cartridge: spelled in lower case, a cartridge with an archived file is exported
    without confirmation, where its own spelling is refused. *)
Theorem export_misses_spelling :
  let rq bc := TapeOpRequest TapeOpType.EXPORT bc None None None None None None "test" None 5
                 [("ie_slot", JInt 5)] None in
  let run bc := execute true (λ _, "") sample_env (rq bc) archived_plant in
  let at_ie x := slot_barcode <$> dget (ie_slots (pl_library x.2)) 5 in
  (run "TAPE01L8").1 = Raise ExportRefusedError ∧ at_ie (run "TAPE01L8") = Some None ∧
  is_ok (run "tape01l8").1 = true ∧ at_ie (run "tape01l8") = Some (Some "TAPE01L8").
Proof. vm_compute. by split_and!. Qed.

(** The export guard does not see the shards of a running or interrupted
    sharded archive: when every file on the cartridge is staged or being
    verified, it lets the cartridge go without confirmation. *)
Theorem export_ignores_staged (rq : tape_op_request) (p : plant)
    (Hstaged : ∀ i, on_tape (pl_catalog p) (rq_barcode rq) i → fi_state i ∈ staged_states) :
  _guard_export true rq p = (Ok tt, p).
Proof.
  unfold _guard_export. destruct (confirms_barcode rq); [done|]. monad_unfold. simpl.
  assert (carries_data (assess_export (pl_catalog p) (rq_barcode rq)) = false) as ->; [|done].
  apply carries_data_spec. intros i Hi. specialize (Hstaged i Hi).
  split; [by apply staged_not_archived|]. intros Heq. rewrite Heq in Hstaged.
  pose proof (bool_decide_eq_true_2 _ Hstaged) as Hb. vm_compute in Hb. discriminate.
Qed.

Lemma export_ignores_staged_witness :
  _guard_export true (sample_request TapeOpType.EXPORT None None [("ie_slot", JInt 5)]) staged_plant
    = (Ok tt, staged_plant) ∧
  length (list_instances_for_barcode "TAPE01L8" (pl_catalog staged_plant)) = 1%nat.
Proof.
  split; [|vm_compute; reflexivity].
  apply (export_ignores_staged (sample_request TapeOpType.EXPORT None None [("ie_slot", JInt 5)])
    staged_plant).
  intros i [Hi _]. vm_compute in Hi. apply list_elem_of_singleton in Hi as ->. vm_compute. left.
Defined.
