(* ===== verification/Mailslot.v ===== *)
(** The import/export station: openblade/nas/mailslot.py, the choice of elements
    and the two moves through the orchestrator, and its routes
    (openblade/api/routes_mailslot.py).

    The simulated library has a station, so the case of a backend without one is
    left out. *)
From stdpp Require Import base list option strings.
From Stdlib Require Import ZArith Lia.
From S2P Require Import Prelude Wp Domain Faults Library Ltfs Catalog Orchestrator.
#[local] Open Scope string_scope.
#[local] Open Scope Z_scope.

Record mailslot_slot := MailslotSlot {
  ml_slot_id : Z;
  ml_occupied : bool;
  ml_barcode : option string;
}.
Definition opt_text (o : option string) : json := match o with Some s => JStr s | None => JNull end.
Definition slot_to_dict (s : mailslot_slot) : json :=
  JObj [("slotId", JInt (ml_slot_id s)); ("occupied", JBool (ml_occupied s));
        ("barcode", opt_text (ml_barcode s))].

(** A [MailslotListing] is its slots. *)
Definition occupied (l : list mailslot_slot) : list mailslot_slot :=
  filter (λ s, ml_occupied s = true) l.
Definition occupied_barcodes (l : list mailslot_slot) : list string := omap ml_barcode (occupied l).
Definition slot_count (l : list mailslot_slot) : Z := Z.of_nat (length l).
Definition listing_to_dict (l : list mailslot_slot) : json :=
  JObj [("importExportSlots", JArr (slot_to_dict <$> l)); ("occupied", JArr (slot_to_dict <$> occupied l));
        ("slotCount", JInt (slot_count l)); ("occupiedCount", JInt (slot_count (occupied l)))].

Record mailslot_move_result := MailslotMoveResult {
  mv_op_id : string;
  mv_barcode : string;
  mv_source : string;
  mv_source_slot : Z;
  mv_destination : string;
  mv_destination_slot : Z;
  mv_slot_was_chosen : bool;
  mv_assessment : option export_assessment;
}.
Definition assessment_to_dict (a : export_assessment) : json :=
  JObj [("barcode", JStr (ea_barcode a)); ("volumeGroup", opt_text (ea_volume_group a));
        ("archivedFilesOnCartridge", JInt (ea_archived_files_on_cartridge a));
        ("pendingFilesOnCartridge", JInt (ea_pending_files_on_cartridge a));
        ("bytesOnCartridge", JInt (ea_bytes_on_cartridge a));
        ("samplePaths", JArr (JStr <$> ea_sample_paths a));
        ("volumeGroupBarcodesWithData", JArr (JStr <$> ea_volume_group_barcodes_with_data a));
        ("carriesData", JBool (carries_data a))].
Definition move_to_dict (r : mailslot_move_result) : json :=
  JObj ([("opId", JStr (mv_op_id r)); ("barcode", JStr (mv_barcode r)); ("source", JStr (mv_source r));
         ("sourceSlot", JInt (mv_source_slot r)); ("destination", JStr (mv_destination r));
         ("destinationSlot", JInt (mv_destination_slot r));
         ("destinationSlotChosen", JBool (mv_slot_was_chosen r))] ++
        match mv_assessment r with
        | Some a => [("exported", assessment_to_dict a)]
        | None => []
        end)%list.

(** The requests of the routes. *)
Inductive mailslot_call :=
| MailslotImport (ie_slot : Z) (to_slot : option Z)
| MailslotExport (bc : string) (ie_slot : option Z) (confirm_barcode : option string).

(** * The service *)
Section mailslot.
Context (str_of : exn → string) (env : op_env).

Definition list_slots (l : library) : list mailslot_slot :=
  (λ s, MailslotSlot (ss_slot_id s) (ss_occupied s) (ss_barcode s)) <$> import_export_slots l.

Definition preview_export (bc : string) (c : catalog) : export_assessment := assess_export c bc.

Definition _raise_if_failed (record : tape_op_record) : M plant unit :=
  raise_if (bool_decide (to_status record = TapeOpStatus.FAILED)) TapeOperationFailedError.

Definition _require_ie_slot (ie_slot : Z) (must_be_occupied : bool) : M plant slot_state :=
  ask (λ l, match find_element ie_slot (import_export_slots l) with
            | None => Raise ImportExportSlotError
            | Some s =>
                if must_be_occupied && negb (ss_occupied s) then Raise ImportExportSlotError
                else if negb must_be_occupied && ss_occupied s then Raise ImportExportSlotError
                else Ok s
            end).

(** The first element a test holds of. *)
Definition first_slot (p : slot_state → bool) (l : list slot_state) : option Z :=
  ss_slot_id <$> head (filter p l).

Definition _first_empty_ie_slot : M plant Z :=
  ask (λ l, match import_export_slots l with
            | [] => Raise ImportExportSlotError
            | slots =>
                match first_slot (λ s, negb (ss_occupied s)) slots with
                | Some k => Ok k
                | None => Raise ImportExportSlotError
                end
            end).

Definition _first_empty_storage_slot : M plant Z :=
  ask (λ l, match first_slot (λ s, bool_decide (ss_barcode s = None)) (Domain.inv_slots (inventory l)) with
            | Some k => Ok k
            | None => Raise ImportExportSlotError
            end).

Definition mailslot_request (ty : tape_op_type) (bc : string) (slot : Z) (extras : dict string json)
    : tape_op_request :=
  TapeOpRequest ty bc None (Some slot) None None None None "mailslot" None 5 extras None.

Definition import_through (ie_slot : Z) (to_slot : option Z) : M plant mailslot_move_result :=
  source ← _require_ie_slot ie_slot true;
  let bc := py_str (opt_text (ss_barcode source)) in
  target_slot ← match to_slot with None => _first_empty_storage_slot | Some k => mret k end;
  record ← execute true str_of env
             (mailslot_request TapeOpType.IMPORT bc target_slot [("ie_slot", JInt ie_slot)]);
  _raise_if_failed record;;
  mret (MailslotMoveResult (to_op_id record) bc "import_export_slot" ie_slot "storage_slot" target_slot
          (negb (is_some to_slot)) None).

Definition export_through (bc : string) (ie_slot : option Z) (confirm_barcode : option string)
    : M plant mailslot_move_result :=
  assessment ← gets (λ p, preview_export bc (pl_catalog p));
  source ← ask (λ l, Ok (first_slot (λ s, bool_decide (ss_barcode s = Some bc)) (Domain.inv_slots (inventory l))));
  match source with
  | None => raise CartridgeNotFoundError
  | Some source_slot =>
      target_ie ← match ie_slot with
                  | None => _first_empty_ie_slot
                  | Some k => ss_slot_id <$> _require_ie_slot k false
                  end;
      record ← execute true str_of env
                 (mailslot_request TapeOpType.EXPORT bc source_slot
                    [("ie_slot", JInt target_ie); ("confirmBarcode", opt_text confirm_barcode)]);
      _raise_if_failed record;;
      mret (MailslotMoveResult (to_op_id record) bc "storage_slot" source_slot "import_export_slot" target_ie
              (negb (is_some ie_slot)) (Some assessment))
  end.

Definition mailslot (call : mailslot_call) : M plant mailslot_move_result :=
  match call with
  | MailslotImport ie_slot to_slot => import_through ie_slot to_slot
  | MailslotExport bc ie_slot confirm_barcode => export_through bc ie_slot confirm_barcode
  end.

(** * The routes *)
Definition in_bounds (call : mailslot_call) : bool :=
  let nonneg o := match o with Some k => bool_decide (0 ≤ k) | None => true end in
  match call with
  | MailslotImport ie_slot to_slot => bool_decide (0 ≤ ie_slot) && nonneg to_slot
  | MailslotExport bc ie_slot _ => bool_decide (1 ≤ String.length bc ≤ 64)%nat && nonneg ie_slot
  end.

Definition status_of (call : mailslot_call) (e : exn) : exn :=
  let refused := match call with MailslotExport _ _ _ => [ExportRefusedError] | _ => [] end in
  if bool_decide (e ∈ (refused ++ [MailslotUnsupportedError; ImportExportSlotError])%list) then HTTPException 409
  else if bool_decide (e = CartridgeNotFoundError) then HTTPException 404
  else if bool_decide (e = TapeOperationFailedError) then HTTPException 502
  else e.

Definition mailslot_route (call : mailslot_call) : M plant mailslot_move_result :=
  raise_if (negb (in_bounds call)) (HTTPException 422);;
  try_except (mailslot call) (λ e, raise (status_of call e)).

Definition list_mailslot_slots : M plant json :=
  slots ← gets (λ p, list_slots (pl_library p));
  mret (JObj [("importExportSlots", JArr (slot_to_dict <$> slots)); ("slotCount", JInt (slot_count slots));
              ("occupiedCount", JInt (slot_count (occupied slots))); ("supported", JBool true)]).

(** Everywhere a cartridge can be. *)
Definition known_cartridge (bc : string) (p : plant) : bool :=
  let here o := bool_decide (o = Some bc) in
  existsb (λ s, here (ss_barcode s)) (Domain.inv_slots (inventory (pl_library p))) ||
  existsb (λ d, here (ds_barcode d)) (Domain.inv_drives (inventory (pl_library p))) ||
  existsb (λ s, here (ss_barcode s)) (import_export_slots (pl_library p)) ||
  is_some (get_cartridge bc (pl_catalog p)).

Definition preview_mailslot_export (bc : string) : M plant json :=
  raise_if (negb (bool_decide (1 ≤ String.length bc ≤ 64)%nat)) (HTTPException 422);;
  known ← gets (known_cartridge bc);
  raise_if (negb known) (HTTPException 404);;
  gets (λ p, assessment_to_dict (preview_export bc (pl_catalog p))).
End mailslot.

(** * What a move is *)

(** The elements a result names. *)
Definition ends_of (r : mailslot_move_result) : location * location :=
  if bool_decide (mv_source r = "storage_slot")
  then (AtSlot (mv_source_slot r), AtIe (mv_destination_slot r))
  else (AtIe (mv_source_slot r), AtSlot (mv_destination_slot r)).

(** The rows of cartridges are filed by identifier, one per barcode. *)
Definition cartridges_ok (c : catalog) : Prop :=
  dict_wf (ct_cartridges c) ∧
  ∀ k r, dget (ct_cartridges c) k = Some r → cr_id r = k ∧
    ∀ k' r', dget (ct_cartridges c) k' = Some r' → cr_barcode r' = cr_barcode r → k' = k.

Definition state_after (call : mailslot_call) : string :=
  match call with MailslotImport _ _ => "in_slot" | MailslotExport _ _ _ => "exported" end.

(** What the caller asked for: the elements named, the cartridge named, and for an
    export the typed confirmation unless no file on the tape is archived or pending. *)
Definition asked (call : mailslot_call) (r : mailslot_move_result) (p : plant) : Prop :=
  match call with
  | MailslotImport ie to =>
      ends_of r = (AtIe ie, AtSlot (mv_destination_slot r)) ∧ (∀ k, to = Some k → mv_destination_slot r = k)
  | MailslotExport bc ie confirm =>
      mv_barcode r = bc ∧ ends_of r = (AtSlot (mv_source_slot r), AtIe (mv_destination_slot r)) ∧
      (∀ k, ie = Some k → mv_destination_slot r = k) ∧
      (confirm = Some bc ∨ ∀ i, on_tape (pl_catalog p) bc i →
         fi_state i ∉ archived_states ∧ fi_state i ≠ enum_value FileInstanceState.PENDING)
  end.

Definition same_media_plant (p p' : plant) : Prop :=
  same_media (pl_library p) (pl_library p') ∧ pl_catalog p' = pl_catalog p.

Definition moved_as (call : mailslot_call) (r : mailslot_move_result) (p p' : plant) : Prop :=
  transferred (ends_of r).1 (ends_of r).2 (pl_library p) (pl_library p') ∧
  element (pl_library p) (ends_of r).1 = Some (Some (mv_barcode r)) ∧
  (∃ row, get_cartridge (mv_barcode r) (pl_catalog p') = Some row ∧ cr_state row = state_after call) ∧
  asked call r p.

(** * Lemmas *)

(** ** The row of a cartridge *)
Lemma get_cartridge_put c r :
  dict_wf (ct_cartridges c) → (∀ k r', dget (ct_cartridges c) k = Some r' → cr_barcode r' = cr_barcode r → k = cr_id r) →
  get_cartridge (cr_barcode r) (with_cartridges (dset (ct_cartridges c) (cr_id r) r) c) = Some r.
Proof.
  intros Hwf Hu. unfold get_cartridge, select_one, select.
  set (d := dset (ct_cartridges c) (cr_id r) r). change (ct_cartridges (with_cartridges d c)) with d.
  assert (∀ x, x ∈ filter (λ x, bool_decide (cr_barcode x = cr_barcode r)) (dvalues d) → x = r) as Hall.
  { intros x [Hx%bool_decide_spec Hin]%list_elem_of_filter.
    apply list_elem_of_fmap in Hin as ([k x'] & -> & Hk). cbn [snd] in *.
    apply elem_dget in Hk; [|by apply dict_wf_dset]. subst d. rewrite dget_dset in Hk.
    case_decide as Hid; [congruence|]. destruct Hid. symmetry. by apply (Hu k x'). }
  assert (r ∈ filter (λ x, bool_decide (cr_barcode x = cr_barcode r)) (dvalues d)) as Hr.
  { apply list_elem_of_filter. split; [by apply bool_decide_spec|]. apply list_elem_of_fmap.
    exists (cr_id r, r). split; [done|]. apply dget_Some_elem, dget_dset_eq. }
  destruct (filter _ (dvalues d)) as [|x l]; [by apply elem_of_nil in Hr|]. simpl. f_equal. apply Hall. by left.
Qed.

Lemma get_cartridge_row c bc r : dict_wf (ct_cartridges c) → get_cartridge bc c = Some r →
  cr_barcode r = bc ∧ ∃ k, dget (ct_cartridges c) k = Some r.
Proof.
  intros Hwf. unfold get_cartridge, select_one, select. intros Hg%head_Some_elem_of.
  apply list_elem_of_filter in Hg as [Hb%bool_decide_spec Hin]. split; [done|].
  apply list_elem_of_fmap in Hin as ([k r'] & -> & Hk). exists k. by apply elem_dget.
Qed.

Lemma get_cartridge_None c bc k r :
  get_cartridge bc c = None → dget (ct_cartridges c) k = Some r → cr_barcode r ≠ bc.
Proof.
  unfold get_cartridge, select_one, select. intros Hn%head_None Hk%dget_Some_elem Hb.
  assert (r ∈ filter (λ r, bool_decide (cr_barcode r = bc)) (dvalues (ct_cartridges c))) as Hin.
  { apply list_elem_of_filter. split; [by apply bool_decide_spec|]. apply list_elem_of_fmap. by exists (k, r). }
  rewrite Hn in Hin. by apply elem_of_nil in Hin.
Qed.

Lemma set_state_spec c bc st r :
  dict_wf (ct_cartridges c) → get_cartridge bc c = Some r →
  (∀ k r', dget (ct_cartridges c) k = Some r' → cr_barcode r' = bc → k = cr_id r) →
  ∃ row, get_cartridge bc (Catalog.set_cartridge_state bc st c).2 = Some row ∧ cr_state row = st.
Proof.
  intros Hwf Hg Hu. destruct (get_cartridge_row c bc r Hwf Hg) as [Hb _].
  unfold Catalog.set_cartridge_state. msimp. rewrite Hg. cbn [snd].
  match goal with |- context [dset _ _ ?row] =>
    exists row; pose proof (get_cartridge_put c row Hwf) as Hput end.
  cbn [cr_barcode cr_id cr_state] in *. split; [|done]. apply Hput. intros k r' Hk Hr'. by apply (Hu k r').
Qed.

Lemma record_state_spec env bc st p (Q : () → plant → Prop) E :
  cartridges_ok (pl_catalog p) → dget (ct_cartridges (pl_catalog p)) (oe_cartridge_id env) = None →
  (∀ p' row, pl_ltfs p' = pl_ltfs p → get_cartridge bc (pl_catalog p') = Some row → cr_state row = st →
     Q tt p') →
  wp (_record_cartridge_state true env bc st) Q E p.
Proof.
  intros [Hwf Hok] Hfresh HQ. set (c := pl_catalog p) in *.
  assert (∃ r c1, Catalog.add_cartridge (oe_cartridge_id env) (oe_now env) bc None c = (Ok r, c1) ∧
    dict_wf (ct_cartridges c1) ∧ get_cartridge bc c1 = Some r ∧
    (∀ k r', dget (ct_cartridges c1) k = Some r' → cr_barcode r' = bc → k = cr_id r)) as (r & c1 & Hadd & Hwf1 & Hg1 & Hu1).
  { unfold Catalog.add_cartridge. msimp. destruct (get_cartridge bc c) as [r|] eqn:Hg.
    - exists r, c. split_and!; [done..|]. destruct (get_cartridge_row c bc r Hwf Hg) as [Hb [k Hk]].
      destruct (Hok k r Hk) as [-> Hu]. intros k' r' Hk' Hb'. apply (Hu k' r'); congruence.
    - cbv delta [put_cartridge]. msimp. assert (∀ k r', dget (ct_cartridges c) k = Some r' → cr_barcode r' = bc → False) as Hno.
      { intros k r' Hk Hb. by apply (get_cartridge_None c bc k r'). }
      match goal with |- context [dset _ _ ?row] =>
        exists row; pose proof (get_cartridge_put c row Hwf) as Hput end.
      cbn [cr_barcode cr_id] in *. eexists. split_and!; [done| |apply Hput|].
      + simpl. by apply dict_wf_dset.
      + intros k r' Hk Hb. by destruct (Hno k r').
      + intros k r'. simpl. rewrite dget_dset. case_decide; [done|]. intros Hk Hb. by destruct (Hno k r'). }
  destruct (set_state_spec c1 bc st r Hwf1 Hg1 Hu1) as (row & Hrow & Hst).
  unfold _record_cartridge_state. apply wp_when; [intros _|done].
  apply wp_bind, wp_unfold. unfold on_catalog at 1, zoom. fold c. rewrite Hadd.
  apply wp_bind, wp_unfold. unfold on_catalog, zoom. cbn [pl_catalog].
  destruct (Catalog.set_cartridge_state bc st c1) as [res c2] eqn:Hset.
  assert (∃ o, res = Ok o) as [o ->].
  { unfold Catalog.set_cartridge_state in Hset. msimp. rewrite Hg1 in Hset. by simplify_eq; eexists. }
  by apply wp_ret, (HQ _ row).
Qed.

(** ** Elements *)
Lemma head_filter_spec {A} (f : A → bool) (l : list A) x : head (filter f l) = Some x → f x = true ∧ x ∈ l.
Proof. intros [Hx Hin]%head_Some_elem_of%list_elem_of_filter. split; [by destruct (f x)|done]. Qed.

(** A slot the inventory shows is the one filed under its number. *)
Lemma inventory_slot l k s : lib_inv l → s ∈ Domain.inv_slots (inventory l) → ss_slot_id s = k →
  element l (AtSlot k) = Some (ss_barcode s).
Proof.
  intros Hinv Hin <-. destruct (Library.inv_slots l Hinv) as [Hwf Hids]. unfold inventory in Hin.
  cbn [Domain.inv_slots] in Hin. apply list_elem_of_fmap in Hin as (sl & -> & Hsl).
  apply list_elem_of_fmap in Hsl as ([k sl'] & -> & Hk). rewrite Forall_forall in Hids.
  pose proof (Hids _ Hk) as Hid. cbn [slot_view ss_slot_id ss_barcode element snd fst] in *.
  apply elem_dget in Hk; [|done]. by rewrite Hid, Hk.
Qed.

Lemma insert_by_id_perm x l : insert_by_id x l ≡ₚ x :: l.
Proof.
  induction l as [|y l IH]; [done|]. simpl. case_bool_decide; [done|]. rewrite IH. apply Permutation_swap.
Qed.

Lemma sorted_by_id_perm l : foldr insert_by_id [] l ≡ₚ l.
Proof. induction l as [|x l IH]; [done|]. simpl. by rewrite insert_by_id_perm, IH. Qed.

Lemma ie_element l k s : lib_inv l → s ∈ import_export_slots l → ss_slot_id s = k →
  element l (AtIe k) = Some (ss_barcode s) ∧ ss_occupied s = is_some (ss_barcode s).
Proof.
  intros Hinv Hin <-. destruct (inv_ie l Hinv) as [Hwf Hids]. unfold import_export_slots in Hin.
  apply list_elem_of_fmap in Hin as (sl & -> & Hsl). split; [|done].
  pose proof (sorted_by_id_perm (dvalues (ie_slots l))) as Hp.
  rewrite Hp in Hsl. apply list_elem_of_fmap in Hsl as ([k sl'] & -> & Hk). rewrite Forall_forall in Hids.
  pose proof (Hids _ Hk) as Hid. cbn [slot_view ss_slot_id ss_barcode element snd fst] in *.
  apply elem_dget in Hk; [|done]. by rewrite Hid, Hk.
Qed.

Lemma find_element_spec k l s : find_element k l = Some s → s ∈ l ∧ ss_slot_id s = k.
Proof.
  unfold find_element. intros ([i s'] & Hf & ->)%fmap_Some. apply list_find_Some in Hf as (Hl & Hs & _).
  split; [by eapply list_elem_of_lookup_2|done].
Qed.

(** ** The moves of the orchestrator *)
Section moves.
Context (env : op_env).

(** After a move by the robot, what it did and the row. *)
Definition robot_moved (src dst : location) (bc st : string) (p p' : plant) : Prop :=
  transferred src dst (pl_library p) (pl_library p') ∧
  element (pl_library p) src = Some (Some bc) ∧
  ∃ row, get_cartridge bc (pl_catalog p') = Some row ∧ cr_state row = st.
Definition row_fresh (p : plant) : Prop :=
  dget (ct_cartridges (pl_catalog p)) (oe_cartridge_id env) = None.

End moves.

(** The two moves of the simulated library answer only once they are done. *)
Lemma wp_then {S A B} (m : M S A) (k : A → M S B) (Q : B → S → Prop) s :
  (∀ a s', wp (k a) Q (λ _ _, True) s') → wp (m ≫= k) Q (λ _ _, True) s.
Proof.
  intros Hk. apply wp_bind. eapply wp_mono; [apply wp_trivial| |done]. intros a s' _. apply Hk.
Qed.
Lemma wp_finally_pure {S A} (m : M S A) fin (P : A → Prop) s :
  (∀ s', wp m (λ a _, P a) (λ _ _, True) s') → wp (try_finally m fin) (λ a _, P a) (λ _ _, True) s.
Proof.
  intros Hm. apply wp_try_finally. eapply wp_mono; [apply Hm| |]; cbn beta.
  - intros a s' Ha. eapply wp_mono; [apply wp_trivial|done|done].
  - intros e s' _. apply wp_trivial.
Qed.

Ltac body_answers :=
  repeat first [apply wp_raise; exact I | apply wp_ret; reflexivity | apply wp_then; intros ? ? | wp_step].
Lemma import_success k k' l :
  wp (import_cartridge k k') (λ r _, op_success r = true) (λ _ _, True) l.
Proof.
  unfold import_cartridge. apply wp_then. intros _ s1. apply (wp_finally_pure _ _ (λ r, op_success r = true)).
  intros s2. apply wp_then. intros _ s3. unfold import_body. body_answers.
Qed.
Lemma export_success k k' l :
  wp (export_cartridge_to_ie k k') (λ r _, op_success r = true) (λ _ _, True) l.
Proof.
  unfold export_cartridge_to_ie. apply wp_then. intros _ s1. apply (wp_finally_pure _ _ (λ r, op_success r = true)).
  intros s2. apply wp_then. intros _ s3. unfold export_to_ie_body. body_answers.
Qed.

Section moves.
Context (env : op_env).

Lemma found_element bc k l : lib_inv l → Barcode bc = Ok bc →
  find_slot_by_barcode bc l = Ok (Some k) → element l (AtSlot k) = Some (Some bc).
Proof using Type.
  intros Hinv Hb. unfold find_slot_by_barcode. rewrite Hb. simpl.
  destruct (list_find _ _) as [[i [k' sl]]|] eqn:Hf; [|done]. intros [= ->].
  apply list_find_Some in Hf as (Hl & Hsl & _). apply list_elem_of_lookup_2 in Hl.
  apply elem_dget in Hl; [|apply (Library.inv_slots l Hinv)]. unfold element. by rewrite Hl, <-Hsl.
Qed.

Lemma wp_robot_move (m : M library operation_result) (f : operation_result → dict string json)
    src dst bc st p :
  changer_outcome src dst (pl_library p) (m (pl_library p)) →
  wp m (λ r _, op_success r = true) (λ _ _, True) (pl_library p) →
  element (pl_library p) src = Some (Some bc) →
  cartridges_ok (pl_catalog p) → row_fresh env p →
  wp (r ← on_lib m; _record_cartridge_state true env bc st;; mret (f r))
    (λ _ p', robot_moved src dst bc st p p') (λ _ p', same_media_plant p p') p.
Proof.
  intros Ho Hs Hel Hok Hfresh. apply wp_bind, wp_on_lib. pose proof (wp_run _ _ _ _ Hs) as Hrun. clear Hs.
  apply wp_unfold. unfold changer_outcome in Ho. destruct (m (pl_library p)) as [[r|e] l'].
  - cbn [fst snd] in Ho. rewrite (Hrun _ _ eq_refl) in Ho. apply wp_bind.
    apply record_state_spec; [done|done|]. intros p' row Hl Hrow Hst. apply wp_ret.
    split; [|split; [done|by exists row]]. unfold pl_library. rewrite Hl. exact Ho.
  - split; [apply Ho|done].
Qed.

Lemma import_move rq p :
  lib_inv (pl_library p) → cartridges_ok (pl_catalog p) → row_fresh env p →
  wp (_import true env rq)
    (λ _ p', ∃ ie t, _required_int (rq_extras rq) "ie_slot" = Ok ie ∧ rq_slot_id rq = Some t ∧
       robot_moved (AtIe ie) (AtSlot t) (rq_barcode rq) "in_slot" p p')
    (λ _ p', same_media_plant p p') p.
Proof.
  intros Hinv Hok Hfresh. assert (same_media_plant p p) as Hsame by done.
  unfold _import. wp_step. wp_step; [|done]. rename a into ie. wp_step.
  unfold _require_ie_element. apply wp_ask; [|done]. intros s Hs.
  destruct (find_element ie _) as [s'|] eqn:Hf; simplify_eq/=. apply find_element_spec in Hf as [Hin Hid].
  destruct (ie_element _ _ _ Hinv Hin Hid) as [Hel _]. destruct (ss_barcode s) as [b|]; [|by wp_step].
  wp_step. wp_step; [done|]. match goal with H : bool_decide (b ≠ _) = false |- _ =>
    apply bool_decide_eq_false in H; apply dec_stable in H as -> end.
  destruct (rq_slot_id rq) as [t|]; [|by wp_step]. wp_step.
  unfold _require_storage_slot. apply wp_ask; [|done]. intros target _. wp_step. wp_step; [done|].
  eapply wp_mono; [apply wp_robot_move; [by apply import_outcome|apply import_success|exact Hel|done|done]| |done].
  intros a p' Hp'. by exists ie, t.
Qed.

Lemma export_move rq p :
  Barcode (rq_barcode rq) = Ok (rq_barcode rq) → lib_inv (pl_library p) → cartridges_ok (pl_catalog p) → row_fresh env p →
  wp (_export true env rq)
    (λ _ p', ∃ src ie, _required_int (rq_extras rq) "ie_slot" = Ok ie ∧
       (rq_slot_id rq = None ∨ rq_slot_id rq = Some src) ∧
       robot_moved (AtSlot src) (AtIe ie) (rq_barcode rq) "exported" p p' ∧
       (confirms_barcode rq = true ∨ carries_data (assess_export (pl_catalog p) (rq_barcode rq)) = false))
    (λ _ p', same_media_plant p p') p.
Proof.
  intros Hbc Hinv Hok Hfresh. assert (same_media_plant p p) as Hsame by done.
  unfold _export. wp_step. apply wp_ask; [|done]. intros [src|] Hsrc; [|by wp_step].
  wp_step. wp_step; [done|]. wp_step.
  destruct (guard_cases true rq p) as [Hg|[Hg Hallow]]; apply wp_unfold; rewrite Hg; [done|].
  wp_step. wp_step; [|done]. rename a into ie. wp_step.
  unfold _require_ie_element. apply wp_ask; [|done]. intros target _. wp_step. wp_step; [done|].
  eapply wp_mono; [apply wp_robot_move; [by apply export_outcome|apply export_success| |done|done]| |done].
  - by eapply found_element.
  - intros a p' Hp'. exists src, ie. split_and!; [done| |done|].
    + destruct (rq_slot_id rq) as [s|]; [right|by left].
      match goal with H : bool_decide (s ≠ src) = false |- _ =>
        apply bool_decide_eq_false in H; apply dec_stable in H end. congruence.
    + destruct Hallow as [?|[_ ?]]; auto.
Qed.

(** ** Requests *)
Lemma execute_move str_of rq p (Good : plant → Prop) :
  (∀ d p', Good p' → Good (with_ops d p')) →
  wp (_execute_locked true env rq) (λ _, Good) (λ _ p', same_media_plant p p') (started env rq p) →
  wp (execute true str_of env rq)
    (λ row p', if bool_decide (to_status row = TapeOpStatus.FAILED) then same_media_plant p p' else Good p')
    (λ _ p', same_media_plant p p') p.
Proof using Type.
  intros Hops Hrun. apply wp_unfold. rewrite execute_eq.
  destruct (_validate_request rq p).1 as [u|e]; [|done].
  apply wp_unfold in Hrun. destruct (_execute_locked true env rq (started env rq p)) as [[d|e] p1].
  - cbn [final_record op_completed to_status]. by apply Hops.
  - by destruct (is_refusal e).
Qed.

Lemma robot_moved_ops src dst bc st p d p' :
  robot_moved src dst bc st p p' → robot_moved src dst bc st p (with_ops d p').
Proof using Type. done. Qed.

Lemma through_failed (row : tape_op_record) (k : M plant mailslot_move_result)
    (Q : mailslot_move_result → plant → Prop) (E : exn → plant → Prop) p' :
  (bool_decide (to_status row = TapeOpStatus.FAILED) = true → E TapeOperationFailedError p') →
  (bool_decide (to_status row = TapeOpStatus.FAILED) = false → wp k Q E p') →
  wp (_raise_if_failed row;; k) Q E p'.
Proof using Type. intros HE Hk. apply wp_bind. by apply wp_raise_if. Qed.

Lemma slot_valid l k b : lib_inv l → element l (AtSlot k) = Some (Some b) → Barcode b = Ok b.
Proof using Type.
  intros Hinv (sl & Hsl & Hb)%fmap_Some. pose proof (inv_valid l Hinv) as Hv. rewrite Forall_forall in Hv.
  apply Hv. unfold located, in_slots. rewrite !elem_of_app. left. left. apply list_elem_of_omap.
  exists sl. split; [|done]. apply list_elem_of_fmap. exists (k, sl). split; [done|]. by apply dget_Some_elem.
Qed.
End moves.

Section service.
Context (str_of : exn → string) (env : op_env).
Implicit Types p : plant.

Lemma import_through_spec ie to p :
  lib_inv (pl_library p) → cartridges_ok (pl_catalog p) → row_fresh env p →
  wp (import_through str_of env ie to) (λ r p', moved_as (MailslotImport ie to) r p p')
    (λ _ p', same_media_plant p p') p.
Proof using Type.
  intros Hinv Hok Hfresh. assert (same_media_plant p p) as Hsame by done.
  unfold import_through, _require_ie_slot. wp_step. apply wp_ask; [|done]. intros s Hs.
  destruct (find_element ie _) as [s'|] eqn:Hf; [|done]. destruct (ss_occupied s') eqn:Hocc; [|done].
  simplify_eq/=. apply find_element_spec in Hf as [Hin Hid].
  destruct (ie_element _ _ _ Hinv Hin Hid) as [Hel Hb]. rewrite Hocc in Hb.
  destruct (ss_barcode s) as [b|]; [|done]. cbn [opt_text py_str] in *. clear Hb.
  apply wp_bind. eapply wp_mono with (Q := λ k p', p' = p ∧ ∀ k', to = Some k' → k = k') (E := λ _ p', p' = p).
  { destruct to as [k|]; [by apply wp_ret; split; [|congruence]|].
    unfold _first_empty_storage_slot. apply wp_ask; [done|done]. }
  2: by intros e p' ->.
  intros target p' [-> Hto]. cbn beta. apply wp_bind. eapply wp_mono.
  - apply execute_move with (Good := λ p', robot_moved (AtIe ie) (AtSlot target) b "in_slot" p p'); [done|].
    eapply wp_mono; [apply import_move; [done..]| |done]. intros a p' (ie' & t & Hie & [= ->] & Hm).
    vm_compute in Hie. injection Hie as <-. exact Hm.
  - cbn beta. intros row p' Hrow. apply through_failed; intros Hst; rewrite Hst in Hrow; [done|].
    apply wp_ret. destruct Hrow as (Ht & Hsrc & Hrow). split_and!; [done..|]. split; [done|].
    intros k Hk. by apply Hto.
  - done.
Qed.

Lemma export_through_spec bc ie confirm p :
  lib_inv (pl_library p) → cartridges_ok (pl_catalog p) → row_fresh env p →
  wp (export_through str_of env bc ie confirm) (λ r p', moved_as (MailslotExport bc ie confirm) r p p')
    (λ _ p', same_media_plant p p') p.
Proof using Type.
  intros Hinv Hok Hfresh. assert (same_media_plant p p) as Hsame by done.
  unfold export_through. wp_step. wp_step. wp_step. apply wp_ask; [|done]. intros source [= <-].
  destruct (first_slot _ _) as [src|] eqn:Hfirst; [|by wp_step].
  assert (element (pl_library p) (AtSlot src) = Some (Some bc)) as Hel.
  { unfold first_slot in Hfirst. apply fmap_Some in Hfirst as (s & Hs & ->).
    apply head_filter_spec in Hs as [Hs%bool_decide_eq_true Hin]. rewrite <-Hs. by apply inventory_slot. }
  apply wp_bind. eapply wp_mono with (Q := λ k p', p' = p ∧ ∀ k', ie = Some k' → k = k') (E := λ _ p', p' = p).
  { destruct ie as [k|].
    - apply wp_fmap. unfold _require_ie_slot. apply wp_ask; [|done]. intros s Hs. split; [done|].
      destruct (find_element k _) as [s'|] eqn:Hf; [|done]. destruct (ss_occupied s'); [done|]. simplify_eq/=.
      apply find_element_spec in Hf as [_ ->]. congruence.
    - unfold _first_empty_ie_slot. apply wp_ask; [done|done]. }
  2: by intros e p' ->.
  intros target p' [-> Hie]. cbn beta. apply wp_bind. eapply wp_mono.
  - apply execute_move with (Good := λ p', robot_moved (AtSlot src) (AtIe target) bc "exported" p p' ∧
      (confirm = Some bc ∨ carries_data (assess_export (pl_catalog p) bc) = false)); [done|].
    eapply wp_mono; [apply export_move; [by eapply slot_valid|done..]| |done].
    intros a p' (src' & ie' & Hie' & [|[= <-]] & Hm & Hc); [done|]. vm_compute in Hie'. injection Hie' as <-. split; [exact Hm|].
    destruct Hc as [Hc|]; [left|by right]. unfold confirms_barcode in Hc. cbn in Hc.
    destruct confirm as [c|]; [|done]. by apply bool_decide_eq_true in Hc as ->.
  - cbn beta. intros row p' Hrow. apply through_failed; intros Hst; rewrite Hst in Hrow; [done|].
    apply wp_ret. destruct Hrow as ((Ht & Hsrc & Hrow) & Hc). split_and!; [done..|]. split_and!; [done..| |].
    { intros k Hk. by apply Hie. }
    destruct Hc as [?|Hc]; [by left | right; by apply carries_data_spec].
  - done.
Qed.
End service.

(** A plant with archived data on a tape. *)
Definition data_plant : plant :=
  Plant (with_instances [("a", sample_instance "a" "archived" 0)] empty_catalog) []
    (MockLTFSBackend sample_library 1000 no_faults NoInjector).

(** * Properties *)



(** * Examples *)

(** A cartridge with data is refused with 409, named or not; once its barcode is
    typed it leaves, and it comes back. *)
Example export_refused :
  (mailslot_route (λ _, "") sample_env (MailslotExport "TAPE01L8" (Some 5) (Some "tape01l8")) data_plant).1 =
  Raise (HTTPException 409).
Proof. by vm_compute. Qed.
Example export_and_import :
  let out := (mailslot_route (λ _, "") sample_env (MailslotExport "TAPE01L8" None (Some "TAPE01L8")) data_plant).2 in
  let back := (mailslot_route (λ _, "") sample_env (MailslotImport 5 (Some 4)) out).2 in
  (element (pl_library out) (AtIe 5), element (pl_library back) (AtSlot 4)) =
  (Some (Some "TAPE01L8"), Some (Some "TAPE01L8")).
Proof. by vm_compute. Qed.
