(* ===== verification/TapeJob.v ===== *)
(** What the jobs that write to and read from tapes have in common
    (jobs/sharded_archive.py and jobs/sharded_restore.py): the state they run
    over, what they meet while they run, their calls of the scheduler, of the
    tape orchestrator and of LTFS, and what those calls leave alone. *)
From stdpp Require Import base list option strings sets.
From Stdlib Require Import Ascii ZArith QArith Lia.
From S2P Require Import Prelude Wp Domain Paths Leases Catalog Faults Library Reconcile CatalogStore.
From S2P Require Import Scheduler Ltfs Orchestrator.
#[local] Open Scope string_scope.
#[local] Open Scope Z_scope.

(** * State *)

(** Beside the plant and the scheduler, the locals of the batch being archived
    ([mounts] by barcode, the slot each drive was loaded from, the instances
    staged, whether the job was fenced out) and those of the job. *)
Record tape_job := TapeJob {
  tj_plant : plant;
  tj_sched : scheduler;
  tj_tick : nat;
  tj_mounts : dict string mount_handle;
  tj_loaded : dict Z (option Z);
  tj_staged : list string;
  tj_fenced : bool;
  tj_errors : list string;
  tj_groups : list string;
}.
Definition with_cell (p : plant) (sc : scheduler) (n : nat) (s : tape_job) : tape_job :=
  TapeJob p sc n (tj_mounts s) (tj_loaded s) (tj_staged s) (tj_fenced s) (tj_errors s)
    (tj_groups s).
Definition with_locals (mounts : dict string mount_handle) (loaded : dict Z (option Z))
    (staged : list string) (fenced : bool) (s : tape_job) : tape_job :=
  TapeJob (tj_plant s) (tj_sched s) (tj_tick s) mounts loaded staged fenced (tj_errors s)
    (tj_groups s).
Definition with_report (errors groups : list string) (s : tape_job) : tape_job :=
  TapeJob (tj_plant s) (tj_sched s) (tj_tick s) (tj_mounts s) (tj_loaded s) (tj_staged s)
    (tj_fenced s) errors groups.
Definition with_mounted (d : dict string mount_handle) (s : tape_job) : tape_job :=
  with_locals d (tj_loaded s) (tj_staged s) (tj_fenced s) s.
Definition with_loaded (d : dict Z (option Z)) (s : tape_job) : tape_job :=
  with_locals (tj_mounts s) d (tj_staged s) (tj_fenced s) s.
Definition with_staged (l : list string) (s : tape_job) : tape_job :=
  with_locals (tj_mounts s) (tj_loaded s) l (tj_fenced s) s.
Definition with_error (e : string) (s : tape_job) : tape_job :=
  with_report (tj_errors s ++ [e])%list (tj_groups s) s.
Definition with_group (g : string) (s : tape_job) : tape_job :=
  with_report (tj_errors s) (tj_groups s ++ [g])%list s.

Definition tj_catalog (s : tape_job) : catalog := pl_catalog (tj_plant s).
Definition tj_ltfs (s : tape_job) : ltfs := pl_ltfs (tj_plant s).

Definition on_plant {A} (m : M plant A) : M tape_job A :=
  zoom tj_plant (λ p s, with_cell p (tj_sched s) (tj_tick s) s) m.
Definition catalog_op {A} (m : M catalog A) : M tape_job A := on_plant (on_catalog m).
Definition tape_op {A} (m : M ltfs A) : M tape_job A := on_plant (on_ltfs m).

(** A call of the scheduler, whose lease store is the catalog. *)
Definition sched_op {A} (m : M (catalog * scheduler) A) : M tape_job A :=
  zoom (λ s, (tj_catalog s, tj_sched s))
    (λ cs s, with_cell (Plant cs.1 (pl_ops (tj_plant s)) (tj_ltfs s)) cs.2 (tj_tick s) s) m.

(** The handle behind a reference the scheduler gave out. *)
Definition handle_at (ref : nat) : M tape_job drive_handle := λ s,
  match sd_handles (tj_sched s) !! ref with
  | Some h => (Ok h, s)
  | None => (Raise LookupError, s)
  end.

(** * Operations *)

(** What other processes do to the lease table and to the journal. *)
Notation others := (catalog → leases * list journal_entry).
Definition interfere (f : others) (c : catalog) : catalog :=
  let '(ls, js) := f c in with_journal js (with_lease_table ls c).

(** One round of a waiting [acquire_drives]. *)
Record waiting := Waiting {
  wt_uuid : nat → string;
  wt_now : Z;
  wt_monotonic : Z;
  wt_others : others;
}.
Definition round_of (x : waiting) : round (T := catalog) :=
  Round (wt_uuid x) (wt_now x) (wt_monotonic x) (interfere (wt_others x)).

(** What the job meets, tick by tick: the clock, the identifiers drawn, the
    readings of a tape request, the attempts of a durable journal entry that find
    the database locked, the start and the rounds of a waiting [acquire_drives],
    the doings of other processes, and the order in which the lanes of a batch
    come to run. *)
Record surroundings := Surroundings {
  w_now : nat → Z;
  w_uuid : nat → string;
  w_env : nat → op_env;
  w_busy : nat → list bool;
  w_wait : nat → Z * list waiting;
  w_others : nat → others;
  w_rank : nat → nat → Z;
}.

(** The threads of a pool in the order they come to run. *)
Definition by_rank {A} (rank : nat → Z) (ls : list A) : list A :=
  snd <$> sort_by (λ a b : nat * A, bool_decide (rank a.1 ≤ rank b.1)) (imap pair ls).

Section tape_job.
Context (str_of : exn → string) (w : surroundings) (job_id : string).

Definition tick {A} (f : nat → A) : M tape_job A := λ s,
  (Ok (f (tj_tick s)), with_cell (tj_plant s) (tj_sched s) (S (tj_tick s)) s).

Definition journal_op (event : string) (detail : dict string json) : M tape_job unit :=
  now ← tick (w_now w);
  catalog_op (journal now job_id event detail);;
  mret tt.

(** [scheduler.verify(handle)], after whatever other processes did. *)
Definition verify_handle (ref : nat) : M tape_job unit :=
  others ← tick (w_others w);
  now ← tick (w_now w);
  h ← handle_at ref;
  sched_op (λ '(c, sc), let c := interfere others c in (Scheduler.verify now h c, (c, sc))).

Definition tape_request (requested_by : string) (ty : tape_op_type) (bc : string)
    (drive_id slot_id : Z) : tape_op_request :=
  TapeOpRequest ty bc (Some drive_id) (Some slot_id) None None None None requested_by
    (Some job_id) 5 [] None.

Definition request_op (raise_on_failed : bool) (rq : tape_op_request) : M tape_job unit :=
  env ← tick (w_env w);
  on_plant (execute_tape_request true str_of env raise_on_failed rq);;
  mret tt.

(** The slot [handle] was loaded from: [loaded_slots.get(handle.physical)]. *)
Definition loaded_from (h : drive_handle) : M tape_job (option Z) :=
  gets (λ s, mjoin (dget (tj_loaded s) (physical h))).

(** Unmount every tape but keep going; the barcodes whose unmount failed. *)
Fixpoint unmount_all (forget : bool) (on_failure : string → M tape_job unit)
    (mounts : list (string * mount_handle)) : M tape_job (list string) :=
  match mounts with
  | [] => mret []
  | (bc, m) :: mounts =>
      r ← attempt (tape_op (Ltfs.unmount m));
      match r with
      | Ok _ =>
          when forget (modify (λ s, with_mounted (ddel (tj_mounts s) bc) s));;
          unmount_all forget on_failure mounts
      | Raise _ =>
          on_failure bc;;
          still_mounted ← unmount_all forget on_failure mounts;
          mret (bc :: still_mounted)
      end
  end.

(** [record_physical_state_unknown] over the job's handles. *)
Definition record_unknown (refs : list nat) (op bc : string) (drive : option Z)
    : M tape_job unit :=
  busy ← tick (w_busy w);
  now ← tick (w_now w);
  sched_op (record_physical_state_unknown busy now job_id op bc drive refs).

(** The drive of the last handle of the cartridge, as in a dict comprehension. *)
Definition drive_of_barcode (refs : list nat) (bc : string) (s : tape_job) : option Z :=
  dget (dict_of ((λ h, (dh_barcode h, physical h)) <$> deref refs (tj_sched s))) bc.

Definition ACQUIRE_TIMEOUT : Z := 300 * 1000000.

Definition acquire (barcodes : list string) : M tape_job (option (list nat)) :=
  wait ← tick (w_wait w);
  sched_op (acquire_drives wait.1 ACQUIRE_TIMEOUT (round_of <$> wait.2) barcodes).

Definition job_state_op (state : string) (error : option string) : M tape_job unit :=
  now ← tick (w_now w);
  catalog_op (update_job_state now job_id state error).

End tape_job.

(** * What the calls leave alone *)

(** A part of the catalog that leases, the journal and jobs are no part of. *)
Class Aside {B} (f : catalog → B) : Prop := {
  aside_leases : ∀ ls c, f (with_lease_table ls c) = f c;
  aside_journal : ∀ js c, f (with_journal js c) = f c;
  aside_jobs : ∀ js c, f (with_jobs js c) = f c;
}.
#[export] Hint Extern 0 (Aside _) => apply _ : preserves.
#[export] Instance instances_aside : Aside ct_instances.
Proof. by split. Qed.
#[export] Instance files_instances_aside : Aside (λ c, (ct_files c, ct_instances c)).
Proof. by split. Qed.

(** Every table but those of the jobs, of their leases and of their journal. *)
Notation tables := (λ c, (ct_files c, ct_instances c, (ct_volume_groups c, ct_cartridges c, ct_tokens c))).
#[export] Instance tables_aside : Aside tables.
Proof. by split. Qed.
Lemma tables_rows c c' :
  tables c' = tables c → (ct_files c', ct_instances c') = (ct_files c, ct_instances c).
Proof. by intros [= -> -> _ _ _]. Qed.

Definition mounts_ok (s : tape_job) : Prop :=
  Forall (λ kv, Barcode kv.1 = Ok (mh_barcode kv.2)) (tj_mounts s).

(** Steps that touch neither a part of the catalog nor a content. *)
Record calm {B} (f : catalog → B) (s s' : tape_job) : Prop := {
  q_catalog : f (tj_catalog s') = f (tj_catalog s);
  q_content : same_content (tj_ltfs s) (tj_ltfs s');
  q_staged : tj_staged s' = tj_staged s;
  q_mounts : mounts_ok s → mounts_ok s';
  q_tick : (tj_tick s ≤ tj_tick s')%nat;
}.
Arguments q_catalog {_ _} _ _ _.
Arguments q_content {_ _} _ _ _.
Arguments q_staged {_ _} _ _ _.
Arguments q_mounts {_ _} _ _ _.
Arguments q_tick {_ _} _ _ _.
#[export] Instance calm_preorder {B} (f : catalog → B) : PreOrder (calm f).
Proof.
  split; [by split|]. intros s1 s2 s3 [] []. split; [congruence|by etrans|congruence|auto|lia].
Qed.

(** Requests that only move the robot. *)
Lemma request_keeps {B} (f : plant → B) str_of env b rq :
  (∀ d p, f (with_ops d p) = f p) →
  (rq_op_type rq = TapeOpType.LOAD ∨ rq_op_type rq = TapeOpType.UNLOAD) →
  (∀ A (m : M library A), preserves (eq_on f) (on_lib m)) →
  preserves (eq_on f) (execute_tape_request true str_of env b rq).
Proof.
  intros Hops Hty Hlib p. unfold execute_tape_request.
  assert (preserves (eq_on f) (_execute_locked true env rq)) as Hrun.
  { unfold _execute_locked, _dispatch, _load, _unload, _find_empty_slot,
      _refuse_if_leased_by_another_job. destruct Hty as [-> | ->]; solve_preserves. }
  assert (preserves (eq_on f) (execute true str_of env rq)) as He.
  { intros p0. rewrite execute_eq. unfold eq_on. destruct (_validate_request rq p0).1; [|done].
    specialize (Hrun (started env rq p0)). destruct (_execute_locked true env rq _) as [r p1].
    simpl. unfold eq_on in Hrun. simpl in Hrun. rewrite Hops, Hrun. apply Hops. }
  assert (preserves (eq_on f) (record ← execute true str_of env rq;
    raise_if (b && bool_decide (to_status record = TapeOpStatus.FAILED)) TapeOperationFailedError;;
    mret record)) as Hall by (solve_preserves; exact He).
  specialize (Hall p). match type of Hall with eq_on _ _ (?x).2 => by destruct x end.
Qed.

Section calm.
Context (str_of : exn → string) (w : surroundings) (job_id : string).
Context {B} (f : catalog → B) `{!Aside f}.

Lemma catalog_op_calm {A} (m : M catalog A) :
  preserves (eq_on f) m → preserves (calm f) (catalog_op m).
Proof.
  intros Hm. unfold catalog_op, on_plant, on_catalog.
  eapply (preserves_zoom _ (eq_on (λ p, (f (pl_catalog p), pl_ltfs p)))).
  - eapply (preserves_zoom _ (eq_on f)); [exact Hm|]. unfold eq_on. simpl. by intros s t ->.
  - unfold eq_on. intros s p [= H1 H2]. split; simpl; try done. unfold tj_ltfs. simpl. by rewrite H2.
Qed.

Lemma tape_op_calm {A} (m : M ltfs A) :
  preserves same_content m → preserves (calm f) (tape_op m).
Proof.
  intros Hm s. unfold tape_op, on_plant, on_ltfs, zoom. specialize (Hm (tj_ltfs s)).
  unfold tj_ltfs in *. destruct (m _) as [r l]. by split.
Qed.

Lemma sched_op_calm {A} (m : M (catalog * scheduler) A) :
  preserves (eq_on (λ cs, f cs.1)) m → preserves (calm f) (sched_op m).
Proof.
  intros Hm s. unfold sched_op, zoom. specialize (Hm (tj_catalog s, tj_sched s)).
  destruct (m _) as [r cs]. by split.
Qed.

Lemma on_plant_calm {A} (m : M plant A) :
  preserves (eq_on pl_catalog) m → preserves (eq_on (λ p, media_of (pl_ltfs p))) m →
  preserves (calm f) (on_plant m).
Proof.
  intros Hc Hl s. unfold on_plant, zoom. specialize (Hc (tj_plant s)). specialize (Hl (tj_plant s)).
  unfold eq_on, media_of in *. destruct (m _) as [r p]. simpl in *. injection Hl as Ht _.
  split; unfold tj_catalog, tj_ltfs; simpl; try done; [by rewrite Hc|].
  intros b q. unfold tj_ltfs. simpl. by apply content_tapes.
Qed.

Lemma interfere_aside g c : f (interfere g c) = f c.
Proof. unfold interfere. destruct (g c). by rewrite aside_journal, aside_leases. Qed.

Lemma tick_calm {A} (g : nat → A) : preserves (calm f) (tick g).
Proof. intros s. split; simpl; done || lia. Qed.
Lemma handle_calm ref : preserves (calm f) (handle_at ref).
Proof. intros s. unfold handle_at. by destruct (_ !! _). Qed.
Lemma loaded_calm g : preserves (calm f) (modify (λ s, with_loaded (g s) s)).
Proof. by intros s. Qed.
Lemma report_calm errors groups : preserves (calm f) (modify (with_report errors groups)).
Proof. by apply preserves_modify. Qed.

Lemma journal_aside now job event d : preserves (eq_on f) (journal now job event d).
Proof. intros c. apply aside_journal. Qed.
Lemma durable_aside busy now job event d :
  preserves (eq_on f) (journal_durable busy now job event d).
Proof.
  intros c. rewrite journal_durable_spec. case_bool_decide; [done|]. apply aside_journal.
Qed.
Lemma job_state_aside now job state error :
  preserves (eq_on f) (update_job_state now job state error).
Proof. unfold update_job_state. solve_preserves. apply preserves_modify. intros c. apply aside_jobs. Qed.
Hint Resolve tick_calm handle_calm loaded_calm journal_aside durable_aside job_state_aside : preserves.

Lemma journal_op_calm event d : preserves (calm f) (journal_op w job_id event d).
Proof. unfold journal_op. solve_preserves. apply catalog_op_calm. auto with preserves. Qed.
Lemma job_state_calm state error : preserves (calm f) (job_state_op w job_id state error).
Proof. unfold job_state_op. solve_preserves. apply catalog_op_calm. auto with preserves. Qed.
Lemma verify_calm ref : preserves (calm f) (verify_handle w ref).
Proof.
  unfold verify_handle. solve_preserves. apply sched_op_calm. intros [c sc].
  apply interfere_aside.
Qed.
Lemma request_calm b who ty bc d slot :
  ty = TapeOpType.LOAD ∨ ty = TapeOpType.UNLOAD →
  preserves (calm f) (request_op str_of w b (tape_request job_id who ty bc d slot)).
Proof.
  intros Hty. unfold request_op. solve_preserves. apply on_plant_calm; apply request_keeps;
    try done; intros; auto with preserves.
Qed.
Hint Resolve journal_op_calm verify_calm request_calm : preserves.

Lemma unmount_all_calm forget g mounts :
  (∀ bc, preserves (calm f) (g bc)) → preserves (calm f) (unmount_all forget g mounts).
Proof.
  intros Hg. induction mounts as [|[bc m] mounts IH]; simpl; solve_preserves; try done.
  - apply tape_op_calm. auto with preserves.
  - apply preserves_modify. intros s. split; try done. unfold mounts_ok. simpl.
    generalize (tj_mounts s). clear. induction l as [|[b m] l IH]; simpl; [done|].
    rewrite Forall_cons. intros [? ?]. case_decide; [done|]. constructor; auto.
Qed.

Lemma record_unknown_calm refs op bc d : preserves (calm f) (record_unknown w job_id refs op bc d).
Proof.
  unfold record_unknown, record_physical_state_unknown. solve_preserves. apply sched_op_calm.
  solve_preserves. eapply (preserves_zoom _ (eq_on f)); [auto with preserves|].
  by intros [c sc] c' Hc.
Qed.

Lemma acquire_aside start timeout rs bcs :
  preserves (eq_on (λ cs, f cs.1)) (acquire_drives start timeout (round_of <$> rs) bcs).
Proof.
  assert (∀ uuid now bcs, preserves (eq_on (λ cs, f cs.1)) (acquire_attempt (T := catalog) uuid now bcs))
    as Hatt.
  { intros uuid now bs [c sc]. unfold acquire_attempt. do 2 (case_bool_decide; [done|]). simpl.
    unfold acquire_drive_leases. case_bool_decide; [done|]. destruct (acquire_rows _ _ _ _ _ _ _).
    unfold eq_on. simpl. apply aside_leases. }
  assert (∀ ls, preserves (eq_on (λ cs, f cs.1)) (register (T := catalog) ls)) as Hreg
    by by intros ls [].
  unfold acquire_drives. solve_preserves. induction rs as [|r rs IH]; simpl; [solve_preserves|].
  apply preserves_bind; [apply _|apply Hatt|]. intros [ls|].
  - unfold fmap, M_fmap. solve_preserves.
  - simpl. case_bool_decide; [solve_preserves|]. apply preserves_bind; [apply _| |intros _; exact IH].
    apply preserves_modify. intros [c sc]. unfold eq_on. simpl. apply interfere_aside.
Qed.

Lemma acquire_calm bcs : preserves (calm f) (acquire w bcs).
Proof. unfold acquire. solve_preserves. apply sched_op_calm, acquire_aside. Qed.
Lemma release_calm now refs : preserves (calm f) (sched_op (release_drives now refs)).
Proof. apply sched_op_calm. intros [c sc]. unfold eq_on. simpl. apply aside_leases. Qed.
Lemma heartbeat_calm now refs : preserves (calm f) (sched_op (Scheduler.heartbeat now refs)).
Proof. apply sched_op_calm. intros [c sc]. unfold eq_on. simpl. apply aside_leases. Qed.
Lemma record_drives_calm refs : preserves (calm f) (sched_op (record_physical_drives refs)).
Proof.
  apply sched_op_calm. intros [c sc]. unfold eq_on. simpl. revert c.
  induction (deref refs sc) as [|h hs IH]; intros c; simpl; [done|].
  rewrite IH. destruct (dh_physical_drive_id h); [|done]. simpl. unfold set_lease_physical_drive.
  case_match; [apply aside_leases | done].
Qed.
Lemma set_physical_calm d refs :
  preserves (calm f) (sched_op (modify (λ cs : catalog * scheduler,
                        (cs.1, update_handles (set_physical d) refs cs.2)))).
Proof. by apply sched_op_calm. Qed.

(** A mount and the entry made of it. *)
Lemma mount_op_calm uuid bc mode :
  preserves (calm f) (m ← tape_op (mount uuid bc mode);
                      modify (λ s, with_mounted (dset (tj_mounts s) bc m) s)).
Proof.
  apply preserves_wp. intros s. wp_step. unfold tape_op, on_plant, on_ltfs. do 2 wp_step.
  eapply wp_mono; [apply wp_and; [apply mount_barcode|apply (wp_preserves same_content)]| |];
    [apply mount_same_content| |by intros e l [_ Hl]; split].
  cbn beta. intros h l [Hb Hl]. wp_step. split; try done. unfold mounts_ok. simpl. intros Hm.
  by apply Forall_dset.
Qed.
End calm.

#[export] Hint Resolve tick_calm handle_calm loaded_calm report_calm journal_aside durable_aside
  job_state_aside journal_op_calm job_state_calm verify_calm request_calm record_unknown_calm
  acquire_calm release_calm heartbeat_calm record_drives_calm set_physical_calm mount_op_calm
  : preserves.

Lemma by_rank_perm {A} rank (ls : list A) : by_rank rank ls ≡ₚ ls.
Proof.
  unfold by_rank. rewrite sort_by_perm, fmap_imap. unfold compose. simpl.
  apply reflexive_eq, list_eq. intros i. rewrite list_lookup_imap. by destruct (ls !! i).
Qed.

(** A reading is always taken; an operation on the catalog or on the tapes is
    seen from the job. *)
Lemma wp_tick {A} (g : nat → A) (Q : A → tape_job → Prop) E s :
  Q (g (tj_tick s)) (with_cell (tj_plant s) (tj_sched s) (S (tj_tick s)) s) → wp (tick g) Q E s.
Proof. intros H. by apply wp_unfold. Qed.

Lemma catalog_op_state {A} (m : M catalog A) (Q : A → tape_job → Prop)
    (E : exn → tape_job → Prop) s :
  wp m (λ a c, Q a (with_cell (Plant c (pl_ops (tj_plant s)) (tj_ltfs s)) (tj_sched s) (tj_tick s) s))
       (λ e c, E e (with_cell (Plant c (pl_ops (tj_plant s)) (tj_ltfs s)) (tj_sched s) (tj_tick s) s))
     (tj_catalog s) →
  wp (catalog_op m) Q E s.
Proof. intros H. unfold catalog_op, on_plant, on_catalog. do 2 wp_step. exact H. Qed.
