(* ===== verification/Archive.v ===== *)
(** The sharded archive: openblade/jobs/sharded_archive.py over the scheduler,
    the catalog, the tape orchestrator and the simulated backends.

    Source files are read, never written: a file is its path and its content.
    The lanes of a batch are written by a thread each, to different tapes; here
    one after the other, every lane being run whatever became of the others.
    What the job draws, reads and meets comes from [surroundings], tick by tick. *)
From stdpp Require Import base list option strings pretty sets.
From Stdlib Require Import Ascii ZArith QArith Lia.
From S2P Require Import Prelude Wp Domain Paths Leases Catalog Faults Library Reconcile CatalogStore.
From S2P Require Import Scheduler Queue Bytes Shard Ltfs Orchestrator TapeJob.
#[local] Open Scope string_scope.
#[local] Open Scope Z_scope.

(** * Paths on tape *)

(** [os.path.normpath]: the components kept, last first. *)
Definition norm_step (absolute : bool) (acc : list string) (c : string) : list string :=
  if bool_decide (c = "" ∨ c = ".") then acc
  else if bool_decide (c ≠ "..") || bool_decide (head acc = Some "..") ||
          negb absolute && bool_decide (acc = [])
  then c :: acc
  else tail acc.

(** The anchor and the components of [PurePosixPath(os.path.normpath(s))]. *)
Definition norm_parts (s : string) : list string :=
  reverse (foldl (norm_step (bool_decide (path_root s ≠ ""))) [] (split_on "/"%char s)).
Definition norm_path (s : string) : string * list string := (path_root s, norm_parts s).

(** [path.name]. *)
Definition path_name (p : string * list string) : string := default "" (last p.2).

(** [p.relative_to(root)]. *)
Fixpoint strip_prefix (r l : list string) : option (list string) :=
  match r, l with
  | [], _ => Some l
  | x :: r, y :: l => if bool_decide (x = y) then strip_prefix r l else None
  | _ :: _, [] => None
  end.

Definition name_parts (p : string * list string) : list string := path_parts (path_name p).

Definition _stripe_tape_path (source_file source_root : string) : string :=
  let file_path := norm_path source_file in
  let root := norm_path source_root in
  let relative :=
    if bool_decide (file_path = root) then name_parts file_path
    else if bool_decide (file_path.1 = root.1) then
      match strip_prefix root.2 file_path.2 with
      | Some l => l
      | None => name_parts file_path
      end
    else name_parts file_path in
  let parts := filter (λ p, p ∉ [""; "."; ".."; "/"]) relative in
  let parts := if bool_decide (parts = []) then [path_name file_path] else parts in
  posix_path (join_parts ("/stripe" :: parts)).

Definition _shard_record_path (source_file : string) (shard_index : nat) : string :=
  source_file ++ "#shard" ++ zero_pad4 shard_index.

Definition TapePhysicalStateError : exn := OtherError "TapePhysicalStateError".
Definition PHYSICAL_STATE_UNKNOWN_TEXT : string :=
  "physical state unknown — reconcile before reuse".

Record source_file := SourceFile {
  src_path : string;
  src_content : bytes;
}.
Definition src_size (f : source_file) : Z := blen (src_content f).

(** [Path(p).name]. *)
Definition file_name (p : string) : string := default "" (last (path_parts p)).

Record archive_request := ShardedArchiveRequest {
  ar_source_path : string;
  ar_volume_group_name : string;
  ar_lane_barcodes : list string;
  ar_mode : shard_mode;
  ar_block_size : Z;
  ar_dry_run : bool;
}.

Record archive_result := ShardedArchiveResult {
  rs_job_id : string;
  rs_files_archived : Z;
  rs_bytes_archived : Z;
  rs_tapes_used : list string;
  rs_shard_group_ids : list string;
  rs_errors : list string;
}.

Definition _archive_profile (mode : shard_mode) : string := enum_value mode.

(** * Reports *)
Definition _JOB_ERROR_MAX_CHARS : nat := 2000.

Fixpoint str_join (sep : string) (l : list string) : string :=
  match l with
  | [] => ""
  | [x] => x
  | x :: l => x ++ sep ++ str_join sep l
  end.

Definition str_take (n : nat) (s : string) : string := String.substring 0 n s.

Definition _summarize_errors (errors : list string) : option string :=
  if bool_decide (errors = []) then None
  else
    let distinct := unique [] errors in
    let summary := pretty (length errors) ++ " shard batch failure(s); " ++
      pretty (length distinct) ++ " distinct: " ++ str_join " | " distinct in
    Some (if bool_decide (_JOB_ERROR_MAX_CHARS < String.length summary)%nat
          then str_take (_JOB_ERROR_MAX_CHARS - 3) summary ++ "..."
          else summary).

Section archive.
Context (str_of class_of : exn → string) (w : surroundings) (job_id : string).

Definition _load_barcode (ref : nat) : M tape_job (Z * option Z) :=
  h ← handle_at ref;
  loaded ← on_plant (ask (find_drive_by_barcode (dh_barcode h)));
  match loaded with
  | Some loaded_drive_id =>
      c ← gets tj_catalog;
      liftR (ensure_drive_reconciled c loaded_drive_id (Some (dh_barcode h)));;
      when (bool_decide (loaded_drive_id ≠ dh_drive_id h))
        (sched_op (modify (λ cs, (cs.1, update_handles (set_physical loaded_drive_id) [ref] cs.2))));;
      mret (loaded_drive_id, None)
  | None =>
      inventory ← gets (λ s, inventory (lt_library (tj_ltfs s)));
      match list_find (λ sl, ss_barcode sl = Some (dh_barcode h)) (Domain.inv_slots inventory) with
      | None => raise ValueError
      | Some (_, slot) =>
          c ← gets tj_catalog;
          liftR (ensure_drive_reconciled c (dh_drive_id h) (Some (dh_barcode h)));;
          request_op str_of w true (tape_request job_id "sharded-archive" TapeOpType.LOAD
                                        (dh_barcode h) (dh_drive_id h) (ss_slot_id slot));;
          mret (dh_drive_id h, Some (ss_slot_id slot))
      end
  end.

Definition _require_lane_room (bc : string) (size_bytes : Z) : M ltfs unit :=
  key ← ensure_tape bc;
  tape ← index_tape key;
  raise_if (negb (has_room_for (tp_capacity_bytes tape) (tp_used_bytes tape) size_bytes))
    TapeFullError.

Fixpoint clean_unload (still_mounted : list string) (refs : list nat)
    : M tape_job (list string) :=
  match refs with
  | [] => mret []
  | ref :: refs =>
      h ← handle_at ref;
      slot ← loaded_from h;
      failures ←
        match slot with
        | None => mret []
        | Some slot_id =>
            if bool_decide (dh_barcode h ∈ still_mounted) then mret [dh_barcode h]
            else
              r ← attempt (request_op str_of w true (tape_request job_id "sharded-archive" TapeOpType.UNLOAD (dh_barcode h)
                                              (physical h) slot_id);;
                           modify (λ s, with_loaded (ddel (tj_loaded s) (physical h)) s));
              match r with Ok _ => mret [] | Raise _ => mret [dh_barcode h] end
        end;
      more ← clean_unload still_mounted refs;
      mret (failures ++ more)%list
  end.

Definition _clean_unmount_and_unload (refs : list nat) : M tape_job unit :=
  mounts ← gets tj_mounts;
  still_mounted ← unmount_all true (λ _, mret tt) mounts;
  unload_failures ← clean_unload still_mounted refs;
  raise_if (bool_decide (still_mounted ++ unload_failures ≠ [])%list) TapePhysicalStateError.

Definition _job_error (e : exn) : string :=
  if bool_decide (e = TapePhysicalStateError) then PHYSICAL_STATE_UNKNOWN_TEXT
  else Queue.safe_job_error str_of class_of e.

Fixpoint best_effort_unload (all : list nat) (still_mounted : list string) (refs : list nat)
    : M tape_job bool :=
  match refs with
  | [] => mret false
  | ref :: refs =>
      h ← handle_at ref;
      slot ← loaded_from h;
      failed ←
        match slot with
        | None => mret false
        | Some slot_id =>
            if bool_decide (dh_barcode h ∈ still_mounted) then mret false
            else
              r ← attempt (request_op str_of w false (tape_request job_id "sharded-archive" TapeOpType.UNLOAD (dh_barcode h)
                                               (physical h) slot_id));
              match r with
              | Ok _ => mret false
              | Raise _ => record_unknown w job_id all "unload" (dh_barcode h) (Some (physical h));; mret true
              end
        end;
      more ← best_effort_unload all still_mounted refs;
      mret (failed || more)
  end.

(** [report]: an [errors] list was given, rather than [None]. *)
Definition _best_effort_unmount_and_unload (report : bool) (refs : list nat)
    : M tape_job unit :=
  s ← getS;
  still_mounted ← unmount_all false
    (λ bc, record_unknown w job_id refs "unmount" bc (drive_of_barcode refs bc s)) (tj_mounts s);
  unload_failed ← best_effort_unload refs still_mounted refs;
  errors ← gets tj_errors;
  when ((bool_decide (still_mounted ≠ []) || unload_failed) && report &&
        bool_decide (errors = []))
    (modify (with_error PHYSICAL_STATE_UNKNOWN_TEXT)).

Definition instances_detail : M tape_job (dict string json) :=
  gets (λ s, [("instances", JInt (Z.of_nat (length (tj_staged s))))]).

Definition _mark_verifying : M tape_job unit :=
  detail ← instances_detail;
  journal_op w job_id "verify_started" detail;;
  staged ← gets tj_staged;
  catalog_op (mark_instances_verifying staged);;
  journal_op w job_id "verify_finished" detail.

Definition barcodes_seen (i : library_inventory) : list string :=
  (omap ss_barcode (Domain.inv_slots i) ++ omap ds_barcode (Domain.inv_drives i))%list.

Definition _commit_staged (refs : list nat) : M tape_job unit :=
  seen ← gets (λ s, barcodes_seen (inventory (lt_library (tj_ltfs s))));
  wanted ← gets (λ s, dh_barcode <$> deref refs (tj_sched s));
  raise_if (bool_decide (filter (λ b, b ∉ seen) wanted ≠ [])) TapePhysicalStateError;;
  staged ← gets tj_staged;
  now ← tick (w_now w);
  catalog_op (mark_instances_archived now staged true);;
  detail ← instances_detail;
  journal_op w job_id "committed" detail.

(** ** Writing a batch *)

(** One lane of a batch: what goes where, with the checksum it must read back. *)
Record lane_plan := LanePlan {
  ln_barcode : string;
  ln_path : string;
  ln_content : bytes;
  ln_checksum : string;
}.

(** [_write_one] and [_write_shard]. *)
Definition write_lane (now : Z) (m : mount_handle) (l : lane_plan) : M ltfs unit :=
  _require_lane_room (ln_barcode l) (blen (ln_content l));;
  write_file now m (ln_content l) (posix_path (ln_path l));;
  st ← stat m (posix_path (ln_path l));
  raise_if (bool_decide (fs_checksum_sha256 st ≠ ln_checksum l)) ValueError.

(** Every lane runs, whatever becomes of the others; the failures. *)
Fixpoint run_lanes (ls : list lane_plan) : M tape_job (list exn) :=
  match ls with
  | [] => mret []
  | l :: ls =>
      now ← tick (w_now w);
      r ← attempt (s ← getS; m ← dindex (tj_mounts s) (ln_barcode l); tape_op (write_lane now m l));
      failures ← run_lanes ls;
      mret (match r with Ok _ => failures | Raise e => e :: failures end)
  end.

(** The lanes in the order they come to run; the first failure is raised. *)
Definition write_batch (ls : list lane_plan) : M tape_job unit :=
  rank ← tick (w_rank w);
  failures ← run_lanes (by_rank rank ls);
  match failures with [] => mret tt | e :: _ => raise e end.

Definition load_and_mount (refs : list nat) : M tape_job unit :=
  forM refs (λ ref,
    loaded ← _load_barcode ref;
    modify (λ s, with_loaded (dset (tj_loaded s) loaded.1 loaded.2) s));;
  sched_op (record_physical_drives refs);;
  forM refs (λ ref,
    verify_handle w ref;;
    h ← handle_at ref;
    uuid ← tick (w_uuid w);
    m ← tape_op (mount uuid (dh_barcode h) MountMode.READ_WRITE);
    modify (λ s, with_mounted (dset (tj_mounts s) (dh_barcode h) m) s)).

Definition create_record (path : string) (size_bytes : Z) (checksum vg_id : string)
    (sf : shard_fields) : M tape_job file_row :=
  uuid ← tick (w_uuid w);
  now ← tick (w_now w);
  catalog_op (create_file_record uuid now path size_bytes checksum vg_id sf).

Definition stage_instance (file_id bc tape_path : string) : M tape_job string :=
  uuid ← tick (w_uuid w);
  now ← tick (w_now w);
  i ← catalog_op (create_staged_instance uuid now job_id file_id bc tape_path
                    FileInstanceState.STAGING);
  mret (fi_id i).

(** The two instances of a lane: of the file and of its shard record. *)
Definition stage_lane (parent : string) (record : M tape_job file_row) (l : lane_plan)
    : M tape_job unit :=
  instance ← stage_instance parent (ln_barcode l) (ln_path l);
  shard_record ← record;
  shard_instance ← stage_instance (fl_id shard_record) (ln_barcode l) (ln_path l);
  modify (λ s, with_staged (tj_staged s ++ [instance; shard_instance])%list s).

(** Verified, unmounted, unloaded, then committed. *)
Definition verify_and_commit (refs : list nat) : M tape_job unit :=
  _mark_verifying;;
  now ← tick (w_now w);
  sched_op (Scheduler.heartbeat now refs);;
  forM refs (verify_handle w);;
  _clean_unmount_and_unload refs;;
  _commit_staged refs.

(** The body of a batch, up to how its instances are staged. *)
Definition archive_body (refs : list nat) (stage : M tape_job (list lane_plan))
    : M tape_job (list lane_plan) :=
  load_and_mount refs;;
  planned ← stage;
  forM refs (verify_handle w);;
  write_batch planned;;
  verify_and_commit refs;;
  mret planned.

Definition barcodes_detail (barcodes : list string) : dict string json :=
  [("barcodes", JArr (JStr <$> barcodes))].

(** [try: body except StaleLeaseError: ... raise except Exception as exc:
    failed(exc) finally: ...]. *)
Definition with_drives_held {A} (report : bool) (barcodes : list string) (refs : list nat)
    (body : M tape_job A) (failed : exn → M tape_job A) : M tape_job A :=
  modify (with_locals [] [] [] false);;
  try_finally
    (try_except body (λ e,
       if bool_decide (e = StaleLeaseError) then
         modify (λ s, with_locals (tj_mounts s) (tj_loaded s) (tj_staged s) true s);;
         journal_op w job_id "fenced_out" (barcodes_detail barcodes);;
         raise e
       else
         journal_op w job_id "failed" [("error", JStr (class_of e))];;
         failed e))
    (fenced_out ← gets tj_fenced;
     when (negb fenced_out) (_best_effort_unmount_and_unload report refs);;
     now ← tick (w_now w);
     sched_op (release_drives now refs)).

(** ** Stripe mode: whole files, one per lane *)
Definition stripe_lane (root : string) (f : source_file) (bc : string) : lane_plan :=
  LanePlan bc (_stripe_tape_path (src_path f) root) (src_content f)
    (compute_checksum (src_content f)).

Definition stage_stripe_item (root : string) (mode : shard_mode) (vg_id : string)
    (f : source_file) (bc : string) : M tape_job lane_plan :=
  let l := stripe_lane root f bc in
  let fields index parent :=
    ShardFields (Some 1) index None (Some (_archive_profile mode)) parent in
  file_record ← create_record (src_path f) (src_size f) (ln_checksum l) vg_id (fields None None);
  stage_lane (fl_id file_record)
    (create_record (_shard_record_path (src_path f) 0) (src_size f) (ln_checksum l) vg_id
       (fields (Some 0) (Some (fl_id file_record)))) l;;
  group ← tick (w_uuid w);
  modify (with_group group);;
  mret l.

Fixpoint stage_stripe (root : string) (mode : shard_mode) (vg_id : string)
    (batch : list (source_file * string)) : M tape_job (list lane_plan) :=
  match batch with
  | [] => mret []
  | (f, bc) :: batch =>
      l ← stage_stripe_item root mode vg_id f bc;
      planned ← stage_stripe root mode vg_id batch;
      mret (l :: planned)
  end.

Definition batch_bytes (batch : list (source_file * string)) : Z :=
  foldr (λ x n, src_size x.1 + n) 0 batch.

(** [None]: still waiting for the drives. *)
Definition archive_batch (root : string) (mode : shard_mode) (vg_id : string)
    (batch : list (source_file * string)) : M tape_job (option (Z * Z)) :=
  let batch_barcodes := unique [] batch.*2 in
  acquired ← acquire w batch_barcodes;
  match acquired with
  | None => mret None
  | Some refs =>
      journal_op w job_id "lease_acquired" (barcodes_detail batch_barcodes);;
      with_drives_held true batch_barcodes refs
        (planned ← archive_body refs (stage_stripe root mode vg_id batch);
         mret (Some (Z.of_nat (length planned), batch_bytes batch)))
        (λ e, modify (with_error (_job_error e));; mret (Some (0, 0)))
  end.

Fixpoint stripe_batches (lanes : list string) (index : nat) (current : list (source_file * string))
    (files : list source_file) : list (list (source_file * string)) :=
  match files with
  | [] => if bool_decide (length current = 0)%nat then [] else [current]
  | f :: files =>
      let current := (current ++ [(f, nth (index mod length lanes) lanes "")])%list in
      if bool_decide (length current = length lanes)
      then current :: stripe_batches lanes (S index) [] files
      else stripe_batches lanes (S index) current files
  end.

Fixpoint archive_batches (root : string) (mode : shard_mode) (vg_id : string) (files bytes : Z)
    (batches : list (list (source_file * string))) : M tape_job (option (Z * Z)) :=
  match batches with
  | [] => mret (Some (files, bytes))
  | batch :: batches =>
      r ← archive_batch root mode vg_id batch;
      match r with
      | None => mret None
      | Some (n, b) => archive_batches root mode vg_id (files + n) (bytes + b) batches
      end
  end.

Definition _archive_stripe (files : list source_file) (rq : archive_request) (vg_id : string)
    : M tape_job (option (Z * Z)) :=
  raise_if (bool_decide (files ≠ []) && bool_decide (ar_lane_barcodes rq = []))
    (OtherError "ZeroDivisionError");;
  archive_batches (ar_source_path rq) (ar_mode rq) vg_id 0 0
    (stripe_batches (ar_lane_barcodes rq) 0 [] files).

(** ** Block-stripe mode: one file over all lanes *)

(** [l[i]] on the temporary files. *)
Definition shard_file (tmp : list bytes) (sp : shard_spec) : bytes :=
  nth (Z.to_nat (sh_shard_index sp)) tmp [].

Definition shard_lane (tmp : list bytes) (sp : shard_spec) : lane_plan :=
  LanePlan (sh_barcode sp) (sh_tape_path sp) (shard_file tmp sp)
    (compute_checksum (shard_file tmp sp)).

Fixpoint stage_shards (f : source_file) (rq : archive_request) (vg_id parent : string) (total : Z)
    (tmp : list bytes) (specs : list shard_spec) : M tape_job (list lane_plan) :=
  match specs with
  | [] => mret []
  | sp :: specs =>
      let l := shard_lane tmp sp in
      stage_lane parent
        (create_record (_shard_record_path (src_path f) (Z.to_nat (sh_shard_index sp)))
           (blen (ln_content l)) (ln_checksum l) vg_id
           (ShardFields (Some total) (Some (sh_shard_index sp)) (Some (ar_block_size rq))
              (Some (_archive_profile (ar_mode rq))) (Some parent))) l;;
      planned ← stage_shards f rq vg_id parent total tmp specs;
      mret (l :: planned)
  end.

Definition stage_block_stripe (f : source_file) (rq : archive_request) (vg_id : string)
    (plan : shard_plan) : M tape_job (list lane_plan) :=
  let total := Z.of_nat (length (sp_shards plan)) in
  tmp ← liftR (mapR (λ sp, write_shard_to_tempfile (src_content f) (sh_shard_index sp) total
                             (ar_block_size rq)) (sp_shards plan));
  file_record ← create_record (src_path f) (sp_file_size plan) (sp_checksum_sha256 plan) vg_id
    (ShardFields (Some total) None (Some (ar_block_size rq)) (Some (_archive_profile (ar_mode rq)))
       None);
  stage_shards f rq vg_id (fl_id file_record) total tmp (sp_shards plan).

Definition _archive_block_stripe (f : source_file) (rq : archive_request) (vg_id : string)
    : M tape_job (option unit) :=
  group ← tick (w_uuid w);
  plan ← liftR (plan_block_stripe group (file_name (src_path f)) (src_content f)
                  (ar_lane_barcodes rq) "/block_stripe" (ar_block_size rq));
  modify (with_group (sp_shard_group_id plan));;
  acquired ← acquire w (ar_lane_barcodes rq);
  match acquired with
  | None => mret None
  | Some refs =>
      journal_op w job_id "lease_acquired" (barcodes_detail (ar_lane_barcodes rq));;
      with_drives_held false (ar_lane_barcodes rq) refs
        (archive_body refs (stage_block_stripe f rq vg_id plan);; mret (Some tt))
        raise
  end.

Fixpoint archive_files (rq : archive_request) (vg_id : string) (n bytes : Z)
    (files : list source_file) : M tape_job (option (Z * Z)) :=
  match files with
  | [] => mret (Some (n, bytes))
  | f :: files =>
      r ← attempt (_archive_block_stripe f rq vg_id);
      match r with
      | Ok None => mret None
      | Ok (Some _) => archive_files rq vg_id (n + 1) (bytes + src_size f) files
      | Raise e => modify (with_error (_job_error e));; archive_files rq vg_id n bytes files
      end
  end.

(** ** The job *)
Definition ensure_catalogued (rq : archive_request) : M tape_job string :=
  uuid ← tick (w_uuid w);
  now ← tick (w_now w);
  group ← catalog_op (create_volume_group uuid now (ar_volume_group_name rq));
  forM (ar_lane_barcodes rq) (λ bc,
    c ← gets tj_catalog;
    when (negb (is_some (get_cartridge bc c)))
      (uuid ← tick (w_uuid w);
       now ← tick (w_now w);
       catalog_op (Catalog.add_cartridge uuid now bc (Some (vg_id group)));;
       mret tt));;
  mret (vg_id group).

Definition job_result (rq : archive_request) (n bytes : Z) (groups errors : list string)
    : archive_result :=
  ShardedArchiveResult job_id n bytes (ar_lane_barcodes rq) groups errors.

(** [files] are the files found under the source path, sorted. *)
Definition run_sharded_archive (rq : archive_request) (files : list source_file)
    : M tape_job (option archive_result) :=
  job_state_op w job_id "running" None;;
  if ar_dry_run rq then
    job_state_op w job_id "completed" None;;
    mret (Some (job_result rq (Z.of_nat (length files))
                  (foldr (λ f n, src_size f + n) 0 files) [] []))
  else if bool_decide (length files = 0)%nat then
    job_state_op w job_id "completed" None;;
    mret (Some (job_result rq 0 0 [] []))
  else
    vg ← ensure_catalogued rq;
    modify (with_report [] []);;
    counts ←
      (if bool_decide (ar_mode rq = ShardMode.BLOCK_STRIPE) &&
          bool_decide (2 ≤ length (ar_lane_barcodes rq))%nat
       then archive_files rq vg 0 0 files
       else _archive_stripe files rq vg);
    match counts with
    | None => mret None
    | Some (n, bytes) =>
        s ← getS;
        let errors := tj_errors s in
        job_state_op w job_id (if bool_decide (errors = []) then "completed" else "failed_recoverable")
          (_summarize_errors errors);;
        mret (Some (job_result rq n bytes (tj_groups s) errors))
    end.
End archive.

(** * Lemmas *)

(** ** Steps that touch neither the instances nor the contents *)
Notation quiet := (calm ct_instances).
Notation same_instances := (eq_on ct_instances).

Section calm_flow.
Context (str_of class_of : exn → string) (w : surroundings) (job_id : string).
Context {B} (f : catalog → B) `{!Aside f}.

Lemma load_calm ref : preserves (calm f) (_load_barcode str_of w job_id ref).
Proof. unfold _load_barcode. solve_preserves. apply on_plant_calm; auto with preserves. Qed.
Hint Resolve load_calm : preserves.

Lemma clean_unload_calm still refs :
  preserves (calm f) (clean_unload str_of w job_id still refs).
Proof. induction refs; simpl; unfold loaded_from; solve_preserves. Qed.
Hint Resolve clean_unload_calm : preserves.
Lemma clean_calm refs : preserves (calm f) (_clean_unmount_and_unload str_of w job_id refs).
Proof.
  unfold _clean_unmount_and_unload. solve_preserves. apply unmount_all_calm. solve_preserves.
Qed.

Lemma best_effort_unload_calm all still refs :
  preserves (calm f) (best_effort_unload str_of w job_id all still refs).
Proof. induction refs; simpl; unfold loaded_from; solve_preserves. Qed.
Hint Resolve best_effort_unload_calm : preserves.
Lemma best_effort_calm report refs :
  preserves (calm f) (_best_effort_unmount_and_unload str_of w job_id report refs).
Proof.
  unfold _best_effort_unmount_and_unload. solve_preserves.
  apply unmount_all_calm. solve_preserves.
Qed.

Lemma load_and_mount_calm refs : preserves (calm f) (load_and_mount str_of w job_id refs).
Proof. unfold load_and_mount. solve_preserves. Qed.
End calm_flow.
#[export] Hint Resolve load_and_mount_calm clean_calm best_effort_calm : preserves.

Section flow.
Context (str_of class_of : exn → string) (w : surroundings) (job_id : string).

Lemma create_file_instances uuid now path size sum vg sf :
  preserves same_instances (create_file_record uuid now path size sum vg sf).
Proof. unfold create_file_record, put_file. solve_preserves. Qed.
Lemma volume_group_instances uuid now name :
  preserves same_instances (create_volume_group uuid now name).
Proof. unfold create_volume_group. solve_preserves. Qed.
Lemma cartridge_instances uuid now bc vg :
  preserves same_instances (Catalog.add_cartridge uuid now bc vg).
Proof. unfold Catalog.add_cartridge, put_cartridge. solve_preserves. Qed.
Hint Resolve create_file_instances volume_group_instances cartridge_instances : preserves.

(** ** Rows *)

(** The instances are keyed by their identifiers, and those still to be drawn
    are unused. *)
Definition inst_ok (s : tape_job) : Prop :=
  instances_wf (tj_catalog s) ∧
  ∀ n, (tj_tick s ≤ n)%nat → dget (ct_instances (tj_catalog s)) (w_uuid w n) = None.

Definition archived_in (c : catalog) (id : string) (r : instance_row) : Prop :=
  dget (ct_instances c) id = Some r ∧ fi_state r ∈ archived_states.
Definition archived_same (c c' : catalog) : Prop :=
  ∀ id r, archived_in c' id r ↔ archived_in c id r.

Definition row_of (l : lane_plan) (r : instance_row) : Prop :=
  fi_barcode r = ln_barcode l ∧ fi_tape_path r = posix_path (ln_path l).

(** Where a lane goes, and that its content is there. *)
Definition location (l : lane_plan) : string * string :=
  (upper (ln_barcode l), posix_path (ln_path l)).
Definition on_tape (t : ltfs) (l : lane_plan) : Prop :=
  content_at t (location l).1 (location l).2 = Some (ln_content l).

Lemma quiet_inst s s' : quiet s s' → inst_ok s → inst_ok s' ∧ archived_same (tj_catalog s) (tj_catalog s').
Proof.
  intros [Hi _ _ _ Ht] [[Hd Hk] Hf]. split; [split; [split|]|]; try by rewrite Hi.
  - intros n Hn. rewrite Hi. apply Hf. lia.
  - intros id r. unfold archived_in. by rewrite Hi.
Qed.

(** Steps that archive nothing, and change no content. *)
Record unarchived (s s' : tape_job) : Prop := {
  u_content : same_content (tj_ltfs s) (tj_ltfs s');
  u_mounts : mounts_ok s → mounts_ok s';
  u_inst : inst_ok s → inst_ok s' ∧ archived_same (tj_catalog s) (tj_catalog s');
}.
#[local] Instance unarchived_preorder : PreOrder unarchived.
Proof.
  split; [by split|]. intros s1 s2 s3 [H1 H2 H3] [H4 H5 H6]. split; [by etrans|auto|].
  intros H. apply H3 in H as [H Ha]. apply H6 in H as [H Hb]. split; [done|].
  intros id r. by rewrite (Hb id r), (Ha id r).
Qed.

Lemma quiet_unarchived s s' : quiet s s' → unarchived s s'.
Proof. intros Hq. split; [apply Hq | apply Hq | by apply quiet_inst]. Qed.
Lemma preserves_quiet {A} (m : M tape_job A) : preserves quiet m → preserves unarchived m.
Proof. apply preserves_impl, quiet_unarchived. Qed.
Hint Resolve preserves_quiet : preserves.

Lemma staged_row_outcome uuid now file bc path c :
  wp (create_staged_instance uuid now job_id file bc path FileInstanceState.STAGING)
    (λ i c', fi_id i = uuid ∧ fi_barcode i = bc ∧ fi_tape_path i = posix_path path ∧
       fi_state i = enum_value FileInstanceState.STAGING ∧
       ct_instances c' = dset (ct_instances c) uuid i)
    (λ _ c', c' = c) c.
Proof.
  unfold create_staged_instance. do 2 wp_step; [done|]. do 2 wp_step. wp_step; [|done].
  cbv zeta. unfold put_instance. by repeat wp_step.
Qed.

(** Rows stand for the lanes planned so far, in state [st]. *)
Record staged_rows (st : string) (planned : list lane_plan) (s : tape_job) : Prop := {
  sr_ids : ∀ id, id ∈ tj_staged s → ∃ l r, l ∈ planned ∧
    dget (ct_instances (tj_catalog s)) id = Some r ∧ row_of l r ∧ fi_state r = st;
  sr_lanes : ∀ l, l ∈ planned → ∃ id r, id ∈ tj_staged s ∧
    dget (ct_instances (tj_catalog s)) id = Some r ∧ row_of l r;
}.

Lemma staged_rows_quiet st planned s s' :
  quiet s s' → staged_rows st planned s → staged_rows st planned s'.
Proof. intros [Hi _ Hs _ _] [H1 H2]. by split; rewrite Hi, Hs. Qed.

(** ** Staging *)
Context `{!Inj (=) (=) (w_uuid w)}.

Lemma inst_ok_dset s s' id r :
  inst_ok s → dget (ct_instances (tj_catalog s)) id = None → fi_id r = id →
  (∃ n, (tj_tick s ≤ n < tj_tick s')%nat ∧ id = w_uuid w n) →
  ct_instances (tj_catalog s') = dset (ct_instances (tj_catalog s)) id r → inst_ok s'.
Proof.
  intros [[Hd Hk] Hf] Hnone Hid (n & Hn & ->) Heq. split; [split|]; rewrite Heq.
  - by apply dict_wf_dset.
  - intros id' r'. rewrite dget_dset. case_decide; [congruence | apply Hk].
  - intros m Hm. rewrite dget_dset_ne; [apply Hf; lia|]. intros Heq'. simplify_eq. lia.
Qed.

Lemma stage_instance_spec file bc path s :
  wp (stage_instance w job_id file bc path)
    (λ id s', tj_ltfs s' = tj_ltfs s ∧ tj_mounts s' = tj_mounts s ∧ tj_staged s' = tj_staged s ∧
       ∃ r, fi_id r = id ∧ fi_barcode r = bc ∧ fi_tape_path r = posix_path path ∧
         fi_state r = enum_value FileInstanceState.STAGING ∧
         ct_instances (tj_catalog s') = dset (ct_instances (tj_catalog s)) id r ∧
         (inst_ok s → dget (ct_instances (tj_catalog s)) id = None ∧ inst_ok s'))
    (λ _ s', quiet s s') s.
Proof.
  unfold stage_instance. wp_step. apply wp_tick. wp_step. apply wp_tick. wp_step.
  apply catalog_op_state. eapply wp_mono; [apply staged_row_outcome| |].
  - intros i c (Hid & Hbc & Hp & Hst & Hc). wp_step. split_and!; try done.
    exists i. split_and!; try done; [by rewrite Hid|]. rewrite Hid. intros Hok.
    assert (dget (ct_instances (tj_catalog s)) (w_uuid w (tj_tick s)) = None) as Hnone
      by (apply Hok; lia).
    split; [done|]. eapply inst_ok_dset; [exact Hok | exact Hnone | exact Hid | | exact Hc].
    exists (tj_tick s). simpl. split; [lia | done].
  - intros e c ->. split; try done. simpl. lia.
Qed.

Lemma stage_instance_unarchived file bc path :
  preserves unarchived (stage_instance w job_id file bc path).
Proof.
  apply preserves_wp. intros s. eapply wp_mono; [apply stage_instance_spec| |].
  2: { intros e s' Hq. by apply quiet_unarchived. }
  intros id s' (Hl & Hm & _ & r & Hid & _ & _ & Hst & Hc & Hok). split.
  - by rewrite Hl.
  - unfold mounts_ok. by rewrite Hm.
  - intros [Hnone Hok']%Hok. split; [done|]. intros id' r'. unfold archived_in. rewrite Hc, dget_dset.
    case_decide; [|done]. subst id'. rewrite Hnone. split; [|by intros []]. intros [[= <-] Ha].
    exfalso. revert Ha. rewrite Hst. by apply staged_not_archived; left.
Qed.
Hint Resolve stage_instance_unarchived : preserves.

Lemma create_record_quiet path size sum vg sf : preserves quiet (create_record w path size sum vg sf).
Proof. unfold create_record. solve_preserves. apply catalog_op_calm. auto with preserves. Qed.
Lemma staged_unarchived f : preserves unarchived (modify (λ s, with_staged (f s) s)).
Proof. by apply preserves_modify. Qed.
Lemma group_quiet g : preserves quiet (modify (with_group g)).
Proof. by apply preserves_modify. Qed.
Hint Resolve create_record_quiet staged_unarchived group_quiet : preserves.

Lemma stage_lane_unarchived parent record l :
  preserves quiet record → preserves unarchived (stage_lane w job_id parent record l).
Proof. intros Hr. unfold stage_lane. solve_preserves. Qed.
Hint Resolve stage_lane_unarchived : preserves.

Notation STAGING := (enum_value FileInstanceState.STAGING).

Lemma staged_rows_snoc planned l s s' i1 i2 r1 r2 :
  staged_rows STAGING planned s →
  (∀ id r, dget (ct_instances (tj_catalog s)) id = Some r →
           dget (ct_instances (tj_catalog s')) id = Some r) →
  tj_staged s' = (tj_staged s ++ [i1; i2])%list →
  dget (ct_instances (tj_catalog s')) i1 = Some r1 → row_of l r1 → fi_state r1 = STAGING →
  dget (ct_instances (tj_catalog s')) i2 = Some r2 → row_of l r2 → fi_state r2 = STAGING →
  staged_rows STAGING (planned ++ [l]) s'.
Proof.
  intros [Hids Hl] Hold Hs H1 Hr1 Ht1 H2 Hr2 Ht2. split; rewrite Hs.
  - intros id [Hid|Hid]%elem_of_app.
    + destruct (Hids id Hid) as (l' & r & Hl' & Hr & ?). exists l', r.
      rewrite elem_of_app. split_and!; [by left | by apply Hold | naive_solver..].
    + assert (l ∈ planned ++ [l])%list as Hin by (rewrite elem_of_app; right; by left).
      apply elem_of_cons in Hid as [->|[->|[]%elem_of_nil]%elem_of_cons]; eauto 8.
  - intros l' [Hl'|Hl'%list_elem_of_singleton]%elem_of_app; [|subst l'].
    + destruct (Hl l' Hl') as (id & r & Hid & Hr & ?). exists id, r. rewrite elem_of_app. auto.
    + exists i1, r1. rewrite elem_of_app. split_and!; [right; by left | done..].
Qed.

Lemma stage_lane_spec parent record l planned s :
  preserves quiet record → inst_ok s → staged_rows STAGING planned s →
  wp (stage_lane w job_id parent record l)
    (λ _ s', inst_ok s' ∧ staged_rows STAGING (planned ++ [l]) s') (λ _ _, True) s.
Proof.
  intros Hrec Hok Hrows. unfold stage_lane. wp_step.
  eapply wp_mono; [apply stage_instance_spec| |done]. cbn beta.
  intros i1 s1 (_ & _ & Hs1 & r1 & _ & Hb1 & Hp1 & Ht1 & Hc1 & Hok1).
  destruct (Hok1 Hok) as [Hn1 Hok1']. clear Hok1. wp_step.
  eapply wp_mono; [apply (wp_preserves quiet), Hrec| |done]. intros rec s2 Hq.
  destruct (quiet_inst _ _ Hq Hok1') as [Hok2 _]. destruct Hq as [Hi2 _ Hs2 _ _]. wp_step.
  eapply wp_mono; [apply stage_instance_spec| |done]. cbn beta.
  intros i2 s3 (_ & _ & Hs3 & r2 & _ & Hb2 & Hp2 & Ht2 & Hc2 & Hok3).
  destruct (Hok3 Hok2) as [Hn2 Hok3']. wp_step. split; [exact Hok3'|].
  rewrite Hi2, Hc1 in Hn2.
  assert (dget (dset (ct_instances (tj_catalog s)) i1 r1) i1 = Some r1) as Hg1 by apply dget_dset_eq.
  assert (i1 ≠ i2) as Hne by congruence.
  set (s4 := with_staged _ s3).
  assert (ct_instances (tj_catalog s4) = dset (dset (ct_instances (tj_catalog s)) i1 r1) i2 r2)
    as Hfin by (change (tj_catalog s4) with (tj_catalog s3); congruence).
  eapply (staged_rows_snoc _ _ s s4 i1 i2 r1 r2); try done; rewrite ?Hfin.
  - intros id r Hid. rewrite !dget_dset_ne; [done|congruence|]. intros ->.
    rewrite dget_dset_ne in Hn2 by congruence. congruence.
  - simpl. congruence.
  - by rewrite dget_dset_ne.
  - apply dget_dset_eq.
Qed.

Definition stripe_lanes (root : string) (batch : list (source_file * string)) : list lane_plan :=
  (λ x, stripe_lane root x.1 x.2) <$> batch.

(** What a batch needs of the way its instances are staged. *)
Definition stages (planned : list lane_plan) (stage : M tape_job (list lane_plan)) : Prop :=
  preserves unarchived stage ∧
  ∀ s, inst_ok s → tj_staged s = [] →
    wp stage (λ pl s', pl = planned ∧ inst_ok s' ∧ staged_rows STAGING planned s') (λ _ _, True) s.

Lemma no_staged_rows st s : tj_staged s = [] → staged_rows st [] s.
Proof. intros Hs. split; [|by intros l ?%elem_of_nil]. intros id. by rewrite Hs, elem_of_nil. Qed.

Lemma stage_stripe_spec root mode vg batch done s :
  inst_ok s → staged_rows STAGING done s →
  wp (stage_stripe w job_id root mode vg batch)
    (λ pl s', pl = stripe_lanes root batch ∧ inst_ok s' ∧ staged_rows STAGING (done ++ pl) s')
    (λ _ _, True) s.
Proof.
  revert done s. induction batch as [|[f bc] batch IH]; intros done s Hok Hrows; simpl.
  { wp_step. rewrite app_nil_r. done. }
  wp_step. unfold stage_stripe_item. wp_step.
  eapply wp_mono; [apply (wp_preserves quiet); auto with preserves| |done]. intros rec s1 Hq.
  destruct (quiet_inst _ _ Hq Hok) as [Hok1 _]. apply (staged_rows_quiet _ _ _ _ Hq) in Hrows.
  wp_step. eapply wp_mono; [apply stage_lane_spec; [auto with preserves|done..]| |done].
  intros _ s2 [Hok2 Hrows2]. wp_step.
  eapply wp_mono; [apply (wp_preserves quiet); auto with preserves| |done]. cbn beta.
  intros g s3 Hq3. do 3 wp_step. set (s4 := with_group g s3).
  assert (quiet s2 s4) as Hq24 by (etrans; [exact Hq3 | by split]).
  destruct (quiet_inst _ _ Hq24 Hok2) as [Hok4 _]. apply (staged_rows_quiet _ _ _ _ Hq24) in Hrows2.
  wp_step. eapply wp_mono; [by apply IH| |done]. intros pl s5 (-> & Hok5 & Hrows5). wp_step.
  split_and!; [done..|]. by rewrite <-(assoc_L (++)) in Hrows5.
Qed.

Lemma stage_stripe_stages root mode vg batch :
  stages (stripe_lanes root batch) (stage_stripe w job_id root mode vg batch).
Proof.
  split.
  - induction batch as [|[f bc] batch IH]; simpl; unfold stage_stripe_item; solve_preserves.
  - intros s Hok Hs. eapply wp_mono; [apply (stage_stripe_spec _ _ _ _ []); [done|by apply no_staged_rows]| |done].
    intros pl s' (-> & ? & ?). done.
Qed.

Lemma stage_shards_spec f rq vg parent total tmp specs done s :
  inst_ok s → staged_rows STAGING done s →
  wp (stage_shards w job_id f rq vg parent total tmp specs)
    (λ pl s', pl = shard_lane tmp <$> specs ∧ inst_ok s' ∧ staged_rows STAGING (done ++ pl) s')
    (λ _ _, True) s.
Proof.
  revert done s. induction specs as [|sp specs IH]; intros done s Hok Hrows; simpl.
  { wp_step. rewrite app_nil_r. done. }
  wp_step. eapply wp_mono; [apply stage_lane_spec; [auto with preserves|done..]| |done].
  intros _ s2 [Hok2 Hrows2]. wp_step.
  eapply wp_mono; [by apply IH| |done]. intros pl s5 (-> & Hok5 & Hrows5). wp_step.
  split_and!; [done..|]. by rewrite <-(assoc_L (++)) in Hrows5.
Qed.

(** The lanes of a block-striped file. *)
Definition shard_lanes (f : source_file) (bs : Z) (plan : shard_plan) : result (list lane_plan) :=
  tmp ← mapR (λ sp, write_shard_to_tempfile (src_content f) (sh_shard_index sp)
                      (Z.of_nat (length (sp_shards plan))) bs) (sp_shards plan);
  Ok (shard_lane tmp <$> sp_shards plan).

Lemma stage_block_stages f rq vg plan planned :
  shard_lanes f (ar_block_size rq) plan = Ok planned →
  stages planned (stage_block_stripe w job_id f rq vg plan).
Proof.
  unfold shard_lanes, stage_block_stripe. intros Hpl. split.
  - solve_preserves. generalize (Z.of_nat (length (sp_shards plan))). intros total.
    generalize (sp_shards plan). intros specs. induction specs as [|sp specs IH]; simpl; solve_preserves.
  - intros s Hok Hs. destruct (mapR _ _) as [tmp|]; simpl in Hpl; [|done]. simplify_eq.
    do 2 wp_step; [|done]. simplify_eq. wp_step.
    eapply wp_mono; [apply (wp_preserves quiet); auto with preserves| |done]. intros rec s1 Hq.
    destruct (quiet_inst _ _ Hq Hok) as [Hok1 _]. rewrite <-(q_staged _ _ Hq) in Hs.
    eapply wp_mono; [apply (stage_shards_spec _ _ _ _ _ _ _ []); [done|by apply no_staged_rows]| |done].
    intros pl s' (-> & ? & ?). done.
Qed.

(** ** Writing the lanes *)
Lemma room_same_content bc size : preserves same_content (_require_lane_room bc size).
Proof. unfold _require_lane_room. solve_preserves. Qed.

Lemma write_lane_content now m l t b :
  Barcode (mh_barcode m) = Ok b →
  wp (write_lane now m l)
    (λ _ t', ∀ b' p, content_at t' b' p =
       if decide (b' = b ∧ p = posix_path (ln_path l)) then Some (ln_content l)
       else content_at t b' p)
    (λ _ t', ∀ b' p, ¬ (b' = b ∧ p = posix_path (ln_path l)) →
       content_at t' b' p = content_at t b' p) t.
Proof.
  intros Hb. unfold write_lane. wp_step.
  eapply wp_mono; [apply (wp_preserves same_content), room_same_content| |by intros e t' Ht b' p _].
  cbn beta. intros _ t1 H1. wp_step. unfold write_file, write_bytes. do 2 wp_step.
  eapply wp_mono; [apply (write_content _ _ _ _ _ _ _ _ Hb)| |].
  2: { intros e t2 H2 b' p Hne. by rewrite H2, (H1 b' p). }
  intros i t2 H2. wp_step.
  assert (∀ t3, same_content t2 t3 → ∀ b' p, content_at t3 b' p =
    if decide (b' = b ∧ p = posix_path (ln_path l)) then Some (ln_content l)
    else content_at t b' p) as Hend.
  { intros t3 H3 b' p. rewrite (H3 b' p), H2. by rewrite (H1 b' p). }
  assert (∀ t3, same_content t2 t3 → ∀ b' p, ¬ (b' = b ∧ p = posix_path (ln_path l)) →
    content_at t3 b' p = content_at t b' p) as Hfail.
  { intros t3 H3 b' p Hne. rewrite (Hend _ H3). by rewrite decide_False. }
  wp_step. eapply wp_mono; [apply (wp_preserves same_content), stat_same_content| |by intros e].
  intros st t3 H3. wp_step; [by apply Hfail | by apply Hend].
Qed.

(** The cartridge a lane is written to is the one it names. *)
Lemma mounted_location s l m :
  mounts_ok s → dget (tj_mounts s) (ln_barcode l) = Some m →
  Barcode (mh_barcode m) = Ok (location l).1.
Proof.
  intros Hm Hl. pose proof (Forall_dget _ _ _ _ Hm Hl) as Hb. simpl in Hb.
  pose proof (Barcode_idemp _ _ Hb) as Hi. rewrite Hi. f_equal. by apply Barcode_valid in Hb as [_ ->].
Qed.

(** Only the contents changed, and only at the places [ls] go to. *)
Record lanes_ran (ls : list lane_plan) (s s' : tape_job) : Prop := {
  lr_catalog : tj_catalog s' = tj_catalog s;
  lr_staged : tj_staged s' = tj_staged s;
  lr_mounts : tj_mounts s' = tj_mounts s;
  lr_tick : (tj_tick s ≤ tj_tick s')%nat;
  lr_elsewhere : ∀ b p, (b, p) ∉ location <$> ls →
    content_at (tj_ltfs s') b p = content_at (tj_ltfs s) b p;
}.

Lemma run_lanes_spec ls s :
  mounts_ok s → NoDup (location <$> ls) →
  wp (run_lanes w ls)
    (λ fs s', lanes_ran ls s s' ∧ (fs = [] → Forall (on_tape (tj_ltfs s')) ls)) (λ _ _, False) s.
Proof.
  revert s. induction ls as [|l ls IH]; intros s Hm Hnd; simpl.
  { wp_step. by split. }
  apply NoDup_cons in Hnd as [Hnotin Hnd]. wp_step. apply wp_tick. do 3 wp_step.
  set (s1 := with_cell _ _ _ s).
  assert (∀ (r : result ()) s2, tj_catalog s2 = tj_catalog s → tj_staged s2 = tj_staged s →
    tj_mounts s2 = tj_mounts s → tj_tick s2 = S (tj_tick s) →
    (∀ b p, (b, p) ≠ location l → content_at (tj_ltfs s2) b p = content_at (tj_ltfs s) b p) →
    (is_ok r = true → on_tape (tj_ltfs s2) l) →
    wp (failures ← run_lanes w ls; mret match r with Ok _ => failures | Raise e => e :: failures end)
      (λ fs s', lanes_ran (l :: ls) s s' ∧ (fs = [] → Forall (on_tape (tj_ltfs s')) (l :: ls)))
      (λ _ _, False) s2) as Hrest.
  { intros r s2 Hc Hst Hmo Ht Hother Hdone. wp_step.
    eapply wp_mono; [apply IH; [unfold mounts_ok; by rewrite Hmo | done]| |done].
    intros fs s3 [[Hc3 Hst3 Hm3 Ht3 He3] Hall]. wp_step. split.
    - split; try congruence; [lia|]. intros b p Hbp. rewrite fmap_cons, not_elem_of_cons in Hbp.
      destruct Hbp as [Hne Hbp]. rewrite He3, Hother by done. done.
    - destruct r as [u|e]; [|done]. intros Hfs. constructor; [|by apply Hall].
      unfold on_tape. rewrite He3; [by apply Hdone|]. by rewrite <-surjective_pairing. }
  do 2 wp_step. apply wp_dindex; [intros m Hl | intros _; by apply (Hrest (Raise KeyError))].
  unfold tape_op, on_plant, on_ltfs. do 2 wp_step.
  eapply wp_mono; [apply (write_lane_content _ _ _ _ _ (mounted_location s l m Hm Hl))| |].
  - cbn beta. intros _ t Ht. apply (Hrest (Ok tt)); try done.
    + intros b p Hne. unfold tj_ltfs at 1. simpl. rewrite Ht, decide_False; [done|].
      intros [-> ->]. by apply Hne.
    + intros _. unfold on_tape, tj_ltfs. simpl. rewrite Ht. by rewrite decide_True.
  - cbn beta. intros e t Ht. apply (Hrest (Raise e)); try done.
    intros b p Hne. unfold tj_ltfs at 1. simpl. apply Ht. intros [-> ->]. by apply Hne.
Qed.

Lemma write_batch_spec ls s :
  mounts_ok s → NoDup (location <$> ls) →
  wp (write_batch w ls)
    (λ _ s', lanes_ran ls s s' ∧ Forall (on_tape (tj_ltfs s')) ls) (λ _ s', lanes_ran ls s s') s.
Proof.
  intros Hm Hnd. unfold write_batch. wp_step. apply wp_tick. wp_step.
  set (rank := w_rank w _). pose proof (by_rank_perm rank ls) as Hp.
  eapply wp_mono; [apply run_lanes_spec; [exact Hm|by rewrite Hp]| |done].
  intros fs s' [[Hc Hst Hmo Ht He] Hall]. simpl in Ht.
  assert (lanes_ran ls s s') as Hran.
  { split; try done; [lia|]. intros b p Hbp. apply He. by rewrite Hp. }
  wp_step; wp_step; [|done]. split; [done|]. rewrite <-Hp. by apply Hall.
Qed.

(** ** Verifying and committing *)
Lemma mark_verifying_rows planned s :
  staged_rows STAGING planned s → inst_ok s →
  wp (_mark_verifying w job_id)
    (λ _ s', staged_rows (enum_value FileInstanceState.VERIFYING) planned s') (λ _ _, True) s.
Proof.
  intros Hrows Hok. unfold _mark_verifying, instances_detail. do 3 wp_step.
  eapply wp_mono; [apply (wp_preserves quiet); auto with preserves| |done]. cbn beta. intros _ s1 Hq1.
  apply (staged_rows_quiet _ _ _ _ Hq1) in Hrows. destruct (quiet_inst _ _ Hq1 Hok) as [Hok1 _].
  do 3 wp_step. apply catalog_op_state.
  eapply wp_mono; [apply (update_instances_spec (tj_staged s1) staged_states
    (set_instance_state (enum_value FileInstanceState.VERIFYING))); [apply Hok1 | done]| |done].
  cbn beta. intros _ c (Hin & Hout & Hc & _).
  eapply wp_mono; [apply (wp_preserves quiet); auto with preserves| |done]. cbn beta. intros _ s2 Hq2.
  eapply staged_rows_quiet; [exact Hq2|]. destruct Hrows as [Hids Hlanes]. split; simpl.
  - intros id Hid. destruct (Hids id Hid) as (l & r & Hl & Hr & Hrow & _).
    destruct (Hin id Hid) as (r' & Hr' & _ & Hnew). assert (r' = r) as -> by congruence.
    exists l, (set_instance_state (enum_value FileInstanceState.VERIFYING) r). by split_and!.
  - intros l Hl. destruct (Hlanes l Hl) as (id & r & Hid & Hr & Hrow).
    destruct (Hin id Hid) as (r' & Hr' & _ & Hnew). assert (r' = r) as -> by congruence.
    exists id, (set_instance_state (enum_value FileInstanceState.VERIFYING) r). by split_and!.
Qed.

Lemma catalog_op_unarchived (m : M catalog unit) :
  (∀ s, inst_ok s → wp m (λ _ c, instances_wf c ∧ archived_same (tj_catalog s) c ∧
      ∀ id, dget (ct_instances (tj_catalog s)) id = None → dget (ct_instances c) id = None)
    (λ _ c, c = tj_catalog s) (tj_catalog s)) →
  preserves unarchived (catalog_op m).
Proof.
  intros Hm s. pose proof (Hm s) as Hwp. clear Hm. revert Hwp. rewrite wp_unfold.
  unfold catalog_op, on_plant, on_catalog, zoom, tj_catalog. destruct (m _) as [r c]. simpl.
  intros Hwp. split; try done. intros Hok. specialize (Hwp Hok). destruct r as [u|e].
  - destruct Hwp as (Hwf & Hsame & Hnone). split; [split; [exact Hwf|]|exact Hsame].
    intros n Hn. apply Hnone. by apply Hok.
  - subst c. split; [exact Hok | done].
Qed.

Lemma verifying_unarchived ids : preserves unarchived (catalog_op (mark_instances_verifying ids)).
Proof.
  apply catalog_op_unarchived. intros s Hok.
  eapply wp_mono; [apply (update_instances_spec ids staged_states
    (set_instance_state (enum_value FileInstanceState.VERIFYING))); [apply Hok | done]|
    |by intros e c [-> _]].
  cbn beta. intros _ c (Hin & Hout & _ & Hwf). split_and!; [done| |].
  - intros id r. unfold archived_in. destruct (decide (id ∈ ids)) as [Hid|Hid]; [|by rewrite Hout].
    destruct (Hin id Hid) as (r0 & Hr0 & Hst & ->). rewrite Hr0.
    split; intros [[= <-] Ha]; [|by apply staged_not_archived in Hst].
    exfalso. revert Ha. apply staged_not_archived. by right; left.
  - intros id Hnone. destruct (decide (id ∈ ids)) as [Hid|Hid]; [|by rewrite Hout].
    destruct (Hin id Hid) as (r0 & Hr0 & _). congruence.
Qed.
Hint Resolve verifying_unarchived : preserves.

Lemma mark_verifying_unarchived : preserves unarchived (_mark_verifying w job_id).
Proof. unfold _mark_verifying, instances_detail. solve_preserves. Qed.

(** The outcomes of a batch. *)
Record aborted (planned : list lane_plan) (s s' : tape_job) : Prop := {
  ab_inst : inst_ok s';
  ab_same : archived_same (tj_catalog s) (tj_catalog s');
  ab_elsewhere : ∀ b p, (b, p) ∉ location <$> planned →
    content_at (tj_ltfs s') b p = content_at (tj_ltfs s) b p;
}.

Record committed (planned : list lane_plan) (s s' : tape_job) : Prop := {
  cm_inst : inst_ok s';
  cm_lanes : ∀ l, l ∈ planned → on_tape (tj_ltfs s') l ∧
    ∃ id r, archived_in (tj_catalog s') id r ∧ row_of l r;
  cm_old : ∀ id r, archived_in (tj_catalog s) id r → archived_in (tj_catalog s') id r;
  cm_new : ∀ id r, archived_in (tj_catalog s') id r → archived_in (tj_catalog s) id r ∨
    ∃ l, l ∈ planned ∧ row_of l r;
  cm_elsewhere : ∀ b p, (b, p) ∉ location <$> planned →
    content_at (tj_ltfs s') b p = content_at (tj_ltfs s) b p;
}.

Lemma aborted_quiet planned s1 s2 s3 : aborted planned s1 s2 → unarchived s2 s3 → aborted planned s1 s3.
Proof.
  intros [H1 H2 H3] [Hc _ Hi]. apply Hi in H1 as [H1 Hs]. split; [done| |].
  - intros id r. by rewrite (Hs id r).
  - intros b p Hbp. by rewrite (Hc b p), H3.
Qed.

Lemma committed_quiet planned s1 s2 s3 : committed planned s1 s2 → quiet s2 s3 → committed planned s1 s3.
Proof.
  intros [H1 H2 H3 H4 H5] Hq. destruct (quiet_inst _ _ Hq H1) as [Hok Hs].
  pose proof (q_content _ _ Hq) as Hc. split; [done| | | |].
  - intros l Hl. destruct (H2 l Hl) as (Hon & id & r & Hr & Hrow). split; [by unfold on_tape; rewrite (Hc _ _)|].
    exists id, r. by rewrite (Hs id r).
  - intros id r Hr. by apply Hs, H3.
  - intros id r Hr%Hs. by apply H4.
  - intros b p Hbp. by rewrite (Hc b p), H5.
Qed.

Lemma lanes_aborted planned s0 s s' :
  inst_ok s0 → unarchived s0 s → lanes_ran planned s s' → aborted planned s0 s'.
Proof.
  intros Hok [Hc _ Hi] [Hcat _ _ Ht He]. apply Hi in Hok as [[Hwf Hf] Hs]. split.
  - split; rewrite Hcat; [done|]. intros n Hn. apply Hf. lia.
  - by rewrite Hcat.
  - intros b p Hbp. by rewrite He, (Hc b p).
Qed.

(** A journal entry is always made. *)
Lemma wp_journal_op event d (Q : () → tape_job → Prop) E s :
  (∀ s', quiet s s' → Q tt s') → wp (journal_op w job_id event d) Q E s.
Proof.
  intros HQ. unfold journal_op. wp_step. apply wp_tick. wp_step. apply catalog_op_state.
  unfold journal. repeat wp_step. apply HQ. split; try done. simpl. lia.
Qed.

(** The atomic commit. *)
Lemma commit_spec refs planned s :
  inst_ok s → staged_rows (enum_value FileInstanceState.VERIFYING) planned s →
  Forall (on_tape (tj_ltfs s)) planned →
  wp (_commit_staged w job_id refs) (λ _ s', committed planned s s') (λ _ s', quiet s s') s.
Proof.
  intros Hok [Hids Hlanes] Hon. unfold _commit_staged, instances_detail.
  do 2 wp_step. do 2 wp_step. do 2 wp_step; [done|]. do 2 wp_step. wp_step. apply wp_tick.
  wp_step. apply catalog_op_state.
  eapply wp_mono; [apply (update_instances_spec (tj_staged s) [enum_value FileInstanceState.VERIFYING]
    (archived_instance (w_now w (tj_tick s)) true)); [apply Hok | done]| |].
  2: { intros e c [-> _]. split; try done. simpl. lia. }
  cbn beta. change (tj_catalog (with_cell _ _ _ _)) with (tj_catalog s).
  intros _ c (Hin & Hout & _ & Hwf). do 2 wp_step. apply wp_journal_op. intros s' Hq.
  eapply committed_quiet; [|exact Hq]. clear Hq. unfold archived_in.
  split; unfold archived_in; simpl.
  - split; [exact Hwf|]. intros n Hn. simpl. destruct (decide (w_uuid w n ∈ tj_staged s)) as [Hid|Hid].
    + destruct (Hin _ Hid) as (r & Hr & _). destruct Hok as [_ Hf]. rewrite Hf in Hr; [done|simpl in Hn; lia].
    + rewrite Hout by done. apply Hok. simpl in Hn. lia.
  - intros l Hl. rewrite Forall_forall in Hon. split; [by apply Hon|].
    destruct (Hlanes l Hl) as (id & r & Hid & Hr & Hrow). destruct (Hin id Hid) as (r' & Hr' & _ & Hnew).
    assert (r' = r) as -> by congruence. exists id, (archived_instance (w_now w (tj_tick s)) true r).
    split; [|exact Hrow]. split; [exact Hnew | by left].
  - intros id r [Hr Ha]. split; [|done]. change (dget (ct_instances c) id = Some r).
    destruct (decide (id ∈ tj_staged s)) as [Hid|Hid]; [|by rewrite Hout].
    destruct (Hids id Hid) as (l & r' & _ & Hr' & _ & Hst). exfalso.
    assert (r' = r) as -> by congruence. revert Ha. apply staged_not_archived. rewrite Hst. by right; left.
  - intros id r [Hr Ha]. change (dget (ct_instances c) id = Some r) in Hr.
    destruct (decide (id ∈ tj_staged s)) as [Hid|Hid]; [right|left; by rewrite <-Hout].
    destruct (Hids id Hid) as (l & r' & Hl & Hr' & Hrow & _).
    destruct (Hin id Hid) as (r2 & Hr2 & _ & Hnew). exists l. split; [done|].
    assert (r2 = r') as -> by congruence. rewrite Hr in Hnew. injection Hnew as ->. exact Hrow.
  - done.
Qed.

(** ** A batch *)
Lemma unarchived_aborted planned s s' : inst_ok s → unarchived s s' → aborted planned s s'.
Proof. intros Hok [Hc _ Hi]. apply Hi in Hok as [Hok Hs]. split; [done..|]. intros b p _. apply Hc. Qed.

Lemma aborted_trans planned s1 s2 s3 :
  aborted planned s1 s2 → aborted planned s2 s3 → aborted planned s1 s3.
Proof.
  intros [H1 H2 H3] [H4 H5 H6]. split; [done| |].
  - intros id r. by rewrite (H5 id r).
  - intros b p Hbp. by rewrite H6, H3.
Qed.

Lemma committed_from planned s1 s2 s3 :
  aborted planned s1 s2 → committed planned s2 s3 → committed planned s1 s3.
Proof.
  intros [H1 H2 H3] [H4 H5 H6 H7 H8]. split; [done|done| | |].
  - intros id r Hr. by apply H6, H2.
  - intros id r Hr. destruct (H7 id r Hr) as [Ho|Hn]; [left; by apply H2 | by right].
  - intros b p Hbp. by rewrite H8, H3.
Qed.

Lemma verify_and_commit_spec refs planned s :
  inst_ok s → staged_rows STAGING planned s → Forall (on_tape (tj_ltfs s)) planned →
  wp (verify_and_commit str_of w job_id refs) (λ _ s', committed planned s s')
    (λ _ s', aborted planned s s') s.
Proof.
  intros Hok Hrows Hon. unfold verify_and_commit. wp_step.
  eapply wp_mono; [apply wp_and; [by apply (mark_verifying_rows planned)|
    apply (wp_preserves unarchived), mark_verifying_unarchived]| |];
    [|intros e s1 [_ H1]; by apply unarchived_aborted].
  cbn beta. intros _ s1 [Hrows1 H1].
  assert (∀ s3, quiet s1 s3 → aborted planned s s3) as Hab.
  { intros s3 H3. apply unarchived_aborted; [done|]. etrans; [exact H1|]. by apply quiet_unarchived. }
  apply (wp_bind_preserves quiet) with (s0 := s1); [auto with preserves | done | by eauto |]. intros now s2 H2.
  apply (wp_bind_preserves quiet) with (s0 := s1); [auto with preserves | done | by eauto |]. intros _ s3 H3.
  apply (wp_bind_preserves quiet) with (s0 := s1); [solve_preserves | done | by eauto |]. intros _ s4 H4.
  apply (wp_bind_preserves quiet) with (s0 := s1); [auto with preserves | done | by eauto |]. intros _ s5 H5.
  pose proof (Hab s5 H5) as Hs5. eapply wp_mono; [apply commit_spec| |].
  - apply Hs5.
  - by eapply staged_rows_quiet.
  - eapply Forall_impl; [exact Hon|]. intros l Hl. unfold on_tape.
    by rewrite (q_content _ _ H5 _ _), (u_content _ _ H1 _ _).
  - cbn beta. intros _ s6 H6. by eapply committed_from.
  - cbn beta. intros e s6 H6. apply Hab. by etrans.
Qed.

Lemma archive_body_spec refs stage planned s :
  stages planned stage → NoDup (location <$> planned) →
  inst_ok s → tj_staged s = [] → mounts_ok s →
  wp (archive_body str_of w job_id refs stage) (λ pl s', pl = planned ∧ committed planned s s')
    (λ _ s', aborted planned s s') s.
Proof.
  intros [Hsu Hst] Hnd Hok Hs Hm. unfold archive_body.
  assert (∀ s', unarchived s s' → aborted planned s s') as Hab by (intros; by apply unarchived_aborted).
  apply (wp_bind_preserves quiet) with (s0 := s); [auto with preserves | done | |].
  { intros e s' Hq. by apply Hab, quiet_unarchived. }
  intros _ s1 Hq1. pose proof (quiet_unarchived _ _ Hq1) as H1.
  destruct (quiet_inst _ _ Hq1 Hok) as [Hok1 _]. wp_step.
  eapply wp_mono; [apply wp_and; [apply Hst; [done|by rewrite (q_staged _ _ Hq1)]|
    apply (wp_preserves unarchived), Hsu]| |].
  2: { intros e s2 [_ H2]. apply Hab. by etrans. }
  cbn beta. intros pl s2 [(-> & Hok2 & Hrows) H2]. pose proof (transitivity H1 H2) as H12.
  apply (wp_bind_preserves quiet) with (s0 := s2); [solve_preserves | done | |].
  { intros e s' Hq. apply Hab. etrans; [exact H12 | by apply quiet_unarchived]. }
  intros _ s3 Hq3. pose proof (transitivity H12 (quiet_unarchived _ _ Hq3)) as H13.
  apply (staged_rows_quiet _ _ _ _ Hq3) in Hrows. wp_step.
  eapply wp_mono; [apply write_batch_spec; [by apply H13 | done]| |];
    [|by intros e s4 Hran; eapply lanes_aborted].
  cbn beta. intros _ s4 [Hran Hon]. pose proof (lanes_aborted _ _ _ _ Hok H13 Hran) as H4.
  assert (staged_rows STAGING planned s4) as Hrows4.
  { destruct Hran, Hrows as [Ha Hb]. split; rewrite lr_catalog0, lr_staged0; done. }
  wp_step. eapply wp_mono; [apply verify_and_commit_spec; [apply H4 | done..]| |].
  - cbn beta. intros _ s5 H5. wp_step. split; [done|]. by eapply committed_from.
  - intros e s5 H5. by eapply aborted_trans.
Qed.

Lemma with_drives_held_spec {A} planned (P P' : A → Prop) report bcs refs body failed s :
  inst_ok s →
  (∀ s0, inst_ok s0 → tj_staged s0 = [] → mounts_ok s0 →
     wp body (λ a s', P a ∧ committed planned s0 s') (λ _ s', aborted planned s0 s') s0) →
  (∀ e s0, wp (failed e) (λ a s', P' a ∧ quiet s0 s') (λ _ s', quiet s0 s') s0) →
  wp (with_drives_held str_of class_of w job_id report bcs refs body failed)
    (λ a s', P a ∧ committed planned s s' ∨ P' a ∧ aborted planned s s')
    (λ _ s', committed planned s s' ∨ aborted planned s s') s.
Proof.
  intros Hok Hbody Hfail. unfold with_drives_held. do 2 wp_step. set (s0 := with_locals _ _ _ _ s).
  assert (aborted planned s s0) as H0 by by split.
  set (fin := fenced_out ← _; _). assert (preserves quiet fin) as Hfin by (unfold fin; solve_preserves).
  assert (∀ s1, aborted planned s s1 → ∀ s2, quiet s1 s2 → aborted planned s s2) as Haq.
  { intros s1 H1 s2 Hq. eapply aborted_quiet; [exact H1 | by apply quiet_unarchived]. }
  apply wp_try_finally, wp_try_except.
  eapply wp_mono; [apply Hbody; [apply H0 | done | by constructor]| |].
  - intros a s1 [HP H1]. pose proof (committed_from _ _ _ _ H0 H1) as Hc.
    eapply wp_mono; [by apply (wp_preserves quiet)| |]; cbn beta; intros ? s2 H2; left;
      [split; [done|]|]; by eapply committed_quiet.
  - intros e s1 H1. pose proof (aborted_trans _ _ _ _ H0 H1) as Ha.
    assert (∀ s2, quiet s1 s2 → wp fin (λ _ s', aborted planned s s') (λ _ s', aborted planned s s') s2)
      as Hf.
    { intros s2 H2. eapply wp_mono; [by apply (wp_preserves quiet)| |]; cbn beta; intros ? s3 H3;
        eapply Haq; [exact Ha | by etrans | exact Ha | by etrans]. }
    case_bool_decide.
    + do 2 wp_step. apply wp_bind, wp_journal_op. intros s2 H2. wp_step.
      eapply wp_mono; [apply Hf| |]; cbn beta; auto. etrans; [|exact H2]. by split.
    + apply wp_bind, wp_journal_op. intros s2 H2. eapply wp_mono; [apply Hfail| |]; cbn beta.
      * intros a s3 [HP' H3]. eapply wp_mono; [apply Hf; by etrans| |]; cbn beta; auto.
      * intros e' s3 H3. eapply wp_mono; [apply Hf; by etrans| |]; cbn beta; auto.
Qed.

(** What became of a batch, from its answer. *)
Definition batch_outcome (planned : list lane_plan) (n b : Z) (r : option (Z * Z))
    (s s' : tape_job) : Prop :=
  match r with
  | None => aborted planned s s'
  | Some x => x = (n, b) ∧ committed planned s s' ∨ x = (0, 0) ∧ aborted planned s s'
  end.

Lemma archive_batch_spec root mode vg batch s :
  inst_ok s → NoDup (location <$> stripe_lanes root batch) →
  wp (archive_batch str_of class_of w job_id root mode vg batch)
    (λ r s', batch_outcome (stripe_lanes root batch) (Z.of_nat (length batch)) (batch_bytes batch)
               r s s')
    (λ _ s', committed (stripe_lanes root batch) s s' ∨ aborted (stripe_lanes root batch) s s') s.
Proof.
  intros Hok Hnd. unfold archive_batch. set (planned := stripe_lanes root batch) in *.
  assert (∀ s', quiet s s' → aborted planned s s') as Hab
    by (intros s' Hq; by apply unarchived_aborted, quiet_unarchived).
  apply (wp_bind_preserves quiet) with (s0 := s); [auto with preserves | done | by eauto |].
  intros [refs|] s1 H1; [|wp_step; by apply Hab].
  apply wp_bind, wp_journal_op. intros s2 H2. pose proof (Hab s2 (transitivity H1 H2)) as Hs2.
  eapply wp_mono; [apply (with_drives_held_spec planned
    (λ r, r = Some (Z.of_nat (length batch), batch_bytes batch)) (λ r, r = Some (0, 0))); [apply Hs2| |]| |].
  - intros s0 Hok0 Hs0 Hm0. wp_step.
    eapply wp_mono; [apply archive_body_spec; [apply stage_stripe_stages|done..]| |]; cbn beta; [|done].
    intros pl s3 [-> H3]. wp_step. split; [|done]. unfold planned, stripe_lanes. by rewrite length_fmap.
  - intros e s0. do 3 wp_step. split; [done|]. by split.
  - cbn beta. intros r s3 [[-> H3]|[-> H3]]; [left|right]; (split; [done|]).
    + by eapply committed_from.
    + by eapply aborted_trans.
  - cbn beta. intros e s3 [H3|H3]; [left; by eapply committed_from | right; by eapply aborted_trans].
Qed.

Lemma archive_block_spec f rq vg group plan planned s :
  inst_ok s → w_uuid w (tj_tick s) = group →
  plan_block_stripe group (file_name (src_path f)) (src_content f) (ar_lane_barcodes rq)
    "/block_stripe" (ar_block_size rq) = Ok plan →
  shard_lanes f (ar_block_size rq) plan = Ok planned →
  NoDup (location <$> planned) →
  wp (_archive_block_stripe str_of class_of w job_id f rq vg)
    (λ r s', if r then committed planned s s' else aborted planned s s')
    (λ _ s', committed planned s s' ∨ aborted planned s s') s.
Proof.
  intros Hok <- Hplan Hpl Hnd. unfold _archive_block_stripe.
  assert (∀ s', quiet s s' → aborted planned s s') as Hab
    by (intros s' Hq; by apply unarchived_aborted, quiet_unarchived).
  wp_step. apply wp_tick. rewrite Hplan. do 2 wp_step; [|done]. simplify_eq. do 2 wp_step.
  set (s0 := with_group _ _).
  assert (quiet s s0) as H0 by (split; try done; simpl; lia).
  apply (wp_bind_preserves quiet) with (s0 := s); [auto with preserves | done | by eauto |].
  intros [refs|] s1 H1; [|wp_step; by apply Hab].
  apply wp_bind, wp_journal_op. intros s2 H2. pose proof (Hab s2 (transitivity H1 H2)) as Hs2.
  eapply wp_mono; [apply (with_drives_held_spec planned (λ r, r = Some tt) (λ _, False));
    [apply Hs2| |]| |].
  - intros s3 Hok3 Hs3 Hm3. wp_step.
    eapply wp_mono; [apply archive_body_spec; [by apply stage_block_stages|done..]| |]; cbn beta; [|done].
    intros pl s4 [-> H4]. by wp_step.
  - intros e s3. by wp_step.
  - cbn beta. intros r s3 [[-> H3]|[[] _]]. by eapply committed_from.
  - cbn beta. intros e s3 [H3|H3]; [left; by eapply committed_from | right; by eapply aborted_trans].
Qed.

(** ** A job in stripe mode *)

(** What a job over the lanes [all] maintains, [done] being the lanes of the
    batches committed so far. *)
Record job_inv (all done : list lane_plan) (s0 s : tape_job) : Prop := {
  ji_inst : inst_ok s;
  ji_done : done ⊆ all;
  ji_distinct : NoDup (location <$> done);
  ji_rows : ∀ id r, archived_in (tj_catalog s) id r → archived_in (tj_catalog s0) id r ∨
    ∃ l, l ∈ done ∧ row_of l r;
  ji_old : ∀ id r, archived_in (tj_catalog s0) id r → archived_in (tj_catalog s) id r;
  ji_tape : ∀ l, l ∈ done → on_tape (tj_ltfs s) l ∧
    ∃ id r, archived_in (tj_catalog s) id r ∧ row_of l r;
  ji_elsewhere : ∀ b p, (b, p) ∉ location <$> all →
    content_at (tj_ltfs s) b p = content_at (tj_ltfs s0) b p;
}.

Lemma job_inv_aborted all planned done s0 s s' :
  planned ⊆ all → (∀ l, l ∈ planned → location l ∉ location <$> done) →
  job_inv all done s0 s → aborted planned s s' → job_inv all done s0 s'.
Proof.
  intros Hsub Hdis [H1 H2 Hd H3 H4 H5 H6] [A1 A2 A3]. split; try done.
  - intros id r Hr%A2. by apply H3.
  - intros id r Hr. by apply A2, H4.
  - intros l Hl. destruct (H5 l Hl) as [Hon (id & r & Hr & Hrow)]. split.
    + unfold on_tape. rewrite A3; [done|]. rewrite <-surjective_pairing.
      intros (l' & Heq & Hl')%list_elem_of_fmap. apply (Hdis l' Hl'). rewrite <-Heq.
      by apply list_elem_of_fmap_2.
    + exists id, r. by rewrite (A2 id r).
  - intros b p Hbp. rewrite A3; [by apply H6|]. intros (l & Heq & Hl)%list_elem_of_fmap.
    apply Hbp, list_elem_of_fmap. eauto.
Qed.

Lemma job_inv_committed all planned done s0 s s' :
  planned ⊆ all → (∀ l, l ∈ planned → location l ∉ location <$> done) → NoDup (location <$> planned) →
  job_inv all done s0 s → committed planned s s' → job_inv all (done ++ planned) s0 s'.
Proof.
  intros Hsub Hdis Hnd [H1 H2 Hd H3 H4 H5 H6] [A1 A2 A3 A4 A5]. split; try done.
  - intros l [Hl|Hl]%elem_of_app; auto.
  - rewrite fmap_app. apply NoDup_app. split_and!; [done| |done].
    intros x Hx (l & -> & Hl)%list_elem_of_fmap. by apply (Hdis l Hl).
  - intros id r Hr. destruct (A4 id r Hr) as [[?|(l & Hl & ?)]%H3|(l & Hl & ?)]; [by left|right..];
      exists l; rewrite elem_of_app; auto.
  - intros id r Hr. by apply A3, H4.
  - intros l [Hl|Hl]%elem_of_app; [|by apply A2]. destruct (H5 l Hl) as [Hon (id & r & Hr & Hrow)]. split.
    + unfold on_tape. rewrite A5; [done|]. rewrite <-surjective_pairing.
      intros (l' & Heq & Hl')%list_elem_of_fmap. apply (Hdis l' Hl'). rewrite <-Heq.
      by apply list_elem_of_fmap_2.
    + exists id, r. split; [by apply A3 | done].
  - intros b p Hbp. rewrite A5; [by apply H6|]. intros (l & Heq & Hl)%list_elem_of_fmap.
    apply Hbp, list_elem_of_fmap. eauto.
Qed.

Lemma stripe_lanes_app root b1 b2 :
  stripe_lanes root (b1 ++ b2) = (stripe_lanes root b1 ++ stripe_lanes root b2)%list.
Proof. apply fmap_app. Qed.

Lemma archive_batches_spec root mode vg batches seen done all n0 b0 s0 s :
  NoDup (location <$> (seen ++ stripe_lanes root (mjoin batches))%list) →
  (seen ++ stripe_lanes root (mjoin batches))%list ⊆ all → done ⊆ seen → job_inv all done s0 s →
  wp (archive_batches str_of class_of w job_id root mode vg n0 b0 batches)
    (λ r s', ∃ done', job_inv all done' s0 s' ∧
       ∀ n b, r = Some (n, b) → n = n0 + Z.of_nat (length done') - Z.of_nat (length done))
    (λ _ s', ∃ done', job_inv all done' s0 s') s.
Proof.
  revert seen done n0 b0 s.
  induction batches as [|batch batches IH]; intros seen done n0 b0 s Hnd Hsub Hdone Hinv; simpl.
  { wp_step. exists done. split; [done|]. intros n b [= <- <-]. lia. }
  change (mjoin (batch :: batches)) with (batch ++ mjoin batches)%list in Hnd, Hsub.
  rewrite stripe_lanes_app in Hnd, Hsub. rewrite (assoc_L (++)) in Hnd, Hsub.
  set (planned := stripe_lanes root batch) in *.
  assert (NoDup (location <$> planned) ∧ ∀ l, l ∈ planned → location l ∉ location <$> done) as [Hp Hdis].
  { rewrite fmap_app, NoDup_app in Hnd. destruct Hnd as [Hnd _].
    rewrite fmap_app, NoDup_app in Hnd. destruct Hnd as (_ & Hd & Hp). split; [done|].
    intros l Hl (l' & Heq & Hl')%list_elem_of_fmap. apply (Hd (location l)).
    - rewrite Heq. apply list_elem_of_fmap_2. by apply Hdone.
    - by apply list_elem_of_fmap_2. }
  assert (planned ⊆ all) as Hpa by (intros l Hl; apply Hsub; rewrite !elem_of_app; auto).
  wp_step. eapply wp_mono; [by apply archive_batch_spec; [apply Hinv|]| |]; cbn beta; fold planned.
  - intros [x|] s1 H1.
    + assert (∃ done1, job_inv all done1 s0 s1 ∧ done1 ⊆ (seen ++ planned)%list ∧
        x.1 = Z.of_nat (length done1) - Z.of_nat (length done)) as (done1 & Hinv1 & Hsub1 & Hn).
      { destruct H1 as [[-> H1]|[-> H1]].
        - exists (done ++ planned)%list. split; [by eapply job_inv_committed|]. split.
          + intros l [?|?]%elem_of_app; rewrite elem_of_app; auto.
          + rewrite length_app. unfold planned, stripe_lanes. rewrite length_fmap. simpl. lia.
        - exists done. split; [by eapply job_inv_aborted|]. split; [|simpl; lia].
          intros l ?; rewrite elem_of_app; auto. }
      destruct x as [n b]. simpl in Hn. eapply wp_mono; [by eapply (IH (seen ++ planned)%list done1)| |];
        cbn beta; [|done].
      intros r s2 (done2 & Hinv2 & Hn2). exists done2. split; [done|]. intros n' b' Hr.
      rewrite (Hn2 _ _ Hr). lia.
    + wp_step. exists done. split; [by eapply job_inv_aborted | done].
  - intros e s1 [H1|H1]; eexists; [by eapply job_inv_committed | by eapply job_inv_aborted].
Qed.

Lemma job_inv_refl all s : inst_ok s → job_inv all [] s s.
Proof.
  intros Hok. split; try done; [by intros l ?%elem_of_nil | constructor | by left | by intros l ?%elem_of_nil].
Qed.

Lemma job_inv_quiet all done s0 s s' : job_inv all done s0 s → quiet s s' → job_inv all done s0 s'.
Proof.
  intros Hinv Hq. apply (job_inv_aborted all [] done s0 s s'); try done.
  - by intros l ?%elem_of_nil.
  - by intros l ?%elem_of_nil.
  - apply unarchived_aborted; [apply Hinv | by apply quiet_unarchived].
Qed.

(** The lanes of a job in stripe mode, in the order of its files. *)
Definition job_lanes (rq : archive_request) (files : list source_file) : list lane_plan :=
  stripe_lanes (ar_source_path rq) (mjoin (stripe_batches (ar_lane_barcodes rq) 0 [] files)).

Definition block_mode (rq : archive_request) : bool :=
  bool_decide (ar_mode rq = ShardMode.BLOCK_STRIPE) &&
  bool_decide (2 ≤ length (ar_lane_barcodes rq))%nat.

Lemma ensure_catalogued_quiet rq : preserves quiet (ensure_catalogued w rq).
Proof. unfold ensure_catalogued. solve_preserves; apply catalog_op_calm; auto with preserves. Qed.
Hint Resolve ensure_catalogued_quiet : preserves.

Lemma run_stripe_spec rq files s :
  block_mode rq = false → inst_ok s → NoDup (location <$> job_lanes rq files) →
  wp (run_sharded_archive str_of class_of w job_id rq files)
    (λ r s', ∃ done, job_inv (job_lanes rq files) done s s' ∧
       ∀ res, r = Some res → ar_dry_run rq = false → rs_files_archived res = Z.of_nat (length done))
    (λ _ s', ∃ done, job_inv (job_lanes rq files) done s s') s.
Proof.
  intros Hmode Hok Hnd. unfold run_sharded_archive. fold (block_mode rq). rewrite Hmode.
  set (all := job_lanes rq files) in *. pose proof (job_inv_refl all s Hok) as H0.
  assert (∀ s', quiet s s' → ∃ done, job_inv all done s s') as Hq
    by (intros s' H; exists []; by eapply job_inv_quiet).
  apply (wp_bind_preserves quiet) with (s0 := s); [auto with preserves | done | by eauto |]. intros _ s1 H1.
  destruct (ar_dry_run rq).
  { apply (wp_bind_preserves quiet) with (s0 := s); [auto with preserves | done | by eauto |]. intros _ s2 H2.
    wp_step. exists []. split; [by eapply job_inv_quiet | done]. }
  case_bool_decide.
  { apply (wp_bind_preserves quiet) with (s0 := s); [auto with preserves | done | by eauto |]. intros _ s2 H2.
    wp_step. exists []. split; [by eapply job_inv_quiet|]. by intros res [= <-]. }
  apply (wp_bind_preserves quiet) with (s0 := s); [auto with preserves | done | by eauto |]. intros vg s2 H2.
  apply (wp_bind_preserves quiet) with (s0 := s); [auto with preserves | done | by eauto |]. intros _ s3 H3.
  wp_step. unfold _archive_stripe. do 2 wp_step; [by apply Hq|].
  eapply wp_mono; [apply (archive_batches_spec _ _ _ _ [] [] all 0 0 s); [done..|]| |]; cbn beta; [| |done].
  { by eapply job_inv_quiet. }
  intros [[n b]|] s4 (done & Hj & Hn); [|wp_step; by exists done].
  specialize (Hn n b eq_refl). simpl in Hn. do 2 wp_step.
  apply (wp_bind_preserves quiet) with (s0 := s4); [auto with preserves | done | |].
  { intros e s5 H5. exists done. by eapply job_inv_quiet. }
  intros _ s5 H5. wp_step. exists done. split; [by eapply job_inv_quiet|].
  intros res [= <-] _. simpl. lia.
Qed.
End flow.

(** * The records of files

    A job writes the records of its own paths only; but there it writes at once,
    before anything is committed. *)

Definition files_ok (w : surroundings) (s : tape_job) : Prop :=
  dict_wf (ct_files (tj_catalog s)) ∧
  (∀ id r, dget (ct_files (tj_catalog s)) id = Some r → fl_id r = id) ∧
  ∀ n, (tj_tick s ≤ n)%nat → dget (ct_files (tj_catalog s)) (w_uuid w n) = None.

Definition other_records (ps : list string) (c c' : catalog) : Prop :=
  ∀ p, posix_path p ∉ ps → get_file_record p c' = get_file_record p c.

#[export] Instance files_aside : Aside ct_files.
Proof. by split. Qed.

(** The first row with a property, after it has been replaced, or added. *)
Lemma select_one_put {R} (P : R → bool) (key : R → string) (d : dict string R) r r' :
  (∀ k v, (k, v) ∈ d → key v = k) → select_one P d = Some r → P r' = true →
  select_one P (dset d (key r) r') = Some r'.
Proof.
  unfold select_one, select, dvalues. intros Hkey Hr Hr'. induction d as [|[k v] d IH]; [done|].
  csimpl. csimpl in Hr. case_decide as Hk.
  - subst k. csimpl. rewrite filter_cons_True; [done|]. by rewrite Hr'.
  - csimpl. destruct (P v) eqn:Hv.
    + rewrite filter_cons_True in Hr by by rewrite Hv. simpl in Hr. simplify_eq. destruct Hk.
      apply (Hkey k). by left.
    + rewrite filter_cons_False in Hr by (rewrite Hv; by intros []). rewrite filter_cons_False by (rewrite Hv; by intros []).
      apply IH; [|done]. intros k' v' Hin. apply Hkey. by right.
Qed.
Lemma select_one_add {R} (P : R → bool) (d : dict string R) k r' :
  dget d k = None → select_one P d = None → P r' = true → select_one P (dset d k r') = Some r'.
Proof.
  unfold select_one, select, dvalues. intros Hk Hnone Hr'. rewrite dset_notin by done.
  rewrite fmap_app, filter_app. destruct (filter P d.*2); [|done]. simpl. rewrite filter_cons_True; [done|]. by rewrite Hr'.
Qed.

Section records.
Context (str_of class_of : exn → string) (w : surroundings) (job_id : string).
Context `{!Inj (=) (=) (w_uuid w)} (ps : list string).

Record recording (s s' : tape_job) : Prop := {
  rc_tick : (tj_tick s ≤ tj_tick s')%nat;
  rc_files : files_ok w s → files_ok w s' ∧ other_records ps (tj_catalog s) (tj_catalog s');
}.
#[export] Instance recording_preorder : PreOrder recording.
Proof.
  split; [by split|]. intros s1 s2 s3 [T1 F1] [T2 F2]. split; [lia|]. intros H.
  apply F1 in H as [H H1]. apply F2 in H as [H H2]. split; [done|]. intros p Hp. by rewrite H2, H1.
Qed.

Lemma recording_same s s' :
  (tj_tick s ≤ tj_tick s')%nat → ct_files (tj_catalog s') = ct_files (tj_catalog s) → recording s s'.
Proof.
  intros Ht Hf. split; [done|]. intros (H1 & H2 & H3). split.
  - unfold files_ok. rewrite Hf. split_and!; [done..|]. intros n Hn. apply H3. lia.
  - intros p _. unfold get_file_record. by rewrite Hf.
Qed.
Lemma recording_calm s s' : calm ct_files s s' → recording s s'.
Proof. intros [Hf _ _ _ Ht]. by apply recording_same. Qed.
Lemma preserves_recording {A} (m : M tape_job A) : preserves (calm ct_files) m → preserves recording m.
Proof. apply preserves_impl, recording_calm. Qed.
Hint Resolve preserves_recording : preserves.

Lemma catalog_recording {A} (m : M catalog A) : preserves (eq_on ct_files) m → preserves recording (catalog_op m).
Proof. intros Hm. by apply preserves_recording, catalog_op_calm. Qed.
Lemma tape_op_recording {A} (m : M ltfs A) : preserves recording (tape_op m).
Proof. intros s. unfold tape_op, on_plant, on_ltfs, zoom. destruct (m _). by apply recording_same. Qed.
Lemma modify_recording f :
  (∀ s, tj_tick (f s) = tj_tick s ∧ tj_plant (f s) = tj_plant s) → preserves recording (modify f).
Proof.
  intros Hf. apply preserves_modify. intros s. destruct (Hf s) as [Ht Hp].
  apply recording_same; [lia|]. unfold tj_catalog. by rewrite Hp.
Qed.

(** The record a path is given. *)
Lemma create_record_spec path size sum vg sf s : files_ok w s →
  wp (create_record w path size sum vg sf)
    (λ r s', files_ok w s' ∧ (tj_tick s ≤ tj_tick s')%nat ∧
       get_file_record path (tj_catalog s') = Some r ∧
       (fl_path r = posix_path path ∧ fl_size_bytes r = size ∧ fl_checksum_sha256 r = sum ∧
        fl_shard_count r = sf_shard_count sf ∧ fl_block_size r = sf_block_size sf) ∧
       ∀ p, posix_path p ≠ posix_path path →
         get_file_record p (tj_catalog s') = get_file_record p (tj_catalog s))
    (λ _ _, False) s.
Proof.
  intros (Hwf & Hkey & Hfresh). unfold create_record. wp_step. apply wp_tick. wp_step. apply wp_tick.
  apply catalog_op_state. match goal with |- wp _ _ _ ?c => change c with (tj_catalog s) end.
  unfold create_file_record, put_file. do 2 wp_step. cbv zeta. do 3 wp_step.
  assert (get_file_record (posix_path path) (tj_catalog s) = get_file_record path (tj_catalog s)) as Hnorm
    by (unfold get_file_record; by rewrite posix_path_idemp).
  rewrite Hnorm. set (r := match get_file_record _ _ with Some _ => _ | None => _ end).
  assert (∀ id v, (id, v) ∈ ct_files (tj_catalog s) → fl_id v = id) as Hin
    by (intros id v Hv; apply Hkey; by apply dget_elem_iff).
  assert (fl_path r = posix_path path ∧ (fl_id r = w_uuid w (tj_tick s) ∧ get_file_record path (tj_catalog s) = None ∨
    ∃ old, get_file_record path (tj_catalog s) = Some old ∧ fl_id r = fl_id old)) as [Hpath Hid].
  { unfold r. destruct (get_file_record path (tj_catalog s)) as [old|] eqn:Hold; [|by auto]. simpl.
    split; [|by right; exists old]. unfold get_file_record, select_one in Hold.
    apply head_Some_elem_of, list_elem_of_filter in Hold as [Hp _]. by apply bool_decide_unpack in Hp. }
  assert (∀ v, dget (ct_files (tj_catalog s)) (fl_id r) = Some v → fl_path v = posix_path path) as Hsame.
  { intros v Hv. destruct Hid as [[Hid _]|(old & Hold & Hid)]; rewrite Hid in Hv.
    - rewrite Hfresh in Hv; done.
    - pose proof Hold as Ho. unfold get_file_record, select_one in Ho.
      apply head_Some_elem_of, list_elem_of_filter in Ho as [Hp Ho]. apply bool_decide_unpack in Hp.
      unfold dvalues in Ho. apply list_elem_of_fmap in Ho as ([id v'] & -> & Ho). simpl in *.
      rewrite (Hin _ _ Ho) in Hv. apply (dget_elem_iff _ _ _ Hwf) in Ho. congruence. }
  assert (get_file_record path (with_files (dset (ct_files (tj_catalog s)) (fl_id r) r) (tj_catalog s)) = Some r) as Hgot.
  { unfold get_file_record. simpl. destruct Hid as [[Hid Hnone]|(old & Hold & Hid)]; rewrite Hid.
    - apply select_one_add; [by apply Hfresh | done|]. by apply bool_decide_eq_true.
    - apply select_one_put; [done..|]. by apply bool_decide_eq_true. }
  split_and!; try done; simpl; [| lia | by unfold r; destruct (get_file_record path _)..|].
  - split_and!; unfold tj_catalog; simpl.
    + by apply dict_wf_dset.
    + intros id v. rewrite dget_dset. case_decide; [by intros [= <-]|apply Hkey].
    + intros n Hn. simpl in Hn. rewrite dget_dset_ne; [apply Hfresh; lia|]. intros Heq.
      destruct Hid as [[Hid _]|(old & Hold & Hid)].
      * rewrite Heq in Hid. apply (inj (w_uuid w)) in Hid. lia.
      * unfold get_file_record, select_one in Hold.
        apply head_Some_elem_of, list_elem_of_filter in Hold as [_ Ho].
        unfold dvalues in Ho. apply list_elem_of_fmap in Ho as ([id v'] & -> & Ho). simpl in *.
        rewrite (Hin _ _ Ho) in Hid. apply (dget_elem_iff _ _ _ Hwf) in Ho. rewrite <-Hid, Heq in Ho.
        rewrite Hfresh in Ho; [done|lia].
  - intros p Hp. unfold get_file_record, select_one, select. f_equal. unfold tj_catalog. simpl. apply filter_dset.
    + rewrite Hpath. intros ?%bool_decide_unpack. congruence.
    + intros v0 Hv0 Hx%bool_decide_unpack. apply Hsame in Hv0. congruence.
Qed.

Lemma create_record_recording path size sum vg sf :
  posix_path path ∈ ps → preserves recording (create_record w path size sum vg sf).
Proof.
  intros Hps. apply preserves_wp. intros s. apply wp_state. split.
  - unfold create_record. assert (preserves (λ s s', tj_tick s ≤ tj_tick s')%nat (create_record w path size sum vg sf)) as H.
    { unfold create_record. eapply preserves_impl with (R := calm (λ _, ())); [by intros ?? []|].
      solve_preserves. by apply catalog_op_calm. }
    apply H.
  - intros Hok. pose proof (create_record_spec path size sum vg sf s Hok) as H. apply wp_unfold in H.
    destruct (create_record _ _ _ _ _ _ s) as [[r|e] s']; [|done]. destruct H as (H1 & _ & _ & _ & H2). simpl.
    split; [done|]. intros p Hp. apply H2. congruence.
Qed.
Hint Resolve tape_op_recording : preserves.

Lemma stage_instance_recording file bc path : preserves recording (stage_instance w job_id file bc path).
Proof.
  unfold stage_instance. solve_preserves. apply catalog_recording. unfold create_staged_instance, put_instance.
  solve_preserves.
Qed.
Lemma marked_recording m ids states g :
  m = update_instances ids states g → preserves recording (catalog_op m).
Proof.
  intros ->. apply catalog_recording. unfold update_instances, put_instance.
  assert (∀ id, preserves (eq_on ct_files) (get_instance id)) by (intros id c; unfold get_instance; by case_match).
  solve_preserves. generalize (unique [] ids). induction l as [|id l IH]; simpl; solve_preserves.
Qed.
Hint Resolve stage_instance_recording : preserves.

Lemma write_batch_recording ls : preserves recording (write_batch w ls).
Proof.
  unfold write_batch. solve_preserves. generalize (by_rank a ls). induction l as [|l' ls' IH]; simpl; solve_preserves.
  intros s. unfold dindex. by case_match.
Qed.
Lemma verify_and_commit_recording refs : preserves recording (verify_and_commit str_of w job_id refs).
Proof.
  unfold verify_and_commit, _mark_verifying, _commit_staged, instances_detail. solve_preserves;
    by eapply marked_recording.
Qed.
Hint Resolve write_batch_recording verify_and_commit_recording : preserves.

Lemma archive_body_recording refs stage :
  preserves recording stage → preserves recording (archive_body str_of w job_id refs stage).
Proof. intros Hs. unfold archive_body. solve_preserves. Qed.
Lemma archive_batch_recording root mode vg batch :
  (∀ f, f ∈ batch.*1 → posix_path (src_path f) ∈ ps ∧ posix_path (_shard_record_path (src_path f) 0) ∈ ps) →
  preserves recording (archive_batch str_of class_of w job_id root mode vg batch).
Proof.
  intros Hps. unfold archive_batch.
  assert (preserves recording (stage_stripe w job_id root mode vg batch)) as Hstage.
  { induction batch as [|[f bc] batch IH]; simpl; [solve_preserves|].
    destruct (Hps f) as [H1 H2]; [by left|].
    pose proof (λ size sum sf, create_record_recording (src_path f) size sum vg sf H1).
    pose proof (λ size sum sf, create_record_recording (_shard_record_path (src_path f) 0) size sum vg sf H2).
    assert (preserves recording (stage_stripe w job_id root mode vg batch)) by (apply IH; intros; apply Hps; by right).
    unfold stage_stripe_item. solve_preserves. }
  pose proof (λ refs, archive_body_recording refs _ Hstage).
  solve_preserves.
Qed.

Lemma ensure_catalogued_recording rq : preserves recording (ensure_catalogued w rq).
Proof.
  unfold ensure_catalogued. solve_preserves; apply catalog_recording;
    unfold create_volume_group, Catalog.add_cartridge, put_cartridge; solve_preserves.
Qed.
End records.

(** The paths of the records a job in stripe mode writes. *)
Definition record_paths (files : list source_file) : list string :=
  mjoin ((λ f, [posix_path (src_path f); posix_path (_shard_record_path (src_path f) 0)]) <$> files).

(** The records of the shards of a block-striped file are at other paths. *)
Lemma pretty_no_slash (n : nat) : no_slash (pretty n).
Proof.
  assert (∀ x t, no_slash t → no_slash (pretty_N_go x t)) as Hgo.
  { intros x. induction (N.lt_wf_0 x) as [x _ IH]. intros t Ht. destruct (decide (x = 0)%N) as [->|Hx]; [done|].
    rewrite pretty_N_go_step by lia. apply IH; [apply N.div_lt; lia|].
    unfold no_slash. simpl. apply not_elem_of_cons. split; [|done].
    unfold pretty_N_char. repeat case_match; done. }
  unfold pretty, pretty_nat, pretty, pretty_N. case_decide; [|by apply Hgo, not_elem_of_nil].
  unfold no_slash. apply (bool_decide_unpack _). by vm_compute.
Qed.
Lemma no_slash_app s t : no_slash s → no_slash t → no_slash (s ++ t).
Proof.
  unfold no_slash. induction s as [|c s IH]; simpl; [done|]. rewrite !not_elem_of_cons. intros [? ?]. auto.
Qed.
Lemma shard_path_other p k : posix_path p ≠ posix_path (_shard_record_path p k).
Proof.
  unfold _shard_record_path. apply path_extended; [|simpl; lia].
  apply no_slash_app; [by apply (bool_decide_unpack _); vm_compute|]. unfold zero_pad4.
  apply no_slash_app; [|apply pretty_no_slash].
  generalize (4 - String.length (pretty k))%nat. intros n. unfold no_slash.
  rewrite String.list_ascii_of_string_of_list_ascii, list_elem_of_In. by intros Hin%repeat_spec.
Qed.

Lemma batched_files lanes index current files f :
  f ∈ (mjoin (stripe_batches lanes index current files)).*1 → f ∈ current.*1 ∨ f ∈ files.
Proof.
  revert index current. induction files as [|x files IH]; intros index current; simpl.
  - case_bool_decide; [by intros ?%elem_of_nil|]. simpl. rewrite app_nil_r. by left.
  - set (current' := (current ++ [(x, nth (index mod length lanes) lanes "")])%list).
    assert (f ∈ current'.*1 → f ∈ current.*1 ∨ f ∈ x :: files) as Hc.
    { unfold current'. rewrite fmap_app, elem_of_app. intros [?|?%list_elem_of_singleton]; [by left|right]. subst. by left. }
    assert (f ∈ files → f ∈ current.*1 ∨ f ∈ x :: files) as Hx by (intros; right; by right).
    case_bool_decide.
    + change (mjoin (?a :: ?l)) with (a ++ mjoin l)%list. rewrite fmap_app, elem_of_app.
      intros [?|[?%elem_of_nil|?]%IH]; auto; done.
    + intros [?|?]%IH; auto.
Qed.

#[local] Hint Resolve preserves_recording : preserves.
Lemma run_stripe_recording str_of class_of w job_id `{!Inj (=) (=) (w_uuid w)} rq files :
  block_mode rq = false →
  preserves (recording w (record_paths files)) (run_sharded_archive str_of class_of w job_id rq files).
Proof.
  intros Hmode. unfold run_sharded_archive. fold (block_mode rq). rewrite Hmode.
  assert (∀ l, preserves (recording w (record_paths files)) (modify (with_report l []))) by
    (intros; by apply modify_recording).
  pose proof (ensure_catalogued_recording w (record_paths files) rq).
  assert (∀ vg, preserves (recording w (record_paths files)) (_archive_stripe str_of class_of w job_id files rq vg)).
  { intros vg. assert (∀ batch, batch ∈ stripe_batches (ar_lane_barcodes rq) 0 [] files →
      preserves (recording w (record_paths files)) (archive_batch str_of class_of w job_id (ar_source_path rq) (ar_mode rq) vg batch)) as Hb.
    { intros batch Hbatch. apply archive_batch_recording; [done|]. intros f Hf.
      destruct (batched_files (ar_lane_barcodes rq) 0 [] files f) as [?%elem_of_nil|Hin]; [|done|].
      - apply list_elem_of_fmap in Hf as (x & -> & Hx). apply list_elem_of_fmap_2. apply list_elem_of_join. eauto.
      - unfold record_paths.
        split; apply list_elem_of_join; (eexists; split; [|by apply list_elem_of_fmap_2; exact Hin]); set_solver. }
    assert (∀ n b, preserves (recording w (record_paths files)) (archive_batches str_of class_of w job_id
      (ar_source_path rq) (ar_mode rq) vg n b (stripe_batches (ar_lane_barcodes rq) 0 [] files))).
    { induction (stripe_batches _ _ _ _) as [|batch batches IH]; intros n b; simpl; [solve_preserves|].
      pose proof (Hb batch ltac:(by left)). assert (∀ n b, preserves (recording w (record_paths files))
        (archive_batches str_of class_of w job_id (ar_source_path rq) (ar_mode rq) vg n b batches)) by
        (apply IH; intros; apply Hb; by right).
      solve_preserves. }
    unfold _archive_stripe. solve_preserves. }
  solve_preserves.
Qed.

(** ** Paths on tape *)
Lemma stripe_posix parts : parts ≠ [] → Forall proper parts →
  posix_path (join_parts ("/stripe" :: parts)) = "/stripe/" ++ join_parts parts.
Proof.
  intros Hne Hp. destruct parts as [|p parts]; [done|].
  change (join_parts ("/stripe" :: p :: parts)) with ("/stripe/" ++ join_parts (p :: parts)).
  unfold posix_path.
  assert (path_parts ("/stripe/" ++ join_parts (p :: parts)) = "stripe" :: p :: parts) as ->.
  { unfold path_parts. change ("/stripe/" ++ join_parts (p :: parts))
      with (("" ++ String "/" ("stripe" ++ String "/" (join_parts (p :: parts))))%string).
    rewrite !split_on_app by (apply (bool_decide_unpack _); vm_compute; exact I).
    rewrite filter_cons_False by naive_solver. rewrite filter_cons_True by done. f_equal.
    by apply path_parts_join. }
  done.
Qed.

Lemma elem_of_norm_step a acc c x : x ∈ norm_step a acc c → x ∈ acc ∨ x = c ∧ c ≠ "" ∧ c ≠ ".".
Proof.
  unfold norm_step. case_bool_decide as Hc; [by left|].
  destruct (_ || _ || _).
  - intros [->|Hx]%elem_of_cons; [right; naive_solver | by left].
  - intros Hx. left. destruct acc; [by apply elem_of_nil in Hx | by right].
Qed.

Lemma elem_of_norm_parts s x : x ∈ norm_parts s → x ≠ "" ∧ x ≠ "." ∧ no_slash x.
Proof.
  unfold norm_parts. rewrite elem_of_reverse.
  assert (∀ l acc, Forall no_slash l → x ∈ foldl (norm_step (bool_decide (path_root s ≠ ""))) acc l →
    x ∈ acc ∨ x ≠ "" ∧ x ≠ "." ∧ no_slash x) as H.
  { intros l. induction l as [|c l IH]; simpl; [by left|]. intros acc [Hc Hl]%Forall_cons Hx.
    destruct (IH _ Hl Hx) as [[?|(-> & ? & ?)]%elem_of_norm_step|?]; auto. }
  intros Hx. destruct (H _ _ (split_on_no_slash s) Hx) as [?%elem_of_nil|?]; done.
Qed.

Lemma name_elem f : path_name (norm_path f) ≠ "" → path_name (norm_path f) ∈ norm_parts f.
Proof.
  unfold path_name, norm_path. simpl. destruct (last (norm_parts f)) as [n|] eqn:Hn; [|done].
  intros _. rewrite last_lookup in Hn. by eapply list_elem_of_lookup_2.
Qed.

(** The parts kept of a source path. *)
Definition kept_parts (source_file source_root : string) : list string :=
  let file_path := norm_path source_file in
  let root := norm_path source_root in
  filter (λ p, p ∉ [""; "."; ".."; "/"])
    (if bool_decide (file_path = root) then name_parts file_path
     else if bool_decide (file_path.1 = root.1)
     then default (name_parts file_path) (strip_prefix root.2 file_path.2)
     else name_parts file_path).

Lemma stripe_path_eq f root : _stripe_tape_path f root =
  posix_path (join_parts ("/stripe" ::
    if bool_decide (kept_parts f root = []) then [path_name (norm_path f)] else kept_parts f root)).
Proof. done. Qed.

Lemma strip_prefix_spec r l x : strip_prefix r l = Some x ↔ l = (r ++ x)%list.
Proof.
  revert l. induction r as [|a r IH]; intros l; simpl; [naive_solver|]. destruct l as [|b l]; [naive_solver|].
  case_bool_decide; [rewrite IH|]; naive_solver.
Qed.

Lemma kept_proper f root : Forall proper (kept_parts f root).
Proof.
  apply Forall_forall. unfold kept_parts. intros x [Hx Hin]%list_elem_of_filter.
  assert (no_slash x) as Hs.
  { assert (∀ y, y ∈ norm_parts f → no_slash y) as Hn by (intros y Hy; by apply (elem_of_norm_parts f)).
    assert (∀ y, y ∈ name_parts (norm_path f) → no_slash y) as Hp by (intros y Hy; by apply path_parts_elem in Hy as (_ & _ & ?)).
    repeat case_bool_decide; auto. destruct (strip_prefix _ _) as [l|] eqn:Hl; [|auto]. simpl in Hin.
    apply strip_prefix_spec in Hl. apply Hn. change (norm_parts f) with (norm_path f).2. rewrite Hl.
    rewrite elem_of_app. by right. }
  split; [|done]. rewrite !not_elem_of_cons in Hx. rewrite !not_elem_of_cons.
  naive_solver.
Qed.

Lemma stripe_parts f root :
  path_name (norm_path f) ∉ [""; ".."] →
  ∃ parts, parts ≠ [] ∧ Forall proper parts ∧ _stripe_tape_path f root = "/stripe/" ++ join_parts parts.
Proof.
  intros Hname. rewrite stripe_path_eq. pose proof (kept_proper f root) as Hk. case_bool_decide as He.
  - exists [path_name (norm_path f)].
    assert (Forall proper [path_name (norm_path f)]) as Hp.
    { rewrite !not_elem_of_cons in Hname. destruct Hname as (? & ? & _). constructor; [|done].
      pose proof (elem_of_norm_parts f _ (name_elem f H)) as (? & ? & ?). split; [|done].
      set_solver. }
    split_and!; [done..|]. by apply stripe_posix.
  - exists (kept_parts f root). split_and!; [done..|]. by apply stripe_posix.
Qed.

(** A file below the root keeps its place in the tree. *)
Lemma stripe_below f root rel :
  norm_path f = ((norm_path root).1, (norm_path root).2 ++ rel)%list → rel ≠ [] → Forall proper rel →
  _stripe_tape_path f root = "/stripe/" ++ join_parts rel.
Proof.
  intros Hf Hne Hp. rewrite stripe_path_eq. assert (kept_parts f root = rel) as ->.
  { unfold kept_parts. rewrite bool_decide_false.
    2: { rewrite Hf. intros Heq. destruct (norm_path root) as [a r]. simpl in Heq. injection Heq as Heq.
         apply Hne. assert (length (r ++ rel) = length r) as Hlen by by rewrite Heq.
         rewrite length_app in Hlen. destruct rel; [done | simpl in Hlen; lia]. }
    rewrite Hf. simpl. rewrite bool_decide_true by done.
    rewrite (proj2 (strip_prefix_spec _ _ rel)) by done. simpl.
    clear Hne Hf. induction Hp as [|p l [Hp1 Hp2] _ IH]; [done|]. rewrite filter_cons_True, IH; [done|].
    assert (p ≠ "/") as Hs by (intros ->; apply Hp2; by left).
    rewrite !not_elem_of_cons in Hp1. rewrite !not_elem_of_cons. naive_solver. }
  rewrite bool_decide_false by done. by apply stripe_posix.
Qed.

(** ** The shards of a block-striped file *)
Lemma plan_shards group name content lanes base bs plan :
  plan_block_stripe group name content lanes base bs = Ok plan →
  sh_shard_index <$> sp_shards plan = Z.of_nat <$> seq 0 (length lanes) ∧
  sh_barcode <$> sp_shards plan = lanes.
Proof.
  unfold plan_block_stripe. do 2 (case_bool_decide; [done|]). intros [= <-]. simpl.
  rewrite !fmap_imap. unfold compose. simpl. split; apply list_eq; intros i;
    rewrite list_lookup_imap; [|by destruct (lanes !! i)].
  rewrite list_lookup_fmap. destruct (decide (i < length lanes)%nat) as [Hi|Hi].
  - rewrite lookup_seq_lt by done. by destruct (lookup_lt_is_Some_2 lanes i Hi) as [x ->].
  - rewrite lookup_ge_None_2, lookup_seq_ge by lia. done.
Qed.

Lemma shard_files_all (tmp : list bytes) specs :
  sh_shard_index <$> specs = Z.of_nat <$> seq 0 (length tmp) → shard_file tmp <$> specs = tmp.
Proof.
  intros Hi. unfold shard_file.
  assert ((λ sp, nth (Z.to_nat (sh_shard_index sp)) tmp []) <$> specs =
          (λ i, nth (Z.to_nat i) tmp []) <$> (sh_shard_index <$> specs)) as ->
    by by rewrite <-list_fmap_compose.
  rewrite Hi, <-list_fmap_compose. apply list_eq. intros i. rewrite list_lookup_fmap.
  destruct (decide (i < length tmp)%nat) as [Hlt|Hge].
  - rewrite lookup_seq_lt by done. simpl. rewrite Nat2Z.id, nth_lookup.
    by destruct (lookup_lt_is_Some_2 tmp i Hlt) as [x ->].
  - rewrite lookup_seq_ge, lookup_ge_None_2 by lia. done.
Qed.

Lemma block_lanes f group name base lanes bs fuel :
  0 < bs → (2 ≤ length lanes)%nat → (length (src_content f) < fuel)%nat →
  ∃ plan planned, plan_block_stripe group name (src_content f) lanes base bs = Ok plan ∧
    shard_lanes f bs plan = Ok planned ∧ ln_barcode <$> planned = lanes ∧
    reassemble_block_stripe fuel (ln_content <$> planned) bs =
      Some (src_content f, compute_checksum (src_content f)).
Proof.
  intros Hbs Hlanes Hfuel.
  destruct (reassemble_all_shards (src_content f) (length lanes) fuel bs) as (shards & Hall & Hlen & Hre);
    [lia..|].
  assert (∃ plan, plan_block_stripe group name (src_content f) lanes base bs = Ok plan) as [plan Hplan].
  { unfold plan_block_stripe. rewrite !bool_decide_false by lia. by eexists. }
  pose proof (plan_shards _ _ _ _ _ _ _ Hplan) as [Hidx Hbc].
  assert (length (sp_shards plan) = length lanes) as Hn by by rewrite <-Hbc, length_fmap.
  exists plan, (shard_lane shards <$> sp_shards plan). split; [done|]. split.
  - unfold shard_lanes. rewrite Hn. unfold all_shards in Hall.
    assert (mapR (λ sp, write_shard_to_tempfile (src_content f) (sh_shard_index sp)
      (Z.of_nat (length lanes)) bs) (sp_shards plan) = Ok shards) as ->; [|done].
    rewrite <-(mapR_fmap (λ i, write_shard_to_tempfile (src_content f) i (Z.of_nat (length lanes)) bs)).
    by rewrite Hidx, mapR_fmap.
  - split; [by rewrite <-list_fmap_compose|]. rewrite <-list_fmap_compose.
    assert ((ln_content ∘ shard_lane shards) <$> sp_shards plan = shards) as ->; [|done].
    apply shard_files_all. by rewrite Hidx, Hlen.
Qed.

Lemma locations_distinct planned : NoDup (upper <$> (ln_barcode <$> planned)) → NoDup (location <$> planned).
Proof.
  intros H. apply (NoDup_fmap_1 fst). rewrite <-list_fmap_compose in H.
  rewrite <-list_fmap_compose. exact H.
Qed.

(** ** The record of a block-striped file *)
Section block_record.
Context (str_of class_of : exn → string) (w : surroundings) (job_id : string) `{!Inj (=) (=) (w_uuid w)}.
Context (f : source_file) (rq : archive_request).

Definition recorded (c : catalog) : Prop :=
  ∃ fr, get_file_record (src_path f) c = Some fr ∧
    fl_size_bytes fr = src_size f ∧ fl_checksum_sha256 fr = compute_checksum (src_content f) ∧
    fl_shard_count fr = Some (Z.of_nat (length (ar_lane_barcodes rq))) ∧
    fl_block_size fr = Some (ar_block_size rq).

(** Steps that leave records and instances alone. *)
Notation rowless := (calm (λ c, (ct_files c, ct_instances c))).
Lemma rowless_both s s' : rowless s s' → quiet s s' ∧ calm ct_files s s'.
Proof. intros [[= Hf Hi] H2 H3 H4 H5]. by split; split. Qed.

Lemma recorded_kept s s' : recording w [] s s' → files_ok w s ∧ recorded (tj_catalog s) →
  files_ok w s' ∧ recorded (tj_catalog s').
Proof.
  intros [_ H] [Hok (fr & Hfr & Hrest)]. apply H in Hok as [Hok Ho]. split; [done|]. exists fr. split; [|done].
  rewrite Ho; [done | by apply not_elem_of_nil].
Qed.

Lemma stage_block_recorded vg plan group s :
  plan_block_stripe group (file_name (src_path f)) (src_content f) (ar_lane_barcodes rq) "/block_stripe"
    (ar_block_size rq) = Ok plan → files_ok w s →
  wp (stage_block_stripe w job_id f rq vg plan) (λ _ s', files_ok w s' ∧ recorded (tj_catalog s'))
    (λ _ _, True) s.
Proof.
  intros Hplan Hok. pose proof (plan_shards _ _ _ _ _ _ _ Hplan) as [_ Hbc].
  apply (f_equal length) in Hbc. rewrite length_fmap in Hbc.
  assert (sp_checksum_sha256 plan = compute_checksum (src_content f) ∧ sp_file_size plan = src_size f) as [Hsum Hsize].
  { revert Hplan. unfold plan_block_stripe. do 2 (case_bool_decide; [done|]). by intros [= <-]. }
  unfold stage_block_stripe. do 2 wp_step; [|done]. wp_step.
  eapply wp_mono; [by apply create_record_spec| |done]. cbn beta.
  intros fr s1 (Hok1 & _ & Hfr & (_ & Hs & Hc & Hn & Hb) & _).
  set (ps := (λ k, posix_path (_shard_record_path (src_path f) k)) <$>
    (Z.to_nat <$> (sh_shard_index <$> sp_shards plan))).
  assert (preserves (recording w ps) (stage_shards w job_id f rq vg (fl_id fr) (Z.of_nat (length (sp_shards plan))) a
    (sp_shards plan))) as Hstage.
  { unfold ps. generalize (Z.of_nat (length (sp_shards plan))). intros total.
    assert (∀ specs, (∀ sp, sp ∈ specs → sp ∈ sp_shards plan) →
      preserves (recording w ps) (stage_shards w job_id f rq vg (fl_id fr) total a specs)) as Hall; [|by apply Hall].
    induction specs as [|sp specs IH]; intros Hin; simpl; [solve_preserves|].
    pose proof (IH ltac:(intros; apply Hin; by right)).
    assert (∀ size sum sf, preserves (recording w ps)
      (create_record w (_shard_record_path (src_path f) (Z.to_nat (sh_shard_index sp))) size sum vg sf)).
    { intros. apply create_record_recording; [done|]. unfold ps. apply list_elem_of_fmap. eexists; split; [reflexivity|].
      apply list_elem_of_fmap_2, list_elem_of_fmap_2, Hin. by left. }
    pose proof (stage_instance_recording w job_id ps). unfold stage_lane. solve_preserves. }
  eapply wp_mono; [by apply (wp_preserves (recording w ps))| |done]. cbn beta. intros pl s2 [_ H2].
  apply H2 in Hok1 as [Hok2 Ho]. split; [done|]. exists fr. rewrite Ho.
  - rewrite Hs, Hc, Hn, Hb, Hsum, Hsize. simpl. by rewrite Hbc.
  - unfold ps. intros (k & Hk & _)%list_elem_of_fmap. by apply (shard_path_other (src_path f) k).
Qed.

(** Either nothing is archived, or the record is there. *)
Definition either (s s' : tape_job) : Prop :=
  inst_ok w s' ∧ archived_same (tj_catalog s) (tj_catalog s') ∨ files_ok w s' ∧ recorded (tj_catalog s').
Lemma either_rowless s s1 s2 : rowless s1 s2 → either s s1 → either s s2.
Proof.
  intros [Hq Hf]%rowless_both [[Hi Ha]|H].
  - left. apply (quiet_inst _ _ _ Hq) in Hi as [Hi Ha']. split; [done|]. intros id r. by rewrite (Ha' id r).
  - right. eapply recorded_kept; [by apply recording_calm | done].
Qed.

(** Once the record is there, what follows keeps it. *)
Lemma kept_recorded {A} (m : M tape_job A) s :
  preserves (recording w []) m → files_ok w s ∧ recorded (tj_catalog s) →
  wp m (λ _ s', files_ok w s' ∧ recorded (tj_catalog s')) (λ _ s', files_ok w s' ∧ recorded (tj_catalog s')) s.
Proof.
  intros Hm Hs. eapply wp_mono; [by apply (wp_preserves (recording w []))| |]; cbn beta; intros ? s' H';
    by eapply recorded_kept.
Qed.

Lemma block_body_recorded vg plan planned group refs s :
  plan_block_stripe group (file_name (src_path f)) (src_content f) (ar_lane_barcodes rq) "/block_stripe"
    (ar_block_size rq) = Ok plan → shard_lanes f (ar_block_size rq) plan = Ok planned →
  inst_ok w s → files_ok w s →
  wp (archive_body str_of w job_id refs (stage_block_stripe w job_id f rq vg plan))
    (λ _ s', files_ok w s' ∧ recorded (tj_catalog s')) (λ _ s', either s s') s.
Proof.
  intros Hplan Hpl Hi Hf. unfold archive_body.
  apply (wp_bind_preserves rowless) with (s0 := s); [auto with preserves | done | |].
  { intros e s1 H1. apply (either_rowless _ _ _ H1). left. by split. }
  intros _ s1 H1. pose proof (rowless_both _ _ H1) as [Hq1 Hc1].
  destruct (quiet_inst _ _ _ Hq1 Hi) as [Hi1 Ha1]. apply (recording_calm w []) in Hc1.
  destruct (rc_files _ _ _ _ Hc1 Hf) as [Hf1 _]. wp_step.
  eapply wp_mono; [apply wp_and; [by eapply stage_block_recorded|
    apply (wp_preserves (unarchived w)), (stage_block_stages w job_id f rq vg plan planned Hpl)]| |]; cbn beta.
  - intros pl s2 [H2 _]. eapply wp_mono; [apply kept_recorded; [|exact H2]|done|by right].
    pose proof (write_batch_recording w []). pose proof (verify_and_commit_recording str_of w job_id []).
    assert (∀ ref, preserves (recording w []) (verify_handle w ref)) by
      (intros ref; apply preserves_recording; auto with preserves).
    solve_preserves.
  - intros e s2 [_ H2]. apply (u_inst _ _ _ H2) in Hi1 as [Hi2 Ha2]. left. split; [done|].
    intros id r. by rewrite (Ha2 id r).
Qed.

Lemma either_trans s1 s2 s3 :
  archived_same (tj_catalog s1) (tj_catalog s2) → either s2 s3 → either s1 s3.
Proof. intros Ha [[Hi Hb]|H]; [left|by right]. split; [done|]. intros id r. by rewrite (Hb id r). Qed.

Lemma archive_block_recorded vg plan planned s :
  plan_block_stripe (w_uuid w (tj_tick s)) (file_name (src_path f)) (src_content f) (ar_lane_barcodes rq)
    "/block_stripe" (ar_block_size rq) = Ok plan → shard_lanes f (ar_block_size rq) plan = Ok planned →
  inst_ok w s → files_ok w s →
  wp (_archive_block_stripe str_of class_of w job_id f rq vg)
    (λ r s', is_Some r → recorded (tj_catalog s')) (λ _ s', either s s') s.
Proof.
  intros Hplan Hpl Hi Hf. unfold _archive_block_stripe. assert (either s s) as H0 by by left.
  wp_step. apply wp_tick. rewrite Hplan. do 2 wp_step; [|by left]. simplify_eq. do 2 wp_step.
  set (s0 := with_group _ _). assert (rowless s s0) as Hs0 by (split; try done; simpl; lia).
  apply (wp_bind_preserves rowless) with (s0 := s); [auto with preserves | done | by intros e t Ht; apply (either_rowless _ _ _ Ht) |].
  intros [refs|] s1 H1; [|wp_step; by intros []].
  apply (wp_bind_preserves rowless) with (s0 := s); [auto with preserves | done | by intros e t Ht; apply (either_rowless _ _ _ Ht) |].
  intros _ s2 H2. unfold with_drives_held. do 2 wp_step. set (s3 := with_locals _ _ _ _ s2).
  destruct (rowless_both _ _ H2) as [Hq3 Hc3].
  destruct (quiet_inst _ _ _ Hq3 Hi) as [Hi3 Ha3]. apply (recording_calm w []) in Hc3.
  destruct (rc_files _ _ _ _ Hc3 Hf) as [Hf3 _].
  set (fin := gets tj_fenced ≫= _). assert (preserves rowless fin) as Hfin by (unfold fin; solve_preserves).
  apply wp_try_finally, wp_try_except. wp_step.
  eapply wp_mono; [by eapply block_body_recorded| |]; cbn beta.
  - intros pl s4 H4. wp_step. eapply wp_mono; [by apply (wp_preserves rowless)| |]; cbn beta; intros ? s5 H5.
    + intros _. apply (recorded_kept s4); [|done]. apply recording_calm. by apply rowless_both.
    + right. apply (recorded_kept s4); [|done]. apply recording_calm. by apply rowless_both.
  - intros e s4 H4%(either_trans s); [|done].
    assert (∀ s5, rowless s4 s5 → wp fin (λ _, either s) (λ _, either s) s5) as Hf5.
    { intros s5 H5. eapply wp_mono; [by apply (wp_preserves rowless)| |]; cbn beta; intros ? s6 H6;
        by eapply either_rowless; [|eapply either_rowless]. }
    assert (∀ event d e' s5, rowless s4 s5 → wp (journal_op w job_id event d;; raise (A := option ()) e')
      (λ x t, wp fin (λ _ t', is_Some x → recorded (tj_catalog t')) (λ _, either s) t)
      (λ _, wp fin (λ _, either s) (λ _, either s)) s5) as Hnote.
    { intros event d e' s5 H5. apply (wp_bind_preserves rowless) with (s0 := s4); [auto with preserves | done..|].
      intros _ s6 H6. wp_step. by apply Hf5. }
    case_bool_decide; [do 2 wp_step; by apply Hnote | by apply Hnote].
Qed.
End block_record.

(** ** Text *)
Lemma str_length_app s t : String.length (s ++ t) = (String.length s + String.length t)%nat.
Proof. induction s as [|c s IH]; simpl; [done|]. by rewrite IH. Qed.
Lemma str_take_length n s : (String.length (str_take n s) ≤ n)%nat.
Proof.
  unfold str_take. revert n. induction s as [|c s IH]; intros [|n]; simpl; try lia.
  specialize (IH n). lia.
Qed.
Lemma unique_snoc seen l e : e ∈ l ∨ e ∈ seen → unique seen (l ++ [e]) = unique seen l.
Proof.
  revert seen. induction l as [|x l IH]; intros seen He; simpl.
  - destruct He as [?%elem_of_nil|He]; [done|]. by rewrite bool_decide_true.
  - rewrite elem_of_cons in He. case_bool_decide as Hx.
    + apply IH. destruct He as [[->|?]|?]; auto.
    + f_equal. apply IH. rewrite elem_of_cons. naive_solver.
Qed.

(** ** Examples *)
Definition sample_ltfs (lib_faults ltfs_faults : fault_config) : ltfs :=
  let lib := (seed_slots ["TAPE01L8"; "TAPE02L8"]
                (MockLibraryBackend "lib" 4 2 0%Q lib_faults None 1)).2 in
  let s := MockLTFSBackend lib 12000000000 ltfs_faults NoInjector in
  (format 1 "TAPE02L8" (Some (confirm "TAPE02L8"))
     (format 1 "TAPE01L8" (Some (confirm "TAPE01L8")) s).2).2.
Definition sample_others : others := λ c, (ct_leases c, ct_journal c).
Definition sample_surroundings : surroundings := {|
  w_now n := 10 + Z.of_nat n;
  w_uuid n := pretty n;
  w_env n := OpEnv ("op" ++ pretty n) "" "" 10 10 10 10;
  w_busy n := [];
  w_wait n := (0, [Waiting (λ i, "lease" ++ pretty n ++ "." ++ pretty i) (10 + Z.of_nat n) 0
                     sample_others]);
  w_others n := sample_others;
  w_rank n i := Z.of_nat i;
|}.
Definition sample_start (lib_faults ltfs_faults : fault_config) : tape_job :=
  let c := (Catalog.create_job "job1" 1 "archive" [] empty_catalog).2 in
  TapeJob (Plant c [] (sample_ltfs lib_faults ltfs_faults))
    (new_scheduler 2 "job1" DEFAULT_LEASE_TTL) 0 [] [] [] false [] [].
Definition run_sample (root : string) (lanes : list string) (mode : shard_mode)
    (files : list source_file) : M tape_job (option archive_result) :=
  run_sharded_archive (λ _, "tape error") (λ _, "Error") sample_surroundings "job1"
    (ShardedArchiveRequest root "vg" lanes mode 4 false) files.
Definition with_ltfs_faults (fc : fault_config) (s : tape_job) : tape_job :=
  let l := tj_ltfs s in
  with_cell (Plant (tj_catalog s) (pl_ops (tj_plant s))
    (Ltfs (lt_library l) (lt_capacity_bytes l) fc (lt_injector l) (tapes l) (active_mounts l)))
    (tj_sched s) (tj_tick s) s.

(** The check a restore ends with: whether the bytes at the location of the
    latest archived instance have the checksum of the record. *)
Definition intact (s : tape_job) (path : string) : option bool :=
  match get_latest_instance_for_path path (tj_catalog s) with
  | Ok (record, i) =>
      Some (bool_decide (sha256_hex <$> content_at (tj_ltfs s) (fi_barcode i) (fi_tape_path i) =
                         Some (fl_checksum_sha256 record)))
  | Raise _ => None
  end.

Definition two_files : list source_file :=
  [SourceFile "/data/alpha/same.txt" (bytes_of "one"); SourceFile "/data/beta/same.txt" (bytes_of "two")].

Lemma sample_start_ok fc1 fc2 : inst_ok sample_surroundings (sample_start fc1 fc2).
Proof. split; [|done]. split; [constructor | done]. Qed.
Lemma sample_files_ok fc1 fc2 : files_ok sample_surroundings (sample_start fc1 fc2).
Proof. split; [constructor | done]. Qed.
Lemma sample_uuids m n : w_uuid sample_surroundings m = w_uuid sample_surroundings n → m = n.
Proof. apply pretty_nat_inj. Qed.

(** * Properties *)



(** C9: A block-striped file comes back: archiving one file over at least two
    distinct lanes, with a positive block size, either makes no new instance
    restorable, or leaves every shard on the tape its instance names, and the
    shards read back in lane order reassemble to the file, whose record, found at
    its path, has its size, the checksum of the reassembled bytes, the number of
    lanes and the block size.  Answering normally means the latter, unless the job
    is still waiting for its drives.  The identifiers drawn are assumed new. *)
Theorem block_stripe_restorable (str_of class_of : exn → string) (w : surroundings) (job_id : string)
    (f : source_file) (rq : archive_request) (vg : string) (s : tape_job) (fuel : nat)
    (Huuid : ∀ m n, w_uuid w m = w_uuid w n → m = n) (Hwf : inst_ok w s) (Hfiles : files_ok w s)
    (Hbs : 0 < ar_block_size rq) (Hlanes : (2 ≤ length (ar_lane_barcodes rq))%nat)
    (Hdistinct : NoDup (upper <$> ar_lane_barcodes rq))
    (Hfuel : (length (src_content f) < fuel)%nat) :
  let '(r, s') := _archive_block_stripe str_of class_of w job_id f rq vg s in
  archived_same (tj_catalog s) (tj_catalog s') ∧ r ≠ Ok (Some tt) ∨
  ∃ planned fr, ln_barcode <$> planned = ar_lane_barcodes rq ∧
    (∀ l, l ∈ planned → on_tape (tj_ltfs s') l ∧
       ∃ id row, archived_in (tj_catalog s') id row ∧ row_of l row) ∧
    get_file_record (src_path f) (tj_catalog s') = Some fr ∧
    fl_size_bytes fr = blen (src_content f) ∧
    fl_shard_count fr = Some (Z.of_nat (length planned)) ∧ fl_block_size fr = Some (ar_block_size rq) ∧
    reassemble_block_stripe fuel (ln_content <$> planned) (ar_block_size rq) =
      Some (src_content f, fl_checksum_sha256 fr).
Proof.
  assert (Inj (=) (=) (w_uuid w)) by done.
  destruct (block_lanes f (w_uuid w (tj_tick s)) (file_name (src_path f)) "/block_stripe"
    (ar_lane_barcodes rq) (ar_block_size rq) fuel) as (plan & planned & Hplan & Hpl & Hbc & Hre);
    [done..|].
  assert (NoDup (location <$> planned)) as Hnd by (apply locations_distinct; by rewrite Hbc).
  pose proof (archive_block_spec str_of class_of w job_id f rq vg _ plan planned s Hwf eq_refl Hplan Hpl
    Hnd) as Hspec.
  pose proof (archive_block_recorded str_of class_of w job_id f rq vg plan planned s Hplan Hpl Hwf Hfiles) as Hrec.
  apply wp_unfold in Hspec, Hrec.
  assert (∀ s', committed w planned s s' → recorded f rq (tj_catalog s') → ∃ planned fr,
    ln_barcode <$> planned = ar_lane_barcodes rq ∧
    (∀ l, l ∈ planned → on_tape (tj_ltfs s') l ∧ ∃ id row, archived_in (tj_catalog s') id row ∧ row_of l row) ∧
    get_file_record (src_path f) (tj_catalog s') = Some fr ∧ fl_size_bytes fr = blen (src_content f) ∧
    fl_shard_count fr = Some (Z.of_nat (length planned)) ∧ fl_block_size fr = Some (ar_block_size rq) ∧
    reassemble_block_stripe fuel (ln_content <$> planned) (ar_block_size rq) =
      Some (src_content f, fl_checksum_sha256 fr)) as Hdone.
  { intros s' Hc (fr & Hfr & Hsize & Hsum & Hn & Hb). exists planned, fr. rewrite Hsum.
    split_and!; try done; [apply Hc|]. rewrite Hn, <-Hbc. by rewrite length_fmap. }
  destruct (_archive_block_stripe _ _ _ _ _ _ _ s) as [[[[]|]|e] s'].
  - right. by apply Hdone; [|apply Hrec].
  - left. split; [apply Hspec | done].
  - destruct Hspec as [Hc|Ha]; [|left; split; [apply Ha | done]].
    destruct Hrec as [[_ Hsame]|[_ Hr]]; [by left | right; by apply Hdone].
Qed.

Lemma block_stripe_restorable_witness :
  let s := sample_start no_faults no_faults in
  let rq := ShardedArchiveRequest "/data" "vg" ["TAPE01L8"; "TAPE02L8"] ShardMode.BLOCK_STRIPE 4 false in
  let f := SourceFile "/data/f" (bytes_of "abcdefghij") in
  let s' := (_archive_block_stripe (λ _, "") (λ _, "") sample_surroundings "job1" f rq "vg" s).2 in
  (∃ planned, ln_barcode <$> planned = ["TAPE01L8"; "TAPE02L8"] ∧
    Forall (on_tape (tj_ltfs s')) planned) ∧
  content_at (tj_ltfs s') "TAPE01L8" "/block_stripe/0/f.shard0000" = Some (bytes_of "abcdij").
Proof.
  intros s rq f s'. split; [|vm_compute; reflexivity].
  pose proof (block_stripe_restorable (λ _, "") (λ _, "") sample_surroundings "job1" f rq "vg" s 11
    sample_uuids (sample_start_ok _ _) (sample_files_ok _ _) ltac:(reflexivity) ltac:(simpl; lia)
    ltac:(apply (bool_decide_unpack _); vm_compute; exact I) ltac:(simpl; lia)) as H.
  assert ((_archive_block_stripe (λ _, "") (λ _, "") sample_surroundings "job1" f rq "vg" s).1
    = Ok (Some tt)) as Hr by (vm_compute; reflexivity).
  unfold s'. destruct (_archive_block_stripe _ _ _ _ _ _ _ s) as [r s2]. simpl in Hr.
  destruct H as [[_ Hne]|(planned & fr & Hb & Hon & _)]; [by destruct Hne|].
  exists planned. split; [exact Hb|]. apply Forall_forall. intros l Hl. by apply Hon.
Defined.

(** A file is written strictly below [/stripe], at a path without climbing
    components, whatever its path and the source root are, unless it has no name;
    and below the root it keeps its place in the tree, so two files of one source
    never share a location. *)
Theorem stripe_path_contained (source_file source_root : string)
    (Hname : path_name (norm_path source_file) ∉ [""; ".."]) :
  (∃ parts, parts ≠ [] ∧ Forall proper parts ∧
     _stripe_tape_path source_file source_root = "/stripe/" ++ join_parts parts) ∧
  ∀ other rel rel', rel ≠ [] → rel' ≠ [] → Forall proper rel → Forall proper rel' →
    norm_path source_file = ((norm_path source_root).1, (norm_path source_root).2 ++ rel)%list →
    norm_path other = ((norm_path source_root).1, (norm_path source_root).2 ++ rel')%list →
    _stripe_tape_path source_file source_root = _stripe_tape_path other source_root → rel = rel'.
Proof.
  split; [by apply stripe_parts|]. intros other rel rel' Hne Hne' Hp Hp' Hf Ho Heq.
  rewrite !(stripe_below _ _ _ Hf), !(stripe_below _ _ _ Ho) in Heq by done.
  apply (f_equal (split_on "/"%char)) in Heq.
  assert (∀ t, split_on "/"%char ("/stripe/" ++ t) = "" :: "stripe" :: split_on "/"%char t) as Hs.
  { intros t. change ("/stripe/" ++ t) with (("" ++ String "/" ("stripe" ++ String "/" t))%string).
    by rewrite !split_on_app by (apply (bool_decide_unpack _); vm_compute; exact I). }
  rewrite !Hs in Heq. injection Heq as Heq.
  rewrite !split_on_join in Heq; try done; (eapply Forall_impl; [eassumption|by intros p []]).
Qed.

Lemma stripe_path_contained_witness :
  _stripe_tape_path "/data/../etc/passwd" "/data" = "/stripe/passwd" ∧
  ∃ parts, parts ≠ [] ∧ Forall proper parts ∧
    _stripe_tape_path "/data/a/../../etc/shadow" "/data" = "/stripe/" ++ join_parts parts.
Proof.
  split; [vm_compute; reflexivity|].
  exact (proj1 (stripe_path_contained "/data/a/../../etc/shadow" "/data"
    ltac:(apply (bool_decide_unpack _); vm_compute; exact I))).
Defined.

(** Two jobs do overwrite each other: the location of a file depends on its
    place below the root of its job, and not on the root, so archiving
    [/data/alpha] and then [/data/beta], each with a file of the same name, writes
    both to one location; both jobs complete without error, both files stay
    catalogued as archived there, and the first can no longer be restored. *)
Theorem stripe_jobs_overwrite :
  let run root content := run_sample root ["TAPE01L8"] ShardMode.STRIPE
                            [SourceFile (root ++ "/same.txt") (bytes_of content)] in
  let '(r1, s1) := run "/data/alpha" "one" (sample_start no_faults no_faults) in
  let '(r2, s2) := run "/data/beta" "two" s1 in
  _stripe_tape_path "/data/alpha/same.txt" "/data/alpha" = "/stripe/same.txt" ∧
  _stripe_tape_path "/data/beta/same.txt" "/data/beta" = "/stripe/same.txt" ∧
  match r1, r2 with
  | Ok (Some res1), Ok (Some res2) =>
      rs_files_archived res1 = 1 ∧ rs_files_archived res2 = 1 ∧
      rs_errors res1 = [] ∧ rs_errors res2 = []
  | _, _ => False
  end ∧
  intact s1 "/data/alpha/same.txt" = Some true ∧
  intact s2 "/data/beta/same.txt" = Some true ∧ intact s2 "/data/alpha/same.txt" = Some false.
Proof.
  vm_compute. by split_and!.
Qed.

(** Archiving a file again is not invisible until it commits: staging writes
    the size and checksum of the new content into the file record that the older
    archived instance belongs to, so when the new copy then fails (here for want of
    space), the copy on tape, untouched, no longer matches its record and cannot be
    restored. *)
Theorem failed_rearchive_breaks_copy :
  let run content := run_sample "/data" ["TAPE01L8"] ShardMode.STRIPE
                       [SourceFile "/data/f" (bytes_of content)] in
  let s1 := (run "old" (sample_start no_faults no_faults)).2 in
  let '(r2, s2) := run "new!" (with_ltfs_faults (with_fault FaultType.NO_FREE_SPACE) s1) in
  match r2 with Ok (Some res) => rs_files_archived res = 0 ∧ rs_errors res ≠ [] | _ => False end ∧
  content_at (tj_ltfs s2) "TAPE01L8" "/stripe/f" = Some (bytes_of "old") ∧
  snd <$> get_latest_instance_for_path "/data/f" (tj_catalog s2) =
    snd <$> get_latest_instance_for_path "/data/f" (tj_catalog s1) ∧
  intact s1 "/data/f" = Some true ∧ intact s2 "/data/f" = Some false.
Proof. vm_compute. by split_and!. Qed.

(** The cleanup after a failed batch does not notice a tape it could not
    unload: without [raise_on_failed] the orchestrator answers with a failed
    record and no exception, so the drive still holds the cartridge when its lease
    is released, nothing is pending reconciliation, and the next job is given the
    drive. *)
Theorem cleanup_swallows_failed_unload :
  let '(r, s) := run_sample "/data" ["TAPE01L8"] ShardMode.STRIPE [SourceFile "/data/f" (bytes_of "x")]
                   (sample_start (with_fault FaultType.UNLOAD_FAILURE)
                      (with_fault FaultType.NO_FREE_SPACE)) in
  let c := tj_catalog s in
  match r with Ok (Some res) => rs_errors res = ["tape error"] | _ => False end ∧
  find_drive_by_barcode "TAPE01L8" (lt_library (tj_ltfs s)) = Ok (Some 0) ∧
  existsb (λ op, bool_decide (to_op_type op.2 = TapeOpType.UNLOAD) &&
                 bool_decide (to_status op.2 = TapeOpStatus.FAILED)) (pl_ops (tj_plant s)) = true ∧
  live_leases 1000 c = [] ∧
  drives_pending_reconciliation c = [] ∧ barcodes_pending_reconciliation c = [].
Proof. vm_compute. by split_and!. Qed.

(** The error text of a job is bounded whatever the number and the length of
    its failures, is absent exactly when there are none, and depends on repeated
    messages only through their number. *)
Theorem summary_bounded (errors : list string) :
  (_summarize_errors errors = None ↔ errors = []) ∧
  (∀ t, _summarize_errors errors = Some t → (String.length t ≤ _JOB_ERROR_MAX_CHARS)%nat) ∧
  ∀ e, e ∈ errors → unique [] (errors ++ [e]) = unique [] errors.
Proof.
  unfold _summarize_errors. split_and!.
  - by case_bool_decide.
  - intros t. case_bool_decide; [done|]. intros [= <-]. case_bool_decide as Hlen; [|lia].
    rewrite str_length_app. match goal with |- (String.length (str_take ?n ?t) + _ ≤ _)%nat =>
      pose proof (str_take_length n t) end.
    change (String.length "...") with 3%nat. unfold _JOB_ERROR_MAX_CHARS. lia.
  - intros e He. apply unique_snoc. by left.
Qed.
