(* ===== verification/ShardRestore.v ===== *)
(** The sharded restore: openblade/jobs/sharded_restore.py.

    The destination is one file, absent or holding bytes; the scratch files in
    between are values.  The shards are read by a thread each, from different
    tapes; here one after the other, each whatever became of the others. *)
From stdpp Require Import base list option strings pretty sets.
From Stdlib Require Import Ascii ZArith QArith Lia.
From S2P Require Import Prelude Wp Domain Paths Leases Catalog Faults Library Reconcile CatalogStore.
From S2P Require Import Scheduler Queue Bytes Shard Ltfs Orchestrator TapeJob Archive.
#[local] Open Scope string_scope.
#[local] Open Scope Z_scope.

(** * State *)
Record restore_request := ShardedRestoreRequest {
  sr_catalog_path : string;
  sr_block_size : Z;
}.

Record restore_result := ShardedRestoreResult {
  so_job_id : string;
  so_source_barcodes : list string;
  so_checksum_verified : bool;
  so_bytes_restored : Z;
  so_error : option string;
}.

(** Beside the job, the destination file and the locals the clean-up reads: the
    drive and slot of a single restore, and what the clean-up found. *)
Record restore_state := RestoreState {
  rt_job : tape_job;
  rt_dest : option bytes;
  rt_drive : Z;
  rt_slot : option Z;
  rt_cleanup_failed : bool;
  rt_still_mounted : bool;
}.
Definition with_job (j : tape_job) (s : restore_state) : restore_state :=
  RestoreState j (rt_dest s) (rt_drive s) (rt_slot s) (rt_cleanup_failed s) (rt_still_mounted s).
Definition with_dest (d : option bytes) (s : restore_state) : restore_state :=
  RestoreState (rt_job s) d (rt_drive s) (rt_slot s) (rt_cleanup_failed s) (rt_still_mounted s).
Definition with_loaded_drive (d : Z) (slot : option Z) (s : restore_state) : restore_state :=
  RestoreState (rt_job s) (rt_dest s) d slot (rt_cleanup_failed s) (rt_still_mounted s).
Definition with_cleanup (failed still : bool) (s : restore_state) : restore_state :=
  RestoreState (rt_job s) (rt_dest s) (rt_drive s) (rt_slot s) failed still.

Definition on_job {A} (m : M tape_job A) : M restore_state A := zoom rt_job with_job m.

(** * Which instances *)

(** [max(l, key=...)]: the first of the largest. *)
Fixpoint max_by {A} (key : A → Z) (best : A) (l : list A) : A :=
  match l with
  | [] => best
  | x :: l => max_by key (if bool_decide (key best < key x) then x else best) l
  end.

Definition archived_of (file_id : string) (c : catalog) : list instance_row :=
  filter (λ r, fi_state r = enum_value FileInstanceState.ARCHIVED) (instances_of file_id c).

Definition _latest_archived_instance (record : file_row) (c : catalog) : option instance_row :=
  match archived_of (fl_id record) c with
  | [] => None
  | i :: l => Some (max_by (λ r, default (fi_created_at r) (fi_archived_at r)) i l)
  end.

(** [a or b] on integers that may be missing. *)
Definition int_or (a : option Z) (b : Z) : Z :=
  match a with Some n => if bool_decide (n = 0) then b else n | None => b end.

(** The instances to read with their block size, or the error of the job. *)
Definition restore_plan (f : file_row) (block_size : Z) (c : catalog)
    : (string + list instance_row * Z) :=
  let shard_records := list_shard_records (fl_id f) c in
  let expected_shard_count := int_or (fl_shard_count f) 0 in
  let requires_shard_records :=
    bool_decide (1 < expected_shard_count) || bool_decide (fl_shard_profile f = Some "block_stripe") in
  if requires_shard_records &&
     bool_decide (Z.of_nat (length shard_records) ≠ expected_shard_count)
  then inl "Missing shard catalog entries"
  else if bool_decide (length shard_records ≠ 0)%nat then
    let ordered_shards :=
      sort_by (λ a b, bool_decide (int_or (fl_shard_index a) 0 ≤ int_or (fl_shard_index b) 0))
        shard_records in
    let instances := omap (λ r, _latest_archived_instance r c) ordered_shards in
    if bool_decide (length instances ≠ length ordered_shards)
    then inl "Missing archived shard instances"
    else inr (instances, int_or (fl_block_size f) block_size)
  else inr (sort_by (λ a b, String.leb (fi_tape_path a) (fi_tape_path b)) (archived_of (fl_id f) c),
            block_size).

(** * Operations *)
Section restore.
Context (str_of : exn → string) (w : surroundings) (job_id : string).

Definition _cleanup_failed (refs : list nat) (op bc : string) (drive : option Z) : M tape_job unit :=
  record_unknown w job_id refs op bc drive;;
  job ← gets (λ s, Catalog.get_job job_id (tj_catalog s));
  match job with
  | Some j =>
      when (bool_decide (default "" (jb_error j) = ""))
        (job_state_op w job_id "failed" (Some PHYSICAL_STATE_UNKNOWN_TEXT))
  | None => mret tt
  end.

Definition refuse_exported (bc : string) : M tape_job unit :=
  c ← gets tj_catalog;
  match get_cartridge bc c with
  | Some r =>
      when (bool_decide (cr_state r = enum_value CartridgeState.EXPORTED))
        (job_state_op w job_id "failed" (Some ("Cartridge " ++ bc ++ " is offline/exported"));;
         raise CartridgeOfflineError)
  | None => mret tt
  end.

Definition _ensure_loaded (ref : nat) : M tape_job (Z * option Z) :=
  h ← handle_at ref;
  loaded ← on_plant (ask (find_drive_by_barcode (dh_barcode h)));
  match loaded with
  | Some loaded_drive_id =>
      c ← gets tj_catalog;
      liftR (ensure_drive_reconciled c loaded_drive_id (Some (dh_barcode h)));;
      when (bool_decide (loaded_drive_id ≠ dh_drive_id h))
        (sched_op (modify (λ cs, (cs.1, update_handles (set_physical loaded_drive_id) [ref] cs.2))));;
      mret (loaded_drive_id, None)
  | None =>
      slot ← on_plant (ask (find_slot_by_barcode (dh_barcode h)));
      match slot with
      | None => raise CartridgeOfflineError
      | Some slot_id =>
          c ← gets tj_catalog;
          liftR (ensure_drive_reconciled c (dh_drive_id h) (Some (dh_barcode h)));;
          request_op str_of w true (tape_request job_id "sharded-restore" TapeOpType.LOAD
                                      (dh_barcode h) (dh_drive_id h) slot_id);;
          mret (dh_drive_id h, Some slot_id)
      end
  end.

Definition unload_request (bc : string) (drive slot : Z) : tape_op_request :=
  tape_request job_id "sharded-restore" TapeOpType.UNLOAD bc drive slot.

Definition restored (barcodes : list string) (f : file_row) : restore_result :=
  ShardedRestoreResult job_id barcodes true (fl_size_bytes f) None.

(** ** One instance *)

(** Read, compare with the checksum of the record, copy to the destination. *)
Definition read_verified (m : mount_handle) (i : instance_row) (f : file_row)
    : M restore_state unit :=
  data ← on_job (tape_op (fst <$> read_file m (posix_path (fi_tape_path i))));
  let actual_checksum := compute_checksum data in
  when (bool_decide (actual_checksum ≠ fl_checksum_sha256 f))
    (on_job (job_state_op w job_id "failed"
       (Some ("Checksum mismatch: expected " ++ fl_checksum_sha256 f ++ ", got " ++ actual_checksum)));;
     raise ChecksumMismatchError);;
  modify (with_dest (Some data)).

Definition unmount_single (refs : list nat) (m : mount_handle) (bc : string) : M restore_state unit :=
  r ← attempt (on_job (tape_op (Ltfs.unmount m)));
  match r with
  | Ok _ => mret tt
  | Raise _ =>
      modify (with_cleanup true true);;
      s ← getS;
      on_job (_cleanup_failed refs "unmount" bc (Some (rt_drive s)))
  end.

Definition unload_single (refs : list nat) (bc : string) : M restore_state unit :=
  s ← getS;
  match rt_slot s with
  | Some slot_id =>
      when (negb (rt_still_mounted s))
        (r ← attempt (on_job (request_op str_of w false (unload_request bc (rt_drive s) slot_id)));
         match r with
         | Ok _ => mret tt
         | Raise _ =>
             modify (with_cleanup true (rt_still_mounted s));;
             on_job (_cleanup_failed refs "unload" bc (Some (rt_drive s)))
         end)
  | None => mret tt
  end.

Definition release_all (refs : list nat) : M restore_state unit :=
  now ← on_job (tick (w_now w));
  on_job (sched_op (release_drives now refs)).

(** The job is completed, unless the clean-up failed. *)
Definition complete_unless_failed : M restore_state unit :=
  s ← getS;
  when (negb (rt_cleanup_failed s)) (on_job (job_state_op w job_id "completed" None)).

(** [None]: still waiting for the drive. *)
Definition _restore_single (i : instance_row) (f : file_row) : M restore_state (option restore_result) :=
  let bc := fi_barcode i in
  on_job (refuse_exported bc);;
  acquired ← on_job (acquire w [bc]);
  match acquired with
  | None => mret None
  | Some refs =>
      match refs with
      | [] => raise LookupError
      | ref :: _ =>
          h ← on_job (handle_at ref);
          modify (with_loaded_drive (dh_drive_id h) None);;
          modify (with_cleanup false false);;
          try_finally
            (loaded ← on_job (_ensure_loaded ref);
             modify (with_loaded_drive loaded.1 loaded.2);;
             uuid ← on_job (tick (w_uuid w));
             m ← on_job (tape_op (mount uuid bc MountMode.READ_ONLY));
             try_finally (read_verified m i f) (unmount_single refs m bc))
            (unload_single refs bc;; release_all refs);;
          complete_unless_failed;;
          mret (Some (restored [bc] f))
      end
  end.

(** ** Several instances *)
Fixpoint load_all (refs : list nat) : M tape_job unit :=
  match refs with
  | [] => mret tt
  | ref :: refs =>
      loaded ← _ensure_loaded ref;
      modify (λ s, with_loaded (dset (tj_loaded s) loaded.1 loaded.2) s);;
      load_all refs
  end.

Definition mount_read_only (refs : list nat) : M tape_job unit :=
  forM refs (λ ref,
    h ← handle_at ref;
    uuid ← tick (w_uuid w);
    m ← tape_op (mount uuid (dh_barcode h) MountMode.READ_ONLY);
    modify (λ s, with_mounted (dset (tj_mounts s) (dh_barcode h) m) s)).

Definition _read_shard (i : instance_row) : M tape_job bytes :=
  s ← getS;
  m ← dindex (tj_mounts s) (fi_barcode i);
  tape_op (fst <$> read_file m (posix_path (fi_tape_path i))).

(** Every shard is read, whatever becomes of the others; the shard files, by
    index, and the failures. *)
Fixpoint read_shards (insts : list (nat * instance_row)) (files : list bytes)
    : M tape_job (list bytes * list exn) :=
  match insts with
  | [] => mret (files, [])
  | (index, i) :: insts =>
      r ← attempt (_read_shard i);
      match r with
      | Ok data => read_shards insts (<[index := data]> files)
      | Raise e => rest ← read_shards insts files; mret (rest.1, e :: rest.2)
      end
  end.

Definition read_batch (insts : list instance_row) : M tape_job (list bytes) :=
  rank ← tick (w_rank w);
  r ← read_shards (by_rank rank (imap pair insts)) (replicate (length insts) []);
  match r.2 with [] => mret r.1 | e :: _ => raise e end.

(** [None] in place of the bytes: the loop that reassembles has not ended, which
    happens with no shard only. *)
Definition reassemble (shard_files : list bytes) (block_size : Z) : option (bytes * string) :=
  reassemble_block_stripe (S (total shard_files)) shard_files block_size.

(** The destination is written while reassembling, and removed on a mismatch. *)
Definition reassemble_verified (shard_files : list bytes) (block_size : Z) (f : file_row)
    : M restore_state unit :=
  match reassemble shard_files block_size with
  | None => raise (OtherError "never returns")
  | Some (data, actual_checksum) =>
      modify (with_dest (Some data));;
      when (bool_decide (actual_checksum ≠ fl_checksum_sha256 f))
        (modify (with_dest None);;
         on_job (job_state_op w job_id "failed"
           (Some ("Reassembled checksum mismatch: " ++ actual_checksum ++ " != " ++
                  fl_checksum_sha256 f)));;
         raise ChecksumMismatchError)
  end.

Fixpoint unload_all (all : list nat) (still_mounted : list string) (refs : list nat)
    : M tape_job bool :=
  match refs with
  | [] => mret false
  | ref :: refs =>
      h ← handle_at ref;
      slot ← loaded_from h;
      failed ←
        match slot with
        | None => mret false
        | Some slot_id =>
            if bool_decide (dh_barcode h ∈ still_mounted) then mret false
            else
              r ← attempt (request_op str_of w false
                             (unload_request (dh_barcode h) (physical h) slot_id));
              match r with
              | Ok _ => mret false
              | Raise _ =>
                  _cleanup_failed all "unload" (dh_barcode h) (Some (physical h));; mret true
              end
        end;
      more ← unload_all all still_mounted refs;
      mret (failed || more)
  end.

Definition release_tapes (refs : list nat) : M restore_state unit :=
  s ← getS;
  still_mounted ← on_job (unmount_all false
    (λ bc, _cleanup_failed refs "unmount" bc (drive_of_barcode refs bc (rt_job s)))
    (tj_mounts (rt_job s)));
  unload_failed ← on_job (unload_all refs still_mounted refs);
  modify (with_cleanup (bool_decide (still_mounted ≠ []) || unload_failed) false);;
  release_all refs.

Definition _restore_sharded (insts : list instance_row) (f : file_row) (block_size : Z)
    : M restore_state (option restore_result) :=
  let barcodes := fi_barcode <$> insts in
  forM barcodes (λ bc, on_job (refuse_exported bc));;
  acquired ← on_job (acquire w barcodes);
  match acquired with
  | None => mret None
  | Some refs =>
      on_job (modify (λ s, with_mounted [] (with_loaded [] s)));;
      modify (with_cleanup false false);;
      try_finally
        (on_job (load_all refs);;
         on_job (sched_op (record_physical_drives refs));;
         on_job (mount_read_only refs);;
         shard_files ← on_job (read_batch insts);
         reassemble_verified shard_files block_size f)
        (release_tapes refs);;
      complete_unless_failed;;
      mret (Some (restored barcodes f))
  end.

(** ** The job *)
Definition not_restored (error : string) : restore_result :=
  ShardedRestoreResult job_id [] false 0 (Some error).

Definition run_sharded_restore (rq : restore_request) : M restore_state (option restore_result) :=
  on_job (job_state_op w job_id "running" None);;
  c ← gets (λ s, tj_catalog (rt_job s));
  match get_file_record (sr_catalog_path rq) c with
  | None =>
      let error := "File not found in catalog" in
      on_job (job_state_op w job_id "failed" (Some error));;
      mret (Some (not_restored error))
  | Some f =>
      match restore_plan f (sr_block_size rq) c with
      | inl error =>
          on_job (job_state_op w job_id "failed" (Some error));;
          raise OpenBladeFileNotFoundError
      | inr ([], _) =>
          let error := "No archived instances found" in
          on_job (job_state_op w job_id "failed" (Some error));;
          mret (Some (not_restored error))
      | inr ([i], _) => _restore_single i f
      | inr (insts, block_size) => _restore_sharded insts f block_size
      end
  end.
End restore.

(** * What a restore leaves alone *)

(** The rows of files and of instances. *)
Notation rows := (λ c, (ct_files c, ct_instances c)).
Notation reading := (calm tables).

(** Steps of a restore that leave the destination as well. *)
Definition aside : relation restore_state := λ s s',
  reading (rt_job s) (rt_job s') ∧ rt_dest s' = rt_dest s.
#[export] Instance aside_preorder : PreOrder aside.
Proof.
  split; [done|]. intros s1 s2 s3 [H1 D1] [H2 D2]. split; [by etrans | congruence].
Qed.

Lemma read_file_same_content h p : preserves same_content (read_file h p).
Proof.
  apply preserves_wp. intros s. eapply wp_mono; [apply read_file_spec| |].
  - intros v s' [Hext _]. by apply ext_same_content.
  - intros e s' Hext. by apply ext_same_content.
Qed.

Section frame.
Context (str_of : exn → string) (w : surroundings) (job_id : string).

Lemma cleanup_failed_reading refs op bc d :
  preserves reading (_cleanup_failed w job_id refs op bc d).
Proof. unfold _cleanup_failed. solve_preserves. Qed.
Lemma refuse_exported_reading bc : preserves reading (refuse_exported w job_id bc).
Proof. unfold refuse_exported. solve_preserves. Qed.
Lemma ensure_loaded_reading ref : preserves reading (_ensure_loaded str_of w job_id ref).
Proof. unfold _ensure_loaded. solve_preserves; apply on_plant_calm; auto with preserves. Qed.
Hint Resolve cleanup_failed_reading refuse_exported_reading ensure_loaded_reading : preserves.

Lemma load_all_reading refs : preserves reading (load_all str_of w job_id refs).
Proof. induction refs; simpl; solve_preserves. Qed.
Lemma mount_read_only_reading refs : preserves reading (mount_read_only w refs).
Proof. unfold mount_read_only. solve_preserves. Qed.
Lemma unload_all_reading all still refs :
  preserves reading (unload_all str_of w job_id all still refs).
Proof. induction refs; simpl; unfold loaded_from, unload_request; solve_preserves. Qed.
Hint Resolve load_all_reading mount_read_only_reading unload_all_reading : preserves.

Lemma on_job_aside {A} (m : M tape_job A) : preserves reading m → preserves aside (on_job m).
Proof. intros Hm. by apply (preserves_zoom _ reading). Qed.
Lemma cleanup_aside b1 b2 : preserves aside (modify (with_cleanup b1 b2)).
Proof. by apply preserves_modify. Qed.
Lemma loaded_drive_aside d slot : preserves aside (modify (with_loaded_drive d slot)).
Proof. by apply preserves_modify. Qed.
Hint Resolve on_job_aside cleanup_aside loaded_drive_aside : preserves.

Lemma tape_op_reading {A} (m : M ltfs A) : preserves same_content m → preserves reading (tape_op m).
Proof. apply tape_op_calm. Qed.
Hint Resolve tape_op_reading : preserves.

Lemma release_all_aside refs : preserves aside (release_all w refs).
Proof. unfold release_all. solve_preserves. Qed.
Hint Resolve release_all_aside : preserves.
Lemma unmount_single_aside refs m bc : preserves aside (unmount_single w job_id refs m bc).
Proof. unfold unmount_single. solve_preserves. Qed.
Lemma unload_single_aside refs bc : preserves aside (unload_single str_of w job_id refs bc).
Proof. unfold unload_single, unload_request. solve_preserves. Qed.
Lemma release_tapes_aside refs : preserves aside (release_tapes str_of w job_id refs).
Proof.
  unfold release_tapes. solve_preserves. apply on_job_aside, unmount_all_calm. auto with preserves.
Qed.
Lemma complete_aside : preserves aside (complete_unless_failed w job_id).
Proof. unfold complete_unless_failed. solve_preserves. Qed.
Hint Resolve unmount_single_aside unload_single_aside release_tapes_aside complete_aside : preserves.

(** * Delivery *)

(** The bytes an instance stands for. *)
Definition source_of (t : ltfs) (i : instance_row) (data : bytes) : Prop :=
  ∃ b, Barcode (fi_barcode i) = Ok b ∧
    content_at t b (posix_path (fi_tape_path i)) = Some data.

(** What several shards are put together to. *)
Definition joined (shards : list bytes) (block_size : Z) (data : bytes) : Prop :=
  match shards with
  | [d] => d = data
  | _ => reassemble shards block_size = Some (data, compute_checksum data)
  end.

(** The destination holds the content of the instances, with the checksum of the
    record. *)
Definition delivered (t : ltfs) (insts : list instance_row) (f : file_row) (block_size : Z)
    (s' : restore_state) : Prop :=
  ∃ shards data, Forall2 (source_of t) insts shards ∧ joined shards block_size data ∧
    compute_checksum data = fl_checksum_sha256 f ∧ rt_dest s' = Some data.

Lemma source_of_content t t' i data : same_content t t' → source_of t' i data → source_of t i data.
Proof. intros Ht (b & Hb & Hc). exists b. by rewrite <-(Ht _ _). Qed.

Lemma delivered_aside t insts f bs s s' :
  aside s s' → delivered t insts f bs s → delivered t insts f bs s'.
Proof. intros [_ Hd] (shards & data & H1 & H2 & H3 & H4). exists shards, data. by rewrite Hd. Qed.

(** A file read through a mount of the cartridge of the instance. *)
Lemma read_source m i t :
  Barcode (fi_barcode i) = Ok (mh_barcode m) →
  wp (fst <$> read_file m (posix_path (fi_tape_path i)))
    (λ data t', same_content t t' ∧ source_of t i data) (λ _ t', same_content t t') t.
Proof.
  intros Hb. apply wp_fmap. eapply wp_mono; [apply read_file_spec| |].
  - intros v t' [Hext (b & Hb' & Hc)]. split; [by apply ext_same_content|].
    rewrite (Barcode_idemp _ _ Hb) in Hb'. simplify_eq. by exists (mh_barcode m).
  - intros e t' Hext. by apply ext_same_content.
Qed.

Lemma read_verified_spec m i f bs s :
  Barcode (fi_barcode i) = Ok (mh_barcode m) →
  wp (read_verified w job_id m i f)
    (λ _ s', reading (rt_job s) (rt_job s') ∧ delivered (tj_ltfs (rt_job s)) [i] f bs s')
    (λ _ s', aside s s') s.
Proof.
  intros Hb. unfold read_verified. wp_step. unfold on_job at 1, tape_op, on_plant, on_ltfs. do 3 wp_step.
  eapply wp_mono; [by apply read_source| |].
  2: { intros e t Ht. split; [|done]. by split. }
  cbn beta. intros data t [Ht Hsrc]. set (s1 := with_job _ s).
  assert (aside s s1) as H1 by by split. wp_step. apply wp_when; intros Hsum.
  - apply (wp_bind_preserves aside) with (s0 := s); [auto with preserves | done | done |].
    intros _ s2 H2. by wp_step.
  - apply bool_decide_eq_false, dec_stable in Hsum. wp_step. split; [apply H1|].
    exists [data], data. split_and!; try done. by constructor; [|constructor].
Qed.

(** [None]: still waiting. *)
Definition outcome (insts : list instance_row) (f : file_row) (bs : Z) (s : restore_state)
    (r : option restore_result) (s' : restore_state) : Prop :=
  reading (rt_job s) (rt_job s') ∧
  match r with
  | None => rt_dest s' = rt_dest s
  | Some res => res = restored job_id (fi_barcode <$> insts) f ∧
      delivered (tj_ltfs (rt_job s)) insts f bs s'
  end.
Definition failure (insts : list instance_row) (f : file_row) (bs : Z) (s s' : restore_state) : Prop :=
  reading (rt_job s) (rt_job s') ∧
  (rt_dest s' = rt_dest s ∨ rt_dest s' = None ∨ delivered (tj_ltfs (rt_job s)) insts f bs s').

Lemma aside_failure insts f bs s s' : aside s s' → failure insts f bs s s'.
Proof. intros [H1 H2]. split; [done | by left]. Qed.

(** A body whose answer is delivery, with a clean-up that touches no destination. *)
Lemma finally_failure insts f bs s s1 (body fin : M restore_state unit) :
  preserves aside fin →
  wp body (λ _ s', reading (rt_job s) (rt_job s') ∧ delivered (tj_ltfs (rt_job s)) insts f bs s')
    (λ _ s', failure insts f bs s s') s1 →
  wp (try_finally body fin)
    (λ _ s', reading (rt_job s) (rt_job s') ∧ delivered (tj_ltfs (rt_job s)) insts f bs s')
    (λ _ s', failure insts f bs s s') s1.
Proof.
  intros Hfin Hbody. apply wp_try_finally. eapply wp_mono; [exact Hbody| |]; cbn beta.
  - intros _ s2 [H2 Hd]. eapply wp_mono; [by apply (wp_preserves aside)| |]; cbn beta.
    + intros _ s3 H3. split; [etrans; [exact H2 | apply H3] | by eapply delivered_aside].
    + intros e s3 H3. split; [etrans; [exact H2 | apply H3]|]. right; right. by eapply delivered_aside.
  - intros e s2 [H2 Hd]. assert (∀ s3, aside s2 s3 → failure insts f bs s s3) as Hf.
    { intros s3 H3. split; [etrans; [exact H2 | apply H3]|].
      destruct Hd as [Hd|[Hd|Hd]]; [left | right; left | right; right; by eapply delivered_aside];
        destruct H3; congruence. }
    eapply wp_mono; [by apply (wp_preserves aside)| |]; cbn beta; auto.
Qed.

(** The end of both forms of restore. *)
Lemma complete_outcome insts f bs s s1 :
  reading (rt_job s) (rt_job s1) → delivered (tj_ltfs (rt_job s)) insts f bs s1 →
  wp (complete_unless_failed w job_id;; mret (Some (restored job_id (fi_barcode <$> insts) f)))
    (outcome insts f bs s) (λ _ s', failure insts f bs s s') s1.
Proof.
  intros H1 Hd. apply (wp_bind_preserves aside) with (s0 := s1); [auto with preserves | done | |].
  - intros e s2 H2. split; [etrans; [exact H1 | apply H2]|]. right; right. by eapply delivered_aside.
  - intros _ s2 H2. wp_step. split; [etrans; [exact H1 | apply H2]|]. split; [done|].
    by eapply delivered_aside.
Qed.

Lemma wp_on_job {A} (m : M tape_job A) (Q : A → restore_state → Prop) (E : exn → restore_state → Prop) s :
  wp m (λ a j, Q a (with_job j s)) (λ e j, E e (with_job j s)) (rt_job s) → wp (on_job m) Q E s.
Proof. intros H. unfold on_job. by wp_step. Qed.

Lemma mounted_single uuid bc s :
  wp (on_job (tape_op (mount uuid bc MountMode.READ_ONLY)))
    (λ m s', aside s s' ∧ Barcode bc = Ok (mh_barcode m)) (λ _ s', aside s s') s.
Proof.
  apply wp_on_job. unfold tape_op, on_plant, on_ltfs. do 2 wp_step.
  eapply wp_mono; [apply wp_and; [apply mount_barcode | apply (wp_preserves same_content), mount_same_content]| |];
    cbn beta; intros ? t [? Ht]; repeat split; done.
Qed.

Lemma restore_single_spec i f bs s :
  wp (_restore_single str_of w job_id i f) (outcome [i] f bs s) (λ _ s', failure [i] f bs s s') s.
Proof.
  unfold _restore_single.
  assert (∀ s', aside s s' → failure [i] f bs s s') as Hf by (intros; by apply aside_failure).
  apply (wp_bind_preserves aside) with (s0 := s); [auto with preserves | done | by eauto |]. intros _ s1 H1.
  apply (wp_bind_preserves aside) with (s0 := s); [auto with preserves | done | by eauto |].
  intros [refs|] s2 H2; [|wp_step; by destruct H2].
  destruct refs as [|ref refs]; [wp_step; by apply Hf|].
  apply (wp_bind_preserves aside) with (s0 := s); [auto with preserves | done | by eauto |]. intros h s3 H3.
  apply (wp_bind_preserves aside) with (s0 := s); [auto with preserves | done | by eauto |]. intros _ s4 H4.
  apply (wp_bind_preserves aside) with (s0 := s); [auto with preserves | done | by eauto |]. intros _ s5 H5.
  wp_step. eapply wp_mono; [apply (finally_failure [i] f bs s)| |]; cbn beta.
  - solve_preserves.
  - apply (wp_bind_preserves aside) with (s0 := s); [auto with preserves | done | by eauto |]. intros d s6 H6.
    apply (wp_bind_preserves aside) with (s0 := s); [auto with preserves | done | by eauto |]. intros _ s7 H7.
    apply (wp_bind_preserves aside) with (s0 := s); [auto with preserves | done | by eauto |]. intros uuid s8 H8.
    wp_step. eapply wp_mono; [apply mounted_single| |]; cbn beta.
    2: { intros e s9 H9. apply Hf. by etrans. }
    intros m s9 [H9 Hm]. pose proof (transitivity H8 H9) as [H10 Hd].
    apply finally_failure; [auto with preserves|].
    eapply wp_mono; [by apply (read_verified_spec m i f bs)| |]; cbn beta.
    + intros _ s11 [H11 (shards & data & Hs & Hj)]. split; [by etrans|]. exists shards, data.
      split; [|done]. eapply Forall2_impl; [exact Hs|]. intros. eapply source_of_content; [|done].
      apply H10.
    + intros e s11 H11. apply Hf. etrans; [|exact H11]. by split.
  - intros _ s6 [H6 Hd]. by apply (complete_outcome [i]).
  - done.
Qed.

(** ** Several instances *)
Lemma read_shard_source i s :
  mounts_ok s →
  wp (_read_shard i) (λ data s', (reading s s' ∧ tj_mounts s' = tj_mounts s) ∧ source_of (tj_ltfs s) i data)
    (λ _ s', reading s s' ∧ tj_mounts s' = tj_mounts s) s.
Proof.
  intros Hm. unfold _read_shard. do 4 wp_step; [|done].
  unfold tape_op, on_plant, on_ltfs. do 2 wp_step.
  eapply wp_mono; [apply read_source; exact (Forall_dget _ _ _ _ Hm H)| |]; cbn beta.
  - intros data t [Ht Hsrc]. repeat split; done.
  - intros e t Ht. repeat split; done.
Qed.

Lemma read_shards_spec ls files s :
  mounts_ok s → NoDup ls.*1 → Forall (λ ki, (ki.1 < length files)%nat) ls →
  wp (read_shards ls files)
    (λ r s', (reading s s' ∧ tj_mounts s' = tj_mounts s) ∧ length r.1 = length files ∧
       (∀ k, k ∉ ls.*1 → r.1 !! k = files !! k) ∧
       (r.2 = [] → ∀ k i, (k, i) ∈ ls → ∃ data, r.1 !! k = Some data ∧ source_of (tj_ltfs s) i data))
    (λ _ _, False) s.
Proof.
  revert files s. induction ls as [|[k i] ls IH]; intros files s Hm Hnd Hlt; simpl.
  { wp_step. split_and!; [done..|]. by intros _ ? ? ?%elem_of_nil. }
  apply NoDup_cons in Hnd as [Hk Hnd]. apply Forall_cons in Hlt as [Hlt Hlts]. simpl in Hlt.
  do 2 wp_step. eapply wp_mono; [by apply read_shard_source| |]; cbn beta.
  - intros data s1 [[H1 Hm1] Hsrc]. eapply wp_mono; [apply IH| |done]; cbn beta.
    + by apply H1.
    + done.
    + by rewrite length_insert.
    + intros [files' fs] s2 ([H2 Hm2] & Hlen & Hout & Hall). simpl in *. rewrite length_insert in Hlen.
      split_and!; [by etrans | congruence | done | |].
      * intros k' [Hne Hk']%not_elem_of_cons. rewrite Hout by done. by apply list_lookup_insert_ne.
      * intros Hfs k' i' [[= -> ->]|Hin]%elem_of_cons.
        { exists data. split; [|done]. rewrite Hout by done. by apply list_lookup_insert_eq. }
        destruct (Hall Hfs k' i' Hin) as (data' & Hl & Hs'). exists data'. split; [done|].
        eapply source_of_content; [apply H1 | done].
  - intros e s1 [H1 Hm1]. wp_step. eapply wp_mono; [apply IH; [by apply H1 | done..]| |done]; cbn beta.
    intros [files' fs] s2 ([H2 Hm2] & Hlen & Hout & Hall). wp_step. simpl in *.
    split_and!; [by etrans | congruence | done | | done].
    intros k' [_ Hk']%not_elem_of_cons. by apply Hout.
Qed.

Lemma imap_pair_fst {A} (l : list A) : (imap pair l).*1 = seq 0 (length l).
Proof.
  apply list_eq. intros k. rewrite list_lookup_fmap, list_lookup_imap.
  destruct (decide (k < length l)%nat) as [Hk|Hk].
  - destruct (lookup_lt_is_Some_2 l k Hk) as [x ->]. by rewrite lookup_seq_lt.
  - rewrite (lookup_ge_None_2 l) by lia. rewrite lookup_seq_ge by lia. done.
Qed.

Lemma read_batch_spec insts s :
  mounts_ok s →
  wp (read_batch w insts) (λ shards s', reading s s' ∧ Forall2 (source_of (tj_ltfs s)) insts shards)
    (λ _ s', reading s s') s.
Proof.
  intros Hm. unfold read_batch. wp_step. apply wp_tick.
  pose proof (by_rank_perm (w_rank w (tj_tick s)) (imap pair insts)) as Hp.
  set (s0 := with_cell _ _ _ s). assert (reading s s0) as H0 by (split; simpl; done || lia).
  wp_step. eapply wp_mono; [apply (read_shards_spec _ _ s0)| |done]; cbn beta.
  - done.
  - rewrite Hp, imap_pair_fst. apply NoDup_seq.
  - rewrite Hp. rewrite length_replicate. apply Forall_forall. intros [k i] Hki. simpl.
    apply (list_elem_of_fmap_2 fst) in Hki. rewrite imap_pair_fst in Hki.
    apply elem_of_seq in Hki. simpl in Hki. lia.
  - intros [files fs] s1 ([H1 Hm1] & Hlen & _ & Hall). simpl in *. rewrite length_replicate in Hlen.
    wp_step; wp_step; [|by etrans]. split; [by etrans|]. apply Forall2_same_length_lookup_2; [done|].
    intros k i data Hi Hd. destruct (Hall eq_refl k i) as (data' & Hl & Hsrc).
    + rewrite Hp. apply list_elem_of_lookup. exists k. by rewrite list_lookup_imap, Hi.
    + rewrite Hl in Hd. injection Hd as ->. exact Hsrc.
Qed.

Lemma reassemble_returns shards bs : shards ≠ [] → ∃ data, reassemble shards bs = Some (data, compute_checksum data).
Proof.
  intros Hne. unfold reassemble, reassemble_block_stripe.
  destruct (reassemble_loop_total (S (total shards)) bs shards Hne) as [data ->]; [lia|].
  exists data. simpl. by rewrite compute_checksum_spec.
Qed.

Lemma reassemble_verified_spec insts shards f bs s s1 :
  (2 ≤ length insts)%nat → reading (rt_job s) (rt_job s1) → rt_dest s1 = rt_dest s →
  Forall2 (source_of (tj_ltfs (rt_job s))) insts shards →
  wp (reassemble_verified w job_id shards bs f)
    (λ _ s', reading (rt_job s) (rt_job s') ∧ delivered (tj_ltfs (rt_job s)) insts f bs s')
    (λ _ s', failure insts f bs s s') s1.
Proof.
  intros Hlen H1 Hd Hs. pose proof (Forall2_length _ _ _ Hs) as Hl. unfold reassemble_verified.
  destruct (reassemble_returns shards bs) as [data Hr]; [by intros ->; simpl in *; lia|].
  rewrite Hr. wp_step. wp_step. apply wp_when; intros Hsum.
  - wp_step. wp_step. set (s2 := with_dest None _).
    assert (∀ s3, aside s2 s3 → failure insts f bs s s3) as Hf.
    { intros s3 [H3 Hd3]. split; [by etrans|]. by right; left. }
    apply (wp_bind_preserves aside) with (s0 := s2); [auto with preserves | done | by eauto |].
    intros _ s3 H3. wp_step. by apply Hf.
  - apply bool_decide_eq_false, dec_stable in Hsum. split; [exact H1|].
    exists shards, data. split_and!; try done.
    destruct shards as [|? [|? ?]]; [exact Hr | | exact Hr]. simpl in Hl. lia.
Qed.

Lemma restore_sharded_spec insts f bs s :
  (2 ≤ length insts)%nat →
  wp (_restore_sharded str_of w job_id insts f bs) (outcome insts f bs s) (λ _ s', failure insts f bs s s') s.
Proof.
  intros Hlen. unfold _restore_sharded.
  assert (∀ s', aside s s' → failure insts f bs s s') as Hf by (intros; by apply aside_failure).
  apply (wp_bind_preserves aside) with (s0 := s); [solve_preserves | done | by eauto |]. intros _ s1 H1.
  apply (wp_bind_preserves aside) with (s0 := s); [auto with preserves | done | by eauto |].
  intros [refs|] s2 H2; [|wp_step; by destruct H2].
  wp_step. apply wp_on_job. wp_step. set (s3 := with_job _ s2).
  assert (aside s s3) as H3.
  { etrans; [exact H2|]. split; [|done]. split; try done. by constructor. }
  assert (mounts_ok (rt_job s3)) as Hm3 by by constructor.
  apply (wp_bind_preserves aside) with (s0 := s3); [auto with preserves | done | |].
  { intros e s4 H4. apply Hf. by etrans. }
  intros _ s4 H4. wp_step.
  eapply wp_mono; [apply (finally_failure insts f bs s)| |]; cbn beta.
  - auto with preserves.
  - assert (∀ s5, aside s3 s5 → failure insts f bs s s5) as Hf' by (intros; apply Hf; by etrans).
    apply (wp_bind_preserves aside) with (s0 := s3); [auto with preserves | done | by eauto |]. intros _ s5 H5.
    apply (wp_bind_preserves aside) with (s0 := s3); [auto with preserves | done | by eauto |]. intros _ s6 H6.
    apply (wp_bind_preserves aside) with (s0 := s3); [auto with preserves | done | by eauto |]. intros _ s7 H7.
    wp_step. apply wp_on_job. eapply wp_mono; [apply read_batch_spec; by apply H7| |]; cbn beta.
    + intros shards s8 [H8 Hs]. pose proof (transitivity H3 H7) as [H9 Hd].
      apply reassemble_verified_spec; [done | by etrans | done|].
      eapply Forall2_impl; [exact Hs|]. intros. eapply source_of_content; [apply H9 | done].
    + intros e s8 H8. apply Hf'. etrans; [exact H7 | by split].
  - intros _ s5 [H5 Hd]. by apply complete_outcome.
  - done.
Qed.

(** ** The job *)
Lemma rows_record c c' path : rows c' = rows c → get_file_record path c' = get_file_record path c.
Proof. intros [= Hf _]. unfold get_file_record. by rewrite Hf. Qed.
Lemma rows_plan c c' f bs : rows c' = rows c → restore_plan f bs c' = restore_plan f bs c.
Proof.
  intros [= Hf Hi]. unfold restore_plan, list_shard_records, _latest_archived_instance, archived_of,
    instances_of. by rewrite Hf, Hi.
Qed.

(** What the catalog promises for the path is at the destination. *)
Definition fulfilled (rq : restore_request) (s s' : restore_state) : Prop :=
  let c := tj_catalog (rt_job s) in
  ∃ f insts bs, get_file_record (sr_catalog_path rq) c = Some f ∧
    restore_plan f (sr_block_size rq) c = inr (insts, bs) ∧
    delivered (tj_ltfs (rt_job s)) insts f bs s'.

(** There is nothing to restore. *)
Definition nothing_archived (rq : restore_request) (c : catalog) : Prop :=
  match get_file_record (sr_catalog_path rq) c with
  | None => True
  | Some f => ∃ bs, restore_plan f (sr_block_size rq) c = inr ([], bs)
  end.

Definition answered (rq : restore_request) (s : restore_state) (r : option restore_result)
    (s' : restore_state) : Prop :=
  match r with
  | Some res =>
      so_checksum_verified res = true ∧ so_error res = None ∧ fulfilled rq s s' ∨
      so_checksum_verified res = false ∧ (∃ e, so_error res = Some e ∧ e ≠ "") ∧ rt_dest s' = rt_dest s ∧
        nothing_archived rq (tj_catalog (rt_job s))
  | None => rt_dest s' = rt_dest s
  end.

Lemma run_restore_spec rq s :
  wp (run_sharded_restore str_of w job_id rq)
    (λ r s', reading (rt_job s) (rt_job s') ∧ answered rq s r s')
    (λ _ s', reading (rt_job s) (rt_job s') ∧
       (rt_dest s' = rt_dest s ∨ rt_dest s' = None ∨ fulfilled rq s s')) s.
Proof.
  unfold run_sharded_restore. set (E := λ (e : exn) s', _ ∧ _).
  assert (∀ e s', aside s s' → E e s') as HE by (intros e s' [H1 H2]; split; [done | by left]).
  apply (wp_bind_preserves aside) with (s0 := s); [auto with preserves | done | by eauto |]. intros _ s1 H1.
  do 2 wp_step. pose proof (tables_rows _ _ (q_catalog _ _ (proj1 H1))) as Hrows.
  rewrite (rows_record _ _ _ Hrows).
  destruct (get_file_record _ _) as [f|] eqn:Hf.
  2: { apply (wp_bind_preserves aside) with (s0 := s); [auto with preserves | done | by eauto |].
    intros _ s2 H2. wp_step. split; [apply H2|]. right. unfold nothing_archived. rewrite Hf.
    split_and!; [done | by eexists | apply H2 | done]. }
  rewrite (rows_plan _ _ _ _ Hrows).
  destruct (restore_plan _ _ _) as [error|[insts bs]] eqn:Hplan.
  { apply (wp_bind_preserves aside) with (s0 := s); [auto with preserves | done | by eauto |].
    intros _ s2 H2. wp_step. by apply HE. }
  assert (∀ s', delivered (tj_ltfs (rt_job s1)) insts f bs s' → fulfilled rq s s') as Hful.
  { intros s' (shards & data & Hs & Hj). exists f, insts, bs. split_and!; [done..|].
    exists shards, data. split; [|done]. eapply Forall2_impl; [exact Hs|]. intros.
    eapply source_of_content; [apply H1 | done]. }
  assert (∀ m, wp m (outcome insts f bs s1) (λ _ s', failure insts f bs s1 s') s1 →
    wp m (λ r s', reading (rt_job s) (rt_job s') ∧ answered rq s r s') E s1) as Hend.
  { destruct H1 as [H1 Hd1]. intros m Hm. eapply wp_mono; [exact Hm| |].
    - intros [res|] s2 [H2 Hd]; (split; [by etrans|]); simpl; [|congruence].
      destruct Hd as [-> Hd]. left. by split_and!; try done; apply Hful.
    - intros e s2 [H2 Hd]. split; [by etrans|].
      destruct Hd as [Hd|[Hd|Hd]]; [left; congruence | by right; left | right; right; by apply Hful]. }
  destruct insts as [|i [|i' insts]].
  - apply (wp_bind_preserves aside) with (s0 := s); [auto with preserves | done | by eauto |].
    intros _ s2 H2. wp_step. split; [apply H2|]. right. unfold nothing_archived. rewrite Hf.
    split_and!; [done | by eexists | apply H2 | by exists bs].
  - apply Hend, restore_single_spec.
  - apply Hend, restore_sharded_spec. simpl. lia.
Qed.
End frame.

(** * Properties *)

