(* ===== verification/RoundTrip.v ===== *)
(** The archive and the restore together: what a block-striped archive leaves in
    the catalog is the plan a restore reads, and what it leaves on the tapes is
    the content the restore delivers. *)
From stdpp Require Import base list option strings pretty sets.
From Stdlib Require Import Ascii ZArith QArith Lia.
From S2P Require Import Prelude Wp Domain Paths Leases Catalog Faults Library Reconcile CatalogStore.
From S2P Require Import Scheduler Queue Bytes Shard Ltfs Orchestrator TapeJob Archive ShardRestore.
#[local] Open Scope string_scope.
#[local] Open Scope Z_scope.

(** * The rows of a new file *)

Lemma select_app {R} (p : R → bool) (d d' : dict string R) :
  select p (d ++ d')%list = (select p d ++ select p d')%list.
Proof. unfold select, dvalues. by rewrite fmap_app, filter_app. Qed.
Lemma select_none {R} (p : R → bool) (d : dict string R) :
  (∀ r, r ∈ dvalues d → p r = false) → select p d = [].
Proof. intros H. apply filter_none. intros r Hr. rewrite (H r Hr). by intros []. Qed.
Lemma select_nil {R} (p : R → bool) (d : dict string R) r :
  select p d = [] → r ∈ dvalues d → p r = false.
Proof.
  intros Hs Hr. destruct (p r) eqn:Hp; [|done]. exfalso.
  apply (not_elem_of_nil r). rewrite <-Hs. unfold select. apply list_elem_of_filter. by rewrite Hp.
Qed.

(** No record has one of these paths. *)
Definition no_file (ps : list string) (c : catalog) : Prop :=
  Forall (λ r, fl_path r ∉ ps) (dvalues (ct_files c)).

Section stage.
Context (str_of class_of : exn → string) (w : surroundings) (job_id : string) `{!Inj (=) (=) (w_uuid w)}.

(** The identifiers still to be drawn are in no row. *)
Record fresh_ids (s : tape_job) : Prop := {
  fr_files : ∀ n, (tj_tick s ≤ n)%nat → dget (ct_files (tj_catalog s)) (w_uuid w n) = None;
  fr_instances : ∀ n, (tj_tick s ≤ n)%nat → dget (ct_instances (tj_catalog s)) (w_uuid w n) = None;
  fr_parents : ∀ n r, (tj_tick s ≤ n)%nat → r ∈ dvalues (ct_files (tj_catalog s)) →
    fl_parent_id r ≠ Some (w_uuid w n);
  fr_owners : ∀ n r, (tj_tick s ≤ n)%nat → r ∈ dvalues (ct_instances (tj_catalog s)) →
    fi_file_record_id r ≠ w_uuid w n;
}.

Lemma fresh_later s s' :
  rows (tj_catalog s') = rows (tj_catalog s) → (tj_tick s ≤ tj_tick s')%nat → fresh_ids s → fresh_ids s'.
Proof.
  intros [= Hf Hi] Ht [H1 H2 H3 H4]. split; rewrite ?Hf, ?Hi; intros; eauto with lia.
Qed.

(** An identifier drawn already. *)
Definition drawn (id : string) (s : tape_job) : Prop := ∀ n, (tj_tick s ≤ n)%nat → id ≠ w_uuid w n.
Lemma drawn_later id s s' : (tj_tick s ≤ tj_tick s')%nat → drawn id s → drawn id s'.
Proof. intros Ht Hd n Hn. apply Hd. lia. Qed.

(** A record at a new path is a new row. *)
Lemma create_record_fresh path size sum vg sf s :
  fresh_ids s → no_file [posix_path path] (tj_catalog s) →
  (∀ p, sf_parent_id sf = Some p → drawn p s) →
  wp (create_record w path size sum vg sf)
    (λ r s', (∃ now, r = FileRecordRow (w_uuid w (tj_tick s)) (posix_path path) size sum vg
                   (sf_shard_count sf) (sf_shard_index sf) (sf_block_size sf) (sf_shard_profile sf)
                   (sf_parent_id sf) now) ∧
       ct_files (tj_catalog s') = (ct_files (tj_catalog s) ++ [(fl_id r, r)])%list ∧
       ct_instances (tj_catalog s') = ct_instances (tj_catalog s) ∧
       tj_staged s' = tj_staged s ∧ fresh_ids s' ∧ drawn (fl_id r) s' ∧ (tj_tick s < tj_tick s')%nat)
    (λ _ _, True) s.
Proof.
  intros Hfr Hno Hpar. unfold create_record. wp_step. apply wp_tick. wp_step. apply wp_tick.
  apply catalog_op_state. match goal with |- wp _ _ _ ?c => change c with (tj_catalog s) end.
  unfold create_file_record, put_file. do 2 wp_step.
  assert (get_file_record (posix_path path) (tj_catalog s) = None) as Hnone.
  { unfold get_file_record, select_one. rewrite posix_path_idemp, select_none; [done|].
    intros r Hr. apply bool_decide_eq_false. unfold no_file in Hno. rewrite Forall_forall in Hno.
    specialize (Hno r Hr). set_solver. }
  cbv zeta. rewrite Hnone. do 3 wp_step.
  assert (dget (ct_files (tj_catalog s)) (w_uuid w (tj_tick s)) = None) as Hid by by apply Hfr.
  unfold tj_catalog. simpl. fold (tj_catalog s). rewrite (dset_notin _ _ _ Hid).
  destruct Hfr as [H1 H2 H3 H4]. split_and!; [by eexists | done | done | done | | | lia].
  - split; unfold tj_catalog; simpl; fold (tj_catalog s).
    + intros n Hn. rewrite <-(dset_notin _ _ _ Hid). rewrite dget_dset_ne; [apply H1; lia|].
      intros Heq. apply (inj (w_uuid w)) in Heq. lia.
    + intros n Hn. apply H2. lia.
    + intros n r Hn. unfold dvalues. rewrite fmap_app, elem_of_app. intros [Hr|Hr]; [apply H3; [lia|done]|].
      apply list_elem_of_singleton in Hr as ->. simpl. intros Heq. apply (Hpar _ Heq n); [lia|done].
    + intros n r Hn. apply H4. lia.
  - intros n Hn. simpl in *. intros Heq. apply (inj (w_uuid w)) in Heq. lia.
Qed.

Lemma stage_instance_fresh file bc path s :
  fresh_ids s → drawn file s →
  wp (stage_instance w job_id file bc path)
    (λ id s', (∃ r, fi_id r = id ∧ fi_file_record_id r = file ∧ fi_barcode r = bc ∧
                 fi_tape_path r = posix_path path ∧
                 ct_instances (tj_catalog s') = (ct_instances (tj_catalog s) ++ [(id, r)])%list) ∧
       dget (ct_instances (tj_catalog s)) id = None ∧
       ct_files (tj_catalog s') = ct_files (tj_catalog s) ∧
       tj_staged s' = tj_staged s ∧ fresh_ids s' ∧ (tj_tick s < tj_tick s')%nat)
    (λ _ _, True) s.
Proof.
  intros Hfr Hfile. unfold stage_instance. wp_step. apply wp_tick. wp_step. apply wp_tick. wp_step.
  apply catalog_op_state. match goal with |- wp _ _ _ ?c => change c with (tj_catalog s) end.
  unfold create_staged_instance, put_instance.
  do 2 wp_step; [done|]. do 2 wp_step. wp_step; [|done]. cbv zeta. repeat wp_step. simpl.
  assert (dget (ct_instances (tj_catalog s)) (w_uuid w (tj_tick s)) = None) as Hid by by apply Hfr.
  unfold tj_catalog. simpl. fold (tj_catalog s). rewrite (dset_notin _ _ _ Hid).
  destruct Hfr as [H1 H2 H3 H4]. split_and!; [|done|done|done| |lia].
  - exists (FileInstanceRow (w_uuid w (tj_tick s)) file bc (posix_path path)
      (enum_value FileInstanceState.STAGING) None false (w_now w (S (tj_tick s)))). by split_and!.
  - split; unfold tj_catalog; simpl; fold (tj_catalog s).
    + intros n Hn. apply H1. lia.
    + intros n Hn. rewrite <-(dset_notin _ _ _ Hid), dget_dset_ne; [apply H2; lia|].
      intros Heq. apply (inj (w_uuid w)) in Heq. lia.
    + intros n r Hn. apply H3. lia.
    + intros n r Hn. unfold dvalues. rewrite fmap_app, elem_of_app. intros [Hr|Hr]; [apply H4; [lia|done]|].
      apply list_elem_of_singleton in Hr as ->. simpl. apply Hfile. lia.
Qed.

(** In whatever state. *)
Notation any := (λ _ : instance_row, True).

(** The one instance of a shard record, staged for its lane. *)
Definition owns (P : instance_row → Prop) (c : catalog) (staged : list string) (l : lane_plan)
    (sh : file_row) : Prop :=
  ∃ id r, (id ∈ staged ∧ P r) ∧ row_of l r ∧ dget (ct_instances c) id = Some r ∧
    fi_file_record_id r = fl_id sh ∧
    ∀ id' r', dget (ct_instances c) id' = Some r' → fi_file_record_id r' = fl_id sh → id' = id ∧ r' = r.

Lemma Forall2_weaken {A B} (P R : A → B → Prop) (Q : B → Prop) l k :
  Forall2 P l k → Forall Q k → (∀ x y, P x y → Q y → R x y) → Forall2 R l k.
Proof. induction 1; intros [? ?]%Forall_cons || intros _; intros; constructor; auto. Qed.

Lemma dget_snoc {V} (d : dict string V) k v k' :
  dget d k = None → dget (d ++ [(k, v)])%list k' = if decide (k = k') then Some v else dget d k'.
Proof. intros Hk. rewrite <-dset_notin by done. by rewrite dget_dset. Qed.

Lemma owns_other P c c' staged staged' l sh id0 r0 :
  ct_instances c' = (ct_instances c ++ [(id0, r0)])%list → dget (ct_instances c) id0 = None →
  fi_file_record_id r0 ≠ fl_id sh → staged ⊆ staged' → owns P c staged l sh → owns P c' staged' l sh.
Proof.
  intros Hc Hid Hne Hsub (id & r & [Hin HP] & Hrow & Hget & Hf & Huniq).
  assert (id ≠ id0) as Hne' by congruence. exists id, r. rewrite Hc.
  split_and!; [by apply Hsub | done | done | | done |].
  { rewrite dget_snoc by done. by rewrite decide_False. }
  intros id' r'. rewrite dget_snoc by done. case_decide; [|apply Huniq]. intros [= <-] ?. done.
Qed.

Lemma owns_same P c c' staged staged' l sh :
  ct_instances c' = ct_instances c → staged ⊆ staged' → owns P c staged l sh → owns P c' staged' l sh.
Proof.
  intros Hc Hsub (id & r & [Hin HP] & H). exists id, r. rewrite Hc.
  split; [split; [by apply Hsub | done] | done].
Qed.

(** The records of a file with its shards, one for each lane so far. *)
Record filed (P : instance_row → Prop) (path : string) (planned : list lane_plan)
    (parent : file_row) (shs : list file_row) (s : tape_job) : Prop := {
  fd_parent : get_file_record path (tj_catalog s) = Some parent;
  fd_shards : select (λ r, bool_decide (fl_parent_id r = Some (fl_id parent)))
                (ct_files (tj_catalog s)) = shs;
  fd_index : fl_shard_index <$> shs = (Some ∘ Z.of_nat) <$> seq 0 (length shs);
  fd_owns : Forall2 (owns P (tj_catalog s) (tj_staged s)) planned shs;
  fd_ids : Forall (λ sh, fl_id sh ≠ fl_id parent ∧ drawn (fl_id sh) s) shs;
  fd_drawn : drawn (fl_id parent) s;
}.

(** Steps that change no row and stage nothing. *)
Record filing (s s' : tape_job) : Prop := {
  fg_rows : rows (tj_catalog s') = rows (tj_catalog s);
  fg_staged : tj_staged s' = tj_staged s;
  fg_tick : (tj_tick s ≤ tj_tick s')%nat;
}.
#[local] Instance filing_preorder : PreOrder filing.
Proof. split; [by split|]. intros s1 s2 s3 [] []. split; [congruence | congruence | lia]. Qed.
Lemma reading_filing s s' : reading s s' → filing s s'.
Proof. intros [H _ Hs _ Ht]. split; [by apply tables_rows | done..]. Qed.

Lemma filed_filing P path planned parent shs s s' :
  filing s s' → filed P path planned parent shs s → filed P path planned parent shs s'.
Proof.
  intros [Hr Hst Ht] [H1 H2 H3 H4 H5 H6]. pose proof Hr as [= Hf Hi].
  split; [by rewrite (rows_record _ _ _ Hr) | by rewrite Hf | done | | | by eapply drawn_later].
  - eapply Forall2_impl; [exact H4|]. intros l sh. apply owns_same; [done | by rewrite Hst].
  - eapply Forall_impl; [exact H5|]. intros sh [? ?]. split; [done | by eapply drawn_later].
Qed.

Lemma filed_snoc path planned parent shs l sh s s1 s2 s3 i1 r1 i2 r2 :
  fresh_ids s → filed any path planned parent shs s →
  fl_shard_index sh = Some (Z.of_nat (length shs)) → fl_parent_id sh = Some (fl_id parent) →
  (∃ n, (tj_tick s ≤ n)%nat ∧ fl_id sh = w_uuid w n) → drawn (fl_id sh) s2 →
  ct_instances (tj_catalog s1) = (ct_instances (tj_catalog s) ++ [(i1, r1)])%list →
  fi_file_record_id r1 = fl_id parent → dget (ct_instances (tj_catalog s)) i1 = None →
  ct_files (tj_catalog s2) = (ct_files (tj_catalog s) ++ [(fl_id sh, sh)])%list →
  ct_instances (tj_catalog s2) = ct_instances (tj_catalog s1) →
  ct_instances (tj_catalog s3) = (ct_instances (tj_catalog s2) ++ [(i2, r2)])%list →
  dget (ct_instances (tj_catalog s2)) i2 = None → fi_file_record_id r2 = fl_id sh → row_of l r2 →
  ct_files (tj_catalog s3) = ct_files (tj_catalog s2) → tj_staged s3 = tj_staged s →
  (tj_tick s ≤ tj_tick s2 ≤ tj_tick s3)%nat →
  filed any path (planned ++ [l]) parent (shs ++ [sh]) (with_staged (tj_staged s3 ++ [i1; i2])%list s3).
Proof.
  intros Hfr [H1 H2 H3 H4 H5 H6] Hidx Hpar (n & Hn & Hsh) Hdr Hc1 Hr1 Hi1 Hf2 Hc2 Hc3 Hi2 Hr2 Hrow Hf3
    Hst Ht.
  assert (fl_id sh ≠ fl_id parent) as Hne by (rewrite Hsh; intros Heq; by apply (H6 n)).
  assert (∀ c, tj_catalog (with_staged c s3) = tj_catalog s3) as Hws by done. split.
  - unfold get_file_record, select_one in *. rewrite Hws, Hf3, Hf2, select_app.
    by destruct (select _ (ct_files (tj_catalog s))).
  - rewrite Hws, Hf3, Hf2, select_app, H2. f_equal. unfold select. simpl.
    rewrite filter_cons_True; [done|]. by apply bool_decide_pack.
  - rewrite fmap_app, H3, length_app. simpl. rewrite Hidx. rewrite seq_app, fmap_app. done.
  - rewrite Hws. apply Forall2_app; [|constructor; [|constructor]].
    + eapply Forall2_weaken; [exact H4 | exact H5|]. intros l0 sh0 Ho [Hne0 Hd0].
      eapply (owns_other _ _ _ _ _ _ _ i2 r2); [exact Hc3 | exact Hi2 | | |
        eapply owns_other; [by rewrite Hc2 | done | by rewrite Hr1 | reflexivity | exact Ho]].
      * rewrite Hr2, Hsh. intros Heq. by apply (Hd0 n).
      * simpl. rewrite Hst. set_solver.
    + exists i2, r2. rewrite Hc3. split_and!; [simpl; set_solver | done | done | | done|].
      { rewrite dget_snoc by done. by rewrite decide_True. }
      intros id' r'. rewrite dget_snoc by done. case_decide; [by intros [= <-]|].
      intros Hget Hf. exfalso. rewrite Hc2, Hc1 in Hget. rewrite dget_snoc in Hget by done.
      case_decide; simplify_eq; [congruence|].
      apply (fr_owners _ Hfr n r'); [done| |congruence].
      apply dget_Some_elem in Hget. by apply (list_elem_of_fmap_2 snd) in Hget.
  - apply Forall_app. split.
    + eapply Forall_impl; [exact H5|]. intros sh0 [? Hd]. split; [done|]. intros m Hm. apply Hd. simpl in Hm. lia.
    + constructor; [|constructor]. split; [done|]. intros m Hm. apply Hdr. simpl in Hm. lia.
  - intros m Hm. apply H6. simpl in Hm. lia.
Qed.

Lemma no_file_snoc ps q c c' (r : file_row) :
  ct_files c' = (ct_files c ++ [(fl_id r, r)])%list → fl_path r = q → q ∉ ps →
  no_file ps c → no_file ps c'.
Proof.
  unfold no_file, dvalues. intros -> Hq Hps H. rewrite fmap_app. apply Forall_app. split; [done|].
  constructor; [simpl; by rewrite Hq | constructor].
Qed.

Lemma stage_lane_filed path planned parent shs spath size sum vg sf l ps s :
  fresh_ids s → filed any path planned parent shs s → no_file (posix_path spath :: ps) (tj_catalog s) →
  posix_path spath ∉ ps →
  sf_parent_id sf = Some (fl_id parent) → sf_shard_index sf = Some (Z.of_nat (length shs)) →
  wp (stage_lane w job_id (fl_id parent) (create_record w spath size sum vg sf) l)
    (λ _ s', fresh_ids s' ∧ no_file ps (tj_catalog s') ∧
       ∃ sh, filed any path (planned ++ [l]) parent (shs ++ [sh]) s')
    (λ _ _, True) s.
Proof.
  intros Hfr Hfd Hno Hps Hpar Hidx. unfold stage_lane. wp_step.
  eapply wp_mono; [apply stage_instance_fresh; [done | apply Hfd]| |done].
  intros i1 s1 ((r1 & _ & Hr1 & _ & _ & Hc1) & Hi1 & Hf1 & Hst1 & Hfr1 & Ht1). wp_step.
  eapply wp_mono; [apply create_record_fresh; [done| |]| |done].
  - unfold no_file. rewrite Hf1. eapply Forall_impl; [exact Hno|]. set_solver.
  - intros p. rewrite Hpar. intros [= <-]. eapply drawn_later; [|apply Hfd]. lia.
  - intros sh s2 ((now & Hsh) & Hf2 & Hc2 & Hst2 & Hfr2 & Hdr & Ht2). wp_step.
    eapply wp_mono; [by apply stage_instance_fresh| |done].
    intros i2 s3 ((r2 & _ & Hr2 & Hb2 & Hp2 & Hc3) & Hi2 & Hf3 & Hst3 & Hfr3 & Ht3). wp_step.
    split; [by destruct Hfr3; split|]. rewrite Hf1 in Hf2. split.
    + eapply (no_file_snoc ps (posix_path spath) (tj_catalog s) _ sh); [|by rewrite Hsh|done|].
      * change (ct_files (tj_catalog s3) = ct_files (tj_catalog s) ++ [(fl_id sh, sh)])%list. by rewrite Hf3.
      * eapply Forall_impl; [exact Hno|]. set_solver.
    + exists sh. assert (fl_id sh = w_uuid w (tj_tick s1)) as Hid by by rewrite Hsh.
      assert (fl_shard_index sh = Some (Z.of_nat (length shs))) as Hsi by by rewrite Hsh.
      assert (fl_parent_id sh = Some (fl_id parent)) as Hsp by by rewrite Hsh.
      eapply (filed_snoc _ _ _ _ _ _ s s1 s2 s3); try done; [|congruence|lia].
      exists (tj_tick s1). split; [lia | done].
Qed.

(** The shard records of lanes [k], [k + 1] and so on. *)
Lemma stage_shards_filed f rq vg parent total tmp specs planned shs s :
  fresh_ids s → filed any (src_path f) planned parent shs s → length planned = length shs →
  sh_shard_index <$> specs = Z.of_nat <$> seq (length shs) (length specs) →
  no_file ((λ k, posix_path (_shard_record_path (src_path f) k)) <$> seq (length shs) (length specs))
    (tj_catalog s) →
  NoDup ((λ k, posix_path (_shard_record_path (src_path f) k)) <$> seq (length shs) (length specs)) →
  wp (stage_shards w job_id f rq vg (fl_id parent) total tmp specs)
    (λ pl s', fresh_ids s' ∧ ∃ shs', filed any (src_path f) (planned ++ pl) parent shs' s')
    (λ _ _, True) s.
Proof.
  revert planned shs s. induction specs as [|sp specs IH]; intros planned shs s Hfr Hfd Hlen Hidx Hno Hnd; simpl.
  { wp_step. split; [done|]. exists shs. by rewrite app_nil_r. }
  simpl in Hidx. injection Hidx as Hsp Hidx. csimpl in *. apply NoDup_cons in Hnd as [Hnotin Hnd].
  wp_step. rewrite Hsp, Nat2Z.id. 
  eapply wp_mono; [eapply (stage_lane_filed _ planned parent shs); [exact Hfr | exact Hfd | exact Hno |
    exact Hnotin | done | done]| |done].
  intros _ s1 (Hfr1 & Hno1 & sh & Hfd1). wp_step.
  eapply wp_mono; [apply (IH (planned ++ [shard_lane tmp sp])%list (shs ++ [sh])%list)| |done].
  - done.
  - done.
  - rewrite !length_app. simpl. lia.
  - rewrite length_app, Nat.add_comm. done.
  - rewrite length_app, Nat.add_comm. done.
  - rewrite length_app, Nat.add_comm. done.
  - intros pl s2 (Hfr2 & shs' & Hfd2). wp_step. split; [done|]. exists shs'. by rewrite <-(assoc_L (++)) in Hfd2.
Qed.

(** The record of a block-striped file, as a restore reads it. *)
Record striped_record (f : source_file) (bs : Z) (n : nat) (parent : file_row) : Prop := {
  sp_checksum : fl_checksum_sha256 parent = compute_checksum (src_content f);
  sp_count : fl_shard_count parent = Some (Z.of_nat n);
  sp_block : fl_block_size parent = Some bs;
}.

(** The paths of the records of a file over [n] lanes. *)
Definition shard_paths (path : string) (n : nat) : list string :=
  (λ k, posix_path (_shard_record_path path k)) <$> seq 0 n.

Lemma plan_fields group name content lanes base bs plan :
  plan_block_stripe group name content lanes base bs = Ok plan →
  sp_checksum_sha256 plan = compute_checksum content ∧ length (sp_shards plan) = length lanes.
Proof.
  intros Hplan. pose proof (plan_shards _ _ _ _ _ _ _ Hplan) as [_ Hbc].
  apply (f_equal length) in Hbc. rewrite length_fmap in Hbc. split; [|exact Hbc]. clear Hbc. revert Hplan.
  unfold plan_block_stripe. do 2 (case_bool_decide; [done|]). by intros [= <-].
Qed.

Lemma stage_block_filed f rq vg plan group lanes s :
  plan_block_stripe group (file_name (src_path f)) (src_content f) lanes "/block_stripe"
    (ar_block_size rq) = Ok plan →
  fresh_ids s → no_file (posix_path (src_path f) :: shard_paths (src_path f) (length lanes)) (tj_catalog s) →
  NoDup (posix_path (src_path f) :: shard_paths (src_path f) (length lanes)) →
  wp (stage_block_stripe w job_id f rq vg plan)
    (λ pl s', ∃ parent shs, striped_record f (ar_block_size rq) (length lanes) parent ∧
       filed any (src_path f) pl parent shs s')
    (λ _ _, True) s.
Proof.
  intros Hplan Hfr Hno [Hp Hnd]%NoDup_cons. unfold stage_block_stripe.
  destruct (plan_shards _ _ _ _ _ _ _ Hplan) as [Hidx Hbc].
  destruct (plan_fields _ _ _ _ _ _ _ Hplan) as [Hsum Hlen].
  do 2 wp_step; [|done]. wp_step.
  eapply wp_mono; [apply create_record_fresh; [done| |done]| |done].
  { eapply Forall_impl; [exact Hno|]. set_solver. }
  intros parent s1 ((now & Hpar) & Hf1 & Hc1 & Hst1 & Hfr1 & Hdr & Ht1).
  assert (filed any (src_path f) [] parent [] s1) as Hfd.
  { split; try done; try constructor.
    - unfold get_file_record, select_one. rewrite Hf1, select_app, select_none.
      + unfold select. simpl. rewrite filter_cons_True; [done|]. rewrite Hpar. by apply bool_decide_pack.
      + intros r Hr. apply bool_decide_eq_false. unfold no_file in Hno. rewrite Forall_forall in Hno.
        specialize (Hno r Hr). set_solver.
    - rewrite Hf1, select_app, select_none.
      + unfold select. simpl. rewrite filter_cons_False; [done|]. rewrite Hpar. by intros ?%bool_decide_unpack.
      + intros r Hr. apply bool_decide_eq_false. rewrite Hpar. simpl. by apply (fr_parents _ Hfr). }
  eapply wp_mono; [apply (stage_shards_filed _ _ _ _ _ _ _ [] []); try done| |done].
  - simpl. rewrite Hlen. by rewrite Hidx.
  - rewrite Hlen. simpl. eapply (no_file_snoc _ (posix_path (src_path f))); [exact Hf1 | by rewrite Hpar | done|].
    eapply Forall_impl; [exact Hno|]. set_solver.
  - by rewrite Hlen.
  - intros pl s2 (_ & shs & Hfd2). exists parent, shs. split; [|done].
    rewrite Hpar. split; simpl; [done | by rewrite Hlen | done].
Qed.

(** ** From staged to archived *)
Lemma filed_update (P P' : instance_row → Prop) g (states : list string) path planned parent shs s c' :
  (∀ r, fi_file_record_id (g r) = fi_file_record_id r) → (∀ l r, row_of l r → row_of l (g r)) →
  (∀ r, P' (g r)) → filed P path planned parent shs s →
  (∀ id, id ∈ tj_staged s → ∃ r, dget (ct_instances (tj_catalog s)) id = Some r ∧ fi_state r ∈ states ∧
     dget (ct_instances c') id = Some (g r)) →
  (∀ id, id ∉ tj_staged s → dget (ct_instances c') id = dget (ct_instances (tj_catalog s)) id) →
  ct_files c' = ct_files (tj_catalog s) →
  filed P' path planned parent shs
    (with_cell (Plant c' (pl_ops (tj_plant s)) (tj_ltfs s)) (tj_sched s) (tj_tick s) s).
Proof.
  intros Hgf Hgr HP' [H1 H2 H3 H4 H5 H6] Hin Hout Hf. split; unfold tj_catalog; simpl; try done.
  - unfold get_file_record. by rewrite Hf.
  - by rewrite Hf.
  - eapply Forall2_impl; [exact H4|]. intros l sh (id & r & [Hid _] & Hrow & Hget & Hfile & Huniq).
    destruct (Hin id Hid) as (r0 & Hr0 & _ & Hnew). assert (r0 = r) as -> by congruence.
    exists id, (g r). split_and!; auto; [congruence|]. intros id' r' Hget' Hfile'.
    destruct (decide (id' ∈ tj_staged s)) as [Hid'|Hid'].
    + destruct (Hin id' Hid') as (r1 & Hr1 & _ & Hnew'). rewrite Hnew' in Hget'. injection Hget' as <-.
      rewrite Hgf in Hfile'. by destruct (Huniq _ _ Hr1 Hfile') as [-> ->].
    + rewrite Hout in Hget' by done. destruct (Huniq _ _ Hget' Hfile') as [-> _]. done.
Qed.

Lemma preserves_filing {A} (m : M tape_job A) : preserves reading m → preserves filing m.
Proof. apply preserves_impl, reading_filing. Qed.
Hint Resolve preserves_filing : preserves.

Lemma tape_op_filing {A} (m : M ltfs A) : preserves filing (tape_op m).
Proof. intros s. unfold tape_op, on_plant, on_ltfs, zoom. by destruct (m _). Qed.
Hint Resolve tape_op_filing : preserves.

Lemma run_lanes_filing ls : preserves filing (run_lanes w ls).
Proof. induction ls; simpl; solve_preserves. unfold dindex. case_match; solve_preserves. Qed.
Hint Resolve run_lanes_filing : preserves.
Lemma write_batch_filing ls : preserves filing (write_batch w ls).
Proof. unfold write_batch. solve_preserves. Qed.

(** The records stay filed, and the instances well formed. *)
Definition kept P path planned parent shs (s : tape_job) : Prop :=
  filed P path planned parent shs s ∧ instances_wf (tj_catalog s).
Notation archived := (λ r, fi_state r = enum_value FileInstanceState.ARCHIVED).

Lemma wp_kept {A} P path planned parent shs (m : M tape_job A) s :
  preserves filing m → kept P path planned parent shs s →
  wp m (λ _ s', kept P path planned parent shs s') (λ _ _, True) s.
Proof.
  intros Hm [Hfd Hwf]. eapply wp_mono; [by apply (wp_preserves filing)| |done]. intros a s' Hs. split.
  - eapply filed_filing; [exact Hs | exact Hfd].
  - destruct Hs as [[= _ Hi] _ _]. unfold instances_wf. by rewrite Hi.
Qed.

Lemma wp_bind_kept {A B} P path planned parent shs (m : M tape_job A) (k : A → M tape_job B)
    (Q : B → tape_job → Prop) s :
  preserves filing m → kept P path planned parent shs s →
  (∀ a s', kept P path planned parent shs s' → wp (k a) Q (λ _ _, True) s') →
  wp (m ≫= k) Q (λ _ _, True) s.
Proof. intros Hm Hk HQ. apply wp_bind. eapply wp_mono; [by apply wp_kept| |done]. auto. Qed.

Lemma update_kept (P P' : instance_row → Prop) g states path planned parent shs s :
  (∀ r, fi_id (g r) = fi_id r) →
  (∀ r, fi_file_record_id (g r) = fi_file_record_id r) → (∀ l r, row_of l r → row_of l (g r)) →
  (∀ r, P' (g r)) → kept P path planned parent shs s →
  wp (catalog_op (update_instances (tj_staged s) states g))
    (λ _ s', kept P' path planned parent shs s') (λ _ _, True) s.
Proof.
  intros Hgi Hgf Hgr HP' [Hfd Hwf]. apply catalog_op_state.
  eapply wp_mono; [by apply update_instances_spec| |done]. cbn beta.
  intros _ c (Hin & Hout & Hc & Hwfc). split; [|done].
  eapply filed_update; [done.. | exact Hin | exact Hout | by rewrite Hc].
Qed.

Lemma mark_verifying_kept path planned parent shs s :
  kept any path planned parent shs s →
  wp (_mark_verifying w job_id) (λ _ s', kept any path planned parent shs s') (λ _ _, True) s.
Proof.
  intros Hk. unfold _mark_verifying, instances_detail. do 2 wp_step.
  eapply wp_bind_kept; [auto with preserves | exact Hk|]. intros _ s1 Hk1. do 3 wp_step.
  eapply wp_mono; [by apply (update_kept any any
    (set_instance_state (enum_value FileInstanceState.VERIFYING)) staged_states)| |done]. cbn beta. intros _ s2 Hk2.
  apply wp_kept; [auto with preserves | done].
Qed.

Lemma commit_kept refs path planned parent shs s :
  kept any path planned parent shs s →
  wp (_commit_staged w job_id refs) (λ _ s', kept archived path planned parent shs s')
    (λ _ _, True) s.
Proof.
  intros Hk. unfold _commit_staged, instances_detail. do 4 wp_step. do 2 wp_step; [done|].
  do 2 wp_step. wp_step. apply wp_tick. wp_step.
  set (s1 := with_cell _ _ _ s). assert (kept any path planned parent shs s1) as Hk1.
  { destruct Hk as [Hfd Hwf]. split; [|done]. eapply filed_filing; [|exact Hfd]. split; simpl; done || lia. }
  eapply wp_mono; [by apply (update_kept any archived
    (archived_instance (w_now w (tj_tick s)) true) [enum_value FileInstanceState.VERIFYING]
    path planned parent shs s1)| |done].
  cbn beta. intros _ s2 Hk2. do 2 wp_step. apply wp_kept; [auto with preserves | done].
Qed.

Lemma archive_body_kept refs stage path planned (R : file_row → Prop) s :
  (∀ s1, reading s s1 → wp stage (λ pl s', (pl = planned ∧ inst_ok w s') ∧ ∃ parent shs, R parent ∧
     filed any path pl parent shs s') (λ _ _, True) s1) →
  wp (archive_body str_of w job_id refs stage)
    (λ _ s', ∃ parent shs, R parent ∧ kept archived path planned parent shs s') (λ _ _, True) s.
Proof.
  intros Hstage. unfold archive_body.
  apply (wp_bind_preserves reading) with (s0 := s); [auto with preserves | done | done |].
  intros _ s1 H1. wp_step. eapply wp_mono; [by apply Hstage| |done].
  intros pl s2 ([-> Hok] & parent & shs & HR & Hfd).
  assert (kept any path planned parent shs s2) as Hk by (split; [done | apply Hok]). clear Hfd Hok.
  eapply wp_bind_kept; [|exact Hk|]; [apply preserves_filing; solve_preserves|]. clear s2 Hk. intros _ s2 Hk.
  eapply wp_bind_kept; [apply write_batch_filing | exact Hk|]. clear s2 Hk. intros _ s2 Hk.
  unfold verify_and_commit. do 2 wp_step.
  eapply wp_mono; [by apply mark_verifying_kept| |done]. cbn beta. clear s2 Hk. intros _ s2 Hk.
  eapply wp_bind_kept; [auto with preserves | exact Hk|]. clear s2 Hk. intros now s2 Hk.
  eapply wp_bind_kept; [auto with preserves | exact Hk|]. clear s2 Hk. intros _ s2 Hk.
  eapply wp_bind_kept; [|exact Hk|]; [apply preserves_filing; solve_preserves|]. clear s2 Hk. intros _ s2 Hk.
  eapply wp_bind_kept; [auto with preserves | exact Hk|]. clear s2 Hk. intros _ s2 Hk.
  eapply wp_mono; [by apply commit_kept| |done]. cbn beta. intros _ s3 Hk3. wp_step. by exists parent, shs.
Qed.

Lemma with_drives_held_kept {A} report bcs refs (body : M tape_job A) (R : A → tape_job → Prop) s :
  (∀ a s1 s2, reading s1 s2 → R a s1 → R a s2) →
  wp body R (λ _ _, True) (with_locals [] [] [] false s) →
  wp (with_drives_held str_of class_of w job_id report bcs refs body raise) R (λ _ _, True) s.
Proof.
  intros HR Hbody. unfold with_drives_held. do 2 wp_step. apply wp_try_finally, wp_try_except.
  eapply wp_mono; [exact Hbody| |]; cbn beta.
  - intros a s1 Ha. eapply wp_mono; [apply (wp_preserves reading)| |done]; [solve_preserves|].
    cbn beta. intros _ s2 H2. by eapply HR.
  - intros e s1 _. case_bool_decide.
    + do 2 wp_step. apply wp_bind, wp_journal_op. intros s2 _. wp_step. apply wp_trivial.
    + apply wp_bind, wp_journal_op. intros s2 _. wp_step. apply wp_trivial.
Qed.

Lemma archive_block_filed f rq vg plan planned s :
  plan_block_stripe (w_uuid w (tj_tick s)) (file_name (src_path f)) (src_content f)
    (ar_lane_barcodes rq) "/block_stripe" (ar_block_size rq) = Ok plan →
  shard_lanes f (ar_block_size rq) plan = Ok planned →
  inst_ok w s → fresh_ids s →
  no_file (posix_path (src_path f) :: shard_paths (src_path f) (length (ar_lane_barcodes rq))) (tj_catalog s) →
  NoDup (posix_path (src_path f) :: shard_paths (src_path f) (length (ar_lane_barcodes rq))) →
  wp (_archive_block_stripe str_of class_of w job_id f rq vg)
    (λ r s', r = Some tt → ∃ parent shs,
       striped_record f (ar_block_size rq) (length (ar_lane_barcodes rq)) parent ∧
       kept archived (src_path f) planned parent shs s')
    (λ _ _, True) s.
Proof.
  intros Hplan Hpl Hok Hfr Hno Hnd. unfold _archive_block_stripe.
  wp_step. apply wp_tick. rewrite Hplan. do 2 wp_step; [|done]. simplify_eq. do 2 wp_step.
  set (s0 := with_group _ _).
  apply (wp_bind_preserves reading) with (s0 := s0); [auto with preserves | done | done |].
  intros [refs|] s1 H1; [|by wp_step].
  apply (wp_bind_preserves reading) with (s0 := s0); [auto with preserves | done | done |]. intros _ s2 H2.
  apply with_drives_held_kept.
  { intros r s3 s4 Hs HR Hr. destruct (HR Hr) as (parent & shs & Hrec & [Hfd Hwf]).
    exists parent, shs. split; [done|]. split.
    - eapply filed_filing; [by apply reading_filing | done].
    - destruct Hs as [[= _ Hi] _ _ _ _]. unfold instances_wf. by rewrite Hi. }
  wp_step. eapply wp_mono; [apply (archive_body_kept _ _ (src_path f) planned
    (striped_record f (ar_block_size rq) (length (ar_lane_barcodes rq))))| |done].
  2: { cbn beta. intros _ s3 Hs3. by wp_step. }
  intros s3 H3. assert (rows (tj_catalog s3) = rows (tj_catalog s)) as Hrows.
  { etrans; [exact (tables_rows _ _ (q_catalog _ _ H3))|]. etrans; [exact (tables_rows _ _ (q_catalog _ _ H2)) | done]. }
  assert (tj_tick s ≤ tj_tick s3)%nat as Ht.
  { pose proof (q_tick _ _ H2). pose proof (q_tick _ _ H3). simpl in *. lia. }
  assert (inst_ok w s3) as Hok3.
  { destruct Hok as [[Hd Hk] Hf]. injection Hrows as _ Hi. split; [split|]; rewrite ?Hi; try done.
    intros n Hn. apply Hf. lia. }
  destruct (stage_block_stages w job_id f rq vg _ _ Hpl) as [_ Hst].
  eapply wp_mono; [apply wp_and; [apply Hst; [done | by rewrite (q_staged _ _ H3)]|
    eapply stage_block_filed; [exact Hplan | by apply (fresh_later s) | | done]]| |done].
  - unfold no_file. injection Hrows as -> _. exact Hno.
  - cbn beta. intros pl s4 [(-> & Hok4 & _) Hrec]. done.
Qed.
End stage.

(** * The plan of the restore *)
Lemma select_unique {R} (p : R → bool) (d : dict string R) id r :
  dict_wf d → dget d id = Some r → p r = true →
  (∀ id' r', dget d id' = Some r' → p r' = true → id' = id ∧ r' = r) → select p d = [r].
Proof.
  intros Hwf Hget Hp Huniq. destruct (dget_split _ _ _ Hget) as (d1 & d2 & -> & _).
  assert (∀ kv, kv ∈ (d1 ++ d2)%list → p kv.2 = false) as Hother.
  { intros [k v] Hkv. simpl. destruct (p v) eqn:Hv; [|done]. exfalso.
    assert ((k, v) ∈ (d1 ++ (id, r) :: d2)%list) as Hin by set_solver.
    destruct (Huniq k v (elem_dget _ _ _ Hwf Hin) Hv) as [-> ->].
    unfold dict_wf in Hwf. rewrite fmap_app in Hwf. csimpl in *.
    apply NoDup_app in Hwf as (_ & H1 & [H2 _]%NoDup_cons).
    apply elem_of_app in Hkv as [Hkv|Hkv]; apply (list_elem_of_fmap_2 fst) in Hkv; simpl in Hkv.
    - apply (H1 _ Hkv). by left.
    - done. }
  rewrite select_app. change ((id, r) :: d2) with ([(id, r)] ++ d2)%list. rewrite select_app.
  rewrite (select_none p d1), (select_none p d2).
  - unfold select. simpl. rewrite filter_cons_True; [done|]. by rewrite Hp.
  - intros v (kv & -> & Hkv)%list_elem_of_fmap. apply Hother. set_solver.
  - intros v (kv & -> & Hkv)%list_elem_of_fmap. apply Hother. set_solver.
Qed.

Lemma owned_latest P c staged l sh :
  instances_wf c → owns P c staged l sh → (∀ r, P r → fi_state r = enum_value FileInstanceState.ARCHIVED) →
  ∃ r, _latest_archived_instance sh c = Some r ∧ row_of l r.
Proof.
  intros [Hwf _] (id & r & [_ HP] & Hrow & Hget & Hfile & Huniq) Hst. exists r. split; [|done].
  unfold _latest_archived_instance, archived_of, instances_of.
  rewrite (select_unique _ _ id r Hwf Hget); [|by apply bool_decide_eq_true|].
  - simpl. rewrite filter_cons_True; [done|]. by apply Hst.
  - intros id' r' Hget' Hf%bool_decide_eq_true. by apply Huniq.
Qed.

(** Records with indices from [k] on are in order. *)
Lemma indexed_sorted le k (shs : list file_row) :
  (∀ a b i j, fl_shard_index a = Some (Z.of_nat i) → fl_shard_index b = Some (Z.of_nat j) →
     (i < j)%nat → le a b = true) →
  fl_shard_index <$> shs = (Some ∘ Z.of_nat) <$> seq k (length shs) → sort_by le shs = shs.
Proof.
  intros Hle Hidx. apply sort_by_id. revert k Hidx. induction shs as [|sh shs IH]; intros k; csimpl; [done|].
  intros [= Hsh Hidx]. split; [|by eapply IH]. apply Forall_forall. intros x Hx.
  apply list_elem_of_lookup in Hx as [i Hi]. apply (f_equal (lookup i)) in Hidx.
  rewrite !list_lookup_fmap, Hi, lookup_seq_lt in Hidx by (by apply lookup_lt_is_Some; eexists).
  simpl in Hidx. injection Hidx as Hidx. eapply (Hle _ _ k (S k + i)%nat); [done | done | lia].
Qed.

Lemma filed_plan w path planned parent shs s f bs bs0 n :
  kept w (λ r, fi_state r = enum_value FileInstanceState.ARCHIVED) path planned parent shs s →
  striped_record f bs n parent → length planned = n → (1 < n)%nat → bs ≠ 0 →
  ∃ insts, restore_plan parent bs0 (tj_catalog s) = inr (insts, bs) ∧ Forall2 row_of planned insts.
Proof.
  intros [[_ Hsh Hidx Hown _ _] Hwf] [_ Hcount Hblock] Hlen Hn Hbs.
  pose proof (Forall2_length _ _ _ Hown) as Hl.
  assert (∃ insts, omap (λ r, _latest_archived_instance r (tj_catalog s)) shs = insts ∧
    length insts = length shs ∧ Forall2 row_of planned insts) as (insts & Hi & Hil & Hrows).
  { clear Hsh Hidx Hl Hlen. induction Hown as [|l sh planned shs Ho _ (insts & Hi & Hil & Hr)]; [by exists []|].
    destruct (owned_latest _ _ _ _ _ Hwf Ho) as (r & Hr1 & Hrow); [done|].
    exists (r :: insts). csimpl. rewrite Hr1. simpl. by rewrite Hi, Hil; split_and!; [..|constructor]. }
  exists insts. split; [|done]. unfold restore_plan, list_shard_records. rewrite Hsh.
  rewrite (indexed_sorted shard_le 0 shs); [|intros a b i j Ha Hb Hij|exact Hidx].
  2: { unfold shard_le. rewrite Ha, Hb. apply orb_true_iff. left. apply bool_decide_eq_true. lia. }
  rewrite (indexed_sorted _ 0 shs); [|intros a b i j Ha Hb Hij|exact Hidx].
  2: { rewrite Ha, Hb. unfold int_or. apply bool_decide_eq_true. repeat case_bool_decide; lia. }
  assert (int_or (fl_shard_count parent) 0 = Z.of_nat n) as ->.
  { rewrite Hcount. unfold int_or. case_bool_decide; lia. }
  assert (int_or (fl_block_size parent) bs0 = bs) as ->.
  { rewrite Hblock. unfold int_or. by rewrite bool_decide_false. }
  rewrite (bool_decide_false (Z.of_nat (length shs) ≠ Z.of_nat n)) by (rewrite <-Hl, Hlen; by intros []).
  rewrite andb_false_r, bool_decide_true by lia. cbv zeta.
  rewrite Hi, bool_decide_false by (rewrite Hil; by intros []). done.
Qed.

Lemma reassemble_agree fuel shards bs x y :
  reassemble_block_stripe fuel shards bs = Some x → reassemble shards bs = Some y → x = y.
Proof.
  unfold reassemble, reassemble_block_stripe. intros (o1 & H1 & ->)%fmap_Some (o2 & H2 & ->)%fmap_Some.
  apply (reassemble_loop_fuel _ (fuel + S (total shards))) in H1; [|lia].
  apply (reassemble_loop_fuel _ (fuel + S (total shards))) in H2; [|lia]. congruence.
Qed.

(** The bytes of the instances are those of the lanes. *)
Lemma lane_sources t planned insts shards :
  Forall2 row_of planned insts → Forall (on_tape t) planned → Forall2 (source_of t) insts shards →
  shards = ln_content <$> planned.
Proof.
  intros Hrows. revert shards. induction Hrows as [|l i planned insts [Hb Hp] _ IH]; intros shards Hon Hs.
  { by inversion Hs. }
  apply Forall_cons in Hon as [Hl Hon]. inversion Hs as [|? d ? shards' (b & Hbar & Hc) Hs']; subst.
  csimpl. f_equal; [|by apply IH]. apply Barcode_valid in Hbar as [_ ->].
  unfold on_tape, location in Hl. simpl in Hl. rewrite Hp, posix_path_idemp, Hb in Hc. congruence.
Qed.

(** * Properties *)

(** C2: What is archived comes back: after a block-striped archive of a new file
    has answered normally, a restore of its path, by any process, at any later
    time at which the rows and the tapes are as the archive left them, and
    whatever faults it meets, leaves at its destination the bytes of the file, or
    raises; it never answers with an error, and never leaves other bytes there
    than the file's or those that were there before. *)
Theorem archive_then_restore (str_of class_of : exn → string) (w : surroundings) (job_id vg : string)
    (f : source_file) (rq : archive_request) (s : tape_job)
    (str_of' : exn → string) (w' : surroundings) (job_id' : string) (rq' : restore_request)
    (t : restore_state)
    (Huuid : ∀ m n, w_uuid w m = w_uuid w n → m = n) (Hwf : inst_ok w s) (Hfresh : fresh_ids w s)
    (Hnew : no_file (posix_path (src_path f) ::
                     shard_paths (src_path f) (length (ar_lane_barcodes rq))) (tj_catalog s))
    (Hpaths : NoDup (posix_path (src_path f) ::
                     shard_paths (src_path f) (length (ar_lane_barcodes rq))))
    (Hbs : 0 < ar_block_size rq) (Hlanes : (2 ≤ length (ar_lane_barcodes rq))%nat)
    (Hdistinct : NoDup (upper <$> ar_lane_barcodes rq)) (Hpath : sr_catalog_path rq' = src_path f) :
  let '(r, s1) := _archive_block_stripe str_of class_of w job_id f rq vg s in
  r = Ok (Some tt) → rows (tj_catalog (rt_job t)) = rows (tj_catalog s1) →
  same_content (tj_ltfs s1) (tj_ltfs (rt_job t)) →
  let '(r', t') := run_sharded_restore str_of' w' job_id' rq' t in
  (rt_dest t' = rt_dest t ∨ rt_dest t' = None ∨ rt_dest t' = Some (src_content f)) ∧
  ∀ res, r' = Ok (Some res) → so_checksum_verified res = true ∧ rt_dest t' = Some (src_content f).
Proof.
  assert (Inj (=) (=) (w_uuid w)) by done.
  destruct (block_lanes f (w_uuid w (tj_tick s)) (file_name (src_path f)) "/block_stripe"
    (ar_lane_barcodes rq) (ar_block_size rq) (S (length (src_content f))))
    as (plan & planned & Hplan & Hpl & Hbc & Hre); [done | done | lia |].
  assert (NoDup (location <$> planned)) as Hnd by (apply locations_distinct; by rewrite Hbc).
  pose proof (archive_block_spec str_of class_of w job_id f rq vg _ plan planned s Hwf eq_refl Hplan Hpl
    Hnd) as Hspec.
  pose proof (archive_block_filed str_of class_of w job_id f rq vg plan planned s Hplan Hpl Hwf Hfresh
    Hnew Hpaths) as Hfiled.
  apply wp_unfold in Hspec, Hfiled.
  destruct (_archive_block_stripe _ _ _ _ _ _ _ s) as [[[[]|]|e] s1]; [|done..].
  intros _ Hrows Hcontent. destruct (Hfiled eq_refl) as (parent & shs & Hrec & Hkept).
  destruct (filed_plan _ _ _ _ _ _ f _ (sr_block_size rq') _ Hkept Hrec) as (insts & Hrp & Hins).
  { rewrite <-Hbc. by rewrite length_fmap. }
  { lia. }
  { lia. }
  assert (∀ t', fulfilled rq' t t' → rt_dest t' = Some (src_content f)) as Hful.
  { intros t' (f' & insts' & bs' & Hf' & Hplan' & shards & data & Hs & Hj & _ & ->).
    rewrite (rows_record _ _ _ Hrows), Hpath in Hf'. rewrite (rows_plan _ _ _ _ Hrows) in Hplan'.
    rewrite (fd_parent _ _ _ _ _ _ _ (proj1 Hkept)) in Hf'. injection Hf' as <-.
    rewrite Hrp in Hplan'. injection Hplan' as <- <-.
    assert (shards = ln_content <$> planned) as ->.
    { eapply lane_sources; [exact Hins | | exact Hs]. apply Forall_forall. intros l Hl.
      unfold on_tape. rewrite (Hcontent _ _). by apply Hspec. }
    unfold joined in Hj. apply (f_equal length) in Hbc. rewrite length_fmap in Hbc.
    destruct planned as [|l1 [|l2 planned]]; [simpl in Hbc; lia..|]. csimpl in *.
    pose proof (reassemble_agree _ _ _ _ _ Hre Hj) as Heq. by injection Heq as ->. }
  pose proof (run_restore_spec str_of' w' job_id' rq' t) as Hrun. apply wp_unfold in Hrun.
  destruct (run_sharded_restore _ _ _ _ t) as [[res|e] t'].
  - destruct Hrun as [_ Ha]. destruct res as [res|]; simpl in Ha.
    + destruct Ha as [(Hv & _ & Hd%Hful)|(_ & _ & _ & Hnone)].
      * split; [by right; right|]. by intros ? [= <-].
      * exfalso. unfold nothing_archived in Hnone.
        rewrite (rows_record _ _ _ Hrows), Hpath, (fd_parent _ _ _ _ _ _ _ (proj1 Hkept)) in Hnone.
        destruct Hnone as [bs Hnone]. rewrite (rows_plan _ _ _ _ Hrows), Hrp in Hnone.
        injection Hnone as -> _. inversion Hins; subst. simpl in Hbc. rewrite <-Hbc in Hlanes. simpl in Hlanes. lia.
    + split; [by left | done].
  - destruct Hrun as [_ Hd]. split; [|done]. destruct Hd as [Hd|[Hd|Hd]]; [by left | by right; left |].
    right; right. by apply Hful.
Qed.

(** A restore of what a sample archive left. *)
Definition restore_from (s : tape_job) : restore_state := RestoreState s None 0 None false false.
Notation restore_sample path s :=
  (run_sharded_restore (λ _, "tape error") sample_surroundings "job1" (ShardedRestoreRequest path 4)
    (restore_from s)).

Lemma sample_fresh : fresh_ids sample_surroundings (sample_start no_faults no_faults).
Proof. split; intros; try done; by apply elem_of_nil in H0. Qed.

Definition striped_file : source_file := SourceFile "/data/f" (bytes_of "abcdefghij").
Definition striped_request : archive_request :=
  ShardedArchiveRequest "/data" "vg" ["TAPE01L8"; "TAPE02L8"] ShardMode.BLOCK_STRIPE 4 false.
Notation striped_sample :=
  (_archive_block_stripe (λ _, "") (λ _, "") sample_surroundings "job1" striped_file striped_request "vg"
    (sample_start no_faults no_faults)).

Lemma archive_then_restore_witness :
  let '(r, t) := restore_sample "/data/f" striped_sample.2 in
  r = Ok (Some (ShardedRestoreResult "job1" ["TAPE01L8"; "TAPE02L8"] true 10 None)) ∧
  rt_dest t = Some (bytes_of "abcdefghij").
Proof.
  assert (striped_sample.1 = Ok (Some tt)) as Hr by (vm_compute; reflexivity).
  assert ((restore_sample "/data/f" striped_sample.2).1 =
    Ok (Some (ShardedRestoreResult "job1" ["TAPE01L8"; "TAPE02L8"] true 10 None))) as Ho
    by (vm_compute; reflexivity).
  pose proof (λ t, archive_then_restore (λ _, "") (λ _, "") sample_surroundings "job1" "vg" striped_file
    striped_request (sample_start no_faults no_faults) (λ _, "tape error") sample_surroundings "job1"
    (ShardedRestoreRequest "/data/f" 4) t sample_uuids (sample_start_ok _ _) sample_fresh
    ltac:(constructor) ltac:(apply (bool_decide_unpack _); vm_compute; exact I)
    ltac:(reflexivity) ltac:(simpl; lia) ltac:(apply (bool_decide_unpack _); vm_compute; exact I)
    eq_refl) as H.
  revert Hr Ho H.
  match goal with |- context [_archive_block_stripe ?a ?b ?c ?d ?e ?f ?g ?h] =>
    generalize (_archive_block_stripe a b c d e f g h) end.
  intros [r s1]. cbn [fst snd]. intros Hr Ho H.
  specialize (H (restore_from s1) Hr eq_refl ltac:(by intros ? ?)). revert Ho H.
  destruct (run_sharded_restore _ _ _ _ _) as [r' t]. cbn [fst snd]. intros Ho [_ H].
  split; [exact Ho | by apply (H _ Ho)].
Defined.

(** Archiving a file again over fewer tapes makes it unrestorable: the shard
    records of the wider archive stay, under the same parent, so that a restore
    reads the old shards after the new ones, although the new copy is whole, on
    tape and catalogued as archived. *)
Theorem narrower_rearchive_unrestorable :
  let run lanes mode := run_sample "/data" lanes mode [SourceFile "/data/f" (bytes_of "abcdefghij")] in
  let '(r1, s1) := run ["TAPE01L8"; "TAPE02L8"] ShardMode.BLOCK_STRIPE (sample_start no_faults no_faults) in
  let '(r2, s2) := run ["TAPE01L8"] ShardMode.STRIPE s1 in
  match r1, r2 with
  | Ok (Some x), Ok (Some y) => rs_errors x = [] ∧ rs_errors y = [] ∧ rs_files_archived y = 1
  | _, _ => False
  end ∧
  rt_dest (restore_sample "/data/f" s1).2 = Some (bytes_of "abcdefghij") ∧
  intact s2 "/data/f" = Some true ∧
  (restore_sample "/data/f" s2).1 = Raise ChecksumMismatchError.
Proof. vm_compute. by split_and!. Qed.
