(* ===== verification/FileJob.v ===== *)
(** What the jobs on single files have in common (jobs/restore.py,
    jobs/archive.py, jobs/tree_restore.py): the disk they read from and write to,
    the drives and the media of the emulated library's console they keep up to
    date (api/aml_state.py), and the state they run over.

    Of the console only the documents these jobs write are modelled.  Each access
    to the media also recounts partitions and pools, which no job reads: whether
    a recount raises is a reading of the surroundings. *)
From stdpp Require Import base list option strings pretty gmap.
From Stdlib Require Import Ascii ZArith QArith Lia.
From S2P Require Import Prelude Wp Domain Paths Leases Catalog Faults Library Reconcile CatalogStore.
From S2P Require Import Scheduler Bytes Ltfs Orchestrator TapeJob.
#[local] Open Scope string_scope.
#[local] Open Scope Z_scope.

(** * Paths *)

(** A path from its root and its parts. *)
Definition render_path (root : string) (parts : list string) : string :=
  if bool_decide (root = "" ∧ parts = []) then "." else root ++ join_parts parts.

(** [p / q]: an absolute [q] stands for itself. *)
Definition path_join (p q : string) : string :=
  if bool_decide (path_root q = "") then render_path (path_root p) (path_parts p ++ path_parts q)%list
  else posix_path q.

(** [p.name]. *)
Definition basename (p : string) : string := default "" (last (path_parts p)).

(** [p.with_name(n)]. *)
Definition with_name (p n : string) : result string :=
  if bool_decide (path_parts p = [] ∨ n = "" ∨ n = "." ∨ path_parts n ≠ [n]) then Raise ValueError
  else Ok (render_path (path_root p) (removelast (path_parts p) ++ [n])%list).

(** The proper ancestors of a path, the nearest last. *)
Definition path_parents (p : string) : list string :=
  (λ n, render_path (path_root p) (take n (path_parts p))) <$> seq 0 (length (path_parts p)).

(** * The disk

    Files and directories by path; no links. *)
Record disk := Disk {
  dk_files : gmap string bytes;
  dk_dirs : gset string;
}.
Definition with_files (f : gmap string bytes) (d : disk) : disk := Disk f (dk_dirs d).

Definition is_dir (p : string) (d : disk) : bool :=
  bool_decide (path_parts p = [] ∨ posix_path p ∈ dk_dirs d).

(** [p.parent.mkdir(parents=True, exist_ok=True)]. *)
Definition make_parents (p : string) : M disk unit :=
  d ← getS;
  raise_if (existsb (λ q, is_some (dk_files d !! q)) (path_parents p)) OSError;;
  modify (λ d, Disk (dk_files d) (list_to_set (path_parents p) ∪ dk_dirs d)).

Definition write_disk (p : string) (data : bytes) : M disk unit :=
  make_parents p;;
  d ← getS;
  raise_if (is_dir p d) OSError;;
  modify (λ d, with_files (<[p := data]> (dk_files d)) d).

(** [p.rename(q)] and [p.replace(q)] of a file. *)
Definition rename_file (p q : string) : M disk unit :=
  d ← getS;
  match dk_files d !! p with
  | None => raise OSError
  | Some data =>
      raise_if (is_dir q d) OSError;;
      modify (λ d, with_files (<[q := data]> (delete p (dk_files d))) d)
  end.

(** [p.unlink(missing_ok=True)]. *)
Definition unlink_file (p : string) : M disk unit :=
  d ← getS;
  raise_if (is_dir p d) OSError;;
  modify (λ d, with_files (delete p (dk_files d)) d).

(** [sha256sum(p)]. *)
Definition sha256sum (p : string) : M disk string :=
  d ← getS;
  match dk_files d !! p with
  | Some data => mret (sha256_hex data)
  | None => raise OSError
  end.

(** * The console's documents *)
Record aml := Aml {
  aml_drives : dict string (dict string json);
  aml_media : dict string (dict string json);
}.
Definition with_drives (d : dict string (dict string json)) (a : aml) : aml := Aml d (aml_media a).
Definition with_media (d : dict string (dict string json)) (a : aml) : aml := Aml (aml_drives a) d.

Definition get_aml_drive (serial_number : string) (a : aml) : option (dict string json) :=
  dget (aml_drives a) serial_number.

(** Every update but the one of the key itself. *)
Definition apply_updates (updates doc : dict string json) : dict string json :=
  foldl (λ d kv, dset d kv.1 kv.2) doc updates.

Definition update_aml_drive (serial_number : string) (updates : dict string json) (a : aml) : aml :=
  match dget (aml_drives a) serial_number with
  | None => a
  | Some drive =>
      with_drives (dset (aml_drives a) serial_number
        (apply_updates (filter (λ kv, kv.1 ≠ "serialNumber") updates) drive)) a
  end.

Definition not_null (j : json) : bool := match j with JNull => false | _ => true end.

(** Up to the recount. *)
Definition store_aml_media (barcode : string) (updates : dict string json) (a : aml) : aml :=
  match dget (aml_media a) barcode with
  | None => a
  | Some media =>
      with_media (dset (aml_media a) barcode
        (apply_updates (filter (λ kv, kv.1 ≠ "barcode" ∧ not_null kv.2 = true) updates) media)) a
  end.

(** [f"{n:03d}"]. *)
Definition pad3 (n : Z) : string :=
  let s := pretty (Z.abs n) in
  let zeros k := String.string_of_list_ascii (replicate (k - String.length s) "0"%char) in
  if bool_decide (n < 0) then "-" ++ zeros 2%nat ++ s else zeros 3%nat ++ s.
Definition _aml_drive_name (drive_id : Z) : string := "DRV-" ++ pad3 (drive_id + 1).
Definition _aml_slot_address (slot_id : Z) : string := "1,1," ++ pretty slot_id.

(** * State

    The job, the console, the disk, and the locals of the routine that runs. *)
Record file_job (L : Type) := FileJob {
  fj_job : tape_job;
  fj_aml : aml;
  fj_disk : disk;
  fj_local : L;
}.
Arguments FileJob {_} _ _ _ _.
Arguments fj_job {_} _.
Arguments fj_aml {_} _.
Arguments fj_disk {_} _.
Arguments fj_local {_} _.
Definition fj_catalog {L} (s : file_job L) : catalog := tj_catalog (fj_job s).

(** What the job meets beside the surroundings of every tape job: what a recount
    of the media raises, and the text of a time. *)
Record file_surroundings := FileSurroundings {
  fw_tapes :> surroundings;
  fw_recount : nat → option exn;
  fw_timestamp : Z → string;
}.

Section file_job.
Context {L : Type}.

Definition with_tapes (j : tape_job) (s : file_job L) : file_job L :=
  FileJob j (fj_aml s) (fj_disk s) (fj_local s).
Definition with_aml (a : aml) (s : file_job L) : file_job L :=
  FileJob (fj_job s) a (fj_disk s) (fj_local s).
Definition with_disk (d : disk) (s : file_job L) : file_job L :=
  FileJob (fj_job s) (fj_aml s) d (fj_local s).
Definition with_local (l : L) (s : file_job L) : file_job L :=
  FileJob (fj_job s) (fj_aml s) (fj_disk s) l.

Definition on_tapes {A} (m : M tape_job A) : M (file_job L) A := zoom fj_job with_tapes m.
Definition on_disk {A} (m : M disk A) : M (file_job L) A := zoom fj_disk with_disk m.
Definition set_local (f : L → L) : M (file_job L) unit := modify (λ s, with_local (f (fj_local s)) s).

Context (w : file_surroundings).

Definition _sync_aml_media_counts : M (file_job L) unit :=
  r ← on_tapes (tick (fw_recount w));
  match r with Some e => raise e | None => mret tt end.

Definition get_aml_media (barcode : string) : M (file_job L) (option (dict string json)) :=
  _sync_aml_media_counts;;
  gets (λ s, dget (aml_media (fj_aml s)) barcode).

Definition update_aml_media (barcode : string) (updates : dict string json) : M (file_job L) unit :=
  s ← getS;
  when (dmem (aml_media (fj_aml s)) barcode)
    (modify (λ s, with_aml (store_aml_media barcode updates (fj_aml s)) s);;
     _sync_aml_media_counts;;
     _ ← get_aml_media barcode;
     mret tt).

(** ** The marks of a load and of an unload *)
Definition loaded_media (barcode : string) (media : option (dict string json)) : json :=
  JObj [("barcode", JStr barcode);
        ("type", dget_or (default [] media) "type" (JStr "LTO-9"));
        ("state", JStr "loaded")].

Definition _mark_aml_drive_busy (barcode : string) (drive_id : Z) : M (file_job L) unit :=
  let drive_name := _aml_drive_name drive_id in
  a ← gets fj_aml;
  when (is_some (get_aml_drive drive_name a))
    (media ← get_aml_media barcode;
     modify (λ s, with_aml (update_aml_drive drive_name
       [("state", JStr "busy"); ("loadedMedia", loaded_media barcode media)] (fj_aml s)) s));;
  media ← get_aml_media barcode;
  match media with
  | None => mret tt
  | Some media =>
      now ← on_tapes (tick (w_now w));
      count ← liftR (coerce_int (dget_or media "loadCount" (JInt 0)));
      update_aml_media barcode
        [("slotAddress", JStr drive_name); ("state", JStr "loaded");
         ("lastLoaded", JStr (fw_timestamp w now)); ("loadCount", JInt (count + 1))]
  end.

Definition _mark_aml_drive_idle (barcode : string) (drive_id : Z) (slot_id : option Z)
    : M (file_job L) unit :=
  let drive_name := _aml_drive_name drive_id in
  a ← gets fj_aml;
  when (is_some (get_aml_drive drive_name a))
    (modify (λ s, with_aml (update_aml_drive drive_name
       [("state", JStr "idle"); ("loadedMedia", JNull)] (fj_aml s)) s));;
  media ← get_aml_media barcode;
  match media, slot_id with
  | Some _, Some slot_id =>
      update_aml_media barcode [("slotAddress", JStr (_aml_slot_address slot_id)); ("state", JStr "home")]
  | _, _ => mret tt
  end.

(** The file a tape gives, on the disk. *)
Definition read_to_disk (m : mount_handle) (tape_path dest : string) : M (file_job L) unit :=
  data ← on_tapes (tape_op (fst <$> read_file m (posix_path tape_path)));
  on_disk (write_disk dest data).

Definition lease_detail (drive_id : Z) (barcode : string) : dict string json :=
  [("drive_id", JInt drive_id); ("barcode", JStr barcode)].
End file_job.

(** * Paths taken apart *)

(** What a part of a path is. *)
Definition path_part (x : string) : Prop := x ≠ "" ∧ x ≠ "." ∧ no_slash x.

Lemma path_parts_ok p : Forall path_part (path_parts p).
Proof. apply Forall_forall. intros x. apply path_parts_elem. Qed.

Lemma parts_join ps : Forall path_part ps → path_parts (join_parts ps) = ps.
Proof.
  intros Hps. destruct (decide (ps = [])) as [->|Hne]; [done|].
  unfold path_parts. rewrite split_on_join; [|done|eapply Forall_impl; [exact Hps|]; by intros x (? & ? & ?)].
  clear Hne. induction Hps as [|x ps (H1 & H2 & _) _ IH]; [done|]. by rewrite filter_cons_True, IH.
Qed.

Lemma join_parts_head x ps : path_part x → ∃ c u, join_parts (x :: ps) = String c u ∧ c ≠ "/"%char.
Proof.
  intros (Hne & _ & Hsl). destruct x as [|c x]; [done|].
  assert (c ≠ "/"%char) as Hc by (intros ->; apply Hsl; by left).
  destruct ps; by eexists _, _.
Qed.

Lemma part_root x : path_part x → path_root x = "".
Proof.
  intros Hx. destruct (join_parts_head x [] Hx) as (c & u & Hj & Hc). simpl in Hj. rewrite Hj.
  by apply path_root_other.
Qed.
Lemma part_parts x : path_part x → path_parts x = [x].
Proof. intros Hx. by apply (parts_join [x]), Forall_singleton. Qed.

Lemma render_parts p ps : Forall path_part ps → path_parts (render_path (path_root p) ps) = ps.
Proof.
  intros Hps. unfold render_path. case_bool_decide as H; [by destruct H as [_ ->]|].
  pose proof (path_root_cases p) as Hr. rewrite !elem_of_cons in Hr.
  destruct Hr as [->|[->|[->|[]%elem_of_nil]]]; simpl; rewrite ?path_parts_slash; by apply parts_join.
Qed.

Lemma render_root p ps : Forall path_part ps → path_root (render_path (path_root p) ps) = path_root p.
Proof.
  intros Hps. unfold render_path. case_bool_decide as H; [by destruct H as [-> _]|].
  pose proof (path_root_cases p) as Hr. rewrite !elem_of_cons in Hr.
  destruct ps as [|x ps].
  { destruct Hr as [Hr|[Hr|[Hr|[]%elem_of_nil]]]; rewrite Hr; [by destruct H | done..]. }
  apply Forall_cons in Hps as [Hx _]. destruct (join_parts_head x ps Hx) as (c & u & -> & Hc).
  destruct Hr as [->|[->|[->|[]%elem_of_nil]]]; simpl; [by apply path_root_other|..];
    by destruct c as [[] [] [] [] [] [] [] []].
Qed.

(** Joining relative parts goes below. *)
Lemma path_join_below p q : path_root q = "" →
  path_root (path_join p q) = path_root p ∧ path_parts (path_join p q) = (path_parts p ++ path_parts q)%list.
Proof.
  intros Hq. unfold path_join. rewrite bool_decide_true by done.
  assert (Forall path_part (path_parts p ++ path_parts q)) by (apply Forall_app; split; apply path_parts_ok).
  by split; [apply render_root | apply render_parts].
Qed.

Lemma joinpath_below p ps : Forall path_part ps →
  path_root (foldl path_join p ps) = path_root p ∧ path_parts (foldl path_join p ps) = (path_parts p ++ ps)%list.
Proof.
  intros Hps. revert p. induction Hps as [|x ps Hx _ IH]; intros p; simpl; [by rewrite app_nil_r|].
  destruct (path_join_below p x) as [Hr Hp]; [by apply part_root|]. destruct (IH (path_join p x)) as [-> ->].
  split; [done|]. rewrite Hp, (part_parts x) by done. by rewrite <-app_assoc.
Qed.

Lemma with_name_beside p n q : with_name p n = Ok q →
  path_root q = path_root p ∧ path_parts q = (removelast (path_parts p) ++ [n])%list.
Proof.
  unfold with_name. case_bool_decide as H; [done|]. intros [= <-].
  assert (Forall path_part (removelast (path_parts p) ++ [n])) as Hok.
  { apply Forall_app. split.
    - rewrite removelast_firstn_len. apply Forall_take, path_parts_ok.
    - apply Forall_singleton. assert (path_parts n = [n]) as Hn by (apply dec_stable; intros Hne; apply H; by do 3 right).
      pose proof (path_parts_ok n) as Hf. rewrite Hn in Hf. by inversion Hf. }
  by split; [apply render_root | apply render_parts].
Qed.

Lemma posix_path_render p : posix_path p = render_path (path_root p) (path_parts p).
Proof. done. Qed.

(** * What the shared steps leave alone *)

(** Steps that touch neither a part of the catalog, nor a content of a tape, nor
    the disk, nor a part of the locals. *)
Record still {L B C} (f : catalog → B) (g : L → C) (s s' : file_job L) : Prop := {
  st_calm : calm f (fj_job s) (fj_job s');
  st_disk : fj_disk s' = fj_disk s;
  st_local : g (fj_local s') = g (fj_local s);
}.
Arguments st_calm {_ _ _ _ _ _ _} _.
Arguments st_disk {_ _ _ _ _ _ _} _.
Arguments st_local {_ _ _ _ _ _ _} _.
#[export] Instance still_preorder {L B C} (f : catalog → B) (g : L → C) : PreOrder (still f g).
Proof. split; [by split|]. intros s1 s2 s3 [] []. split; [by etrans | congruence..]. Qed.

Section still.
Context {L C B : Type} (f : catalog → B) `{!Aside f} (g : L → C) (w : file_surroundings).

Lemma on_tapes_still {A} (m : M tape_job A) :
  preserves (calm f) m → preserves (still f g) (on_tapes (L := L) m).
Proof. intros Hm. apply (preserves_zoom _ (calm f)); [done|]. by intros s j Hj. Qed.
Lemma set_local_still h : (∀ l, g (h l) = g l) → preserves (still f g) (set_local h).
Proof. intros Hh. apply preserves_modify. intros s. split; [done..|]. apply Hh. Qed.
Lemma aml_still h : preserves (still f g) (modify (λ s, with_aml (h s) s)).
Proof. by apply preserves_modify. Qed.
Hint Resolve on_tapes_still aml_still : preserves.

Lemma sync_still : preserves (still f g) (_sync_aml_media_counts (L := L) w).
Proof. unfold _sync_aml_media_counts. solve_preserves. Qed.
Hint Resolve sync_still : preserves.
Lemma get_media_still bc : preserves (still f g) (get_aml_media (L := L) w bc).
Proof. unfold get_aml_media. solve_preserves. Qed.
Hint Resolve get_media_still : preserves.
Lemma update_media_still bc u : preserves (still f g) (update_aml_media (L := L) w bc u).
Proof. unfold update_aml_media. solve_preserves. Qed.
Hint Resolve update_media_still : preserves.
Lemma mark_busy_still bc d : preserves (still f g) (_mark_aml_drive_busy (L := L) w bc d).
Proof. unfold _mark_aml_drive_busy. solve_preserves. Qed.
Lemma mark_idle_still bc d slot : preserves (still f g) (_mark_aml_drive_idle (L := L) w bc d slot).
Proof. unfold _mark_aml_drive_idle. solve_preserves. Qed.
End still.
#[export] Hint Resolve on_tapes_still aml_still sync_still get_media_still update_media_still
  mark_busy_still mark_idle_still : preserves.

Section rules.
Context {L : Type}.

Lemma wp_on_tapes {A} (m : M tape_job A) (Q : A → file_job L → Prop) (E : exn → file_job L → Prop) s :
  wp m (λ a j, Q a (with_tapes j s)) (λ e j, E e (with_tapes j s)) (fj_job s) → wp (on_tapes m) Q E s.
Proof. intros H. unfold on_tapes. by wp_step. Qed.
Lemma wp_on_disk {A} (m : M disk A) (Q : A → file_job L → Prop) (E : exn → file_job L → Prop) s :
  wp m (λ a d, Q a (with_disk d s)) (λ e d, E e (with_disk d s)) (fj_disk s) → wp (on_disk m) Q E s.
Proof. intros H. unfold on_disk. by wp_step. Qed.
Lemma wp_set_local f (Q : () → file_job L → Prop) (E : exn → file_job L → Prop) s :
  Q tt (with_local (f (fj_local s)) s) → wp (set_local f) Q E s.
Proof. intros H. unfold set_local. by wp_step. Qed.
End rules.

(** ** The disk *)

(** Only the files [ps] may differ. *)
Definition only (ps : list string) : relation disk := λ d d',
  ∀ p, p ∉ ps → dk_files d' !! p = dk_files d !! p.
#[export] Instance only_preorder ps : PreOrder (only ps).
Proof. split; [done|]. intros d1 d2 d3 H1 H2 p Hp. by rewrite H2, H1. Qed.

Lemma only_weaken ps ps' d d' : ps ⊆ ps' → only ps d d' → only ps' d d'.
Proof. intros Hs H p Hp. apply H. set_solver. Qed.

Lemma wp_write_disk p data (Q : () → disk → Prop) (E : exn → disk → Prop) d :
  (∀ d', dk_files d' = <[p := data]> (dk_files d) → Q tt d') →
  (∀ e d', dk_files d' = dk_files d → E e d') →
  wp (write_disk p data) Q E d.
Proof. intros HQ HE. unfold write_disk, make_parents. repeat wp_step; [by apply HE..| by apply HQ]. Qed.

Lemma wp_rename_file p q (Q : () → disk → Prop) (E : exn → disk → Prop) d :
  (∀ data, dk_files d !! p = Some data →
     Q tt (with_files (<[q := data]> (delete p (dk_files d))) d)) →
  (∀ e, E e d) → wp (rename_file p q) Q E d.
Proof. intros HQ HE. unfold rename_file. repeat wp_step; [by apply HE | by apply HQ | by apply HE]. Qed.

Lemma wp_unlink_file p (Q : () → disk → Prop) (E : exn → disk → Prop) d :
  Q tt (with_files (delete p (dk_files d)) d) → (∀ e, E e d) → wp (unlink_file p) Q E d.
Proof. intros HQ HE. unfold unlink_file. repeat wp_step; [by apply HE | by apply HQ]. Qed.

Lemma wp_sha256sum p (Q : string → disk → Prop) (E : exn → disk → Prop) d :
  (∀ data, dk_files d !! p = Some data → Q (sha256_hex data) d) → (∀ e, E e d) → wp (sha256sum p) Q E d.
Proof. intros HQ HE. unfold sha256sum. repeat wp_step; [by apply HQ | by apply HE]. Qed.

(** ** Reading a tape *)

(** The bytes of a tape at a location. *)
Definition tape_holds (t : ltfs) (bc path : string) (data : bytes) : Prop :=
  ∃ b, Barcode bc = Ok b ∧ content_at t b (posix_path path) = Some data.

Lemma tape_holds_content t t' bc path data :
  same_content t t' → tape_holds t' bc path data → tape_holds t bc path data.
Proof. intros Ht (b & Hb & Hc). exists b. by rewrite <-(Ht _ _). Qed.

Lemma wp_read_tape m bc path t :
  Barcode bc = Ok (mh_barcode m) →
  wp (fst <$> read_file m (posix_path path))
    (λ data t', same_content t t' ∧ tape_holds t bc path data) (λ _ t', same_content t t') t.
Proof.
  intros Hb. apply wp_fmap. eapply wp_mono; [apply read_file_spec| |].
  - intros v t' [Hext (b & Hb' & Hc)]. split; [by apply ext_same_content|].
    rewrite (Barcode_idemp _ _ Hb) in Hb'. simplify_eq. by exists (mh_barcode m).
  - intros e t' Hext. by apply ext_same_content.
Qed.

Section reading.
Context {L C B : Type} (f : catalog → B) (g : L → C).

(** A mount names the cartridge asked for. *)
Lemma wp_mounted uuid bc mode (s : file_job L) :
  wp (on_tapes (tape_op (mount uuid bc mode)))
    (λ m s', still f g s s' ∧ Barcode bc = Ok (mh_barcode m)) (λ _ s', still f g s s') s.
Proof.
  apply wp_on_tapes. unfold tape_op, on_plant, on_ltfs. do 2 wp_step.
  eapply wp_mono; [apply wp_and; [apply mount_barcode | apply (wp_preserves same_content), mount_same_content]| |];
    cbn beta; intros ? t [? Ht]; repeat split; done.
Qed.

(** What is read is what the tape holds, at the destination; or the disk holds
    the files it held. *)
Lemma wp_read_to_disk m bc path dest (s : file_job L) :
  Barcode bc = Ok (mh_barcode m) →
  wp (read_to_disk m path dest)
    (λ _ s', calm f (fj_job s) (fj_job s') ∧ fj_local s' = fj_local s ∧
       ∃ data, tape_holds (tj_ltfs (fj_job s)) bc path data ∧
         dk_files (fj_disk s') = <[dest := data]> (dk_files (fj_disk s)))
    (λ _ s', calm f (fj_job s) (fj_job s') ∧ fj_local s' = fj_local s ∧
       dk_files (fj_disk s') = dk_files (fj_disk s)) s.
Proof.
  intros Hb. unfold read_to_disk. wp_step. apply wp_on_tapes. unfold tape_op, on_plant, on_ltfs.
  do 2 wp_step. eapply wp_mono; [by apply wp_read_tape| |]; cbn beta.
  - intros data t [Ht Hsrc]. apply wp_on_disk, wp_write_disk.
    + intros d Hd. repeat split; try done. by exists data.
    + intros e d Hd. by repeat split.
  - intros e t Ht. by repeat split.
Qed.
End reading.
