(* ===== verification/VerifyJob.v ===== *)
(** The verification of a tape: run_verify_job of openblade/jobs/verify.py.

    It takes no lease: it loads into the first drive what is in no drive, reads
    what the tape says of every committed instance, and compares. *)
From stdpp Require Import base list option strings.
From Stdlib Require Import Ascii ZArith QArith Lia.
From S2P Require Import Prelude Wp Domain Paths Leases Catalog Faults Library Reconcile CatalogStore.
From S2P Require Import Scheduler Bytes Ltfs Orchestrator TapeJob.
From S2P Require Shard Archive.
#[local] Open Scope string_scope.
#[local] Open Scope Z_scope.

(** * Operations *)
Definition _UNCOMMITTED_STATES : list string :=
  [enum_value FileInstanceState.STAGING; enum_value FileInstanceState.VERIFYING].

Section verify.
Context (str_of : exn → string) (w : surroundings).

Definition verify_request (ty : tape_op_type) (bc : string) (slot_id : Z) : tape_op_request :=
  TapeOpRequest ty bc (Some 0) (Some slot_id) None None None None "verify-job" None 5 [] None.

Definition _load_if_needed (barcode : string) : M tape_job (Z * option Z) :=
  loaded ← on_plant (ask (find_drive_by_barcode barcode));
  match loaded with
  | Some drive_id => mret (drive_id, None)
  | None =>
      slot ← on_plant (ask (find_slot_by_barcode barcode));
      match slot with
      | None => raise OSError
      | Some slot_id =>
          request_op str_of w true (verify_request TapeOpType.LOAD barcode slot_id);;
          mret (0, Some slot_id)
      end
  end.

Fixpoint verify_instances (handle : mount_handle) (insts : list instance_row) (checked : Z)
    : M tape_job Z :=
  match insts with
  | [] => mret checked
  | i :: insts =>
      if bool_decide (fi_state i ∈ _UNCOMMITTED_STATES) then verify_instances handle insts checked
      else
        c ← gets tj_catalog;
        match dget (ct_files c) (fi_file_record_id i) with
        | None => verify_instances handle insts checked
        | Some f =>
            st ← tape_op (stat handle (posix_path (fi_tape_path i)));
            raise_if (bool_decide (fs_checksum_sha256 st ≠ fl_checksum_sha256 f)) ValueError;;
            verify_instances handle insts (checked + 1)
        end
  end.

Definition run_verify_job (barcode : string) : M tape_job (dict string json) :=
  loaded ← _load_if_needed barcode;
  checked ←
    try_finally
      (uuid ← tick (w_uuid w);
       handle ← tape_op (mount uuid barcode MountMode.READ_ONLY);
       try_finally
         (c ← gets tj_catalog;
          verify_instances handle (list_instances_for_barcode barcode c) 0)
         (_ ← tape_op (unmount handle); mret tt))
      (match loaded.2 with
       | Some slot_id => request_op str_of w false (verify_request TapeOpType.UNLOAD barcode slot_id)
       | None => mret tt
       end);
  mret [("barcode", JStr barcode); ("files_verified", JInt checked)].
End verify.

(** * What it leaves alone *)

(** What a tape says of the file at a path. *)
Definition recorded (t : ltfs) (b p : string) : option file_record :=
  dget (tapes t) b ≫= λ t, dget (tp_files t) p.
(** No fault that would change a checksum is simulated. *)
Definition undisturbed (t : ltfs) : Prop :=
  should_fail (lt_fault_config t) FaultType.CHECKSUM_MISMATCH = false ∧ lt_injector t = NoInjector.

Record same_records (t t' : ltfs) : Prop := {
  sr_recorded : ∀ b p, recorded t' b p = recorded t b p;
  sr_undisturbed : undisturbed t → undisturbed t';
}.
#[export] Instance same_records_preorder : PreOrder same_records.
Proof. split; [done|]. intros t1 t2 t3 [H1 F1] [H2 F2]. split; [|by auto]. intros b p. by rewrite H2, H1. Qed.

Lemma ext_records t t' : ext t t' → same_records t t'.
Proof.
  intros [_ _ Hfc _ Hinj _ Hold Hnew]. split.
  - intros b p. unfold recorded. destruct (dget (tapes t') b) as [x|] eqn:Hb; simpl.
    + by destruct (Hnew _ _ Hb) as [Hx|(Hx & -> & _)]; rewrite Hx.
    + destruct (dget (tapes t) b) as [x|] eqn:Hb'; [|done]. apply Hold in Hb'. congruence.
  - intros [Hf Hi]. unfold undisturbed. rewrite Hfc. split; [done | by apply Hinj].
Qed.

(** What is read of a tape, and of the faults simulated. *)
Definition read_side (t : ltfs) := (tapes t, (lt_fault_config t, lt_injector t)).
Lemma read_side_records t t' : read_side t' = read_side t → same_records t t'.
Proof.
  intros [= Ht Hf Hi]. split; [intros b p; unfold recorded; by rewrite Ht|].
  intros [??]. unfold undisturbed. by rewrite Hf, Hi.
Qed.
Lemma keeps_read_side {A} (m : M library A) : preserves (eq_on (λ p, read_side (pl_ltfs p))) (on_lib m).
Proof. intros p. unfold eq_on, on_lib, on_ltfs, on_library, zoom. by destruct (m _). Qed.
#[export] Hint Resolve keeps_read_side : preserves.

Lemma ensure_records bc : preserves same_records (ensure_tape bc).
Proof. apply preserves_wp. intros t. apply wp_ensure; intros; by apply ext_records. Qed.
Lemma fault_records ft tgt : preserves same_records (lt_maybe_raise_injected_fault ft tgt).
Proof. apply preserves_wp. intros t. apply wp_fault; intros; by apply ext_records. Qed.
Lemma library_records {A} (m : M library A) : preserves same_records (on_library m).
Proof. intros t. apply read_side_records. unfold on_library, zoom. by destruct (m _). Qed.
Lemma index_records key : preserves same_records (index_tape key).
Proof. intros t. unfold index_tape, dindex. by destruct (dget _ _). Qed.
Lemma state_records key ms : preserves same_records (put_tape key (set_tape_mount_state ms)).
Proof.
  intros t. unfold put_tape, modify. simpl. destruct (dget (tapes t) key) as [x|] eqn:Hx; [|done].
  split; [|done]. intros b p. unfold recorded. simpl. rewrite dget_dset.
  case_decide as Hb; [|done]. subst. by rewrite Hx.
Qed.
Lemma mounts_records f : preserves same_records (modify (λ s, with_mounts (f s) s)).
Proof. intros t. by apply read_side_records. Qed.
Lemma require_records h : preserves same_records (_require_active_mount h).
Proof. intros t. unfold _require_active_mount. by repeat case_match. Qed.
#[export] Hint Resolve ensure_records fault_records library_records index_records state_records
  mounts_records require_records : preserves.
Lemma mount_records uuid bc mode : preserves same_records (mount uuid bc mode).
Proof. unfold mount. solve_preserves. Qed.
Lemma unmount_records h : preserves same_records (unmount h).
Proof. unfold unmount. solve_preserves. Qed.
#[export] Hint Resolve mount_records unmount_records : preserves.

(** Neither a table of the catalog but those of the jobs, leases and journal, nor
    a record of a tape. *)
Record passive (s s' : tape_job) : Prop := {
  pv_tables : tables (tj_catalog s') = tables (tj_catalog s);
  pv_records : same_records (tj_ltfs s) (tj_ltfs s');
}.
#[export] Instance passive_preorder : PreOrder passive.
Proof. split; [done|]. intros s1 s2 s3 [] []. split; [congruence | by etrans]. Qed.

Section passive.
Context (str_of : exn → string) (w : surroundings).

Lemma tape_op_passive {A} (m : M ltfs A) : preserves same_records m → preserves passive (tape_op m).
Proof.
  intros Hm s. unfold tape_op, on_plant, on_ltfs, zoom. specialize (Hm (tj_ltfs s)).
  unfold tj_ltfs in *. destruct (m _) as [r l]. by split.
Qed.
Lemma on_plant_passive {A} (m : M plant A) :
  preserves (eq_on pl_catalog) m → preserves (eq_on (λ p, read_side (pl_ltfs p))) m →
  preserves passive (on_plant m).
Proof.
  intros Hc Hl s. unfold on_plant, zoom. specialize (Hc (tj_plant s)). specialize (Hl (tj_plant s)).
  unfold eq_on in *. destruct (m _) as [r p]. simpl in *.
  split; unfold tj_catalog, tj_ltfs; simpl; [by rewrite Hc | by apply read_side_records].
Qed.
Lemma tick_passive {A} (g : nat → A) : preserves passive (tick g).
Proof. by intros s. Qed.
Hint Resolve tape_op_passive tick_passive : preserves.

Lemma verify_request_passive b ty bc slot :
  ty = TapeOpType.LOAD ∨ ty = TapeOpType.UNLOAD →
  preserves passive (request_op str_of w b (verify_request ty bc slot)).
Proof.
  intros Hty. unfold request_op. solve_preserves. apply on_plant_passive; apply request_keeps;
    try done; intros; auto with preserves.
Qed.
Hint Resolve verify_request_passive : preserves.

Lemma load_passive bc : preserves passive (_load_if_needed str_of w bc).
Proof. unfold _load_if_needed. solve_preserves; apply on_plant_passive; auto with preserves. Qed.
Hint Resolve load_passive : preserves.

(** What a tape answers for a file: the checksum it records, or, when faults are
    simulated, that checksum with its first digit changed. *)
Definition answers (t : ltfs) (b p sum : string) : Prop :=
  ∃ r, recorded t b p = Some r ∧
    (sum = fr_checksum_sha256 r ∨ ¬ undisturbed t ∧ sum = _flip_checksum (fr_checksum_sha256 r)).

Lemma answers_records t t' b p sum : same_records t t' → answers t' b p sum → answers t b p sum.
Proof. intros [Ht Hu] (r & Hr & Hs). exists r. rewrite <-(Ht _ _). split; [done|]. naive_solver. Qed.

Lemma flip_undisturbed tgt t :
  wp (_should_flip_checksum tgt) (λ flip _, flip = true → ¬ undisturbed t) (λ _ _, True) t.
Proof.
  apply wp_unfold. unfold _should_flip_checksum, undisturbed. destruct (should_fail _ _) eqn:Hf; [by intros _ []|].
  unfold lt_injector_value. destruct (lt_injector t) eqn:Hi; [done|..]; repeat case_match; simplify_eq; try done;
    by intros _ [].
Qed.

Lemma stat_spec h p t :
  wp (stat h p)
    (λ st t', same_records t t' ∧ ∃ b, Barcode (mh_barcode h) = Ok b ∧ answers t b p (fs_checksum_sha256 st))
    (λ _ t', same_records t t') t.
Proof.
  unfold stat. wp_step. apply wp_require; [|done]. intros m _ _. wp_step.
  apply wp_ensure; [|by intros; apply ext_records]. intros key x t2 Hkey H2 Ht.
  apply ext_records in H2. wp_step. eapply wp_index_tape; [exact Ht|].
  wp_step; [|done]. wp_step. rename f into r.
  eapply wp_mono; [apply wp_and; [apply flip_reads | apply flip_undisturbed]| |]; cbn beta.
  2: { intros e t3 [H3 _]. etrans; [done | by apply ext_records]. }
  intros flip t3 [H3 Hflip]. cbv zeta. wp_step. split; [etrans; [done | by apply ext_records]|].
  exists key. split; [done|]. exists r. simpl. rewrite <-(sr_recorded _ _ H2). unfold recorded. rewrite Ht. simpl.
  split; [done|]. destruct flip; [right|by left]. split; [|done]. intros Hu. by apply Hflip, (sr_undisturbed _ _ H2).
Qed.

(** The committed instances with the records they are compared with. *)
Definition to_verify (c : catalog) (insts : list instance_row) : list (instance_row * file_row) :=
  omap (λ i, if bool_decide (fi_state i ∈ _UNCOMMITTED_STATES) then None
             else pair i <$> dget (ct_files c) (fi_file_record_id i)) insts.

Definition matches (t : ltfs) (b : string) (e : instance_row * file_row) : Prop :=
  answers t b (posix_path (fi_tape_path e.1)) (fl_checksum_sha256 e.2).

Lemma verify_instances_spec h b insts checked s :
  Barcode (mh_barcode h) = Ok b →
  wp (verify_instances h insts checked)
    (λ n s', passive s s' ∧ n = checked + Z.of_nat (length (to_verify (tj_catalog s) insts)) ∧
             Forall (matches (tj_ltfs s) b) (to_verify (tj_catalog s) insts))
    (λ _ s', passive s s') s.
Proof.
  intros Hb. revert checked s. induction insts as [|i insts IH]; intros checked s; simpl.
  { wp_step. split_and!; [done | lia | constructor]. }
  case_bool_decide; simpl; [apply IH|]. do 2 wp_step.
  destruct (dget _ _) as [f|] eqn:Hf; simpl; [|apply IH]. wp_step.
  unfold tape_op, on_plant, on_ltfs. do 2 wp_step.
  eapply wp_mono; [apply stat_spec| |]; cbn beta; [|intros e t Ht; by split].
  intros st t (Ht & b' & Hb' & Hans). rewrite Hb in Hb'. injection Hb' as <-.
  match goal with |- wp _ _ _ ?x => set (s1 := x) end.
  assert (passive s s1) as H1 by by split. wp_step. wp_step; [done|].
  case_bool_decide as Hsum; [done|].
  eapply wp_mono; [apply IH| |]; cbn beta; [|intros e s2 H2; by etrans].
  intros n s2 (H2 & -> & Hall). split; [by etrans|].
  change (tj_catalog s1) with (tj_catalog s) in *. split; [lia|]. constructor.
  - unfold matches. simpl. by rewrite <-Hsum.
  - eapply Forall_impl; [exact Hall|]. intros [i' f']. unfold matches. by apply answers_records.
Qed.

Lemma to_verify_tables c c' insts : tables c' = tables c → to_verify c' insts = to_verify c insts.
Proof. intros [= Hf _]%tables_rows. unfold to_verify. by rewrite Hf. Qed.
Lemma list_instances_tables c c' bc :
  tables c' = tables c → list_instances_for_barcode bc c' = list_instances_for_barcode bc c.
Proof. intros [= _ Hi]%tables_rows. unfold list_instances_for_barcode. by rewrite Hi. Qed.

(** The entries a verification of a cartridge compares. *)
Definition entries_of (bc : string) (c : catalog) : list (instance_row * file_row) :=
  to_verify c (list_instances_for_barcode bc c).

Definition all_match (bc : string) (s : tape_job) (n : Z) : Prop :=
  ∃ b, Barcode bc = Ok b ∧ n = Z.of_nat (length (entries_of bc (tj_catalog s))) ∧
    Forall (matches (tj_ltfs s) b) (entries_of bc (tj_catalog s)).

Lemma run_verify_spec bc s :
  wp (run_verify_job str_of w bc)
    (λ res s', passive s s' ∧ ∃ n, res = [("barcode", JStr bc); ("files_verified", JInt n)] ∧ all_match bc s n)
    (λ _ s', passive s s') s.
Proof.
  unfold run_verify_job.
  apply (wp_bind_preserves passive) with (s0 := s); [auto with preserves | done..|]. intros loaded s1 H1.
  wp_step.
  assert (preserves passive (match loaded.2 with
    | Some slot_id => request_op str_of w false (verify_request TapeOpType.UNLOAD bc slot_id)
    | None => mret tt end)) as Hfin by solve_preserves.
  eapply (wp_mono _ (λ n s', passive s s' ∧ all_match bc s n) _ (λ _ s', passive s s')).
  2: { intros n s2 [H2 Hn]. wp_step. split; [done|]. by exists n. }
  2: done.
  apply wp_try_finally.
  eapply (wp_mono _ (λ n s', passive s s' ∧ all_match bc s n) _ (λ _ s', passive s s')).
  2: { intros n s2 [H2 Hn]. eapply wp_mono; [by apply (wp_preserves passive)| |]; cbn beta;
       intros ? s3 H3; [split; [by etrans | done] | by etrans]. }
  2: { intros e s2 H2. eapply wp_mono; [by apply (wp_preserves passive)| |]; cbn beta; intros; by etrans. }
  apply (wp_bind_preserves passive) with (s0 := s); [auto with preserves | done..|]. intros uuid s2 H2.
  wp_step. unfold tape_op at 1, on_plant, on_ltfs. do 2 wp_step.
  eapply wp_mono; [apply wp_and; [apply mount_barcode | apply (wp_preserves same_records), mount_records]| |];
    cbn beta; [|intros e t [_ Ht]; etrans; [exact H2 | by split]].
  intros h t [Hb Ht]. match goal with |- wp _ _ _ ?x => set (s3 := x) end.
  assert (passive s s3) as H3 by (etrans; [exact H2 | by split]).
  apply wp_try_finally.
  eapply (wp_mono _ (λ n s', passive s s' ∧ all_match bc s n) _ (λ _ s', passive s s')).
  2: { intros n s4 [H4 Hn]. eapply wp_mono; [apply (wp_preserves passive); solve_preserves| |]; cbn beta;
       intros ? s5 H5; [split; [by etrans | done] | by etrans]. }
  2: { intros e s4 H4. eapply wp_mono; [apply (wp_preserves passive); solve_preserves| |]; cbn beta;
       intros; by etrans. }
  do 2 wp_step.
  eapply wp_mono; [eapply (verify_instances_spec h (mh_barcode h)); by eapply Barcode_idemp| |]; cbn beta;
    [|intros e s4 H4; by etrans].
  intros n s4 (H4 & -> & Hall). split; [by etrans|]. exists (mh_barcode h). split; [done|].
  rewrite (list_instances_tables (tj_catalog s)) in * by apply H3.
  rewrite (to_verify_tables (tj_catalog s)) in * by apply H3. split; [done|].
  eapply Forall_impl; [exact Hall|]. intros e. apply answers_records, H3.
Qed.
End passive.

(** * Properties *)


(** A verification loads into a drive whose physical state is unknown: it
    takes no lease and does not ask whether the drive is reconciled, so with an
    unmount of another cartridge in the first drive recorded as failed, which no
    entry has reconciled, it loads there, answers, and unloads, where every
    other job asks and is refused. *)
Theorem verify_ignores_reconciliation :
  let s := (Archive.run_sample "/data" ["TAPE01L8"] Shard.ShardMode.STRIPE Archive.two_files
              (Archive.sample_start no_faults no_faults)).2 in
  let s := (journal_op Archive.sample_surroundings "job9" PHYSICAL_STATE_UNKNOWN
              [("op", JStr "unmount"); ("barcode", JStr "TAPE02L8"); ("drive", JInt 0)] s).2 in
  let '(r, s') := run_verify_job (λ _, "") Archive.sample_surroundings "TAPE01L8" s in
  pr_barcode <$> dget (drives_pending_reconciliation (tj_catalog s)) 0 = Some (Some "TAPE02L8") ∧
  ensure_drive_reconciled (tj_catalog s) 0 (Some "TAPE01L8") = Raise DriveUnreconciledError ∧
  r = Ok [("barcode", JStr "TAPE01L8"); ("files_verified", JInt 4)] ∧
  (λ op, (to_op_type op.2, to_status op.2, to_drive_id op.2)) <$>
    filter (λ op, to_requested_by op.2 = "verify-job") (pl_ops (tj_plant s')) =
    [(TapeOpType.LOAD, TapeOpStatus.COMPLETED, Some 0); (TapeOpType.UNLOAD, TapeOpStatus.COMPLETED, Some 0)].
Proof. vm_compute. by split_and!. Qed.

(** A verification under another spelling of the barcode answers, having
    verified nothing: the library and the tape normalise the spelling, the
    instances are looked up by it as it is. *)
Theorem verify_misses_spelling :
  let s := (Archive.run_sample "/data" ["TAPE01L8"] Shard.ShardMode.STRIPE Archive.two_files
              (Archive.sample_start no_faults no_faults)).2 in
  let verified bc := (run_verify_job (λ _, "") Archive.sample_surroundings bc s).1 in
  verified "TAPE01L8" = Ok [("barcode", JStr "TAPE01L8"); ("files_verified", JInt 4)] ∧
  verified "tape01l8" = Ok [("barcode", JStr "tape01l8"); ("files_verified", JInt 0)].
Proof. vm_compute. by split_and!. Qed.
