(* ===== verification/FileRestore.v ===== *)
(** The restore of single files and of batches: openblade/jobs/restore.py.

    A job is given the scheduler of the application; the fallback to leases of its
    own, in memory, is not modelled. *)
From stdpp Require Import base list option strings pretty gmap.
From Stdlib Require Import Ascii ZArith QArith Lia.
From S2P Require Import Prelude Wp Domain Paths Leases Catalog Faults Library Reconcile CatalogStore.
From S2P Require Import Scheduler Bytes Ltfs Orchestrator TapeJob FileJob.
From S2P Require Queue Shard Archive.
#[local] Open Scope string_scope.
#[local] Open Scope Z_scope.

(** * State *)
Record restore_request := RestoreRequest {
  rr_catalog_path : string;
  rr_dest_path : string;
  rr_dry_run : bool;
}.

Record restore_result := RestoreResult {
  rs_job_id : string;
  rs_source_barcode : string;
  rs_checksum_verified : bool;
  rs_error : option string;
}.

Record restore_item := RestoreItemResult {
  ri_catalog_path : string;
  ri_ok : bool;
  ri_error : option string;
}.

Record batch_result := RestoreBatchResult {
  br_job_id : string;
  br_items : list restore_item;
  br_tape_errors : list string;
}.
Definition batch_ok (r : batch_result) : bool :=
  bool_decide (br_tape_errors r = []) && forallb ri_ok (br_items r).

(** The locals of a routine that holds one drive: the drive and the slot of the
    load, what went wrong, and the results so far. *)
Record locals := Locals {
  lc_drive : option Z;
  lc_slot : option Z;
  lc_fenced_out : bool;
  lc_unmount_failed : bool;
  lc_results : list restore_item;
  lc_tape_error : option string;
}.
Definition no_locals : locals := Locals None None false false [] None.
Definition set_loaded (drive : Z) (slot : option Z) (l : locals) : locals :=
  Locals (Some drive) slot (lc_fenced_out l) (lc_unmount_failed l) (lc_results l) (lc_tape_error l).
Definition set_fenced (l : locals) : locals :=
  Locals (lc_drive l) (lc_slot l) true (lc_unmount_failed l) (lc_results l) (lc_tape_error l).
Definition set_unmount_failed (b : bool) (l : locals) : locals :=
  Locals (lc_drive l) (lc_slot l) (lc_fenced_out l) b (lc_results l) (lc_tape_error l).
Definition add_results (rs : list restore_item) (l : locals) : locals :=
  Locals (lc_drive l) (lc_slot l) (lc_fenced_out l) (lc_unmount_failed l) (lc_results l ++ rs)%list
    (lc_tape_error l).
Definition set_tape_error (e : string) (l : locals) : locals :=
  Locals (lc_drive l) (lc_slot l) (lc_fenced_out l) (lc_unmount_failed l) (lc_results l) (Some e).

Notation state := (file_job locals).

(** A request with the record and the instance it is read from. *)
Notation sourced := (restore_request * file_row * instance_row)%type.

(** * Operations *)
Section restore.
Context (str_of class_of : exn → string) (w : file_surroundings) (job_id : string).
Let safe_job_error : exn → string := Queue.safe_job_error str_of class_of.

Definition restore_tape_request (ty : tape_op_type) (bc : string) (drive slot : Z) : tape_op_request :=
  tape_request job_id "restore-job" ty bc drive slot.

Definition _load_if_needed (ref : nat) : M tape_job (Z * option Z) :=
  h ← handle_at ref;
  let barcode := dh_barcode h in
  loaded ← on_plant (ask (find_drive_by_barcode barcode));
  match loaded with
  | Some drive_id =>
      c ← gets tj_catalog;
      liftR (ensure_drive_reconciled c drive_id (Some barcode));;
      when (bool_decide (drive_id ≠ dh_drive_id h))
        (sched_op (modify (λ cs, (cs.1, update_handles (set_physical drive_id) [ref] cs.2))));;
      mret (drive_id, None)
  | None =>
      slot ← on_plant (ask (find_slot_by_barcode barcode));
      match slot with
      | None => raise CartridgeOfflineError
      | Some slot_id =>
          let drive_id := dh_drive_id h in
          c ← gets tj_catalog;
          liftR (ensure_drive_reconciled c drive_id (Some barcode));;
          request_op str_of w true (restore_tape_request TapeOpType.LOAD barcode drive_id slot_id);;
          mret (drive_id, Some slot_id)
      end
  end.

(** The file a request is restored to. *)
Definition _batch_dest (rq : restore_request) (d : disk) : string :=
  let dest := posix_path (rr_dest_path rq) in
  if is_dir dest d then path_join dest (basename (rr_catalog_path rq)) else dest.

Definition exported (bc : string) (c : catalog) : bool :=
  match get_cartridge bc c with
  | Some r => bool_decide (cr_state r = enum_value CartridgeState.EXPORTED)
  | None => false
  end.

(** [except StaleLeaseError: fenced_out = True; raise]. *)
Definition note_fenced {A} (e : exn) : M state A :=
  when (bool_decide (e = StaleLeaseError)) (set_local set_fenced);; raise e.

Definition load_and_mount (refs : list nat) (ref : nat) (bc : string) : M state mount_handle :=
  loaded ← on_tapes (_load_if_needed ref);
  set_local (set_loaded loaded.1 loaded.2);;
  on_tapes (sched_op (record_physical_drives refs));;
  _mark_aml_drive_busy w bc loaded.1;;
  on_tapes (verify_handle w ref);;
  uuid ← on_tapes (tick (w_uuid w));
  on_tapes (tape_op (mount uuid bc MountMode.READ_ONLY)).

(** The unload of what was loaded, unless fenced out. *)
Definition unload_if_loaded (ref : nat) (bc : string) : M state unit :=
  s ← getS;
  let l := fj_local s in
  match lc_drive l with
  | Some drive_id =>
      when (negb (lc_fenced_out l) && negb (lc_unmount_failed l))
        (try_except (on_tapes (verify_handle w ref)) note_fenced;;
         match lc_slot l with
         | Some slot_id =>
             on_tapes (request_op str_of w false
                         (restore_tape_request TapeOpType.UNLOAD bc drive_id slot_id))
         | None => mret tt
         end;;
         _mark_aml_drive_idle w bc drive_id (lc_slot l))
  | None => mret tt
  end.

Definition release_lease (refs : list nat) (h : drive_handle) : M tape_job unit :=
  now ← tick (w_now w);
  sched_op (release_drives now refs);;
  journal_op w job_id "lease_released" (lease_detail (dh_drive_id h) (dh_barcode h)).

(** ** One file *)

(** What [sha256sum] makes of the destination decides. *)
Definition check_restored (rq : restore_request) (f : file_row) (i : instance_row) (final_dest : string)
    : M state restore_result :=
  actual_checksum ← on_disk (sha256sum final_dest);
  when (bool_decide (actual_checksum ≠ fl_checksum_sha256 f))
    (quarantine ← liftR (with_name final_dest (basename final_dest ++ ".quarantine"));
     on_disk (rename_file final_dest quarantine);;
     on_tapes (job_state_op w job_id "failed" (Some ("Checksum mismatch for " ++ rr_catalog_path rq)));;
     raise ChecksumMismatchError);;
  on_tapes (job_state_op w job_id "completed" None);;
  mret (RestoreResult job_id (fi_barcode i) true None).

Definition restore_held (refs : list nat) (ref : nat) (i : instance_row) (final_dest : string)
    : M state unit :=
  let bc := fi_barcode i in
  try_except
    (try_finally
       (try_except
          (m ← load_and_mount refs ref bc;
           try_finally
             (read_to_disk m (fi_tape_path i) final_dest)
             (on_tapes (verify_handle w ref);; _ ← on_tapes (tape_op (Ltfs.unmount m)); mret tt))
          note_fenced)
       (unload_if_loaded ref bc))
    (λ e, when (bool_decide (e = StaleLeaseError))
            (on_tapes (job_state_op w job_id "failed" (Some (safe_job_error e))));;
          raise e).

(** [None]: still waiting for the drive. *)
Definition run_restore_job (rq : restore_request) : M state (option restore_result) :=
  on_tapes (job_state_op w job_id "running" None);;
  c ← gets fj_catalog;
  found ← liftR (get_latest_instance_for_path (rr_catalog_path rq) c);
  let '(f, i) := found in
  let bc := fi_barcode i in
  when (exported bc c)
    (on_tapes (job_state_op w job_id "failed" (Some ("Cartridge " ++ bc ++ " is offline")));;
     raise CartridgeOfflineError);;
  if rr_dry_run rq then
    on_tapes (job_state_op w job_id "completed" None);;
    mret (Some (RestoreResult job_id bc false None))
  else
    acquired ← on_tapes (acquire w [bc]);
    match acquired with
    | None => mret None
    | Some [] => raise LookupError
    | Some ((ref :: _) as refs) =>
        h ← on_tapes (handle_at ref);
        on_tapes (journal_op w job_id "lease_acquired" (lease_detail (dh_drive_id h) (dh_barcode h)));;
        final_dest ← gets (λ s, _batch_dest rq (fj_disk s));
        set_local (λ _, no_locals);;
        try_finally (restore_held refs ref i final_dest) (on_tapes (release_lease refs h));;
        Some <$> check_restored rq f i final_dest
    end.

(** ** A batch *)

(** Read into a name aside; only a verified checksum renames it into place. *)
Definition _restore_one_verified (m : mount_handle) (src : sourced) : M state restore_item :=
  let '(rq, f, i) := src in
  let path := rr_catalog_path rq in
  final_dest ← gets (λ s, _batch_dest rq (fj_disk s));
  temp ← liftR (with_name final_dest ("." ++ basename final_dest ++ ".restoring"));
  r ← attempt (read_to_disk m (fi_tape_path i) temp);
  match r with
  | Raise e =>
      if bool_decide (e = StaleLeaseError) then raise e
      else
        on_disk (unlink_file temp);;
        mret (RestoreItemResult path false (Some (safe_job_error e)))
  | Ok _ =>
      sum ← on_disk (sha256sum temp);
      if bool_decide (sum ≠ fl_checksum_sha256 f) then
        quarantine ← liftR (with_name final_dest (basename final_dest ++ ".quarantine"));
        on_disk (rename_file temp quarantine);;
        mret (RestoreItemResult path false (Some ("Checksum mismatch for " ++ path)))
      else
        on_disk (rename_file temp final_dest);;
        mret (RestoreItemResult path true None)
  end.

Fixpoint restore_group (m : mount_handle) (group : list sourced) : M state unit :=
  match group with
  | [] => mret tt
  | src :: group =>
      r ← _restore_one_verified m src;
      set_local (add_results [r]);;
      restore_group m group
  end.

(** The items a failure of the tape leaves without a result. *)
Definition fail_rest (group : list sourced) (message : string) (l : locals) : locals :=
  let done_ := ri_catalog_path <$> lc_results l in
  add_results ((λ src : sourced, RestoreItemResult (rr_catalog_path src.1.1) false (Some message)) <$>
                 filter (λ src : sourced, rr_catalog_path src.1.1 ∉ done_) group) l.

Definition unmount_or_record (refs : list nat) (m : mount_handle) (bc : string) : M state unit :=
  r ← attempt (on_tapes (tape_op (Ltfs.unmount m)));
  match r with
  | Ok _ => mret tt
  | Raise _ =>
      set_local (set_unmount_failed true);;
      s ← getS;
      on_tapes (record_unknown w job_id refs "unmount" bc (lc_drive (fj_local s)));;
      set_local (set_tape_error ("Unmount of " ++ bc ++ " failed; left in drive for reconcile"))
  end.

Definition tape_group_body (bc : string) (group : list sourced) (refs : list nat) (ref : nat)
    : M state unit :=
  try_finally
    (try_except
       (m ← load_and_mount refs ref bc;
        try_finally
          (restore_group m group)
          (on_tapes (verify_handle w ref);; unmount_or_record refs m bc))
       (λ e, if bool_decide (e = StaleLeaseError) then set_local set_fenced;; raise e
             else set_local (fail_rest group (safe_job_error e))))
    (unload_if_loaded ref bc).

Definition finished_detail (bc : string) (group : list sourced) (l : locals) : dict string json :=
  [("barcode", JStr bc);
   ("ok", JInt (Z.of_nat (length (filter (λ r, ri_ok r = true) (lc_results l)))));
   ("files", JInt (Z.of_nat (length group)))].

(** One lease, one load, one mount for the group; [None]: still waiting. *)
Definition _restore_tape_group (bc : string) (group : list sourced)
    : M state (option (list restore_item * option string)) :=
  set_local (λ _, no_locals);;
  acquired ← on_tapes (acquire w [bc]);
  match acquired with
  | None => mret None
  | Some [] => raise LookupError
  | Some ((ref :: _) as refs) =>
      h ← on_tapes (handle_at ref);
      on_tapes (journal_op w job_id "lease_acquired" (lease_detail (dh_drive_id h) bc));;
      on_tapes (journal_op w job_id "batch_tape_started"
                  [("barcode", JStr bc); ("files", JInt (Z.of_nat (length group)))]);;
      try_finally
        (tape_group_body bc group refs ref)
        (now ← on_tapes (tick (w_now w));
         on_tapes (sched_op (release_drives now refs));;
         on_tapes (journal_op w job_id "lease_released" (lease_detail (dh_drive_id h) bc));;
         l ← gets fj_local;
         on_tapes (journal_op w job_id "batch_tape_finished" (finished_detail bc group l)));;
      l ← gets fj_local;
      mret (Some (lc_results l, lc_tape_error l))
  end.

(** Each request an item, or a place in the group of its tape. *)
Definition sort_request (c : catalog) (rq : restore_request)
    (acc : list restore_item * dict string (list sourced)) : list restore_item * dict string (list sourced) :=
  let '(items, groups) := acc in
  let path := rr_catalog_path rq in
  let item ok error := (items ++ [RestoreItemResult path ok error], groups)%list in
  match get_latest_instance_for_path path c with
  | Raise _ => item false (Some ("No archived instance for " ++ path))
  | Ok (f, i) =>
      if exported (fi_barcode i) c then
        item false (Some ("Cartridge " ++ fi_barcode i ++ " is offline"))
      else if rr_dry_run rq then item true None
      else (items, dset groups (fi_barcode i)
                     (dget_or groups (fi_barcode i) [] ++ [(rq, f, i)])%list)
  end.

Fixpoint sort_requests (c : catalog) (rqs : list restore_request)
    (acc : list restore_item * dict string (list sourced)) : list restore_item * dict string (list sourced) :=
  match rqs with
  | [] => acc
  | rq :: rqs => sort_requests c rqs (sort_request c rq acc)
  end.

Fixpoint restore_groups (groups : dict string (list sourced)) (items : list restore_item)
    (tape_errors : list string) : M state (option (list restore_item * list string)) :=
  match groups with
  | [] => mret (Some (items, tape_errors))
  | (bc, group) :: groups =>
      r ← try_except (_restore_tape_group bc group) (λ e,
            when (bool_decide (e = StaleLeaseError))
              (on_tapes (job_state_op w job_id "failed" (Some (safe_job_error e))));;
            raise e);
      match r with
      | None => mret None
      | Some (results, tape_error) =>
          restore_groups groups (items ++ results)%list
            (match tape_error with Some e => tape_errors ++ [e] | None => tape_errors end)%list
      end
  end.

Definition batch_detail (r : batch_result) : string :=
  let failed := length (filter (λ i, ri_ok i = false) (br_items r)) in
  let detail := pretty failed ++ " of " ++ pretty (length (br_items r)) ++ " files failed to restore" in
  if bool_decide (br_tape_errors r = []) then detail
  else detail ++ "; " ++ Archive.str_join "; " (br_tape_errors r).

Definition run_restore_batch (rqs : list restore_request) : M state (option batch_result) :=
  on_tapes (job_state_op w job_id "running" None);;
  c ← gets fj_catalog;
  let '(items, groups) := sort_requests c rqs ([], []) in
  r ← restore_groups groups items [];
  match r with
  | None => mret None
  | Some (items, tape_errors) =>
      let result := RestoreBatchResult job_id items tape_errors in
      (if batch_ok result then on_tapes (job_state_op w job_id "completed" None)
       else on_tapes (job_state_op w job_id "failed" (Some (batch_detail result))));;
      mret (Some result)
  end.
End restore.

(** ** The service *)
Section service.
Context (str_of class_of : exn → string) (w : file_surroundings).

Definition refreshed_job (job_id : string) : M state job_row :=
  c ← gets fj_catalog;
  match get_job job_id c with Some j => mret j | None => raise AssertionError end.

(** The identifier drawn names the job. *)
Definition create_restore (metadata : dict string json) : M state job_row :=
  uuid ← on_tapes (tick (w_uuid w));
  now ← on_tapes (tick (w_now w));
  on_tapes (catalog_op (Catalog.create_job uuid now "restore" metadata)).

Definition request_detail (rq : restore_request) : dict string json :=
  [("catalog_path", JStr (rr_catalog_path rq)); ("dest_path", JStr (posix_path (rr_dest_path rq)))].

Definition enqueue (catalog_path destination : string) : M state (option job_row) :=
  let rq := RestoreRequest catalog_path destination false in
  j ← create_restore (request_detail rq);
  r ← run_restore_job str_of class_of w (jb_id j) rq;
  match r with None => mret None | Some _ => Some <$> refreshed_job (jb_id j) end.

Definition enqueue_batch (rqs : list restore_request) : M state (option (job_row * batch_result)) :=
  j ← create_restore [("batch", JArr ((λ rq, JObj (request_detail rq)) <$> rqs))];
  r ← run_restore_batch str_of class_of w (jb_id j) rqs;
  match r with
  | None => mret None
  | Some result => (λ j, Some (j, result)) <$> refreshed_job (jb_id j)
  end.
End service.

(** * What a restore leaves alone *)
Notation rows := (λ c, (ct_files c, ct_instances c)).
Notation reading := (calm tables).
Notation aside := (still tables (λ _ : locals, ())).

Section frame.
Context (str_of class_of : exn → string) (w : file_surroundings) (job_id : string).

Lemma loads_calm ref : preserves reading (_load_if_needed str_of w job_id ref).
Proof.
  unfold _load_if_needed, restore_tape_request.
  solve_preserves; apply on_plant_calm; auto with preserves.
Qed.
Lemma release_lease_calm refs h : preserves reading (release_lease w job_id refs h).
Proof. unfold release_lease. solve_preserves. Qed.
Hint Resolve loads_calm release_lease_calm : preserves.

(** Every part of the locals that the clean-up does not write. *)
Context {C : Type} (g : locals → C).
Lemma note_fenced_still {A} e : (∀ l, g (set_fenced l) = g l) → preserves (still tables g) (note_fenced (A := A) e).
Proof. intros Hg. unfold note_fenced. solve_preserves. by apply set_local_still. Qed.
Lemma unload_still ref bc :
  (∀ l, g (set_fenced l) = g l) → preserves (still tables g) (unload_if_loaded str_of w job_id ref bc).
Proof.
  intros Hg. unfold unload_if_loaded, restore_tape_request. solve_preserves.
  by apply set_local_still.
Qed.

Lemma wp_load_and_mount refs ref bc s :
  (∀ d slot l, g (set_loaded d slot l) = g l) →
  wp (load_and_mount str_of w job_id refs ref bc)
    (λ m s', still tables g s s' ∧ Barcode bc = Ok (mh_barcode m)) (λ _ s', still tables g s s') s.
Proof.
  intros Hg. unfold load_and_mount.
  apply (wp_bind_preserves (still tables g)) with (s0 := s); [auto with preserves | done..|]. intros d s1 H1.
  apply (wp_bind_preserves (still tables g)) with (s0 := s); [by apply set_local_still | done..|]. intros _ s2 H2.
  apply (wp_bind_preserves (still tables g)) with (s0 := s); [auto with preserves | done..|]. intros _ s3 H3.
  apply (wp_bind_preserves (still tables g)) with (s0 := s); [auto with preserves | done..|]. intros _ s4 H4.
  apply (wp_bind_preserves (still tables g)) with (s0 := s); [auto with preserves | done..|]. intros _ s5 H5.
  apply (wp_bind_preserves (still tables g)) with (s0 := s); [auto with preserves | done..|]. intros uuid s6 H6.
  eapply wp_mono; [apply (wp_mounted tables g)| |]; cbn beta.
  - intros m s7 [H7 Hm]. split; [by etrans | done].
  - intros e s7 H7. by etrans.
Qed.
End frame.
#[export] Hint Resolve loads_calm release_lease_calm : preserves.

Section single.
Context (str_of class_of : exn → string) (w : file_surroundings) (job_id : string).

(** The instance is at the destination, and nothing else on the disk changed. *)
Definition fetched (i : instance_row) (dest : string) (s s' : state) : Prop :=
  reading (fj_job s) (fj_job s') ∧
  ∃ data, tape_holds (tj_ltfs (fj_job s)) (fi_barcode i) (fi_tape_path i) data ∧
    dk_files (fj_disk s') = <[dest := data]> (dk_files (fj_disk s)).
Definition fetched_or_not (i : instance_row) (dest : string) (s s' : state) : Prop :=
  reading (fj_job s) (fj_job s') ∧ dk_files (fj_disk s') = dk_files (fj_disk s) ∨ fetched i dest s s'.

Lemma fetched_after i dest s s1 s2 : fetched i dest s s1 → aside s1 s2 → fetched i dest s s2.
Proof.
  intros (H1 & data & Hd & Hf) [H2 Hk _]. split; [by etrans|]. exists data. by rewrite Hk.
Qed.
Lemma fetched_before i dest s s1 s2 : aside s s1 → fetched i dest s1 s2 → fetched i dest s s2.
Proof.
  intros [H1 Hk _] (H2 & data & Hd & Hf). split; [by etrans|]. exists data. rewrite <-Hk. split; [|done].
  eapply tape_holds_content; [apply H1 | done].
Qed.
Lemma not_fetched_after i dest s s1 s2 : fetched_or_not i dest s s1 → aside s1 s2 → fetched_or_not i dest s s2.
Proof.
  intros [[H1 Hd]|H1] H2; [left | right; by eapply fetched_after]. destruct H2 as [H2 Hk _].
  split; [by etrans | by rewrite Hk].
Qed.
Lemma aside_not_fetched i dest s s' : aside s s' → fetched_or_not i dest s s'.
Proof. intros [H1 Hd _]. left. by rewrite Hd. Qed.

Lemma restore_held_spec refs ref i dest s :
  wp (restore_held str_of class_of w job_id refs ref i dest) (λ _, fetched i dest s)
    (λ _, fetched_or_not i dest s) s.
Proof.
  assert (∀ s1 s2, fetched_or_not i dest s s1 → aside s1 s2 → fetched_or_not i dest s s2) as HE
    by (intros; by eapply not_fetched_after).
  assert (∀ s1 s2, fetched i dest s s1 → aside s1 s2 → fetched i dest s s2) as HQ
    by (intros; by eapply fetched_after).
  assert (∀ s1, fetched i dest s s1 → fetched_or_not i dest s s1) as HQE by (intros; by right).
  unfold restore_held. apply (wp_reraise aside); [solve_preserves | by eauto |].
  apply (wp_finally_kept aside); [by apply unload_still | by eauto..|].
  apply (wp_reraise aside).
  { intros e. apply preserves_when; [apply _|]. by apply set_local_still. }
  { eauto. }
  wp_step. eapply wp_mono; [by apply (wp_load_and_mount str_of w job_id (λ _, ()))| |]; cbn beta.
  2: { intros e s1 H1. by apply aside_not_fetched. }
  intros m s1 [H1 Hm]. apply (wp_finally_kept aside).
  { solve_preserves. apply on_tapes_still, tape_op_calm. auto with preserves. }
  1-3: by eauto.
  eapply wp_mono; [by apply (wp_read_to_disk tables)| |]; cbn beta.
  - intros _ s2 (H2 & _ & data & Hd & Hf). eapply fetched_before; [exact H1|]. split; [done|]. by exists data.
  - intros e s2 (H2 & _ & Hd). left. destruct H1 as [H1 Hk _]. split; [by etrans|]. by rewrite Hd, Hk.
Qed.

Lemma rows_latest c c' path :
  rows c' = rows c → get_latest_instance_for_path path c' = get_latest_instance_for_path path c.
Proof.
  intros [= Hf Hi]. unfold get_latest_instance_for_path, get_file_record, instances_of. by rewrite Hf, Hi.
Qed.

(** The destination of a request, and where a mismatch is put aside. *)
Definition put_aside (dest p : string) : Prop :=
  with_name dest (basename dest ++ ".quarantine") = Ok p.

(** The destination holds the archived bytes with the checksum of the record, and
    is the only file that changed. *)
Definition verified (f : file_row) (i : instance_row) (dest : string) (s s' : state) : Prop :=
  ∃ data, tape_holds (tj_ltfs (fj_job s)) (fi_barcode i) (fi_tape_path i) data ∧
    sha256_hex data = fl_checksum_sha256 f ∧
    dk_files (fj_disk s') = <[dest := data]> (dk_files (fj_disk s)).

(** What a failure leaves on the disk: nothing new; or what the tape holds, at
    the destination; or that, put aside. *)
Definition left_over (i : instance_row) (dest : string) (s s' : state) : Prop :=
  let d := dk_files (fj_disk s) in
  let d' := dk_files (fj_disk s') in
  d' = d ∨ ∃ data, tape_holds (tj_ltfs (fj_job s)) (fi_barcode i) (fi_tape_path i) data ∧
    (d' = <[dest := data]> d ∨ ∃ q, put_aside dest q ∧ d' = <[q := data]> (delete dest d)).

Lemma check_restored_spec rq f i dest s s1 :
  fetched i dest s s1 →
  wp (check_restored w job_id rq f i dest)
    (λ res s', reading (fj_job s) (fj_job s') ∧ res = RestoreResult job_id (fi_barcode i) true None ∧
       verified f i dest s s')
    (λ _ s', reading (fj_job s) (fj_job s') ∧ left_over i dest s s') s1.
Proof.
  intros (H1 & data & Hd & Hf). unfold check_restored.
  assert (left_over i dest s s1) as Hleft by (right; exists data; auto).
  wp_step. apply wp_on_disk, wp_sha256sum; [|by split].
  intros data' Hl. rewrite Hf, lookup_insert_eq in Hl. injection Hl as <-. cbn beta.
  assert (with_disk (fj_disk s1) s1 = s1) as -> by by destruct s1.
  wp_step. apply wp_when; intros Hsum.
  - wp_step. wp_step; [|by split]. wp_step. apply wp_on_disk, wp_rename_file; [|by split].
    intros data' Hl. rewrite Hf, lookup_insert_eq in Hl. injection Hl as <-. cbn beta.
    match goal with |- wp _ _ _ (with_disk ?d s1) => set (s2 := with_disk d s1) end.
    assert (dk_files (fj_disk s2) = <[a := data]> (delete dest (dk_files (fj_disk s)))) as H2.
    { simpl. by rewrite Hf, delete_insert_eq. }
    apply (wp_bind_preserves aside) with (s0 := s2); [auto with preserves | done | |].
    + intros e s3 [H3 Hk _]. split; [etrans; [exact H1 | exact H3]|]. right. exists data.
      split; [done|]. right. exists a. rewrite Hk. by split.
    + intros _ s3 [H3 Hk _]. wp_step. split; [etrans; [exact H1 | exact H3]|]. right. exists data.
      split; [done|]. right. exists a. rewrite Hk. by split.
  - apply bool_decide_eq_false, dec_stable in Hsum.
    apply (wp_bind_preserves aside) with (s0 := s1); [auto with preserves | done | |].
    + intros e s3 [H3 Hk _]. split; [by etrans|]. right. exists data. rewrite Hk. auto.
    + intros _ s3 [H3 Hk _]. wp_step. split; [by etrans|]. split; [done|]. exists data. by rewrite Hk.
Qed.

Definition same_disk (s s' : state) : Prop := dk_files (fj_disk s') = dk_files (fj_disk s).

Lemma run_restore_job_spec rq s :
  wp (run_restore_job str_of class_of w job_id rq)
    (λ r s', reading (fj_job s) (fj_job s') ∧
       match r with
       | None => same_disk s s'
       | Some res => ∃ f i, get_latest_instance_for_path (rr_catalog_path rq) (fj_catalog s) = Ok (f, i) ∧
           res = RestoreResult job_id (fi_barcode i) (negb (rr_dry_run rq)) None ∧
           if rr_dry_run rq then same_disk s s' else verified f i (_batch_dest rq (fj_disk s)) s s'
       end)
    (λ _ s', reading (fj_job s) (fj_job s') ∧
       (same_disk s s' ∨ ∃ f i,
          get_latest_instance_for_path (rr_catalog_path rq) (fj_catalog s) = Ok (f, i) ∧
          left_over i (_batch_dest rq (fj_disk s)) s s')) s.
Proof.
  unfold run_restore_job. set (E := λ (e : exn) s', _ ∧ _).
  assert (∀ e s', aside s s' → E e s') as HE by (intros e s' [H1 H2 _]; split; [done | left; unfold same_disk; by rewrite H2]).
  apply (wp_bind_preserves aside) with (s0 := s); [auto with preserves | done | by eauto |]. intros _ s1 H1.
  do 4 wp_step; [|by apply HE]. destruct a as [f i]. rename H into Hl.
  rewrite (rows_latest (fj_catalog s)) in Hl by apply (tables_rows _ _ (q_catalog _ _ (st_calm H1))).
  apply (wp_bind_preserves aside) with (s0 := s); [solve_preserves | done | by eauto |]. intros _ s2 H2.
  destruct (rr_dry_run rq) eqn:Hdry.
  { apply (wp_bind_preserves aside) with (s0 := s); [auto with preserves | done | by eauto |]. intros _ s3 [H3 Hd _].
    wp_step. split; [done|]. exists f, i. split_and!; [done..|]. unfold same_disk. by rewrite Hd. }
  apply (wp_bind_preserves aside) with (s0 := s); [auto with preserves | done | by eauto |].
  intros [[|ref refs]|] s3 H3.
  1: by wp_step; apply HE.
  2: { wp_step. split; [apply H3|]. unfold same_disk. by rewrite (st_disk H3). }
  apply (wp_bind_preserves aside) with (s0 := s); [auto with preserves | done | by eauto |]. intros h s4 H4.
  apply (wp_bind_preserves aside) with (s0 := s); [auto with preserves | done | by eauto |]. intros _ s5 H5.
  wp_step. wp_step. rewrite (st_disk H5).
  apply (wp_bind_preserves aside) with (s0 := s); [by apply set_local_still | done | by eauto |]. intros _ s6 H6.
  set (dest := _batch_dest rq (fj_disk s)) in *. wp_step.
  assert (∀ s7, fetched_or_not i dest s s7 → reading (fj_job s) (fj_job s7) ∧ left_over i dest s s7) as Hleft.
  { intros s7 [[H7 Hd]|(H7 & data & Hd & Hf)]; (split; [done|]); [by left | right; eauto]. }
  assert (∀ e s7, reading (fj_job s) (fj_job s7) ∧ left_over i dest s s7 → E e s7) as HE'.
  { intros e s7 [H7 Hk]. split; [done|]. right. by exists f, i. }
  assert (∀ s7, fetched i dest s6 s7 → fetched i dest s s7) as Hb by (intros; by eapply fetched_before).
  assert (∀ s7, fetched_or_not i dest s6 s7 → fetched_or_not i dest s s7) as Hb'.
  { intros s7 [[H7 Hd]|H7]; [left | right; auto]. split; [etrans; [apply H6 | exact H7]|].
    by rewrite Hd, (st_disk H6). }
  eapply (wp_mono _ (λ _, fetched i dest s) _ (λ _, fetched_or_not i dest s));
    [apply (wp_finally_kept aside); [auto with preserves | ..] | |]; cbn beta.
  - intros _ s7 s8 ??. by eapply fetched_after.
  - intros _ e s7 s8 ??. right. by eapply fetched_after.
  - intros _ e s7 s8 ??. by eapply not_fetched_after.
  - eapply wp_mono; [apply restore_held_spec| |]; cbn beta; auto.
  - intros _ s7 H7. wp_step. eapply wp_mono; [by apply check_restored_spec| |]; cbn beta; [|auto].
    intros res s8 (H8 & -> & Hv). split; [done|]. by exists f, i.
  - intros e s7 H7. auto.
Qed.
End single.

(** * Batches *)

(** Every file is as it was, or a scratch file, or holds what it may. *)
Definition delivers (scratch : string → Prop) (ok : string → bytes → Prop) : relation disk := λ d d',
  ∀ p, dk_files d' !! p = dk_files d !! p ∨ scratch p ∨
       ∃ data, dk_files d' !! p = Some data ∧ ok p data.
#[export] Instance delivers_preorder scratch ok : PreOrder (delivers scratch ok).
Proof.
  split; [by left|]. intros d1 d2 d3 H1 H2 p. destruct (H2 p) as [H2'|[?|?]]; [|by right; left|by do 2 right].
  rewrite H2'. apply H1.
Qed.

Lemma delivers_same scratch ok d d' : dk_files d' = dk_files d → delivers scratch ok d d'.
Proof. intros H p. left. by rewrite H. Qed.
Lemma delivers_insert (scratch : string → Prop) (ok : string → bytes → Prop) d d' p data :
  scratch p ∨ ok p data → dk_files d' = <[p := data]> (dk_files d) → delivers scratch ok d d'.
Proof.
  intros Hp H q. rewrite H. destruct (decide (p = q)) as [<-|Hne].
  - rewrite lookup_insert_eq. destruct Hp; [by right; left | right; right; by exists data].
  - rewrite lookup_insert_ne by done. by left.
Qed.
Lemma delivers_delete (scratch : string → Prop) (ok : string → bytes → Prop) d d' p :
  scratch p → dk_files d' = delete p (dk_files d) → delivers scratch ok d d'.
Proof.
  intros Hp H q. rewrite H. destruct (decide (p = q)) as [<-|Hne]; [by right; left|].
  left. by apply lookup_delete_ne.
Qed.
Lemma delivers_rename (scratch : string → Prop) (ok : string → bytes → Prop) d d' p q data :
  scratch p → scratch q ∨ ok q data → dk_files d' = <[q := data]> (delete p (dk_files d)) →
  delivers scratch ok d d'.
Proof.
  intros Hp Hq H. etrans; [apply (delivers_delete _ _ _ (Disk (delete p (dk_files d)) ∅) p); done|].
  by eapply delivers_insert.
Qed.

Section batch.
Context (str_of class_of : exn → string) (w : file_surroundings) (job_id : string).
Context (rqs : list restore_request) (s0 : state).

(** Where a request may go: below its destination if that is a directory; if it is
    none yet, to it, or below it should another request make it one. *)
Definition places (rq : restore_request) : list string :=
  let dest := posix_path (rr_dest_path rq) in
  let below := path_join dest (basename (rr_catalog_path rq)) in
  if is_dir dest (fj_disk s0) then [below] else [dest; below].

(** The names aside, of the reads in progress and of the mismatches. *)
Definition scratch (p : string) : Prop :=
  ∃ rq dest, rq ∈ rqs ∧ dest ∈ places rq ∧
    (with_name dest ("." ++ basename dest ++ ".restoring") = Ok p ∨ put_aside dest p).

(** What a request may bring: the bytes of its instance on the tape, with the
    checksum of its record. *)
Definition brings (p : string) (data : bytes) : Prop :=
  ∃ rq f i, rq ∈ rqs ∧ rr_dry_run rq = false ∧ p ∈ places rq ∧
    get_latest_instance_for_path (rr_catalog_path rq) (fj_catalog s0) = Ok (f, i) ∧
    tape_holds (tj_ltfs (fj_job s0)) (fi_barcode i) (fi_tape_path i) data ∧
    sha256_hex data = fl_checksum_sha256 f.

Definition good (bc : string) (src : sourced) : Prop :=
  let '(rq, f, i) := src in
  rq ∈ rqs ∧ rr_dry_run rq = false ∧ fi_barcode i = bc ∧
  get_latest_instance_for_path (rr_catalog_path rq) (fj_catalog s0) = Ok (f, i).

Definition src_path (src : sourced) : string := rr_catalog_path src.1.1.

(** A destination of a request for the path holds what it may, or its name is
    taken by a name aside. *)
Definition arrived (path : string) (d : disk) : Prop :=
  ∃ rq p, rq ∈ rqs ∧ rr_catalog_path rq = path ∧ p ∈ places rq ∧
    (scratch p ∨ ∃ data, dk_files d !! p = Some data ∧ brings p data).

(** What an item says; a dry run says that there is something to restore. *)
Definition truthful (d : disk) (r : restore_item) : Prop :=
  ri_ok r = true →
  arrived (ri_catalog_path r) d ∨
  ∃ rq, rq ∈ rqs ∧ rr_catalog_path rq = ri_catalog_path r ∧ rr_dry_run rq = true.

(** The items of the tapes before. *)
Context (before : list restore_item).
Definition reported (rs : list restore_item) (d : disk) : Prop := Forall (truthful d) (before ++ rs).

Lemma arrived_delivers path d d' : delivers scratch brings d d' → arrived path d → arrived path d'.
Proof.
  intros Hd (rq & p & Hrq & Hpath & Hp & Har). exists rq, p. split_and!; [done..|].
  destruct Har as [?|(data & Hl & Hb)]; [by left|].
  destruct (Hd p) as [Hd'|[?|?]]; [right; exists data; by rewrite Hd' | by left | by right].
Qed.
Lemma reported_delivers rs d d' : delivers scratch brings d d' → reported rs d → reported rs d'.
Proof.
  intros Hd Hr. eapply Forall_impl; [exact Hr|]. intros r Har Ho.
  destruct (Har Ho); [left; by eapply arrived_delivers | by right].
Qed.

(** Directories are only made. *)
Definition grows : relation state := λ s s', dk_dirs (fj_disk s) ⊆ dk_dirs (fj_disk s').
#[export] Instance grows_preorder : PreOrder grows.
Proof. split; [intros s|intros s1 s2 s3]; unfold grows; set_solver. Qed.

(** The invariant of a batch, with the results of the tape so far. *)
Record sound (rs : list restore_item) (s : state) : Prop := {
  so_reading : reading (fj_job s0) (fj_job s);
  so_disk : delivers scratch brings (fj_disk s0) (fj_disk s);
  so_dirs : grows s0 s;
  so_results : lc_results (fj_local s) = rs;
}.
Definition sound_report (rs : list restore_item) (s : state) : Prop :=
  sound rs s ∧ reported rs (fj_disk s).

Notation still_results := (still tables lc_results).

Lemma sound_still rs s s' : still_results s s' → sound rs s → sound rs s'.
Proof.
  intros [H1 H2 H3] [S1 S2 Sd S3]. split; [by etrans | by rewrite H2 | unfold grows; by rewrite H2 | congruence].
Qed.
Lemma report_still rs s s' : still_results s s' → sound_report rs s → sound_report rs s'.
Proof.
  intros H [S1 S2]. split; [by eapply sound_still|]. by rewrite (st_disk H).
Qed.
Lemma is_dir_grows p d d' : dk_dirs d ⊆ dk_dirs d' → is_dir p d = true → is_dir p d' = true.
Proof. unfold is_dir. rewrite !bool_decide_eq_true. set_solver. Qed.
Lemma batch_dest_place rq d : dk_dirs (fj_disk s0) ⊆ dk_dirs d → _batch_dest rq d ∈ places rq.
Proof.
  intros Hd. unfold _batch_dest, places. destruct (is_dir _ (fj_disk s0)) eqn:H0.
  - rewrite (is_dir_grows _ _ _ Hd H0). set_solver.
  - destruct (is_dir _ d); set_solver.
Qed.

Lemma on_disk_grows {A} (m : M disk A) :
  preserves (λ d d', dk_dirs d ⊆ dk_dirs d') m → preserves grows (on_disk (L := locals) m).
Proof. intros Hm. eapply preserves_zoom; [exact Hm|]. by intros s d. Qed.
Ltac solve_disk_grows :=
  intros; apply on_disk_grows; intros d; monad_unfold; repeat case_match; simplify_eq; simpl; set_solver.
Lemma restore_one_grows m src : preserves grows (_restore_one_verified str_of class_of m src).
Proof.
  destruct src as [[rq f] i]. unfold _restore_one_verified, read_to_disk.
  assert (∀ p data, preserves grows (on_disk (L := locals) (write_disk p data))) by
    (unfold write_disk, make_parents; solve_disk_grows).
  assert (∀ p q, preserves grows (on_disk (L := locals) (rename_file p q))) by (unfold rename_file; solve_disk_grows).
  assert (∀ p, preserves grows (on_disk (L := locals) (unlink_file p))) by (unfold unlink_file; solve_disk_grows).
  assert (∀ p, preserves grows (on_disk (L := locals) (sha256sum p))) by (unfold sha256sum; solve_disk_grows).
  assert (∀ A (m : M tape_job A), preserves grows (on_tapes (L := locals) m)).
  { intros A m' s. unfold on_tapes, zoom, grows. by destruct (m' _). }
  solve_preserves.
Qed.

(** One file: what it does to the disk, and what its item says. *)
Lemma restore_one_delivers m bc src s :
  good bc src → Barcode bc = Ok (mh_barcode m) → reading (fj_job s0) (fj_job s) → grows s0 s →
  let kept s' := reading (fj_job s) (fj_job s') ∧ fj_local s' = fj_local s ∧
                 delivers scratch brings (fj_disk s) (fj_disk s') in
  wp (_restore_one_verified str_of class_of m src)
    (λ r s', kept s' ∧ ri_catalog_path r = src_path src ∧ (ri_ok r = true → arrived (src_path src) (fj_disk s')))
    (λ _ s', kept s') s.
Proof.
  destruct src as [[rq f] i]. intros (Hrq & Hdry & <- & Hl) Hm Hr Hgr kept. unfold _restore_one_verified. wp_step. wp_step.
  set (dest := _batch_dest rq (fj_disk s)).
  assert (dest ∈ places rq) as Hdest by by apply batch_dest_place.
  wp_step. wp_step; [|done]. rename a into temp. rename H into Htemp.
  assert (scratch temp) as Hst by (exists rq, dest; auto).
  assert (∀ s1 d, reading (fj_job s) (fj_job s1) → fj_local s1 = fj_local s →
    delivers scratch brings (fj_disk s) (fj_disk s1) → delivers scratch brings (fj_disk s1) d →
    kept (with_disk d s1)) as Hthen by (intros s1 d ????; split_and!; [done..|by etrans]).
  wp_step. wp_step. eapply wp_mono; [by apply (wp_read_to_disk tables)| |]; cbn beta.
  - intros _ s1 (H1 & Hloc & data & Hd & Hf).
    assert (delivers scratch brings (fj_disk s) (fj_disk s1)) as Hdd by (eapply delivers_insert; eauto).
    wp_step. apply wp_on_disk, wp_sha256sum; [|by intros e; destruct s1].
    intros data' Hd'. rewrite Hf, lookup_insert_eq in Hd'. injection Hd' as <-. cbn beta.
    assert (with_disk (fj_disk s1) s1 = s1) as -> by by destruct s1.
    case_bool_decide as Hsum.
    + wp_step. wp_step; [|done]. wp_step. apply wp_on_disk, wp_rename_file; [|by intros e; destruct s1].
      intros data' Hd'. wp_step. split; [|by split]. apply Hthen; [done..|].
      eapply delivers_rename; [exact Hst | left; exists rq, dest; split_and!; [done..|by right] | done].
    + wp_step. apply wp_on_disk, wp_rename_file; [|by intros e; destruct s1].
      intros data' Hd'. rewrite Hf, lookup_insert_eq in Hd'. injection Hd' as <-. wp_step.
      assert (brings dest data) as Hbr.
      { exists rq, f, i. split_and!; try done. revert Hd. apply tape_holds_content, Hr. }
      split; [|split; [done|]].
      * apply Hthen; [done..|]. eapply delivers_rename; [exact Hst | right; exact Hbr | done].
      * intros _. exists rq, dest. split_and!; [done..|]. right. exists data. split; [|done].
        simpl. by rewrite lookup_insert_eq.
  - intros e s1 (H1 & Hloc & Hf).
    assert (delivers scratch brings (fj_disk s) (fj_disk s1)) as Hdd by by apply delivers_same.
    case_bool_decide; [by wp_step|]. wp_step. apply wp_on_disk, wp_unlink_file; [|by intros e'; destruct s1].
    wp_step. split; [|by split]. apply Hthen; [done..|]. by eapply delivers_delete.
Qed.

Lemma restore_one_spec m bc src rs s :
  good bc src → Barcode bc = Ok (mh_barcode m) → sound_report rs s →
  wp (_restore_one_verified str_of class_of m src)
    (λ r s', sound_report rs s' ∧ ri_catalog_path r = src_path src ∧
             (ri_ok r = true → arrived (src_path src) (fj_disk s')))
    (λ _ s', sound_report rs s') s.
Proof.
  intros Hg Hm [[S1 S2 Sd S3] S4].
  assert (∀ s', reading (fj_job s) (fj_job s') ∧ fj_local s' = fj_local s ∧
    delivers scratch brings (fj_disk s) (fj_disk s') → grows s s' → sound_report rs s') as Hk.
  { intros s' (H1 & H2 & H3) Hd. split; [split; [by etrans.. | congruence]|]. by eapply reported_delivers. }
  eapply wp_mono; [apply wp_and; [by apply (restore_one_delivers m bc) |
    apply (wp_preserves grows), restore_one_grows]| |]; cbn beta.
  - intros r s' [(H & Hp & Ha) Hd]. auto.
  - intros e s' [H Hd]. auto.
Qed.

(** ** A tape *)
Lemma restore_group_spec m bc group rs s :
  Forall (good bc) group → Barcode bc = Ok (mh_barcode m) → sound_report rs s →
  wp (restore_group str_of class_of m group)
    (λ _ s', ∃ rs', sound_report (rs ++ rs')%list s' ∧ ri_catalog_path <$> rs' = src_path <$> group)
    (λ _ s', ∃ rs' n, sound_report (rs ++ rs')%list s' ∧
       ri_catalog_path <$> rs' = src_path <$> take n group) s.
Proof.
  revert rs s. induction group as [|src group IH]; intros rs s Hg Hm Hs; simpl.
  { wp_step. exists []. by rewrite app_nil_r. }
  apply Forall_cons in Hg as [Hsrc Hg]. wp_step.
  eapply wp_mono; [by eapply restore_one_spec| |]; cbn beta.
  - intros r s1 ([[S1 S2 Sd S3] R1] & Hr & Har). wp_step. apply wp_set_local.
    eapply wp_mono; [apply (IH (rs ++ [r])%list); [done | done |]| |]; cbn beta.
    + split; [split; [done..|]; simpl; by rewrite S3|]. unfold reported. rewrite (assoc_L app).
      apply Forall_app. split; [exact R1|].
      constructor; [|constructor]. intros Ho. left. rewrite Hr. auto.
    + intros _ s2 (rs' & H2 & Hp). exists (r :: rs'). rewrite <-(assoc_L app) in H2. split; [exact H2|].
      by rewrite fmap_cons, Hr, Hp.
    + intros e s2 (rs' & n & H2 & Hp). exists (r :: rs'), (S n). rewrite <-(assoc_L app) in H2.
      split; [exact H2|]. by rewrite fmap_cons, Hr, Hp.
  - intros e s1 Hs1. exists [], 0%nat. by rewrite app_nil_r.
Qed.

(** The names of the sources that have no result when those of a prefix have. *)
Lemma rest_of_group (group : list sourced) n :
  NoDup (src_path <$> group) →
  filter (λ src : sourced, rr_catalog_path src.1.1 ∉ src_path <$> take n group) group = drop n group.
Proof.
  intros Hnd. rewrite <-(take_drop n group), fmap_app in Hnd. apply NoDup_app in Hnd as (_ & Hx & _).
  transitivity (filter (λ src : sourced, rr_catalog_path src.1.1 ∉ src_path <$> take n group)
                  (take n group ++ drop n group)%list); [by rewrite take_drop|]. rewrite filter_app.
  rewrite (filter_none _ (take n group)), (filter_all _ (drop n group)); [done| |].
  - intros x Hin Hin'. exact (Hx _ Hin' (list_elem_of_fmap_2 src_path _ _ Hin)).
  - intros x Hin Hno. apply Hno. exact (list_elem_of_fmap_2 src_path _ _ Hin).
Qed.

Lemma fail_rest_results group message n s rs :
  NoDup (src_path <$> group) → sound_report rs s → ri_catalog_path <$> rs = src_path <$> take n group →
  let s' := with_local (fail_rest group message (fj_local s)) s in
  ∃ rs', sound_report rs' s' ∧ ri_catalog_path <$> rs' = src_path <$> group.
Proof.
  intros Hnd [[S1 S2 Sd S3] R1] Hrs s'.
  set (failed := (λ src : sourced, RestoreItemResult (rr_catalog_path src.1.1) false (Some message)) <$>
                   drop n group).
  assert (lc_results (fj_local s') = (rs ++ failed)%list) as Hres.
  { subst s'. simpl. rewrite S3, Hrs. by rewrite rest_of_group. }
  exists (rs ++ failed)%list. split.
  - split; [by split|]. unfold reported. rewrite (assoc_L app). apply Forall_app.
    split; [exact R1|]. apply Forall_forall.
    intros r (src & -> & _)%list_elem_of_fmap. done.
  - rewrite fmap_app, Hrs. unfold failed. rewrite <-list_fmap_compose. unfold compose. simpl.
    change (λ x : sourced, rr_catalog_path x.1.1) with src_path. by rewrite <-fmap_app, take_drop.
Qed.

Lemma still_results_wp {A} (m : M state A) rs s :
  preserves still_results m → sound_report rs s →
  wp m (λ _ s', sound_report rs s') (λ _ s', sound_report rs s') s.
Proof.
  intros Hm Hs. eapply wp_mono; [by apply (wp_preserves still_results)| |]; cbn beta;
    intros ? s1 H1; by eapply report_still.
Qed.

(** The results of a group: an item for each of its requests. *)
Definition group_reported (group : list sourced) (s : state) : Prop :=
  ∃ rs, sound_report rs s ∧ ri_catalog_path <$> rs = src_path <$> group.
Definition any_report (s : state) : Prop := ∃ rs, sound rs s.
Lemma group_reported_still group s s' : still_results s s' → group_reported group s → group_reported group s'.
Proof. intros H (rs & Hs & Hp). exists rs. split; [by eapply report_still | done]. Qed.
Lemma any_report_still s s' : still_results s s' → any_report s → any_report s'.
Proof. intros H (rs & Hs). exists rs. by eapply sound_still. Qed.

Lemma unmount_or_record_still refs m bc :
  preserves still_results (unmount_or_record w job_id refs m bc).
Proof.
  unfold unmount_or_record. solve_preserves; try by apply set_local_still.
  apply on_tapes_still, tape_op_calm. auto with preserves.
Qed.
Hint Resolve unmount_or_record_still : preserves.

Lemma tape_group_body_spec bc group refs ref s :
  Forall (good bc) group → NoDup (src_path <$> group) → sound_report [] s →
  wp (tape_group_body str_of class_of w job_id bc group refs ref)
    (λ _ s', group_reported group s') (λ _ s', any_report s') s.
Proof.
  intros Hg Hnd Hs. unfold tape_group_body.
  assert (∀ s1, group_reported group s1 → any_report s1) as Hany by (intros s1 (rs & [H _] & _); by exists rs).
  apply (wp_finally_kept still_results).
  { by apply unload_still. }
  { intros. by eapply group_reported_still. }
  { intros. eapply any_report_still; [done|]. by apply Hany. }
  { intros. by eapply any_report_still. }
  apply wp_try_except.
  set (E := λ s1, ∃ rs n, sound_report rs s1 ∧ ri_catalog_path <$> rs = src_path <$> take n group).
  assert (∀ s1 s2, still_results s1 s2 → E s1 → E s2) as HE.
  { intros s1 s2 H1 (rs & n & H & Hp). exists rs, n. split; [by eapply report_still | done]. }
  eapply (wp_mono _ (λ _, group_reported group) _ (λ _, E)).
  - wp_step. eapply wp_mono; [by apply (wp_load_and_mount str_of w job_id lc_results)| |]; cbn beta.
    2: { intros e s1 H1. exists [], 0%nat. split; [by eapply report_still | done]. }
    intros m s1 [H1 Hm]. apply (wp_finally_kept still_results); [solve_preserves | .. ].
    + intros. by eapply group_reported_still.
    + intros a e s2 s3 (rs & H & Hp) H3. eapply HE; [exact H3|]. exists rs, (length group).
      split; [done|]. by rewrite firstn_all.
    + intros. by eapply HE.
    + eapply wp_mono; [eapply restore_group_spec; [done..|]; by eapply report_still| |]; cbn beta.
      * intros _ s2 (rs & H & Hp). by exists rs.
      * intros e s2 (rs & n & H & Hp). by exists rs, n.
  - done.
  - cbn beta. intros e s1 (rs & n & H & Hp). case_bool_decide.
    + wp_step. apply wp_set_local. wp_step. exists rs. destruct H as [[S1 S2 Sd S3] R1]. by split.
    + apply wp_set_local. by eapply fail_rest_results.
Qed.

Lemma restore_tape_group_spec bc group rs s :
  Forall (good bc) group → NoDup (src_path <$> group) → sound rs s → Forall (truthful (fj_disk s)) before →
  wp (_restore_tape_group str_of class_of w job_id bc group)
    (λ r s', any_report s' ∧ match r with
       | Some (results, _) => sound_report results s' ∧ ri_catalog_path <$> results = src_path <$> group
       | None => True
       end)
    (λ _ s', any_report s') s.
Proof.
  intros Hg Hnd [S1 S2 Sd _] Hbefore. unfold _restore_tape_group. wp_step. apply wp_set_local.
  set (s1 := with_local _ s). assert (sound_report [] s1) as H1.
  { split; [by split|]. unfold reported. by rewrite app_nil_r. }
  assert (∀ s2, still_results s1 s2 → any_report s2) as Hany.
  { intros s2 H2. exists []. eapply sound_still; [done | by apply H1]. }
  apply (wp_bind_preserves still_results) with (s0 := s1); [auto with preserves | done | by auto |].
  intros [[|ref refs]|] s2 H2; [by wp_step; auto | | by wp_step; auto].
  apply (wp_bind_preserves still_results) with (s0 := s1); [auto with preserves | done | by auto |]. intros h s3 H3.
  apply (wp_bind_preserves still_results) with (s0 := s1); [auto with preserves | done | by auto |]. intros _ s4 H4.
  apply (wp_bind_preserves still_results) with (s0 := s1); [auto with preserves | done | by auto |]. intros _ s5 H5.
  wp_step. eapply (wp_mono _ (λ _, group_reported group) _ (λ _, any_report)).
  - apply (wp_finally_kept still_results).
    + solve_preserves.
    + intros. by eapply group_reported_still.
    + intros a e s6 s7 (rs' & [H _] & _) H7. eapply any_report_still; [done|]. by exists rs'.
    + intros. by eapply any_report_still.
    + apply tape_group_body_spec; [done..|]. by eapply report_still.
  - intros _ s6 (rs' & H & Hp). wp_step. wp_step. wp_step. split; [exists rs'; apply H|].
    destruct (proj1 H) as [_ _ _ ->]. by split.
  - done.
Qed.

(** ** Whatever is asked for

    What is read and what lands does not rest on distinct paths. *)
Definition landed (s : state) : Prop :=
  reading (fj_job s0) (fj_job s) ∧ delivers scratch brings (fj_disk s0) (fj_disk s) ∧ grows s0 s.
Definition lands : relation state := λ s s', landed s → landed s'.
#[export] Instance lands_preorder : PreOrder lands.
Proof. split; [by intros s H|]. intros s1 s2 s3 H1 H2 H. by apply H2, H1. Qed.

Lemma still_lands {B} (g : locals → B) s s' : still tables g s s' → lands s s'.
Proof. intros [H1 H2 _] (H3 & H4 & H5). unfold landed, grows. rewrite H2. split; [by etrans | done]. Qed.
Lemma preserves_lands {A B} (g : locals → B) (m : M state A) : preserves (still tables g) m → preserves lands m.
Proof. apply preserves_impl, still_lands. Qed.
Lemma aside_lands {A} (m : M state A) : preserves aside m → preserves lands m.
Proof. apply preserves_lands. Qed.
Hint Resolve aside_lands : preserves.
Lemma local_lands f : preserves lands (set_local f).
Proof. apply aside_lands, set_local_still; done. Qed.
Hint Resolve local_lands : preserves.

Lemma restore_group_lands m bc group :
  Forall (good bc) group → Barcode bc = Ok (mh_barcode m) →
  preserves lands (restore_group str_of class_of m group).
Proof.
  induction group as [|src group IH]; intros Hg Hm; simpl; [solve_preserves|].
  apply Forall_cons in Hg as [Hsrc Hg]. apply preserves_bind; [apply _| |].
  - apply preserves_wp. intros s. apply wp_state.
    intros (H1 & H2 & H3). pose proof (restore_one_delivers m bc src s Hsrc Hm H1 H3) as H.
    pose proof (restore_one_grows m src s) as Hd. revert H Hd. rewrite wp_unfold. unfold landed.
    destruct (_restore_one_verified _ _ _ _ s) as [[r|e] s']; simpl; [intros [(H4 & _ & H5) _]|intros (H4 & _ & H5)];
      intros Hd; (split; [by etrans | split; by etrans]).
  - intros r. apply preserves_bind; [apply _|auto with preserves|]. intros _. auto.
Qed.

Lemma mounted_lands {A} refs ref bc (k : mount_handle → M state A) :
  (∀ m, Barcode bc = Ok (mh_barcode m) → preserves lands (k m)) →
  preserves lands (m ← load_and_mount str_of w job_id refs ref bc; k m).
Proof.
  intros Hk. apply preserves_wp. intros s. wp_step.
  eapply wp_mono; [by apply (wp_load_and_mount str_of w job_id (λ _, ()))| |]; cbn beta.
  - intros m s1 [H1 Hm]. apply still_lands in H1. specialize (Hk m Hm s1). apply wp_state.
    intros Hs. by apply Hk, H1.
  - intros e s1 H1. by eapply still_lands.
Qed.

Lemma restore_tape_group_lands bc group :
  Forall (good bc) group → preserves lands (_restore_tape_group str_of class_of w job_id bc group).
Proof.
  intros Hg. unfold _restore_tape_group, tape_group_body.
  assert (∀ ref, preserves lands (unload_if_loaded str_of w job_id ref bc)) as Hun
    by (intros; by apply aside_lands, unload_still).
  assert (∀ refs m, preserves lands (unmount_or_record w job_id refs m bc)) as Hum.
  { intros. unfold unmount_or_record. solve_preserves. apply aside_lands, on_tapes_still, tape_op_calm. auto with preserves. }
  assert (∀ refs ref, preserves lands (m ← load_and_mount str_of w job_id refs ref bc;
    try_finally (restore_group str_of class_of m group)
      (on_tapes (verify_handle w ref);; unmount_or_record w job_id refs m bc))) as Hmount.
  { intros refs ref. apply mounted_lands. intros m Hm.
    pose proof (restore_group_lands m bc group Hg Hm). solve_preserves. }
  solve_preserves.
Qed.
End batch.

Section batches.
Context (str_of class_of : exn → string) (w : file_surroundings) (job_id : string).
Context (rqs : list restore_request) (s0 : state).

Lemma restore_groups_spec groups items errors s :
  Forall (λ kg : string * list sourced, Forall (good rqs s0 kg.1) kg.2) groups →
  NoDup (src_path <$> concat groups.*2) → any_report rqs s0 s →
  Forall (truthful rqs s0 (fj_disk s)) items →
  wp (restore_groups str_of class_of w job_id groups items errors)
    (λ r s', any_report rqs s0 s' ∧ match r with
       | Some (items', _) => 
           ri_catalog_path <$> items' = (ri_catalog_path <$> items) ++ (src_path <$> concat groups.*2) ∧
           Forall (truthful rqs s0 (fj_disk s')) items'
       | None => True
       end)%list
    (λ _ s', any_report rqs s0 s') s.
Proof.
  revert items errors s. induction groups as [|[bc group] groups IH]; intros items errors s Hg Hnd [rs Hs] Hi; simpl.
  { wp_step. rewrite app_nil_r. split; [by exists rs | done]. }
  apply Forall_cons in Hg as [Hg Hgs]. simpl in Hg, Hnd. rewrite fmap_app in Hnd.
  apply NoDup_app in Hnd as (Hn & _ & Hns). wp_step.
  apply (wp_reraise (still tables lc_results)); [solve_preserves | intros; by eapply any_report_still |].
  eapply wp_mono; [by eapply (restore_tape_group_spec str_of class_of w job_id rqs s0 items)| |done]; cbn beta.
  intros [[results e]|] s1 [H1 Hr]; [|by wp_step].
  destruct Hr as [[H2 R2] Hp].
  eapply wp_mono; [by apply IH| |done]; cbn beta. intros [[items' errors']|] s2 [H3 Hr]; [|done].
  split; [done|]. destruct Hr as [Hi' Ht]. split; [|done]. rewrite Hi', !fmap_app, Hp. by rewrite (assoc_L app).
Qed.

Hint Resolve aside_lands : preserves.
Lemma restore_groups_lands groups items errors :
  Forall (λ kg : string * list sourced, Forall (good rqs s0 kg.1) kg.2) groups →
  preserves (lands rqs s0) (restore_groups str_of class_of w job_id groups items errors).
Proof.
  revert items errors. induction groups as [|[bc group] groups IH]; intros items errors Hg; simpl; [solve_preserves|].
  apply Forall_cons in Hg as [Hg Hgs].
  pose proof (restore_tape_group_lands str_of class_of w job_id rqs s0 bc group Hg).
  assert (∀ items errors, preserves (lands rqs s0) (restore_groups str_of class_of w job_id groups items errors))
    by auto.
  solve_preserves.
Qed.

(** The groups take in one source after the other. *)
Lemma concat_dset {K A} `{EqDecision K} (d : dict K (list A)) k x :
  concat (dset d k (dget_or d k [] ++ [x])%list).*2 ≡ₚ (concat d.*2 ++ [x])%list.
Proof.
  unfold dget_or. induction d as [|[k' l] d IH]; simpl; [done|]. case_decide; simpl.
  - rewrite <-(assoc_L app). rewrite <-(assoc_L app). f_equiv. apply Permutation_app_comm.
  - rewrite IH. by rewrite (assoc_L app).
Qed.

Definition sorted (acc : list restore_item * dict string (list sourced)) : Prop :=
  Forall (truthful rqs s0 (fj_disk s0)) acc.1 ∧
  Forall (λ kg : string * list sourced, Forall (good rqs s0 kg.1) kg.2) acc.2.
Definition acc_paths (acc : list restore_item * dict string (list sourced)) : list string :=
  ((ri_catalog_path <$> acc.1) ++ (src_path <$> concat acc.2.*2))%list.

Lemma sort_request_spec c rq acc :
  rows c = rows (fj_catalog s0) → rq ∈ rqs → sorted acc →
  sorted (sort_request c rq acc) ∧ acc_paths (sort_request c rq acc) ≡ₚ (acc_paths acc ++ [rr_catalog_path rq])%list.
Proof.
  destruct acc as [items groups]. intros Hc Hrq [Hi Hg]. simpl in Hi, Hg. unfold sort_request.
  assert (∀ ok error, (ok = true → rr_dry_run rq = true) →
    sorted (items ++ [RestoreItemResult (rr_catalog_path rq) ok error], groups)%list ∧
    acc_paths (items ++ [RestoreItemResult (rr_catalog_path rq) ok error], groups)%list ≡ₚ
      (acc_paths (items, groups) ++ [rr_catalog_path rq])%list) as Hitem.
  { intros ok error Hok. split.
    - split; [|done]. apply Forall_app. split; [done|]. constructor; [|constructor].
      intros Ho. right. exists rq. auto.
    - unfold acc_paths. simpl. rewrite fmap_app. simpl. rewrite <-!(assoc_L app). f_equiv.
      apply Permutation_app_comm. }
  rewrite (rows_latest (fj_catalog s0) c) by done.
  destruct (get_latest_instance_for_path _ _) as [[f i]|e] eqn:Hl; [|by apply Hitem].
  destruct (exported _ _); [by apply Hitem|]. destruct (rr_dry_run rq) eqn:Hdry; [by apply Hitem|].
  split; [split; [done|]|]; simpl.
  - apply Forall_dset; [done|]. apply Forall_app. split; [|by constructor].
    unfold dget_or. destruct (dget groups _) as [g|] eqn:Hd; [|constructor]. exact (Forall_dget _ _ _ _ Hg Hd).
  - unfold acc_paths. simpl. rewrite concat_dset, fmap_app. by rewrite (assoc_L app).
Qed.

Lemma sort_requests_spec c rqs' acc :
  rows c = rows (fj_catalog s0) → rqs' ⊆ rqs → sorted acc →
  sorted (sort_requests c rqs' acc) ∧
  acc_paths (sort_requests c rqs' acc) ≡ₚ (acc_paths acc ++ (rr_catalog_path <$> rqs'))%list.
Proof.
  intros Hc. revert acc. induction rqs' as [|rq rqs' IH]; intros acc Hin Hacc; simpl.
  { split; [done|]. by rewrite app_nil_r. }
  destruct (sort_request_spec c rq acc) as [H1 Hp1]; [done | apply Hin; by left | done|].
  destruct (IH (sort_request c rq acc)) as [H2 Hp2]; [|done|].
  { intros x Hx. apply Hin. by right. }
  split; [done|]. rewrite Hp2, Hp1. by rewrite <-(assoc_L app).
Qed.

(** Whatever paths are asked for, every file that changed is accounted for. *)
Lemma run_restore_batch_lands : landed rqs s0 (run_restore_batch str_of class_of w job_id rqs s0).2.
Proof.
  rewrite <-(wp_state (run_restore_batch str_of class_of w job_id rqs) (landed rqs s0)). unfold run_restore_batch.
  assert (landed rqs s0 s0) as H0 by (split_and!; done || reflexivity).
  apply (wp_bind_preserves (still tables (λ _ : locals, ()))) with (s0 := s0); [auto with preserves | done | |].
  { intros e s1 H1. by apply (still_lands rqs s0 _ _ _ H1). }
  intros _ s1 H1. pose proof (still_lands rqs s0 _ _ _ H1 H0) as Hs1. wp_step. wp_step.
  destruct (sort_requests_spec (fj_catalog s1) rqs ([], [])) as [[_ Hg] _];
    [apply (tables_rows _ _ (q_catalog _ _ (st_calm H1))) | done | by split |].
  destruct (sort_requests _ _ _) as [items groups]. apply wp_state.
  match goal with |- landed _ _ (?m s1).2 => assert (preserves (lands rqs s0) m) as Hm end.
  { pose proof (restore_groups_lands groups items [] Hg). solve_preserves. }
  by apply Hm.
Qed.

Lemma run_restore_batch_spec :
  NoDup (rr_catalog_path <$> rqs) →
  wp (run_restore_batch str_of class_of w job_id rqs)
    (λ r s', any_report rqs s0 s' ∧ match r with
       | Some res => ri_catalog_path <$> br_items res ≡ₚ rr_catalog_path <$> rqs ∧
           Forall (truthful rqs s0 (fj_disk s')) (br_items res)
       | None => True
       end)
    (λ _ s', any_report rqs s0 s') s0.
Proof.
  intros Hnd. unfold run_restore_batch.
  assert (∀ s', still tables lc_results s0 s' → any_report rqs s0 s') as Hany.
  { intros s' H. exists (lc_results (fj_local s0)). by apply (sound_still _ _ _ s0 s'). }
  apply (wp_bind_preserves (still tables lc_results)) with (s0 := s0); [auto with preserves | done | by auto |].
  intros _ s1 H1. wp_step. wp_step.
  destruct (sort_requests_spec (fj_catalog s1) rqs ([], [])) as [[Hi Hg] Hp];
    [apply (tables_rows _ _ (q_catalog _ _ (st_calm H1))) | done | by split |].
  destruct (sort_requests _ _ _) as [items groups]. unfold acc_paths in Hp. simpl in Hi, Hg, Hp.
  assert (NoDup ((ri_catalog_path <$> items) ++ (src_path <$> concat groups.*2))) as Hnd' by by rewrite Hp.
  apply NoDup_app in Hnd' as (_ & _ & Hnd'). wp_step.
  eapply wp_mono; [apply restore_groups_spec; [done | done | by auto |]| |done]; cbn beta.
  { by rewrite (st_disk H1). }
  intros [[items' errors]|] s2 [H2 Hr]; [|by wp_step]. destruct Hr as [Hi' Ht].
  assert (∀ s3, still tables lc_results s2 s3 → any_report rqs s0 s3) as Hany2
    by (intros; by eapply any_report_still).
  set (res := RestoreBatchResult _ _ _).
  apply (wp_bind_preserves (still tables lc_results)) with (s0 := s2); [solve_preserves | done | by auto |].
  intros _ s3 H3. wp_step. split; [auto|]. simpl. rewrite Hi', Hp. split; [done|]. by rewrite (st_disk H3).
Qed.
End batches.

(** ** What an item means *)

(** A place of a request that a request for another path may also go to, or the
    name aside of one. *)
Definition contested (rqs : list restore_request) (s : state) (rq : restore_request) (p : string) : Prop :=
  scratch rqs s p ∨ ∃ rq', rq' ∈ rqs ∧ rr_dry_run rq' = false ∧
    rr_catalog_path rq' ≠ rr_catalog_path rq ∧ p ∈ places s rq'.

Definition delivered (rqs : list restore_request) (s : state) (d : disk) (r : restore_item) : Prop :=
  ri_ok r = true → ∃ rq, rq ∈ rqs ∧ rr_catalog_path rq = ri_catalog_path r ∧
    (rr_dry_run rq = true ∨ ∃ p, p ∈ places s rq ∧
       (contested rqs s rq p ∨ ∃ f i data, dk_files d !! p = Some data ∧
          get_latest_instance_for_path (rr_catalog_path rq) (fj_catalog s) = Ok (f, i) ∧
          tape_holds (tj_ltfs (fj_job s)) (fi_barcode i) (fi_tape_path i) data ∧
          sha256_hex data = fl_checksum_sha256 f)).

Lemma truthful_delivered rqs s d r : truthful rqs s d r → delivered rqs s d r.
Proof.
  intros Ht Hok. destruct (Ht Hok) as [(rq & p & Hrq & Hpath & Hp & Har)|(rq & Hrq & Hpath & Hdry)];
    exists rq; split_and!; auto. right. exists p. split; [done|].
  destruct Har as [Hs|(data & Hd & rq' & f & i & Hrq' & Hdry & Hp' & Hl & Ht' & Hsum)]; [by left; left|].
  destruct (decide (rr_catalog_path rq' = rr_catalog_path rq)) as [Heq|Hne].
  - right. exists f, i, data. by rewrite <-Heq.
  - left. right. exists rq'. done.
Qed.

(** * Examples

    The sharded archive of two files, on one tape; then a restore job over the
    plant it leaves. *)
Definition sample_plant (lib_faults ltfs_faults : fault_config) : tape_job :=
  let s := (Archive.run_sample "/data" ["TAPE01L8"] Shard.ShardMode.STRIPE Archive.two_files
              (Archive.sample_start no_faults no_faults)).2 in
  let c := (Catalog.create_job "job2" 1 "restore" [] (tj_catalog s)).2 in
  TapeJob (Plant c [] (tj_ltfs (Archive.with_ltfs_faults ltfs_faults s)))
    (new_scheduler 2 "job2" DEFAULT_LEASE_TTL) (tj_tick s) [] [] [] false [] [].
Definition sample_world : file_surroundings :=
  FileSurroundings Archive.sample_surroundings (λ _, None) pretty.
Definition sample_console : aml :=
  Aml [("DRV-001", [("state", JStr "idle")])]
      [("TAPE01L8", [("type", JStr "LTO-8"); ("loadCount", JInt 3)])].
Definition sample_state (ltfs_faults : fault_config) (dirs : list string) : state :=
  FileJob (sample_plant no_faults ltfs_faults) sample_console (Disk ∅ (list_to_set dirs)) no_locals.

Notation sample_restore := (run_restore_job (λ _, "tape error") (λ _, "Error") sample_world "job2").
Notation sample_batch := (run_restore_batch (λ _, "tape error") (λ _, "Error") sample_world "job2").

Example sample_restore_runs :
  let '(r, s) := sample_restore (RestoreRequest "/data/beta/same.txt" "/out" false) (sample_state no_faults ["/out"]) in
  r = Ok (Some (RestoreResult "job2" "TAPE01L8" true None)) ∧
  map_to_list (dk_files (fj_disk s)) = [("/out/same.txt", bytes_of "two")] ∧
  dget (aml_media (fj_aml s)) "TAPE01L8" =
    Some [("type", JStr "LTO-8"); ("loadCount", JInt 4); ("slotAddress", JStr "1,1,1");
          ("state", JStr "home"); ("lastLoaded", JStr "78")] ∧
  jb_state <$> get_job "job2" (fj_catalog s) = Some "completed".
Proof. vm_compute. by split_and!. Qed.

(** * Properties *)



Notation two_requests :=
  [RestoreRequest "/data/alpha/same.txt" "/out/a" false; RestoreRequest "/data/beta/same.txt" "/out/b" false].

Lemma sample_batch_ok :
  ri_ok <$> from_option br_items [] (match (sample_batch two_requests (sample_state no_faults [])).1 with
                                     | Ok r => r | Raise _ => None end) = [true; true] ∧
  map_to_list (dk_files (fj_disk (sample_batch two_requests (sample_state no_faults [])).2)) =
    [("/out/a", bytes_of "one"); ("/out/b", bytes_of "two")].
Proof. vm_compute. by split. Qed.


(** A path asked for twice can lose a destination: when the tape fails after
    the first of the two (here the second destination cannot be replaced), the
    items left without a result are told by their path, so the second has none;
    the batch answers ok and the job is completed, while the second destination
    has not been written and the bytes stay under the name of the read in
    progress. *)
Theorem batch_drops_request :
  let s := sample_state no_faults ["/out1"; "/out2"; "/out2/same.txt"] in
  let '(r, s') := sample_batch [RestoreRequest "/data/alpha/same.txt" "/out1" false;
                                RestoreRequest "/data/alpha/same.txt" "/out2" false] s in
  match r with
  | Ok (Some res) => batch_ok res = true ∧ length (br_items res) = 1%nat
  | _ => False
  end ∧
  jb_state <$> get_job "job2" (fj_catalog s') = Some "completed" ∧
  map_to_list (dk_files (fj_disk s')) =
    [("/out1/same.txt", bytes_of "one"); ("/out2/.same.txt.restoring", bytes_of "one")].
Proof. vm_compute. by split_and!. Qed.

(** A restore that fails on the tape leaves its job running: only a lost
    lease, an exported cartridge and a mismatch mark the job failed, so when the
    mount fails the exception reaches the caller and the job, though nothing will
    ever work on it, still says running. *)
Theorem failed_restore_stays_running :
  let s := sample_state (with_fault FaultType.MOUNT_FAILURE) [] in
  let '(r, s') := sample_restore (RestoreRequest "/data/alpha/same.txt" "/out" false) s in
  r = Raise SimulatedMountFailure ∧
  (λ j, (jb_state j, jb_error j)) <$> get_job "job2" (fj_catalog s') = Some ("running", None) ∧
  live_leases 1000 (fj_catalog s') = [].
Proof. vm_compute. by split_and!. Qed.
