(* ===== verification/FileArchive.v ===== *)
(** The archive of whole files, one after the other on the tape chosen for each:
    openblade/jobs/archive.py.

    A source file is read once: its checksum, its size and the bytes written are
    those of one content.  A job is given the scheduler of the application. *)
From stdpp Require Import base list option strings pretty gmap.
From Stdlib Require Import Ascii ZArith QArith Lia.
From S2P Require Import Prelude Wp Domain Paths Leases Catalog Faults Library Reconcile CatalogStore.
From S2P Require Import Scheduler Bytes Ltfs Orchestrator TapeJob FileJob.
From S2P Require Queue Shard.
From S2P Require Import Archive.
#[local] Open Scope string_scope.
#[local] Open Scope Z_scope.

(** * State *)
Record archive_request := ArchiveRequest {
  aq_source_path : string;
  aq_volume_group_name : string;
  aq_dry_run : bool;
}.

Record archive_result := ArchiveResult {
  as_job_id : string;
  as_files_archived : Z;
  as_bytes_archived : Z;
  as_tapes_used : list string;
  as_errors : list string;
}.

(** The locals of [run_archive_job]: the lease (a reference to its handle), what
    is mounted with it, the instances to be marked, and the counts. *)
Record archive_locals := ArchiveLocals {
  ac_lease : option nat;
  ac_barcode : option string;
  ac_handle : option mount_handle;
  ac_slot : option Z;
  ac_drive : option Z;
  ac_pending : list string;
  ac_bytes : Z;
  ac_files : Z;
  ac_tapes : list string;
}.
Definition no_archive : archive_locals := ArchiveLocals None None None None None [] 0 0 [].
Definition set_lease (ref : option nat) (l : archive_locals) : archive_locals :=
  ArchiveLocals ref (ac_barcode l) (ac_handle l) (ac_slot l) (ac_drive l) (ac_pending l) (ac_bytes l)
    (ac_files l) (ac_tapes l).
Definition set_load (drive : Z) (slot : option Z) (l : archive_locals) : archive_locals :=
  ArchiveLocals (ac_lease l) (ac_barcode l) (ac_handle l) slot (Some drive) (ac_pending l) (ac_bytes l)
    (ac_files l) (ac_tapes l).
Definition set_mounted (bc : string) (m : mount_handle) (l : archive_locals) : archive_locals :=
  ArchiveLocals (ac_lease l) (Some bc) (Some m) (ac_slot l) (ac_drive l) (ac_pending l) (ac_bytes l)
    (ac_files l) (ac_tapes l ++ [bc])%list.
Definition set_pending (ids : list string) (l : archive_locals) : archive_locals :=
  ArchiveLocals (ac_lease l) (ac_barcode l) (ac_handle l) (ac_slot l) (ac_drive l) ids (ac_bytes l)
    (ac_files l) (ac_tapes l).
Definition set_unmounted (l : archive_locals) : archive_locals :=
  ArchiveLocals (ac_lease l) None None None None (ac_pending l) (ac_bytes l) (ac_files l) (ac_tapes l).
Definition count_file (id : string) (size : Z) (l : archive_locals) : archive_locals :=
  ArchiveLocals (ac_lease l) (ac_barcode l) (ac_handle l) (ac_slot l) (ac_drive l)
    (ac_pending l ++ [id])%list (ac_bytes l + size) (ac_files l + 1) (ac_tapes l).

Notation state := (file_job archive_locals).

(** * The files of a source *)

(** Paths are ordered part by part. *)
Fixpoint parts_leb (a b : list string) : bool :=
  match a, b with
  | [], _ => true
  | _ :: _, [] => false
  | x :: a, y :: b => if bool_decide (x = y) then parts_leb a b else String.leb x y
  end.

(** [p] is below [dir]: its parts go on from those of [dir]. *)
Definition below (dir p : string) : bool :=
  bool_decide (path_root p = path_root dir) &&
  bool_decide (take (length (path_parts dir)) (path_parts p) = path_parts dir) &&
  bool_decide (length (path_parts dir) < length (path_parts p))%nat.

Definition _iter_source_files (source_path : string) (d : disk) : list source_file :=
  match dk_files d !! source_path with
  | Some data => [SourceFile source_path data]
  | None =>
      sort_by (λ a b, parts_leb (path_parts (src_path a)) (path_parts (src_path b)))
        ((λ kv, SourceFile kv.1 kv.2) <$>
           filter (λ kv, below source_path kv.1 = true) (map_to_list (dk_files d)))
  end.

(** [file_path.name], or the path relative to the source. *)
Definition relative_path (source_path : string) (d : disk) (p : string) : string :=
  match dk_files d !! source_path with
  | Some _ => basename p
  | None => render_path "" (drop (length (path_parts source_path)) (path_parts p))
  end.

Definition catalog_path_of (rq : archive_request) (d : disk) (p : string) : string :=
  let source := posix_path (aq_source_path rq) in
  path_join (path_join "/" (aq_volume_group_name rq)) (relative_path source d p).

Definition _is_cleaning_barcode (bc : string) : bool := startswith (upper bc) "CLN".

Definition _inventory_barcodes (i : library_inventory) : list string :=
  sort_by String.leb (barcodes_seen i).

(** * Operations *)

(** A routine that is still waiting for a drive has neither failed nor ended. *)
Definition wait_bind {S A B} (m : M S (option A)) (k : A → M S (option B)) : M S (option B) :=
  r ← m;
  match r with Some a => k a | None => mret None end.
Definition guarded {S A} (m : M S (option A)) (failed : exn → M S (option A)) (fin : M S unit)
    : M S (option A) := λ s,
  match m s with
  | (Ok None, s) => (Ok None, s)
  | (Ok (Some a), s) => try_finally (mret (Some a)) fin s
  | (Raise e, s) => try_finally (failed e) fin s
  end.

Section archive.
Context (str_of class_of : exn → string) (w : file_surroundings) (job_id : string).
Let safe_job_error : exn → string := Queue.safe_job_error str_of class_of.

Definition archive_tape_request (ty : tape_op_type) (bc : string) (drive slot : Z) : tape_op_request :=
  tape_request job_id "archive-job" ty bc drive slot.

(** ** The choice of a tape *)
Definition _has_room_for (bc : string) (size_bytes : Z) : M tape_job bool :=
  tape_op (key ← ensure_tape bc;
           tape ← index_tape key;
           mret (has_room_for (tp_capacity_bytes tape) (tp_used_bytes tape) size_bytes)).

Fixpoint first_with_room (bcs : list string) (size_bytes : Z) : M tape_job (option string) :=
  match bcs with
  | [] => mret None
  | bc :: bcs =>
      if _is_cleaning_barcode bc then first_with_room bcs size_bytes
      else
        room ← _has_room_for bc size_bytes;
        if (room : bool) then mret (Some bc) else first_with_room bcs size_bytes
  end.

Definition add_cartridge_op (bc : string) (vg : option string) : M tape_job cartridge_row :=
  uuid ← tick (w_uuid w);
  now ← tick (w_now w);
  catalog_op (Catalog.add_cartridge uuid now bc vg).

Definition assign_group (vg : string) (r : cartridge_row) : cartridge_row :=
  CartridgeRow (cr_id r) (cr_barcode r) (Some vg) (cr_library_id r) (cr_capacity_bytes r)
    (cr_used_bytes r) (cr_state r) (cr_formatted r) (cr_created_at r).

Definition is_exported (r : cartridge_row) : bool :=
  bool_decide (cr_state r = enum_value CartridgeState.EXPORTED).

Fixpoint first_free (vg : string) (bcs : list string) (size_bytes : Z) : M tape_job string :=
  match bcs with
  | [] => raise NoScratchMediaError
  | bc :: bcs =>
      if _is_cleaning_barcode bc then first_free vg bcs size_bytes
      else
        r ← add_cartridge_op bc None;
        if negb (bool_decide (cr_volume_group_id r ∈ [None; Some vg])) || is_exported r
        then first_free vg bcs size_bytes
        else
          room ← _has_room_for bc size_bytes;
          if (room : bool) then catalog_op (put_cartridge (assign_group vg r));; mret bc
          else first_free vg bcs size_bytes
  end.

Definition assigned_to (vg : string) (c : catalog) : list string :=
  cr_barcode <$> filter (λ r, cr_volume_group_id r = Some vg ∧ is_exported r = false) (list_cartridges c).

Definition _choose_tape (vg : string) (size_bytes : Z) : M tape_job string :=
  c ← gets tj_catalog;
  found ← first_with_room (assigned_to vg c) size_bytes;
  match found with
  | Some bc => mret bc
  | None =>
      inventory ← gets (λ s, inventory (lt_library (tj_ltfs s)));
      first_free vg (_inventory_barcodes inventory) size_bytes
  end.

(** ** Loads and unloads *)
Definition _load_if_needed (ref : nat) : M tape_job (Z * option Z) :=
  h ← handle_at ref;
  let barcode := dh_barcode h in
  loaded ← on_plant (ask (find_drive_by_barcode barcode));
  match loaded with
  | Some drive_id =>
      when (bool_decide (drive_id ≠ dh_drive_id h))
        (sched_op (modify (λ cs, (cs.1, update_handles (set_physical drive_id) [ref] cs.2))));;
      mret (drive_id, None)
  | None =>
      slot ← on_plant (ask (find_slot_by_barcode barcode));
      match slot with
      | None => raise NoScratchMediaError
      | Some slot_id =>
          try_except
            (request_op str_of w true (archive_tape_request TapeOpType.LOAD barcode (dh_drive_id h) slot_id))
            (λ e, raise (if bool_decide (e = TapeOperationFailedError) then NoScratchMediaError else e));;
          mret (dh_drive_id h, Some slot_id)
      end
  end.

(** The lease in force. *)
Definition current_lease : M state nat :=
  s ← getS;
  match ac_lease (fj_local s) with Some ref => mret ref | None => raise AssertionError end.

Definition verify_lease : M state unit :=
  ref ← current_lease;
  on_tapes (verify_handle w ref).

Definition release_current_lease : M state unit :=
  s ← getS;
  match ac_lease (fj_local s) with
  | None => mret tt
  | Some ref =>
      set_local (set_lease None);;
      h ← on_tapes (handle_at ref);
      now ← on_tapes (tick (w_now w));
      on_tapes (sched_op (release_drives now [ref]));;
      on_tapes (journal_op w job_id "lease_released" (lease_detail (dh_drive_id h) (dh_barcode h)))
  end.

Definition mark_archived (id : string) : M state unit :=
  now ← on_tapes (tick (w_now w));
  on_tapes (catalog_op (mark_instance_archived now id true)).

Definition unload_current (bc : string) (drive_id : Z) (slot : option Z) : M tape_job unit :=
  match slot with
  | Some slot_id => request_op str_of w false (archive_tape_request TapeOpType.UNLOAD bc drive_id slot_id)
  | None => mret tt
  end.

(** What the tape now holds, on the row of its cartridge. *)
Definition refreshed (t : tape) (slot : option Z) (r : cartridge_row) : cartridge_row :=
  CartridgeRow (cr_id r) (cr_barcode r) (cr_volume_group_id r) (cr_library_id r) (tp_capacity_bytes t)
    (tp_used_bytes t) (match slot with Some _ => "in_slot" | None => "in_drive" end) (tp_formatted t)
    (cr_created_at r).

Definition refresh_cartridge (vg bc : string) (slot : option Z) : M tape_job unit :=
  r ← add_cartridge_op bc (Some vg);
  t ← tape_op (key ← ensure_tape bc; index_tape key);
  catalog_op (put_cartridge (refreshed t slot r)).

Definition finalize_current_mount (vg : string) : M state unit :=
  s ← getS;
  let l := fj_local s in
  match ac_handle l, ac_barcode l, ac_drive l with
  | Some m, Some bc, Some drive_id =>
      verify_lease;;
      _ ← on_tapes (tape_op (Ltfs.unmount m));
      forM (ac_pending l) mark_archived;;
      set_local (set_pending []);;
      verify_lease;;
      on_tapes (unload_current bc drive_id (ac_slot l));;
      _mark_aml_drive_idle w bc drive_id (ac_slot l);;
      on_tapes (refresh_cartridge vg bc (ac_slot l));;
      set_local set_unmounted;;
      release_current_lease
  | _, _, _ => mret tt
  end.

(** ** One file *)
Definition switch_tape (vg selected : string) : M state (option unit) :=
  finalize_current_mount vg;;
  acquired ← on_tapes (acquire w [selected]);
  match acquired with
  | None => mret None
  | Some [] => raise LookupError
  | Some (ref :: _) =>
      set_local (set_lease (Some ref));;
      h ← on_tapes (handle_at ref);
      on_tapes (journal_op w job_id "lease_acquired" (lease_detail (dh_drive_id h) (dh_barcode h)));;
      loaded ← on_tapes (_load_if_needed ref);
      set_local (set_load loaded.1 loaded.2);;
      on_tapes (sched_op (record_physical_drives [ref]));;
      _mark_aml_drive_busy w selected loaded.1;;
      verify_lease;;
      uuid ← on_tapes (tick (w_uuid w));
      m ← on_tapes (tape_op (mount uuid selected MountMode.READ_WRITE));
      set_local (set_mounted selected m);;
      mret (Some tt)
  end.

Definition standard_fields : shard_fields := ShardFields (Some 1) None None (Some "standard") None.

Definition write_current (vg path : string) (f : source_file) : M state unit :=
  s ← getS;
  match ac_handle (fj_local s), ac_barcode (fj_local s) with
  | Some m, Some bc =>
      let checksum := sha256_hex (src_content f) in
      now ← on_tapes (tick (w_now w));
      _ ← on_tapes (tape_op (write_file now m (src_content f) (posix_path path)));
      record ← on_tapes (create_record w path (src_size f) checksum vg standard_fields);
      uuid ← on_tapes (tick (w_uuid w));
      now ← on_tapes (tick (w_now w));
      i ← on_tapes (catalog_op (create_file_instance uuid now (fl_id record) bc (posix_path path)));
      st ← on_tapes (tape_op (stat m (posix_path path)));
      raise_if (bool_decide (fs_checksum_sha256 st ≠ checksum) ||
                bool_decide (fs_size_bytes st ≠ src_size f)) ChecksumMismatchError;;
      set_local (count_file (fi_id i) (src_size f))
  | _, _ => raise AssertionError
  end.

Definition archive_file (vg path : string) (f : source_file) : M state (option unit) :=
  selected ← on_tapes (_choose_tape vg (src_size f));
  s ← getS;
  wait_bind
    (if bool_decide (ac_barcode (fj_local s) = Some selected) then mret (Some tt)
     else switch_tape vg selected)
    (λ _, write_current vg path f;; mret (Some tt)).

Fixpoint archive_files (vg : string) (files : list (string * source_file)) : M state (option unit) :=
  match files with
  | [] => mret (Some tt)
  | (path, f) :: files => wait_bind (archive_file vg path f) (λ _, archive_files vg files)
  end.

(** ** The job *)
Definition give_up_mount : M state unit :=
  s ← getS;
  let l := fj_local s in
  match ac_handle l with
  | Some m => _ ← attempt (on_tapes (tape_op (Ltfs.unmount m))); mret tt
  | None => mret tt
  end;;
  match ac_barcode l, ac_drive l with
  | Some bc, Some drive_id =>
      match ac_slot l with
      | Some _ => _ ← attempt (on_tapes (unload_current bc drive_id (ac_slot l))); mret tt
      | None => mret tt
      end;;
      _ ← attempt (_mark_aml_drive_idle w bc drive_id (ac_slot l));
      mret tt
  | _, _ => mret tt
  end.

Definition archive_failed (e : exn) : M state (option unit) :=
  when (negb (bool_decide (e = StaleLeaseError))) give_up_mount;;
  on_tapes (job_state_op w job_id "failed" (Some (safe_job_error e)));;
  raise e.

Definition complete (result : archive_result) : M state (option archive_result) :=
  on_tapes (job_state_op w job_id "completed" None);;
  mret (Some result).

Definition planned_files (rq : archive_request) (d : disk) : list (string * source_file) :=
  (λ f, (catalog_path_of rq d (src_path f), f)) <$> _iter_source_files (posix_path (aq_source_path rq)) d.

Definition volume_group (name : string) : M tape_job volume_group_row :=
  c ← gets tj_catalog;
  match get_volume_group name c with
  | Some g => mret g
  | None =>
      uuid ← tick (w_uuid w);
      now ← tick (w_now w);
      catalog_op (create_volume_group uuid now name)
  end.

(** [None]: still waiting for a drive. *)
Definition run_archive_job (rq : archive_request) : M state (option archive_result) :=
  on_tapes (job_state_op w job_id "running" None);;
  d ← gets fj_disk;
  let files := planned_files rq d in
  vg ← on_tapes (volume_group (aq_volume_group_name rq));
  if aq_dry_run rq then
    complete (ArchiveResult job_id (Z.of_nat (length files))
                (foldr Z.add 0 ((λ pf, src_size pf.2) <$> files)) [] [])
  else
    match files with
    | [] => complete (ArchiveResult job_id 0 0 [] [])
    | _ =>
        set_local (λ _, no_archive);;
        wait_bind
          (guarded
             (wait_bind (archive_files (vg_id vg) files)
                (λ _, finalize_current_mount (vg_id vg);; mret (Some tt)))
             archive_failed release_current_lease)
          (λ _, l ← gets fj_local;
                complete (ArchiveResult job_id (ac_files l) (ac_bytes l) (ac_tapes l) []))
    end.
End archive.

(** [ArchiveService.enqueue], with the identifier drawn for the job: a failure
    takes back the records that have nothing archived. *)
Definition enqueue (str_of class_of : exn → string) (w : file_surroundings) (rq : archive_request)
    : M state (option job_row) :=
  uuid ← on_tapes (tick (w_uuid w));
  now ← on_tapes (tick (w_now w));
  j ← on_tapes (catalog_op (Catalog.create_job uuid now "archive"
        [("source_path", JStr (posix_path (aq_source_path rq)));
         ("volume_group", JStr (aq_volume_group_name rq))]));
  wait_bind
    (try_except (run_archive_job str_of class_of w (jb_id j) rq)
       (λ e, d ← gets fj_disk;
             forM (planned_files rq d) (λ pf,
               on_tapes (catalog_op (delete_file_record_if_unarchived pf.1)));;
             raise e))
    (λ _, c ← gets fj_catalog;
          match get_job (jb_id j) c with Some j => mret (Some j) | None => raise AssertionError end).

(** * What the steps leave alone *)
Notation still_calm := (still ct_instances).

(** The locals that say what is mounted and what is pending. *)
Definition shape (l : archive_locals) :=
  (ac_handle l, ac_barcode l, ac_drive l, ac_pending l, ac_files l).

(** A part of the catalog that is neither of the cartridges nor of their groups. *)
Class Unshelved {B} (f : catalog → B) : Prop := {
  unshelved_cartridges : ∀ d c, f (with_cartridges d c) = f c;
  unshelved_groups : ∀ d c, f (with_volume_groups d c) = f c;
}.
#[export] Hint Extern 0 (Unshelved _) => apply _ : preserves.
#[export] Instance instances_unshelved : Unshelved ct_instances.
Proof. by split. Qed.
#[export] Instance files_unshelved : Unshelved ct_files.
Proof. by split. Qed.

Section frame.
Context (str_of class_of : exn → string) (w : file_surroundings) (job_id : string).
Context {B} (f : catalog → B) `{!Aside f, !Unshelved f}.
Notation quiet := (calm f).
Notation still_calm := (still f).

Lemma put_cartridge_kept r : preserves (eq_on f) (put_cartridge r).
Proof. apply preserves_modify. intros c. apply unshelved_cartridges. Qed.
Hint Resolve put_cartridge_kept : preserves.
Lemma put_cartridge_calm r : preserves quiet (catalog_op (put_cartridge r)).
Proof. apply catalog_op_calm. auto with preserves. Qed.
Lemma has_room_calm bc size : preserves quiet (_has_room_for bc size).
Proof. unfold _has_room_for. apply tape_op_calm. solve_preserves. Qed.
Lemma add_cartridge_calm bc vg : preserves quiet (add_cartridge_op w bc vg).
Proof.
  unfold add_cartridge_op. solve_preserves. apply catalog_op_calm. unfold Catalog.add_cartridge. solve_preserves.
Qed.
Lemma volume_group_calm name : preserves quiet (volume_group w name).
Proof.
  unfold volume_group. solve_preserves. apply catalog_op_calm. unfold create_volume_group. solve_preserves.
  apply preserves_modify. intros c. apply unshelved_groups.
Qed.
Hint Resolve put_cartridge_calm has_room_calm add_cartridge_calm volume_group_calm : preserves.

Lemma first_with_room_calm bcs size : preserves quiet (first_with_room bcs size).
Proof. induction bcs; simpl; solve_preserves. Qed.
Lemma first_free_calm vg bcs size : preserves quiet (first_free w vg bcs size).
Proof. induction bcs; simpl; solve_preserves. Qed.
Hint Resolve first_with_room_calm first_free_calm : preserves.
Lemma choose_tape_calm vg size : preserves quiet (_choose_tape w vg size).
Proof. unfold _choose_tape. solve_preserves. Qed.
Lemma load_if_needed_calm ref : preserves quiet (_load_if_needed str_of w job_id ref).
Proof.
  unfold _load_if_needed, archive_tape_request.
  solve_preserves; apply on_plant_calm; auto with preserves.
Qed.
Lemma unload_current_calm bc d slot : preserves quiet (unload_current str_of w job_id bc d slot).
Proof. unfold unload_current, archive_tape_request. solve_preserves. Qed.
Lemma refresh_calm vg bc slot : preserves quiet (refresh_cartridge w vg bc slot).
Proof. unfold refresh_cartridge. solve_preserves. apply tape_op_calm. solve_preserves. Qed.
Hint Resolve choose_tape_calm load_if_needed_calm unload_current_calm refresh_calm : preserves.

Context {C : Type} (g : archive_locals → C).
Lemma lease_still : preserves (still_calm g) current_lease.
Proof. unfold current_lease. solve_preserves. Qed.
Hint Resolve lease_still : preserves.
Lemma verify_lease_still : preserves (still_calm g) (verify_lease w).
Proof. unfold verify_lease. solve_preserves. Qed.
Lemma release_lease_still :
  (∀ r l, g (set_lease r l) = g l) → preserves (still_calm g) (release_current_lease w job_id).
Proof. intros Hg. unfold release_current_lease. solve_preserves. by apply set_local_still. Qed.
Lemma unmount_still m : preserves (still_calm g) (on_tapes (tape_op (Ltfs.unmount m))).
Proof. apply on_tapes_still, tape_op_calm. auto with preserves. Qed.
Hint Resolve verify_lease_still unmount_still : preserves.
Lemma give_up_still : preserves (still_calm g) (give_up_mount str_of w job_id).
Proof. unfold give_up_mount. solve_preserves. Qed.
End frame.
#[export] Hint Resolve choose_tape_calm load_if_needed_calm unload_current_calm refresh_calm
  volume_group_calm lease_still verify_lease_still unmount_still give_up_still : preserves.

(** * The records of other files *)
Section other_files.
Context (str_of class_of : exn → string) (w : file_surroundings) (job_id : string).
Context `{!Inj (=) (=) (w_uuid w)} (ps : list string).

Definition filing (s s' : state) : Prop := recording w ps (fj_job s) (fj_job s').
#[local] Instance filing_preorder : PreOrder filing.
Proof. split; [by intros s; unfold filing|]. intros s1 s2 s3. unfold filing. apply transitivity. Qed.

Lemma still_filing {A} (m : M state A) : preserves (still ct_files (λ _, ())) m → preserves filing m.
Proof. apply preserves_impl. intros s s' [H _ _]. by apply recording_calm. Qed.
Lemma on_tapes_filing {A} (m : M tape_job A) : preserves (recording w ps) m → preserves filing (on_tapes m).
Proof. intros Hm. apply (preserves_zoom _ (recording w ps)); [done|]. by intros s j Hj. Qed.
Lemma set_local_filing h : preserves filing (set_local h).
Proof. by apply preserves_modify. Qed.
Hint Resolve still_filing on_tapes_filing set_local_filing tape_op_recording : preserves.

Lemma mark_archived_filing id : preserves filing (mark_archived w id).
Proof.
  unfold mark_archived. solve_preserves. apply on_tapes_filing, catalog_recording.
  unfold mark_instance_archived, put_instance.
  assert (preserves (eq_on ct_files) (get_instance id)) by (intros c; unfold get_instance; by case_match).
  solve_preserves.
Qed.
Hint Resolve mark_archived_filing : preserves.

Lemma finalize_filing vg : preserves filing (finalize_current_mount str_of w job_id vg).
Proof. unfold finalize_current_mount, release_current_lease. solve_preserves. Qed.
Hint Resolve finalize_filing : preserves.
Lemma switch_tape_filing vg selected : preserves filing (switch_tape str_of w job_id vg selected).
Proof. unfold switch_tape. solve_preserves. Qed.
Hint Resolve switch_tape_filing : preserves.

Lemma archive_files_filing vg files :
  (λ pf, posix_path pf.1) <$> files ⊆ ps → preserves filing (archive_files str_of w job_id vg files).
Proof.
  induction files as [|[path f] files IH]; intros Hps; simpl; [solve_preserves|].
  assert (∀ size sum sf, preserves filing (on_tapes (create_record w path size sum vg sf))) as Hrec.
  { intros. apply on_tapes_filing, create_record_recording; [done|]. apply Hps. by left. }
  assert (∀ uuid now file bc, preserves filing (on_tapes (catalog_op (create_file_instance uuid now file bc (posix_path path))))).
  { intros. apply on_tapes_filing, catalog_recording. unfold create_file_instance, put_instance. solve_preserves. }
  assert (preserves filing (archive_files str_of w job_id vg files)) by (apply IH; set_solver).
  unfold archive_file, write_current, wait_bind. solve_preserves.
Qed.
Hint Resolve archive_files_filing : preserves.

Lemma archive_failed_filing e : preserves filing (archive_failed str_of class_of w job_id e).
Proof. unfold archive_failed. solve_preserves. Qed.
Lemma preserves_guarded {S A} (R : relation S) `{!PreOrder R} (m : M S (option A)) failed fin :
  preserves R m → (∀ e, preserves R (failed e)) → preserves R fin → preserves R (guarded m failed fin).
Proof.
  intros Hm Hf Hfin s. unfold guarded. pose proof (Hm s) as H. destruct (m s) as [[[a|]|e] s']; simpl in H; [|done|].
  - etrans; [exact H|]. apply preserves_try_finally; [apply _ | apply preserves_ret; apply _ | done].
  - etrans; [exact H|]. apply preserves_try_finally; [apply _ | done..].
Qed.

Lemma run_archive_filing rq s :
  (λ pf, posix_path pf.1) <$> planned_files rq (fj_disk s) ⊆ ps →
  filing s (run_archive_job str_of class_of w job_id rq s).2.
Proof.
  intros Hps. apply wp_state. unfold run_archive_job.
  apply (wp_bind_preserves (still ct_files (λ _, ()))) with (s0 := s); [auto with preserves | done | |].
  { intros e s1 [H1 _ _]. by apply recording_calm. }
  intros _ s1 H1. do 2 wp_step. rewrite (st_disk H1). cbv zeta.
  assert (∀ e, preserves filing (archive_failed str_of class_of w job_id e)) as Hfail by apply archive_failed_filing.
  assert (preserves filing (release_current_lease w job_id)) as Hrel by (unfold release_current_lease; solve_preserves).
  assert (∀ vg, preserves filing (guarded (wait_bind (archive_files str_of w job_id vg (planned_files rq (fj_disk s)))
    (λ _, finalize_current_mount str_of w job_id vg;; mret (Some tt)))
    (archive_failed str_of class_of w job_id) (release_current_lease w job_id))) as Hguard.
  { intros vg. apply preserves_guarded; [apply _| |done..]. unfold wait_bind. solve_preserves. }
  destruct H1 as [H1 _ _]. apply (recording_calm w ps) in H1. fold (filing s s1) in H1.
  match goal with |- wp ?m _ _ _ => assert (preserves filing m) as Hm end.
  { unfold complete, wait_bind at 1. solve_preserves. }
  eapply wp_mono; [by apply (wp_preserves filing)| |]; cbn beta; intros ? s2 H2; by etrans.
Qed.
End other_files.

(** * Durability *)
Section durable.
Context (str_of class_of : exn → string) (w : file_surroundings) (job_id vg : string).
Context `{!Inj (=) (=) (w_uuid w)}.
Context (files : list (string * source_file)) (s0 : state) (Hstart : inst_ok w (fj_job s0)).
Notation quiet := (calm ct_instances).

(** A file at its path, on some tape. *)
Definition file_lane (bc : string) (pf : string * source_file) : lane_plan :=
  LanePlan bc pf.1 (src_content pf.2) (sha256_hex (src_content pf.2)).
Definition lane_for (pf : string * source_file) (l : lane_plan) : Prop := ∃ bc, l = file_lane bc pf.

(** What holds whatever fails: the files written so far are on their tapes, no
    instance archived before is lost or changed, every new one is of a file that
    is on its tape, and no tape changes elsewhere. *)
Record safe (ws : list lane_plan) (s : state) : Prop := {
  sf_inst : inst_ok w (fj_job s);
  sf_tick : (tj_tick (fj_job s0) ≤ tj_tick (fj_job s))%nat;
  sf_lanes : ∀ l, l ∈ ws → ∃ pf, pf ∈ files ∧ lane_for pf l;
  sf_on : Forall (on_tape (tj_ltfs (fj_job s))) ws;
  sf_old : ∀ id r, archived_in (fj_catalog s0) id r → archived_in (fj_catalog s) id r;
  sf_new : ∀ id r, archived_in (fj_catalog s) id r →
    archived_in (fj_catalog s0) id r ∨ ∃ l, l ∈ ws ∧ row_of l r;
  sf_elsewhere : ∀ b p, p ∉ (λ pf, posix_path pf.1) <$> files →
    content_at (tj_ltfs (fj_job s)) b p = content_at (tj_ltfs (fj_job s0)) b p;
}.

(** The rows of the files written: archived, or pending, and those are new. *)
Record rows_ok (ws : list lane_plan) (pending : list string) (s : state) : Prop := {
  ro_lanes : ∀ l, l ∈ ws → ∃ id r, dget (ct_instances (fj_catalog s)) id = Some r ∧ row_of l r ∧
    (fi_state r ∈ archived_states ∨ id ∈ pending);
  ro_pending : ∀ id, id ∈ pending → ∃ l r, l ∈ ws ∧ row_of l r ∧
    dget (ct_instances (fj_catalog s)) id = Some r ∧ dget (ct_instances (fj_catalog s0)) id = None;
}.

Definition mount_known (l : archive_locals) : Prop :=
  match ac_handle l with
  | None => ac_barcode l = None ∧ ac_pending l = []
  | Some m => ∃ bc d, ac_barcode l = Some bc ∧ ac_drive l = Some d ∧ Barcode bc = Ok (mh_barcode m)
  end.
Record tracked (ws : list lane_plan) (s : state) : Prop := {
  tr_safe : safe ws s;
  tr_rows : rows_ok ws (ac_pending (fj_local s)) s;
  tr_mount : mount_known (fj_local s);
  tr_files : ac_files (fj_local s) = Z.of_nat (length ws);
}.

Lemma safe_quiet ws s s' : quiet (fj_job s) (fj_job s') → safe ws s → safe ws s'.
Proof.
  intros Hq [H1 H2 H3 H4 H5 H6 H7]. destruct (quiet_inst w _ _ Hq H1) as [Hok Hsame].
  pose proof (q_content _ _ Hq) as Hc. pose proof (q_tick _ _ Hq). split; try done.
  - lia.
  - eapply Forall_impl; [exact H4|]. intros l Hl. unfold on_tape. by rewrite (Hc _ _).
  - intros id r Hr. by apply Hsame, H5.
  - intros id r Hr%Hsame. by apply H6.
  - intros b p Hp. by rewrite (Hc b p), H7.
Qed.
Lemma rows_quiet ws pending s s' :
  quiet (fj_job s) (fj_job s') → rows_ok ws pending s → rows_ok ws pending s'.
Proof. intros Hq [H1 H2]. pose proof (q_catalog _ _ Hq) as Hi. by split; unfold fj_catalog; rewrite Hi. Qed.

Lemma safe_still {C} (g : archive_locals → C) ws s s' : still_calm g s s' → safe ws s → safe ws s'.
Proof. intros [Hq _ _]. by apply safe_quiet. Qed.
Lemma tracked_still ws s s' : still_calm shape s s' → tracked ws s → tracked ws s'.
Proof.
  intros [Hq _ Hl] [H1 H2 H3 H4]. injection Hl as Hh Hb Hd Hp Hf. split.
  - by eapply safe_quiet.
  - rewrite Hp. by eapply rows_quiet.
  - unfold mount_known in *. by rewrite Hh, Hb, Hd, Hp.
  - by rewrite Hf.
Qed.

(** A step of a routine on the way to [tracked]. *)
Lemma wp_tracked {A B} (m : M state A) (k : A → M state B) (Q : B → state → Prop) ws s s1 :
  preserves (still_calm shape) m → still_calm shape s s1 → safe ws s →
  (∀ a s', still_calm shape s s' → wp (k a) Q (λ _, safe ws) s') →
  wp (m ≫= k) Q (λ _, safe ws) s1.
Proof.
  intros Hm H1 Hs Hk. apply (wp_bind_preserves (still_calm shape)) with (s0 := s); [done..| |done].
  intros e s' H'. by eapply safe_still.
Qed.

(** ** Marking *)
Lemma wp_mark_instance now id c (Q : () → catalog → Prop) (E : exn → catalog → Prop) :
  (∀ r, dget (ct_instances c) id = Some r →
     Q tt (with_instances (dset (ct_instances c) (fi_id r) (archived_instance now true r)) c)) →
  (∀ e, E e c) → wp (mark_instance_archived now id true) Q E c.
Proof.
  intros HQ HE. unfold mark_instance_archived, get_instance, put_instance. wp_step. apply wp_unfold.
  destruct (dget (ct_instances c) id) as [r|] eqn:Hr; [|by apply HE]. wp_step. exact (HQ r eq_refl).
Qed.

Lemma mark_archived_spec ws id pending s :
  safe ws s → rows_ok ws (id :: pending) s →
  wp (mark_archived w id) (λ _ s', safe ws s' ∧ rows_ok ws pending s' ∧ fj_local s' = fj_local s)
    (λ _ s', safe ws s') s.
Proof.
  intros Hs [R1 R2]. destruct (R2 id) as (l & r & Hl & Hrow & Hr & Hfresh); [by left|].
  unfold mark_archived. wp_step. apply wp_on_tapes, wp_tick. apply wp_on_tapes, catalog_op_state.
  set (now := w_now w _). apply wp_mark_instance.
  2: { intros e. eapply safe_quiet; [|exact Hs]. split; simpl; done || lia. }
  change (tj_catalog _) with (fj_catalog s) at 1. intros r' Hr'.
  assert (r' = r) as -> by (change (dget (ct_instances (fj_catalog s)) id = Some r') in Hr'; congruence).
  clear Hr'. set (s' := with_tapes _ _). destruct Hs as [S1 S2 S3 S4 S5 S6 S7].
  assert (fi_id r = id) as Hid by by eapply S1.
  assert (ct_instances (fj_catalog s') = dset (ct_instances (fj_catalog s)) id (archived_instance now true r))
    as Hi by (unfold s', fj_catalog, tj_catalog; simpl; by rewrite Hid).
  assert (∀ id' r', dget (ct_instances (fj_catalog s')) id' = Some r' →
    id' = id ∧ r' = archived_instance now true r ∨ id' ≠ id ∧ dget (ct_instances (fj_catalog s)) id' = Some r') as Hget.
  { intros id' r'. rewrite Hi, dget_dset. case_decide; [intros [= <-]; by left | by right]. }
  split; [|split; [|done]].
  - split; try done.
    + destruct S1 as [[W1 W2] W3]. split; [split|]; change (tj_catalog (fj_job s')) with (fj_catalog s').
      * rewrite Hi. by apply dict_wf_dset.
      * intros id' r' [[-> ->]|[_ Hr']]%Hget; [done | by apply W2].
      * intros n Hn. assert (dget (ct_instances (fj_catalog s)) (w_uuid w n) = None) as Hnone
          by (apply W3; simpl in Hn; lia). rewrite Hi, dget_dset_ne; [done | congruence].
    + simpl. lia.
    + intros id' r' Hr0. destruct (S5 id' r' Hr0) as [Hr1 Hst]. split; [|done]. rewrite Hi, dget_dset_ne; [done|].
      intros <-. destruct Hr0 as [Hr0 _]. congruence.
    + intros id' r' [[[-> ->]|[_ Hr']]%Hget Hst]; [right; by exists l | by apply S6].
  - split.
    + intros l' Hl'. destruct (R1 l' Hl') as (id' & r' & Hr' & Hrow' & Hst).
      destruct (decide (id' = id)) as [->|Hne].
      * assert (r' = r) as -> by congruence. exists id, (archived_instance now true r).
        rewrite Hi, dget_dset_eq. split_and!; [done..|]. left. by left.
      * exists id', r'. rewrite Hi, dget_dset_ne by done. split_and!; [done..|].
        destruct Hst as [?|[?|?]%elem_of_cons]; [by left | done | by right].
    + intros id' Hid'. destruct (R2 id') as (l' & r' & Hl' & Hrow' & Hr' & Hn); [by right|].
      destruct (decide (id' = id)) as [->|Hne].
      * exists l, (archived_instance now true r). rewrite Hi, dget_dset_eq. by split_and!.
      * exists l', r'. rewrite Hi, dget_dset_ne by done. by split_and!.
Qed.

Lemma mark_all_spec ws ids s :
  safe ws s → rows_ok ws ids s →
  wp (forM ids (mark_archived w)) (λ _ s', safe ws s' ∧ rows_ok ws [] s' ∧ fj_local s' = fj_local s)
    (λ _ s', safe ws s') s.
Proof.
  revert s. induction ids as [|id ids IH]; intros s Hs Hr; simpl; [by wp_step|].
  wp_step. eapply wp_mono; [by apply mark_archived_spec| |done]. cbn beta. intros _ s1 (Hs1 & Hr1 & Hl1).
  eapply wp_mono; [by apply IH| |done]. cbn beta. intros _ s2 (Hs2 & Hr2 & Hl2). by rewrite <-Hl1.
Qed.

(** ** A mount ends *)
Notation Finalize := (finalize_current_mount str_of w job_id vg).

Lemma set_unmounted_tracked ws s :
  safe ws s → rows_ok ws [] s → ac_pending (fj_local s) = [] → ac_files (fj_local s) = Z.of_nat (length ws) →
  tracked ws (with_local (set_unmounted (fj_local s)) s).
Proof.
  intros Hs Hr Hp Hf. split; [by apply (safe_quiet ws s) | | split; done | done].
  simpl. rewrite Hp. eapply rows_quiet; [|exact Hr]. done.
Qed.

Lemma finalize_spec ws s :
  tracked ws s →
  wp Finalize (λ _ s', tracked ws s' ∧ ac_handle (fj_local s') = None) (λ _ s', safe ws s') s.
Proof.
  intros [Hs Hr Hm Hf]. unfold finalize_current_mount. do 2 wp_step. unfold mount_known in Hm.
  destruct (ac_handle (fj_local s)) as [m|] eqn:Hh.
  2: { wp_step. split; [|done]. split; [done..| |done]. unfold mount_known. by rewrite Hh. }
  destruct Hm as (bc & d & Hb & Hd & Hbc). rewrite Hb, Hd.
  apply (wp_tracked _ _ _ ws s); [auto with preserves | done | done |]. intros _ s1 H1.
  apply (wp_tracked _ _ _ ws s); [auto with preserves | done | done |]. intros _ s2 H2.
  pose proof (safe_still _ _ _ _ H2 Hs) as Hs2.
  assert (rows_ok ws (ac_pending (fj_local s)) s2) as Hr2 by (eapply rows_quiet; [apply H2 | done]).
  wp_step. eapply wp_mono; [by apply mark_all_spec| |done]. cbn beta. intros _ s3 (Hs3 & Hr3 & Hl3).
  wp_step. apply wp_set_local. set (s4 := with_local _ s3).
  assert (safe ws s4) as Hs4 by by apply (safe_quiet ws s3).
  assert (rows_ok ws [] s4) as Hr4 by (eapply rows_quiet; [|exact Hr3]; done).
  assert (shape (fj_local s4) = (Some m, Some bc, Some d, [], Z.of_nat (length ws))) as Hsh.
  { unfold s4. simpl. rewrite Hl3. destruct H2 as [_ _ H2]. injection H2 as E1 E2 E3 E4 E5.
    unfold shape. simpl. congruence. }
  apply (wp_tracked _ _ _ ws s4); [auto with preserves | done | done |]. intros _ s5 H5.
  apply (wp_tracked _ _ _ ws s4); [auto with preserves | done | done |]. intros _ s6 H6.
  apply (wp_tracked _ _ _ ws s4); [auto with preserves | done | done |]. intros _ s7 H7.
  apply (wp_tracked _ _ _ ws s4); [auto with preserves | done | done |]. intros _ s8 H8.
  assert (shape (fj_local s8) = (Some m, Some bc, Some d, [], Z.of_nat (length ws))) as Hsh8
    by by rewrite (st_local H8).
  injection Hsh8 as E1 E2 E3 E4 E5.
  wp_step. apply wp_set_local. set (s9 := with_local _ s8).
  assert (tracked ws s9) as H9.
  { apply set_unmounted_tracked; [by eapply safe_still | eapply rows_quiet; [apply H8|done] | done | done]. }
  eapply wp_mono; [by apply (wp_preserves (still_calm shape)), release_lease_still| |]; cbn beta.
  - intros _ s10 H10. split; [by eapply tracked_still|]. destruct H10 as [_ _ H10]. by injection H10 as -> _ _ _ _.
  - intros e s10 H10. eapply safe_still; [exact H10 | apply H9].
Qed.

(** ** A file *)

(** A write at a path of the job that no file was written to before. *)
Lemma safe_written ws s s' b p :
  safe ws s → tj_catalog (fj_job s') = tj_catalog (fj_job s) →
  (tj_tick (fj_job s) ≤ tj_tick (fj_job s'))%nat →
  (∀ b' p', ¬ (b' = b ∧ p' = p) →
     content_at (tj_ltfs (fj_job s')) b' p' = content_at (tj_ltfs (fj_job s)) b' p') →
  p ∈ (λ pf, posix_path pf.1) <$> files → p ∉ (λ l, posix_path (ln_path l)) <$> ws → safe ws s'.
Proof.
  intros [[S1 S1'] S2 S3 S4 S5 S6 S7] Hc Ht Hother Hp Hnew. split; unfold fj_catalog in *; rewrite ?Hc; try done.
  - split; rewrite Hc; [done|]. intros n Hn. apply S1'. lia.
  - lia.
  - rewrite Forall_forall in S4. apply Forall_forall. intros l Hl. unfold on_tape. rewrite Hother; [by apply S4|].
    intros [_ Heq]. apply Hnew. rewrite <-Heq. exact (list_elem_of_fmap_2 (λ l, posix_path (ln_path l)) _ _ Hl).
  - intros b' p' Hp'. rewrite Hother; [by apply S7|]. intros [_ ->]. by apply Hp'.
Qed.

Lemma safe_snoc ws l pf s :
  safe ws s → pf ∈ files → lane_for pf l → on_tape (tj_ltfs (fj_job s)) l → safe (ws ++ [l]) s.
Proof.
  intros [S1 S2 S3 S4 S5 S6 S7] Hpf Hl Hon. split; try done.
  - intros l' [Hl'|Hl'%list_elem_of_singleton]%elem_of_app; [by apply S3 | subst l'; by exists pf].
  - apply Forall_app. split; [done|]. by constructor; [|constructor].
  - intros id r Hr. destruct (S6 id r Hr) as [?|(l' & Hl' & Hrow)]; [by left|]. right. exists l'.
    split; [|done]. apply elem_of_app. by left.
Qed.

(** A pending instance of the file. *)
Lemma instance_spec ws uuid now file bc path s s1 :
  safe ws s → still_calm shape s s1 →
  uuid = w_uuid w (tj_tick (fj_job s)) → (tj_tick (fj_job s) < tj_tick (fj_job s1))%nat →
  wp (on_tapes (catalog_op (create_file_instance uuid now file bc path)))
    (λ i s2, safe ws s2 ∧ fj_local s2 = fj_local s1 ∧ same_content (tj_ltfs (fj_job s1)) (tj_ltfs (fj_job s2)) ∧
       dget (ct_instances (fj_catalog s)) (fi_id i) = None ∧ dget (ct_instances (fj_catalog s0)) (fi_id i) = None ∧
       fi_barcode i = bc ∧ fi_tape_path i = posix_path path ∧
       ct_instances (fj_catalog s2) = dset (ct_instances (fj_catalog s)) (fi_id i) i)
    (λ _ s2, safe ws s2) s1.
Proof.
  intros Hs H1 -> Ht. set (uuid := w_uuid w _).
  assert (dget (ct_instances (fj_catalog s)) uuid = None) as Hnone by (apply Hs; lia).
  pose proof (safe_still _ _ _ _ H1 Hs) as Hs1. pose proof (q_catalog _ _ (st_calm H1)) as Hi1.
  apply wp_on_tapes, catalog_op_state. unfold create_file_instance, put_instance. do 3 wp_step.
  match goal with |- context [safe ws ?x] => set (s2 := x) end.
  match goal with |- context [fi_id ?x] => set (i := x) end.
  assert (ct_instances (fj_catalog s2) = dset (ct_instances (fj_catalog s)) uuid i) as Hi2
    by (unfold s2, fj_catalog, tj_catalog; simpl; unfold fj_catalog, tj_catalog in Hi1; simpl in Hi1; by rewrite Hi1).
  assert (∀ id r, archived_in (fj_catalog s2) id r ↔ archived_in (fj_catalog s) id r) as Hsame.
  { intros id r. unfold archived_in. rewrite Hi2, dget_dset. case_decide as Hid; [|done]. subst id.
    rewrite Hnone. split; [|by intros []]. intros [[= <-] Ha]. exfalso. by vm_compute in Ha; set_solver. }
  assert (dget (ct_instances (fj_catalog s0)) uuid = None) as Hnone0.
  { apply Hstart. apply Hs. }
  split; [|by split_and!].
  destruct Hs as [S1 S2 S3 S4 S5 S6 S7], Hs1 as [T1 T2 T3 T4 T5 T6 T7]. split; try done.
  - eapply (inst_ok_dset w (fj_job s) (fj_job s2) uuid i); [done..| |exact Hi2].
    exists (tj_tick (fj_job s)). split; [|done]. simpl. lia.
  - intros id r Hr. apply Hsame. by apply S5.
  - intros id r Hr%Hsame. by apply S6.
Qed.

Lemma rows_snoc ws l pending i s s' :
  rows_ok ws pending s → row_of l i → dget (ct_instances (fj_catalog s)) (fi_id i) = None →
  dget (ct_instances (fj_catalog s0)) (fi_id i) = None →
  ct_instances (fj_catalog s') = dset (ct_instances (fj_catalog s)) (fi_id i) i →
  rows_ok (ws ++ [l]) (pending ++ [fi_id i]) s'.
Proof.
  intros [R1 R2] Hrow Hnone Hnone0 Hi. split.
  - intros l' [Hl'|Hl'%list_elem_of_singleton]%elem_of_app.
    + destruct (R1 l' Hl') as (id & r & Hr & Hrow' & Hst). exists id, r.
      rewrite Hi, dget_dset_ne by congruence. split_and!; [done..|].
      destruct Hst; [by left | right; apply elem_of_app; by left].
    + subst l'. exists (fi_id i), i. rewrite Hi, dget_dset_eq. split_and!; [done..|].
      right. apply elem_of_app. right. by left.
  - intros id [Hid|Hid%list_elem_of_singleton]%elem_of_app.
    + destruct (R2 id Hid) as (l' & r & Hl' & Hrow' & Hr & Hn). exists l', r.
      rewrite Hi, dget_dset_ne by congruence. split_and!; try done. apply elem_of_app. by left.
    + subst id. exists l, i. rewrite Hi, dget_dset_eq. split_and!; try done.
      apply elem_of_app. right. by left.
Qed.

Lemma write_current_spec ws pf s :
  tracked ws s → ac_handle (fj_local s) ≠ None → pf ∈ files →
  posix_path pf.1 ∉ (λ l, posix_path (ln_path l)) <$> ws →
  wp (write_current w vg pf.1 pf.2) (λ _ s', ∃ l, lane_for pf l ∧ tracked (ws ++ [l]) s') (λ _ s', safe ws s') s.
Proof.
  intros [Hs Hr Hm Hf] Hh Hpf Hnew. unfold write_current. do 2 wp_step. unfold mount_known in Hm.
  destruct (ac_handle (fj_local s)) as [m|] eqn:Hhm; [|done]. destruct Hm as (bc & d & Hb & Hd & Hbc).
  rewrite Hb. wp_step. apply wp_on_tapes, wp_tick. set (s1 := with_tapes _ s).
  assert (Barcode (mh_barcode m) = Ok (upper bc)) as Hkey.
  { rewrite (Barcode_idemp _ _ Hbc). f_equal. by apply Barcode_valid in Hbc as [_ ->]. }
  assert (posix_path pf.1 ∈ (λ pf : string * source_file, posix_path pf.1) <$> files) as Hin
    by exact (list_elem_of_fmap_2 (λ pf : string * source_file, posix_path pf.1) _ _ Hpf).
  set (l := file_lane bc pf). assert (lane_for pf l) as Hlane by by exists bc.
  wp_step. apply wp_on_tapes. unfold tape_op at 1, on_plant, on_ltfs. do 2 wp_step.
  unfold write_file, write_bytes. do 2 wp_step.
  eapply wp_mono; [apply (write_content _ _ _ _ _ _ _ _ Hkey)| |]; cbn beta.
  2: { intros e t Ht. apply (safe_written ws s _ (upper bc) (posix_path pf.1)); try done. simpl. lia. }
  intros inst t Ht. wp_step. match goal with |- wp _ _ _ ?x => set (s2 := x) end.
  assert (safe ws s2) as Hs2.
  { apply (safe_written ws s _ (upper bc) (posix_path pf.1)); try done; [simpl; lia|].
    intros b' p' Hne. unfold s2, tj_ltfs. simpl. rewrite Ht. by rewrite decide_False. }
  assert (on_tape (tj_ltfs (fj_job s2)) l) as Hon2.
  { unfold on_tape, s2, tj_ltfs. simpl. rewrite Ht. by rewrite decide_True. }
  assert (rows_ok ws (ac_pending (fj_local s)) s2) as Hr2 by by destruct Hr; split.
  apply (wp_tracked _ _ _ ws s2); [auto using create_record_quiet with preserves | done | done |]. intros rec s3 H3.
  wp_step. apply wp_on_tapes, wp_tick. wp_step. apply wp_on_tapes, wp_tick.
  match goal with |- wp _ _ _ ?x => set (s4 := x) end.
  wp_step. eapply wp_mono; [apply (instance_spec ws _ _ _ _ _ s3 s4)| |]; cbn beta.
  - by eapply safe_still.
  - split; [split; simpl; done || lia | done..].
  - done.
  - simpl. lia.
  - intros i s5 (Hs5 & Hl5 & Hc5 & Hn & Hn0 & Hib & Hip & Hi5).
    assert (rows_ok ws (ac_pending (fj_local s)) s3) as Hr3 by (eapply rows_quiet; [apply H3 | done]).
    assert (rows_ok (ws ++ [l]) (ac_pending (fj_local s) ++ [fi_id i]) s5) as Hr5.
    { eapply rows_snoc; [exact Hr3 | | done..]. split; [done|].
      rewrite Hip. unfold l. simpl. apply posix_path_idemp. }
    assert (on_tape (tj_ltfs (fj_job s5)) l) as Hon5.
    { unfold on_tape. rewrite (Hc5 _ _). change (tj_ltfs (fj_job s4)) with (tj_ltfs (fj_job s3)).
      rewrite (q_content _ _ (st_calm H3) _ _). exact Hon2. }
    apply (wp_tracked _ _ _ ws s5); [|done|done|].
    { apply on_tapes_still, tape_op_calm. auto with preserves. }
    intros st s6 H6. wp_step. wp_step; [by eapply safe_still|]. apply wp_set_local.
    match goal with |- context [tracked _ ?x] => set (s7 := x) end.
    assert (fj_local s5 = fj_local s3) as Hl53 by by rewrite Hl5.
    assert (shape (fj_local s6) = shape (fj_local s)) as Hsh.
    { rewrite (st_local H6), Hl53, (st_local H3). done. }
    injection Hsh as E1 E2 E3 E4 E5. exists l. split; [done|]. split.
    + eapply safe_snoc; [|done..|]; [by apply (safe_quiet ws s6); [done | eapply safe_still]|].
      unfold on_tape. change (tj_ltfs (fj_job s7)) with (tj_ltfs (fj_job s6)).
      rewrite (q_content _ _ (st_calm H6) _ _). exact Hon5.
    + simpl. rewrite E4. eapply rows_quiet; [|exact Hr5]. apply H6.
    + unfold mount_known. simpl. rewrite E1, Hhm, E2, E3. by exists bc, d.
    + simpl. rewrite E5, Hf, length_app. simpl. lia.
  - done.
Qed.

(** Nothing is mounted yet; a drive may be loaded. *)
Definition idle_shape (l : archive_locals) := (ac_handle l, ac_barcode l, ac_pending l, ac_files l).
Definition idle (ws : list lane_plan) (s : state) : Prop :=
  safe ws s ∧ rows_ok ws [] s ∧ idle_shape (fj_local s) = (None, None, [], Z.of_nat (length ws)).

Lemma tracked_idle ws s : tracked ws s → ac_handle (fj_local s) = None → idle ws s.
Proof.
  intros [H1 H2 H3 H4] Hh. unfold mount_known in H3. rewrite Hh in H3. destruct H3 as [Hb Hp].
  split; [done|]. rewrite Hp in H2. split; [done|]. unfold idle_shape. congruence.
Qed.
Lemma idle_still ws s s' : still_calm idle_shape s s' → idle ws s → idle ws s'.
Proof.
  intros H (H1 & H2 & H3). split; [by eapply safe_still|]. split; [eapply rows_quiet; [apply H | done]|].
  by rewrite (st_local H).
Qed.

Lemma wp_idle {A B} (m : M state A) (k : A → M state B) (Q : B → state → Prop) ws s s1 :
  preserves (still_calm idle_shape) m → still_calm idle_shape s s1 → safe ws s →
  (∀ a s', still_calm idle_shape s s' → wp (k a) Q (λ _, safe ws) s') →
  wp (m ≫= k) Q (λ _, safe ws) s1.
Proof.
  intros Hm H1 Hs Hk. apply (wp_bind_preserves (still_calm idle_shape)) with (s0 := s); [done..| |done].
  intros e s' H'. by eapply safe_still.
Qed.

Lemma switch_tape_spec ws selected s :
  tracked ws s →
  wp (switch_tape str_of w job_id vg selected)
    (λ r s', match r with
             | Some _ => tracked ws s' ∧ ac_handle (fj_local s') ≠ None
             | None => safe ws s'
             end) (λ _ s', safe ws s') s.
Proof.
  intros Ht. unfold switch_tape. wp_step. eapply wp_mono; [by apply finalize_spec| |done]. cbn beta.
  intros _ s1 [Ht1 Hh1]. pose proof (tracked_idle _ _ Ht1 Hh1) as H1. clear Ht1 Hh1. pose proof (proj1 H1) as Hs1.
  apply (wp_idle _ _ _ ws s1); [auto with preserves | done | done |]. intros [[|ref refs]|] s2 H2.
  1: by wp_step; eapply safe_still.
  2: by wp_step; eapply safe_still.
  apply (wp_idle _ _ _ ws s1); [by apply set_local_still | done | done |]. intros _ s3 H3.
  apply (wp_idle _ _ _ ws s1); [auto with preserves | done | done |]. intros h s4 H4.
  apply (wp_idle _ _ _ ws s1); [auto with preserves | done | done |]. intros _ s5 H5.
  apply (wp_idle _ _ _ ws s1); [auto with preserves | done | done |]. intros [d slot] s6 H6. simpl.
  wp_step. apply wp_set_local. set (s7 := with_local _ s6).
  assert (idle ws s7) as (Hs7 & Hr7 & Hl7) by (apply (idle_still ws s1); [by destruct H6; split | done]).
  assert (ac_drive (fj_local s7) = Some d) as Hd7 by done.
  apply (wp_tracked _ _ _ ws s7); [auto with preserves | done | done |]. intros _ s8 H8.
  apply (wp_tracked _ _ _ ws s7); [auto with preserves | done | done |]. intros _ s9 H9.
  apply (wp_tracked _ _ _ ws s7); [auto with preserves | done | done |]. intros _ s10 H10.
  apply (wp_tracked _ _ _ ws s7); [auto with preserves | done | done |]. intros uuid s11 H11.
  wp_step. eapply wp_mono; [apply (wp_mounted ct_instances shape)| |]; cbn beta.
  2: { intros e s12 H12. eapply (safe_still shape _ s7); [by etrans | done]. }
  intros m s12 [H12 Hm]. wp_step. apply wp_set_local. wp_step. split; [|done].
  assert (still_calm shape s7 s12) as Hq by by etrans.
  pose proof (st_local Hq) as Hsh. injection Hl7 as I1 I2 I3 I4. injection Hsh as E1 E2 E3 E4 E5. split.
  - apply (safe_quiet ws s12); [done | by eapply safe_still].
  - simpl. rewrite E4, I3. eapply rows_quiet; [|exact Hr7]. apply Hq.
  - exists selected, d. simpl. rewrite E3. by split_and!.
  - simpl. by rewrite E5.
Qed.

Lemma archive_file_spec ws pf s :
  tracked ws s → pf ∈ files → posix_path pf.1 ∉ (λ l, posix_path (ln_path l)) <$> ws →
  wp (archive_file str_of w job_id vg pf.1 pf.2)
    (λ r s', match r with
             | Some _ => ∃ l, lane_for pf l ∧ tracked (ws ++ [l]) s'
             | None => safe ws s'
             end) (λ _ s', safe ws s') s.
Proof.
  intros Ht Hpf Hnew. unfold archive_file. pose proof (tr_safe _ _ Ht) as Hs.
  apply (wp_tracked _ _ _ ws s); [auto with preserves | done | done |]. intros selected s1 H1.
  pose proof (tracked_still _ _ _ H1 Ht) as Ht1. do 2 wp_step. unfold wait_bind. wp_step.
  eapply (wp_mono _ (λ r s', match r with
    | Some _ => tracked ws s' ∧ ac_handle (fj_local s') ≠ None | None => safe ws s' end) _ (λ _, safe ws)).
  - case_bool_decide as Hb; [|by apply switch_tape_spec]. wp_step. split; [done|].
    destruct Ht1 as [_ _ Hm _]. unfold mount_known in Hm. destruct (ac_handle _); [done|].
    destruct Hm as [Hm _]. congruence.
  - intros [u|] s2 H2; [|by wp_step]. destruct H2 as [Ht2 Hh2]. wp_step.
    eapply wp_mono; [by apply write_current_spec| |done]. cbn beta. intros _ s3 H3. by wp_step.
  - done.
Qed.

(** Some of the files are written, whatever happened. *)
Definition some_safe (s : state) : Prop := ∃ ws, safe ws s.

Lemma archive_files_spec ws done_ rest s :
  files = (done_ ++ rest)%list → NoDup ((λ pf, posix_path pf.1) <$> files) → Forall2 lane_for done_ ws → tracked ws s →
  wp (archive_files str_of w job_id vg rest)
    (λ r s', match r with
             | Some _ => ∃ ws', Forall2 lane_for files ws' ∧ tracked ws' s'
             | None => some_safe s'
             end) (λ _ s', some_safe s') s.
Proof.
  revert ws done_ s. induction rest as [|[path f] rest IH]; intros ws done_ s Hfs Hnd Hws Ht; simpl.
  { wp_step. exists ws. rewrite app_nil_r in Hfs. by subst. }
  unfold wait_bind. wp_step. eapply wp_mono; [apply (archive_file_spec ws (path, f)); [done| |]| |]; cbn beta.
  - rewrite Hfs. apply elem_of_app. right. by left.
  - rewrite Hfs, fmap_app in Hnd. apply NoDup_app in Hnd as (_ & Hx & _). intros Hin.
    apply (Hx (posix_path path)); [|by left]. clear -Hin Hws. induction Hws as [|pf l done_ ws [bc ->] _ IH]; [done|].
    apply elem_of_cons in Hin as [Heq|Hin]; apply elem_of_cons; [left; exact Heq | right; by apply IH].
  - intros [u|] s1 H1; [|wp_step; by exists ws]. destruct H1 as (l & Hl & Ht1).
    apply (IH (ws ++ [l])%list (done_ ++ [(path, f)])%list); [by rewrite <-(assoc_L app) | done | | done].
    apply Forall2_app; [done|]. by constructor; [|constructor].
  - intros e s1 H1. by exists ws.
Qed.

(** ** The job *)
Lemma archive_failed_spec e s :
  some_safe s → wp (archive_failed str_of class_of w job_id e) (λ _ _, False) (λ _ s', some_safe s') s.
Proof.
  intros [ws Hs]. unfold archive_failed.
  assert (∀ s', still_calm (λ _, ()) s s' → some_safe s') as Hq.
  { intros s' H'. exists ws. exact (safe_still _ _ _ _ H' Hs). }
  apply (wp_bind_preserves (still_calm (λ _, ()))) with (s0 := s); [solve_preserves | done | by auto |].
  intros _ s1 H1.
  apply (wp_bind_preserves (still_calm (λ _, ()))) with (s0 := s); [auto with preserves | done | by auto |].
  intros _ s2 H2. wp_step. by apply Hq.
Qed.

Lemma wp_guarded {S A} (m : M S (option A)) failed fin (Q : option A → S → Prop) (E : exn → S → Prop) s :
  wp m (λ r s', match r with
                | Some a => wp (try_finally (mret (Some a)) fin) Q E s'
                | None => Q None s'
                end) (λ e, wp (try_finally (failed e) fin) Q E) s →
  wp (guarded m failed fin) Q E s.
Proof. rewrite !wp_unfold. unfold guarded. destruct (m s) as [[[a|]|e] s']; by rewrite ?wp_unfold. Qed.

(** Every file has an archived instance where its bytes are. *)
Definition all_written (s : state) : Prop :=
  ∃ ws, safe ws s ∧ Forall2 lane_for files ws ∧ rows_ok ws [] s ∧
    ac_files (fj_local s) = Z.of_nat (length ws).

Lemma all_written_still (g : archive_locals → Z) s s' :
  (g = ac_files) → still_calm g s s' → all_written s → all_written s'.
Proof.
  intros -> H (ws & H1 & H2 & H3 & H4). exists ws. split_and!; [exact (safe_still _ _ _ _ H H1) | done | |].
  - by eapply rows_quiet; [apply H|].
  - by rewrite (st_local H).
Qed.

Lemma guarded_spec s :
  NoDup ((λ pf, posix_path pf.1) <$> files) → tracked [] s →
  wp (guarded (wait_bind (archive_files str_of w job_id vg files)
                 (λ _, finalize_current_mount str_of w job_id vg;; mret (Some tt)))
        (archive_failed str_of class_of w job_id) (release_current_lease w job_id))
    (λ r s', match r with Some _ => all_written s' | None => some_safe s' end) (λ _ s', some_safe s') s.
Proof.
  intros Hnd Ht. apply wp_guarded. unfold wait_bind. wp_step.
  assert (∀ s1, some_safe s1 → preserves (still_calm ac_files) (release_current_lease w job_id) →
    wp (release_current_lease w job_id) (λ _ s2, some_safe s2) (λ _ s2, some_safe s2) s1) as Hrel.
  { intros s1 [ws Hs] Hp. eapply wp_mono; [by apply (wp_preserves (still_calm ac_files))| |]; cbn beta;
      intros ? s2 H2; exists ws; exact (safe_still _ _ _ _ H2 Hs). }
  assert (preserves (still_calm ac_files) (release_current_lease w job_id)) as Hp by by apply release_lease_still.
  assert (∀ e s1, some_safe s1 →
    wp (try_finally (archive_failed str_of class_of w job_id e) (release_current_lease w job_id))
      (λ r s', match r with Some _ => all_written s' | None => some_safe s' end) (λ _ s', some_safe s') s1) as Hfail.
  { intros e s1 H1. apply wp_try_finally. eapply wp_mono; [by apply archive_failed_spec|done|].
    cbn beta. intros e' s2 H2. by apply Hrel. }
  eapply wp_mono; [by apply (archive_files_spec [] [])| |by auto]; cbn beta.
  intros [u|] s1 H1; [|by wp_step]. destruct H1 as (ws & Hws & Ht1). wp_step.
  eapply wp_mono; [by apply finalize_spec| |]; cbn beta; [|intros e s2 H2; apply Hfail; by exists ws].
  intros _ s2 [Ht2 Hh2]. wp_step. wp_step. wp_step.
  destruct (tracked_idle _ _ Ht2 Hh2) as (Hs2 & Hr2 & _).
  assert (all_written s2) as Hall by (exists ws; split_and!; [done..|]; apply Ht2).
  eapply wp_mono; [by apply (wp_preserves (still_calm ac_files))| |]; cbn beta; intros ? s3 H3.
  - by eapply all_written_still.
  - exists ws. exact (safe_still _ _ _ _ H3 Hs2).
Qed.
End durable.

Section job.
Context (str_of class_of : exn → string) (w : file_surroundings) (job_id : string).
Context `{!Inj (=) (=) (w_uuid w)}.
Context (rq : archive_request) (s : state) (Hstart : inst_ok w (fj_job s)).
Notation files := (planned_files rq (fj_disk s)).
Notation still_job := (still_calm (λ _ : archive_locals, ())).

Lemma no_lanes s' : still_job s s' → safe w files s [] s'.
Proof using Hstart.
  intros H. apply (safe_still w files s (λ _, ()) _ s); [exact H|]. split; try done.
  - by intros l ?%elem_of_nil.
  - by left.
Qed.

(** Every file has an archived instance where its bytes are. *)
Definition job_written (s' : state) : Prop :=
  ∃ ws, safe w files s ws s' ∧ Forall2 lane_for files ws ∧ rows_ok s ws [] s'.

(** How the job ends. *)
Definition job_ends (r : option archive_result) (s' : state) : Prop :=
  some_safe w files s s' ∧
  ∀ res, r = Some res → aq_dry_run rq = false →
    job_written s' ∧ as_files_archived res = Z.of_nat (length files).

Lemma complete_spec res s1 :
  some_safe w files s s1 →
  (aq_dry_run rq = false → job_written s1 ∧ as_files_archived res = Z.of_nat (length files)) →
  wp (complete w job_id res) job_ends (λ _ s', some_safe w files s s') s1.
Proof.
  intros [ws Hs] Hw. unfold complete.
  apply (wp_bind_preserves still_job) with (s0 := s1); [auto with preserves | done | |].
  - intros e s2 H2. exists ws. exact (safe_still w files s (λ _, ()) ws _ _ H2 Hs).
  - intros _ s2 H2. wp_step. split; [exists ws; exact (safe_still w files s (λ _, ()) ws _ _ H2 Hs)|].
    intros ? [= <-] Hd. destruct (Hw Hd) as [(ws' & Hs' & Hf & Hr) Hn]. split; [|done].
    exists ws'. split_and!; [exact (safe_still w files s (λ _, ()) ws' _ _ H2 Hs') | done |].
    eapply rows_quiet; [apply H2 | exact Hr].
Qed.

Lemma run_archive_job_spec :
  NoDup ((λ pf, posix_path pf.1) <$> files) →
  wp (run_archive_job str_of class_of w job_id rq) job_ends (λ _ s', some_safe w files s s') s.
Proof using Hstart Inj0.
  intros Hnd. unfold run_archive_job.
  assert (∀ s', still_job s s' → some_safe w files s s') as Hq by (intros s' H; exists []; by apply no_lanes).
  apply (wp_bind_preserves still_job) with (s0 := s); [auto with preserves | done | by eauto |]. intros _ s1 H1.
  do 2 wp_step. cbv zeta. rewrite (st_disk H1).
  apply (wp_bind_preserves still_job) with (s0 := s); [auto with preserves | done | by eauto |]. intros vg s2 H2.
  destruct (aq_dry_run rq) eqn:Hdry; [apply complete_spec; [by auto | by rewrite Hdry]|].
  assert (files = [] → job_written s2) as Hempty.
  { intros Hfs. exists []. rewrite Hfs. split_and!; [rewrite <-Hfs; by apply no_lanes | constructor |].
    split; intros ? ?%elem_of_nil; done. }
  destruct files as [|pf fs] eqn:Hfs.
  { rewrite <-Hfs in *. apply complete_spec; [by auto|]. intros _. rewrite Hfs. auto. }
  rewrite <-Hfs in *. clear Hfs pf fs Hempty. wp_step. apply wp_set_local. unfold wait_bind at 1. wp_step.
  set (s3 := with_local no_archive s2).
  assert (still_job s s3) as H3 by (destruct H2; by split).
  eapply wp_mono; [apply (guarded_spec str_of class_of w job_id (vg_id vg) files s Hstart)| |done]; [done| |].
  - split; [by apply no_lanes | split; intros ? ?%elem_of_nil; done | done | done].
  - cbn beta. intros [u|] s4 H4; [|wp_step; split; [exact H4 | done]].
    destruct H4 as (ws & Hs4 & Hf & Hr & Hn). wp_step. wp_step. apply complete_spec; [by exists ws|].
    intros _. split; [by exists ws|]. simpl. rewrite Hn. by rewrite (Forall2_length _ _ _ Hf).
Qed.
End job.

(** * Examples *)
Definition sample_world : file_surroundings := FileSurroundings sample_surroundings (λ _, None) pretty.
Definition sample_disk : disk :=
  Disk {["/data/a/x.txt" := bytes_of "one"; "/data/b/x.txt" := bytes_of "two"; "/etc/z" := bytes_of "no"]}
    {["/data"]}.
Definition sample_state (lib_faults ltfs_faults : fault_config) : state :=
  FileJob (sample_start lib_faults ltfs_faults) (Aml [] []) sample_disk no_archive.
Notation sample_run := (run_archive_job (λ _, "tape error") (λ _, "Error") sample_world "job1"
                          (ArchiveRequest "/data" "vg" false)).
Notation sample_rq := (ArchiveRequest "/data" "vg" false).

Lemma sample_archive :
  let x := sample_run (sample_state no_faults no_faults) in
  x.1 = Ok (Some (ArchiveResult "job1" 2 6 ["TAPE01L8"] [])) ∧
  (fst <$> planned_files sample_rq sample_disk) = ["/vg/a/x.txt"; "/vg/b/x.txt"] ∧
  intact (fj_job x.2) "/vg/a/x.txt" = Some true ∧ intact (fj_job x.2) "/vg/b/x.txt" = Some true ∧
  jb_state <$> get_job "job1" (fj_catalog x.2) = Some "completed".
Proof. vm_compute. by split_and!. Qed.

(** * Properties *)

(** C10: An archive of whole files never claims what is not on tape: whatever
    fails, an instance it archives is of a file of the source, with the bytes of
    that file at its barcode and path.  What was archived before stays archived,
    with its row unchanged; no location of a tape changes but at the paths of the
    job, and no record of a file but those at its paths.  (At a path used before,
    the bytes of the tape and the checksum of the record are overwritten before the
    new instance is archived.)  An answer (not of a dry run) means that every file
    has such an instance, and counts them.  The paths of the job are assumed
    distinct, and the identifiers drawn to be new. *)
Theorem file_archive_durable (str_of class_of : exn → string) (w : file_surroundings) (job_id : string)
    (rq : archive_request) (s : state)
    (Huuid : ∀ m n, w_uuid w m = w_uuid w n → m = n) (Hwf : inst_ok w (fj_job s))
    (Hfiles : files_ok w (fj_job s))
    (Hdistinct : NoDup ((λ pf, posix_path pf.1) <$> planned_files rq (fj_disk s))) :
  let files := planned_files rq (fj_disk s) in
  let '(r, s') := run_archive_job str_of class_of w job_id rq s in
  (∀ p, posix_path p ∉ (λ pf, posix_path pf.1) <$> files →
     get_file_record p (fj_catalog s') = get_file_record p (fj_catalog s)) ∧
  ∃ ws, Forall (λ l, (∃ pf, pf ∈ files ∧ lane_for pf l) ∧ on_tape (tj_ltfs (fj_job s')) l) ws ∧
    (∀ id row, archived_in (fj_catalog s) id row → archived_in (fj_catalog s') id row) ∧
    (∀ id row, archived_in (fj_catalog s') id row →
       archived_in (fj_catalog s) id row ∨ ∃ l, l ∈ ws ∧ row_of l row) ∧
    (∀ b p, p ∉ (λ pf, posix_path pf.1) <$> files →
       content_at (tj_ltfs (fj_job s')) b p = content_at (tj_ltfs (fj_job s)) b p) ∧
    ∀ res, r = Ok (Some res) → aq_dry_run rq = false →
      Forall2 lane_for files ws ∧ as_files_archived res = Z.of_nat (length files) ∧
      ∀ l, l ∈ ws → ∃ id row, archived_in (fj_catalog s') id row ∧ row_of l row.
Proof.
  assert (Inj (=) (=) (w_uuid w)) by done.
  pose proof (run_archive_filing str_of class_of w job_id _ rq s (reflexivity _)) as [_ Hrec].
  apply Hrec in Hfiles as [_ Hother]. clear Hrec.
  pose proof (run_archive_job_spec str_of class_of w job_id rq s Hwf Hdistinct) as Hspec.
  assert (∀ ws s', safe w (planned_files rq (fj_disk s)) s ws s' →
    Forall (λ l, (∃ pf, pf ∈ planned_files rq (fj_disk s) ∧ lane_for pf l) ∧ on_tape (tj_ltfs (fj_job s')) l) ws) as Hall.
  { intros ws s' []. rewrite Forall_forall in *. auto. }
  apply wp_unfold in Hspec. destruct (run_archive_job _ _ _ _ _ s) as [[o|e] s'];
    (split; [exact Hother|]).
  2: { destruct Hspec as [ws Hs]. exists ws. split; [by apply Hall|]. by destruct Hs. }
  destruct Hspec as [[ws Hs] Hres]. destruct o as [res|]; [|exists ws; split; [by apply Hall|]; by destruct Hs].
  destruct (aq_dry_run rq); [exists ws; split; [by apply Hall|]; by destruct Hs|].
  destruct (Hres res) as [(ws' & Hs' & Hf & [Hr _]) Hn]; [done..|]. exists ws'. split; [by apply Hall|].
  destruct Hs' as [_ _ _ _ Hold Hnew Helse]. split_and!; [done..|]. intros ? [= <-] _.
  split_and!; [done..|]. intros l Hl. destruct (Hr l Hl) as (id & r & Hid & Hrow & [Hst|?%elem_of_nil]); [|done].
  by exists id, r.
Qed.

Lemma file_archive_durable_witness :
  let s := sample_state no_faults no_faults in
  content_at (tj_ltfs (fj_job (sample_run s).2)) "TAPE01L8" "/other" =
    content_at (tj_ltfs (fj_job s)) "TAPE01L8" "/other" ∧
  Forall (λ pf : string * source_file, ∃ l, lane_for pf l ∧ on_tape (tj_ltfs (fj_job (sample_run s).2)) l)
    (planned_files sample_rq (fj_disk s)).
Proof.
  intros s. pose proof sample_archive as (Hr & _). fold s in Hr.
  pose proof (file_archive_durable (λ _, "tape error") (λ _, "Error") sample_world "job1" sample_rq s
    sample_uuids (sample_start_ok _ _) (sample_files_ok _ _)
    ltac:(apply (bool_decide_unpack _); vm_compute; exact I)) as H.
  destruct (sample_run s) as [r s']. simpl in Hr. subst r.
  destruct H as (_ & ws & Hws & _ & _ & He & Hres). split.
  - apply He. apply (bool_decide_unpack _). vm_compute. exact I.
  - destruct (Hres _ eq_refl eq_refl) as [Hf _]. simpl snd.
    assert (Forall (on_tape (tj_ltfs (fj_job s'))) ws) as Hon
      by (eapply Forall_impl; [exact Hws|]; by intros l [_ ?]).
    clear -Hf Hon. induction Hf as [|pf l fs ws Hl _ IH]; [constructor|].
    apply Forall_cons in Hon as [Hon Hons]. constructor; [by exists l | by apply IH].
Defined.
