(* ===== verification/FormatJob.v ===== *)
(** Formatting a tape with explicit confirmation: openblade/jobs/format.py.

    A dry run issues a token for one barcode; the confirmation consumes it, then
    runs the request through the tape orchestrator. *)
From stdpp Require Import base list option strings pretty.
From Stdlib Require Import Ascii ZArith QArith Lia.
From S2P Require Import Prelude Wp Domain Paths Leases Catalog Faults Library Reconcile CatalogStore.
From S2P Require Import Scheduler Bytes Ltfs Orchestrator.
#[local] Open Scope string_scope.
#[local] Open Scope Z_scope.

(** * State *)

(** What the service is built with: whether the backend is real hardware, and the
    allowlist of scratch barcodes. *)
Record format_service := FormatService {
  fs_real_backend : bool;
  fs_scratch_barcodes : list string;
}.

Record dry_run_plan := DryRunPlan {
  dp_operation : string;
  dp_target : string;
  dp_affected_barcodes : list string;
  dp_warnings : list string;
  dp_is_destructive : bool;
  dp_estimated_duration_seconds : Z;
}.

Definition DEFAULT_TOKEN_TTL : Z := 300.

(** * Operations *)
Definition normalize_barcode (bc : string) : string := upper (strip bc).

Definition scratch_media_ok (fs : format_service) (bc : string) : bool :=
  negb (fs_real_backend fs) || is_scratch_barcode bc (fs_scratch_barcodes fs).

Definition _require_scratch_media (fs : format_service) (bc : string) : M plant unit :=
  raise_if (negb (scratch_media_ok fs bc)) FormatRequiresConfirmationError.

Definition known_barcodes (i : library_inventory) : list string :=
  (omap ss_barcode (Domain.inv_slots i) ++ omap ds_barcode (Domain.inv_drives i))%list.

(** [secret] is what [secrets.token_urlsafe] draws. *)
Definition dry_run (secret : string) (now : Z) (fs : format_service) (bc : string)
    : M plant (dry_run_plan * safety_token) :=
  let bc := normalize_barcode bc in
  _require_scratch_media fs bc;;
  known ← gets (λ p, known_barcodes (inventory (pl_library p)));
  raise_if (bool_decide (bc ∉ known)) BarcodeMismatchError;;
  let token := SafetyToken_generate secret now "format" bc DEFAULT_TOKEN_TTL in
  on_catalog (save_safety_token token);;
  mret (DryRunPlan "format" bc [bc]
          ["Destructive operation"; "Inventory barcode must match confirmation"] true 120, token).

Definition format_request (bc : string) (c : format_confirmation) : tape_op_request :=
  TapeOpRequest TapeOpType.FORMAT bc None None None None None None "format-service" None 5
    [("confirmed_format", JBool true)] (Some c).

Section format.
Context (str_of : exn → string) (env : op_env).

(** [now]: the reading of the first validation. *)
Definition run_format_job (now : Z) (bc : string) (confirmation : format_confirmation)
    : M plant operation_result :=
  liftR (FormatConfirmation_validate now confirmation bc);;
  record ← execute_tape_request true str_of env true (format_request bc confirmation);
  mret (OperationResult (truthy (dget_or (to_result record) "success" (JBool true)))
          (py_str (dget_or (to_result record) "message" (JStr "Tape formatted"))) (to_result record)).

Definition blank_row (r : cartridge_row) : cartridge_row :=
  CartridgeRow (cr_id r) (cr_barcode r) (cr_volume_group_id r) (cr_library_id r) (cr_capacity_bytes r) 0
    (cr_state r) true (cr_created_at r).

Definition confirm (uuid : string) (now : Z) (fs : format_service) (bc token_value : string)
    : M plant operation_result :=
  let bc := normalize_barcode bc in
  _require_scratch_media fs bc;;
  c ← gets pl_catalog;
  match get_safety_token token_value c with
  | None => raise FormatRequiresConfirmationError
  | Some token =>
      raise_if (bool_decide (st_operation token ≠ "format") ||
                bool_decide (st_target_barcode token ≠ bc)) FormatRequiresConfirmationError;;
      consumed ← on_catalog (delete_safety_token token_value);
      raise_if (negb consumed) FormatRequiresConfirmationError;;
      result ← run_format_job now bc (FormatConfirmation bc token "");
      r ← on_catalog (Catalog.add_cartridge uuid now bc None);
      on_catalog (put_cartridge (blank_row r));;
      mret result
  end.
End format.

(** * Lemmas *)

(** Only the cartridge [b] may have changed. *)
Definition only_tape (b : string) : relation ltfs := λ s s',
  ∀ b' p, b' ≠ b → content_at s' b' p = content_at s b' p.
#[export] Instance only_tape_preorder b : PreOrder (only_tape b).
Proof. split; [done | by intros s1 s2 s3 H1 H2 b' p Hb; rewrite H2, H1]. Qed.

Lemma same_only_tape b s s' : same_content s s' → only_tape b s s'.
Proof. intros H b' p _. apply H. Qed.

(** Nothing is stored on the cartridge [b]. *)
Definition erased (b : string) (s : ltfs) : Prop := ∀ q, content_at s b q = None.

Lemma same_erased b s s' : same_content s s' → erased b s → erased b s'.
Proof. intros H He q. by rewrite H. Qed.

(** Whatever happens, [Ltfs.format] changes one tape; when it returns, that tape
    is empty. *)
Lemma format_spec now bc c s :
  wp (Ltfs.format now bc c)
     (λ _ s', only_tape (upper bc) s s' ∧ erased (upper bc) s') (λ _ s', only_tape (upper bc) s s') s.
Proof.
  unfold Ltfs.format. destruct c as [c|]; [|by apply wp_raise].
  wp_step. wp_step; [|done]. wp_step.
  apply wp_ensure; [|by intros; apply same_only_tape, ext_same_content].
  intros key t s1 Hkey H1 Ht. apply Barcode_valid in Hkey as [_ ->].
  apply ext_same_content, (same_only_tape (upper bc)) in H1.
  wp_step. eapply wp_put_tape; [done|].
  match goal with |- wp ?m _ _ ?s => assert (preserves same_content m) as Hm; [|set (s2 := s)] end.
  { apply preserves_bind; [apply _ | apply index_same_content|]. intros t'. solve_preserves. }
  assert (∀ b' p, content_at s2 b' p = if decide (b' = upper bc) then None else content_at s1 b' p) as Hs2.
  { intros b' p. unfold s2. rewrite (content_put_tape _ _ t) by done. by case_decide. }
  assert (only_tape (upper bc) s s2) as Ho by (etrans; [exact H1|]; intros b' p ?; by rewrite Hs2, decide_False).
  assert (erased (upper bc) s2) as He by (intros q; by rewrite Hs2, decide_True).
  eapply wp_mono; [by apply (wp_preserves same_content)| |]; cbn beta.
  - intros _ s' Hs. split; [etrans; [exact Ho | by apply same_only_tape] | by eapply same_erased].
  - intros _ s' Hs. etrans; [exact Ho | by apply same_only_tape].
Qed.

(** ** The request *)

(** The robot alone moved, and only the drives' loads changed. *)
Record robot_only (p p' : plant) : Prop := {
  ro_content : same_content (pl_ltfs p) (pl_ltfs p');
  ro_catalog : pl_catalog p' = pl_catalog p;
}.
#[export] Instance robot_only_preorder : PreOrder robot_only.
Proof. split; [done|]. intros p1 p2 p3 [] []. split; [by etrans | congruence]. Qed.

Lemma on_lib_robot_only {A} (m : M library A) : preserves robot_only (on_lib m).
Proof.
  intros p. split; [|apply keeps_catalog_lib]. intros b' q.
  pose proof (keeps_media_lib m p) as H. unfold media_of in H. injection H as Ht _. by apply content_tapes.
Qed.
Lemma ask_robot_only {A} (q : library → result A) : preserves robot_only (ask q).
Proof. by intros p. Qed.
#[export] Hint Resolve on_lib_robot_only ask_robot_only : preserves.

(** Beyond the robot, only the cartridge [b] changed. *)
Record formatting (b : string) (p p' : plant) : Prop := {
  fm_only : only_tape b (pl_ltfs p) (pl_ltfs p');
  fm_catalog : pl_catalog p' = pl_catalog p;
}.
#[export] Instance formatting_preorder b : PreOrder (formatting b).
Proof. split; [done|]. intros p1 p2 p3 [] []. split; [by etrans | congruence]. Qed.

Lemma robot_formatting b p p' : robot_only p p' → formatting b p p'.
Proof. intros [Hc Hk]. split; [by apply same_only_tape | done]. Qed.

Definition erased_on (b : string) (p : plant) : Prop := erased b (pl_ltfs p).
Lemma robot_erased b p p' : robot_only p p' → erased_on b p → erased_on b p'.
Proof. intros [Hc _]. by apply same_erased. Qed.

Section run.
Context (str_of : exn → string) (env : op_env).

Lemma ensure_loaded_robot bc d : preserves robot_only (_ensure_loaded bc d).
Proof. unfold _ensure_loaded. solve_preserves. Qed.

Lemma locked_spec rq p : rq_op_type rq = TapeOpType.FORMAT →
  wp (_execute_locked true env rq)
     (λ _ p', formatting (upper (rq_barcode rq)) p p' ∧ erased_on (upper (rq_barcode rq)) p')
     (λ _ p', formatting (upper (rq_barcode rq)) p p') p.
Proof.
  intros Hop. unfold _execute_locked, _dispatch. rewrite Hop. set (b := upper (rq_barcode rq)).
  eapply (wp_bind_preserves robot_only); [|done|by intros; apply robot_formatting|].
  { unfold _resolve_drive_for_write. solve_preserves. }
  intros _ p1 H1. unfold _format.
  destruct (rq_format_confirmation rq) as [c|]; [|apply wp_raise; by apply robot_formatting].
  wp_step. wp_step; [|by apply robot_formatting].
  eapply (wp_bind_preserves robot_only); [apply ensure_loaded_robot | exact H1 | by intros; apply robot_formatting|].
  intros [d slot] p2 H2. apply (robot_formatting b) in H2.
  match goal with |- context [try_finally _ ?f] =>
    assert (preserves robot_only f) as Hfin by (destruct slot; solve_preserves) end.
  wp_step. apply (wp_finally_kept robot_only); [done|..].
  - intros r s1 s2 [Hf He] Hr. apply wp_ret. split; [etrans; [exact Hf | by apply robot_formatting] | by eapply robot_erased].
  - intros r _ s1 s2 [Hf He] Hr. etrans; [exact Hf | by apply robot_formatting].
  - intros _ _ s1 s2 Hf Hr. etrans; [exact Hf | by apply robot_formatting].
  - unfold on_ltfs. apply wp_zoom. destruct H2 as [Ho Hk].
    eapply wp_mono; [apply format_spec| |]; cbn beta.
    + intros r l [Ho' He]. apply wp_ret. split; [|done]. split; [by etrans | done].
    + intros e l Ho'. split; [by etrans | done].
Qed.

Lemma request_spec rq p : rq_op_type rq = TapeOpType.FORMAT →
  wp (execute_tape_request true str_of env true rq)
     (λ _ p', formatting (upper (rq_barcode rq)) p p' ∧ erased_on (upper (rq_barcode rq)) p')
     (λ _ p', formatting (upper (rq_barcode rq)) p p') p.
Proof.
  intros Hop. apply wp_unfold. unfold execute_tape_request, mbind, M_bind. rewrite execute_eq.
  destruct (_validate_request rq p).1 as [?|e]; [|done].
  pose proof (locked_spec rq (started env rq p) Hop) as Hrun. rewrite wp_unfold in Hrun.
  destruct (_execute_locked true env rq (started env rq p)) as [[d|e] p1]; simpl.
  - destruct Hrun as [[Ho Hk] He]. by repeat split.
  - destruct Hrun as [Ho Hk]. destruct (is_refusal e); simpl; by repeat split.
Qed.

Lemma job_spec now bc c p :
  wp (run_format_job str_of env now bc c)
     (λ _ p', FormatConfirmation_validate now c bc = Ok tt ∧ formatting (upper bc) p p' ∧ erased_on (upper bc) p')
     (λ _ p', p' = p ∨ FormatConfirmation_validate now c bc = Ok tt ∧ formatting (upper bc) p p') p.
Proof.
  unfold run_format_job. wp_step. wp_step; [|by left]. rename a into u. destruct u.
  wp_step. eapply wp_mono; [by apply request_spec| |]; cbn beta; [|auto].
  intros row p1 H1. wp_step. done.
Qed.
End run.

(** ** Confirming *)
Definition tokens_kept (tok : string) (c c' : catalog) : Prop :=
  ∀ t, t ≠ tok → get_safety_token t c' = get_safety_token t c.

(** The rows a confirmation leaves are those of the cartridge, not the tokens. *)
Lemma add_cartridge_tokens uuid now bc vg : preserves (eq_on ct_tokens) (Catalog.add_cartridge uuid now bc vg).
Proof. unfold Catalog.add_cartridge, put_cartridge. solve_preserves. Qed.
Lemma put_cartridge_tokens r : preserves (eq_on ct_tokens) (put_cartridge r).
Proof. unfold put_cartridge. solve_preserves. Qed.

(** Nothing on any tape changes, and no token but [tok]. *)
Definition untouched (tok : string) (p p' : plant) : Prop :=
  pl_ltfs p' = pl_ltfs p ∧ tokens_kept tok (pl_catalog p) (pl_catalog p').

(** What the confirmation of [bc] by [tok] did, once it was let through. *)
Record confirmed (now : Z) (fs : format_service) (b tok : string) (p p' : plant) : Prop := {
  cf_token : ∃ t, get_safety_token tok (pl_catalog p) = Some t ∧ st_operation t = "format" ∧
                  st_target_barcode t = b ∧ now < st_expires_at t;
  cf_scratch : scratch_media_ok fs b = true;
  cf_only : only_tape b (pl_ltfs p) (pl_ltfs p');
  cf_consumed : get_safety_token tok (pl_catalog p') = None;
  cf_others : tokens_kept tok (pl_catalog p) (pl_catalog p');
}.

Lemma rows_confirmed now fs b tok p p1 p2 :
  confirmed now fs b tok p p1 → eq_on ct_tokens (pl_catalog p1) (pl_catalog p2) →
  pl_ltfs p2 = pl_ltfs p1 → confirmed now fs b tok p p2.
Proof.
  intros [Ht Hs Ho Hc Hk] He Hl. unfold eq_on in He. split; [done|done|by rewrite Hl|..].
  - unfold get_safety_token in *. by rewrite He.
  - intros t Hne. rewrite <-Hk by done. unfold get_safety_token. by rewrite He.
Qed.

Lemma wp_catalog_rows {A} (m : M catalog A) p :
  preserves (eq_on ct_tokens) m →
  wp (on_catalog m)
     (λ _ p', eq_on ct_tokens (pl_catalog p) (pl_catalog p') ∧ pl_ltfs p' = pl_ltfs p)
     (λ _ p', eq_on ct_tokens (pl_catalog p) (pl_catalog p') ∧ pl_ltfs p' = pl_ltfs p) p.
Proof.
  intros Hm. apply wp_state. specialize (Hm (pl_catalog p)). unfold on_catalog, zoom. by destruct (m _).
Qed.

Section confirm.
Context (str_of : exn → string) (env : op_env) (uuid : string) (now : Z) (fs : format_service).

Lemma normalized bc : upper (normalize_barcode bc) = normalize_barcode bc.
Proof. apply upper_idemp. Qed.

(** The token of a stored confirmation is current when the confirmation is. *)
Lemma confirmation_current t bc note :
  FormatConfirmation_validate now (FormatConfirmation bc t note) bc = Ok tt → now < st_expires_at t.
Proof.
  unfold FormatConfirmation_validate, SafetyToken_validate, SafetyToken_is_valid. simpl.
  by destruct (bool_decide (now < st_expires_at t)) eqn:H; [apply bool_decide_eq_true in H|].
Qed.

Lemma confirm_spec bc tok p : dict_wf (ct_tokens (pl_catalog p)) →
  let b := normalize_barcode bc in
  wp (confirm str_of env uuid now fs bc tok)
     (λ _ p', confirmed now fs b tok p p' ∧ erased_on b p')
     (λ _ p', untouched tok p p' ∨ confirmed now fs b tok p p') p.
Proof.
  intros Hwf b. unfold confirm. fold b. unfold _require_scratch_media.
  do 2 wp_step; [by left|]. rename H into Hscratch. apply negb_false_iff in Hscratch. wp_step. wp_step.
  destruct (get_safety_token tok (pl_catalog p)) as [t|] eqn:Ht; [|by left].
  do 2 wp_step; [by left|]. apply orb_false_iff in H as [Hop%bool_decide_eq_false Htarget%bool_decide_eq_false].
  apply dec_stable in Hop, Htarget. wp_step. unfold on_catalog at 1. apply wp_zoom. unfold delete_safety_token.
  apply wp_unfold. cbn beta iota.
  set (p1 := Plant _ _ _).
  assert (get_safety_token tok (pl_catalog p1) = None ∧ tokens_kept tok (pl_catalog p) (pl_catalog p1))
    as [Hgone Hothers].
  { unfold get_safety_token, tokens_kept, get_safety_token. simpl.
    split; [|intros t' Hne]; rewrite dget_ddel by done; [by rewrite decide_True | by rewrite decide_False]. }
  do 2 wp_step; [by left|]. wp_step.
  eapply wp_mono; [apply job_spec| |]; cbn beta; change (upper b) with (upper (normalize_barcode bc)); rewrite normalized; fold b.
  - intros r p2 (Hval & [Ho Hk] & He). apply confirmation_current in Hval.
    assert (confirmed now fs b tok p p2) as H2.
    { split; [by exists t | done | done | by rewrite Hk | by rewrite Hk]. }
    wp_step. eapply wp_mono; [apply wp_catalog_rows, add_cartridge_tokens| |]; cbn beta.
    + intros row p3 [Ht3 Hl3]. pose proof (rows_confirmed _ _ _ _ _ _ _ H2 Ht3 Hl3) as H3.
      wp_step. eapply wp_mono; [apply wp_catalog_rows, put_cartridge_tokens| |]; cbn beta; intros ? p4 [Ht4 Hl4].
      * wp_step. split; [by apply (rows_confirmed _ _ _ _ _ _ _ H3)|]. unfold erased_on. by rewrite Hl4, Hl3.
      * right. by apply (rows_confirmed _ _ _ _ _ _ _ H3).
    + intros _ p3 [Ht3 Hl3]. right. by apply (rows_confirmed _ _ _ _ _ _ _ H2).
  - intros _ p2 [->|[Hval [Ho Hk]]]; [by left|]. right. apply confirmation_current in Hval.
    split; [by exists t | done | done | by rewrite Hk | by rewrite Hk].
Qed.

(** A token that is gone confirms nothing. *)
Lemma spent_refused bc tok p : get_safety_token tok (pl_catalog p) = None →
  confirm str_of env uuid now fs bc tok p = (Raise FormatRequiresConfirmationError, p).
Proof.
  intros Hgone. unfold confirm, _require_scratch_media, raise_if, mbind, M_bind, gets.
  destruct (negb _); [done|]. by rewrite Hgone.
Qed.
End confirm.

(** * Examples *)

(** A tape with a file, and the token a dry run issued for it. *)
Notation scratch_only := (FormatService true ["TAPE01L8"]).
Definition unerased_ltfs : ltfs :=
  ((write_bytes 5 (inl sample_handle) "/a" (bytes_of "hello") None None;; unmount sample_handle)
     mounted_ltfs).2.
Definition unerased_plant : plant :=
  (dry_run "tok" 0 scratch_only "tape01l8 " (Plant empty_catalog [] unerased_ltfs)).2.
Notation sample_confirm := (confirm (λ _, "Error") sample_env "c1" 1 scratch_only).

(** The second confirmation finds no token. *)
Lemma sample_confirms :
  content_at unerased_ltfs "TAPE01L8" "/a" = Some (bytes_of "hello") ∧
  match sample_confirm "TAPE01L8" "tok" unerased_plant with
  | (Ok r, p) => op_success r = true ∧ (sample_confirm "TAPE01L8" "tok" p).1 = Raise FormatRequiresConfirmationError
  | _ => False
  end.
Proof. vm_compute. by repeat split. Qed.

(** * Properties *)

(** C11: A format reaches the tape only through its token.  Whatever
    [FormatService.confirm] is called with, no cartridge but the named one
    changes; and either nothing changes on any tape, or the presented token was
    stored, issued for [format] and for this very barcode, unexpired, the
    barcode is allowlisted scratch media where the backend is real hardware,
    and the token is spent: no later confirmation with it, of any barcode at
    any time, does anything.  When the call succeeds the named cartridge is
    empty.  No other token is touched. *)
Theorem format_needs_token (str_of : exn → string) (env : op_env) (uuid : string) (now : Z)
    (fs : format_service) (bc tok : string) (p : plant) (Hwf : dict_wf (ct_tokens (pl_catalog p))) :
  let b := normalize_barcode bc in
  let '(r, p') := confirm str_of env uuid now fs bc tok p in
  (∀ b' q, b' ≠ b → content_at (pl_ltfs p') b' q = content_at (pl_ltfs p) b' q) ∧
  (∀ t, t ≠ tok → get_safety_token t (pl_catalog p') = get_safety_token t (pl_catalog p)) ∧
  (is_ok r = true → ∀ q, content_at (pl_ltfs p') b q = None) ∧
  (is_ok r = false ∧ pl_ltfs p' = pl_ltfs p ∨
   (∃ t, get_safety_token tok (pl_catalog p) = Some t ∧ st_operation t = "format" ∧
         st_target_barcode t = b ∧ now < st_expires_at t) ∧
   (fs_real_backend fs = true → is_scratch_barcode b (fs_scratch_barcodes fs) = true) ∧
   ∀ env' uuid' now' fs' bc',
     confirm str_of env' uuid' now' fs' bc' tok p' = (Raise FormatRequiresConfirmationError, p')).
Proof.
  intros b. pose proof (confirm_spec str_of env uuid now fs bc tok p Hwf) as H. rewrite wp_unfold in H.
  fold b in H. assert (∀ p', confirmed now fs b tok p p' →
    (∃ t, get_safety_token tok (pl_catalog p) = Some t ∧ st_operation t = "format" ∧
         st_target_barcode t = b ∧ now < st_expires_at t) ∧
    (fs_real_backend fs = true → is_scratch_barcode b (fs_scratch_barcodes fs) = true) ∧
    ∀ env' uuid' now' fs' bc',
     confirm str_of env' uuid' now' fs' bc' tok p' = (Raise FormatRequiresConfirmationError, p')) as Hdone.
  { intros p' []. split; [done|]. split; [|intros; by apply spent_refused].
    intros Hr. unfold scratch_media_ok in *. by rewrite Hr in *. }
  destruct (confirm _ _ _ _ _ _ _ p) as [[r|e] p'].
  - destruct H as [Hc He]. pose proof (Hdone p' Hc). destruct Hc. by repeat split; auto.
  - destruct H as [[Hl Hk]|Hc]; [|pose proof (Hdone p' Hc); destruct Hc; by repeat split; auto].
    rewrite Hl. split; [done|]. split; [done|]. split; [done|]. by left.
Qed.

Lemma format_needs_token_witness :
  dict_wf (ct_tokens (pl_catalog unerased_plant)) ∧
  content_at (pl_ltfs (sample_confirm "tape01l8" "tok" unerased_plant).2) "TAPE01L8" "/a" = None.
Proof.
  assert (dict_wf (ct_tokens (pl_catalog unerased_plant))) as Hwf by (vm_compute; apply NoDup_singleton).
  split; [exact Hwf|].
  pose proof (format_needs_token (λ _, "Error") sample_env "c1" 1 scratch_only "tape01l8" "tok" unerased_plant Hwf)
    as H. cbv zeta in H.
  assert (is_ok (sample_confirm "tape01l8" "tok" unerased_plant).1 = true) as Hr by (vm_compute; reflexivity).
  destruct (sample_confirm "tape01l8" "tok" unerased_plant) as [r p'].
  exact (proj1 (proj2 (proj2 H)) Hr "/a").
Defined.
