(* ===== verification/Media.v ===== *)
(** Python's float arithmetic on integers, and nas/media.py: the generations of
    LTO media, what a drive can read and write, foreign cartridges. *)
From stdpp Require Import base list option strings.
From Stdlib Require Import ZArith SpecFloat Lia.
From S2P Require Import Prelude.
#[local] Open Scope string_scope.
#[local] Open Scope Z_scope.

(** * Floats

    A [float] is an IEEE 754 binary64 number: the numbers and the roundings of
    the Standard Library's [SpecFloat].  [float(z)], [x * y], [a / b] of two
    integers (correctly rounded from the exact quotient) and [int(x)]. *)
Definition float : Set := spec_float.

(** The decimal literal 0.8 is 7205759403792794 / 2^53, and 0.85 and 0.5. *)
Definition float_0_8 : float := S754_finite false 7205759403792794 (-53).
Definition float_0_85 : float := S754_finite false 7656119366529843 (-53).
Definition float_0_5 : float := S754_finite false 4503599627370496 (-53).

Definition finite_or_overflow (x : float) : result float :=
  match x with S754_infinity _ | S754_nan => Raise (OtherError "OverflowError") | _ => Ok x end.

Definition float_of_int (z : Z) : result float :=
  finite_or_overflow (binary_normalize 53 1024 z 0 false).

Definition float_mul (x y : float) : float := SFmul 53 1024 x y.

Definition float_of_exact_int (z : Z) : float :=
  match z with
  | Z0 => S754_zero false
  | Zpos p => S754_finite false p 0
  | Zneg p => S754_finite true p 0
  end.

(** [a / b]; [ZeroDivisionError] when [b] is zero. *)
Definition true_div (a b : Z) : result float :=
  if bool_decide (b = 0) then Raise (OtherError "ZeroDivisionError")
  else finite_or_overflow (SFdiv 53 1024 (float_of_exact_int a) (float_of_exact_int b)).

(** [int(x)] truncates towards zero; infinities and NaN raise. *)
Definition int_of_float (x : float) : result Z :=
  match x with
  | S754_zero _ => Ok 0
  | S754_finite s m e =>
      let a := if bool_decide (0 ≤ e) then Z.shiftl (Zpos m) e else Z.shiftr (Zpos m) (- e) in
      Ok (if s then - a else a)
  | S754_infinity _ => Raise (OtherError "OverflowError")
  | S754_nan => Raise ValueError
  end.

Definition float_lt (x y : float) : bool :=
  match SFcompare x y with Some Lt => true | _ => false end.

(** * Media (nas/media.py) *)
Inductive MediaGeneration : Set := UNKNOWN | LTO5 | LTO6 | LTO7 | LTO8 | LTO9.
#[export] Instance MediaGeneration_eq_dec : EqDecision MediaGeneration.
Proof. solve_decision. Defined.

Definition _READ (d : MediaGeneration) : list MediaGeneration :=
  match d with
  | LTO5 => [LTO5]
  | LTO6 => [LTO5; LTO6]
  | LTO7 => [LTO5; LTO6; LTO7]
  | LTO8 => [LTO7; LTO8]
  | LTO9 => [LTO8; LTO9]
  | UNKNOWN => []
  end.
Definition _WRITE (d : MediaGeneration) : list MediaGeneration :=
  match d with
  | LTO5 => [LTO5]
  | LTO6 => [LTO5; LTO6]
  | LTO7 => [LTO6; LTO7]
  | LTO8 => [LTO7; LTO8]
  | LTO9 => [LTO8; LTO9]
  | UNKNOWN => []
  end.

Definition can_read (drive_gen media_gen : MediaGeneration) : bool :=
  bool_decide (media_gen ∈ _READ drive_gen).
Definition can_write (drive_gen media_gen : MediaGeneration) : bool :=
  bool_decide (media_gen ∈ _WRITE drive_gen).

Record Cartridge : Type := MkCartridge {
  cart_barcode : string;
  cart_generation : MediaGeneration;
  cart_has_tape_json : bool;
  cart_adopted : bool;
}.

Definition is_foreign (c : Cartridge) : bool := negb (cart_has_tape_json c) && negb (cart_adopted c).

Definition ForeignMediaError : exn := OtherError "ForeignMediaError".
Definition IncompatibleMediaError : exn := OtherError "IncompatibleMediaError".

Definition require_writable (c : Cartridge) (drive_gen : MediaGeneration) : result unit :=
  if is_foreign c then Raise ForeignMediaError
  else if can_write drive_gen (cart_generation c) then Ok tt
  else Raise IncompatibleMediaError.

(** What can be written can be read back by the same drive, and nothing is known
    to be possible for a medium or a drive of unknown generation. *)
Lemma can_write_read d m : can_write d m = true → can_read d m = true.
Proof. by destruct d, m. Qed.

Lemma unknown_not_writable d m : can_write d m = true → d ≠ UNKNOWN ∧ m ≠ UNKNOWN.
Proof. by destruct d, m. Qed.

Lemma require_writable_ok c d :
  require_writable c d = Ok tt ↔ is_foreign c = false ∧ can_write d (cart_generation c) = true.
Proof.
  unfold require_writable. destruct (is_foreign c), (can_write _ _); split; naive_solver.
Qed.

(** ** Truncating a product of numbers never meets a NaN *)
Lemma shr_1_nonneg r : 0 ≤ shr_m r → 0 ≤ shr_m (shr_1 r).
Proof. destruct r as [[|[]|] rr ss]; simpl; lia. Qed.

Lemma iter_shr_nonneg n r : 0 ≤ shr_m r → 0 ≤ shr_m (SpecFloat.iter_pos shr_1 n r).
Proof.
  revert r. induction n as [n IH|n IH|]; intros r Hr; simpl;
    [apply IH, IH, shr_1_nonneg, Hr | apply IH, IH, Hr | apply shr_1_nonneg, Hr].
Qed.

Lemma shr_fexp_nonneg m e l : 0 ≤ m → 0 ≤ shr_m (shr_fexp 53 1024 m e l).1.
Proof.
  intros Hm. unfold shr_fexp, shr. 
  assert (0 ≤ shr_m (shr_record_of_loc m l)) as Hr by by destruct l as [|[]].
  destruct (_ - _); simpl; [done | by apply iter_shr_nonneg | done].
Qed.

Lemma round_aux_not_nan s m e l : 0 ≤ m → binary_round_aux 53 1024 s m e l ≠ S754_nan.
Proof.
  intros Hm. unfold binary_round_aux.
  destruct (shr_fexp 53 1024 m e l) as [r e'] eqn:H1.
  pose proof (shr_fexp_nonneg m e l Hm) as Hr. rewrite H1 in Hr. simpl in Hr.
  assert (0 ≤ round_nearest_even (shr_m r) (loc_of_shr_record r)) as Hn.
  { destruct (loc_of_shr_record r) as [|[]]; simpl; try case_match; lia. }
  destruct (shr_fexp 53 1024 (round_nearest_even _ _) e' loc_Exact) as [r2 e2] eqn:H2.
  pose proof (shr_fexp_nonneg _ e' loc_Exact Hn) as Hr2. rewrite H2 in Hr2. simpl in Hr2.
  destruct (shr_m r2); [done | by destruct (_ <=? _) | lia].
Qed.

(** [int(float(z) * x)] for a literal [x]. *)
Lemma int_of_scaled z m e x : float_of_int z = Ok x →
  (∃ n, int_of_float (float_mul x (S754_finite false m e)) = Ok n) ∨
  int_of_float (float_mul x (S754_finite false m e)) = Raise (OtherError "OverflowError").
Proof.
  unfold float_of_int, finite_or_overflow. intros Hx.
  destruct (binary_normalize 53 1024 z 0 false) as [| | |s' m' e']; simplify_eq.
  - left. by eexists.
  - unfold float_mul. pose proof (round_aux_not_nan (xorb s' false) (Zpos (m' * m)) (e' + e)
      loc_Exact ltac:(lia)) as Hn. simpl.
    destruct (binary_round_aux _ _ _ _ _ _); simpl; try done; [left; by eexists | by right | left; by eexists].
Qed.
