(* ===== verification/Planner.v ===== *)
(** nas/planner.py: [ArchivePlanner], the dry run that assigns the files of an
    archive to tapes, by one of its strategies.

    A plan is a value passed from step to step; the assignments a strategy builds
    are mutated in place by the source and replaced here.  The messages of
    warnings and blockers are modelled, since blockers are told apart by their
    text.  [plan_id] and [created_at] are arguments of [plan]. *)
From stdpp Require Import base list option strings pretty.
From Stdlib Require Import Ascii ZArith Lia.
From S2P Require Import Prelude Paths Media.
#[local] Open Scope string_scope.
#[local] Open Scope Z_scope.

(** * Requests and plans (nas/types.py) *)
Inductive PolicyType : Set := CRITICAL_SEQUENTIAL | NONCRITICAL_SHARDED | BALANCED.
Inductive IngestMode : Set := CACHE_DRIVE | SOURCE_STREAM.
Inductive ShardStrategy : Set :=
| ROUND_ROBIN | CAPACITY_WEIGHTED | DIRECTORY_BATCH | HASH_PREFIX | RESTORE_PARALLELISM_OPTIMIZED.

#[export] Instance IngestMode_eq_dec : EqDecision IngestMode.
Proof. solve_decision. Defined.
#[export] Instance PolicyType_eq_dec : EqDecision PolicyType.
Proof. solve_decision. Defined.

Record TapeAssignment : Type := MkTapeAssignment {
  ta_barcode : string;
  ta_files : list string;
  ta_estimated_bytes : Z;
  ta_is_spillover : bool;
  ta_shard_index : option Z;
}.

Record ArchivePlanWarning : Type := MkWarning {
  pw_level : string; pw_message : string; pw_field : option string;
}.

Record ArchivePlan : Type := MkArchivePlan {
  pl_plan_id : string;
  pl_policy_name : option string;
  pl_policy_type : option PolicyType;
  pl_ingest_mode : IngestMode;
  pl_source_path : option string;
  pl_pool : option string;
  pl_volume_group : option string;
  pl_files : list string;
  pl_total_files : Z;
  pl_total_bytes : Z;
  pl_tape_assignments : list TapeAssignment;
  pl_estimated_tape_swaps : Z;
  pl_estimated_parallelism : Z;
  pl_copies_required : Z;
  pl_verify_before_archive : bool;
  pl_verify_after_archive : bool;
  pl_shard_size_bytes : option Z;
  pl_capacity_warnings : list ArchivePlanWarning;
  pl_safety_warnings : list ArchivePlanWarning;
  pl_manifest_strategy : string;
  pl_is_safe_to_enqueue : bool;
  pl_enqueue_blockers : list string;
  pl_created_at : string;
}.

Record ArchivePlanRequest : Type := MkRequest {
  rq_policy_id : option string;
  rq_policy_type : option PolicyType;
  rq_ingest_mode : IngestMode;
  rq_source_path : option string;
  rq_pool : option string;
  rq_volume_group : option string;
  rq_files : list string;
  rq_file_sizes : dict string Z;
  rq_available_tapes : list string;
  rq_tape_capacities : dict string Z;
  rq_copies : Z;
  rq_verify_before_archive : bool;
  rq_verify_after_archive : bool;
  rq_shard_size_bytes : option Z;
  rq_shard_strategy : option ShardStrategy;
  rq_max_parallelism : Z;
  rq_cartridges : dict string Cartridge;
  rq_drive_generation : option MediaGeneration;
  rq_reserved_bytes : dict string Z;
  rq_pool_reserved_bytes : Z;
}.

(** [model_copy(update=...)] of the fields the code updates. *)
Definition with_strategy (q : ArchivePlanRequest) (t : PolicyType) (s : option ShardStrategy)
    : ArchivePlanRequest :=
  MkRequest (rq_policy_id q) (Some t) (rq_ingest_mode q) (rq_source_path q) (rq_pool q)
    (rq_volume_group q) (rq_files q) (rq_file_sizes q) (rq_available_tapes q)
    (rq_tape_capacities q) (rq_copies q) (rq_verify_before_archive q)
    (rq_verify_after_archive q) (rq_shard_size_bytes q) s (rq_max_parallelism q)
    (rq_cartridges q) (rq_drive_generation q) (rq_reserved_bytes q) (rq_pool_reserved_bytes q).
Definition with_pool_reserved (q : ArchivePlanRequest) (n : Z) : ArchivePlanRequest :=
  MkRequest (rq_policy_id q) (rq_policy_type q) (rq_ingest_mode q) (rq_source_path q) (rq_pool q)
    (rq_volume_group q) (rq_files q) (rq_file_sizes q) (rq_available_tapes q)
    (rq_tape_capacities q) (rq_copies q) (rq_verify_before_archive q)
    (rq_verify_after_archive q) (rq_shard_size_bytes q) (rq_shard_strategy q)
    (rq_max_parallelism q) (rq_cartridges q) (rq_drive_generation q) (rq_reserved_bytes q) n.
Definition with_tapes (q : ArchivePlanRequest) (ts : list string) (caps : dict string Z)
    : ArchivePlanRequest :=
  MkRequest (rq_policy_id q) (rq_policy_type q) (rq_ingest_mode q) (rq_source_path q) (rq_pool q)
    (rq_volume_group q) (rq_files q) (rq_file_sizes q) ts caps (rq_copies q)
    (rq_verify_before_archive q) (rq_verify_after_archive q) (rq_shard_size_bytes q)
    (rq_shard_strategy q) (rq_max_parallelism q) (rq_cartridges q) (rq_drive_generation q)
    (rq_reserved_bytes q) (rq_pool_reserved_bytes q).

(** The parts of a plan the planner assigns. *)
Definition plan_upd (p : ArchivePlan) (assignments : list TapeAssignment) (swaps par : Z)
    (cw sw : list ArchivePlanWarning) (safe : bool) (blockers : list string) : ArchivePlan :=
  MkArchivePlan (pl_plan_id p) (pl_policy_name p) (pl_policy_type p) (pl_ingest_mode p)
    (pl_source_path p) (pl_pool p) (pl_volume_group p) (pl_files p) (pl_total_files p)
    (pl_total_bytes p) assignments swaps par (pl_copies_required p)
    (pl_verify_before_archive p) (pl_verify_after_archive p) (pl_shard_size_bytes p) cw sw
    (pl_manifest_strategy p) safe blockers (pl_created_at p).
Definition set_assignments (p : ArchivePlan) (l : list TapeAssignment) : ArchivePlan :=
  plan_upd p l (pl_estimated_tape_swaps p) (pl_estimated_parallelism p) (pl_capacity_warnings p)
    (pl_safety_warnings p) (pl_is_safe_to_enqueue p) (pl_enqueue_blockers p).
Definition set_swaps (p : ArchivePlan) (n : Z) : ArchivePlan :=
  plan_upd p (pl_tape_assignments p) n (pl_estimated_parallelism p) (pl_capacity_warnings p)
    (pl_safety_warnings p) (pl_is_safe_to_enqueue p) (pl_enqueue_blockers p).
Definition set_parallelism (p : ArchivePlan) (n : Z) : ArchivePlan :=
  plan_upd p (pl_tape_assignments p) (pl_estimated_tape_swaps p) n (pl_capacity_warnings p)
    (pl_safety_warnings p) (pl_is_safe_to_enqueue p) (pl_enqueue_blockers p).

(** [plan.is_safe_to_enqueue = len(plan.enqueue_blockers) == 0]. *)
Definition settle (p : ArchivePlan) : ArchivePlan :=
  plan_upd p (pl_tape_assignments p) (pl_estimated_tape_swaps p) (pl_estimated_parallelism p)
    (pl_capacity_warnings p) (pl_safety_warnings p)
    (bool_decide (pl_enqueue_blockers p = [])) (pl_enqueue_blockers p).

Definition _add_capacity_warning (p : ArchivePlan) (msg : string) (field : option string)
    : ArchivePlan :=
  plan_upd p (pl_tape_assignments p) (pl_estimated_tape_swaps p) (pl_estimated_parallelism p)
    (pl_capacity_warnings p ++ [MkWarning "warning" msg field])
    (pl_safety_warnings p) (pl_is_safe_to_enqueue p) (pl_enqueue_blockers p).
Definition _add_safety_warning (p : ArchivePlan) (msg : string) (field : option string)
    : ArchivePlan :=
  plan_upd p (pl_tape_assignments p) (pl_estimated_tape_swaps p) (pl_estimated_parallelism p)
    (pl_capacity_warnings p) (pl_safety_warnings p ++ [MkWarning "warning" msg field])
    (pl_is_safe_to_enqueue p) (pl_enqueue_blockers p).
Definition _block_plan (p : ArchivePlan) (msg : string) : ArchivePlan :=
  plan_upd p (pl_tape_assignments p) (pl_estimated_tape_swaps p) (pl_estimated_parallelism p)
    (pl_capacity_warnings p) (pl_safety_warnings p) false
    (if bool_decide (msg ∈ pl_enqueue_blockers p) then pl_enqueue_blockers p
     else pl_enqueue_blockers p ++ [msg]).

(** * Text *)

(** [sub in s]. *)
Definition contains (sub s : string) : bool :=
  match String.index 0 sub s with Some _ => true | None => false end.

Definition lower_ascii (c : ascii) : ascii :=
  let n := nat_of_ascii c in
  if (65 <=? n)%nat && (n <=? 90)%nat then ascii_of_nat (n + 32) else c.

(** [posixpath.dirname] and [posixpath.basename]: the path is cut after its last
    slash, and the slashes at the end of the head are dropped unless it is made
    of slashes only.  [after_slash] is [p[p.rfind('/') + 1:]]. *)
Fixpoint cut_last_slash (l : list ascii) : list ascii * list ascii :=
  match l with
  | [] => ([], [])
  | c :: l =>
      match cut_last_slash l with
      | ([], tail) => if bool_decide (c = "/"%char) then ([c], tail) else ([], c :: tail)
      | (head, tail) => (c :: head, tail)
      end
  end.
Definition is_slash (c : ascii) : bool := bool_decide (c = "/"%char).
Definition dirname (p : string) : string :=
  let head := (cut_last_slash (String.list_ascii_of_string p)).1 in
  String.string_of_list_ascii (if forallb is_slash head then head else rstrip_chars is_slash head).
Definition basename (p : string) : string :=
  String.string_of_list_ascii (cut_last_slash (String.list_ascii_of_string p)).2.

Definition lstrip_slash (s : string) : string :=
  String.string_of_list_ascii (lstrip_chars is_slash (String.list_ascii_of_string s)).

(** [max(l, key=...)] and [min(l, key=...)] keep the first of equal keys. *)
Fixpoint first_best {A} (better : A → A → bool) (x : A) (l : list A) : A :=
  match l with
  | [] => x
  | y :: l => first_best better (if better y x then y else x) l
  end.

(** * The planner *)
Definition POOL_BUDGET_BLOCKER : string := "Insufficient pool capacity after reservations".
Definition DEFAULT_TAPE_CAPACITY : Z := 12000000000000.
Definition RESTORE_THROUGHPUT_BYTES_PER_SECOND : Z := 300000000.
Definition RESTORE_TIME_SHARD_THRESHOLD_SECONDS : Z := 8 * 60 * 60.
Definition balanced_shard_file_threshold : Z := 50000.

Definition _file_size (q : ArchivePlanRequest) (path : string) : Z := dget_or (rq_file_sizes q) path 0.
Definition total_size (q : ArchivePlanRequest) (l : list string) : Z :=
  foldr Z.add 0 (_file_size q <$> l).

Definition _tape_capacity (q : ArchivePlanRequest) (barcode : string) : Z :=
  Z.max 0 (dget_or (rq_tape_capacities q) barcode DEFAULT_TAPE_CAPACITY
           - dget_or (rq_reserved_bytes q) barcode 0).

Definition pool_capacity_bytes (q : ArchivePlanRequest) : Z :=
  foldr Z.add 0 (_tape_capacity q <$> rq_available_tapes q).

Definition _is_scratch_tape (barcode : string) : bool :=
  let normalized := upper barcode in
  startswith normalized "SCR" || contains "SCRATCH" normalized.

Definition _ordered_tapes (q : ArchivePlanRequest) : list string :=
  filter (λ b, ¬ _is_scratch_tape b) (rq_available_tapes q) ++
  filter (λ b, _is_scratch_tape b) (rq_available_tapes q).

Definition _single_tape_capacity (q : ArchivePlanRequest) : Z :=
  match _tape_capacity q <$> rq_available_tapes q with
  | [] => DEFAULT_TAPE_CAPACITY
  | c :: l => foldl Z.max c l
  end.

Definition _make_relative (filepath : string) (source_path : option string) : string :=
  match source_path with
  | Some s =>
      if negb (bool_decide (s = "")) && startswith filepath s
      then lstrip_slash (String.substring (String.length s) (String.length filepath) filepath)
      else lstrip_slash filepath
  | None => lstrip_slash filepath
  end.
Definition _relative_files (files : list string) (source_path : option string) : list string :=
  (λ f, _make_relative f source_path) <$> files.

Definition check_cartridge (q : ArchivePlanRequest) (barcode : string) : result unit :=
  match dget (rq_cartridges q) barcode with
  | None => Ok tt
  | Some c =>
      if is_foreign c then Raise ForeignMediaError
      else match rq_drive_generation q with
           | Some g => require_writable c g
           | None => Ok tt
           end
  end.
Definition _check_media (q : ArchivePlanRequest) : result unit :=
  (λ _, tt) <$> mapR (check_cartridge q) (rq_available_tapes q).

Definition _check_pool_budget (q : ArchivePlanRequest) (p : ArchivePlan) : ArchivePlan :=
  match rq_pool q with
  | None => p
  | Some _ =>
      let budget := pool_capacity_bytes q - rq_pool_reserved_bytes q in
      if bool_decide (pl_total_bytes p * pl_copies_required p > budget)
      then _block_plan p POOL_BUDGET_BLOCKER else p
  end.

Definition _apply_common_checks (q : ArchivePlanRequest) (p : ArchivePlan) : ArchivePlan :=
  let p := if bool_decide (rq_files q = []) then _block_plan p "No files to archive" else p in
  let p := if bool_decide (rq_available_tapes q = []) then _block_plan p "No tapes available" else p in
  let p := if bool_decide (pl_copies_required p > Z.of_nat (length (rq_available_tapes q)))
           then _add_capacity_warning p "Requested copies exceed number of available tapes"
                  (Some "copies")
           else p in
  _check_pool_budget q p.

(** [_directory_groups]: maximal runs of files of one directory; [dir] and
    [group] are the current directory and group. *)
Fixpoint directory_groups (dir : option string) (group : list string) (files : list string)
    : list (list string) :=
  match files with
  | [] => if bool_decide (group = []) then [] else [group]
  | f :: files =>
      let d := dirname f in
      if bool_decide (dir = None ∨ dir = Some d)
      then directory_groups (Some d) (group ++ [f]) files
      else group :: directory_groups (Some d) [f] files
  end.
Definition _directory_groups (files : list string) : list (list string) :=
  directory_groups None [] files.

(** The number of leading files that fit. *)
Fixpoint first_split_index (q : ArchivePlanRequest) (consumed : Z) (files : list string)
    (capacity : Z) : nat :=
  match files with
  | [] => O
  | f :: files =>
      if bool_decide (consumed + _file_size q f > capacity) then O
      else S (first_split_index q (consumed + _file_size q f) files capacity)
  end.
Definition _first_split_index (q : ArchivePlanRequest) (files : list string) (capacity : Z) : nat :=
  first_split_index q 0 files capacity.

(** ** Critical: one tape if one is enough, else tape after tape

    [SqDone]/[SqBlocked]: the group is placed, or the plan was blocked and the
    method returns.  [assignments] is in the order of the tapes, [i] the index of
    the current tape. *)
Inductive sq_outcome : Type :=
| SqDone (p : ArchivePlan) (assignments : list TapeAssignment) (i : nat)
| SqBlocked (p : ArchivePlan) (assignments : list TapeAssignment).

Definition extend_assignment (q : ArchivePlanRequest) (files : list string) (a : TapeAssignment)
    : TapeAssignment :=
  MkTapeAssignment (ta_barcode a) (ta_files a ++ _relative_files files (rq_source_path q))
    (ta_estimated_bytes a + total_size q files) (ta_is_spillover a) (ta_shard_index a).

(** The [while True] of [_plan_critical_sequential] for one group: [None] when
    the fuel runs out. *)
Fixpoint place_group (fuel : nat) (q : ArchivePlanRequest) (tapes : list string)
    (p : ArchivePlan) (assignments : list TapeAssignment) (i : nat) (group : list string)
    : option sq_outcome :=
  match fuel with
  | O => None
  | S fuel =>
      match tapes !! i with
      | None => Some (SqBlocked (_block_plan p "Insufficient tape capacity for all files") assignments)
      | Some barcode =>
          let group_bytes := total_size q group in
          let capacity := _tape_capacity q barcode in
          let used_bytes := match assignments !! i with Some a => ta_estimated_bytes a | None => 0 end in
          let remaining_bytes := capacity - used_bytes in
          if bool_decide (is_Some (assignments !! i) ∧ group_bytes > remaining_bytes ∧
                          group_bytes <= capacity)
          then place_group fuel q tapes p assignments (S i) group
          else
            let fresh := bool_decide (assignments !! i = None) in
            let p := if fresh && _is_scratch_tape barcode
                     then _add_capacity_warning p
                            ("Using scratch tape " ++ barcode ++
                             " because no preferred tape was available") (Some "available_tapes")
                     else p in
            let assignments :=
              if fresh then (assignments ++ [MkTapeAssignment barcode [] 0 false None])%list
              else assignments in
            let files_of_i := match assignments !! i with Some a => ta_files a | None => [] end in
            if bool_decide (group_bytes <= remaining_bytes)
            then Some (SqDone p (alter (extend_assignment q group) i assignments) i)
            else match _first_split_index q group remaining_bytes with
                 | O =>
                     if bool_decide (files_of_i = [])
                     then Some (SqBlocked (_block_plan p ("File " ++ default "" (head group) ++
                                             " exceeds available tape capacity")) assignments)
                     else place_group fuel q tapes p assignments (S i) group
                 | S _ as k =>
                     place_group fuel q tapes p
                       (alter (extend_assignment q (take k group)) i assignments) (S i) (drop k group)
                 end
      end
  end.

Fixpoint place_groups (fuel : nat) (q : ArchivePlanRequest) (tapes : list string)
    (p : ArchivePlan) (assignments : list TapeAssignment) (i : nat) (groups : list (list string))
    : option sq_outcome :=
  match groups with
  | [] => Some (SqDone p assignments i)
  | group :: groups =>
      match place_group fuel q tapes p assignments i group with
      | Some (SqDone p assignments i) => place_groups fuel q tapes p assignments i groups
      | o => o
      end
  end.

Definition mark_spillover (l : list TapeAssignment) : list TapeAssignment :=
  imap (λ index a, MkTapeAssignment (ta_barcode a) (ta_files a) (ta_estimated_bytes a)
                     (bool_decide (0 < index)%nat) (ta_shard_index a)) l.

(** [None] when the fuel runs out in the loop of some group. *)
Definition plan_sequential_fuel (fuel : nat) (q : ArchivePlanRequest) (p : ArchivePlan)
    : result (option ArchivePlan) :=
  let tapes := _ordered_tapes q in
  limit ← (x ← float_of_int (_single_tape_capacity q); int_of_float (float_mul x float_0_8));
  let p := if bool_decide (pl_total_bytes p > limit)
           then _add_capacity_warning p "Dataset exceeds 80% of a single tape capacity"
                  (Some "total_bytes")
           else p in
  let p := if bool_decide (rq_ingest_mode q = SOURCE_STREAM)
           then _add_safety_warning p
             "Source-stream mode requires source files to remain stable and online. For critical datasets, cache-drive mode is safer unless the source supports snapshots."
             (Some "ingest_mode")
           else p in
  Ok match list_find (λ b, _tape_capacity q b >= pl_total_bytes p) tapes with
  | Some (_, fitting_tape) =>
      let p := set_assignments p
        [MkTapeAssignment fitting_tape (_relative_files (pl_files p) (rq_source_path q))
           (pl_total_bytes p) false None] in
      let p := if _is_scratch_tape fitting_tape
               then _add_capacity_warning p
                      ("Using scratch tape " ++ fitting_tape ++
                       " because no preferred tape had enough capacity") (Some "available_tapes")
               else p in
      Some (settle (set_swaps p 0))
  | None =>
      match place_groups fuel q tapes p [] 0 (_directory_groups (pl_files p)) with
      | None => None
      | Some (SqBlocked p assignments) => Some (set_assignments p assignments)
      | Some (SqDone p assignments _) =>
          Some (settle (set_swaps (set_assignments p (mark_spillover assignments))
                  (Z.max (Z.of_nat (length assignments) - 1) 0)))
      end
  end.

(** Every turn of the loop but the last goes to the next tape, so one more turn
    than there are tapes is enough (see [place_group_fuel]). *)
Definition sequential_fuel (q : ArchivePlanRequest) : nat := S (length (rq_available_tapes q)).
Definition _plan_critical_sequential (q : ArchivePlanRequest) (p : ArchivePlan) : result ArchivePlan :=
  r ← plan_sequential_fuel (sequential_fuel q) q p;
  match r with Some p => Ok p | None => Raise (OtherError "OutOfFuel") end.

(** ** Noncritical: files over the tapes, by one of five strategies

    The variables the closures of [_plan_noncritical_sharded] share.  Every
    barcode the two counters are asked for is a tape, so has an entry. *)
Record shard_state : Type := MkShardState {
  sh_plan : ArchivePlan;
  sh_assignments : dict string TapeAssignment;
  sh_remaining : dict string Z;
  sh_fill : dict string Z;
  sh_oversized : list string;
}.

Definition remaining_of (st : shard_state) (b : string) : Z := dget_or (sh_remaining st) b 0.
Definition fill_of (st : shard_state) (b : string) : Z := dget_or (sh_fill st) b 0.

(** [tape_positions]: the last index of a barcode listed twice. *)
Definition tape_positions (tapes : list string) : dict string Z :=
  dict_of (imap (λ i b, (b, Z.of_nat i)) tapes).

Definition get_assignment (tapes : list string) (st : shard_state) (b : string) : TapeAssignment :=
  match dget (sh_assignments st) b with
  | Some a => a
  | None => MkTapeAssignment b [] 0 false (Some (dget_or (tape_positions tapes) b 0))
  end.

(** A tape is passed over when the file does not fit, or does not fit in the
    shard that is being filled on it. *)
Definition accepts (q : ArchivePlanRequest) (st : shard_state) (size : Z) (b : string) : bool :=
  negb (bool_decide (remaining_of st b < size)) &&
  negb match rq_shard_size_bytes q with
       | Some n => bool_decide (fill_of st b > 0 ∧ fill_of st b + size > n)
       | None => false
       end.

Definition put_file (q : ArchivePlanRequest) (tapes : list string) (st : shard_state)
    (file : string) (b : string) : shard_state :=
  let size := _file_size q file in
  let a := get_assignment tapes st b in
  let a := MkTapeAssignment (ta_barcode a)
             (ta_files a ++ [_make_relative file (rq_source_path q)])
             (ta_estimated_bytes a + size) (ta_is_spillover a) (ta_shard_index a) in
  MkShardState (sh_plan st) (dset (sh_assignments st) b a)
    (dset (sh_remaining st) b (remaining_of st b - size))
    (match rq_shard_size_bytes q with
     | Some _ => dset (sh_fill st) b (fill_of st b + size)
     | None => sh_fill st
     end)
    (sh_oversized st).

Definition reset_fill (st : shard_state) : shard_state :=
  MkShardState (sh_plan st) (sh_assignments st) (sh_remaining st) (dmap (λ _, 0) (sh_fill st))
    (sh_oversized st).
Definition note_oversized (st : shard_state) (file : string) : shard_state :=
  MkShardState (sh_plan st) (sh_assignments st) (sh_remaining st) (sh_fill st)
    (sh_oversized st ++ [file]).
Definition block_state (st : shard_state) (msg : string) : shard_state :=
  MkShardState (_block_plan (sh_plan st) msg) (sh_assignments st) (sh_remaining st) (sh_fill st)
    (sh_oversized st).

(** One attempt: the preferred tape, then the others in order. *)
Definition find_tape (q : ArchivePlanRequest) (tapes : list string) (st : shard_state)
    (preferred : string) (size : Z) : option string :=
  snd <$> list_find (λ b, accepts q st size b) (preferred :: filter (λ t, t ≠ preferred) tapes).

(** [assign_file]: two attempts, the second with the shards started anew. *)
Definition assign_file (q : ArchivePlanRequest) (tapes : list string) (st : shard_state)
    (preferred file : string) : bool * shard_state :=
  let size := _file_size q file in
  let st := match rq_shard_size_bytes q with
            | Some n => if bool_decide (size > n) then note_oversized st file else st
            | None => st
            end in
  match find_tape q tapes st preferred size with
  | Some b => (true, put_file q tapes st file b)
  | None =>
      let st := if bool_decide (is_Some (rq_shard_size_bytes q)) then reset_fill st else st in
      match find_tape q tapes st preferred size with
      | Some b => (true, put_file q tapes st file b)
      | None => (false, block_state st ("Insufficient tape capacity for file " ++ file))
      end
  end.

(** [for file in files: if not assign_file(choose(), file): break]; [i] counts. *)
Fixpoint assign_all (q : ArchivePlanRequest) (tapes : list string)
    (choose : nat → shard_state → string → string) (i : nat) (st : shard_state)
    (files : list string) : shard_state :=
  match files with
  | [] => st
  | file :: files =>
      let '(ok, st) := assign_file q tapes st (choose i st file) file in
      if ok then assign_all q tapes choose (S i) st files else st
  end.

(** [max(tapes, key=λ b. (remaining[b], -tape_positions[b]))]; the sharded
    planner runs with at least one tape. *)
Definition roomiest (tapes : list string) (st : shard_state) : string :=
  let pos b := dget_or (tape_positions tapes) b 0 in
  first_best (λ b c, bool_decide (remaining_of st c < remaining_of st b ∨
                (remaining_of st c = remaining_of st b ∧ pos b < pos c)))
    (default "" (head tapes)) (tail tapes).

Definition tape_mod (tapes : list string) (n : nat) : string :=
  default "" (tapes !! (n mod length tapes)%nat).

Fixpoint assign_groups (q : ArchivePlanRequest) (tapes : list string) (st : shard_state)
    (groups : list (list string)) : shard_state :=
  match groups with
  | [] => st
  | group :: groups =>
      let preferred := roomiest tapes st in
      if bool_decide (remaining_of st preferred >= total_size q group)
      then assign_groups q tapes (assign_all q tapes (λ _ _ _, preferred) 0 st group) groups
      else
        let st := assign_all q tapes (λ _ st _, roomiest tapes st) 0 st group in
        if bool_decide (pl_enqueue_blockers (sh_plan st) = [])
        then assign_groups q tapes st groups else st
  end.

(** The hash-prefix strategy: the code of the first letter of the file's name. *)
Definition prefix_value (file : string) : nat :=
  match (if bool_decide (basename file = "") then file else basename file) with
  | String c _ => nat_of_ascii (lower_ascii c)
  | EmptyString => O
  end.

(** The restore-parallelism strategy: big files first, each to the tape with the
    least load. *)
Definition least_loaded (tapes : list string) (loads : dict string Z) (st : shard_state) : string :=
  let pos b := dget_or (tape_positions tapes) b 0 in
  let load b := dget_or loads b 0 in
  first_best (λ b c, bool_decide (load b < load c ∨
       (load b = load c ∧ (remaining_of st c < remaining_of st b ∨
       (remaining_of st c = remaining_of st b ∧ pos b < pos c)))))
    (default "" (head tapes)) (tail tapes).

Definition placed_tape (st : shard_state) (relative : string) : option string :=
  fst <$> (snd <$> list_find (λ ba, relative ∈ ta_files ba.2) (sh_assignments st)).

Fixpoint assign_balanced (q : ArchivePlanRequest) (tapes : list string) (loads : dict string Z)
    (st : shard_state) (files : list string) : result shard_state :=
  match files with
  | [] => Ok st
  | file :: files =>
      let '(ok, st) := assign_file q tapes st (least_loaded tapes loads st) file in
      if ok then
        match placed_tape st (_make_relative file (rq_source_path q)) with
        | None => Raise (OtherError "StopIteration")
        | Some b =>
            assign_balanced q tapes (dset loads b (dget_or loads b 0 + _file_size q file)) st files
        end
      else Ok st
  end.

(** [sorted(files, key=(size, path), reverse=True)]: descending, and stable. *)
Definition bigger_first (q : ArchivePlanRequest) (f g : string) : bool :=
  bool_decide (_file_size q g < _file_size q f) ||
  (bool_decide (_file_size q g = _file_size q f) && String.leb g f).

Definition oversized_warning (q : ArchivePlanRequest) (over : list string) (n : Z) : string :=
  let sample := String.concat ", " ((λ f, _make_relative f (rq_source_path q)) <$> take 3 over) in
  let sample := if bool_decide (3 < length over)%nat then sample ++ ", ..." else sample in
  pretty (Z.of_nat (length over)) ++ " file(s) exceed configured shard_size_bytes (" ++
  pretty n ++ ") and were assigned as oversized shards: " ++ sample.

Definition _plan_noncritical_sharded (q : ArchivePlanRequest) (p : ArchivePlan) : result ArchivePlan :=
  let strategy := default ROUND_ROBIN (rq_shard_strategy q) in
  let tapes := _ordered_tapes q in
  let st := MkShardState p [] (dict_of ((λ b, (b, _tape_capacity q b)) <$> tapes))
              (dict_of ((λ b, (b, 0)) <$> tapes)) [] in
  let files := pl_files p in
  st ← match strategy with
       | ROUND_ROBIN => Ok (assign_all q tapes (λ i _ _, tape_mod tapes i) 0 st files)
       | CAPACITY_WEIGHTED => Ok (assign_all q tapes (λ _ st _, roomiest tapes st) 0 st files)
       | DIRECTORY_BATCH => Ok (assign_groups q tapes st (_directory_groups files))
       | HASH_PREFIX => Ok (assign_all q tapes (λ _ _ f, tape_mod tapes (prefix_value f)) 0 st files)
       | RESTORE_PARALLELISM_OPTIMIZED =>
           assign_balanced q tapes (dict_of ((λ b, (b, 0)) <$> tapes)) st
             (sort_by (bigger_first q) files)
       end;
  let ordered := omap (dget (sh_assignments st)) tapes in
  let p := set_assignments (sh_plan st) ordered in
  let p := set_swaps (set_parallelism p (Z.min (Z.of_nat (length ordered)) (rq_max_parallelism q))) 0 in
  let p := match rq_shard_size_bytes q with
           | Some n => if bool_decide (sh_oversized st = []) then p
                       else _add_capacity_warning p (oversized_warning q (sh_oversized st) n)
                              (Some "shard_size_bytes")
           | None => p
           end in
  Ok (settle p).

(** ** Balanced: sharded when the data set exceeds 85% of a tape *)
Definition _plan_balanced (q : ArchivePlanRequest) (p : ArchivePlan) : result ArchivePlan :=
  let single := _single_tape_capacity q in
  restore_time ← true_div (pl_total_bytes p) RESTORE_THROUGHPUT_BYTES_PER_SECOND;
  threshold ← (x ← float_of_int single; int_of_float (float_mul x float_0_85));
  slow_limit ← float_of_int RESTORE_TIME_SHARD_THRESHOLD_SECONDS;
  if bool_decide (pl_total_bytes p > threshold) then
    let reasons :=
      (["dataset size exceeds 85% of single tape capacity"] ++
       (if bool_decide (pl_total_files p > balanced_shard_file_threshold)
        then ["file count exceeds 50000"] else []) ++
       (if float_lt slow_limit restore_time
        then ["estimated single-tape restore time exceeds threshold"] else []) ++
       (if bool_decide (pl_total_bytes p > single) then ["dataset does not fit on one tape"] else []))%list in
    let p := foldl (λ p r, _add_capacity_warning p
                      ("Balanced planning switched to sharded mode: " ++ r) None) p reasons in
    _plan_noncritical_sharded
      (with_strategy q NONCRITICAL_SHARDED
         (Some (default DIRECTORY_BATCH (rq_shard_strategy q)))) p
  else _plan_critical_sequential (with_strategy q CRITICAL_SEQUENTIAL (rq_shard_strategy q)) p.

Definition initial_plan (q : ArchivePlanRequest) (plan_id created_at : string) : ArchivePlan :=
  let files := sort_by String.leb (rq_files q) in
  MkArchivePlan plan_id (rq_policy_id q) (rq_policy_type q) (rq_ingest_mode q) (rq_source_path q)
    (rq_pool q) (rq_volume_group q) files (Z.of_nat (length files)) (total_size q files) [] 0 1
    (rq_copies q) (rq_verify_before_archive q) (rq_verify_after_archive q)
    (rq_shard_size_bytes q) [] [] "per_tape" true [] created_at.

Definition plan (q : ArchivePlanRequest) (plan_id created_at : string) : result ArchivePlan :=
  let p := initial_plan q plan_id created_at in
  _ ← _check_media q;
  let p := _apply_common_checks q p in
  if negb (pl_is_safe_to_enqueue p) then Ok p
  else match default BALANCED (rq_policy_type q) with
       | CRITICAL_SEQUENTIAL => _plan_critical_sequential q p
       | NONCRITICAL_SHARDED => _plan_noncritical_sharded q p
       | BALANCED => _plan_balanced q p
       end.

#[local] Open Scope list_scope.

(** * What a plan promises

    [holds q a g]: the assignment [a] carries exactly the files [g], counts their
    bytes, and they fit on its tape.  [placed q l files]: the assignments [l]
    divide [files] among them. *)
Definition holds (q : ArchivePlanRequest) (a : TapeAssignment) (g : list string) : Prop :=
  ta_files a = _relative_files g (rq_source_path q) ∧
  ta_estimated_bytes a = total_size q g ∧
  ta_estimated_bytes a ≤ _tape_capacity q (ta_barcode a).

Definition placed (q : ArchivePlanRequest) (l : list TapeAssignment) (files : list string) : Prop :=
  ∃ parts : list (TapeAssignment * list string),
    parts.*1 = l ∧ concat parts.*2 ≡ₚ files ∧ Forall (λ x, holds q x.1 x.2) parts.

(** Tapes used at most once each, and only those offered. *)
Definition on_tapes (tapes : list string) (l : list TapeAssignment) : Prop :=
  NoDup (ta_barcode <$> l) ∧ ∀ a, a ∈ l → ta_barcode a ∈ tapes.

Definition media_ok (q : ArchivePlanRequest) (b : string) : Prop :=
  ∀ c, dget (rq_cartridges q) b = Some c →
    is_foreign c = false ∧
    ∀ g, rq_drive_generation q = Some g → can_write g (cart_generation c) = true.

(** ** Small facts *)
Lemma total_size_cons q f l : total_size q (f :: l) = _file_size q f + total_size q l.
Proof. done. Qed.

Lemma total_size_app q l l' : total_size q (l ++ l') = total_size q l + total_size q l'.
Proof. induction l as [|f l IH]; [done|]. simpl. rewrite !total_size_cons, IH. lia. Qed.

Lemma total_size_perm q l l' : l ≡ₚ l' → total_size q l = total_size q l'.
Proof. induction 1; rewrite ?total_size_cons in *; lia. Qed.

Lemma relative_files_app l l' src :
  _relative_files (l ++ l') src = (_relative_files l src ++ _relative_files l' src)%list.
Proof. apply fmap_app. Qed.

Lemma tape_capacity_nonneg q b : 0 ≤ _tape_capacity q b.
Proof. unfold _tape_capacity. lia. Qed.

Lemma ordered_tapes_perm q : _ordered_tapes q ≡ₚ rq_available_tapes q.
Proof.
  unfold _ordered_tapes. induction (rq_available_tapes q) as [|b l IH]; [done|].
  rewrite !filter_cons. destruct (_is_scratch_tape b); simpl.
  - rewrite <-Permutation_middle. by f_equiv.
  - by f_equiv.
Qed.

Lemma directory_groups_concat dir g l : concat (directory_groups dir g l) = (g ++ l)%list.
Proof.
  revert dir g. induction l as [|f l IH]; intros dir g; simpl.
  - case_bool_decide; subst; simpl; by rewrite ?app_nil_r.
  - case_bool_decide; simpl; rewrite IH; [by rewrite <-app_assoc | done].
Qed.

Lemma block_plan_blocked p msg : pl_enqueue_blockers (_block_plan p msg) ≠ [].
Proof.
  simpl. case_bool_decide as H; [|by intros []%app_nil].
  intros Hn. rewrite Hn in H. by apply not_elem_of_nil in H.
Qed.

Lemma holds_extend q a g g' :
  holds q a g → ta_estimated_bytes a + total_size q g' ≤ _tape_capacity q (ta_barcode a) →
  holds q (extend_assignment q g' a) (g ++ g').
Proof.
  intros (Hf & Hb & _) Hle. split_and!; simpl; [|by rewrite total_size_app, Hb|done].
  by rewrite Hf, relative_files_app.
Qed.

(** * The sequential strategy *)
Section sequential.
Context (q : ArchivePlanRequest) (tapes : list string).

(** The assignments made so far are those of the first tapes, the last possibly
    the current one, and hold the files handled so far in their order. *)
Definition seq_inv (l : list TapeAssignment) (i : nat) (fs : list string) : Prop :=
  ∃ parts : list (TapeAssignment * list string),
    parts.*1 = l ∧ concat parts.*2 = fs ∧ Forall (λ x, holds q x.1 x.2) parts ∧
    ta_barcode <$> l = take (length l) tapes ∧ (i ≤ length l ≤ S i)%nat.

Lemma seq_inv_bytes l i fs a : seq_inv l i fs → l !! i = Some a →
  ta_estimated_bytes a ≤ _tape_capacity q (ta_barcode a) ∧ tapes !! i = Some (ta_barcode a).
Proof.
  intros (parts & <- & _ & Hall & Hb & Hi) Ha. split.
  - apply list_lookup_fmap_Some in Ha as ([? g] & -> & Hx).
    rewrite Forall_lookup in Hall. by destruct (Hall _ _ Hx) as (_ & _ & ?).
  - assert (ta_barcode <$> parts.*1 !! i = Some (ta_barcode a)) as H by by rewrite Ha.
    rewrite <-list_lookup_fmap, Hb in H. rewrite lookup_take_Some in H. apply H.
Qed.

Lemma seq_inv_next l i fs a : seq_inv l i fs → l !! i = Some a → seq_inv l (S i) fs.
Proof.
  intros (parts & ? & ? & ? & ? & ?) ?%lookup_lt_Some. exists parts. split_and!; try done; lia.
Qed.

Lemma seq_inv_fresh l i fs b : seq_inv l i fs → l !! i = None → tapes !! i = Some b →
  seq_inv (l ++ [MkTapeAssignment b [] 0 false None]) i fs ∧
  (l ++ [MkTapeAssignment b [] 0 false None]) !! i = Some (MkTapeAssignment b [] 0 false None).
Proof.
  intros (parts & <- & <- & Hall & Hb & Hi) Hl%lookup_ge_None Ht.
  assert (i = length parts.*1) as -> by lia. split; [|by rewrite list_lookup_middle].
  exists (parts ++ [(MkTapeAssignment b [] 0 false None, [])]). split_and!.
  - by rewrite fmap_app.
  - by rewrite fmap_app, concat_app, app_nil_r.
  - apply Forall_app. split; [done|]. constructor; [|done]. split_and!; simpl; try done.
    apply tape_capacity_nonneg.
  - rewrite fmap_app, Hb, length_app. simpl. rewrite Nat.add_1_r. by erewrite take_S_r.
  - rewrite length_app. simpl. lia.
  - rewrite length_app. simpl. lia.
Qed.

Lemma seq_inv_extend l i fs a g : seq_inv l i fs → l !! i = Some a →
  ta_estimated_bytes a + total_size q g ≤ _tape_capacity q (ta_barcode a) →
  seq_inv (alter (extend_assignment q g) i l) i (fs ++ g).
Proof.
  intros (parts & <- & <- & Hall & Hb & Hi) Ha Hle.
  pose proof (lookup_lt_Some _ _ _ Ha) as Hlt. assert (length parts.*1 = S i) as Hlen by lia.
  rewrite length_fmap in Hlen. destruct parts as [|x parts' _] using rev_ind; [done|].
  rewrite length_app in Hlen. simpl in Hlen. assert (i = length parts'.*1) as ->.
  { rewrite length_fmap. lia. }
  rewrite fmap_app in *. simpl in *. rewrite list_lookup_middle in Ha by done. simplify_eq.
  apply Forall_app in Hall as [Hall [Hx _]%Forall_cons].
  rewrite alter_app_r_alt, Nat.sub_diag by done. simpl.
  exists (parts' ++ [(extend_assignment q g x.1, x.2 ++ g)])%list. split_and!.
  - by rewrite fmap_app.
  - rewrite !fmap_app, !concat_app. simpl. by rewrite !app_nil_r, app_assoc.
  - apply Forall_app. split; [done|]. constructor; [|done]. by apply holds_extend.
  - rewrite fmap_app, length_app in *. apply Hb.
  - rewrite length_app in *. simpl in *. lia.
  - rewrite length_app in *. simpl in *. lia.
Qed.

(** What a group leaves behind when it is placed, or the plan blocked. *)
Definition seq_result (p : ArchivePlan) (fs : list string) (o : sq_outcome) : Prop :=
  match o with
  | SqDone p' l i => seq_inv l i fs ∧ pl_enqueue_blockers p' = pl_enqueue_blockers p ∧
                     pl_files p' = pl_files p
  | SqBlocked p' _ => pl_is_safe_to_enqueue p' = false
  end.

Lemma first_split_fits consumed g cap : consumed ≤ cap →
  consumed + total_size q (take (first_split_index q consumed g cap) g) ≤ cap.
Proof.
  revert consumed. induction g as [|f g IH]; intros consumed Hc; simpl.
  - change (total_size q []) with 0. lia.
  - case_bool_decide; simpl; [change (total_size q []) with 0; lia|].
    rewrite total_size_cons, Z.add_assoc. apply IH. lia.
Qed.

Lemma place_group_sound fuel p l i g fs o :
  seq_inv l i fs → place_group fuel q tapes p l i g = Some o → seq_result p (fs ++ g) o.
Proof.
  revert p l i g fs. induction fuel as [|fuel IH]; intros p l i g fs Hinv; [done|]. simpl.
  destruct (tapes !! i) as [b|] eqn:Ht; [|by intros [= <-]].
  case_bool_decide as Hskip.
  { destruct Hskip as ([a Ha] & _). intros Ho. eapply IH; [by eapply seq_inv_next | done]. }
  (* the assignment of tape [i], made if it was not there *)
  set (fresh := bool_decide (l !! i = None)).
  set (p1 := if fresh && _is_scratch_tape b then _ else p).
  set (l1 := if fresh then _ else l).
  assert (∃ a, l1 !! i = Some a ∧ ta_barcode a = b ∧ seq_inv l1 i fs ∧ 
          match l !! i with Some a => ta_estimated_bytes a | None => 0 end
          = ta_estimated_bytes a) as (a & Ha & Hb & Hinv1 & ->).
  { unfold l1, fresh. case_bool_decide as Hl.
    - destruct (seq_inv_fresh l i fs b Hinv Hl Ht) as [? Hn]. rewrite Hl.
      eexists. by split_and!.
    - destruct (l !! i) as [a|] eqn:Ha; [|done]. exists a. split_and!; try done.
      destruct (seq_inv_bytes l i fs a Hinv Ha). congruence. }
  assert (pl_enqueue_blockers p1 = pl_enqueue_blockers p ∧ pl_files p1 = pl_files p) as [Hp1 Hf1]
    by by unfold p1; destruct (_ && _).
  rewrite Ha. destruct (seq_inv_bytes l1 i fs a Hinv1 Ha) as [Hcap _]. rewrite Hb in Hcap.
  case_bool_decide as Hfits.
  { intros [= <-]. split_and!; [|done..]. eapply seq_inv_extend; [done..|]. rewrite Hb. lia. }
  destruct (_first_split_index _ _ _) as [|k] eqn:Hk.
  - case_bool_decide; [by intros [= <-]|]. intros Ho. 
    eapply IH in Ho; [|by eapply seq_inv_next]. destruct o; simpl in *; [|done].
    by rewrite Hp1, Hf1 in Ho.
  - intros Ho. eapply (IH _ _ _ _ (fs ++ take (S k) g)) in Ho.
    + rewrite <-app_assoc, take_drop in Ho. destruct o; simpl in *; [|done].
      by rewrite Hp1, Hf1 in Ho.
    + eapply seq_inv_next with (a := extend_assignment q (take (S k) g) a);
        [|by rewrite list_lookup_alter_eq, Ha].
      eapply seq_inv_extend; [done..|].
      pose proof (first_split_fits 0 g (_tape_capacity q b - ta_estimated_bytes a)) as Hs.
      unfold _first_split_index in Hk. rewrite Hk in Hs. rewrite Hb. lia.
Qed.

Lemma place_group_fuel fuel p l i g : 
  (length tapes - i < fuel)%nat → is_Some (place_group fuel q tapes p l i g).
Proof.
  revert p l i g. induction fuel as [|fuel IH]; intros p l i g Hf; simpl; [lia|].
  destruct (tapes !! i) as [b|] eqn:Ht; [|done]. apply lookup_lt_Some in Ht.
  case_bool_decide; [apply IH; lia|].
  case_bool_decide; [done|].
  destruct (_first_split_index _ _ _); [case_bool_decide; [done|]|]; apply IH; lia.
Qed.

Lemma place_groups_sound fuel p l i gs fs o :
  seq_inv l i fs → place_groups fuel q tapes p l i gs = Some o → seq_result p (fs ++ concat gs) o.
Proof.
  revert p l i fs. induction gs as [|g gs IH]; intros p l i fs Hinv; simpl.
  { intros [= <-]. by rewrite app_nil_r. }
  destruct (place_group _ _ _ _ _ _ _) as [[p' l' i'|p' l']|] eqn:Hg; [| |done].
  - destruct (place_group_sound _ _ _ _ _ _ _ Hinv Hg) as (Hinv' & Hp' & Hf').
    intros Ho. eapply IH in Ho; [|done]. rewrite <-app_assoc in Ho.
    destruct o; simpl in *; [|done]. by rewrite Hp', Hf' in Ho.
  - intros [= <-]. by apply (place_group_sound _ _ _ _ _ _ _ Hinv Hg).
Qed.

Lemma place_groups_fuel fuel p l i gs : 
  (length tapes < fuel)%nat → is_Some (place_groups fuel q tapes p l i gs).
Proof.
  intros Hf. revert p l i. induction gs as [|g gs IH]; intros p l i; simpl; [done|].
  destruct (place_group_fuel fuel p l i g) as [[] ->]; [lia | apply IH | done].
Qed.
End sequential.

Lemma holds_spillover q l (parts : list (TapeAssignment * list string)) :
  parts.*1 = l → Forall (λ x, holds q x.1 x.2) parts →
  ∃ parts', parts'.*1 = mark_spillover l ∧ parts'.*2 = parts.*2 ∧
            Forall (λ x, holds q x.1 x.2) parts'.
Proof.
  intros <- Hall. unfold mark_spillover.
  exists (imap (λ i x, (MkTapeAssignment (ta_barcode x.1) (ta_files x.1) (ta_estimated_bytes x.1)
                          (bool_decide (0 < i)%nat) (ta_shard_index x.1), x.2)) parts).
  split_and!.
  - by rewrite fmap_imap, imap_fmap.
  - apply list_eq. intros i. rewrite fmap_imap, list_lookup_imap, list_lookup_fmap.
    by destruct (_ !! i).
  - apply Forall_lookup. intros i x. rewrite list_lookup_imap. intros (y & Hy & ->)%fmap_Some.
    rewrite Forall_lookup in Hall. apply (Hall _ _ Hy).
Qed.

Lemma mark_spillover_barcodes l : ta_barcode <$> mark_spillover l = ta_barcode <$> l.
Proof.
  apply list_eq. intros i. unfold mark_spillover. rewrite !list_lookup_fmap, list_lookup_imap.
  by destruct (l !! i).
Qed.

(** What a strategy returns when it is safe to enqueue. *)
Definition plan_good (q : ArchivePlanRequest) (files : list string) (p : ArchivePlan) : Prop :=
  pl_is_safe_to_enqueue p = true →
  placed q (pl_tape_assignments p) files ∧
  on_tapes (rq_available_tapes q) (pl_tape_assignments p).

Definition in_order (q : ArchivePlanRequest) (files : list string) (p : ArchivePlan) : Prop :=
  pl_is_safe_to_enqueue p = true →
  concat (ta_files <$> pl_tape_assignments p) = _relative_files files (rq_source_path q).

Lemma holds_files q (parts : list (TapeAssignment * list string)) :
  Forall (λ x, holds q x.1 x.2) parts →
  concat (ta_files <$> parts.*1) = _relative_files (concat parts.*2) (rq_source_path q).
Proof.
  induction 1 as [|[a g] parts [Hf _] _ IH]; csimpl; [done|].
  simpl in Hf. by rewrite relative_files_app, <-Hf, <-IH.
Qed.

Lemma on_tapes_perm l l' as_ : l ≡ₚ l' → on_tapes l as_ → on_tapes l' as_.
Proof. intros Hp [Hn Hin]. split; [done|]. intros a Ha. rewrite <-Hp. auto. Qed.

Lemma sequential_good q p p' : NoDup (rq_available_tapes q) →
  pl_total_bytes p = total_size q (pl_files p) →
  _plan_critical_sequential q p = Ok p' →
  plan_good q (pl_files p) p' ∧ in_order q (pl_files p) p'.
Proof.
  intros Hnd Htot. unfold _plan_critical_sequential, plan_sequential_fuel.
  rewrite <-ordered_tapes_perm in Hnd.
  destruct (x ← float_of_int _; _) as [limit|e]; [|done]. simpl.
  set (p1 := if bool_decide (rq_ingest_mode q = _) then _ else _).
  assert (pl_total_bytes p1 = pl_total_bytes p ∧ pl_files p1 = pl_files p) as [Ht1 Hf1].
  { unfold p1. by repeat case_bool_decide. }
  destruct (list_find _ _) as [[i b]|] eqn:Hfind.
  - intros [= <-]. apply list_find_Some in Hfind as (Hb & Hfit & _).
    assert (∀ p2, pl_tape_assignments (settle (set_swaps (if _is_scratch_tape b then
       _add_capacity_warning p2 ("Using scratch tape " +:+ b +:+
         " because no preferred tape had enough capacity") (Some "available_tapes")
       else p2) 0)) = pl_tape_assignments p2) as Has by by intros p2; destruct (_is_scratch_tape b).
    unfold plan_good, in_order. rewrite Has. simpl. rewrite Hf1, Ht1. split; intros _.
    + split.
      * exists [(MkTapeAssignment b (_relative_files (pl_files p) (rq_source_path q))
                   (pl_total_bytes p) false None, pl_files p)]. split_and!; [done| |].
        { simpl. by rewrite app_nil_r. }
        apply Forall_singleton. split_and!; simpl; [done|done|]. lia.
      * apply (on_tapes_perm (_ordered_tapes q)); [apply ordered_tapes_perm|]. split; simpl.
        { apply NoDup_singleton. }
        intros a ->%list_elem_of_singleton. by eapply list_elem_of_lookup_2.
    + by rewrite app_nil_r.
  - destruct (place_groups _ _ _ _ _ _ _) as [[p2 l i|p2 l]|] eqn:Hpl; [| |done].
    + intros [= <-].
      assert (seq_inv q (_ordered_tapes q) [] 0 []) as Hinv.
      { exists []. split_and!; simpl; try done; lia. }
      destruct (place_groups_sound _ _ _ _ _ _ _ _ _ Hinv Hpl)
        as ((parts & Hl & Hc & Hall & Hb & _) & _).
      destruct (holds_spillover q l parts Hl Hall) as (parts' & Hl' & Hc' & Hall').
      unfold _directory_groups in Hc. rewrite directory_groups_concat, Hf1 in Hc. simpl in Hc.
      split; intros _; simpl.
      * split; [by exists parts'; rewrite Hc', Hc|].
        apply (on_tapes_perm (_ordered_tapes q)); [apply ordered_tapes_perm|]. split.
        { rewrite mark_spillover_barcodes, Hb. eapply sublist_NoDup; [done | apply sublist_take]. }
        intros a Ha. apply (list_elem_of_fmap_2 ta_barcode) in Ha.
        rewrite mark_spillover_barcodes, Hb in Ha. apply elem_of_take in Ha as (j & Hj & _).
        by eapply list_elem_of_lookup_2.
      * by rewrite <-Hl', (holds_files q), Hc', Hc by done.
    + intros [= <-]. unfold plan_good, in_order. simpl.
      assert (seq_inv q (_ordered_tapes q) [] 0 []) as Hinv.
      { exists []. split_and!; simpl; try done; lia. }
      pose proof (place_groups_sound _ _ _ _ _ _ _ _ _ Hinv Hpl) as Hs. simpl in Hs.
      by rewrite Hs.
Qed.

(** * The sharded strategies *)
Section sharded.
Context (q : ArchivePlanRequest) (tapes : list string).

(** An entry of [assignments]: filed under its barcode, one of the tapes, with
    [remaining] what is left of that tape. *)
Definition entry_ok (st : shard_state) (x : (string * TapeAssignment) * list string) : Prop :=
  ta_barcode x.1.2 = x.1.1 ∧ holds q x.1.2 x.2 ∧ x.1.1 ∈ tapes ∧
  remaining_of st x.1.1 = _tape_capacity q x.1.1 - ta_estimated_bytes x.1.2.

Definition sh_inv (st : shard_state) (fs : list string) : Prop :=
  (∃ parts : list ((string * TapeAssignment) * list string),
    parts.*1 ≡ₚ sh_assignments st ∧ concat parts.*2 ≡ₚ fs ∧ Forall (entry_ok st) parts) ∧
  dict_wf (sh_assignments st) ∧
  (∀ b, b ∈ tapes → dget (sh_assignments st) b = None → remaining_of st b = _tape_capacity q b).

(** While the plan is not blocked, the files handled so far are placed. *)
Definition sh_good (st : shard_state) (fs : list string) : Prop :=
  pl_enqueue_blockers (sh_plan st) = [] → sh_inv st fs.

Lemma remaining_put st f b b' :
  remaining_of (put_file q tapes st f b) b' =
  if decide (b = b') then remaining_of st b - _file_size q f else remaining_of st b'.
Proof.
  unfold remaining_of, put_file, dget_or. simpl. rewrite dget_dset. by case_decide.
Qed.

Lemma entry_ok_put_other st f b x :
  x.1.1 ≠ b → entry_ok st x → entry_ok (put_file q tapes st f b) x.
Proof.
  intros Hne (? & ? & ? & ?). split_and!; try done. by rewrite remaining_put, decide_False.
Qed.

(** The entry of one tape set apart: made if it was not there. *)
Lemma sh_inv_focus st fs b : b ∈ tapes → sh_inv st fs →
  ∃ g (parts : list ((string * TapeAssignment) * list string)),
    entry_ok st ((b, get_assignment tapes st b), g) ∧ Forall (entry_ok st) parts ∧
    concat parts.*2 ++ g ≡ₚ fs ∧ b ∉ parts.*1.*1 ∧
    ∀ v, dset (sh_assignments st) b v ≡ₚ (b, v) :: parts.*1.
Proof.
  intros Hb ((parts & Hparts & Hp & Hall) & Hwf & Hnone). unfold get_assignment.
  destruct (dset_perm (sh_assignments st) b Hwf) as (rest & Hd & Hrest & Hset).
  destruct (dget (sh_assignments st) b) as [a|] eqn:Hg; simpl in Hd.
  - rewrite Hd in Hparts. symmetry in Hparts. apply Permutation_map_inv in Hparts
      as ([|[e g] ps] & Hps & Hpp); [done|]. injection Hps as <- ->.
    rewrite Hpp in Hall, Hp. apply Forall_cons in Hall as [He Hall].
    exists g, ps. split_and!; try done. rewrite <-Hp. csimpl. apply (comm (++)).
  - exists [], parts. rewrite Hparts, Hd, app_nil_r. split_and!; try done.
    split_and!; simpl; try done.
    + split_and!; simpl; try done. apply tape_capacity_nonneg.
    + rewrite Hnone by done. lia.
    + intros v. by rewrite Hset, <-Hd, Hparts.
Qed.

(** Putting a file on a tape that has room for it. *)
Lemma put_file_inv st f b fs :
  b ∈ tapes → _file_size q f ≤ remaining_of st b → sh_inv st fs →
  sh_inv (put_file q tapes st f b) (fs ++ [f]).
Proof.
  intros Hb Hroom Hinv.
  destruct (sh_inv_focus st fs b Hb Hinv) as (g & parts & He & Hall & Hp & Hbs & Hset).
  destruct Hinv as (_ & Hwf & Hnone). split_and!.
  - destruct He as (Hab & (Hf & Hs & _) & _ & Hr). simpl in *. eexists ((_, _) :: parts).
    split_and!; [symmetry; apply Hset | | constructor].
    + csimpl. instantiate (1 := g ++ [f]). by rewrite <-Hp, (Permutation_app_comm (g ++ [f])), app_assoc.
    + split_and!; simpl; try done.
      * split_and!; simpl; [by rewrite Hf, relative_files_app| |rewrite Hab; lia].
        rewrite total_size_app, Hs, total_size_cons. change (total_size q []) with 0. lia.
      * rewrite remaining_put, decide_True by done. lia.
    + rewrite Forall_forall in *. intros x Hx. apply entry_ok_put_other; [|by apply Hall].
      intros <-. apply Hbs. by apply (list_elem_of_fmap_2 fst), (list_elem_of_fmap_2 fst).
  - by apply dict_wf_dset.
  - intros b' Hb'. unfold put_file at 1. simpl. rewrite dget_dset. case_decide; [done|].
    intros Hn. rewrite remaining_put, decide_False by done. by apply Hnone.
Qed.

Lemma find_tape_Some st pref size b : pref ∈ tapes →
  find_tape q tapes st pref size = Some b → b ∈ tapes ∧ size ≤ remaining_of st b.
Proof.
  intros Hpref ([i b'] & Hfind & ->)%fmap_Some. 
  apply list_find_Some in Hfind as (Hb & Hacc & _). split.
  - apply list_elem_of_lookup_2, elem_of_cons in Hb as [->|Hb]; [done|].
    by apply list_elem_of_filter in Hb as [].
  - unfold accepts in Hacc. simpl. case_bool_decide; [done|]. lia.
Qed.

(** One file, placed or blocking the plan. *)
Definition file_outcome (st : shard_state) (f : string) (r : bool * shard_state) : Prop :=
  if r.1 then
    sh_plan r.2 = sh_plan st ∧
    ∃ b a, dget (sh_assignments r.2) b = Some a ∧ _make_relative f (rq_source_path q) ∈ ta_files a
  else pl_enqueue_blockers (sh_plan r.2) ≠ [].

Lemma put_file_outcome st pref f b fs : pref ∈ tapes →
  find_tape q tapes st pref (_file_size q f) = Some b → sh_good st fs →
  file_outcome st f (true, put_file q tapes st f b) ∧ sh_good (put_file q tapes st f b) (fs ++ [f]).
Proof.
  intros Hpref Hb Hgood. destruct (find_tape_Some _ _ _ _ Hpref Hb). split.
  - split; [done|]. eexists b, _. unfold put_file. simpl. split; [by rewrite dget_dset_eq|].
    simpl. apply elem_of_app. right. by apply list_elem_of_singleton.
  - intros Hbl. by apply put_file_inv; [..|apply Hgood].
Qed.

Lemma assign_file_inv st pref f fs : pref ∈ tapes → sh_good st fs →
  file_outcome st f (assign_file q tapes st pref f) ∧
  sh_good (assign_file q tapes st pref f).2 (fs ++ [f]).
Proof.
  intros Hpref Hgood. unfold assign_file.
  set (st1 := match rq_shard_size_bytes q with Some _ => _ | None => st end).
  assert (sh_plan st1 = sh_plan st ∧ sh_good st1 fs) as [Hp1 Hg1].
  { unfold st1. destruct (rq_shard_size_bytes q); [case_bool_decide|]; by split. }
  destruct (find_tape q tapes st1 _ _) as [b|] eqn:Hb.
  { destruct (put_file_outcome _ _ _ _ _ Hpref Hb Hg1) as [Ho Hg].
    split; [|done]. unfold file_outcome in *. by rewrite <-Hp1. }
  set (st2 := if bool_decide (is_Some (rq_shard_size_bytes q)) then reset_fill st1 else st1).
  assert (sh_plan st2 = sh_plan st ∧ sh_good st2 fs) as [Hp2 Hg2].
  { unfold st2. case_bool_decide; by split. }
  destruct (find_tape q tapes st2 _ _) as [b|] eqn:Hb2.
  { destruct (put_file_outcome _ _ _ _ _ Hpref Hb2 Hg2) as [Ho Hg].
    split; [|done]. unfold file_outcome in *. by rewrite <-Hp2. }
  split; [apply block_plan_blocked|]. intros Hbl. by apply block_plan_blocked in Hbl.
Qed.

(** The loops that stop at the first file that cannot be placed. *)
Lemma assign_all_inv choose i st files fs :
  (∀ i st f, choose i st f ∈ tapes) → sh_good st fs →
  sh_good (assign_all q tapes choose i st files) (fs ++ files).
Proof.
  intros Hch. revert i st fs. induction files as [|f files IH]; intros i st fs Hg; simpl.
  { by rewrite app_nil_r. }
  destruct (assign_file_inv st (choose i st f) f fs (Hch _ _ _) Hg) as [Ho Hg'].
  destruct (assign_file _ _ _ _ _) as [[] st'] eqn:Has; simpl in *.
  - rewrite cons_middle, app_assoc. by apply IH.
  - intros Hbl. by apply Ho in Hbl.
Qed.

Lemma first_best_elem {A} (better : A → A → bool) x l : first_best better x l ∈ x :: l.
Proof.
  revert x. induction l as [|y l IH]; intros x; simpl; [by left|].
  specialize (IH (if better y x then y else x)). apply elem_of_cons in IH as [->|Hin].
  - destruct (better y x); [right; by left | by left].
  - by do 2 right.
Qed.

Lemma head_tail_elem (x : string) : tapes ≠ [] → 
  x ∈ default "" (head tapes) :: tail tapes → x ∈ tapes.
Proof. by destruct tapes. Qed.

Lemma roomiest_elem st : tapes ≠ [] → roomiest tapes st ∈ tapes.
Proof. intros Hne. apply head_tail_elem; [done | apply first_best_elem]. Qed.

Lemma least_loaded_elem loads st : tapes ≠ [] → least_loaded tapes loads st ∈ tapes.
Proof. intros Hne. apply head_tail_elem; [done | apply first_best_elem]. Qed.

Lemma tape_mod_elem n : tapes ≠ [] → tape_mod tapes n ∈ tapes.
Proof.
  intros Hne. unfold tape_mod.
  destruct (lookup_lt_is_Some_2 tapes (n mod length tapes)) as [b Hb].
  - apply Nat.mod_upper_bound. by destruct tapes.
  - rewrite Hb. by eapply list_elem_of_lookup_2.
Qed.

Lemma assign_groups_inv st groups fs : tapes ≠ [] → sh_good st fs →
  sh_good (assign_groups q tapes st groups) (fs ++ concat groups).
Proof.
  intros Hne. revert st fs. induction groups as [|g groups IH]; intros st fs Hg; simpl.
  { by rewrite app_nil_r. }
  pose proof (λ st, roomiest_elem st Hne) as Hr. rewrite app_assoc.
  case_bool_decide; [by apply IH, assign_all_inv|].
  case_bool_decide; [by apply IH, assign_all_inv|]. done.
Qed.

Lemma assign_balanced_inv loads st files fs : tapes ≠ [] → sh_good st fs →
  ∃ st', assign_balanced q tapes loads st files = Ok st' ∧ sh_good st' (fs ++ files).
Proof.
  intros Hne. revert loads st fs. induction files as [|f files IH]; intros loads st fs Hg; simpl.
  { exists st. by rewrite app_nil_r. }
  destruct (assign_file_inv st (least_loaded tapes loads st) f fs) as [Ho Hg'];
    [by apply least_loaded_elem | done|].
  destruct (assign_file _ _ _ _ _) as [[] st'] eqn:Has; simpl in *.
  - destruct Ho as (_ & b & a & Hb & Hin). rewrite cons_middle, app_assoc.
    destruct (placed_tape _ _) as [b'|] eqn:Hpt; [by apply IH|].
    unfold placed_tape in Hpt. destruct (list_find _ _) as [[]|] eqn:Hf; [done|].
    apply list_find_None in Hf. rewrite Forall_forall in Hf.
    by destruct (Hf _ (dget_Some_elem _ _ _ Hb)).
  - exists st'. split; [done|]. intros Hbl. by apply Ho in Hbl.
Qed.

(** The assignments in the order of the tapes are all of them. *)
Lemma ordered_assignments (d : dict string TapeAssignment) : NoDup tapes → dict_wf d →
  (∀ b, b ∈ d.*1 → b ∈ tapes) → omap (dget d) tapes ≡ₚ d.*2.
Proof.
  intros Hnd Hwf Hin.
  destruct (submseteq_Permutation d.*1 tapes) as [rest Hrest].
  { by apply NoDup_submseteq. }
  rewrite Hrest in Hnd |- *. apply NoDup_app in Hnd as (_ & Hdisj & _).
  rewrite omap_app. assert (omap (dget d) rest = []) as ->.
  { clear Hrest. induction rest as [|b rest IH]; [done|]. simpl.
    destruct (dget d b) eqn:Hb.
    - apply dget_Some_elem, (list_elem_of_fmap_2 fst) in Hb.
      destruct (Hdisj _ Hb). by left.
    - apply IH. intros x Hx Hx'. apply (Hdisj x Hx). by right. }
  rewrite app_nil_r. clear Hrest Hdisj Hin.
  assert (∀ d', (∀ k v, (k, v) ∈ d' → dget d k = Some v) → omap (dget d) d'.*1 = d'.*2) as H.
  { induction d' as [|[k v] d' IH]; [done|]. intros H. csimpl. rewrite (H k v) by by left.
    rewrite IH; [done|]. intros k' v' Hk'. apply H. by right. }
  rewrite H; [done|]. intros k v. by apply elem_dget.
Qed.

Lemma sh_inv_placed st fs : NoDup tapes → sh_inv st fs →
  let ordered := omap (dget (sh_assignments st)) tapes in
  placed q ordered fs ∧ on_tapes tapes ordered.
Proof.
  intros Hnd ((parts & Hparts & Hp & Hall) & Hwf & _) ordered. rewrite Forall_forall in Hall.
  assert (ordered ≡ₚ parts.*1.*2) as Ho.
  { rewrite Hparts. apply ordered_assignments; [done..|]. intros b Hb. rewrite <-Hparts in Hb.
    apply list_elem_of_fmap in Hb as (x & -> & Hx). apply list_elem_of_fmap in Hx as (y & -> & Hy).
    by destruct (Hall y Hy) as (_ & _ & ? & _). }
  assert (ta_barcode <$> ordered ≡ₚ (sh_assignments st).*1) as Hb.
  { rewrite Ho, <-Hparts, <-!list_fmap_compose.
    erewrite (list_fmap_ext _ (fst ∘ fst)); [done|].
    intros i x Hx%list_elem_of_lookup_2. by destruct (Hall x Hx). }
  split; [|split].
  - pose (f := λ x : (string * TapeAssignment) * list string, (x.1.2, x.2)).
    rewrite <-list_fmap_compose in Ho.
    assert (snd ∘ fst <$> parts = (f <$> parts).*1) as Hf by by rewrite <-list_fmap_compose.
    rewrite Hf in Ho. apply Permutation_map_inv in Ho as (l & Hl & Hpl).
    exists l. split_and!; [done| |].
    + rewrite <-Hp, <-Hpl, <-list_fmap_compose. done.
    + apply Forall_forall. intros x Hx. rewrite <-Hpl in Hx.
      apply list_elem_of_fmap in Hx as (y & -> & Hy). by destruct (Hall y Hy) as (_ & ? & _).
  - by rewrite Hb.
  - intros a Ha. apply (list_elem_of_fmap_2 ta_barcode) in Ha. rewrite Hb, <-Hparts in Ha.
    apply list_elem_of_fmap in Ha as (x & -> & Hx). apply list_elem_of_fmap in Hx as (y & -> & Hy).
    by destruct (Hall y Hy) as (_ & _ & ? & _).
Qed.

Lemma sh_inv_initial p d fill : (∀ b, b ∈ tapes → dget_or d b 0 = _tape_capacity q b) →
  sh_inv (MkShardState p [] d fill []) [].
Proof. intros Hd. split_and!; [by exists [] | by apply NoDup_nil | intros b Hb _; by apply Hd]. Qed.
End sharded.

Lemma ordered_tapes_ne q : rq_available_tapes q ≠ [] → _ordered_tapes q ≠ [].
Proof. intros Hne Ho. pose proof (ordered_tapes_perm q) as Hp. rewrite Ho in Hp. by apply Permutation_nil in Hp. Qed.

Lemma dget_or_tapes {A} (f : string → A) (x : A) tapes b : b ∈ tapes →
  dget_or (dict_of ((λ b, (b, f b)) <$> tapes)) b x = f b.
Proof.
  intros Hb. unfold dict_of.
  assert (∀ (d : dict string A), (b ∈ tapes ∨ dget d b = Some (f b)) →
    dget (foldl (λ d kv, dset d kv.1 kv.2) d ((λ b, (b, f b)) <$> tapes)) b = Some (f b)) as H.
  { clear Hb. induction tapes as [|t tapes IH]; intros d Hd; simpl.
    { destruct Hd as [Hd|Hd]; [by apply not_elem_of_nil in Hd | done]. }
    apply IH. destruct (decide (t = b)) as [->|Hne]; [right; apply dget_dset_eq|].
    destruct Hd as [[->|Hd]%elem_of_cons|Hd]; [done | by left |].
    right. by rewrite dget_dset_ne. }
  unfold dget_or. by rewrite H by by left.
Qed.

(** Every sharded strategy places all files, or blocks the plan. *)
Lemma sharded_good q p : NoDup (rq_available_tapes q) → rq_available_tapes q ≠ [] →
  ∃ p', _plan_noncritical_sharded q p = Ok p' ∧ plan_good q (pl_files p) p'.
Proof.
  intros Hnd Hne%ordered_tapes_ne. unfold _plan_noncritical_sharded.
  rewrite <-ordered_tapes_perm in Hnd. set (tapes := _ordered_tapes q) in *.
  set (st := MkShardState p [] _ _ []).
  assert (sh_good q tapes st []) as Hst.
  { intros _. apply sh_inv_initial. intros b. apply dget_or_tapes. }
  assert (∃ st' fs, match default ROUND_ROBIN (rq_shard_strategy q) with
    | ROUND_ROBIN => Ok (assign_all q tapes (λ i _ _, tape_mod tapes i) 0 st (pl_files p))
    | CAPACITY_WEIGHTED => Ok (assign_all q tapes (λ _ st _, roomiest tapes st) 0 st (pl_files p))
    | DIRECTORY_BATCH => Ok (assign_groups q tapes st (_directory_groups (pl_files p)))
    | HASH_PREFIX =>
        Ok (assign_all q tapes (λ _ _ f, tape_mod tapes (prefix_value f)) 0 st (pl_files p))
    | RESTORE_PARALLELISM_OPTIMIZED =>
        assign_balanced q tapes (dict_of ((λ b, (b, 0)) <$> tapes)) st
          (sort_by (bigger_first q) (pl_files p))
    end = Ok st' ∧ fs ≡ₚ pl_files p ∧ sh_good q tapes st' fs) as (st' & fs & -> & Hfs & Hgood).
  { destruct (default _ _).
    - eexists _, _. split_and!; [done| |apply (assign_all_inv _ _ _ _ _ _ []); [|done]]; [done|].
      intros. by apply tape_mod_elem.
    - eexists _, _. split_and!; [done| |apply (assign_all_inv _ _ _ _ _ _ []); [|done]]; [done|].
      intros. by apply roomiest_elem.
    - eexists _, _. split_and!; [done| |by apply (assign_groups_inv _ _ _ _ [])]. simpl.
      unfold _directory_groups. by rewrite directory_groups_concat.
    - eexists _, _. split_and!; [done| |apply (assign_all_inv _ _ _ _ _ _ []); [|done]]; [done|].
      intros. by apply tape_mod_elem.
    - destruct (assign_balanced_inv q tapes (dict_of ((λ b, (b, 0)) <$> tapes)) st
        (sort_by (bigger_first q) (pl_files p)) []) as (st' & -> & Hg'); [done..|].
      eexists _, _. split_and!; [done| |done]. simpl. apply sort_by_perm. }
  eexists. split; [done|]. unfold plan_good.
  set (p1 := set_swaps _ 0).
  assert (∀ p2, pl_tape_assignments p2 = pl_tape_assignments p1 →
      pl_enqueue_blockers p2 = pl_enqueue_blockers p1 → pl_is_safe_to_enqueue (settle p2) = true →
      placed q (pl_tape_assignments (settle p2)) (pl_files p) ∧
      on_tapes (rq_available_tapes q) (pl_tape_assignments (settle p2))) as Hfin.
  { intros p2 Ha Hb. simpl. rewrite Ha, Hb, bool_decide_eq_true. intros Hbl.
    destruct (sh_inv_placed q tapes st' fs Hnd (Hgood Hbl)) as [(parts & ? & Hp & ?) Hon].
    split; [exists parts; split_and!; [done|by rewrite Hp|done]|].
    by eapply on_tapes_perm, Hon; apply ordered_tapes_perm. }
  apply Hfin; by destruct (rq_shard_size_bytes q); try case_bool_decide.
Qed.

Lemma check_cartridge_ok q b : is_ok (check_cartridge q b) = true → media_ok q b.
Proof.
  unfold check_cartridge, media_ok. intros H c Hc. rewrite Hc in H.
  destruct (is_foreign c); [done|]. split; [done|]. intros g Hg. rewrite Hg in H.
  destruct (require_writable c g) as [[]|] eqn:Hw; [|done]. by apply require_writable_ok in Hw as [].
Qed.

Lemma check_media_ok q u : _check_media q = Ok u → ∀ b, b ∈ rq_available_tapes q → media_ok q b.
Proof.
  unfold _check_media. intros H b Hb. apply check_cartridge_ok.
  destruct (mapR _ _) as [l|] eqn:Hm; [|done]. by eapply mapR_is_ok.
Qed.

(** What the common checks leave of a fresh plan. *)
Definition checked (q : ArchivePlanRequest) (p : ArchivePlan) : Prop :=
  pl_files p = sort_by String.leb (rq_files q) ∧
  pl_total_bytes p = total_size q (pl_files p) ∧
  pl_is_safe_to_enqueue p = bool_decide (pl_enqueue_blockers p = []) ∧
  (pl_is_safe_to_enqueue p = true → rq_available_tapes q ≠ [] ∧
     (is_Some (rq_pool q) →
        total_size q (rq_files q) * rq_copies q ≤ pool_capacity_bytes q - rq_pool_reserved_bytes q)).

Lemma common_checks_checked q id ts : checked q (_apply_common_checks q (initial_plan q id ts)).
Proof.
  unfold _apply_common_checks, _check_pool_budget.
  assert (total_size q (sort_by String.leb (rq_files q)) = total_size q (rq_files q)) as Hs.
  { apply total_size_perm, sort_by_perm. }
  assert (∀ p msg, pl_is_safe_to_enqueue (_block_plan p msg)
                   = bool_decide (pl_enqueue_blockers (_block_plan p msg) = [])) as Hblk.
  { intros p msg. symmetry. apply bool_decide_eq_false, block_plan_blocked. }
  destruct (rq_pool q) eqn:Hpool; repeat case_bool_decide; split_and!;
    try done; try apply Hblk; simpl in *; intros; split; try done.
  all: rewrite Hpool; intros [? ?]; simpl in *; by rewrite ?Hs in *; try lia.
Qed.

(** * What no strategy changes

    Planning assigns tapes, counts, warnings and blockers; the rest of a plan is
    what it was made with. *)
Definition plan_header (p : ArchivePlan) : ArchivePlan := plan_upd p [] 0 0 [] [] true [].

Lemma place_group_header fuel q tapes p l i g o : place_group fuel q tapes p l i g = Some o →
  plan_header match o with SqDone p' _ _ | SqBlocked p' _ => p' end = plan_header p.
Proof.
  revert p l i g. induction fuel as [|fuel IH]; intros p l i g; [done|]. simpl.
  destruct (tapes !! i) as [b|]; [|by intros [= <-]].
  case_bool_decide; [apply IH|].
  set (p1 := if _ && _ then _ else p).
  assert (plan_header p1 = plan_header p) as Hp1 by by unfold p1; destruct (_ && _).
  rewrite <-Hp1. case_bool_decide; [by intros [= <-]|].
  destruct (_first_split_index _ _ _); [case_bool_decide; [by intros [= <-]|]|]; apply IH.
Qed.

Lemma place_groups_header fuel q tapes p l i gs o : place_groups fuel q tapes p l i gs = Some o →
  plan_header match o with SqDone p' _ _ | SqBlocked p' _ => p' end = plan_header p.
Proof.
  revert p l i. induction gs as [|g gs IH]; intros p l i; simpl; [by intros [= <-]|].
  destruct (place_group _ _ _ _ _ _ _) as [[p' l' i'|p' l']|] eqn:Hg; [| |done].
  - apply place_group_header in Hg as <-. apply IH.
  - intros [= <-]. by apply place_group_header in Hg.
Qed.

Lemma sequential_header q p p' : _plan_critical_sequential q p = Ok p' →
  plan_header p' = plan_header p.
Proof.
  unfold _plan_critical_sequential, plan_sequential_fuel.
  destruct (x ← float_of_int _; _) as [limit|]; [|done]. simpl.
  set (p1 := if bool_decide (rq_ingest_mode q = _) then _ else _).
  assert (plan_header p1 = plan_header p) as Hp1 by by unfold p1; repeat case_bool_decide.
  rewrite <-Hp1. destruct (list_find _ _) as [[i b]|].
  - intros [= <-]. by destruct (_is_scratch_tape b).
  - destruct (place_groups _ _ _ _ _ _ _) as [[]|] eqn:Hg; [| |done];
      intros [= <-]; by apply place_groups_header in Hg.
Qed.

Lemma assign_file_header q tapes st pref f :
  plan_header (sh_plan (assign_file q tapes st pref f).2) = plan_header (sh_plan st).
Proof.
  unfold assign_file. set (st1 := match rq_shard_size_bytes q with Some _ => _ | None => st end).
  assert (sh_plan st1 = sh_plan st) as <-.
  { unfold st1. by destruct (rq_shard_size_bytes q); [case_bool_decide|]. }
  destruct (find_tape _ _ st1 _ _); [done|]. 
  case_bool_decide; by destruct (find_tape _ _ _ _ _).
Qed.

Lemma assign_all_header q tapes choose i st files :
  plan_header (sh_plan (assign_all q tapes choose i st files)) = plan_header (sh_plan st).
Proof.
  revert i st. induction files as [|f files IH]; intros i st; simpl; [done|].
  pose proof (assign_file_header q tapes st (choose i st f) f) as Hf.
  destruct (assign_file _ _ _ _ _) as [[] st']; simpl in Hf; by rewrite ?IH.
Qed.

Lemma assign_groups_header q tapes st groups :
  plan_header (sh_plan (assign_groups q tapes st groups)) = plan_header (sh_plan st).
Proof.
  revert st. induction groups as [|g groups IH]; intros st; simpl; [done|].
  do 2 try case_bool_decide; by rewrite ?IH, ?assign_all_header.
Qed.

Lemma assign_balanced_header q tapes loads st files st' :
  assign_balanced q tapes loads st files = Ok st' →
  plan_header (sh_plan st') = plan_header (sh_plan st).
Proof.
  revert loads st. induction files as [|f files IH]; intros loads st; simpl; [by intros [= <-]|].
  pose proof (assign_file_header q tapes st (least_loaded tapes loads st) f) as Hf.
  destruct (assign_file _ _ _ _ _) as [[] st1]; simpl in Hf; rewrite <-Hf; [|by intros [= <-]].
  destruct (placed_tape _ _); [apply IH | done].
Qed.

Lemma sharded_header q p p' : _plan_noncritical_sharded q p = Ok p' →
  plan_header p' = plan_header p.
Proof.
  unfold _plan_noncritical_sharded. set (st := MkShardState p [] _ _ []).
  change (plan_header p) with (plan_header (sh_plan st)).
  set (r := match default _ _ with ROUND_ROBIN => _ | _ => _ end).
  assert (∀ st', r = Ok st' → plan_header (sh_plan st') = plan_header (sh_plan st)) as Hr.
  { intros st'. unfold r. destruct (default _ _);
      try (intros [= <-]; apply assign_all_header || apply assign_groups_header).
    apply assign_balanced_header. }
  destruct r as [st'|]; [|done]. simpl. intros [= <-]. etrans; [|by apply Hr].
  destruct (rq_shard_size_bytes q); [case_bool_decide|]; done.
Qed.

Lemma foldl_warnings_header reasons p :
  plan_header (foldl (λ p r, _add_capacity_warning p
     ("Balanced planning switched to sharded mode: " ++ r)%string None) p reasons) = plan_header p.
Proof. revert p. induction reasons as [|r l IH]; intros p; simpl; [done|]. by rewrite IH. Qed.

Lemma balanced_header q p p' : _plan_balanced q p = Ok p' → plan_header p' = plan_header p.
Proof.
  unfold _plan_balanced. destruct (true_div _ _) as [rt|]; [|done]. simpl.
  destruct (x ← float_of_int (_single_tape_capacity q); _) as [th|]; [|done]. simpl.
  case_bool_decide; [|apply sequential_header]. intros Hp.
  apply sharded_header in Hp as ->.
  etrans; [apply foldl_warnings_header | done].
Qed.

Section strategies.
Context (q : ArchivePlanRequest) (p : ArchivePlan).
Context (Hnd : NoDup (rq_available_tapes q)) (Hne : rq_available_tapes q ≠ []).
Context (Htot : pl_total_bytes p = total_size q (pl_files p)).

Lemma balanced_good p' : _plan_balanced q p = Ok p' → plan_good q (pl_files p) p'.
Proof.
  unfold _plan_balanced. destruct (true_div _ _) as [rt|]; [|done]. simpl.
  destruct (x ← float_of_int (_single_tape_capacity q); _) as [th|]; [|done]. simpl.
  case_bool_decide.
  - set (p1 := foldl _ _ _). intros Hp.
    destruct (sharded_good (with_strategy q NONCRITICAL_SHARDED
      (Some (default DIRECTORY_BATCH (rq_shard_strategy q)))) p1) as (p2 & Hp2 & Hgood);
      [done..|].
    rewrite Hp in Hp2. injection Hp2 as <-. 
    assert (pl_files p1 = pl_files p) as <-; [|done].
    etrans; [apply (f_equal pl_files (foldl_warnings_header _ _)) | done].
  - intros Hp. by eapply (sequential_good (with_strategy q CRITICAL_SEQUENTIAL _)) in Hp as [? _].
Qed.
End strategies.

Lemma common_checks_header q p : plan_header (_apply_common_checks q p) = plan_header p.
Proof.
  unfold _apply_common_checks, _check_pool_budget.
  destruct (rq_pool q); repeat case_bool_decide; done.
Qed.

(** A plan keeps what it was made with; a safe one is within its pool's budget. *)
Lemma plan_safe_budget q plan_id created_at p :
  plan q plan_id created_at = Ok p → pl_is_safe_to_enqueue p = true →
  plan_header p = plan_header (initial_plan q plan_id created_at) ∧
  (is_Some (rq_pool q) →
     total_size q (rq_files q) * rq_copies q ≤ pool_capacity_bytes q - rq_pool_reserved_bytes q).
Proof.
  unfold plan. destruct (_check_media q); [|done]. simpl.
  destruct (common_checks_checked q plan_id created_at) as (_ & _ & _ & Hsafe).
  rewrite <-(common_checks_header q (initial_plan q plan_id created_at)).
  set (p1 := _apply_common_checks _ _) in *.
  destruct (pl_is_safe_to_enqueue p1) eqn:Hs; simpl; [|intros [= <-]; congruence].
  destruct (Hsafe eq_refl) as [_ Hpool]. intros Hp _. split; [|done].
  destruct (default _ _); [by eapply sequential_header | by eapply sharded_header |
    by eapply balanced_header].
Qed.

(** C30: a plan that is safe to enqueue, of a request that offers no tape twice, divides
    the files of the request among the tapes: whatever the policy and the strategy,
    every file is placed exactly once, each assignment counts the bytes of its
    files and fits on its tape, no tape is used twice, and only tapes that are
    offered, are not foreign media and can be written by the drive; with a pool,
    the bytes of all copies fit in what its reservations leave.  (That no tape is
    offered twice is not checked by the code: see [duplicate_tape_overfilled].) *)
Theorem plan_sound q plan_id created_at p : NoDup (rq_available_tapes q) →
  plan q plan_id created_at = Ok p → pl_is_safe_to_enqueue p = true →
  placed q (pl_tape_assignments p) (rq_files q) ∧
  NoDup (ta_barcode <$> pl_tape_assignments p) ∧
  (∀ a, a ∈ pl_tape_assignments p →
     ta_barcode a ∈ rq_available_tapes q ∧ media_ok q (ta_barcode a)) ∧
  (is_Some (rq_pool q) →
     total_size q (rq_files q) * rq_copies q ≤ pool_capacity_bytes q - rq_pool_reserved_bytes q).
Proof.
  intros Hnd. unfold plan. destruct (_check_media q) as [u|] eqn:Hm; [|done]. simpl.
  destruct (common_checks_checked q plan_id created_at) as (Hf & Ht & _ & Hsafe).
  set (p1 := _apply_common_checks _ _) in *.
  destruct (pl_is_safe_to_enqueue p1) eqn:Hs; simpl; [|intros [= <-]; congruence].
  destruct (Hsafe eq_refl) as [Hne Hpool]. intros Hp Hp'.
  assert (plan_good q (pl_files p1) p) as Hgood.
  { destruct (default BALANCED (rq_policy_type q)).
    - by apply sequential_good in Hp as [? _].
    - destruct (sharded_good q p1 Hnd Hne) as (p2 & Hp2 & ?). by rewrite Hp in Hp2; simplify_eq.
    - by eapply balanced_good. }
  destruct (Hgood Hp') as [(parts & Hparts & Hperm & Hall) [Hb Hin]]. split_and!; try done.
  - exists parts. split_and!; try done. rewrite Hperm, Hf. apply sort_by_perm.
  - intros a Ha. split; [by apply Hin|]. eapply check_media_ok; [done | by apply Hin].
Qed.

(** a critical archive is written in the order of the sorted paths: the
    assignments of a safe plan, tape after tape, list the files in order, and
    none is left out or repeated. *)
Theorem critical_plan_in_order q plan_id created_at p : NoDup (rq_available_tapes q) →
  rq_policy_type q = Some CRITICAL_SEQUENTIAL →
  plan q plan_id created_at = Ok p → pl_is_safe_to_enqueue p = true →
  concat (ta_files <$> pl_tape_assignments p) =
  _relative_files (sort_by String.leb (rq_files q)) (rq_source_path q).
Proof.
  intros Hnd Hpol. unfold plan. destruct (_check_media q) as [u|] eqn:Hm; [|done]. simpl.
  destruct (common_checks_checked q plan_id created_at) as (Hf & Ht & _ & _).
  set (p1 := _apply_common_checks _ _) in *.
  destruct (pl_is_safe_to_enqueue p1) eqn:Hs; simpl; [|intros [= <-]; congruence].
  rewrite Hpol. simpl. intros Hp. apply sequential_good in Hp as [_ Ho]; [|done..].
  rewrite Hf in Ho. apply Ho.
Qed.

(** * The planner always answers *)
Definition answers (r : result ArchivePlan) : Prop :=
  match r with Ok _ => True | Raise e => e = OtherError "OverflowError" end.

Lemma float_of_int_raise z e : float_of_int z = Raise e → e = OtherError "OverflowError".
Proof. unfold float_of_int, finite_or_overflow. case_match; naive_solver. Qed.

Lemma true_div_raise a b e : b ≠ 0 → true_div a b = Raise e → e = OtherError "OverflowError".
Proof.
  intros Hb. unfold true_div, finite_or_overflow. rewrite bool_decide_eq_false_2 by done.
  case_match; naive_solver.
Qed.

Lemma scaled_int z m e :
  (∃ n, (x ← float_of_int z; int_of_float (float_mul x (SpecFloat.S754_finite false m e))) = Ok n) ∨
  (x ← float_of_int z; int_of_float (float_mul x (SpecFloat.S754_finite false m e)))
    = Raise (OtherError "OverflowError").
Proof.
  destruct (float_of_int z) as [x|ex] eqn:Hx; [by apply (int_of_scaled z)|].
  right. by apply float_of_int_raise in Hx as ->.
Qed.

Lemma place_groups_answer q p gs :
  is_Some (place_groups (sequential_fuel q) q (_ordered_tapes q) p [] 0 gs).
Proof. apply place_groups_fuel. unfold sequential_fuel. rewrite <-ordered_tapes_perm. lia. Qed.

Lemma sequential_answers q p : answers (_plan_critical_sequential q p).
Proof.
  unfold _plan_critical_sequential, plan_sequential_fuel, float_0_8.
  destruct (scaled_int (_single_tape_capacity q) 7205759403792794 (-53)) as [[n ->] | ->]; [|done].
  cbn [mbind result_bind]. destruct (list_find _ _) as [[]|]; [done|].
  match goal with |- context [place_groups _ _ _ ?p _ _ ?gs] =>
    destruct (place_groups_answer q p gs) as [[] ->] end; done.
Qed.

Lemma balanced_answers q p : NoDup (rq_available_tapes q) → rq_available_tapes q ≠ [] →
  answers (_plan_balanced q p).
Proof.
  intros Hnd Hne. unfold _plan_balanced, float_0_85.
  destruct (true_div _ _) as [rt|e] eqn:Hrt; [|by apply true_div_raise in Hrt].
  destruct (scaled_int (_single_tape_capacity q) 7656119366529843 (-53)) as [[n ->] | ->]; [|done].
  cbn [mbind result_bind].
  destruct (float_of_int _) as [sl|e] eqn:Hsl; [|by apply float_of_int_raise in Hsl].
  cbn [mbind result_bind]. case_bool_decide; [|apply sequential_answers].
  match goal with |- context [_plan_noncritical_sharded ?q ?p] =>
    destruct (sharded_good q p Hnd Hne) as (p2 & -> & _) end. done.
Qed.

(** planning always ends with a plan or one of three errors, the two media
    refusals and the overflow of a float: the loop over the tapes of the
    sequential strategy ends (its fuel, one more than the tapes, is never used
    up) and the search for the tape a file was just placed on finds it. *)
Theorem plan_answers q plan_id created_at : NoDup (rq_available_tapes q) →
  match plan q plan_id created_at with
  | Ok _ => True
  | Raise e => e ∈ [ForeignMediaError; IncompatibleMediaError; OtherError "OverflowError"]
  end.
Proof.
  intros Hnd. unfold plan. destruct (_check_media q) as [u|e] eqn:Hm; simpl.
  - destruct (common_checks_checked q plan_id created_at) as (_ & _ & _ & Hsafe).
    set (p1 := _apply_common_checks _ _) in *. destruct (pl_is_safe_to_enqueue p1); simpl; [|done].
    destruct (Hsafe eq_refl) as [Hne _].
    assert (answers (match default BALANCED (rq_policy_type q) with
      | CRITICAL_SEQUENTIAL => _plan_critical_sequential q p1
      | NONCRITICAL_SHARDED => _plan_noncritical_sharded q p1
      | BALANCED => _plan_balanced q p1 end)) as Ha.
    { destruct (default _ _); [apply sequential_answers| |by apply balanced_answers].
      by destruct (sharded_good q p1 Hnd Hne) as (? & -> & _). }
    destruct (match default _ _ with CRITICAL_SEQUENTIAL => _ | _ => _ end); [done|].
    simpl in Ha. rewrite Ha. by do 2 right; left.
  - unfold _check_media in Hm. destruct (mapR _ _) as [|e'] eqn:He; [done|].
    simpl in Hm. simplify_eq. apply mapR_raise in He as (b & Hb).
    revert Hb. unfold check_cartridge, require_writable. repeat case_match; intros ?; simplify_eq.
    all: rewrite !elem_of_cons; auto.
Qed.

(** * Instances *)
#[local] Notation request policy strategy files sizes tapes caps shard pool reserved :=
  (MkRequest None (Some policy) CACHE_DRIVE (Some "/src"%string) pool None files sizes tapes caps 2
     true true shard strategy 4
     [("B"%string, MkCartridge "B" LTO8 true false)] (Some LTO8) [] reserved).
#[local] Notation four_files := ["/src/a/x"; "/src/b/y"; "/src/a/z"; "/src/b/w"]%string.
#[local] Notation four_sizes :=
  [("/src/a/x"%string, 50); ("/src/b/y"%string, 30); ("/src/a/z"%string, 20); ("/src/b/w"%string, 5)].
#[local] Notation three_tapes := ["SCR1"; "B"; "C"]%string.
#[local] Notation three_caps := [("SCR1"%string, 160); ("B"%string, 50); ("C"%string, 60)].

Lemma plan_sound_witness :
  let q := request NONCRITICAL_SHARDED (Some DIRECTORY_BATCH) four_files four_sizes
             three_tapes three_caps (Some 25) (Some "p"%string) 60 in
  let p := match plan q "id" "now" with
           | Ok p => p | Raise _ => initial_plan q "id" "now" end in
  (ta_files <$> pl_tape_assignments p) = [["a/z"; "b/w"]; ["b/y"]; ["a/x"]]%string ∧
  placed q (pl_tape_assignments p) four_files ∧
  NoDup (ta_barcode <$> pl_tape_assignments p) ∧
  (∀ a, a ∈ pl_tape_assignments p →
     ta_barcode a ∈ rq_available_tapes q ∧ media_ok q (ta_barcode a)) ∧
  (is_Some (rq_pool q) →
     total_size q (rq_files q) * rq_copies q ≤ pool_capacity_bytes q - rq_pool_reserved_bytes q).
Proof.
  intros q p. split; [vm_compute; reflexivity|].
  apply (plan_sound q "id" "now"); [by apply (bool_decide_unpack _); vm_compute | |];
    vm_compute; reflexivity.
Defined.

Lemma critical_plan_in_order_witness :
  let q := request CRITICAL_SEQUENTIAL None four_files four_sizes three_tapes
             [("SCR1"%string, 60); ("B"%string, 80); ("C"%string, 30)] None None 0 in
  let p := match plan q "id" "now" with
           | Ok p => p | Raise _ => initial_plan q "id" "now" end in
  (ta_barcode <$> pl_tape_assignments p) = ["B"; "C"; "SCR1"]%string ∧
  concat (ta_files <$> pl_tape_assignments p) =
  _relative_files (sort_by String.leb (rq_files q)) (rq_source_path q).
Proof.
  intros q p. split; [vm_compute; reflexivity|].
  apply (critical_plan_in_order q "id" "now"); [by apply (bool_decide_unpack _); vm_compute | done | |];
    vm_compute; reflexivity.
Defined.

Lemma plan_answers_witness :
  let q := request BALANCED None four_files four_sizes three_tapes three_caps None None 0 in
  match plan q "id" "now" with
  | Ok _ => True
  | Raise e => e ∈ [ForeignMediaError; IncompatibleMediaError; OtherError "OverflowError"]
  end.
Proof. intros q. apply (plan_answers q "id" "now"). by apply (bool_decide_unpack _); vm_compute. Defined.

(** the sequential strategy gives up at the first tape that is too small,
    though larger tapes follow: offered a small tape first, it blocks the plan of
    two files with the message that the first exceeds the available capacity,
    and offered the larger tapes alone, it places both. *)
Theorem sequential_blocks_feasible :
  let q tapes := request CRITICAL_SEQUENTIAL None ["/src/a"; "/src/b"]%string
    [("/src/a"%string, 50); ("/src/b"%string, 55)] tapes
    [("A"%string, 10); ("B"%string, 60); ("C"%string, 60)] None None 0 in
  match plan (q ["A"; "B"; "C"]%string) "id" "now" with
  | Ok p => pl_is_safe_to_enqueue p = false ∧
            pl_enqueue_blockers p = ["File /src/a exceeds available tape capacity"%string]
  | Raise _ => False
  end ∧
  match plan (q ["B"; "C"]%string) "id" "now" with
  | Ok p => pl_is_safe_to_enqueue p = true ∧
            ta_files <$> pl_tape_assignments p = [["a"]; ["b"]]%string
  | Raise _ => False
  end.
Proof. vm_compute. by split_and!. Qed.

(** nothing checks that no tape is offered twice: with one tape of 100 bytes
    offered twice, the plan of a critical archive of two files of 80 is safe to
    enqueue and puts both on it, and that of a sharded one places each file
    twice. *)
Theorem duplicate_tape_overfilled :
  let q policy files sizes := request policy None files sizes ["A"; "A"]%string
                                [("A"%string, 100)] None None 0 in
  let placed q := match plan q "id" "now" with
                  | Ok p => Some (pl_is_safe_to_enqueue p,
                                  (λ a, (ta_barcode a, ta_files a, ta_estimated_bytes a)) <$> pl_tape_assignments p)
                  | Raise _ => None
                  end in
  placed (q CRITICAL_SEQUENTIAL ["/src/a"; "/src/b"]%string [("/src/a"%string, 80); ("/src/b"%string, 80)]) =
    Some (true, [("A", ["a"], 80); ("A", ["b"], 80)])%string ∧
  placed (q NONCRITICAL_SHARDED ["/src/a"; "/src/b"]%string [("/src/a"%string, 10); ("/src/b"%string, 10)]) =
    Some (true, [("A", ["a"; "b"], 20); ("A", ["a"; "b"], 20)])%string.
Proof. vm_compute. by split. Qed.
