(* ===== verification/Capacity.v ===== *)
(** nas/capacity.py: the models tape-native planning is made of (scratch stock,
    fragmentation, reservations of a pool, replication of volume groups, files
    that span tapes, export sets, drives, small-file containers), and the
    reservations the catalog keeps for them (catalog/repository.py).

    Times are integers, in seconds.  The frozen models are records; a constructor
    that validates is a function to [result]. *)
From stdpp Require Import base list option strings.
From Stdlib Require Import Ascii ZArith Lia.
From S2P Require Import Prelude Wp Paths Domain Catalog Media Planner.
#[local] Open Scope string_scope.
#[local] Open Scope Z_scope.

(** [ValidationError] of pydantic is a [ValueError], as are the errors below. *)
Definition ReservationError : exn := OtherError "ReservationError".
Definition ExportPrepError : exn := OtherError "ExportPrepError".
Definition PoolNotFoundError : exn := OtherError "PoolNotFoundError".
Definition ClientBudgetFieldsError : exn := OtherError "ClientBudgetFieldsError".

(** [sum(...)] and [list(dict.fromkeys(l))]. *)
Definition py_sum (l : list Z) : Z := foldr Z.add 0 l.
Fixpoint unique {A} `{EqDecision A} (l : list A) : list A :=
  match l with
  | [] => []
  | x :: l => x :: filter (λ y, y ≠ x) (unique l)
  end.

(** * Scratch thresholds *)
Inductive ScratchHealth : Set := SH_OK | SH_WARN | SH_CRITICAL.
Record ScratchThresholds : Set := MkThresholds { scratch_min : Z; scratch_warn : Z }.

Definition make_thresholds (lo warn : Z) : result ScratchThresholds :=
  if bool_decide (lo < 0 ∨ warn < 0 ∨ warn < lo) then Raise ValueError
  else Ok (MkThresholds lo warn).

Definition evaluate_scratch (scratch_count : Z) (t : ScratchThresholds) : ScratchHealth :=
  if bool_decide (scratch_count < scratch_min t) then SH_CRITICAL
  else if bool_decide (scratch_count < scratch_warn t) then SH_WARN
  else SH_OK.

(** * Fragmentation *)
Definition DEFAULT_CONSOLIDATION_RATIO : float := float_0_5.

Record TapeFragmentation : Type := MkFragmentation {
  fr_barcode : string; fr_live_bytes : Z; fr_written_bytes : Z;
}.
Definition make_fragmentation (b : string) (live written : Z) : result TapeFragmentation :=
  if bool_decide (b = "" ∨ live < 0 ∨ written < 0 ∨ live > written) then Raise ValueError
  else Ok (MkFragmentation b live written).

Definition float_1_0 : float := float_of_exact_int 1.
Definition live_ratio (f : TapeFragmentation) : result float :=
  if bool_decide (fr_written_bytes f = 0) then float_of_int 1
  else true_div (fr_live_bytes f) (fr_written_bytes f).
Definition needs_consolidation (f : TapeFragmentation) (threshold : float) : result bool :=
  if bool_decide (fr_written_bytes f > 0)
  then r ← live_ratio f; Ok (float_lt r threshold)
  else Ok false.

(** * Reservations in the catalog (catalog/repository.py, table nas_reservations) *)
Record nas_reservation : Type := MkReservation {
  nr_id : string; nr_pool_id : string; nr_bytes : Z; nr_owner : string; nr_expires_at : Z;
}.

(** The part of the database capacity planning reads: the cartridges, the keys of
    the pools, the reservations. *)
Record nas_store : Type := MkNasStore {
  ns_catalog : catalog;
  ns_pools : list string;
  ns_reservations : list nas_reservation;
}.
Definition with_reservations (l : list nas_reservation) (s : nas_store) : nas_store :=
  MkNasStore (ns_catalog s) (ns_pools s) l.

Definition of_pool (pool_id : string) (r : nas_reservation) : bool :=
  bool_decide (nr_pool_id r = pool_id).
Definition unexpired (now : Z) (r : nas_reservation) : bool := bool_decide (nr_expires_at r > now).

Definition list_nas_reservations (pool_id : option string) (s : nas_store) : list nas_reservation :=
  let l := sort_by (λ a b, nr_expires_at a <=? nr_expires_at b) (ns_reservations s) in
  match pool_id with Some p => filter (λ r, of_pool p r) l | None => l end.

Definition reservations_for_pool (pool_id : string) (now : Z) (s : nas_store) : list nas_reservation :=
  filter (λ r, unexpired now r) (list_nas_reservations (Some pool_id) s).

(** [uuid] is the identifier drawn for the row. *)
Definition reserve_nas_capacity (uuid pool_id : string) (nbytes : Z) (owner : string)
    (expires_at capacity_bytes now : Z) : M nas_store bool := λ s,
  let rows := filter (λ r, of_pool pool_id r) (ns_reservations s) in
  let reserved := py_sum (nr_bytes <$> filter (λ r, unexpired now r) rows) in
  if bool_decide (nbytes > capacity_bytes - reserved) then (Ok false, s)
  else (Ok true, with_reservations
          (ns_reservations s ++ [MkReservation uuid pool_id nbytes owner expires_at]) s).

Definition upsert_nas_reservation (r : nas_reservation) : M nas_store unit := λ s,
  let l := ns_reservations s in
  (Ok tt, with_reservations
    (if bool_decide (nr_id r ∈ (nr_id <$> l))
     then (λ r', if bool_decide (nr_id r' = nr_id r) then r else r') <$> l
     else l ++ [r])%list s).

Definition delete_nas_reservation (reservation_id : string) : M nas_store bool := λ s,
  if bool_decide (reservation_id ∈ (nr_id <$> ns_reservations s))
  then (Ok true, with_reservations (filter (λ r, nr_id r ≠ reservation_id) (ns_reservations s)) s)
  else (Ok false, s).

Definition delete_nas_reservations_for_owner (owner : string) : M nas_store Z := λ s,
  let rows := filter (λ r, nr_owner r = owner) (ns_reservations s) in
  (Ok (Z.of_nat (length rows)),
   with_reservations (filter (λ r, nr_owner r ≠ owner) (ns_reservations s)) s).

(** * The budget of a pool *)
Definition PLAN_RESERVATION_TTL : Z := 3600.
Definition SERVER_BUDGET_FIELDS : list string :=
  ["available_tapes"; "tape_capacities"; "reserved_bytes"; "pool_reserved_bytes"].

(** The answer of the library backend, if there is one: the real library can be
    offline. *)
Definition library_answer : Type := option (result library_inventory).

Definition is_cleaning (b : string) : bool := startswith (upper b) "CLN".
Definition catalog_barcode (c : cartridge_row) : string := strip (cr_barcode c).

Definition library_tapes (library : library_answer) : dict string Z :=
  match library with
  | Some (Ok inv) => dict_of ((λ b, (b, DEFAULT_TAPE_CAPACITY)) <$> omap ss_barcode (inv_slots inv))
  | _ => []
  end.
Definition catalogued_tapes (s : nas_store) : list cartridge_row :=
  filter (λ c, catalog_barcode c ≠ "") (list_cartridges (ns_catalog s)).

Definition server_data_tapes (library : library_answer) (s : nas_store) : dict string Z :=
  let rows := catalogued_tapes s in
  let capacities := foldl (λ d c, dset d (catalog_barcode c)
      (Z.max 0 (cr_capacity_bytes c - cr_used_bytes c))) (library_tapes library) rows in
  let assigned := catalog_barcode <$> filter (λ c, is_some (cr_volume_group_id c)) rows in
  (λ b, (b, dget_or capacities b 0)) <$>
    filter (λ b, b ∉ assigned ∧ ¬ is_cleaning b) (sort_by String.leb (dkeys capacities)).

Definition count_scratch_tapes (library : result library_inventory) (s : nas_store) : result Z :=
  let excluded := catalog_barcode <$> filter (λ c, cr_barcode c ≠ "" ∧
        (is_some (cr_volume_group_id c) ∨ cr_used_bytes c > 0)) (list_cartridges (ns_catalog s)) in
  inv ← library;
  let barcodes := unique (omap ss_barcode (inv_slots inv)) in
  Ok (Z.of_nat (length (filter (λ b, b ∉ excluded ∧ ¬ is_cleaning b) barcodes))).

(** [fields_set]: the fields the client gave ([model_fields_set]). *)
Definition server_budget_request (q : ArchivePlanRequest) (fields_set : list string)
    (library : library_answer) (s : nas_store) : result ArchivePlanRequest :=
  match rq_pool q with
  | None => Ok q
  | Some pool =>
      if bool_decide (filter (λ n, n ∈ fields_set) SERVER_BUDGET_FIELDS ≠ [])
      then Raise ClientBudgetFieldsError
      else if bool_decide (pool ∉ ns_pools s) then Raise PoolNotFoundError
      else let tapes := server_data_tapes library s in
           Ok (with_tapes q (dkeys tapes) tapes)
  end.

Definition plan_with_pool_budget (q : ArchivePlanRequest) (now : Z) (plan_id created_at : string)
    (s : nas_store) : result ArchivePlan :=
  match rq_pool q with
  | None => plan q plan_id created_at
  | Some pool =>
      let reserved := py_sum (nr_bytes <$> reservations_for_pool pool now s) in
      plan (with_pool_reserved q reserved) plan_id created_at
  end.

Definition book_plan_capacity (uuid : string) (p : ArchivePlan) (library : library_answer) (now : Z)
    : M nas_store unit :=
  match pl_pool p with
  | None => mret tt
  | Some pool =>
      s ← getS;
      booked ← reserve_nas_capacity uuid pool (pl_total_bytes p * pl_copies_required p)
                 (pl_plan_id p) (now + PLAN_RESERVATION_TTL)
                 (py_sum (dvalues (server_data_tapes library s))) now;
      raise_if (negb booked) ReservationError
  end.

(** Database failures, which the source logs, are not modelled. *)
Definition release_plan_capacity (plan_id : string) : M nas_store unit :=
  (λ _, tt) <$> delete_nas_reservations_for_owner plan_id.

(** * The reservation ledger

    [CapacityReservation] validates its fields; [ReservationLedger] keeps its
    items in memory, or in the catalog when it is given one.  The time to live is
    added to [now] by the caller of the constructor. *)
Record CapacityReservation : Type := MkCapacity {
  cp_pool_id : string; cp_bytes : Z; cp_owner : string; cp_expires_at : Z;
}.
#[export] Instance CapacityReservation_eq_dec : EqDecision CapacityReservation.
Proof. solve_decision. Defined.

Definition make_reservation (pool : string) (n : Z) (owner : string) (expires : Z)
    : result CapacityReservation :=
  if bool_decide (pool = "" ∨ n <= 0 ∨ owner = "") then Raise ValueError
  else Ok (MkCapacity pool n owner expires).
Definition active (r : CapacityReservation) (now : Z) : bool := bool_decide (now < cp_expires_at r).
Definition of_row (r : nas_reservation) : result CapacityReservation :=
  make_reservation (nr_pool_id r) (nr_bytes r) (nr_owner r) (nr_expires_at r).

(** The two ledgers have the same methods; [_active] is what they differ in. *)
Definition memory_active (pool_id : string) (now : Z) (items : list CapacityReservation)
    : list CapacityReservation :=
  filter (λ r, cp_pool_id r = pool_id ∧ active r now) items.
Definition catalog_active (pool_id : string) (now : Z) (s : nas_store)
    : result (list CapacityReservation) :=
  mapR of_row (reservations_for_pool pool_id now s).

Definition reserved_of (l : list CapacityReservation) : Z := py_sum (cp_bytes <$> l).

Definition memory_available (pool_id : string) (free_bytes now : Z) (items : list CapacityReservation)
    : Z := Z.max 0 (free_bytes - reserved_of (memory_active pool_id now items)).
Definition catalog_available (pool_id : string) (free_bytes now : Z) (s : nas_store) : result Z :=
  l ← catalog_active pool_id now s; Ok (Z.max 0 (free_bytes - reserved_of l)).

Definition memory_reserve (pool_id : string) (nbytes : Z) (owner : string) (ttl free_bytes now : Z)
    : M (list CapacityReservation) CapacityReservation :=
  res ← liftR (make_reservation pool_id nbytes owner (now + ttl));
  items ← getS;
  _ ← raise_if (bool_decide (nbytes > memory_available pool_id free_bytes now items)) ReservationError;
  _ ← modify (λ items, items ++ [res])%list;
  mret res.
Definition catalog_reserve (uuid pool_id : string) (nbytes : Z) (owner : string)
    (ttl free_bytes now : Z) : M nas_store CapacityReservation :=
  res ← liftR (make_reservation pool_id nbytes owner (now + ttl));
  booked ← reserve_nas_capacity uuid pool_id nbytes owner (cp_expires_at res) free_bytes now;
  _ ← raise_if (negb booked) ReservationError;
  mret res.

Definition memory_release (pool_id owner : string) : M (list CapacityReservation) Z := λ items,
  let kept := filter (λ r, ¬ (cp_pool_id r = pool_id ∧ cp_owner r = owner)) items in
  (Ok (Z.of_nat (length items) - Z.of_nat (length kept)), kept).

(** The catalog ledger deletes the rows of the owner one by one. *)
Fixpoint delete_rows (removed : Z) (rows : list nas_reservation) : M nas_store Z :=
  match rows with
  | [] => mret removed
  | r :: rows =>
      ok ← delete_nas_reservation (nr_id r);
      delete_rows (if ok : bool then removed + 1 else removed) rows
  end.
Definition catalog_release (pool_id owner : string) : M nas_store Z :=
  rows ← gets (list_nas_reservations (Some pool_id));
  delete_rows 0 (filter (λ r, nr_owner r = owner) rows).

(** * Replication of volume groups *)
Inductive ReplicationState : Set := IN_SYNC | LAGGING | BROKEN.
#[export] Instance ReplicationState_eq_dec : EqDecision ReplicationState.
Proof. solve_decision. Defined.

Record VolumeGroupReplication : Type := MkVg {
  vr_vg_id : string; vr_barcodes : list string;
  vr_replicas_required : Z; vr_replicas_present : Z;
}.
Definition make_vg (id : string) (barcodes : list string) (required present : Z)
    : result VolumeGroupReplication :=
  if bool_decide (id = "" ∨ required < 1 ∨ present < 0) then Raise ValueError
  else Ok (MkVg id barcodes required present).

Definition vg_state (g : VolumeGroupReplication) : ReplicationState :=
  if bool_decide (vr_replicas_present g >= vr_replicas_required g) then IN_SYNC
  else if bool_decide (vr_replicas_present g = 0) then BROKEN
  else LAGGING.
Definition replica_write_completed (g : VolumeGroupReplication) : VolumeGroupReplication :=
  MkVg (vr_vg_id g) (vr_barcodes g) (vr_replicas_required g) (vr_replicas_present g + 1).
Definition merge_volume_groups (a b : VolumeGroupReplication) (new_id : string)
    : result VolumeGroupReplication :=
  make_vg new_id (vr_barcodes a ++ filter (λ x, x ∉ vr_barcodes a) (vr_barcodes b))%list
    (Z.max (vr_replicas_required a) (vr_replicas_required b))
    (Z.min (vr_replicas_present a) (vr_replicas_present b)).
Definition require_export_ready (g : VolumeGroupReplication) : result unit :=
  if bool_decide (vg_state g = IN_SYNC) then Ok tt else Raise ExportPrepError.

(** * Files that span tapes *)
Inductive NasFileState : Set :=
| ONLINE_CACHED | OFFLINE_ON_TAPE | FS_HYDRATING | MISSING_TAPE | FS_FAILED | CORRUPT | FS_EXPORTED.
#[export] Instance NasFileState_eq_dec : EqDecision NasFileState.
Proof. solve_decision. Defined.

Record SpanSegment : Type := MkSegment { sg_barcode : string; sg_offset : Z; sg_length : Z }.
Record FileSpan : Type := MkSpan { sp_path : string; sp_segments : list SpanSegment }.
Definition make_segment (b : string) (offset len : Z) : result SpanSegment :=
  if bool_decide (b = "" ∨ offset < 0 ∨ len <= 0) then Raise ValueError
  else Ok (MkSegment b offset len).
Definition make_span (path : string) (segments : list SpanSegment) : result FileSpan :=
  if bool_decide (path = "" ∨ length segments = O) then Raise ValueError
  else Ok (MkSpan path segments).

Definition span_barcodes (f : FileSpan) : list string := unique (sg_barcode <$> sp_segments f).
Definition span_state (f : FileSpan) (available : list string) : NasFileState :=
  if bool_decide (Forall (λ b, b ∈ available) (span_barcodes f)) then OFFLINE_ON_TAPE
  else MISSING_TAPE.
Definition required_tapes (spans : list FileSpan) : list string :=
  unique (concat (span_barcodes <$> spans)).

(** * Export sets and vaults *)
Inductive ExportSetState : Set := ES_PREPARING | ES_READY | ES_EXPORTED | ES_IMPORTED.
#[export] Instance ExportSetState_eq_dec : EqDecision ExportSetState.
Proof. solve_decision. Defined.
Record ExportSet : Type := MkExportSet {
  es_id : string; es_barcodes : list string; es_state : ExportSetState;
}.
Record Vault : Type := MkVault { vt_id : string; vt_barcodes : list string; vt_location : string }.

Definition mark_export_ready (e : ExportSet) (groups : list VolumeGroupReplication)
    : result ExportSet :=
  if negb (bool_decide (es_state e = ES_PREPARING)) then Raise ExportPrepError
  else
    _ ← mapR (λ barcode,
          let owners := filter (λ g, barcode ∈ vr_barcodes g) groups in
          if bool_decide (length owners = O) then Raise ExportPrepError
          else (λ _, tt) <$> mapR require_export_ready owners) (es_barcodes e);
    Ok (MkExportSet (es_id e) (es_barcodes e) ES_READY).

Definition planning_available (library_barcodes : list string) (vaults : list Vault) : list string :=
  let vaulted := concat (vt_barcodes <$> vaults) in
  unique (filter (λ b, b ∉ vaulted) library_barcodes).

(** * Drives *)
Record DrivePlan : Type := MkDrivePlan {
  dp_tapes : list string; dp_required_drives : Z; dp_estimated_swaps : Z;
}.
Definition plan_drives (spans : list FileSpan) (available_drives : Z) : result DrivePlan :=
  if bool_decide (available_drives < 1) then Raise ValueError
  else
    let tapes := required_tapes spans in
    let n := Z.of_nat (length tapes) in
    Ok (MkDrivePlan tapes (Z.min n available_drives) (Z.max 0 (n - available_drives))).

(** * Small-file containers *)
Record AggregationPolicy : Set := MkAggregation {
  ag_aggregate_below_bytes : Z; ag_max_container_bytes : Z;
}.
Definition make_aggregation (below max : Z) : result AggregationPolicy :=
  if bool_decide (below < 0 ∨ max <= 0) then Raise ValueError else Ok (MkAggregation below max).

Fixpoint group_loop (policy : AggregationPolicy) (units : list (list (string * Z)))
    (current : list (string * Z)) (current_size : Z) (files : list (string * Z))
    : list (list (string * Z)) :=
  match files with
  | [] => if bool_decide (length current = O) then units else units ++ [current]
  | (path, size) :: files =>
      if bool_decide (size >= ag_aggregate_below_bytes policy)
      then group_loop policy (units ++ [[(path, size)]]) current current_size files
      else if bool_decide (length current ≠ O ∧ current_size + size > ag_max_container_bytes policy)
      then group_loop policy (units ++ [current]) [(path, size)] (0 + size) files
      else group_loop policy units (current ++ [(path, size)]) (current_size + size) files
  end%list.
Definition group_for_write (files : list (string * Z)) (policy : AggregationPolicy)
    : list (list (string * Z)) := group_loop policy [] [] 0 files.
#[local] Open Scope list_scope.

(** * A pool is never over-committed *)
Definition reserved_at (pool : string) (now : Z) (s : nas_store) : Z :=
  py_sum (nr_bytes <$> filter (λ r, unexpired now r) (filter (λ r, of_pool pool r) (ns_reservations s))).

Lemma py_sum_app l l' : py_sum (l ++ l') = py_sum l + py_sum l'.
Proof. unfold py_sum. induction l as [|x l IH]; simpl; [done|]. lia. Qed.

#[export] Instance py_sum_perm : Proper (Permutation ==> eq) py_sum.
Proof. unfold py_sum. induction 1; simpl; lia. Qed.

(** What a selection of rows reserves, when no row is negative. *)
Definition sane (l : list nas_reservation) : Prop := Forall (λ r, 0 ≤ nr_bytes r) l.

Lemma sane_filter (P : nas_reservation → Prop) `{∀ x, Decision (P x)} l :
  sane l → sane (filter P l).
Proof. unfold sane. rewrite !Forall_forall. intros Hl x [_ Hx]%list_elem_of_filter. auto. Qed.

Lemma py_sum_submseteq (l l' : list nas_reservation) : sane l' → l ⊆+ l' →
  py_sum (nr_bytes <$> l) ≤ py_sum (nr_bytes <$> l').
Proof.
  intros Hs [k Hk]%submseteq_Permutation. unfold sane in Hs. rewrite Hk in Hs.
  apply Forall_app in Hs as [_ Hs]. rewrite Hk, fmap_app, py_sum_app.
  assert (0 ≤ py_sum (nr_bytes <$> k)); [|lia]. clear Hk. unfold py_sum.
  induction Hs; csimpl; simpl; lia.
Qed.

Lemma sublist_filter_both {A} (P : A → Prop) `{∀ x, Decision (P x)} l l' :
  sublist l l' → sublist (filter P l) (filter P l').
Proof.
  induction 1 as [|x l l' _ IH|x l l' _ IH]; [done|..]; rewrite filter_cons.
  - rewrite (filter_cons _ x l'). case_decide; [by constructor | done].
  - case_decide; [by constructor | done].
Qed.

Lemma reserved_sublist pool now s l : sane (ns_reservations s) →
  sublist l (ns_reservations s) → reserved_at pool now (with_reservations l s) ≤ reserved_at pool now s.
Proof.
  intros Hs Hl. apply py_sum_submseteq; [by do 2 apply sane_filter|].
  by apply sublist_submseteq, sublist_filter_both, sublist_filter_both.
Qed.

(** What happens to the reservations: jobs book and release, time passes. *)
Inductive nas_event : Type :=
| EvReserve (uuid pool_id : string) (nbytes : Z) (owner : string) (expires_at capacity_bytes : Z)
| EvDelete (reservation_id : string)
| EvRelease (owner : string)
| EvTick (seconds : Z).

Definition apply_event (st : nas_store * Z) (e : nas_event) : nas_store * Z :=
  let '(s, now) := st in
  match e with
  | EvReserve uuid p n o x c => ((reserve_nas_capacity uuid p n o x c now s).2, now)
  | EvDelete i => ((delete_nas_reservation i s).2, now)
  | EvRelease o => ((delete_nas_reservations_for_owner o s).2, now)
  | EvTick d => (s, now + d)
  end.

(** No booking of [pool] is made against more than [C], no booking is negative,
    and clocks do not go back. *)
Definition event_ok (pool : string) (C : Z) (e : nas_event) : Prop :=
  match e with
  | EvReserve _ p n _ _ c => 0 ≤ n ∧ (p = pool → c ≤ C)
  | EvTick d => 0 ≤ d
  | _ => True
  end.

Lemma reserved_later pool now d s : sane (ns_reservations s) → 0 ≤ d →
  reserved_at pool (now + d) s ≤ reserved_at pool now s.
Proof.
  intros Hs Hd. apply py_sum_submseteq; [by do 2 apply sane_filter|].
  apply sublist_submseteq. generalize (filter (λ r, of_pool pool r) (ns_reservations s)) as l.
  induction l as [|r l IH]; [done|]. rewrite !filter_cons.
  destruct (decide (unexpired (now + d) r)) as [H1|], (decide (unexpired now r)) as [|H2];
    [by constructor | | by constructor | done].
  destruct H2. apply bool_decide_pack. apply bool_decide_unpack in H1. lia.
Qed.

Lemma apply_event_sound pool C st e : event_ok pool C e →
  sane (ns_reservations st.1) ∧ reserved_at pool st.2 st.1 ≤ C →
  sane (ns_reservations (apply_event st e).1) ∧
  reserved_at pool (apply_event st e).2 (apply_event st e).1 ≤ C.
Proof.
  destruct st as [s now]. intros He [Hs Hr]. destruct e as [uuid p n o x c|i|o|d]; simpl in *.
  - unfold reserve_nas_capacity. fold (reserved_at p now s). case_bool_decide; simpl; [done|].
    destruct He as [Hn Hc]. split; [apply Forall_app; split; [done | by constructor]|].
    unfold reserved_at. simpl. rewrite !filter_app, fmap_app, py_sum_app.
    fold (reserved_at pool now s). rewrite filter_cons. unfold of_pool at 1. simpl.
    case_decide as Hp; [apply bool_decide_unpack in Hp; subst|simpl; lia].
    specialize (Hc eq_refl). rewrite filter_nil, filter_cons. case_decide; simpl; lia.
  - unfold delete_nas_reservation. case_bool_decide; simpl; [|done]. split; [by apply sane_filter|].
    etrans; [apply reserved_sublist; [done | apply sublist_filter] | done].
  - split; [by apply sane_filter|].
    etrans; [apply reserved_sublist; [done | apply sublist_filter] | done].
  - split; [done|]. etrans; [by apply reserved_later | done].
Qed.

(** C31: a pool is not over-committed by bookings of sizes that are not negative while
    the clock does not go back: however such bookings, releases, deletions and the
    passing of time interleave, and whoever books other pools, what the unexpired
    reservations of a pool hold never exceeds the largest capacity it was booked
    against.  (Neither side condition is checked by the code, and without either a
    pool can be over-committed: see [negative_booking_overcommits].) *)
Theorem pool_never_overcommitted pool C s now events :
  Forall (event_ok pool C) events → sane (ns_reservations s) → reserved_at pool now s ≤ C →
  let '(s', now') := foldl apply_event (s, now) events in reserved_at pool now' s' ≤ C.
Proof.
  intros Hev Hs Hr. assert (sane (ns_reservations (s, now).1) ∧
    reserved_at pool (s, now).2 (s, now).1 ≤ C) as H by done. revert H. clear Hs Hr.
  generalize (s, now) as st. induction Hev as [|e events He _ IH]; intros st H; simpl.
  - by destruct st, H.
  - by apply IH, apply_event_sound.
Qed.

Lemma pool_never_overcommitted_witness :
  let s := MkNasStore empty_catalog ["p"; "q"]%string [] in
  let events := [EvReserve "1" "p" 60 "a" 100 100; EvReserve "2" "q" 500 "b" 100 500;
                 EvReserve "3" "p" 50 "c" 90 100; EvTick 95; EvReserve "4" "p" 40 "c" 190 100;
                 EvRelease "a"; EvReserve "5" "p" 60 "d" 190 100] in
  (nr_id <$> ns_reservations (foldl apply_event (s, 0) events).1) = ["2"; "4"; "5"]%string ∧
  (let '(s', now') := foldl apply_event (s, 0) events in reserved_at "p" now' s' ≤ 100).
Proof.
  intros s events. split; [reflexivity|].
  apply (pool_never_overcommitted "p" 100 s 0 events);
    [repeat constructor; simpl; try lia; done | constructor | done].
Defined.

(** Nothing checks that a booking is not negative, or that the clock does not go
    back.  A booking of -100 makes room for one of 200 in a pool of 100, which stays
    when the first is released; and a reservation that has expired makes room for
    another, and counts again when the clock is set back. *)
Theorem negative_booking_overcommits :
  let s := MkNasStore empty_catalog ["p"]%string [] in
  let reserved events := let '(s', now') := foldl apply_event (s, 0) events in reserved_at "p" now' s' in
  reserved [EvReserve "1" "p" (-100) "a" 1000 100; EvReserve "2" "p" 200 "b" 1000 100; EvRelease "a"] = 200 ∧
  reserved [EvReserve "1" "p" 100 "a" 10 100; EvTick 20; EvReserve "2" "p" 100 "b" 1000 100; EvTick (-15)] = 200.
Proof. vm_compute. by split. Qed.

(** * The two ledgers are one *)
Inductive ledger_op : Type :=
| OpReserve (uuid pool_id : string) (nbytes : Z) (owner : string) (ttl free_bytes now : Z)
| OpRelease (pool_id owner : string)
| OpReserved (pool_id : string) (now : Z)
| OpAvailable (pool_id : string) (free_bytes now : Z).

Inductive ledger_answer : Type :=
| AnsReservation (r : result CapacityReservation)
| AnsNumber (r : result Z).

Definition memory_op (op : ledger_op) (items : list CapacityReservation)
    : ledger_answer * list CapacityReservation :=
  match op with
  | OpReserve _ p n o ttl free now =>
      let '(r, items) := memory_reserve p n o ttl free now items in (AnsReservation r, items)
  | OpRelease p o => let '(r, items) := memory_release p o items in (AnsNumber r, items)
  | OpReserved p now => (AnsNumber (Ok (reserved_of (memory_active p now items))), items)
  | OpAvailable p free now => (AnsNumber (Ok (memory_available p free now items)), items)
  end.
Definition catalog_op (op : ledger_op) (s : nas_store) : ledger_answer * nas_store :=
  match op with
  | OpReserve u p n o ttl free now =>
      let '(r, s) := catalog_reserve u p n o ttl free now s in (AnsReservation r, s)
  | OpRelease p o => let '(r, s) := catalog_release p o s in (AnsNumber r, s)
  | OpReserved p now => (AnsNumber (l ← catalog_active p now s; Ok (reserved_of l)), s)
  | OpAvailable p free now => (AnsNumber (catalog_available p free now s), s)
  end.

Fixpoint run_ops {S} (run : ledger_op → S → ledger_answer * S) (ops : list ledger_op) (s : S)
    : list ledger_answer :=
  match ops with
  | [] => []
  | op :: ops => let '(a, s) := run op s in a :: run_ops run ops s
  end.

(** The identifiers drawn by the bookings. *)
Definition op_uuids (ops : list ledger_op) : list string :=
  omap (λ op, match op with OpReserve u _ _ _ _ _ _ => Some u | _ => None end) ops.

Definition row_item (r : nas_reservation) : CapacityReservation :=
  MkCapacity (nr_pool_id r) (nr_bytes r) (nr_owner r) (nr_expires_at r).

(** The rows of the catalog are the items of the ledger in memory. *)
Definition ledger_agrees (items : list CapacityReservation) (s : nas_store) : Prop :=
  items = row_item <$> ns_reservations s ∧
  NoDup (nr_id <$> ns_reservations s) ∧
  Forall (λ r, of_row r = Ok (row_item r)) (ns_reservations s).

Lemma filter_fmap_item (P : CapacityReservation → Prop) `{∀ x, Decision (P x)}
    (l : list nas_reservation) :
  filter P (row_item <$> l) = row_item <$> filter (λ r, P (row_item r)) l.
Proof.
  induction l as [|r l IH]; [done|]. csimpl. rewrite !filter_cons.
  case_decide; csimpl; by rewrite IH.
Qed.

(** The rows of a pool that count, in the order of the catalog, and those the
    ledger in memory counts. *)
Lemma active_rows pool now s :
  reservations_for_pool pool now s ≡ₚ
  filter (λ r, unexpired now r) (filter (λ r, of_pool pool r) (ns_reservations s)).
Proof.
  unfold reservations_for_pool, list_nas_reservations.
  by rewrite (sort_by_perm _ (ns_reservations s)).
Qed.

Lemma memory_active_rows pool now items s : ledger_agrees items s →
  memory_active pool now items =
  row_item <$> filter (λ r, unexpired now r) (filter (λ r, of_pool pool r) (ns_reservations s)).
Proof.
  intros (-> & _). unfold memory_active. rewrite filter_fmap_item, list_filter_filter. f_equal.
  apply list_filter_iff. intros r. unfold active, unexpired, of_pool, row_item. simpl.
  rewrite !bool_decide_spec. split; intros []; split; try done; lia.
Qed.

Lemma reserved_rows pool now items s : ledger_agrees items s →
  reserved_of (memory_active pool now items) = reserved_at pool now s.
Proof.
  intros Ha. unfold reserved_of, reserved_at. rewrite (memory_active_rows _ _ _ _ Ha).
  by rewrite <-list_fmap_compose.
Qed.

Lemma catalog_active_rows pool now items s : ledger_agrees items s →
  ∃ l, catalog_active pool now s = Ok l ∧ reserved_of l = reserved_at pool now s.
Proof.
  intros (_ & _ & Hval). exists (row_item <$> reservations_for_pool pool now s). split.
  - unfold catalog_active. apply mapR_Ok. apply Forall2_fmap_r, Forall_Forall2_diag.
    rewrite (active_rows pool now s). rewrite Forall_forall in *.
    intros r [_ [_ Hr]%list_elem_of_filter]%list_elem_of_filter. auto.
  - unfold reserved_of, reserved_at. rewrite <-list_fmap_compose.
    by rewrite (active_rows pool now s).
Qed.

Lemma delete_rows_spec removed rows s :
  NoDup (nr_id <$> ns_reservations s) → NoDup (nr_id <$> rows) → rows ⊆ ns_reservations s →
  delete_rows removed rows s =
    (Ok (removed + Z.of_nat (length rows)),
     with_reservations (filter (λ r, nr_id r ∉ nr_id <$> rows) (ns_reservations s)) s).
Proof.
  revert removed s. induction rows as [|r rows IH]; intros removed s Hnd Hnr Hin; simpl.
  { rewrite Z.add_0_r. unfold mret, M_ret. destruct s as [c p l]. unfold with_reservations. simpl.
    do 2 f_equal. symmetry. apply filter_all. intros x _. apply not_elem_of_nil. }
  csimpl in Hnr. apply NoDup_cons in Hnr as [Hr Hnr].
  unfold mbind at 1, M_bind, delete_nas_reservation.
  rewrite bool_decide_eq_true_2; [|apply list_elem_of_fmap_2, Hin; by left].
  rewrite IH; simpl.
  - f_equal; [f_equal; lia|]. unfold with_reservations. simpl. f_equal.
    rewrite list_filter_filter. apply list_filter_iff. intros x. csimpl. rewrite not_elem_of_cons. tauto.
  - eapply sublist_NoDup; [apply Hnd | apply fmap_sublist, sublist_filter].
  - done.
  - intros x Hx. apply list_elem_of_filter. split; [|apply Hin; by right].
    intros Heq. apply Hr. rewrite <-Heq. by apply list_elem_of_fmap_2.
Qed.

Lemma agrees_fits nbytes free reserved : 0 < nbytes →
  bool_decide (nbytes > Z.max 0 (free - reserved)) = bool_decide (nbytes > free - reserved).
Proof. intros Hn. apply bool_decide_ext. lia. Qed.

Lemma reserve_agrees items s u p n o ttl free now :
  ledger_agrees items s → u ∉ nr_id <$> ns_reservations s →
  let '(r, items') := memory_reserve p n o ttl free now items in
  ∃ s', catalog_reserve u p n o ttl free now s = (r, s') ∧ ledger_agrees items' s' ∧
        nr_id <$> ns_reservations s' ⊆ u :: (nr_id <$> ns_reservations s).
Proof.
  intros Ha Hu. unfold memory_reserve, catalog_reserve, reserve_nas_capacity.
  destruct (make_reservation p n o (now + ttl)) as [res|e] eqn:Hres; [|by eexists; split_and!; [done..|intros x; by right]].
  assert (0 < n ∧ res = MkCapacity p n o (now + ttl)) as [Hn ->].
  { unfold make_reservation in Hres. case_bool_decide as H; [done|]. simplify_eq. split; [lia|done]. }
  unfold mbind, M_bind, liftR, getS, modify, raise_if, mret, M_ret, memory_available.
  fold (reserved_at p now s). rewrite (reserved_rows _ _ _ _ Ha), agrees_fits by done.
  cbn [cp_expires_at]. case_bool_decide; simpl; [by eexists; split_and!; [done..|intros x; by right]|].
  eexists. split_and!; [done| |].
  - destruct Ha as (-> & Hnd & Hval). split_and!; simpl.
    + by rewrite fmap_app.
    + rewrite fmap_app. apply NoDup_app. split_and!; [done| |apply NoDup_singleton].
      intros x Hx. simpl. by intros ->%list_elem_of_singleton.
    + apply Forall_app. split; [done|]. by constructor.
  - simpl. rewrite fmap_app. intros x [Hx|Hx]%elem_of_app; [by right|].
    simpl in Hx. apply list_elem_of_singleton in Hx as ->. by left.
Qed.

Lemma release_agrees items s p o : ledger_agrees items s →
  let '(r, items') := memory_release p o items in
  ∃ s', catalog_release p o s = (r, s') ∧ ledger_agrees items' s' ∧
        nr_id <$> ns_reservations s' ⊆ nr_id <$> ns_reservations s.
Proof.
  intros (-> & Hnd & Hval). unfold memory_release, catalog_release.
  unfold mbind, M_bind, gets. set (rows := filter (λ r, nr_owner r = o) _).
  assert (∀ r, r ∈ rows ↔ r ∈ ns_reservations s ∧ nr_pool_id r = p ∧ nr_owner r = o) as Hrows.
  { intros r. unfold rows, list_nas_reservations, of_pool.
    rewrite !list_elem_of_filter, bool_decide_spec, elem_of_sort_by. tauto. }
  assert (rows ≡ₚ filter (λ r, nr_pool_id r = p ∧ nr_owner r = o) (ns_reservations s)) as Hperm.
  { unfold rows, list_nas_reservations.
    rewrite (sort_by_perm _ (ns_reservations s)), list_filter_filter.
    erewrite list_filter_iff; [done|]. intros r. unfold of_pool. rewrite bool_decide_spec. tauto. }
  assert (NoDup (nr_id <$> rows)) as Hndr.
  { rewrite Hperm. eapply sublist_NoDup; [apply Hnd | apply fmap_sublist, sublist_filter]. }
  rewrite delete_rows_spec; [|done..|by intros r [? _]%Hrows].
  set (kept := filter (λ r, nr_id r ∉ _) _).
  assert (kept = filter (λ r, ¬ (nr_pool_id r = p ∧ nr_owner r = o)) (ns_reservations s)) as Hkept.
  { unfold kept. apply filter_ext_in. intros r Hr. rewrite list_elem_of_fmap. split.
    - intros Hx [? ?]. apply Hx. exists r. split; [done|]. by apply Hrows.
    - intros Hx (r' & Hid & Hr'%Hrows). apply Hx. destruct Hr' as (Hr' & ?).
      by rewrite (NoDup_fmap_inj nr_id _ r r' Hnd). }
  eexists. split; [do 2 f_equal|].
  - rewrite Hperm, filter_fmap_item, !length_fmap. 
    rewrite (length_filter_split (λ r, nr_pool_id r = p ∧ nr_owner r = o) (ns_reservations s)).
    simpl. lia.
  - unfold ledger_agrees. simpl. rewrite Hkept. split_and!.
    + by rewrite filter_fmap_item.
    + eapply sublist_NoDup; [apply Hnd | apply fmap_sublist, sublist_filter].
    + rewrite Forall_forall in *. intros r [_ Hr]%list_elem_of_filter. auto.
    + intros x (r & -> & [_ Hr]%list_elem_of_filter)%list_elem_of_fmap. by apply list_elem_of_fmap_2.
Qed.

Lemma op_agrees op items s :
  ledger_agrees items s →
  (∀ u, u ∈ op_uuids [op] → u ∉ nr_id <$> ns_reservations s) →
  (memory_op op items).1 = (catalog_op op s).1 ∧
  ledger_agrees (memory_op op items).2 (catalog_op op s).2 ∧
  nr_id <$> ns_reservations (catalog_op op s).2 ⊆ op_uuids [op] ++ (nr_id <$> ns_reservations s).
Proof.
  intros Ha Hu. destruct op as [u p n o ttl free now|p o|p now|p free now];
    cbn [memory_op catalog_op fst snd].
  - pose proof (reserve_agrees items s u p n o ttl free now Ha) as H.
    destruct (memory_reserve _ _ _ _ _ _ _) as [r items'].
    destruct H as (s' & -> & ? & ?); [apply Hu; by left | done].
  - pose proof (release_agrees items s p o Ha) as H.
    destruct (memory_release _ _ _) as [r items']. by destruct H as (s' & -> & ? & ?).
  - destruct (catalog_active_rows p now items s Ha) as (l & -> & Hl). simpl.
    by rewrite Hl, (reserved_rows _ _ _ _ Ha).
  - unfold catalog_available, memory_available.
    destruct (catalog_active_rows p now items s Ha) as (l & -> & Hl). simpl.
    by rewrite Hl, (reserved_rows _ _ _ _ Ha).
Qed.

(** C32: the two forms of the reservation ledger are interchangeable: on any
    sequence of bookings, releases and queries, the ledger in memory and the one
    that keeps its rows in the catalog give the same answers, the refusals
    included, provided the identifiers drawn for rows are new. *)
Theorem ledgers_equivalent ops items s :
  ledger_agrees items s → NoDup (op_uuids ops ++ (nr_id <$> ns_reservations s)) →
  run_ops memory_op ops items = run_ops catalog_op ops s.
Proof.
  revert items s. induction ops as [|op ops IH]; intros items s Ha Hnd; [done|].
  assert (op_uuids (op :: ops) = op_uuids [op] ++ op_uuids ops) as Hops by by destruct op.
  rewrite Hops, <-app_assoc in Hnd. apply NoDup_app in Hnd as (_ & Hdisj & Hnd).
  destruct (op_agrees op items s Ha) as (Hans & Ha' & Hids).
  { intros u Hu Hin. apply (Hdisj u Hu), elem_of_app. by right. }
  simpl. destruct (memory_op op items) as [a items'], (catalog_op op s) as [a' s'].
  simpl in *. f_equal; [done|]. apply IH; [done|].
  apply NoDup_app in Hnd as (Hnu & Hd2 & _). apply NoDup_app. split_and!; [done| |apply Ha'].
  intros u Hu Hin%Hids. apply elem_of_app in Hin as [Hin|Hin]; [|by apply (Hd2 u)].
  apply (Hdisj u Hin), elem_of_app. by left.
Qed.

Lemma ledgers_equivalent_witness :
  let s := MkNasStore empty_catalog ["p"]%string [] in
  let ops := [OpReserve "1" "p" 60 "a" 50 100 0; OpReserve "2" "p" 60 "b" 50 100 10;
              OpReserve "3" "p" 40 "b" 50 100 10; OpReserve "4" "p" 0 "b" 50 100 10;
              OpReserved "p" 20; OpAvailable "p" 100 55; OpRelease "p" "b";
              OpReserved "p" 20] in
  run_ops memory_op ops [] =
    [AnsReservation (Ok (MkCapacity "p" 60 "a" 50)); AnsReservation (Raise ReservationError);
     AnsReservation (Ok (MkCapacity "p" 40 "b" 60)); AnsReservation (Raise ValueError);
     AnsNumber (Ok 100); AnsNumber (Ok 60); AnsNumber (Ok 1); AnsNumber (Ok 60)] ∧
  run_ops memory_op ops [] = run_ops catalog_op ops s.
Proof.
  intros s ops. split; [reflexivity|]. apply (ledgers_equivalent ops [] s).
  - split; [reflexivity|split; constructor].
  - apply (bool_decide_unpack _). by vm_compute.
Defined.

(** * Small-file containers *)
Definition unit_size (u : list (string * Z)) : Z := py_sum u.*2.

(** A write unit: a large file alone, or small files that fit a container (or a
    single small file that is larger than a container). *)
Definition unit_ok (policy : AggregationPolicy) (u : list (string * Z)) : Prop :=
  u ≠ [] ∧
  ((∃ f, u = [f]) ∨
   (Forall (λ f, f.2 < ag_aggregate_below_bytes policy) u ∧
    unit_size u ≤ ag_max_container_bytes policy)).

Lemma group_loop_ok policy files units current size :
  Forall (unit_ok policy) units → size = unit_size current →
  (current = [] ∨ unit_ok policy current) →
  Forall (λ f, f.2 < ag_aggregate_below_bytes policy) current →
  Forall (unit_ok policy) (group_loop policy units current size files) ∧
  concat (group_loop policy units current size files) ≡ₚ concat units ++ current ++ files.
Proof.
  intros Hu. revert units current size Hu.
  induction files as [|[path n] files IH]; intros units current size Hu Hsize Hcur Hsmall; simpl.
  { case_bool_decide as Hc.
    - apply length_zero_iff_nil in Hc as ->. by rewrite !app_nil_r.
    - destruct Hcur as [->|Hcur]; [done|]. split; [apply Forall_app; split; [done|by constructor]|].
      rewrite concat_app. simpl. by rewrite !app_nil_r. }
  case_bool_decide as Hbig; [|case_bool_decide as Hfull].
  - destruct (IH (units ++ [[(path, n)]]) current size) as [H1 H2]; try done.
    { apply Forall_app. split; [done|]. constructor; [|done]. split; [done|]. left. by eexists. }
    split; [done|]. rewrite H2, concat_app. simpl. rewrite <-app_assoc. f_equiv. simpl.
    apply Permutation_middle.
  - destruct (IH (units ++ [current]) [(path, n)] (0 + n)) as [H1 H2].
    { apply Forall_app. split; [done|]. constructor; [|done]. destruct Hcur as [->|]; [|done].
      by destruct Hfull. }
    { unfold unit_size. simpl. lia. } { right. split; [done|]. left. by eexists. }
    { constructor; [simpl; lia | done]. }
    split; [done|]. rewrite H2, concat_app. simpl. by rewrite app_nil_r, <-!app_assoc.
  - destruct (IH units (current ++ [(path, n)]) (size + n)) as [H1 H2]; [done|..].
    { unfold unit_size in *. rewrite fmap_app, py_sum_app. simpl. lia. }
    { right. split; [by destruct current|]. destruct current as [|c current]; [left; by eexists|].
      right. split; [apply Forall_app; split; [done|constructor; [simpl; lia|done]]|].
      unfold unit_size in *. rewrite fmap_app, py_sum_app. simpl in *. lia. }
    { apply Forall_app. split; [done|constructor; [simpl; lia|done]]. }
    split; [done|]. by rewrite H2, <-!app_assoc.
Qed.

(** grouping files for writing loses none and writes none twice, and no
    container of several files holds a large file or more than the limit. *)
Theorem group_for_write_sound files policy :
  concat (group_for_write files policy) ≡ₚ files ∧
  Forall (unit_ok policy) (group_for_write files policy).
Proof.
  destruct (group_loop_ok policy files [] [] 0) as [H1 H2]; [done|done|by left|done|]. done.
Qed.

(** * Export *)

(** an export set becomes ready only when it was being prepared, and every
    one of its tapes belongs to some volume group and only to groups whose
    replicas are in sync; merging groups never makes one look in sync that was
    not. *)
Theorem export_ready_only_in_sync e groups e' :
  mark_export_ready e groups = Ok e' →
  (es_state e = ES_PREPARING ∧ es_state e' = ES_READY ∧ es_barcodes e' = es_barcodes e ∧
   ∀ b, b ∈ es_barcodes e →
     (∃ g, g ∈ groups ∧ b ∈ vr_barcodes g) ∧
     (∀ g, g ∈ groups → b ∈ vr_barcodes g → vg_state g = IN_SYNC)) ∧
  ∀ a c id m, merge_volume_groups a c id = Ok m → vg_state m = IN_SYNC →
    vg_state a = IN_SYNC ∧ vg_state c = IN_SYNC.
Proof.
  intros Hready. split.
  - unfold mark_export_ready in Hready. case_bool_decide as Hst; [|done]. simpl in Hready.
    destruct (mapR _ _) as [us|] eqn:Hm; [|done]. simpl in Hready. simplify_eq.
    split_and!; try done. intros b Hb. pose proof (mapR_is_ok _ _ _ _ Hm Hb) as Hok. simpl in Hok.
    case_bool_decide as Hlen; [done|]. destruct (mapR require_export_ready _) as [vs|] eqn:Hv; [|done].
    split.
    + destruct (filter _ groups) as [|g l] eqn:Hf; [done|]. exists g.
      assert (g ∈ filter (λ g, b ∈ vr_barcodes g) groups) as Hg by (rewrite Hf; by left).
      by apply list_elem_of_filter in Hg as [].
    + intros g Hg Hbg. assert (g ∈ filter (λ g, b ∈ vr_barcodes g) groups) as Hin
        by by apply list_elem_of_filter.
      pose proof (mapR_is_ok _ _ _ _ Hv Hin) as Hg'. unfold require_export_ready in Hg'.
      by case_bool_decide.
  - intros a c id m. unfold merge_volume_groups, make_vg. case_bool_decide; [done|]. intros [= <-].
    unfold vg_state. simpl. repeat case_bool_decide; try done; intros; lia || done.
Qed.

Lemma export_ready_only_in_sync_witness :
  let g := MkVg "g" ["A"; "B"]%string 2 2 in
  let h := MkVg "h" ["C"]%string 2 1 in
  let e := MkExportSet "e" ["A"; "B"]%string ES_PREPARING in
  let e' := MkExportSet "e" ["A"; "B"]%string ES_READY in
  mark_export_ready (MkExportSet "e" ["A"; "C"]%string ES_PREPARING) [g; h] = Raise ExportPrepError ∧
  (es_state e = ES_PREPARING ∧ es_state e' = ES_READY ∧ es_barcodes e' = es_barcodes e ∧
   ∀ b, b ∈ es_barcodes e →
     (∃ g', g' ∈ [g; h] ∧ b ∈ vr_barcodes g') ∧
     (∀ g', g' ∈ [g; h] → b ∈ vr_barcodes g' → vg_state g' = IN_SYNC)) ∧
  ∀ a c id m, merge_volume_groups a c id = Ok m → vg_state m = IN_SYNC →
    vg_state a = IN_SYNC ∧ vg_state c = IN_SYNC.
Proof.
  intros g h e e'. split; [reflexivity|]. apply (export_ready_only_in_sync e [g; h] e').
  reflexivity.
Defined.

(** * Preview, then book *)
Lemma server_data_tapes_keys library s : NoDup (dkeys (server_data_tapes library s)).
Proof.
  unfold server_data_tapes, dkeys. rewrite <-list_fmap_compose. cbn [compose].
  set (caps := foldl _ _ _).
  assert (dict_wf caps) as Hwf.
  { apply foldl_inv; [|intros; by apply dict_wf_dset].
    unfold library_tapes. destruct library as [[]|]; [apply dict_of_wf | apply NoDup_nil_2..]. }
  erewrite (list_fmap_ext _ id); [|done]. rewrite list_fmap_id.
  eapply sublist_NoDup; [|apply sublist_filter]. by rewrite sort_by_perm.
Qed.

Lemma server_data_tapes_nonneg library s : Forall (λ kv, 0 ≤ kv.2) (server_data_tapes library s).
Proof.
  unfold server_data_tapes. apply Forall_fmap, Forall_true. intros b. cbn [compose snd].
  set (caps := foldl _ _ _). unfold dget_or. destruct (dget caps b) as [v|] eqn:Hv; [|done].
  apply (Forall_dget (λ kv, 0 ≤ kv.2)) in Hv; [done|].
  apply foldl_inv; [|intros; apply Forall_dset; simpl; [done|lia]].
  unfold library_tapes. destruct library as [[inv|]|]; [|done..]. unfold dict_of.
  apply (foldl_inv (Forall (λ kv, 0 ≤ kv.2))); [done|].
  intros d x (b' & -> & _)%list_elem_of_fmap Hd. by apply Forall_dset.
Qed.

(** The capacity the planner counts for a server-made request is the ceiling the
    booking is made against. *)
Lemma server_pool_capacity q library s : rq_reserved_bytes q = [] →
  pool_capacity_bytes (with_tapes q (dkeys (server_data_tapes library s)) (server_data_tapes library s))
  = py_sum (dvalues (server_data_tapes library s)).
Proof.
  intros Hres. pose proof (server_data_tapes_nonneg library s) as Hpos.
  pose proof (server_data_tapes_keys library s) as Hnd.
  set (tapes := server_data_tapes library s) in *.
  unfold pool_capacity_bytes, dkeys, dvalues, py_sum. f_equal. simpl.
  rewrite <-list_fmap_compose. apply list_fmap_ext. intros i [b v] Hb%list_elem_of_lookup_2.
  unfold _tape_capacity. simpl. rewrite Hres. rewrite Forall_forall in Hpos.
  unfold dget_or at 1. rewrite (elem_dget tapes b v Hnd Hb). unfold dget_or. simpl.
  specialize (Hpos _ Hb). simpl in *. lia.
Qed.

(** a preview is honest: when the plan of a request whose capacity the server
    derived is safe to enqueue, and nothing changes in between, booking it is not
    refused; it adds one reservation of the bytes of all copies, in the name of
    the plan, for one hour. *)
Theorem preview_then_book q fields_set library s q' now plan_id created_at p pool uuid :
  rq_pool q = Some pool →
  ("reserved_bytes"%string ∉ fields_set → rq_reserved_bytes q = []) →
  server_budget_request q fields_set library s = Ok q' →
  plan_with_pool_budget q' now plan_id created_at s = Ok p →
  pl_is_safe_to_enqueue p = true →
  book_plan_capacity uuid p library now s =
    (Ok tt, with_reservations
       (ns_reservations s ++
        [MkReservation uuid pool (total_size q (rq_files q) * rq_copies q) plan_id (now + 3600)]) s).
Proof.
  intros Hpool Hdef Hreq Hplan Hsafe. unfold server_budget_request in Hreq. rewrite Hpool in Hreq.
  case_bool_decide as Hf; [done|]. case_bool_decide; [done|]. injection Hreq as <-.
  unfold plan_with_pool_budget in Hplan. cbn [with_tapes rq_pool] in Hplan. rewrite Hpool in Hplan.
  set (q1 := with_tapes _ _ _) in Hplan. set (q2 := with_pool_reserved q1 _) in Hplan.
  destruct (plan_safe_budget q2 plan_id created_at p Hplan Hsafe) as [Hh Hb].
  assert (pl_pool p = Some pool) as Hpp by (apply (f_equal pl_pool) in Hh; simpl in Hh; congruence).
  assert (pl_plan_id p = plan_id) as Hpi by apply (f_equal pl_plan_id Hh).
  assert (pl_copies_required p = rq_copies q) as Hpc by apply (f_equal pl_copies_required Hh).
  assert (pl_total_bytes p = total_size q (rq_files q)) as Hpt.
  { etrans; [apply (f_equal pl_total_bytes Hh)|]. apply (total_size_perm q), sort_by_perm. }
  assert (rq_reserved_bytes q = []) as Hres.
  { apply Hdef. intros Hin.
    assert ("reserved_bytes"%string ∈ filter (λ n, n ∈ fields_set) SERVER_BUDGET_FIELDS) as Hx.
    { apply list_elem_of_filter. split; [done|]. apply (bool_decide_unpack _). by vm_compute. }
    rewrite Hf in Hx. by apply not_elem_of_nil in Hx. }
  unfold book_plan_capacity. rewrite Hpp.
  unfold mbind, M_bind, getS, reserve_nas_capacity. rewrite Hpi, Hpc, Hpt.
  rewrite bool_decide_eq_false_2; [done|].
  assert (pool_capacity_bytes q2 = py_sum (dvalues (server_data_tapes library s))) as Hcap
    by by apply server_pool_capacity.
  specialize (Hb (mk_is_Some _ _ Hpool)). rewrite Hcap in Hb.
  change (total_size q (rq_files q) * rq_copies q ≤ py_sum (dvalues (server_data_tapes library s))
          - py_sum (nr_bytes <$> reservations_for_pool pool now s)) in Hb.
  rewrite active_rows in Hb. lia.
Qed.

(** * Instances *)

(** A library with three tapes: one new, one in a volume group, one cleaning; and a
    fourth, half full, known to the catalog only. *)
#[local] Notation some_library :=
  (Some (Ok (LibraryInventory "lib"
     ((λ ib, SlotStateRec ib.1 (Some ib.2) true) <$> [(1, "NEW001L8"); (2, "VG0001L8"); (3, "CLN001L1")]%string)
     [] ChangerState.IDLE)) : library_answer).
#[local] Notation some_store pools :=
  (MkNasStore (with_cartridges
     [("c1"%string, CartridgeRow "c1" "VG0001L8" (Some "g"%string) None 1000 0 "in_slot" true 0);
      ("c2"%string, CartridgeRow "c2" "OLD001L8" None None 1000 500 "in_slot" true 0)] empty_catalog)
     pools []).
#[local] Notation pool_request pool size :=
  (MkRequest None (Some CRITICAL_SEQUENTIAL) CACHE_DRIVE None (Some pool) None ["/a"%string]
     [("/a"%string, size)] [] [] 1 true true None None 1 [] None [] 0).
#[local] Notation server_plan pool size id store :=
  (match server_budget_request (pool_request pool size) [] some_library store with
   | Ok q => match plan_with_pool_budget q 0 id "now" store with
             | Ok p => p | Raise _ => initial_plan q id "now" end
   | Raise _ => initial_plan (pool_request pool size) id "now"
   end).

Lemma preview_then_book_witness :
  let s := some_store ["p"]%string in
  let q := pool_request "p"%string 900 in
  server_data_tapes some_library s = [("NEW001L8", 12000000000000); ("OLD001L8", 500)]%string ∧
  book_plan_capacity "u" (server_plan "p"%string 900 "id"%string s) some_library 7 s =
    (Ok tt, with_reservations
       (ns_reservations s ++ [MkReservation "u" "p" (total_size q (rq_files q) * rq_copies q) "id" (7 + 3600)]) s).
Proof.
  intros s q. split; [vm_compute; reflexivity|].
  eapply (preview_then_book q [] some_library s _ 7 "id" "now" _ "p" "u");
    [reflexivity | done | vm_compute; reflexivity | vm_compute; reflexivity | vm_compute; reflexivity].
Defined.

(** the budget of a pool is the whole free capacity of the library, so two
    pools can each book all of it: with one tape of 500 free bytes, a plan of 500
    bytes is safe and booked in each pool, 1000 bytes in all. *)
Theorem pools_share_tapes :
  let s := with_reservations [] (MkNasStore (with_cartridges
     [("c2"%string, CartridgeRow "c2" "OLD001L8" None None 1000 500 "in_slot" true 0)] empty_catalog)
     ["p"; "r"]%string []) in
  let request pool := with_tapes (pool_request pool 500) ["OLD001L8"%string] [("OLD001L8"%string, 500)] in
  server_data_tapes None s = [("OLD001L8"%string, 500)] ∧
  match plan_with_pool_budget (request "p"%string) 0 "id1" "now" s with
  | Ok p =>
      let s1 := (book_plan_capacity "u1" p None 0 s).2 in
      match plan_with_pool_budget (request "r"%string) 0 "id2" "now" s1 with
      | Ok p' =>
          let '(r, s2) := book_plan_capacity "u2" p' None 0 s1 in
          pl_is_safe_to_enqueue p = true ∧ pl_is_safe_to_enqueue p' = true ∧ r = Ok tt ∧
          reserved_at "p" 0 s2 + reserved_at "r" 0 s2 = 1000
      | Raise _ => False
      end
  | Raise _ => False
  end.
Proof. vm_compute. by split_and!. Qed.
