(* ===== verification/TapeStates.v ===== *)
(** nas/state_machine.py: the life cycle of a cartridge in the NAS, a table of
    transitions, and what it says of the files on it. *)
From stdpp Require Import base list option strings.
From Stdlib Require Import Lia.
From S2P Require Import Prelude Domain Capacity.

Inductive TapeState : Set :=
| TS_ONLINE | TS_OFFLINE | TS_DEGRADED | TS_HYDRATING | TS_EXPORTING | TS_EXPORTED | TS_SEQUESTERED
| TS_REPAIR_REQUIRED.
#[export] Instance TapeState_eq_dec : EqDecision TapeState.
Proof. solve_decision. Defined.

Inductive TapeEvent : Set :=
| GO_OFFLINE | BRING_ONLINE | ERROR_DETECTED | HYDRATE_START | HYDRATE_DONE | EXPORT_START
| EXPORT_DONE | EXPORT_CANCEL | IMPORT | SEQUESTER | OPERATOR_REPAIR | OPERATOR_RELEASE
| REPAIR_DONE.
#[export] Instance TapeEvent_eq_dec : EqDecision TapeEvent.
Proof. solve_decision. Defined.

Definition InvalidTransitionError : exn := OtherError "InvalidTransitionError".

Definition TRANSITIONS : dict (TapeState * TapeEvent) TapeState :=
  [((TS_ONLINE, GO_OFFLINE), TS_OFFLINE);
   ((TS_ONLINE, ERROR_DETECTED), TS_DEGRADED);
   ((TS_ONLINE, HYDRATE_START), TS_HYDRATING);
   ((TS_ONLINE, EXPORT_START), TS_EXPORTING);
   ((TS_ONLINE, SEQUESTER), TS_SEQUESTERED);
   ((TS_OFFLINE, BRING_ONLINE), TS_ONLINE);
   ((TS_OFFLINE, SEQUESTER), TS_SEQUESTERED);
   ((TS_DEGRADED, OPERATOR_REPAIR), TS_REPAIR_REQUIRED);
   ((TS_DEGRADED, SEQUESTER), TS_SEQUESTERED);
   ((TS_DEGRADED, GO_OFFLINE), TS_OFFLINE);
   ((TS_HYDRATING, HYDRATE_DONE), TS_ONLINE);
   ((TS_HYDRATING, ERROR_DETECTED), TS_DEGRADED);
   ((TS_EXPORTING, EXPORT_DONE), TS_EXPORTED);
   ((TS_EXPORTING, EXPORT_CANCEL), TS_ONLINE);
   ((TS_EXPORTED, IMPORT), TS_OFFLINE);
   ((TS_SEQUESTERED, OPERATOR_REPAIR), TS_REPAIR_REQUIRED);
   ((TS_SEQUESTERED, OPERATOR_RELEASE), TS_ONLINE);
   ((TS_REPAIR_REQUIRED, REPAIR_DONE), TS_ONLINE);
   ((TS_REPAIR_REQUIRED, SEQUESTER), TS_SEQUESTERED)].

Definition transition (state : TapeState) (event : TapeEvent) : result TapeState :=
  match dget TRANSITIONS (state, event) with
  | Some s => Ok s
  | None => Raise InvalidTransitionError
  end.

Definition file_state_for_tape (state : TapeState) : NasFileState :=
  match state with
  | TS_EXPORTED => FS_EXPORTED
  | TS_HYDRATING => FS_HYDRATING
  | TS_SEQUESTERED | TS_REPAIR_REQUIRED => MISSING_TAPE
  | _ => OFFLINE_ON_TAPE
  end.

(** * Traces

    A tape takes events one after the other; an event that is refused leaves its
    state alone. *)
Definition take_event (s : TapeState) (e : TapeEvent) : TapeState :=
  match transition s e with Ok s' => s' | Raise _ => s end.
Definition take_events (s : TapeState) (l : list TapeEvent) : TapeState := foldl take_event s l.

Definition by_operator (e : TapeEvent) : bool :=
  match e with OPERATOR_REPAIR | OPERATOR_RELEASE => true | _ => false end.

Lemma take_events_from s (P : TapeState → Prop) (ok : TapeEvent → Prop) l :
  (∀ s e, P s → ok e → P (take_event s e)) → P s → Forall ok l → P (take_events s l).
Proof.
  intros Hstep Hs Hl. revert s Hs. induction Hl as [|e l He _ IH]; intros s Hs; [done|].
  apply IH. by apply Hstep.
Qed.

(** a cartridge in quarantine leaves it only by an act of the operator, and an
    exported one comes back only by an import: no other sequence of events, refused
    ones included, makes the files of either available; and from every state some
    three events bring the cartridge back online. *)
Theorem quarantine_holds :
  (∀ l, Forall (λ e, by_operator e = false) l → take_events TS_SEQUESTERED l = TS_SEQUESTERED) ∧
  (∀ l, Forall (λ e, e ≠ IMPORT) l → take_events TS_EXPORTED l = TS_EXPORTED) ∧
  (∀ s, ∃ l, length l ≤ 3 ∧ take_events s l = TS_ONLINE).
Proof.
  split_and!.
  - intros l Hl. eapply (take_events_from _ (λ s, s = TS_SEQUESTERED)); [|done..].
    intros s e -> He. by destruct e.
  - intros l Hl. eapply (take_events_from _ (λ s, s = TS_EXPORTED)); [|done..].
    intros s e -> He. by destruct e.
  - intros [].
    + exists []. by split; [simpl; lia|].
    + exists [BRING_ONLINE]. by split; [simpl; lia|].
    + exists [GO_OFFLINE; BRING_ONLINE]. by split; [simpl; lia|].
    + exists [HYDRATE_DONE]. by split; [simpl; lia|].
    + exists [EXPORT_CANCEL]. by split; [simpl; lia|].
    + exists [IMPORT; BRING_ONLINE]. by split; [simpl; lia|].
    + exists [OPERATOR_RELEASE]. by split; [simpl; lia|].
    + exists [REPAIR_DONE]. by split; [simpl; lia|].
Qed.
