(* ===== verification/Json.v ===== *)
(** The standard library's [json]: [json.dumps(j, sort_keys=True,
    separators=(",", ":"))] and [json.loads], over ASCII text.

    The text of floats is a parameter ([FloatText]): [float.__repr__] and the
    conversion of a literal are not source code, and no payload of the modelled
    code has one.  A [\u] escape beyond U+00FF is outside the text of the model
    and refused. *)
From stdpp Require Import base list option strings.
From Stdlib Require Import Ascii ZArith Lia DecimalPos DecimalN DecimalZ.
From S2P Require Import Prelude Paths.
#[local] Open Scope Z_scope.

Class FloatText : Type := {
  float_repr : QArith_base.Q → list ascii;
  float_literal : list ascii → json;
}.

(** * Printing *)
Notation quote := (ascii_of_N 34).
Notation backslash := (ascii_of_N 92).

Definition hex_digit (n : N) : ascii := ascii_of_N (if (n <? 10)%N then 48 + n else 87 + n).
Definition escape_u (c : ascii) : list ascii :=
  [backslash; "u"%char; "0"%char; "0"%char; hex_digit (N_of_ascii c / 16);
   hex_digit (N_of_ascii c mod 16)].

(** The escapes of [py_encode_basestring_ascii]: letter escapes first, then all
    but the printable characters as [\u00xx]. *)
Definition letter_escapes : list (ascii * ascii) :=
  [(quote, quote); (backslash, backslash); (ascii_of_N 10, "n"%char); (ascii_of_N 13, "r"%char);
   (ascii_of_N 9, "t"%char); (ascii_of_N 12, "f"%char); (ascii_of_N 8, "b"%char)].
Definition escape (c : ascii) : list ascii :=
  match list_find (λ p, p.1 = c) letter_escapes with
  | Some (_, (_, l)) => [backslash; l]
  | None => if (32 <=? N_of_ascii c)%N && (N_of_ascii c <=? 126)%N then [c] else escape_u c
  end.
Definition print_string (s : string) : list ascii :=
  quote :: concat (escape <$> String.list_ascii_of_string s) ++ [quote].

Fixpoint print_digits (d : Decimal.uint) : list ascii :=
  match d with
  | Decimal.Nil => []
  | Decimal.D0 d => "0"%char :: print_digits d
  | Decimal.D1 d => "1"%char :: print_digits d
  | Decimal.D2 d => "2"%char :: print_digits d
  | Decimal.D3 d => "3"%char :: print_digits d
  | Decimal.D4 d => "4"%char :: print_digits d
  | Decimal.D5 d => "5"%char :: print_digits d
  | Decimal.D6 d => "6"%char :: print_digits d
  | Decimal.D7 d => "7"%char :: print_digits d
  | Decimal.D8 d => "8"%char :: print_digits d
  | Decimal.D9 d => "9"%char :: print_digits d
  end.
Definition print_int (z : Z) : list ascii :=
  match Z.to_int z with
  | Decimal.Pos d => print_digits d
  | Decimal.Neg d => "-"%char :: print_digits d
  end.

(** [sep.join(l)]. *)
Fixpoint join (sep : ascii) (l : list (list ascii)) : list ascii :=
  match l with
  | [] => []
  | [x] => x
  | x :: l => x ++ sep :: join sep l
  end.

(** [sorted(d.items())]: keys are distinct, so values are not compared. *)
Definition by_key {V} (a b : string * V) : bool := String.leb a.1 b.1.

Section codec.
Context {FT : FloatText}.

Fixpoint print (j : json) : list ascii :=
  match j with
  | JNull => String.list_ascii_of_string "null"
  | JBool true => String.list_ascii_of_string "true"
  | JBool false => String.list_ascii_of_string "false"
  | JInt z => print_int z
  | JFloat q => float_repr q
  | JStr s => print_string s
  | JArr l => "["%char :: join ","%char (print <$> l) ++ ["]"%char]
  | JObj d =>
      "{"%char :: join ","%char ((λ kv, print_string kv.1 ++ ":"%char :: kv.2) <$>
                    sort_by by_key ((λ kv, (kv.1, print kv.2)) <$> d)) ++ ["}"%char]
  end.
Definition dumps (j : json) : string := String.string_of_list_ascii (print j).

(** * Parsing *)
Definition is_ws (c : ascii) : bool :=
  bool_decide (c ∈ [" "%char; ascii_of_N 9; ascii_of_N 10; ascii_of_N 13]).
Definition skip_ws (s : list ascii) : list ascii := lstrip_chars is_ws s.

(** After the prefix [p]. *)
Fixpoint after (p s : list ascii) : option (list ascii) :=
  match p, s with
  | [], _ => Some s
  | c :: p, d :: s => if decide (c = d) then after p s else None
  | _ :: _, [] => None
  end.

Definition hex_value (c : ascii) : option N :=
  let n := N_of_ascii c in
  if ((48 <=? n) && (n <=? 57))%N then Some (n - 48)%N
  else if ((97 <=? n) && (n <=? 102))%N then Some (n - 87)%N
  else if ((65 <=? n) && (n <=? 70))%N then Some (n - 55)%N
  else None.
Definition code_point (a b c d : ascii) : option ascii :=
  a ← hex_value a; b ← hex_value b; c ← hex_value c; d ← hex_value d;
  let n := (((a * 16 + b) * 16 + c) * 16 + d)%N in
  if (n <? 256)%N then Some (ascii_of_N n) else None.

(** What the letter of an escape stands for. *)
Definition unescape (c : ascii) : option ascii :=
  match list_find (λ p, p.2 = c) letter_escapes with
  | Some (_, (x, _)) => Some x
  | None => if decide (c = "/"%char) then Some c else None
  end.

(** The rest of a string after its opening quote ([scanstring]). *)
Fixpoint parse_string (acc s : list ascii) : option (string * list ascii) :=
  match s with
  | [] => None
  | c :: s =>
      if decide (c = quote) then Some (String.string_of_list_ascii (reverse acc), s)
      else if decide (c = backslash) then
        match s with
        | e :: s =>
            if decide (e = "u"%char) then
              match s with
              | a :: b :: c :: d :: s => x ← code_point a b c d; parse_string (x :: acc) s
              | _ => None
              end
            else x ← unescape e; parse_string (x :: acc) s
        | [] => None
        end
      else if (N_of_ascii c <? 32)%N then None
      else parse_string (c :: acc) s
  end.

Definition is_digit (c : ascii) : bool := (48 <=? N_of_ascii c)%N && (N_of_ascii c <=? 57)%N.
Fixpoint take_digits (s : list ascii) : list ascii * list ascii :=
  match s with
  | c :: s' => if is_digit c then let '(ds, r) := take_digits s' in (c :: ds, r) else ([], s)
  | [] => ([], [])
  end.
Fixpoint digits_value (ds : list ascii) : Decimal.uint :=
  match ds with
  | [] => Decimal.Nil
  | c :: ds =>
      let d := digits_value ds in
      match (N_of_ascii c - 48)%N with
      | 0%N => Decimal.D0 d | 1%N => Decimal.D1 d | 2%N => Decimal.D2 d | 3%N => Decimal.D3 d
      | 4%N => Decimal.D4 d | 5%N => Decimal.D5 d | 6%N => Decimal.D6 d | 7%N => Decimal.D7 d
      | 8%N => Decimal.D8 d | _ => Decimal.D9 d
      end
  end.

(** The optional parts of a number: a fraction and an exponent, each with at
    least one digit. *)
Definition take_fraction (s : list ascii) : list ascii * list ascii :=
  match s with
  | c :: s' => if decide (c = "."%char) then
                 match take_digits s' with ([], _) => ([], s) | (ds, r) => (c :: ds, r) end
               else ([], s)
  | [] => ([], s)
  end.
Definition take_exponent (s : list ascii) : list ascii * list ascii :=
  match s with
  | c :: s' =>
      if bool_decide (c ∈ ["e"%char; "E"%char]) then
        let '(sign, s'') := match s' with
                            | d :: s'' => if bool_decide (d ∈ ["-"%char; "+"%char]) then ([d], s'')
                                          else ([], s')
                            | [] => ([], s')
                            end in
        match take_digits s'' with ([], _) => ([], s) | (ds, r) => (c :: sign ++ ds, r) end
      else ([], s)
  | [] => ([], s)
  end.

(** A number: an optional minus sign, a zero or digits that do not start with
    one, and the optional parts. *)
Definition parse_number (s : list ascii) : option (json * list ascii) :=
  let '(sign, s1) := match s with
                     | c :: s1 => if decide (c = "-"%char) then ([c], s1) else ([], s)
                     | [] => ([], s)
                     end in
  let '(ds, s2) := match s1 with
                   | c :: s2 => if decide (c = "0"%char) then ([c], s2) else take_digits s1
                   | [] => ([], s1)
                   end in
  if decide (ds = []) then None
  else
    let '(frac, s3) := take_fraction s2 in
    let '(ex, s4) := take_exponent s3 in
    if decide (frac = [] ∧ ex = []) then
      let u := digits_value ds in
      Some (JInt (Z.of_int (if decide (sign = []) then Decimal.Pos u else Decimal.Neg u)), s4)
    else Some (float_literal (sign ++ ds ++ frac ++ ex), s4).

(** The names of values, tried before numbers. *)
Definition literals : list (list ascii * json) :=
  [(String.list_ascii_of_string "null", JNull);
   (String.list_ascii_of_string "true", JBool true);
   (String.list_ascii_of_string "false", JBool false);
   (String.list_ascii_of_string "NaN", float_literal (String.list_ascii_of_string "NaN"));
   (String.list_ascii_of_string "Infinity", float_literal (String.list_ascii_of_string "Infinity"));
   (String.list_ascii_of_string "-Infinity", float_literal (String.list_ascii_of_string "-Infinity"))].
Fixpoint parse_literal (l : list (list ascii * json)) (s : list ascii) : option (json * list ascii) :=
  match l with
  | [] => parse_number s
  | (p, j) :: l => match after p s with Some r => Some (j, r) | None => parse_literal l s end
  end.

(** [scan_once] with its loops over the elements of an array and the members of
    an object; every call consumes a character or ends, so the length of the
    text is fuel enough (see [parse_print]). *)
Fixpoint parse_value (fuel : nat) (s : list ascii) : option (json * list ascii) :=
  match fuel with
  | O => None
  | S fuel =>
      match s with
      | [] => None
      | c :: s' =>
          if decide (c = quote) then '(x, r) ← parse_string [] s'; Some (JStr x, r)
          else if decide (c = "{"%char) then
            let s' := skip_ws s' in
            match after ["}"%char] s' with
            | Some r => Some (JObj [], r)
            | None => '(d, r) ← parse_members fuel s'; Some (JObj (dict_of d), r)
            end
          else if decide (c = "["%char) then
            let s' := skip_ws s' in
            match after ["]"%char] s' with
            | Some r => Some (JArr [], r)
            | None => '(l, r) ← parse_elements fuel s'; Some (JArr l, r)
            end
          else parse_literal literals s
      end
  end
with parse_elements (fuel : nat) (s : list ascii) : option (list json * list ascii) :=
  match fuel with
  | O => None
  | S fuel =>
      '(x, r) ← parse_value fuel s;
      match skip_ws r with
      | c :: r =>
          if decide (c = "]"%char) then Some ([x], r)
          else if decide (c = ","%char)
               then '(l, r) ← parse_elements fuel (skip_ws r); Some (x :: l, r)
               else None
      | [] => None
      end
  end
with parse_members (fuel : nat) (s : list ascii) : option (list (string * json) * list ascii) :=
  match fuel with
  | O => None
  | S fuel =>
      s ← after [quote] s;
      '(k, r) ← parse_string [] s;
      r ← after [":"%char] (skip_ws r);
      '(x, r) ← parse_value fuel (skip_ws r);
      match skip_ws r with
      | c :: r =>
          if decide (c = "}"%char) then Some ([(k, x)], r)
          else if decide (c = ","%char)
               then '(d, r) ← parse_members fuel (skip_ws r); Some ((k, x) :: d, r)
               else None
      | [] => None
      end
  end.

(** [json.loads]: [None] for [JSONDecodeError]. *)
Definition loads (text : string) : option json :=
  let s := skip_ws (String.list_ascii_of_string text) in
  '(j, r) ← parse_value (S (2 * length s)) s;
  if decide (skip_ws r = []) then Some j else None.
End codec.

(** * Round trips *)
Lemma json_ind' (P : json → Prop) :
  P JNull → (∀ b, P (JBool b)) → (∀ z, P (JInt z)) → (∀ q, P (JFloat q)) → (∀ s, P (JStr s)) →
  (∀ l, Forall P l → P (JArr l)) → (∀ d, Forall (λ kv, P kv.2) d → P (JObj d)) → ∀ j, P j.
Proof.
  intros Hn Hb Hz Hq Hs Ha Ho. fix IH 1. intros [|b|z|q|s|l|d]; [apply Hn|apply Hb|apply Hz|apply Hq|apply Hs| |].
  - apply Ha. induction l as [|x l IHl]; constructor; [apply IH | apply IHl].
  - apply Ho. induction d as [|[k x] d IHd]; constructor; [apply IH | apply IHd].
Qed.

(** Values without floats, whose objects have distinct keys. *)
Fixpoint plain (j : json) : Prop :=
  match j with
  | JFloat _ => False
  | JArr l => foldr (λ x P, plain x ∧ P) True l
  | JObj d => NoDup d.*1 ∧ foldr (λ kv P, plain kv.2 ∧ P) True d
  | _ => True
  end.

(** The same value with the keys of every object in order, which Python's
    equality of dictionaries does not tell from it. *)
Fixpoint canonical (j : json) : json :=
  match j with
  | JArr l => JArr (canonical <$> l)
  | JObj d => JObj (sort_by by_key ((λ kv, (kv.1, canonical kv.2)) <$> d))
  | j => j
  end.

Lemma plain_arr l : plain (JArr l) ↔ Forall plain l.
Proof. simpl. induction l as [|x l IH]; simpl; [done|]. by rewrite Forall_cons, IH. Qed.

Lemma plain_obj d : plain (JObj d) ↔ NoDup d.*1 ∧ Forall (λ kv, plain kv.2) d.
Proof.
  simpl. f_equiv. induction d as [|x d IH]; simpl; [done|]. by rewrite Forall_cons, IH.
Qed.

Lemma sort_by_fmap {A B} (le : A → A → bool) (le' : B → B → bool) (g : A → B) l :
  (∀ x y, le' (g x) (g y) = le x y) → sort_by le' (g <$> l) = g <$> sort_by le l.
Proof.
  intros Hle. assert (∀ x l, insert_by le' (g x) (g <$> l) = g <$> insert_by le x l) as Hins.
  { intros x l'. induction l' as [|y l' IH]; csimpl; [done|]. rewrite Hle. case_match; csimpl; [done|].
    by rewrite IH. }
  induction l as [|x l IH]; csimpl; [done|]. by rewrite IH, Hins.
Qed.

Lemma by_key_fmap {V W} (f : V → W) (d : list (string * V)) :
  sort_by by_key ((λ kv, (kv.1, f kv.2)) <$> d) = (λ kv, (kv.1, f kv.2)) <$> sort_by by_key d.
Proof. by apply sort_by_fmap. Qed.

(** ** Strings *)
Lemma parse_escape acc c s : parse_string acc (escape c ++ s) = parse_string (c :: acc) s.
Proof. destruct c as [[] [] [] [] [] [] [] []]; reflexivity. Qed.

Lemma parse_print_string acc s rest :
  parse_string acc (concat (escape <$> s) ++ quote :: rest) =
  Some (String.string_of_list_ascii (reverse acc ++ s), rest).
Proof.
  revert acc. induction s as [|c s IH]; intros acc; csimpl.
  - by rewrite app_nil_r.
  - rewrite <-app_assoc, parse_escape, IH. by rewrite reverse_cons, <-app_assoc.
Qed.

Lemma parse_print_key s rest :
  parse_string [] (concat (escape <$> String.list_ascii_of_string s) ++ quote :: rest) = Some (s, rest).
Proof.
  rewrite parse_print_string. do 2 f_equal. apply String.string_of_list_ascii_of_string.
Qed.

(** ** Integers *)
Definition stops (rest : list ascii) : Prop :=
  match rest with [] => True | c :: _ => c ∈ [","%char; "]"%char; "}"%char] end.

Lemma stops_no_digit rest : stops rest → take_digits rest = ([], rest).
Proof.
  destruct rest as [|c rest]; [done|]. simpl. rewrite !elem_of_cons.
  intros [->|[->|[->|[]%not_elem_of_nil]]]; reflexivity.
Qed.

Lemma stops_no_fraction rest : stops rest →
  take_fraction rest = ([], rest) ∧ take_exponent rest = ([], rest).
Proof.
  destruct rest as [|c rest]; [done|]. simpl. rewrite !elem_of_cons.
  intros [->|[->|[->|[]%not_elem_of_nil]]]; by split.
Qed.

Lemma take_print_digits u rest : stops rest → take_digits (print_digits u ++ rest) = (print_digits u, rest).
Proof.
  intros Hs. induction u as [|u IH|u IH|u IH|u IH|u IH|u IH|u IH|u IH|u IH|u IH]; simpl;
    [by apply stops_no_digit | by rewrite IH ..].
Qed.

Lemma digits_value_print u : digits_value (print_digits u) = u.
Proof.
  induction u as [|u IH|u IH|u IH|u IH|u IH|u IH|u IH|u IH|u IH|u IH]; simpl; [done|by rewrite IH ..].
Qed.

(** No leading zero. *)
Definition normal (u : Decimal.uint) : Prop :=
  u ≠ Decimal.Nil ∧ ∀ d, u = Decimal.D0 d → d = Decimal.Nil.

Lemma nzhead_normal u : Decimal.nzhead u = Decimal.Nil ∨ normal (Decimal.nzhead u).
Proof.
  induction u as [|u IH|u IH|u IH|u IH|u IH|u IH|u IH|u IH|u IH|u IH]; simpl;
    [by left | done | right; split; [done | intros d [=]] ..].
Qed.

Lemma to_int_normal z : match Z.to_int z with Decimal.Pos u | Decimal.Neg u => normal u end.
Proof.
  pose proof (DecimalZ.to_of (Z.to_int z)) as H. rewrite DecimalZ.of_to in H.
  rewrite H. unfold Decimal.norm. destruct (Z.to_int z) as [u|u]; unfold Decimal.unorm.
  - destruct (nzhead_normal u) as [-> | Hn]; [split; [done|intros d [= <-]; done]|].
    destruct (Decimal.nzhead u); [by destruct Hn|done..].
  - destruct (nzhead_normal u) as [-> | Hn]; [split; [done|intros d [= <-]; done]|].
    destruct (Decimal.nzhead u); [by destruct Hn|done..].
Qed.

(** A number starts with a digit, so is none of the named values. *)
Definition starts_digit (s : list ascii) : Prop :=
  match s with c :: _ => is_digit c = true | [] => False end.

Lemma print_digits_starts u : u ≠ Decimal.Nil → starts_digit (print_digits u).
Proof. by destruct u. Qed.

Section round_trip.
Context {FT : FloatText}.

Lemma parse_digits_number (neg : bool) u rest : normal u → stops rest →
  parse_number ((if neg then ["-"%char] else []) ++ print_digits u ++ rest) =
  Some (JInt (Z.of_int (if neg then Decimal.Neg u else Decimal.Pos u)), rest).
Proof.
  intros [Hne Hz] Hs. destruct (stops_no_fraction rest Hs) as [Hf He].
  pose proof (take_print_digits u rest Hs) as Ht. pose proof (digits_value_print u) as Hv.
  assert (match print_digits u ++ rest with
          | c :: s2 => if decide (c = "0"%char) then ([c], s2) else take_digits (print_digits u ++ rest)
          | [] => ([], print_digits u ++ rest) end = (print_digits u, rest)) as Hd.
  { destruct u as [|u|u|u|u|u|u|u|u|u|u]; [done| |apply Ht..]. by rewrite (Hz u eq_refl). }
  assert (print_digits u ≠ []) as Hnn by by destruct u.
  unfold parse_number. destruct neg.
  - cbn [app]. rewrite decide_True by done. rewrite Hd.
    rewrite decide_False by done. rewrite Hf, He, decide_True by done.
    by rewrite decide_False, Hv by done.
  - cbn [app].
    assert (match print_digits u ++ rest with
            | c :: s1 => if decide (c = "-"%char) then ([c], s1) else ([], print_digits u ++ rest)
            | [] => ([], print_digits u ++ rest) end = ([], print_digits u ++ rest)) as ->
      by by destruct u.
    rewrite Hd, decide_False by done. rewrite Hf, He, decide_True by done.
    by rewrite decide_True, Hv by done.
Qed.

Lemma parse_literals_number s : starts_digit s →
  parse_literal literals s = parse_number s ∧
  parse_literal literals ("-"%char :: s) = parse_number ("-"%char :: s).
Proof.
  destruct s as [|c s]; [done|]. simpl starts_digit. intros Hc.
  destruct c as [[] [] [] [] [] [] [] []]; (discriminate Hc || by split).
Qed.

Lemma parse_print_int fuel z rest : stops rest →
  parse_value (S fuel) (print_int z ++ rest) = Some (JInt z, rest).
Proof.
  intros Hs. pose proof (to_int_normal z) as Hn. unfold print_int.
  rewrite <-(DecimalZ.of_to z) at 2. destruct (Z.to_int z) as [u|u].
  - assert (starts_digit (print_digits u ++ rest)) as Hd by by destruct u, Hn.
    pose proof (parse_digits_number false u rest Hn Hs) as Hp. simpl app in Hp.
    rewrite <-Hp, <-(proj1 (parse_literals_number _ Hd)). destruct u, Hn; done.
  - assert (starts_digit (print_digits u ++ rest)) as Hd by by destruct u, Hn.
    pose proof (parse_digits_number true u rest Hn Hs) as Hp. simpl app in Hp.
    rewrite <-Hp, <-(proj2 (parse_literals_number _ Hd)). done.
Qed.

(** ** Values *)

(** The text of a value starts with neither white space nor a closing bracket. *)
Definition opens (s : list ascii) : Prop :=
  match s with
  | c :: _ => is_ws c = false ∧ c ∉ ["]"%char; "}"%char]
  | [] => False
  end.

Lemma print_opens j r : plain j → opens (print j ++ r).
Proof.
  destruct j as [|[]|z|q|s|l|d]; simpl; try (by intros []); intros _;
    try by split; [reflexivity | apply (bool_decide_unpack _); vm_compute].
  unfold print_int. pose proof (to_int_normal z) as Hn. 
  destruct (Z.to_int z) as [u|u]; [destruct u; [by destruct Hn|..]|];
    by split; [reflexivity | apply (bool_decide_unpack _); vm_compute].
Qed.

Lemma skip_opens s : opens s → skip_ws s = s.
Proof. destruct s as [|c s]; [done|]. intros [Hc _]. unfold skip_ws. simpl. by rewrite Hc. Qed.

Definition parses (j : json) : Prop := ∀ fuel rest, stops rest → (length (print j) ≤ fuel)%nat →
  parse_value fuel (print j ++ rest) = Some (canonical j, rest).

Lemma skip_stop (c : ascii) r : c ∈ [","%char; "]"%char; "}"%char; ":"%char] → skip_ws (c :: r) = c :: r.
Proof.
  rewrite !elem_of_cons. by intros [->|[->|[->|[->|[]%not_elem_of_nil]]]].
Qed.

Lemma print_length_pos j : plain j → (0 < length (print j))%nat.
Proof. intros Hj. pose proof (print_opens j [] Hj) as H. rewrite app_nil_r in H. destruct (print j); [done|simpl; lia]. Qed.

Lemma parse_print_elements l fuel rest : l ≠ [] → Forall plain l → Forall parses l →
  (length (join ","%char (print <$> l)) < fuel)%nat →
  parse_elements fuel (join ","%char (print <$> l) ++ "]"%char :: rest) = Some (canonical <$> l, rest).
Proof.
  intros Hne Hpl Hps. revert fuel. induction Hps as [|x l Hx Hps IH]; [done|]. intros fuel Hf.
  apply Forall_cons in Hpl as [Hpx Hpl]. destruct fuel as [|fuel]; [lia|].
  destruct l as [|y l].
  - csimpl in Hf. csimpl. rewrite Hx; [done|by right; left|simpl in Hf; lia].
  - csimpl. rewrite <-app_assoc. rewrite Hx; [|by left|].
    2: { csimpl in Hf. rewrite length_app in Hf. lia. }
    cbn [mbind option_bind app]. rewrite skip_stop by left. rewrite decide_False, decide_True by done.
    csimpl in IH. rewrite skip_opens.
    + rewrite IH; [done|done|done|]. csimpl in Hf. rewrite length_app in Hf. simpl in Hf. lia.
    + apply Forall_cons in Hpl as [Hpy _]. destruct l; csimpl; rewrite <-?app_assoc; by apply print_opens.
Qed.

(** A member of an object, printed. *)
Definition print_member (kv : string * json) : list ascii :=
  print_string kv.1 ++ ":"%char :: print kv.2.

Lemma print_obj d : print (JObj d) =
  "{"%char :: join ","%char (print_member <$> sort_by by_key d) ++ ["}"%char].
Proof. simpl. rewrite by_key_fmap, <-list_fmap_compose. done. Qed.

Lemma parse_member_key fuel k s :
  parse_members (S fuel) (print_string k ++ ":"%char :: s) =
  ('(x, r) ← parse_value fuel (skip_ws s);
   match skip_ws r with
   | c :: r =>
       if decide (c = "}"%char) then Some ([(k, x)], r)
       else if decide (c = ","%char)
            then '(d, r) ← parse_members fuel (skip_ws r); Some ((k, x) :: d, r)
            else None
   | [] => None
   end).
Proof.
  unfold print_string. cbn [parse_members app after]. rewrite decide_True by done.
  cbn [mbind option_bind]. rewrite <-app_assoc. cbn [app].
  rewrite parse_print_key. cbn [mbind option_bind].
  rewrite skip_stop by (do 3 right; left). cbn [after]. rewrite decide_True by done.
  done.
Qed.

Lemma members_open d s : d ≠ [] → opens (join ","%char (print_member <$> d) ++ s).
Proof.
  intros Hne. destruct d as [|[k x] [|]]; [done|..];
    (split; [reflexivity | apply (bool_decide_unpack _); vm_compute; done]).
Qed.

Lemma parse_print_members d fuel rest : d ≠ [] → Forall (λ kv, plain kv.2) d →
  Forall (λ kv, parses kv.2) d →
  (length (join ","%char (print_member <$> d)) < fuel)%nat →
  parse_members fuel (join ","%char (print_member <$> d) ++ "}"%char :: rest) =
  Some ((λ kv, (kv.1, canonical kv.2)) <$> d, rest).
Proof.
  intros Hne Hpl Hps. revert fuel. induction Hps as [|[k x] d Hx Hps IH]; [done|]. intros fuel Hf.
  apply Forall_cons in Hpl as [Hpx Hpl]. destruct fuel as [|fuel]; [lia|]. simpl in Hx, Hpx.
  assert (length (print_member (k, x)) = length (print_string k) + 1 + length (print x))%nat as Hlen.
  { unfold print_member. rewrite length_app. simpl. lia. }
  destruct d as [|[k' y] d].
  - change (join ","%char (print_member <$> [(k, x)])) with (print_string k ++ ":"%char :: print x).
    change (length (print_member (k, x)) < S fuel)%nat in Hf. rewrite <-app_assoc. cbn [app].
    rewrite parse_member_key, skip_opens by by apply print_opens.
    rewrite Hx; [|by right; right; left|lia]. cbn [mbind option_bind].
    by rewrite skip_stop by (do 2 right; left).
  - set (d' := (k', y) :: d) in *.
    assert (join ","%char (print_member <$> (k, x) :: d') =
      print_member (k, x) ++ ","%char :: join ","%char (print_member <$> d')) as Hj by done.
    rewrite Hj in Hf |- *. rewrite length_app in Hf. cbn [length] in Hf.
    unfold print_member at 1. cbn [fst snd]. rewrite <-!app_assoc. cbn [app].
    rewrite parse_member_key, skip_opens by by apply print_opens.
    cbn [app]. rewrite Hx; [|by left|lia]. cbn [mbind option_bind].
    rewrite skip_stop by left. rewrite decide_False, decide_True by done. rewrite skip_opens.
    + rewrite IH; [done|done|done|lia].
    + by apply members_open.
Qed.

Lemma plain_parses j : plain j → parses j.
Proof.
  induction j as [|b|z|q|s|l IH|d IH] using json_ind'; intros Hp fuel rest Hs Hf.
  - destruct fuel; [simpl in Hf; lia | done].
  - destruct b, fuel; simpl in Hf; done || lia.
  - destruct fuel; [|by apply parse_print_int].
    pose proof (print_length_pos (JInt z) I). lia.
  - done.
  - destruct fuel; [simpl in Hf; lia|]. simpl. rewrite <-app_assoc. cbn [app].
    by rewrite parse_print_key.
  - apply plain_arr in Hp. destruct fuel as [|fuel]; [simpl in Hf; lia|].
    destruct l as [|x l]; [done|]. set (l' := x :: l) in *.
    assert (Forall parses l') as Hps.
    { rewrite Forall_forall in *. intros y Hy. by apply IH, Hp. }
    cbn [print app]. rewrite <-app_assoc. cbn [app parse_value].
    rewrite decide_False, decide_False, decide_True by done.
    assert (opens (join ","%char (print <$> l') ++ "]"%char :: rest)) as Ho.
    { apply Forall_cons in Hp as [Hx _]. unfold l'. destruct l; csimpl; rewrite <-?app_assoc;
        by apply print_opens. }
    rewrite skip_opens by done.
    assert (∀ s, opens s → after ["]"%char] s = None) as Hafter.
    { intros [|c s] Hc; [done|]. destruct Hc as [_ Hc]. simpl. rewrite decide_False; [done|].
      intros <-. apply Hc. by left. }
    rewrite Hafter, parse_print_elements by
      (done || by cbn [print length] in Hf; rewrite length_app in Hf; simpl in *; lia). done.
  - apply plain_obj in Hp as [Hnd Hp]. rewrite print_obj in Hf |- *.
    destruct fuel as [|fuel]; [simpl in Hf; lia|].
    assert (canonical (JObj d) = JObj ((λ kv, (kv.1, canonical kv.2)) <$> sort_by by_key d)) as ->.
    { simpl. by rewrite by_key_fmap. }
    assert (NoDup (sort_by by_key d).*1) as Hnd' by by rewrite sort_by_perm.
    assert (Forall (λ kv, plain kv.2) (sort_by by_key d)) as Hp' by by rewrite sort_by_perm.
    assert (Forall (λ kv, parses kv.2) (sort_by by_key d)) as Hps.
    { rewrite sort_by_perm. rewrite Forall_forall in *. intros y Hy. by apply IH, Hp. }
    clear Hp IH Hnd. revert Hf. generalize dependent (sort_by by_key d). clear d.
    intros d Hnd Hp Hps Hf. cbn [app]. rewrite <-app_assoc. cbn [app parse_value].
    rewrite decide_False, decide_True by done.
    destruct d as [|[k x] d]; [done|]. set (d' := (k, x) :: d) in *.
    assert (∃ s, join ","%char (print_member <$> d') ++ "}"%char :: rest = quote :: s) as [s Hq].
    { unfold d'. destruct d; csimpl; by eexists. }
    rewrite skip_opens by by apply members_open.
    rewrite Hq at 1. cbn [after]. rewrite decide_False by done.
    rewrite parse_print_members by
      (done || by cbn [length] in Hf; rewrite length_app in Hf; simpl in *; lia).
    cbn [mbind option_bind]. rewrite dict_of_id; [done|].
    unfold dict_wf. by rewrite <-list_fmap_compose.
Qed.

End round_trip.

(** ** The two directions *)
Lemma ascii_compare_trans a b c : Ascii.compare a b ≠ Gt → Ascii.compare b c ≠ Gt →
  Ascii.compare a c ≠ Gt ∧ (Ascii.compare a c = Eq → Ascii.compare a b = Eq ∧ Ascii.compare b c = Eq).
Proof.
  unfold Ascii.compare. rewrite !N.compare_ngt_iff, !N.compare_eq_iff. lia.
Qed.

Lemma string_leb_trans r s t : String.leb r s = true → String.leb s t = true → String.leb r t = true.
Proof.
  unfold String.leb. intros Hrs Hst.
  assert (String.compare r t ≠ Gt) as H; [|by destruct (String.compare r t)].
  assert (String.compare r s ≠ Gt) as H1 by by destruct (String.compare r s).
  assert (String.compare s t ≠ Gt) as H2 by by destruct (String.compare s t).
  clear Hrs Hst. revert s t H1 H2.
  induction r as [|a r IH]; intros [|b s] [|c t] H1 H2; simpl in *; try done.
  destruct (ascii_compare_trans a b c) as [Hg He]; [by destruct (Ascii.compare a b)..| |].
  { by destruct (Ascii.compare b c). }
  destruct (Ascii.compare a c) eqn:Hac; [|done|done].
  destruct (He eq_refl) as [Hab Hbc]. rewrite Hab in H1. rewrite Hbc in H2. eauto.
Qed.

Lemma by_key_sorted {V} (d : list (string * V)) : sort_by by_key (sort_by by_key d) = sort_by by_key d.
Proof.
  apply sort_by_id. pose proof (sort_by_sorted (@by_key V)) as Hs.
  specialize (Hs (λ x y, String.leb_total x.1 y.1) (λ x y z, string_leb_trans x.1 y.1 z.1) d).
  induction Hs as [|x l _ IH Hx]; simpl; [done|]. by split.
Qed.

Section directions.
Context {FT : FloatText}.

(** Printing does not tell a value from its canonical form. *)
Lemma print_canonical j : print (canonical j) = print j.
Proof.
  induction j as [|b|z|q|s|l IH|d IH] using json_ind'; try done.
  - simpl. do 2 f_equal. f_equal. rewrite <-list_fmap_compose. apply list_fmap_ext.
    intros i x Hx%list_elem_of_lookup_2. rewrite Forall_forall in IH. by apply IH.
  - cbn [canonical]. rewrite !print_obj, by_key_sorted, by_key_fmap. do 2 f_equal. f_equal.
    rewrite <-list_fmap_compose. apply list_fmap_ext. intros i [k x] Hx%list_elem_of_lookup_2.
    rewrite elem_of_sort_by in Hx. rewrite Forall_forall in IH. unfold print_member.
    pose proof (IH _ Hx) as Hk. simpl in *. by rewrite Hk.
Qed.

Lemma loads_print j : plain j → loads (dumps j) = Some (canonical j).
Proof.
  intros Hj. unfold loads, dumps. rewrite String.list_ascii_of_string_of_list_ascii.
  pose proof (print_opens j [] Hj) as Ho. rewrite app_nil_r in Ho. rewrite skip_opens by done.
  pose proof (plain_parses j Hj (S (2 * length (print j))) [] I ltac:(lia)) as Hp.
  rewrite app_nil_r in Hp. by rewrite Hp.
Qed.

Lemma dumps_canonical j : dumps (canonical j) = dumps j.
Proof. unfold dumps. by rewrite print_canonical. Qed.

End directions.

(** the JSON of the metadata is read back as it was written: the parser
    accepts the text the writer prints for any value without floats whose objects
    have distinct keys, with enough fuel in its own length, and returns the value
    with its keys in order; printing that again gives the same text, so that a
    checksum of the parsed value is the checksum of the text. *)
Theorem loads_dumps `{FloatText} j : plain j →
  loads (dumps j) = Some (canonical j) ∧ dumps (canonical j) = dumps j.
Proof. split; [by apply loads_print | apply dumps_canonical]. Qed.

#[local] Instance no_floats : FloatText := {| float_repr _ := []; float_literal _ := JNull |}.

Lemma loads_dumps_witness :
  let j := JObj [("b", JInt (-120)); ("a", JArr [JNull; JBool true; JStr "x/\y"; JObj []])]%string in
  canonical j = JObj [("a", JArr [JNull; JBool true; JStr "x/\y"; JObj []]); ("b", JInt (-120))]%string ∧
  loads (dumps j) = Some (canonical j) ∧ dumps (canonical j) = dumps j.
Proof.
  intros j. split; [reflexivity|]. apply (loads_dumps j).
  split; [apply (bool_decide_unpack _); vm_compute; done|].
  simpl. split_and!; done || constructor.
Defined.
