(* ===== verification/TapeModels.v ===== *)
(** The documents a tape carries about itself (nas/ltfs_manifest.py and
    nas/catalog_shard.py): tape.json, the manifest with its entries, the catalog
    shard with its entries, the manifests of tape sets and shard sets, and the
    commit marker, each with its [model_dump] and its [model_validate].

    The models are pydantic's.  How pydantic coerces a value that does not have
    the declared type is not source code: the three coercions the models need are
    the interface [Pydantic], whose laws say that a value of the declared type is
    taken as it is.  [None] is a [ValidationError]. *)
From stdpp Require Import base list option strings.
From Stdlib Require Import Ascii ZArith Lia.
From S2P Require Import Prelude Paths Json.
#[local] Open Scope string_scope.
#[local] Open Scope Z_scope.

(** * Validation *)
Class Pydantic : Type := {
  lax_str : json → option string;
  lax_int : json → option Z;
  lax_bool : json → option bool;
  lax_str_str s : lax_str (JStr s) = Some s;
  lax_int_int z : lax_int (JInt z) = Some z;
  lax_bool_bool b : lax_bool (JBool b) = Some b;
}.

(** Strict types. *)
Definition strict_types : Pydantic.
Proof.
  refine {| lax_str j := match j with JStr s => Some s | _ => None end;
            lax_int j := match j with JInt z => Some z | _ => None end;
            lax_bool j := match j with JBool b => Some b | _ => None end |}; done.
Defined.

Class Model (A : Type) : Type := {
  model_dump : A → json;
  model_validate : json → option A;
}.

(** A document written as JSON and read back is the same: [canonical] is what
    the text does to a value.  [settled] restricts the values of the fields of type
    [dict[str, Any]] to those without floats and with their keys in order. *)
Class ModelLaws (A : Type) `{Model A} : Type := {
  settled : A → Prop;
  dump_plain a : settled a → plain (model_dump a);
  validate_dump a : settled a → model_validate (canonical (model_dump a)) = Some a;
}.
Class NotNull (A : Type) `{Model A} : Prop := dump_not_null a : model_dump a ≠ JNull.

Fixpoint validate_all {A} `{Model A} (l : list json) : option (list A) :=
  match l with
  | [] => Some []
  | j :: l => a ← model_validate j; rest ← validate_all l; Some (a :: rest)
  end.

Section base_models.
Context `{Pydantic}.

#[export] Instance str_model : Model string := {| model_dump := JStr; model_validate := lax_str |}.
#[export] Instance int_model : Model Z := {| model_dump := JInt; model_validate := lax_int |}.
#[export] Instance bool_model : Model bool := {| model_dump := JBool; model_validate := lax_bool |}.
#[export] Instance list_model {A} `{Model A} : Model (list A) := {|
  model_dump l := JArr (model_dump <$> l);
  model_validate j := match j with JArr l => validate_all l | _ => None end;
|}.
(** [A | None]. *)
#[export] Instance option_model {A} `{Model A} : Model (option A) := {|
  model_dump o := match o with Some a => model_dump a | None => JNull end;
  model_validate j := match j with JNull => Some None | _ => Some <$> model_validate j end;
|}.
(** [dict[str, Any]]. *)
#[export] Instance dict_model : Model (dict string json) := {|
  model_dump := JObj;
  model_validate j := match j with JObj d => Some d | _ => None end;
|}.

#[export] Instance str_not_null : NotNull string.
Proof. done. Qed.
#[export] Instance dict_not_null : NotNull (dict string json).
Proof. done. Qed.

#[export] Instance str_laws : ModelLaws string.
Proof. refine {| settled _ := True |}; [done|]. intros s _. apply lax_str_str. Defined.
#[export] Instance int_laws : ModelLaws Z.
Proof. refine {| settled _ := True |}; [done|]. intros z _. apply lax_int_int. Defined.
#[export] Instance bool_laws : ModelLaws bool.
Proof. refine {| settled _ := True |}; [done|]. intros b _. apply lax_bool_bool. Defined.
#[export] Instance dict_laws : ModelLaws (dict string json).
Proof.
  refine {| settled d := plain (JObj d) ∧ canonical (JObj d) = JObj d |}; [by intros d []|].
  intros d [_ Hd]. cbn [model_dump dict_model]. by rewrite Hd.
Defined.
#[export] Instance list_laws {A} `{ModelLaws A} : ModelLaws (list A).
Proof.
  refine {| settled l := Forall settled l |}.
  - intros l Hl. apply plain_arr, Forall_fmap. eapply Forall_impl; [done|]. apply dump_plain.
  - intros l Hl. cbn [model_dump model_validate list_model canonical].
    induction Hl as [|a l Ha _ IH]; csimpl; [done|]. rewrite validate_dump by done. simpl.
    by rewrite IH.
Defined.
#[export] Instance option_laws {A} `{ModelLaws A} `{!NotNull A} : ModelLaws (option A).
Proof.
  refine {| settled o := match o with Some a => settled a | None => True end |}.
  - intros [a|] Ha; [exact (dump_plain a Ha) | done].
  - intros [a|] Ha; [|done]. cbn [model_dump model_validate option_model].
    pose proof (validate_dump a Ha) as Hv. pose proof (dump_not_null a) as Hn.
    destruct (canonical (model_dump a)) eqn:Hc; rewrite ?Hv; try done.
    by destruct (model_dump a).
Defined.

(** Models without a field of type [dict[str, Any]]. *)
Class Always (A : Type) `{ModelLaws A} : Prop := always_settled a : settled a.
#[export] Instance str_always : Always string.
Proof. done. Qed.
#[export] Instance int_always : Always Z.
Proof. done. Qed.
#[export] Instance bool_always : Always bool.
Proof. done. Qed.
#[export] Instance list_always {A} `{Always A} : Always (list A).
Proof. intros l. apply Forall_true, always_settled. Qed.
#[export] Instance option_always {A} `{Always A} `{!NotNull A} : Always (option A).
Proof. intros [a|]; [exact (always_settled a) | done]. Qed.

(** ** Fields

    A required field, a field with a default, and [schema], which can also be
    given by the name of its attribute ([populate_by_name]). *)
Definition required {A} `{Model A} (d : dict string json) (k : string) : option A :=
  j ← dget d k; model_validate j.
Definition optional {A} `{Model A} (d : dict string json) (k : string) (dflt : A) : option A :=
  match dget d k with Some j => model_validate j | None => Some dflt end.
Definition schema_field (d : dict string json) (dflt : string) : option string :=
  match dget d "schema" with Some j => model_validate j | None => optional d "schema_" dflt end.

Definition sorted_members (d : dict string json) : dict string json :=
  sort_by by_key ((λ kv, (kv.1, canonical kv.2)) <$> d).

Lemma dget_perm {V} (d d' : dict string V) k : dict_wf d → d ≡ₚ d' → dget d' k = dget d k.
Proof.
  intros Hd Hp. assert (dict_wf d') as Hd' by (unfold dict_wf; by rewrite <-Hp).
  destruct (dget d k) as [v|] eqn:Hk.
  - apply elem_dget; [done|]. rewrite <-Hp. by apply dget_Some_elem.
  - apply dget_None in Hk. apply dget_None. by rewrite <-Hp.
Qed.

Lemma dget_sorted d k : dict_wf d → dget (sorted_members d) k = canonical <$> dget d k.
Proof.
  intros Hd. transitivity (dget (dmap canonical d) k); [|apply dget_dmap].
  apply dget_perm; [by apply dict_wf_dmap|]. unfold sorted_members. rewrite sort_by_perm.
  done.
Qed.

Lemma required_dump {A} `{ModelLaws A} d k (a : A) : dict_wf d → dget d k = Some (model_dump a) →
  settled a → required (sorted_members d) k = Some a.
Proof.
  intros Hd Hk Ha. unfold required. rewrite dget_sorted, Hk by done. by apply validate_dump.
Qed.
Lemma optional_dump {A} `{ModelLaws A} d k dflt (a : A) : dict_wf d → dget d k = Some (model_dump a) →
  settled a → optional (sorted_members d) k dflt = Some a.
Proof.
  intros Hd Hk Ha. unfold optional. rewrite dget_sorted, Hk by done. by apply validate_dump.
Qed.
Lemma schema_dump d dflt s : dict_wf d → dget d "schema" = Some (JStr s) →
  schema_field (sorted_members d) dflt = Some s.
Proof. intros Hd Hk. unfold schema_field. rewrite dget_sorted, Hk by done. apply lax_str_str. Qed.
End base_models.

(** * nas/ltfs_manifest.py *)
Definition MANIFEST_SCHEMA_V1 : string := "openblade.manifest.v1".
Definition MANIFEST_SCHEMA_V2 : string := "openblade.manifest.v2".
Definition MANIFEST_SCHEMA : string := MANIFEST_SCHEMA_V2.
Definition SUPPORTED_MANIFEST_SCHEMAS : list string := [MANIFEST_SCHEMA_V1; MANIFEST_SCHEMA_V2].
Definition COMMIT_MARKER_SCHEMA : string := "openblade.commit.v1".

Record TapeJson : Type := MkTapeJson {
  tx_schema : string; tx_openblade_tape_id : string; tx_barcode : string;
  tx_ltfs_volume_uuid : string; tx_library_type : string; tx_created_at : string;
  tx_last_openblade_write_at : string; tx_openblade_version : string;
  tx_volume_group : string; tx_pools : list string; tx_state : string;
  tx_generation : string; tx_notes : string;
  tx_current_generation : option string; tx_previous_generation : option string;
}.
Record ManifestFileEntry : Type := MkManifestFileEntry {
  me_logical_path : string; me_tape_path : string; me_dataset_id : string;
  me_file_record_id : string; me_size : Z; me_mtime : string; me_checksum : string;
  me_copy_index : Z; me_policy : string; me_verified : bool;
}.
(** The totals [file_count] and [total_logical_bytes], which the validator
    [sync_file_totals] overwrites, are functions of the files. *)
Record ManifestJson : Type := MkManifestJson {
  mj_schema : string; mj_barcode : string; mj_openblade_tape_id : string;
  mj_volume_group : string; mj_pools : list string; mj_datasets : list string;
  mj_tape_sets : list string; mj_shard_sets : list string;
  mj_files : list ManifestFileEntry; mj_generation_id : string;
  mj_sibling_tapes : list string; mj_placement : string;
  mj_protection : option (dict string json);
}.
Definition sum_sizes {A} (size : A → Z) (l : list A) : Z := foldr Z.add 0 (size <$> l).
Definition mj_file_count (m : ManifestJson) : Z := Z.of_nat (length (mj_files m)).
Definition mj_total_logical_bytes (m : ManifestJson) : Z := sum_sizes me_size (mj_files m).

Record TapeSetManifest : Type := MkTapeSetManifest {
  ts_schema : string; ts_tape_set_id : string; ts_policy : string; ts_dataset_id : string;
  ts_ordered_barcodes : list string; ts_is_complete : bool; ts_file_count : Z;
  ts_total_bytes : Z; ts_manifest_checksum : string;
}.
Record ShardSetManifest : Type := MkShardSetManifest {
  ss_schema : string; ss_shard_set_id : string; ss_policy : string; ss_dataset_id : string;
  ss_barcodes : list string; ss_shard_strategy : string; ss_global_manifest_checksum : string;
}.
Record CommitMarker : Type := MkCommitMarker {
  cm_schema : string; cm_generation_id : string; cm_manifest_sha256 : string;
  cm_catalog_shard_sha256 : string; cm_written_at : string;
}.

(** * nas/catalog_shard.py *)
Record CatalogShardFileEntry : Type := MkShardFileEntry {
  se_logical_path : string; se_tape_path : string; se_dataset_id : string;
  se_file_record_id : string; se_pool_id : string; se_size : Z; se_mtime : string;
  se_checksum : string; se_file_state : string; se_policy : string; se_copy_index : Z;
  se_verified : bool;
}.
Record CatalogShardDatasetEntry : Type := MkShardDatasetEntry {
  sd_dataset_id : string; sd_pool_id : string; sd_volume_group : string; sd_policy : string;
  sd_ingest_mode : string; sd_file_count : Z; sd_total_bytes : Z; sd_tape_set : list string;
  sd_shard_set : list string; sd_protection : option (dict string json);
}.
Definition CATALOG_SHARD_SCHEMA : string := "openblade.catalog_shard.v1".
Definition REBUILD_HINT : string :=
  "Use catalog-shard.json to restore the global path index for this tape.".
(** As for the manifest, the totals are functions of the files ([sync_totals]). *)
Record CatalogShard : Type := MkCatalogShard {
  sh_schema : string; sh_barcode : string; sh_openblade_tape_id : string;
  sh_volume_group : string; sh_generated_at : string; sh_openblade_version : string;
  sh_datasets : list CatalogShardDatasetEntry; sh_files : list CatalogShardFileEntry;
  sh_rebuild_hint : string;
}.
Definition sh_file_count (s : CatalogShard) : Z := Z.of_nat (length (sh_files s)).
Definition sh_total_bytes (s : CatalogShard) : Z := sum_sizes se_size (sh_files s).

(** * Dumping and validating *)
Section models.
Context `{Pydantic}.

#[export] Instance TapeJson_model : Model TapeJson := {|
  model_dump x := JObj
    [("schema", model_dump (tx_schema x)); ("openblade_tape_id", model_dump (tx_openblade_tape_id x));
     ("barcode", model_dump (tx_barcode x)); ("ltfs_volume_uuid", model_dump (tx_ltfs_volume_uuid x));
     ("library_type", model_dump (tx_library_type x)); ("created_at", model_dump (tx_created_at x));
     ("last_openblade_write_at", model_dump (tx_last_openblade_write_at x));
     ("openblade_version", model_dump (tx_openblade_version x));
     ("volume_group", model_dump (tx_volume_group x)); ("pools", model_dump (tx_pools x));
     ("state", model_dump (tx_state x)); ("generation", model_dump (tx_generation x));
     ("notes", model_dump (tx_notes x)); ("current_generation", model_dump (tx_current_generation x));
     ("previous_generation", model_dump (tx_previous_generation x))];
  model_validate j := d ← model_validate j;
    schema ← schema_field d "openblade.tape.v1";
    tape_id ← required d "openblade_tape_id";
    barcode ← required d "barcode";
    uuid ← optional d "ltfs_volume_uuid" "";
    library_type ← optional d "library_type" "Quantum Scalar i3";
    created_at ← required d "created_at";
    last_write ← required d "last_openblade_write_at";
    version ← optional d "openblade_version" "0.1.0";
    volume_group ← optional d "volume_group" "";
    pools ← optional d "pools" [];
    state ← optional d "state" "active";
    generation ← optional d "generation" "LTO-8";
    notes ← optional d "notes" "";
    current ← optional d "current_generation" None;
    previous ← optional d "previous_generation" None;
    Some (MkTapeJson schema tape_id barcode uuid library_type created_at last_write version
            volume_group pools state generation notes current previous);
|}.

#[export] Instance ManifestFileEntry_model : Model ManifestFileEntry := {|
  model_dump x := JObj
    [("logical_path", model_dump (me_logical_path x)); ("tape_path", model_dump (me_tape_path x));
     ("dataset_id", model_dump (me_dataset_id x));
     ("file_record_id", model_dump (me_file_record_id x)); ("size", model_dump (me_size x));
     ("mtime", model_dump (me_mtime x)); ("checksum", model_dump (me_checksum x));
     ("copy_index", model_dump (me_copy_index x)); ("policy", model_dump (me_policy x));
     ("verified", model_dump (me_verified x))];
  model_validate j := d ← model_validate j;
    logical_path ← required d "logical_path";
    tape_path ← required d "tape_path";
    dataset_id ← required d "dataset_id";
    file_record_id ← required d "file_record_id";
    size ← required d "size";
    mtime ← optional d "mtime" "";
    checksum ← optional d "checksum" "";
    copy_index ← optional d "copy_index" 1;
    policy ← optional d "policy" "";
    verified ← optional d "verified" false;
    Some (MkManifestFileEntry logical_path tape_path dataset_id file_record_id size mtime checksum
            copy_index policy verified);
|}.

#[export] Instance ManifestJson_model : Model ManifestJson := {|
  model_dump x := JObj
    [("schema", model_dump (mj_schema x)); ("barcode", model_dump (mj_barcode x));
     ("openblade_tape_id", model_dump (mj_openblade_tape_id x));
     ("volume_group", model_dump (mj_volume_group x)); ("pools", model_dump (mj_pools x));
     ("datasets", model_dump (mj_datasets x)); ("tape_sets", model_dump (mj_tape_sets x));
     ("shard_sets", model_dump (mj_shard_sets x)); ("file_count", model_dump (mj_file_count x));
     ("total_logical_bytes", model_dump (mj_total_logical_bytes x));
     ("files", model_dump (mj_files x)); ("generation_id", model_dump (mj_generation_id x));
     ("sibling_tapes", model_dump (mj_sibling_tapes x)); ("placement", model_dump (mj_placement x));
     ("protection", model_dump (mj_protection x))];
  model_validate j := d ← model_validate j;
    schema ← schema_field d MANIFEST_SCHEMA;
    barcode ← required d "barcode";
    tape_id ← required d "openblade_tape_id";
    volume_group ← optional d "volume_group" "";
    pools ← optional d "pools" [];
    datasets ← optional d "datasets" [];
    tape_sets ← optional d "tape_sets" [];
    shard_sets ← optional d "shard_sets" [];
    _ ← optional d "file_count" 0;
    _ ← optional d "total_logical_bytes" 0;
    files ← optional d "files" [];
    generation_id ← optional d "generation_id" "";
    siblings ← optional d "sibling_tapes" [];
    placement ← optional d "placement" "";
    protection ← optional d "protection" None;
    Some (MkManifestJson schema barcode tape_id volume_group pools datasets tape_sets shard_sets
            files generation_id siblings placement protection);
|}.

#[export] Instance TapeSetManifest_model : Model TapeSetManifest := {|
  model_dump x := JObj
    [("schema", model_dump (ts_schema x)); ("tape_set_id", model_dump (ts_tape_set_id x));
     ("policy", model_dump (ts_policy x)); ("dataset_id", model_dump (ts_dataset_id x));
     ("ordered_barcodes", model_dump (ts_ordered_barcodes x));
     ("is_complete", model_dump (ts_is_complete x)); ("file_count", model_dump (ts_file_count x));
     ("total_bytes", model_dump (ts_total_bytes x));
     ("manifest_checksum", model_dump (ts_manifest_checksum x))];
  model_validate j := d ← model_validate j;
    schema ← schema_field d "openblade.tape_set.v1";
    tape_set_id ← required d "tape_set_id";
    policy ← optional d "policy" "critical_sequential";
    dataset_id ← required d "dataset_id";
    ordered ← optional d "ordered_barcodes" [];
    is_complete ← optional d "is_complete" true;
    file_count ← optional d "file_count" 0;
    total_bytes ← optional d "total_bytes" 0;
    checksum ← optional d "manifest_checksum" "";
    Some (MkTapeSetManifest schema tape_set_id policy dataset_id ordered is_complete file_count
            total_bytes checksum);
|}.

#[export] Instance ShardSetManifest_model : Model ShardSetManifest := {|
  model_dump x := JObj
    [("schema", model_dump (ss_schema x)); ("shard_set_id", model_dump (ss_shard_set_id x));
     ("policy", model_dump (ss_policy x)); ("dataset_id", model_dump (ss_dataset_id x));
     ("barcodes", model_dump (ss_barcodes x)); ("shard_strategy", model_dump (ss_shard_strategy x));
     ("global_manifest_checksum", model_dump (ss_global_manifest_checksum x))];
  model_validate j := d ← model_validate j;
    schema ← schema_field d "openblade.shard_set.v1";
    shard_set_id ← required d "shard_set_id";
    policy ← optional d "policy" "noncritical_sharded";
    dataset_id ← required d "dataset_id";
    barcodes ← optional d "barcodes" [];
    strategy ← optional d "shard_strategy" "round_robin";
    checksum ← optional d "global_manifest_checksum" "";
    Some (MkShardSetManifest schema shard_set_id policy dataset_id barcodes strategy checksum);
|}.

#[export] Instance CommitMarker_model : Model CommitMarker := {|
  model_dump x := JObj
    [("schema", model_dump (cm_schema x)); ("generation_id", model_dump (cm_generation_id x));
     ("manifest_sha256", model_dump (cm_manifest_sha256 x));
     ("catalog_shard_sha256", model_dump (cm_catalog_shard_sha256 x));
     ("written_at", model_dump (cm_written_at x))];
  model_validate j := d ← model_validate j;
    schema ← schema_field d COMMIT_MARKER_SCHEMA;
    generation_id ← required d "generation_id";
    manifest_sha256 ← required d "manifest_sha256";
    shard_sha256 ← required d "catalog_shard_sha256";
    written_at ← required d "written_at";
    Some (MkCommitMarker schema generation_id manifest_sha256 shard_sha256 written_at);
|}.

#[export] Instance CatalogShardFileEntry_model : Model CatalogShardFileEntry := {|
  model_dump x := JObj
    [("logical_path", model_dump (se_logical_path x)); ("tape_path", model_dump (se_tape_path x));
     ("dataset_id", model_dump (se_dataset_id x));
     ("file_record_id", model_dump (se_file_record_id x)); ("pool_id", model_dump (se_pool_id x));
     ("size", model_dump (se_size x)); ("mtime", model_dump (se_mtime x));
     ("checksum", model_dump (se_checksum x)); ("file_state", model_dump (se_file_state x));
     ("policy", model_dump (se_policy x)); ("copy_index", model_dump (se_copy_index x));
     ("verified", model_dump (se_verified x))];
  model_validate j := d ← model_validate j;
    logical_path ← required d "logical_path";
    tape_path ← required d "tape_path";
    dataset_id ← required d "dataset_id";
    file_record_id ← required d "file_record_id";
    pool_id ← optional d "pool_id" "";
    size ← optional d "size" 0;
    mtime ← optional d "mtime" "";
    checksum ← optional d "checksum" "";
    file_state ← optional d "file_state" "offline_on_tape";
    policy ← optional d "policy" "";
    copy_index ← optional d "copy_index" 1;
    verified ← optional d "verified" false;
    Some (MkShardFileEntry logical_path tape_path dataset_id file_record_id pool_id size mtime
            checksum file_state policy copy_index verified);
|}.

#[export] Instance CatalogShardDatasetEntry_model : Model CatalogShardDatasetEntry := {|
  model_dump x := JObj
    [("dataset_id", model_dump (sd_dataset_id x)); ("pool_id", model_dump (sd_pool_id x));
     ("volume_group", model_dump (sd_volume_group x)); ("policy", model_dump (sd_policy x));
     ("ingest_mode", model_dump (sd_ingest_mode x)); ("file_count", model_dump (sd_file_count x));
     ("total_bytes", model_dump (sd_total_bytes x)); ("tape_set", model_dump (sd_tape_set x));
     ("shard_set", model_dump (sd_shard_set x)); ("protection", model_dump (sd_protection x))];
  model_validate j := d ← model_validate j;
    dataset_id ← required d "dataset_id";
    pool_id ← optional d "pool_id" "";
    volume_group ← optional d "volume_group" "";
    policy ← optional d "policy" "";
    ingest_mode ← optional d "ingest_mode" "";
    file_count ← optional d "file_count" 0;
    total_bytes ← optional d "total_bytes" 0;
    tape_set ← optional d "tape_set" [];
    shard_set ← optional d "shard_set" [];
    protection ← optional d "protection" None;
    Some (MkShardDatasetEntry dataset_id pool_id volume_group policy ingest_mode file_count
            total_bytes tape_set shard_set protection);
|}.

#[export] Instance CatalogShard_model : Model CatalogShard := {|
  model_dump x := JObj
    [("schema", model_dump (sh_schema x)); ("barcode", model_dump (sh_barcode x));
     ("openblade_tape_id", model_dump (sh_openblade_tape_id x));
     ("volume_group", model_dump (sh_volume_group x));
     ("generated_at", model_dump (sh_generated_at x));
     ("openblade_version", model_dump (sh_openblade_version x));
     ("datasets", model_dump (sh_datasets x)); ("files", model_dump (sh_files x));
     ("file_count", model_dump (sh_file_count x)); ("total_bytes", model_dump (sh_total_bytes x));
     ("rebuild_hint", model_dump (sh_rebuild_hint x))];
  model_validate j := d ← model_validate j;
    schema ← schema_field d CATALOG_SHARD_SCHEMA;
    barcode ← required d "barcode";
    tape_id ← required d "openblade_tape_id";
    volume_group ← optional d "volume_group" "";
    generated_at ← optional d "generated_at" "";
    version ← optional d "openblade_version" "0.1.0";
    datasets ← optional d "datasets" [];
    files ← optional d "files" [];
    _ ← optional d "file_count" 0;
    _ ← optional d "total_bytes" 0;
    hint ← optional d "rebuild_hint" REBUILD_HINT;
    Some (MkCatalogShard schema barcode tape_id volume_group generated_at version datasets files hint);
|}.

(** ** What is written is read back *)
Lemma members_dump d : model_validate (canonical (JObj d)) = Some (sorted_members d).
Proof. done. Qed.

Lemma canonical_obj d : canonical (JObj d) = JObj (sorted_members d).
Proof. done. Qed.

Lemma fields_plain (d : dict string json) : dict_wf d → Forall (λ kv, plain kv.2) d → plain (JObj d).
Proof. intros. by apply plain_obj. Qed.
End models.

Ltac distinct_keys := apply (bool_decide_unpack _); vm_compute; reflexivity.

(** For a model whose fields have their laws. *)
Ltac solve_settled := first [eassumption | exact (always_settled _)].
Ltac solve_dump_plain :=
  intros x Hx; apply fields_plain; [distinct_keys|];
  repeat (apply Forall_cons; split; [cbn [snd]; apply dump_plain; solve_settled|]); by apply Forall_nil.

(** After unfolding the instance of the model: read the fields one by one. *)
Ltac solve_validate_dump :=
  match goal with |- context [canonical (JObj ?d)] =>
    let Hd := fresh "Hd" in let D := fresh "D" in
    assert (dict_wf d) as Hd by distinct_keys;
    rewrite members_dump; cbn [mbind option_bind];
    set (D := d) in *
  end;
  repeat (lazymatch goal with
    | |- context [schema_field _ ?dflt ≫= _] => erewrite (schema_dump _ dflt) by done
    | |- context [required _ ?k ≫= _] => erewrite (required_dump _ k) by (done || solve_settled)
    | |- context [optional _ ?k ?dflt ≫= _] =>
        erewrite (optional_dump _ k dflt) by (done || solve_settled)
    end; cbn [mbind option_bind]);
  match goal with x : _ |- _ => by destruct x end.

#[export] Instance TapeJson_laws `{Pydantic} : ModelLaws TapeJson.
Proof.
  refine {| settled _ := True |}; [solve_dump_plain|].
  intros x Hx. cbn [model_dump model_validate TapeJson_model]. solve_validate_dump.
Defined.
#[export] Instance TapeJson_always `{Pydantic} : Always TapeJson.
Proof. done. Qed.
#[export] Instance ManifestFileEntry_laws `{Pydantic} : ModelLaws ManifestFileEntry.
Proof.
  refine {| settled _ := True |}; [solve_dump_plain|].
  intros x Hx. cbn [model_dump model_validate ManifestFileEntry_model]. solve_validate_dump.
Defined.
#[export] Instance ManifestFileEntry_always `{Pydantic} : Always ManifestFileEntry.
Proof. done. Qed.
#[export] Instance TapeSetManifest_laws `{Pydantic} : ModelLaws TapeSetManifest.
Proof.
  refine {| settled _ := True |}; [solve_dump_plain|].
  intros x Hx. cbn [model_dump model_validate TapeSetManifest_model]. solve_validate_dump.
Defined.
#[export] Instance TapeSetManifest_always `{Pydantic} : Always TapeSetManifest.
Proof. done. Qed.
#[export] Instance ShardSetManifest_laws `{Pydantic} : ModelLaws ShardSetManifest.
Proof.
  refine {| settled _ := True |}; [solve_dump_plain|].
  intros x Hx. cbn [model_dump model_validate ShardSetManifest_model]. solve_validate_dump.
Defined.
#[export] Instance ShardSetManifest_always `{Pydantic} : Always ShardSetManifest.
Proof. done. Qed.
#[export] Instance CommitMarker_laws `{Pydantic} : ModelLaws CommitMarker.
Proof.
  refine {| settled _ := True |}; [solve_dump_plain|].
  intros x Hx. cbn [model_dump model_validate CommitMarker_model]. solve_validate_dump.
Defined.
#[export] Instance CommitMarker_always `{Pydantic} : Always CommitMarker.
Proof. done. Qed.
#[export] Instance CatalogShardFileEntry_laws `{Pydantic} : ModelLaws CatalogShardFileEntry.
Proof.
  refine {| settled _ := True |}; [solve_dump_plain|].
  intros x Hx. cbn [model_dump model_validate CatalogShardFileEntry_model]. solve_validate_dump.
Defined.
#[export] Instance CatalogShardFileEntry_always `{Pydantic} : Always CatalogShardFileEntry.
Proof. done. Qed.
#[export] Instance ManifestJson_laws `{Pydantic} : ModelLaws ManifestJson.
Proof.
  refine {| settled x := settled (mj_protection x) |}; [solve_dump_plain|].
  intros x Hx. cbn [model_dump model_validate ManifestJson_model]. solve_validate_dump.
Defined.
#[export] Instance CatalogShardDatasetEntry_laws `{Pydantic} : ModelLaws CatalogShardDatasetEntry.
Proof.
  refine {| settled x := settled (sd_protection x) |}; [solve_dump_plain|].
  intros x Hx. cbn [model_dump model_validate CatalogShardDatasetEntry_model]. solve_validate_dump.
Defined.
#[export] Instance CatalogShard_laws `{Pydantic} : ModelLaws CatalogShard.
Proof.
  refine {| settled x := settled (sh_datasets x) |}; [solve_dump_plain|].
  intros x Hx. cbn [model_dump model_validate CatalogShard_model]. solve_validate_dump.
Defined.
