(* ===== verification/Metadata.v ===== *)
(** The metadata of a tape, below /.openblade on the tape itself: the writer of
    nas/ltfs_manifest.py, the catalog shard (nas/catalog_shard.py), the validator
    and the two-phase manifest writer (nas/manifest_validator.py).

    The store the metadata goes to is an interface ([Backend], the duck-typed
    [backend] of [TapeMetadataWriter]) with the laws its clients rely on
    ([BackendLaws]: a write replaces one file of one tape or fails and changes
    none).  The simulated LTFS volumes are an instance, at the end of the file. *)
From stdpp Require Import base list option strings sets.
From Stdlib Require Import Ascii ZArith Lia.
From S2P Require Import Prelude Wp Paths Bytes Domain Json TapeModels.
#[local] Open Scope string_scope.
#[local] Open Scope Z_scope.

Definition JSONDecodeError : exn := OtherError "JSONDecodeError".
Definition ValidationError : exn := OtherError "ValidationError".
Definition UnsupportedManifestSchemaError : exn := OtherError "UnsupportedManifestSchemaError".
Definition UnicodeDecodeError : exn := OtherError "UnicodeDecodeError".
Definition AttributeError : exn := OtherError "AttributeError".

(** [try: m except es: return x]. *)
Definition catching {S A} (es : list exn) (x : A) (m : M S A) : M S A :=
  try_except m (λ e, if bool_decide (e ∈ es) then mret x else raise e).

(** * Text as bytes

    Characters are those of Latin-1.  A sequence of three or four bytes stands for
    a character outside it and is refused, as a broken one is. *)
Definition encode_char (c : ascii) : bytes :=
  let n := Z.of_N (N_of_ascii c) in
  if bool_decide (n < 128) then [byte_of n] else [byte_of (192 + n / 64); byte_of (128 + n mod 64)].
Definition encode (s : string) : bytes := concat (encode_char <$> String.list_ascii_of_string s).

Fixpoint decode_chars (l : bytes) : option (list ascii) :=
  match l with
  | [] => Some []
  | b :: l =>
      if bool_decide (byte_val b < 128)
      then cons (ascii_of_N (Z.to_N (byte_val b))) <$> decode_chars l
      else match l with
           | c :: l =>
               if bool_decide (194 ≤ byte_val b ≤ 195 ∧ 128 ≤ byte_val c < 192)
               then cons (ascii_of_N (Z.to_N ((byte_val b - 192) * 64 + (byte_val c - 128))))
                      <$> decode_chars l
               else None
           | [] => None
           end
  end.
Definition decode (l : bytes) : result string :=
  match decode_chars l with
  | Some s => Ok (String.string_of_list_ascii s)
  | None => Raise UnicodeDecodeError
  end.

Lemma byte_val_of z : 0 ≤ z < 256 → byte_val (byte_of z) = z.
Proof.
  intros Hz. unfold byte_val, byte_of. rewrite Z.mod_small by done.
  destruct (Byte.of_N (Z.to_N z)) as [b|] eqn:Hb; simpl.
  - apply Byte.to_of_N in Hb. rewrite Hb. lia.
  - apply Byte.of_N_None_iff in Hb. lia.
Qed.

Lemma decode_encode_char c l : decode_chars (encode_char c ++ l) = cons c <$> decode_chars l.
Proof.
  unfold encode_char. cbv zeta. pose proof (N_ascii_bounded c) as Hc.
  assert (ascii_of_N (Z.to_N (Z.of_N (N_of_ascii c))) = c) as Hid
    by (by rewrite N2Z.id, ascii_N_embedding).
  revert Hid. generalize (Z.of_N (N_of_ascii c)) (N2Z.is_nonneg (N_of_ascii c))
    (ltac:(lia) : Z.of_N (N_of_ascii c) < 256). intros n Hn Hn' <-.
  case_bool_decide; cbn [decode_chars app]; rewrite !byte_val_of by (Z.to_euclidean_division_equations; lia).
  - by rewrite bool_decide_true by done.
  - rewrite bool_decide_false, bool_decide_true by (Z.to_euclidean_division_equations; lia). do 2 f_equal. f_equal. f_equal.
    pose proof (Z.div_mod n 64). lia.
Qed.

Lemma decode_encode s : decode (encode s) = Ok s.
Proof.
  unfold decode, encode. assert (decode_chars (concat (encode_char <$> String.list_ascii_of_string s)) =
    Some (String.list_ascii_of_string s)) as ->; [|by rewrite String.string_of_list_ascii_of_string].
  induction (String.list_ascii_of_string s) as [|c l IH]; csimpl; [done|].
  by rewrite decode_encode_char, IH.
Qed.

(** [s.endswith(p)], [s.removesuffix(p)], [s.strip("/")]. *)
Definition split_suffix (s p : string) : list ascii * list ascii :=
  let l := String.list_ascii_of_string s in
  let n := (length l - length (String.list_ascii_of_string p))%nat in (take n l, drop n l).
Definition endswith (s p : string) : bool :=
  bool_decide ((split_suffix s p).2 = String.list_ascii_of_string p).
Definition removesuffix (s p : string) : string :=
  if endswith s p then String.string_of_list_ascii (split_suffix s p).1 else s.
Definition strip_slashes (s : string) : string :=
  let slash c := bool_decide (c = "/"%char) in
  String.string_of_list_ascii
    (rstrip_chars slash (lstrip_chars slash (String.list_ascii_of_string s))).
Definition rstrip_slash (s : string) : string :=
  String.string_of_list_ascii
    (rstrip_chars (λ c, bool_decide (c = "/"%char)) (String.list_ascii_of_string s)).

(** Stripping twice is stripping once. *)
Lemma lstrip_idemp f l : lstrip_chars f (lstrip_chars f l) = lstrip_chars f l.
Proof.
  induction l as [|c l IH]; simpl; [done|]. destruct (f c) eqn:Hc; [done|]. simpl. by rewrite Hc.
Qed.
Lemma lstrip_app_keep f l c : f c = false → lstrip_chars f (l ++ [c]) = (lstrip_chars f l ++ [c])%list.
Proof.
  intros Hc. induction l as [|d l IH]; simpl; [by rewrite Hc|]. by destruct (f d).
Qed.
Lemma lstrip_cases f l : lstrip_chars f l = [] ∨ ∃ c l', lstrip_chars f l = c :: l' ∧ f c = false.
Proof.
  induction l as [|c l IH]; simpl; [by left|]. destruct (f c) eqn:Hc; [done|]. right. eauto.
Qed.
Lemma strip_idemp s : strip (strip s) = strip s.
Proof.
  unfold strip. rewrite String.list_ascii_of_string_of_list_ascii. f_equal.
  set (l := String.list_ascii_of_string s). unfold rstrip_chars.
  destruct (lstrip_cases is_space l) as [->|(c & l' & -> & Hc)]; [done|]. cbn [rev].
  rewrite lstrip_app_keep, rev_app_distr by done. cbn [rev app lstrip_chars]. rewrite Hc.
  cbn [rev]. rewrite rev_involutive, lstrip_app_keep, lstrip_idemp, rev_app_distr by done. done.
Qed.

(** [PurePosixPath(a) / b]. *)
Definition path_div (a b : string) : string :=
  if bool_decide (path_root b = "") then posix_path (a ++ "/" ++ b) else posix_path b.

(** * Instants (domain/clock.py) *)
Record datetime : Set := MkDatetime {
  dt_year : Z; dt_month : Z; dt_day : Z; dt_hour : Z; dt_minute : Z; dt_second : Z;
  dt_microsecond : Z;
}.
(** A number in [n] digits, with zeros in front. *)
Definition pad (n : nat) (z : Z) : string :=
  let ds := print_int z in
  String.string_of_list_ascii (replicate (n - length ds) "0"%char ++ ds)%list.
Definition isoformat (t : datetime) : string :=
  pad 4 (dt_year t) ++ "-" ++ pad 2 (dt_month t) ++ "-" ++ pad 2 (dt_day t) ++ "T" ++
  pad 2 (dt_hour t) ++ ":" ++ pad 2 (dt_minute t) ++ ":" ++ pad 2 (dt_second t) ++
  (if bool_decide (dt_microsecond t = 0) then "" else "." ++ pad 6 (dt_microsecond t)).
(** [naive_utcnow().isoformat() + "Z"], [datetime.now(timezone.utc).isoformat()] and
    [strftime("%Y%m%dT%H%M%SZ")]. *)
Definition iso_z (t : datetime) : string := isoformat t ++ "Z".
Definition iso_utc (t : datetime) : string := isoformat t ++ "+00:00".
Definition compact_stamp (t : datetime) : string :=
  pad 4 (dt_year t) ++ pad 2 (dt_month t) ++ pad 2 (dt_day t) ++ "T" ++
  pad 2 (dt_hour t) ++ pad 2 (dt_minute t) ++ pad 2 (dt_second t) ++ "Z".

(** * The store of the metadata *)
Class Backend (S : Type) : Type := {
  bk_write : string → string → bytes → M S unit;
  bk_read : string → string → M S (option bytes);
  bk_files : string → M S (list string);
}.

(** The errors of a document, which a store does not raise. *)
Definition document_errors : list exn :=
  [JSONDecodeError; ValidationError; UnsupportedManifestSchemaError].

(** [view s bc p]: the content of the file [p] of the tape [bc]; two barcodes may
    name the same tape.  A call may fail at any time. *)
Class BackendLaws (S : Type) `{Backend S} : Type := {
  view : S → string → string → option bytes;
  same_tape : string → string → bool;
  same_tape_refl bc : same_tape bc bc = true;
  same_tape_view s bc bc' : same_tape bc bc' = true → view s bc = view s bc';
  bk_write_law s bc p c : wp (bk_write bc p c)
    (λ _ s', ∀ bc' q, view s' bc' q =
       if same_tape bc bc' && bool_decide (q = p) then Some c else view s bc' q)
    (λ _ s', ∀ bc' q, view s' bc' q = view s bc' q) s;
  bk_read_law s bc p : wp (bk_read bc p)
    (λ r s', r = view s bc p ∧ ∀ bc' q, view s' bc' q = view s bc' q)
    (λ e s', e ∉ document_errors ∧ ∀ bc' q, view s' bc' q = view s bc' q) s;
  bk_files_law s bc : wp (bk_files bc)
    (λ l s', (∀ p, p ∈ l ↔ is_Some (view s bc p)) ∧ ∀ bc' q, view s' bc' q = view s bc' q)
    (λ _ s', ∀ bc' q, view s' bc' q = view s bc' q) s;
}.

(** * The writer (nas/ltfs_manifest.py) *)
Definition METADATA_ROOT : string := "/.openblade".
Definition RESERVED_DIRS : list string :=
  [METADATA_ROOT; METADATA_ROOT ++ "/datasets"; METADATA_ROOT ++ "/tape-sets";
   METADATA_ROOT ++ "/shard-sets"].

Definition _safe_name (value : string) : result string :=
  let name := strip_slashes (strip value) in
  if bool_decide (name ∈ [""; "."; ".."] ∨ "/"%char ∈ String.list_ascii_of_string name)
  then Raise ValueError else Ok name.
Fixpoint _metadata_parts (path : string) (parts : list string) : result string :=
  match parts with
  | [] => Ok path
  | part :: parts => name ← _safe_name part; _metadata_parts (path_div path name) parts
  end.
Definition _metadata_path (parts : list string) : result string :=
  normalized ← _metadata_parts METADATA_ROOT parts;
  if bool_decide (normalized ≠ METADATA_ROOT) && negb (startswith normalized (METADATA_ROOT ++ "/"))
  then Raise ValueError else Ok normalized.

Section writer.
Context {S : Type} {BK : Backend S} {PD : Pydantic} {FT : FloatText}.

(** The fallback on a [TypeError], for stores of a single tape whose calls take no
    barcode, is not modelled. *)
Definition _write_bytes (bc path : string) (content : bytes) : M S unit := bk_write bc path content.
Definition _read_bytes (bc path : string) : M S (option bytes) := bk_read bc path.
Definition _write_text (bc path content : string) : M S unit := _write_bytes bc path (encode content).
Definition _read_text (bc path : string) : M S (option string) :=
  content ← _read_bytes bc path;
  match content with
  | None => mret None
  | Some content => Some <$> liftR (decode content)
  end.
Definition _write_json (bc path : string) (payload : json) : M S unit :=
  _write_text bc path (dumps payload).
Definition _read_json (bc path : string) : M S (option json) :=
  content ← _read_text bc path;
  match content with
  | None => mret None
  | Some content =>
      match loads content with Some j => mret (Some j) | None => raise JSONDecodeError end
  end.
Definition compute_json_checksum (data : json) : string := sha256_hex (encode (dumps data)).

Definition _ensure_dir (bc directory : string) : M S unit :=
  let marker_path := rstrip_slash directory ++ "/" in
  present ← _read_bytes bc marker_path;
  match present with Some _ => mret tt | None => _write_bytes bc marker_path [] end.
Definition ensure_openblade_dirs (bc : string) : M S unit := forM RESERVED_DIRS (_ensure_dir bc).

Definition write_tape_json (bc : string) (x : TapeJson) : M S unit :=
  ensure_openblade_dirs bc;;
  path ← liftR (_metadata_path ["tape.json"]);
  _write_json bc path (model_dump x).
(** The checksum of the text written. *)
Definition write_manifest (bc : string) (m : ManifestJson) : M S string :=
  ensure_openblade_dirs bc;;
  let content := dumps (model_dump m) in
  path ← liftR (_metadata_path ["manifest.json"]);
  _write_text bc path content;;
  mret (sha256_hex (encode content)).
Definition write_manifest_checksum (bc checksum : string) : M S unit :=
  ensure_openblade_dirs bc;;
  path ← liftR (_metadata_path ["manifest.sha256"]);
  _write_text bc path checksum.

Record ChecksumEntry : Type := MkChecksumEntry { ce_checksum : string; ce_path : string }.
Definition write_checksums_file (bc : string) (entries : list ChecksumEntry) : M S unit :=
  ensure_openblade_dirs bc;;
  let body := foldr (λ e rest, ce_checksum e ++ "  " ++ ce_path e ++ String (ascii_of_N 10) rest)%string
                "" entries in
  path ← liftR (_metadata_path ["checksums.sha256"]);
  _write_text bc path body.

Definition write_named_json (bc dir name : string) (payload : json) : M S unit :=
  ensure_openblade_dirs bc;;
  name ← liftR (_safe_name name);
  path ← liftR (_metadata_path [dir; name ++ ".json"]);
  _write_json bc path payload.
Definition write_dataset_manifest (bc dataset_id : string) (data : json) : M S unit :=
  write_named_json bc "datasets" dataset_id data.
Definition write_tape_set_manifest (bc : string) (x : TapeSetManifest) : M S unit :=
  write_named_json bc "tape-sets" (ts_tape_set_id x) (model_dump x).
Definition write_shard_set_manifest (bc : string) (x : ShardSetManifest) : M S unit :=
  write_named_json bc "shard-sets" (ss_shard_set_id x) (model_dump x).

Definition marker_path (generation_id : string) : result string :=
  name ← _safe_name generation_id; _metadata_path ["commit-" ++ name ++ ".json"].
Definition write_commit_marker (bc : string) (marker : CommitMarker) : M S unit :=
  ensure_openblade_dirs bc;;
  path ← liftR (marker_path (cm_generation_id marker));
  _write_json bc path (model_dump marker).

(** [model_validate], raising. *)
Definition validated {A} `{Model A} (payload : json) : result A :=
  match model_validate payload with Some a => Ok a | None => Raise ValidationError end.
Definition read_model {A} (es : list exn) (bc : string) (path : result string)
    (validate : json → result A) : M S (option A) :=
  catching es None
    (path ← liftR path;
     payload ← _read_json bc path;
     match payload with None => mret None | Some j => Some <$> liftR (validate j) end).
Definition read_tape_json (bc : string) : M S (option TapeJson) :=
  read_model [JSONDecodeError; ValidationError] bc (_metadata_path ["tape.json"]) validated.
(** [_safe_name], before the [try], raises for an empty generation. *)
Definition read_commit_marker (bc generation_id : string) : M S (option CommitMarker) :=
  name ← liftR (_safe_name generation_id);
  read_model [JSONDecodeError; ValidationError] bc (_metadata_path ["commit-" ++ name ++ ".json"])
    validated.

(** A payload that is no object has no [get]; a schema that is no string is none
    of the supported ones. *)
Definition parse_manifest (payload : json) : result ManifestJson :=
  match payload with
  | JObj d =>
      match dget_or d "schema" (JStr MANIFEST_SCHEMA_V1) with
      | JStr schema =>
          if bool_decide (schema ∈ SUPPORTED_MANIFEST_SCHEMAS) then validated payload
          else Raise UnsupportedManifestSchemaError
      | _ => Raise UnsupportedManifestSchemaError
      end
  | _ => Raise AttributeError
  end.
Definition read_manifest (bc : string) : M S (option ManifestJson) :=
  read_model [JSONDecodeError; ValidationError; UnsupportedManifestSchemaError] bc
    (_metadata_path ["manifest.json"]) parse_manifest.

Definition initialize_tape (now : datetime) (bc tape_id volume_group : string)
    (pools : option (list string)) : M S unit :=
  let normalized_pools := default [] pools in
  let created_at := iso_z now in
  ensure_openblade_dirs bc;;
  write_tape_json bc
    (MkTapeJson "openblade.tape.v1" tape_id bc "" "Quantum Scalar i3" created_at created_at "0.1.0"
       volume_group normalized_pools "active" "LTO-8" "" None None);;
  checksum ← write_manifest bc
    (MkManifestJson MANIFEST_SCHEMA bc tape_id volume_group normalized_pools [] [] [] [] "" [] "" None);
  write_manifest_checksum bc checksum;;
  write_checksums_file bc [].

Definition list_metadata_files (bc prefix : string) : M S (list string) :=
  files ← bk_files bc;
  mret (sort_by String.leb (filter (λ k, startswith k prefix = true) files)).

(** * Catalog shards (nas/catalog_shard.py) *)
Definition SHARD_METADATA_PATH : string := "/.openblade/catalog-shard.json".
Definition SHARD_CHECKSUM_METADATA_PATH : string := "/.openblade/catalog-shard.sha256".

Definition build_shard (now : datetime) (bc tape_id volume_group : string)
    (files : list CatalogShardFileEntry) (datasets : list CatalogShardDatasetEntry) : CatalogShard :=
  MkCatalogShard CATALOG_SHARD_SCHEMA bc tape_id volume_group (iso_z now) "0.1.0" datasets files
    REBUILD_HINT.
Definition write_shard (bc : string) (shard : CatalogShard) : M S string :=
  ensure_openblade_dirs bc;;
  let payload := model_dump shard in
  let checksum := compute_json_checksum payload in
  _write_json bc SHARD_METADATA_PATH payload;;
  _write_text bc SHARD_CHECKSUM_METADATA_PATH checksum;;
  mret checksum.
Definition read_shard (bc : string) : M S (option CatalogShard) :=
  read_model [JSONDecodeError; ValidationError] bc (Ok SHARD_METADATA_PATH) validated.
Definition build_and_write_shard (now : datetime) (bc tape_id volume_group : string)
    (files : list CatalogShardFileEntry) (datasets : list CatalogShardDatasetEntry)
    : M S (CatalogShard * string) :=
  let shard := build_shard now bc tape_id volume_group files datasets in
  checksum ← write_shard bc shard;
  mret (shard, checksum).

(** * Validation (nas/manifest_validator.py)

    The lists of warnings, which nothing adds to, are left out. *)
Definition MANIFEST_PATH : string := "/.openblade/manifest.json".
Definition MANIFEST_CHECKSUM_PATH : string := "/.openblade/manifest.sha256".

(** [repr(x)] and [str(x)] of a decoded value. *)
Definition repr_char (delimiter c : ascii) : string :=
  let n := N_of_ascii c in
  if bool_decide (c = delimiter ∨ c = "\"%char) then String "\" (String c "")
  else if bool_decide (n = 9%N) then "\t" else if bool_decide (n = 10%N) then "\n"
  else if bool_decide (n = 13%N) then "\r"
  else if bool_decide (n < 32 ∨ 127 ≤ n ≤ 160 ∨ n = 173)%N
  then "\x" ++ String (Json.hex_digit (n / 16)) (String (Json.hex_digit (n mod 16)) "")
  else String c "".
Definition repr_string (s : string) : string :=
  let l := String.list_ascii_of_string s in
  let d := if bool_decide ("'"%char ∈ l ∧ quote ∉ l) then quote else "'"%char in
  String d (String.concat "" (repr_char d <$> l) ++ String d "").
Fixpoint py_repr (j : json) : string :=
  match j with
  | JNull => "None"
  | JBool true => "True"
  | JBool false => "False"
  | JInt z => String.string_of_list_ascii (print_int z)
  | JFloat q => String.string_of_list_ascii (float_repr q)
  | JStr s => repr_string s
  | JArr l => "[" ++ String.concat ", " (py_repr <$> l) ++ "]"
  | JObj d => "{" ++ String.concat ", " ((λ kv, repr_string kv.1 ++ ": " ++ py_repr kv.2) <$> d) ++ "}"
  end.
Definition py_str (j : json) : string := match j with JStr s => s | j => py_repr j end.
(** [j == n]. *)
Definition equals_int (j : json) (n : Z) : bool :=
  match j with
  | JInt z => bool_decide (z = n)
  | JBool b => bool_decide (Z.b2z b = n)
  | JFloat q => QArith_base.Qeq_bool q (QArith_base.inject_Z n)
  | _ => false
  end.

Record checksum_report : Type := MkChecksumReport {
  cr_match : bool; cr_stored : string; cr_computed : string;
}.
Record ManifestValidationResult : Type := MkManifestValidation {
  mv_barcode : string; mv_valid : bool; mv_schema_version : string;
  mv_checksum : checksum_report; mv_file_count : Z; mv_total_bytes : Z; mv_errors : list string;
}.
Record CatalogShardValidationResult : Type := MkShardValidation {
  sv_barcode : string; sv_valid : bool; sv_schema_version : string;
  sv_checksum : checksum_report; sv_file_count : Z; sv_errors : list string;
}.
Record TapeValidationSummary : Type := MkTapeValidation {
  tv_barcode : string; tv_tape_json_present : bool; tv_manifest : ManifestValidationResult;
  tv_catalog_shard : CatalogShardValidationResult; tv_overall_valid : bool; tv_errors : list string;
}.
Definition no_checksum : checksum_report := MkChecksumReport false "" "".

(** The object at a path, or the error to report. *)
Definition _read_json_payload (bc path label : string) : M S (dict string json + string) :=
  content ← _read_text bc path;
  mret match content with
       | None => inr (label ++ " missing")
       | Some content =>
           match loads content with
           | None => inr (label ++ " is not valid JSON")
           | Some (JObj d) => inl d
           | Some _ => inr (label ++ " must contain a JSON object")
           end
       end.
Definition _apply_checksum_validation (bc : string) (payload : json) (checksum_path label : string)
    : M S (checksum_report * list string) :=
  stored ← _read_text bc checksum_path;
  let computed := compute_json_checksum payload in
  mret match stored with
       | None => (MkChecksumReport false "" computed, [label ++ " checksum missing"])
       | Some stored =>
           let same := bool_decide (strip stored = computed) in
           (MkChecksumReport same (strip stored) computed,
            if same then [] else [label ++ " checksum mismatch"])
       end.

Definition validate_manifest (bc : string) : M S ManifestValidationResult :=
  payload ← _read_json_payload bc MANIFEST_PATH "manifest.json";
  match payload with
  | inr error => mret (MkManifestValidation bc false "" no_checksum 0 0 [error])
  | inl d =>
      let version := py_str (dget_or d "schema" (JStr "")) in
      let refused error := mret (MkManifestValidation bc false version no_checksum 0 0 [error]) in
      match parse_manifest (JObj d) with
      | Raise e =>
          if bool_decide (e = UnsupportedManifestSchemaError)
          then refused ("manifest schema mismatch: " ++ version)
          else refused "manifest.json failed schema validation"
      | Ok manifest =>
          let count_errors :=
            match dget_or d "files" (JArr []) with
            | JArr l =>
                if equals_int (dget_or d "file_count" (JInt (Z.of_nat (length l)))) (Z.of_nat (length l))
                then [] else ["manifest file_count inconsistent with files list"]
            | _ => ["manifest files field must be a list"]
            end in
          '(report, checksum_errors) ←
            _apply_checksum_validation bc (JObj d) MANIFEST_CHECKSUM_PATH "manifest";
          let errors := (count_errors ++ checksum_errors)%list in
          mret (MkManifestValidation bc (bool_decide (errors = [])) version report
                  (mj_file_count manifest) (mj_total_logical_bytes manifest) errors)
      end
  end.

Definition validate_catalog_shard (bc : string) : M S CatalogShardValidationResult :=
  payload ← _read_json_payload bc SHARD_METADATA_PATH "catalog-shard.json";
  match payload with
  | inr error => mret (MkShardValidation bc false "" no_checksum 0 [error])
  | inl d =>
      let version := py_str (dget_or d "schema" (JStr "")) in
      match validated (A := CatalogShard) (JObj d) with
      | Raise _ =>
          mret (MkShardValidation bc false version no_checksum 0
                  ["catalog-shard.json failed schema validation"])
      | Ok shard =>
          let schema_errors :=
            if bool_decide (version = CATALOG_SHARD_SCHEMA) then []
            else ["catalog shard schema mismatch: " ++ version] in
          '(report, checksum_errors) ←
            _apply_checksum_validation bc (JObj d) SHARD_CHECKSUM_METADATA_PATH "catalog shard";
          let errors := (schema_errors ++ checksum_errors)%list in
          mret (MkShardValidation bc (bool_decide (errors = [])) version report
                  (sh_file_count shard) errors)
      end
  end.

Definition validate_tape (bc : string) : M S TapeValidationSummary :=
  tape ← read_tape_json bc;
  let present := bool_decide (is_Some tape) in
  let errors := if present then [] else ["tape.json missing or invalid"] in
  manifest ← validate_manifest bc;
  shard ← validate_catalog_shard bc;
  mret (MkTapeValidation bc present manifest shard
          (present && mv_valid manifest && sv_valid shard && bool_decide (errors = [])) errors).

(** * The two-phase manifest write *)
Definition VERSIONS_DIR : string := "/.openblade/versions".
Definition VERSION_PREFIX : string := VERSIONS_DIR ++ "/manifest.".

Definition begin_write (now : datetime) (bc : string) (manifest : ManifestJson) : M S string :=
  ensure_openblade_dirs bc;;
  _ensure_dir bc VERSIONS_DIR;;
  let temp_path := VERSION_PREFIX ++ compact_stamp now ++ ".tmp" in
  _write_json bc temp_path (model_dump manifest);;
  mret temp_path.
Definition _validate_temp_path (temp_path : string) : M S unit :=
  raise_if (negb (startswith temp_path VERSION_PREFIX) || negb (endswith temp_path ".tmp")) ValueError.
Definition commit_write (bc temp_path : string) : M S string :=
  _validate_temp_path temp_path;;
  content ← _read_text bc temp_path;
  match content with
  | None => raise ValueError
  | Some content =>
      match loads content with
      | None => raise ValueError
      | Some payload =>
          let checksum := compute_json_checksum payload in
          let version_path := removesuffix temp_path ".tmp" ++ ".json" in
          ensure_openblade_dirs bc;;
          _ensure_dir bc VERSIONS_DIR;;
          _write_text bc version_path content;;
          _write_text bc MANIFEST_PATH content;;
          _write_text bc MANIFEST_CHECKSUM_PATH checksum;;
          mret checksum
      end
  end.
Definition abort_write (bc temp_path : string) : M S unit :=
  _validate_temp_path temp_path;;
  content ← _read_bytes bc temp_path;
  raise_if (bool_decide (content = None)) ValueError.
Definition list_versions (bc : string) : M S (list string) :=
  files ← list_metadata_files bc VERSION_PREFIX;
  mret (filter (λ p, endswith p ".tmp" = true) files).
End writer.

(** * What the calls do to the files

    Directories are marked by files whose path ends in a slash; the documents are
    the others, and the documents of a tape change by the writes listed. *)
Lemma endswith_app s p : endswith (s ++ p) p = true.
Proof.
  unfold endswith, split_suffix. apply bool_decide_eq_true. cbn [snd].
  rewrite list_ascii_app, length_app, Nat.add_sub, drop_app_length. done.
Qed.
Lemma removesuffix_app s p : removesuffix (s ++ p) p = s.
Proof.
  unfold removesuffix. rewrite endswith_app. unfold split_suffix. cbn [fst].
  rewrite list_ascii_app, length_app, Nat.add_sub, take_app_length.
  apply String.string_of_list_ascii_of_string.
Qed.

Section calls.
Context {S : Type} {BK : Backend S} {BL : BackendLaws S} {PD : Pydantic} {FT : FloatText}.
Implicit Types (s : S) (bc p q : string) (ws : list (string * bytes)).

Definition is_file (p : string) : Prop := endswith p "/" = false.
#[export] Instance is_file_dec p : Decision (is_file p).
Proof. unfold is_file. apply _. Defined.

Definition same_files s s' : Prop := ∀ bc q, is_file q → view s' bc q = view s bc q.
#[export] Instance same_files_equiv : Equivalence same_files.
Proof.
  split; [done | by intros s s' Hs bc q Hq; rewrite Hs |].
  intros s1 s2 s3 H12 H23 bc q Hq. by rewrite H23, H12.
Qed.

(** The last content given to [q] by a list of writes. *)
Definition written ws q : option bytes := dget (reverse ws) q.
Definition writes bc ws s s' : Prop := ∀ bc' q, is_file q →
  view s' bc' q = if same_tape bc bc' then match written ws q with
                                          | Some c => Some c | None => view s bc' q end
                  else view s bc' q.

Lemma writes_nil bc s s' : same_files s s' → writes bc [] s s'.
Proof. intros Hs bc' q Hq. rewrite Hs by done. by case_match. Qed.

Lemma dget_app {V} (d1 d2 : dict string V) k :
  dget (d1 ++ d2)%list k = match dget d1 k with Some v => Some v | None => dget d2 k end.
Proof. induction d1 as [|[k' v] d1 IH]; simpl; [done|]. by case_decide. Qed.

Lemma writes_trans bc ws1 ws2 s1 s2 s3 :
  writes bc ws1 s1 s2 → writes bc ws2 s2 s3 → writes bc (ws1 ++ ws2)%list s1 s3.
Proof.
  intros H12 H23 bc' q Hq. rewrite H23, H12 by done. unfold written.
  rewrite reverse_app, dget_app. by destruct (same_tape bc bc'), (dget (reverse ws2) q).
Qed.

(** A program that writes nothing but directories, and one that does the writes
    [ws] in order and returns a value with [P]; if it raises, it has done some of
    them, but not all. *)
Definition quiet {A} (m : M S A) : Prop := ∀ s, wp m (λ _, same_files s) (λ _, same_files s) s.
Definition performs {A} bc ws (m : M S A) (P : A → Prop) : Prop := ∀ s,
  wp m (λ a s', P a ∧ writes bc ws s s')
    (λ _ s', ∃ ws1 w ws2, ws = (ws1 ++ w :: ws2)%list ∧ writes bc ws1 s s') s.

Lemma performs_ret {A} bc (a : A) (P : A → Prop) : P a → performs bc [] (mret a) P.
Proof. intros Ha s. apply wp_ret. split; [done|]. by apply writes_nil. Qed.

Lemma performs_quiet {A B} bc ws (m : M S A) (k : A → M S B) (P : B → Prop) : ws ≠ [] →
  quiet m → (∀ a, performs bc ws (k a) P) → performs bc ws (m ≫= k) P.
Proof.
  intros Hws Hm Hk s. apply wp_bind. eapply wp_mono; [apply Hm| |]; cbn beta.
  - intros a s1 H1. eapply wp_mono; [apply Hk| |]; cbn beta.
    + intros b s2 [HP H2]. split; [done|]. eapply (writes_trans _ []); [by apply writes_nil|done].
    + intros e s2 (ws1 & w & ws2 & -> & H2). exists ws1, w, ws2. split; [done|].
      eapply (writes_trans _ []); [by apply writes_nil|done].
  - intros e s1 H1. destruct ws as [|w ws]; [done|]. exists [], w, ws. split; [done|].
    by apply writes_nil.
Qed.

Lemma performs_bind {A B} bc ws1 ws2 (m : M S A) (k : A → M S B) (P : A → Prop) (Q : B → Prop) :
  performs bc ws1 m P → (∀ a, P a → performs bc ws2 (k a) Q) →
  performs bc (ws1 ++ ws2)%list (m ≫= k) Q.
Proof.
  intros Hm Hk s. apply wp_bind. eapply wp_mono; [apply Hm| |]; cbn beta.
  - intros a s1 [Ha H1]. eapply wp_mono; [by apply Hk| |]; cbn beta.
    + intros b s2 [Hb H2]. split; [done|]. by eapply writes_trans.
    + intros e s2 (wsa & w & wsb & -> & H2). exists (ws1 ++ wsa)%list, w, wsb.
      split; [by rewrite (assoc_L (++)%list)|]. by eapply writes_trans.
  - intros e s1 (wsa & w & wsb & -> & H1). exists wsa, w, (wsb ++ ws2)%list.
    split; [by rewrite <-(assoc_L (++)%list)|done].
Qed.

Lemma performs_liftR {A B} bc ws (r : result A) a (k : A → M S B) (P : B → Prop) :
  r = Ok a → performs bc ws (k a) P → performs bc ws (liftR r ≫= k) P.
Proof. intros -> Hk. apply Hk. Qed.

Lemma performs_write bc p c : performs bc [(p, c)] (_write_bytes bc p c) (λ _, True).
Proof.
  intros s. eapply wp_mono; [apply bk_write_law| |]; cbn beta.
  - intros [] s' Hv. split; [done|]. intros bc' q Hq. rewrite Hv. unfold written.
    rewrite reverse_singleton. simpl. destruct (same_tape bc bc'); [|done].
    simpl. by destruct (decide (q = p)) as [->|];
      [rewrite bool_decide_true | rewrite bool_decide_false].
  - intros e s' Hv. exists [], (p, c), []. split; [done|]. apply writes_nil. by intros bc' q _.
Qed.

(** ** Reading *)
Lemma quiet_bind {A B} (m : M S A) (k : A → M S B) :
  quiet m → (∀ a, quiet (k a)) → quiet (m ≫= k).
Proof.
  intros Hm Hk s. apply wp_bind. eapply wp_mono; [apply Hm| |done]; cbn beta.
  intros a s1 H1. eapply wp_mono; [apply Hk| |]; cbn beta; intros; by etrans.
Qed.
Lemma quiet_ret {A} (a : A) : quiet (mret a).
Proof. intros s. by apply wp_ret. Qed.
Lemma quiet_raise {A} e : quiet (raise (A := A) e).
Proof. intros s. by apply wp_raise. Qed.
Lemma quiet_liftR {A} (r : result A) : quiet (liftR r).
Proof. intros s. by apply wp_liftR. Qed.

Lemma quiet_read bc p : quiet (_read_bytes bc p).
Proof.
  intros s. eapply wp_mono; [apply bk_read_law| |]; cbn beta.
  - intros a s' [_ Hv]. by intros bc' q _.
  - intros e s' [_ Hv]. by intros bc' q _.
Qed.

Lemma quiet_dir bc d : quiet (_ensure_dir bc d).
Proof.
  unfold _ensure_dir. cbv zeta. apply quiet_bind; [apply quiet_read|]. intros [?|]; [apply quiet_ret|].
  intros s. eapply wp_mono; [apply bk_write_law| |]; cbn beta.
  - intros [] s' Hv bc' q Hq. rewrite Hv. rewrite (bool_decide_false (q = _)); [by rewrite andb_false_r|].
    intros ->. unfold is_file in Hq. by rewrite endswith_app in Hq.
  - intros e s' Hv. by intros bc' q _.
Qed.

Lemma quiet_forM {A} (l : list A) (f : A → M S unit) : (∀ x, quiet (f x)) → quiet (forM l f).
Proof.
  intros Hf. induction l as [|x l IH]; simpl; [apply quiet_ret|]. by apply quiet_bind.
Qed.

Lemma quiet_dirs bc : quiet (ensure_openblade_dirs bc).
Proof. apply quiet_forM. intros d. apply quiet_dir. Qed.

(** What the reads of a document return, as a function of the content. *)
Definition text_of (c : option bytes) : result (option string) :=
  match c with None => Ok None | Some c => Some <$> decode c end.
Definition document_of {A} (es : list exn) (validate : json → result A) (c : option bytes)
    : result (option A) :=
  t ← text_of c;
  match t with
  | None => Ok None
  | Some t =>
      match (match loads t with Some j => validate j | None => Raise JSONDecodeError end) with
      | Ok a => Ok (Some a)
      | Raise e => if bool_decide (e ∈ es) then Ok None else Raise e
      end
  end.

Lemma wp_read_text bc p s : is_file p →
  wp (_read_text bc p) (λ r s', text_of (view s bc p) = Ok r ∧ same_files s s')
    (λ e s', e ∉ document_errors ∧ same_files s s') s.
Proof.
  intros Hp. unfold _read_text, _read_bytes. apply wp_bind. eapply wp_mono; [apply bk_read_law| |];
    cbn beta.
  - intros r s' [-> Hv]. assert (same_files s s') by (by intros bc' q _).
    destruct (view s bc p) as [c|]; [|by apply wp_ret]. apply wp_fmap, wp_liftR; simpl.
    + by intros t ->.
    + unfold decode. destruct (decode_chars c); [done|]. intros e [= <-]. split; [|done].
      apply (bool_decide_unpack _). done.
  - intros e s' [? Hv]. split; [done|]. by intros bc' q _.
Qed.

Lemma wp_read_model {A} (es : list exn) bc p (validate : json → result A) s : is_file p →
  es ⊆ document_errors →
  wp (read_model es bc (Ok p) validate)
    (λ r s', document_of es validate (view s bc p) = Ok r ∧ same_files s s')
    (λ _ s', same_files s s') s.
Proof.
  intros Hp Hes. unfold read_model, catching, _read_json, document_of. apply wp_try_except.
  apply wp_bind, wp_liftR; [|done]. intros _ [= <-]. do 2 apply wp_bind.
  eapply wp_mono; [by apply wp_read_text| |]; cbn beta.
  - intros [t|] s' [-> Hs]; simpl; [|by apply wp_ret; apply wp_ret].
    destruct (loads t) as [j|]; simpl.
    + apply wp_ret, wp_fmap, wp_liftR; [by intros a ->|]. intros e ->.
      case_bool_decide; [by apply wp_ret|]. by apply wp_raise.
    + apply wp_raise. case_bool_decide; [by apply wp_ret|]. by apply wp_raise.
  - intros e s' [He Hs]. rewrite bool_decide_false by (intros Hin; by apply He, Hes).
    by apply wp_raise.
Qed.

Lemma quiet_model {A} (es : list exn) bc p (validate : json → result A) : is_file p →
  es ⊆ document_errors → quiet (read_model es bc (Ok p) validate).
Proof.
  intros Hp Hes s. eapply wp_mono; [by apply wp_read_model| |done]. by intros a s' [_ Hs].
Qed.
End calls.

(** ** Documents as written *)
Definition text_bytes {FT : FloatText} (j : json) : bytes := encode (dumps j).
Definition TAPE_JSON_PATH : string := "/.openblade/tape.json".

Lemma hex_no_space l : Forall (λ c, is_separator c = false) (hex_chars l).
Proof.
  assert (∀ n, 0 ≤ n < 16 → is_separator (Bytes.hex_digit n) = false) as Hd.
  { assert (Forall (λ n, is_separator (Bytes.hex_digit n) = false) (zrange 0 16)) as Hf
      by (apply (bool_decide_unpack _); vm_compute; done).
    rewrite Forall_forall in Hf. intros n Hn. apply Hf, elem_of_zrange. lia. }
  induction l as [|b l IH]; simpl; [done|].
  assert (0 ≤ byte_val b < 256) by (unfold byte_val; pose proof (Byte.to_N_bounded b); lia).
  repeat (apply Forall_cons; split); [apply Hd; Z.to_euclidean_division_equations; lia..|done].
Qed.
Lemma strip_sha b : strip (sha256_hex b) = sha256_hex b.
Proof. apply strip_token, hex_no_space. Qed.

Section documents.
Context {S : Type} {BK : Backend S} {BL : BackendLaws S} {PD : Pydantic} {FT : FloatText}.
Implicit Types (s : S) (bc p q : string).

Lemma text_of_encode t : text_of (Some (encode t)) = Ok (Some t).
Proof. unfold text_of. by rewrite decode_encode. Qed.

Lemma document_of_dumps {A} es (validate : json → result A) j : plain j →
  document_of es validate (Some (text_bytes j)) =
  match validate (canonical j) with
  | Ok a => Ok (Some a)
  | Raise e => if bool_decide (e ∈ es) then Ok None else Raise e
  end.
Proof.
  intros Hj. unfold document_of, text_bytes. rewrite text_of_encode.
  cbn [mbind result_bind]. by rewrite loads_print.
Qed.

Lemma document_written {A} `{ModelLaws A} es (a : A) : settled a →
  document_of es validated (Some (text_bytes (model_dump a))) = Ok (Some a).
Proof.
  intros Ha. rewrite document_of_dumps by by apply dump_plain.
  unfold validated. by rewrite validate_dump.
Qed.

Lemma parse_manifest_dump m : settled m → mj_schema m ∈ SUPPORTED_MANIFEST_SCHEMAS →
  parse_manifest (canonical (model_dump m)) = Ok m.
Proof.
  intros Hm Hs. pose proof (validate_dump m Hm) as Hv. revert Hv. cbn [model_dump ManifestJson_model].
  match goal with |- context [canonical (JObj ?d)] =>
    assert (dict_wf d) as Hd by distinct_keys;
    assert (dget d "schema" = Some (JStr (mj_schema m))) as Hk by done;
    generalize dependent d end.
  intros d Hd Hk Hv. rewrite canonical_obj in *. unfold parse_manifest, dget_or.
  rewrite dget_sorted, Hk by done. cbn [fmap option_fmap option_map default canonical id].
  rewrite bool_decide_true by done. unfold validated. by rewrite Hv.
Qed.

Lemma manifest_written es m : settled m → mj_schema m ∈ SUPPORTED_MANIFEST_SCHEMAS →
  document_of es parse_manifest (Some (text_bytes (model_dump m))) = Ok (Some m).
Proof.
  intros Hm Hs. rewrite document_of_dumps by by apply dump_plain. by rewrite parse_manifest_dump.
Qed.

Lemma performs_text bc p t : performs bc [(p, encode t)] (_write_text bc p t) (λ _, True).
Proof. apply performs_write. Qed.

Ltac after_dirs := apply performs_quiet; [done|apply quiet_dirs|intros []].

Lemma performs_tape_json bc x :
  performs bc [(TAPE_JSON_PATH, text_bytes (model_dump x))] (write_tape_json bc x) (λ _, True).
Proof. after_dirs. eapply performs_liftR; [reflexivity|]. apply performs_text. Qed.

Lemma performs_manifest bc m :
  performs bc [(MANIFEST_PATH, text_bytes (model_dump m))] (write_manifest bc m)
    (λ sha, sha = sha256_hex (text_bytes (model_dump m))).
Proof.
  after_dirs. cbv zeta. eapply performs_liftR; [reflexivity|].
  eapply (performs_bind _ [_] []); [apply performs_text|]. intros [] _. by apply performs_ret.
Qed.

Lemma performs_manifest_checksum bc sha :
  performs bc [(MANIFEST_CHECKSUM_PATH, encode sha)] (write_manifest_checksum bc sha) (λ _, True).
Proof. after_dirs. eapply performs_liftR; [reflexivity|]. apply performs_text. Qed.

Lemma performs_shard bc x :
  performs bc [(SHARD_METADATA_PATH, text_bytes (model_dump x));
               (SHARD_CHECKSUM_METADATA_PATH, encode (sha256_hex (text_bytes (model_dump x))))]
    (write_shard bc x) (λ sha, sha = sha256_hex (text_bytes (model_dump x))).
Proof.
  after_dirs. cbv zeta. eapply (performs_bind _ [_] [_]); [apply performs_text|]. intros [] _.
  eapply (performs_bind _ [_] []); [apply performs_text|]. intros [] _. by apply performs_ret.
Qed.

Lemma performs_marker bc x p : marker_path (cm_generation_id x) = Ok p →
  performs bc [(p, text_bytes (model_dump x))] (write_commit_marker bc x) (λ _, True).
Proof. intros Hp. after_dirs. eapply performs_liftR; [exact Hp|]. apply performs_text. Qed.
End documents.

(** ** The documents of a tape *)
Definition valid_manifest {FT : FloatText} {PD : Pydantic} (c sum : option bytes) : bool :=
  match text_of c, text_of sum with
  | Ok (Some t), Ok (Some u) =>
      match loads t with
      | Some (JObj d) =>
          is_ok (parse_manifest (JObj d)) &&
          match dget_or d "files" (JArr []) with
          | JArr l => equals_int (dget_or d "file_count" (JInt (Z.of_nat (length l)))) (Z.of_nat (length l))
          | _ => false
          end &&
          bool_decide (strip u = compute_json_checksum (JObj d))
      | _ => false
      end
  | _, _ => false
  end.

Section reading.
Context {S : Type} {BK : Backend S} {BL : BackendLaws S} {PD : Pydantic} {FT : FloatText}.
Implicit Types (s : S) (bc p q : string).

Definition manifest_on s bc : result (option ManifestJson) :=
  document_of document_errors parse_manifest (view s bc MANIFEST_PATH).
Definition shard_on s bc : result (option CatalogShard) :=
  document_of [JSONDecodeError; ValidationError] validated (view s bc SHARD_METADATA_PATH).
Definition tape_json_on s bc : result (option TapeJson) :=
  document_of [JSONDecodeError; ValidationError] validated (view s bc TAPE_JSON_PATH).

Lemma wp_read_manifest bc s : wp (read_manifest bc)
  (λ r s', manifest_on s bc = Ok r ∧ same_files s s') (λ _ s', same_files s s') s.
Proof. by apply wp_read_model. Qed.
Lemma wp_read_shard bc s : wp (read_shard bc)
  (λ r s', shard_on s bc = Ok r ∧ same_files s s') (λ _ s', same_files s s') s.
Proof. apply wp_read_model; [done|set_solver]. Qed.
Lemma wp_read_tape_json bc s : wp (read_tape_json bc)
  (λ r s', tape_json_on s bc = Ok r ∧ same_files s s') (λ _ s', same_files s s') s.
Proof. apply (wp_read_model _ _ TAPE_JSON_PATH); [done|set_solver]. Qed.

Lemma wp_validate_manifest bc s : wp (validate_manifest bc)
  (λ r s', mv_valid r = valid_manifest (view s bc MANIFEST_PATH) (view s bc MANIFEST_CHECKSUM_PATH)
           ∧ same_files s s') (λ _ s', same_files s s') s.
Proof.
  unfold validate_manifest, _read_json_payload, valid_manifest. do 2 apply wp_bind.
  eapply wp_mono; [by apply wp_read_text| |by intros e s' []]; cbn beta.
  intros t s1 [-> H1]. apply wp_ret. destruct t as [t|]; [|by apply wp_ret].
  destruct (loads t) as [j|]; [|apply wp_ret; cbn [mv_valid]; split; [by destruct (text_of _) as [[]|]|done]].
  destruct j; try (apply wp_ret; cbn [mv_valid]; split; [by destruct (text_of _) as [[]|]|done]).
  cbv zeta. destruct (parse_manifest (JObj d)) as [m|e].
  2: { case_bool_decide; apply wp_ret; cbn [mv_valid]; split; [by destruct (text_of _) as [[]|]|done|
         by destruct (text_of _) as [[]|]|done]. }
  cbn [is_ok andb]. unfold _apply_checksum_validation. do 2 apply wp_bind.
  eapply wp_mono; [by apply wp_read_text| |by intros e s' []; etrans]; cbn beta.
  intros u s2 [Hu H2]. rewrite (H1 bc MANIFEST_CHECKSUM_PATH) in Hu by done. rewrite Hu.
  assert (same_files s s2) by by etrans. apply wp_ret.
  set (l := match dget_or d "files" (JArr []) with JArr _ => _ | _ => _ end).
  set (b := match dget_or d "files" (JArr []) with JArr _ => _ | _ => false end).
  assert (l = [] ↔ b = true) as Hl.
  { subst l b. destruct (dget_or d "files" (JArr [])); try done. by case_match. }
  destruct u as [u|]; cbv zeta; apply wp_ret; cbn [mv_valid]; (split; [|done]).
  - destruct b; simpl.
    + rewrite (proj2 Hl eq_refl). by destruct (bool_decide (strip u = _)).
    + apply bool_decide_eq_false. intros Hn. apply app_eq_nil in Hn as [Hn _]. by apply Hl in Hn.
  - apply bool_decide_eq_false. intros Hn. by apply app_eq_nil in Hn as [_ ?].
Qed.

(** What the writer wrote is valid. *)
Lemma valid_manifest_written m : settled m → mj_schema m ∈ SUPPORTED_MANIFEST_SCHEMAS →
  valid_manifest (Some (text_bytes (model_dump m)))
    (Some (encode (sha256_hex (text_bytes (model_dump m))))) = true.
Proof.
  intros Hm Hs. unfold valid_manifest. unfold text_bytes at 1. rewrite !text_of_encode.
  rewrite loads_print by by apply dump_plain. pose proof (parse_manifest_dump m Hm Hs) as Hp.
  rewrite strip_sha. revert Hp. unfold text_bytes. rewrite <-dumps_canonical.
  cbn [model_dump ManifestJson_model].
  match goal with |- context [canonical (JObj ?d)] =>
    assert (dict_wf d) as Hd by distinct_keys;
    assert (dget d "files" = Some (model_dump (mj_files m))) as Hf by done;
    assert (dget d "file_count" = Some (JInt (mj_file_count m))) as Hc by done;
    generalize dependent d end.
  intros d Hd Hf Hc. rewrite canonical_obj. intros Hp. rewrite Hp. unfold dget_or.
  rewrite !dget_sorted, Hf, Hc by done. cbn [fmap option_fmap option_map default model_dump canonical id
    list_model is_ok andb equals_int].
  rewrite bool_decide_true by (by rewrite !length_fmap). simpl. by apply bool_decide_eq_true.
Qed.
End reading.
