(* ===== verification/LtfsBackend.v ===== *)
(** The simulated LTFS volumes as a store of metadata: [MockLTFSBackend] of
    simulator/ltfs_volume.py behind [TapeMetadataWriter], with a clock for the
    modification times of what is written. *)
From stdpp Require Import base list option strings.
From Stdlib Require Import Ascii ZArith Lia.
From S2P Require Import Prelude Wp Bytes Domain Faults Ltfs Json TapeModels Metadata.
#[local] Open Scope string_scope.
#[local] Open Scope Z_scope.

Record station : Type := Station { st_ltfs : ltfs; st_clock : nat → Z; st_tick : nat }.

Definition on_station {A} (m : Z → M ltfs A) : M station A := λ st,
  let '(r, l) := m (st_clock st (st_tick st)) (st_ltfs st) in
  (r, Station l (st_clock st) (S (st_tick st))).

(** [self.backend.ensure_tape(barcode).files]. *)
Definition tape_files (bc : string) : M ltfs (list string) :=
  key ← ensure_tape bc;
  tape ← index_tape key;
  mret (dkeys (tp_files tape)).

#[export] Instance station_backend : Backend station := {|
  bk_write bc p c := on_station (λ now, write_bytes now (inr bc) p c None None;; mret tt);
  bk_read bc p := on_station (λ _, Ltfs.read_bytes bc (Some p));
  bk_files bc := on_station (λ _, tape_files bc);
|}.

(** * The laws *)
Definition station_view (st : station) (bc p : string) : option bytes :=
  match Barcode bc with Ok b => content_at (st_ltfs st) b p | Raise _ => None end.
Definition station_same (bc bc' : string) : bool :=
  match Barcode bc, Barcode bc' with
  | Ok b, Ok b' => bool_decide (b = b')
  | _, _ => bool_decide (bc = bc')
  end.

Lemma wp_on_station {A} (m : Z → M ltfs A) (Q : A → station → Prop) (E : exn → station → Prop) st :
  (∀ now, wp (m now) (λ a l, ∀ n, Q a (Station l (st_clock st) n))
            (λ e l, ∀ n, E e (Station l (st_clock st) n)) (st_ltfs st)) →
  wp (on_station m) Q E st.
Proof.
  intros Hm. specialize (Hm (st_clock st (st_tick st))). apply wp_unfold in Hm. apply wp_unfold. unfold on_station.
  destruct (m _ _) as [[] l]; apply Hm.
Qed.

Lemma ext_view st l n : ext (st_ltfs st) l → ∀ bc q,
  station_view (Station l (st_clock st) n) bc q = station_view st bc q.
Proof. intros Hext bc q. unfold station_view. case_match; [|done]. by apply ext_content. Qed.

Definition store_error (e : exn) : Prop := e ∉ document_errors.
Lemma ensure_store_error bc e : ensure_error bc e → store_error e.
Proof.
  intros [[-> _]|[->|[msg ->]]]; unfold store_error; by apply (bool_decide_unpack _).
Qed.
Lemma fault_store_error msg : store_error (SimulatorFaultError msg).
Proof. apply (ensure_store_error ""). right; right. by exists msg. Qed.

Lemma read_bytes_errors bc p s : wp (Ltfs.read_bytes bc (Some p)) (λ _ _, True) (λ e _, store_error e) s.
Proof.
  unfold Ltfs.read_bytes. do 2 wp_step; [|by apply (ensure_store_error bc); left;
    match goal with H : Barcode bc = Raise ?e |- _ =>
      pose proof (Barcode_raise _ _ H); subst; done end].
  wp_step. apply wp_fault; [|intros; apply fault_store_error]. intros s1 _. wp_step.
  apply wp_ensure; [|by intros; eapply ensure_store_error]. intros key t s2 _ _ Ht.
  wp_step. eapply wp_index_tape; [exact Ht|]. by wp_step.
Qed.

Lemma tape_files_spec bc s : wp (tape_files bc)
  (λ l s', ext s s' ∧ ∃ b, Barcode bc = Ok b ∧ ∀ p, p ∈ l ↔ is_Some (content_at s b p))
  (λ _ s', ext s s') s.
Proof.
  unfold tape_files. wp_step. apply wp_ensure; [|done]. intros key t s1 Hkey H1 Ht.
  wp_step. eapply wp_index_tape; [exact Ht|]. wp_step. split; [done|]. exists key. split; [done|].
  intros p. rewrite <-(ext_content _ _ _ _ H1). unfold content_at. rewrite Ht. simpl.
  rewrite fmap_is_Some. unfold dkeys. destruct (dget (tp_files t) p) eqn:Hp.
  - split; [done|]. intros _. apply dget_Some_elem in Hp. by apply (list_elem_of_fmap_2 fst) in Hp.
  - apply dget_None in Hp. split; [done|]. by intros [].
Qed.

#[export] Instance station_laws : BackendLaws station.
Proof.
  refine {| view := station_view; same_tape := station_same |}.
  - intros bc. unfold station_same. destruct (Barcode bc); by apply bool_decide_eq_true.
  - intros st bc bc'. unfold station_same, station_view. intros Hs.
    destruct (Barcode bc) as [b|] eqn:Hb, (Barcode bc') as [b'|] eqn:Hb';
      apply bool_decide_eq_true in Hs; subst; congruence || done.
  - intros st bc p c. apply wp_on_station. intros now. simpl. do 2 wp_step.
    eapply wp_mono; [apply metadata_outcome| |by intros; apply ext_view]; cbn beta.
    intros [] s' (s1 & t & key & Hkey & Hext & Ht & _ & ->). do 2 wp_step. intros n bc' q.
    rewrite <-(ext_view st s1 n Hext bc' q). unfold station_view, station_same. rewrite Hkey. simpl.
    destruct (Barcode bc') as [b'|] eqn:Hb'; [|by rewrite bool_decide_false by congruence].
    rewrite (content_put_tape s1 key t) by done. simpl. rewrite dget_dset.
    destruct (decide (b' = key)) as [->|]; [rewrite (bool_decide_true (key = key)) by done|
      by rewrite bool_decide_false by congruence].
    destruct (decide (p = q)) as [->|]; [by rewrite bool_decide_true by done|].
    rewrite bool_decide_false by congruence. simpl. unfold content_at. by rewrite Ht.
  - intros st bc p. apply wp_on_station. intros now.
    eapply wp_mono; [apply wp_and; [apply read_bytes_spec|apply read_bytes_errors]| |]; cbn beta.
    + intros v s' [[Hext (b & Hb & ->)] _] n. split; [|by apply ext_view].
      unfold station_view. by rewrite Hb.
    + intros e s' [Hext He] n. split; [done|]. by apply ext_view.
  - intros st bc. apply wp_on_station. intros now. eapply wp_mono; [apply tape_files_spec| |]; cbn beta.
    + intros l s' [Hext (b & Hb & Hl)] n. split; [|by apply ext_view].
      unfold station_view. by rewrite Hb.
    + intros e s' Hext n. by apply ext_view.
Defined.
