(* ===== verification/Generation.v ===== *)
(** The commit of a generation of a tape: [finalize_tape_generation] of
    nas/archive_lifecycle.py, which writes the metadata of a generation with the
    commit marker last, and [_uncommitted_reason] of nas/catalog_rebuild.py, by
    which a rebuild tells a committed generation from one whose writing stopped. *)
From stdpp Require Import base list option strings sets.
From Stdlib Require Import Ascii ZArith Lia.
From S2P Require Import Prelude Wp Paths Bytes Domain Json TapeModels Metadata.
From S2P Require Import LtfsBackend.
From S2P Require Ltfs.
#[local] Open Scope string_scope.
#[local] Open Scope Z_scope.

(** [_ordered_unique]: the values that are neither [None] nor empty, once each. *)
Fixpoint ordered_unique (seen : list string) (values : list (option string)) : list string :=
  match values with
  | [] => []
  | Some v :: values =>
      if bool_decide (v = "" ∨ v ∈ seen) then ordered_unique seen values
      else v :: ordered_unique (v :: seen) values
  | None :: values => ordered_unique seen values
  end.
Definition _ordered_unique (values : list (option string)) : list string := ordered_unique [] values.

Definition sibling_tapes_from_shard (shard : CatalogShard) : list string :=
  let barcodes := concat ((λ d, sd_tape_set d ++ sd_shard_set d)%list <$> sh_datasets shard) in
  sort_by String.leb (filter (λ b, b ≠ sh_barcode shard) (_ordered_unique (Some <$> barcodes))).

Definition with_generation (g : string) (siblings : list string) (m : ManifestJson) : ManifestJson :=
  MkManifestJson (mj_schema m) (mj_barcode m) (mj_openblade_tape_id m) (mj_volume_group m)
    (mj_pools m) (mj_datasets m) (mj_tape_sets m) (mj_shard_sets m) (mj_files m) g siblings
    (mj_placement m) (mj_protection m).
Definition with_current (g : string) (previous : option string) (written_at : string) (x : TapeJson)
    : TapeJson :=
  MkTapeJson (tx_schema x) (tx_openblade_tape_id x) (tx_barcode x) (tx_ltfs_volume_uuid x)
    (tx_library_type x) (tx_created_at x) written_at (tx_openblade_version x) (tx_volume_group x)
    (tx_pools x) (tx_state x) (tx_generation x) (tx_notes x) (Some g) previous.

Section generation.
Context {S : Type} {BK : Backend S} {PD : Pydantic} {FT : FloatText}.

(** [t_tape] and [t_marker] are the two readings of the clock. *)
Definition finalize_tape_generation (t_tape t_marker : datetime) (bc generation_id : string)
    (manifest : ManifestJson) (shard : CatalogShard) (tape_json : TapeJson) : M S CommitMarker :=
  let manifest := with_generation generation_id (sibling_tapes_from_shard shard) manifest in
  manifest_sha ← write_manifest bc manifest;
  write_manifest_checksum bc manifest_sha;;
  shard_sha ← write_shard bc shard;
  let previous := tx_current_generation tape_json in
  write_tape_json bc
    (with_current generation_id (if bool_decide (previous = Some generation_id) then None else previous)
       (iso_utc t_tape) tape_json);;
  let marker := MkCommitMarker COMMIT_MARKER_SCHEMA generation_id manifest_sha shard_sha
                  (iso_utc t_marker) in
  write_commit_marker bc marker;;
  mret marker.

Definition _sha256_text (content : string) : string := sha256_hex (encode content).

Definition _uncommitted_reason (bc : string) (manifest : ManifestJson) : M S (option string) :=
  if bool_decide (mj_generation_id manifest = "") then mret None
  else
    marker ← read_commit_marker bc (mj_generation_id manifest);
    match marker with
    | None => mret (Some "commit marker missing")
    | Some marker =>
        path ← liftR (_metadata_path ["manifest.json"]);
        manifest_raw ← _read_text bc path;
        shard_raw ← _read_text bc SHARD_METADATA_PATH;
        mret (if bool_decide ((_sha256_text <$> manifest_raw) = Some (cm_manifest_sha256 marker))
              then if bool_decide ((_sha256_text <$> shard_raw) = Some (cm_catalog_shard_sha256 marker))
                   then None else Some "commit marker catalog-shard hash mismatch"
              else Some "commit marker manifest hash mismatch")
    end.
End generation.

(** * The path of a marker *)
Lemma append_assoc s t u : (s ++ t) ++ u = s ++ (t ++ u).
Proof. induction s as [|c s IH]; [done|]. exact (f_equal (String c) IH). Qed.

Lemma is_file_app s c : c ≠ "/"%char → is_file (s ++ String c "").
Proof.
  intros Hc. unfold is_file, endswith, split_suffix. cbn [snd].
  rewrite list_ascii_app, length_app, Nat.add_sub, drop_app_length.
  apply bool_decide_eq_false. simpl. congruence.
Qed.

Lemma stripped_framed (f : ascii → bool) c d l : f c = false → f d = false →
  rstrip_chars f (lstrip_chars f (c :: l ++ [d])) = (c :: l ++ [d])%list.
Proof.
  intros Hc Hd. unfold rstrip_chars. cbn [lstrip_chars]. rewrite Hc, app_comm_cons, rev_app_distr.
  cbn [rev app lstrip_chars]. rewrite Hd. cbn [rev]. by rewrite rev_app_distr, rev_involutive.
Qed.

Definition marker_name (name : string) : string := "commit-" ++ name ++ ".json".
Lemma marker_name_framed name : ∃ l,
  String.list_ascii_of_string (marker_name name) = ("c"%char :: l ++ ["n"%char])%list.
Proof.
  unfold marker_name. rewrite !list_ascii_app.
  exists ("o" :: "m" :: "m" :: "i" :: "t" :: "-" :: String.list_ascii_of_string name
          ++ ["."; "j"; "s"; "o"])%char%list.
  simpl. by rewrite <-(assoc_L (++)%list).
Qed.

Lemma marker_name_safe name : no_slash name → _safe_name (marker_name name) = Ok (marker_name name).
Proof.
  intros Hn. destruct (marker_name_framed name) as [l Hl]. unfold _safe_name.
  assert (strip (marker_name name) = marker_name name) as ->.
  { unfold strip. rewrite Hl, stripped_framed by done. rewrite <-Hl.
    apply String.string_of_list_ascii_of_string. }
  assert (strip_slashes (marker_name name) = marker_name name) as ->.
  { unfold strip_slashes. rewrite Hl, stripped_framed by done. rewrite <-Hl.
    apply String.string_of_list_ascii_of_string. }
  rewrite bool_decide_false; [done|]. intros [Hin|Hin].
  - apply list_elem_of_In in Hin. simpl in Hin. by destruct_or! Hin.
  - revert Hin. unfold marker_name. rewrite !list_ascii_app, !elem_of_app. intros [Hin|[Hin|Hin]].
    + by apply (bool_decide_pack _) in Hin.
    + by apply Hn.
    + by apply (bool_decide_pack _) in Hin.
Qed.

Lemma marker_path_shape g p : marker_path g = Ok p → ∃ name, p = "/.openblade/" ++ marker_name name.
Proof.
  unfold marker_path. destruct (_safe_name g) as [name|] eqn:Hn; [|done]. cbn [mbind result_bind].
  assert (no_slash name) as Hs.
  { revert Hn. unfold _safe_name. case_bool_decide as Hd; [done|]. intros [= <-]. intros Hin.
    apply Hd. by right. }
  intros Hp. exists name. revert Hp. unfold _metadata_path. cbn [_metadata_parts].
  fold (marker_name name). rewrite marker_name_safe by done. cbn [mbind result_bind].
  assert (path_div METADATA_ROOT (marker_name name) = "/.openblade/" ++ marker_name name) as ->.
  { unfold path_div. rewrite bool_decide_true by done. unfold posix_path.
    assert (path_parts (METADATA_ROOT ++ "/" ++ marker_name name) = [".openblade"; marker_name name]) as ->.
    { unfold path_parts. 
      change (METADATA_ROOT ++ "/" ++ marker_name name) with
        ("" ++ String "/" (".openblade" ++ String "/" (marker_name name))).
      rewrite !split_on_app, split_on_cons_no_slash; [done|..]; try by apply (bool_decide_unpack _).
      unfold no_slash, marker_name. rewrite !list_ascii_app, !elem_of_app. intros [Hin|[Hin|Hin]];
        [by apply (bool_decide_pack _) in Hin| by apply Hs | by apply (bool_decide_pack _) in Hin]. }
    done. }
  case_match; [done|]. by intros [= <-].
Qed.

Lemma marker_path_apart g p : marker_path g = Ok p → is_file p ∧
  p ∉ [MANIFEST_PATH; MANIFEST_CHECKSUM_PATH; SHARD_METADATA_PATH; SHARD_CHECKSUM_METADATA_PATH;
       TAPE_JSON_PATH].
Proof.
  intros [name ->]%marker_path_shape. split.
  - unfold marker_name. change ".json" with (".jso" ++ "n"). rewrite <-!append_assoc.
    by apply is_file_app.
  - rewrite !not_elem_of_cons. unfold marker_name. split_and!; try done. apply not_elem_of_nil.
Qed.

Section commit.
Context {S : Type} {BK : Backend S} {BL : BackendLaws S} {PD : Pydantic} {FT : FloatText}.
Implicit Types (s : S) (bc p q : string).

(** The writes of a generation, in order. *)
Definition generation_writes (t_tape t_marker : datetime) (p g : string) (manifest : ManifestJson)
    (shard : CatalogShard) (tape_json : TapeJson) : list (string * bytes) :=
  let m := text_bytes (model_dump (with_generation g (sibling_tapes_from_shard shard) manifest)) in
  let sh := text_bytes (model_dump shard) in
  let previous := tx_current_generation tape_json in
  [(MANIFEST_PATH, m); (MANIFEST_CHECKSUM_PATH, encode (sha256_hex m));
   (SHARD_METADATA_PATH, sh); (SHARD_CHECKSUM_METADATA_PATH, encode (sha256_hex sh));
   (TAPE_JSON_PATH, text_bytes (model_dump
      (with_current g (if bool_decide (previous = Some g) then None else previous)
         (iso_utc t_tape) tape_json)));
   (p, text_bytes (model_dump
      (MkCommitMarker COMMIT_MARKER_SCHEMA g (sha256_hex m) (sha256_hex sh) (iso_utc t_marker))))].

Lemma performs_finalize t_tape t_marker bc g p manifest shard tape_json : marker_path g = Ok p →
  performs bc (generation_writes t_tape t_marker p g manifest shard tape_json)
    (finalize_tape_generation t_tape t_marker bc g manifest shard tape_json) (λ _, True).
Proof.
  intros Hp. unfold finalize_tape_generation, generation_writes. cbv zeta.
  eapply (performs_bind _ [_] (_ :: _)); [apply performs_manifest|]. intros ? ->.
  eapply (performs_bind _ [_] (_ :: _)); [apply performs_manifest_checksum|]. intros [] _.
  eapply (performs_bind _ [_; _] (_ :: _)); [apply performs_shard|]. intros ? ->.
  eapply (performs_bind _ [_] (_ :: _)); [apply performs_tape_json|]. intros [] _.
  eapply (performs_bind _ [_] []); [by apply performs_marker|]. intros [] _.
  by apply performs_ret.
Qed.

(** What the readers see in the files of a tape. *)
Lemma read_manifest_run s bc r s' : read_manifest bc s = (Ok r, s') →
  document_of document_errors parse_manifest (view s bc MANIFEST_PATH) = Ok r.
Proof.
  intros Hr. pose proof (wp_run _ _ _ s
    (wp_read_model document_errors bc MANIFEST_PATH parse_manifest s ltac:(done) ltac:(done)) _ _ Hr)
    as Hv. by destruct Hv.
Qed.

(** The verdict, as a function of the files. *)
Definition verdict_of (manifest marker shard : option bytes) : result (option string) :=
  m ← document_of [JSONDecodeError; ValidationError] (validated (A := CommitMarker)) marker;
  match m with
  | None => Ok (Some "commit marker missing")
  | Some m =>
      manifest_raw ← text_of manifest; shard_raw ← text_of shard;
      Ok (if bool_decide ((_sha256_text <$> manifest_raw) = Some (cm_manifest_sha256 m))
          then if bool_decide ((_sha256_text <$> shard_raw) = Some (cm_catalog_shard_sha256 m))
               then None else Some "commit marker catalog-shard hash mismatch"
          else Some "commit marker manifest hash mismatch")
  end.

Lemma wp_uncommitted bc m p s : mj_generation_id m ≠ "" → marker_path (mj_generation_id m) = Ok p →
  wp (_uncommitted_reason bc m)
    (λ r s', verdict_of (view s bc MANIFEST_PATH) (view s bc p) (view s bc SHARD_METADATA_PATH) = Ok r
             ∧ same_files s s') (λ _ s', same_files s s') s.
Proof.
  intros Hg Hp. pose proof (marker_path_apart _ _ Hp) as [Hfile _]. unfold _uncommitted_reason.
  rewrite bool_decide_false by done. unfold read_commit_marker, verdict_of.
  revert Hp. unfold marker_path. destruct (_safe_name _) as [name|]; [|done]. simpl. intros Hp.
  do 2 apply wp_bind. apply wp_liftR; [|done]. intros _ [= <-]. rewrite Hp.
  eapply wp_mono; [apply wp_read_model; [done|set_solver]| |done]. cbn beta.
  intros [mk|] s1 [-> H1]; simpl; [|by apply wp_ret].
  apply wp_bind, wp_liftR; [|done]. intros _ [= <-].
  apply wp_bind. eapply wp_mono; [by apply (wp_read_text bc MANIFEST_PATH)| |]; cbn beta;
    [|intros e s2 [_ H2]; by etrans].
  intros raw s2 [Hraw H2]. rewrite (H1 bc MANIFEST_PATH) in Hraw by done. rewrite Hraw. simpl.
  apply wp_bind. eapply wp_mono; [by apply (wp_read_text bc SHARD_METADATA_PATH)| |]; cbn beta;
    [|intros e s3 [_ H3]; by do 2 (etrans; [eassumption|])].
  intros sraw s3 [Hsraw H3]. rewrite (H2 bc SHARD_METADATA_PATH), (H1 bc SHARD_METADATA_PATH) in Hsraw
    by done. rewrite Hsraw. simpl. apply wp_ret. split; [done|]. by do 2 (etrans; [eassumption|]).
Qed.
End commit.

Section atomic.
Context {S : Type} {BK : Backend S} {BL : BackendLaws S} {PD : Pydantic} {FT : FloatText}.
Implicit Types (s : S) (bc p q : string).

(** The file [q] after the writes [ws], all of one tape. *)
Lemma writes_view bc ws s s' q c : writes bc ws s s' → is_file q → written ws q = Some c →
  view s' bc q = Some c.
Proof. intros Hw Hq Hc. by rewrite (Hw bc q Hq), same_tape_refl, Hc. Qed.
Lemma writes_view_old bc ws s s' q : writes bc ws s s' → is_file q → written ws q = None →
  view s' bc q = view s bc q.
Proof. intros Hw Hq Hc. by rewrite (Hw bc q Hq), same_tape_refl, Hc. Qed.

Lemma manifest_seen bc m s r s' : settled m → mj_schema m ∈ SUPPORTED_MANIFEST_SCHEMAS →
  view s bc MANIFEST_PATH = Some (text_bytes (model_dump m)) →
  read_manifest bc s = (Ok r, s') → r = Some m.
Proof.
  intros Hm Hs Hv Hr%read_manifest_run. rewrite Hv, manifest_written in Hr by done. congruence.
Qed.

Lemma shard_seen bc x s r s' : settled x →
  view s bc SHARD_METADATA_PATH = Some (text_bytes (model_dump x)) →
  read_shard bc s = (Ok r, s') → r = Some x.
Proof.
  intros Hx Hv Hr. assert (wp (read_shard bc) (λ r _, r = Some x) (λ _ _, True) s) as Hw.
  { eapply wp_mono; [apply wp_read_model; [done|set_solver]| |done]. cbn beta. intros a s1 [Ha _].
    rewrite Hv, document_written in Ha by done. congruence. }
  by apply (wp_run _ _ _ _ Hw) in Hr.
Qed.

Lemma verdict_seen bc m p s r s' v : mj_generation_id m ≠ "" →
  marker_path (mj_generation_id m) = Ok p →
  verdict_of (view s bc MANIFEST_PATH) (view s bc p) (view s bc SHARD_METADATA_PATH) = Ok v →
  _uncommitted_reason bc m s = (Ok r, s') → r = v.
Proof.
  intros Hg Hp Hv Hr. pose proof (wp_run _ _ _ _ (wp_uncommitted bc m p s Hg Hp) _ _ Hr) as [Ha _].
  congruence.
Qed.

Lemma verdict_committed m sh g t :
  verdict_of (Some (text_bytes m))
    (Some (text_bytes (model_dump (MkCommitMarker COMMIT_MARKER_SCHEMA g (sha256_hex (text_bytes m))
       (sha256_hex (text_bytes sh)) t)))) (Some (text_bytes sh)) = Ok None.
Proof.
  unfold verdict_of. rewrite document_written by done. cbn [mbind result_bind].
  unfold text_bytes. rewrite !text_of_encode. cbn [mbind result_bind fmap option_fmap option_map].
  unfold _sha256_text. cbn [cm_manifest_sha256 cm_catalog_shard_sha256].
  by rewrite !bool_decide_true by done.
Qed.

Lemma written_elem ws q c : NoDup ws.*1 → (q, c) ∈ ws → written ws q = Some c.
Proof.
  intros Hnd Hin. unfold written. apply elem_dget; [|by apply elem_of_reverse].
  unfold dict_wf. by rewrite fmap_reverse, reverse_Permutation.
Qed.
Lemma written_none ws q : q ∉ ws.*1 → written ws q = None.
Proof. intros Hq. apply dget_None. by rewrite fmap_reverse, elem_of_reverse. Qed.

Lemma generation_paths t_tape t_marker p g manifest shard tape_json : marker_path g = Ok p →
  NoDup (generation_writes t_tape t_marker p g manifest shard tape_json).*1.
Proof.
  intros [_ Hp]%marker_path_apart. cbn [generation_writes fmap list_fmap fst].
  apply (NoDup_app [_; _; _; _; _] [p]). split_and!; [by apply (bool_decide_unpack _)| |apply NoDup_singleton].
  intros q Hq ->%list_elem_of_singleton. by apply Hp.
Qed.

Lemma marker_is_last t_tape t_marker p g manifest shard tape_json ws1 w ws2 :
  generation_writes t_tape t_marker p g manifest shard tape_json = (ws1 ++ w :: ws2)%list →
  NoDup (ws1 ++ w :: ws2).*1%list → p ∉ ws1.*1.
Proof.
  intros Hws Hnd Hin. rewrite fmap_app in Hnd. apply NoDup_app in Hnd as (_ & Hd & _).
  apply (Hd p Hin). apply (f_equal last) in Hws. rewrite last_app_cons in Hws.
  assert (∃ c, last (w :: ws2) = Some (p, c)) as [c Hc] by (eexists; rewrite <-Hws; reflexivity).
  apply list_elem_of_fmap. exists (p, c). split; [done|]. by apply last_Some_elem_of.
Qed.
End atomic.

(** C5: the commit marker decides.  For any store whose writes may fail at any
    moment, and a generation that has no marker yet: if finalising it returns, the
    tape carries its manifest and its catalog shard and a rebuild finds it
    committed; if finalising raises, at whatever write, then either no document of
    any tape has changed, or the manifest on the tape is the new one and a rebuild
    finds its generation uncommitted, so that its files are never restored as
    archived.  The documents of other tapes stay as they are. *)
Theorem generation_atomic {S : Type} `{BL : BackendLaws S, PD : Pydantic, FT : FloatText} t_tape t_marker bc g p manifest shard
    tape_json (s s' : S) r :
  g ≠ "" → marker_path g = Ok p → view s bc p = None →
  settled manifest → mj_schema manifest ∈ SUPPORTED_MANIFEST_SCHEMAS → settled shard →
  finalize_tape_generation t_tape t_marker bc g manifest shard tape_json s = (r, s') →
  let m := with_generation g (sibling_tapes_from_shard shard) manifest in
  (∀ bc' q, same_tape bc bc' = false → is_file q → view s' bc' q = view s bc' q) ∧
  match r with
  | Ok _ =>
      (∀ a s1, read_manifest bc s' = (Ok a, s1) → a = Some m) ∧
      (∀ a s1, read_shard bc s' = (Ok a, s1) → a = Some shard) ∧
      (∀ a s1, _uncommitted_reason bc m s' = (Ok a, s1) → a = None)
  | Raise _ =>
      same_files s s' ∨
      (∀ a s1, read_manifest bc s' = (Ok a, s1) → a = Some m) ∧
      (∀ a s1, _uncommitted_reason bc m s' = (Ok a, s1) → a = Some "commit marker missing")
  end.
Proof.
  intros Hg Hp Hnew Hm Hs Hsh Hr m. pose proof (marker_path_apart g p Hp) as [Hpf _].
  pose proof (generation_paths t_tape t_marker p g manifest shard tape_json Hp) as Hnd.
  pose proof (wp_run _ _ _ _ (performs_finalize t_tape t_marker bc g p manifest shard tape_json Hp s)
    _ _ Hr) as Hw. fold m in Hw.
  destruct r as [mk|e]; simpl in Hw.
  - destruct Hw as [_ Hw]. split; [intros bc' q Hbc Hq; by rewrite (Hw bc' q Hq), Hbc|].
    pose proof (λ q c Hq Hin, writes_view _ _ _ _ q c Hw Hq (written_elem _ q c Hnd Hin)) as Hv.
    unfold generation_writes in Hv. cbv zeta in Hv. fold m in Hv.
    pose proof (Hv MANIFEST_PATH _ ltac:(done) ltac:(by left)) as Hvm.
    pose proof (Hv SHARD_METADATA_PATH _ ltac:(done) ltac:(by right; right; left)) as Hvs.
    pose proof (Hv p _ Hpf ltac:(by do 5 right; left)) as Hvp. split_and!.
    + intros a s1. by apply manifest_seen.
    + intros a s1. by apply shard_seen.
    + intros a s1. apply (verdict_seen bc m p); [done..|]. rewrite Hvm, Hvs, Hvp.
      apply verdict_committed.
  - destruct Hw as (ws1 & w & ws2 & Hws & Hw).
    split; [intros bc' q Hbc Hq; by rewrite (Hw bc' q Hq), Hbc|].
    destruct ws1 as [|w0 ws1]; [left|right].
    { intros bc' q Hq. rewrite (Hw bc' q Hq). by case_match. }
    rewrite Hws in Hnd.
    assert (view s' bc MANIFEST_PATH = Some (text_bytes (model_dump m))) as Hvm.
    { eapply writes_view; [exact Hw|done|]. injection Hws as <- _. apply written_elem; [|by left].
      rewrite fmap_app in Hnd. by apply NoDup_app in Hnd as [Hnd _]. }
    split; [intros a s1; by apply manifest_seen|].
    intros a s1. apply (verdict_seen bc m p); [done..|].
    rewrite (writes_view_old _ _ _ _ p Hw), Hnew; [done..|].
    apply written_none. intros Hin. eapply marker_is_last; [exact Hws|exact Hnd|exact Hin].
Qed.

#[local] Existing Instance strict_types.
#[local] Existing Instance no_floats.
#[local] Notation sample_manifest :=
  (MkManifestJson MANIFEST_SCHEMA "TAPE01L8" "T1" "vg" ["p"] ["ds"] [] []
     [MkManifestFileEntry "a" "/ds/a" "ds" "f1" 3 "" "00" 1 "" true] "" [] "" None).
#[local] Notation sample_shard :=
  (MkCatalogShard CATALOG_SHARD_SCHEMA "TAPE01L8" "T1" "vg" "" "0.1.0"
     [MkShardDatasetEntry "ds" "p" "vg" "" "" 1 3 ["TAPE01L8"; "TAPE02L8"] [] None]
     [MkShardFileEntry "a" "/ds/a" "ds" "f1" "p" 3 "" "00" "offline_on_tape" "" 1 true] REBUILD_HINT).
#[local] Notation sample_tape :=
  (MkTapeJson "openblade.tape.v1" "T1" "TAPE01L8" "" "" "" "" "0.1.0" "vg" [] "active" "LTO-8" ""
     (Some "g0") None).
#[local] Notation noon := (MkDatetime 2025 1 2 12 0 0 0).
#[local] Notation blank room :=
  (Station (Ltfs.with_tapes [("TAPE01L8", Ltfs.MockTapeContents "TAPE01L8" room 0 [] true
                                            MountState.MOUNTED_RW)] Ltfs.mounted_ltfs)
     (λ n, Z.of_nat n) 0).
#[local] Notation finalized room :=
  (finalize_tape_generation noon noon "TAPE01L8" "g1" sample_manifest sample_shard sample_tape
    (blank room)).
#[local] Notation committed room :=
  (let m := with_generation "g1" ["TAPE02L8"] sample_manifest in
   (∀ a s1, read_manifest "TAPE01L8" (finalized room).2 = (Ok a, s1) → a = Some m) ∧
   (∀ a s1, read_shard "TAPE01L8" (finalized room).2 = (Ok a, s1) → a = Some sample_shard) ∧
   (∀ a s1, _uncommitted_reason "TAPE01L8" m (finalized room).2 = (Ok a, s1) → a = None)).
#[local] Notation uncommitted room :=
  (∀ a s1, _uncommitted_reason "TAPE01L8" (with_generation "g1" ["TAPE02L8"] sample_manifest)
     (finalized room).2 = (Ok a, s1) → a = Some "commit marker missing").

(** With room for all the documents, and with the tape full before the catalog shard. *)
Lemma generation_atomic_witness :
  is_ok (finalized 3000).1 = true ∧ is_ok (finalized 900).1 = false ∧ committed 3000 ∧ uncommitted 900.
Proof.
  assert (is_ok (finalized 3000).1 = true) as Hok by (vm_compute; reflexivity).
  assert (is_ok (finalized 900).1 = false) as Hfull by (vm_compute; reflexivity).
  split_and!; [exact Hok|exact Hfull| |].
  - pose proof (generation_atomic noon noon "TAPE01L8" "g1" "/.openblade/commit-g1.json"
      sample_manifest sample_shard sample_tape (blank 3000) _ _ ltac:(done) ltac:(reflexivity)
      ltac:(vm_compute; reflexivity) I ltac:(apply (bool_decide_unpack _); vm_compute; done)
      ltac:(repeat constructor) (surjective_pairing (finalized 3000))) as [_ H].
    revert Hok H. generalize (finalized 3000). intros [[mk|e] s'] Hok H; [exact H|discriminate Hok].
  - pose proof (generation_atomic noon noon "TAPE01L8" "g1" "/.openblade/commit-g1.json"
      sample_manifest sample_shard sample_tape (blank 900) _ _ ltac:(done) ltac:(reflexivity)
      ltac:(vm_compute; reflexivity) I ltac:(apply (bool_decide_unpack _); vm_compute; done)
      ltac:(repeat constructor) (surjective_pairing (finalized 900))) as [_ H].
    assert (view (finalized 900).2 "TAPE01L8" MANIFEST_PATH ≠ None) as Hv by (vm_compute; discriminate).
    assert (view (blank 900) "TAPE01L8" MANIFEST_PATH = None) as Hb by (vm_compute; reflexivity).
    revert Hfull Hv H. generalize (finalized 900). intros [[mk|e] s'] Hfull Hv H; [discriminate Hfull|].
    destruct H as [H|[_ H]]; [|exact H].
    destruct Hv. etransitivity; [exact (H "TAPE01L8" MANIFEST_PATH eq_refl)|exact Hb].
Defined.
