(* ===== verification/NasTables.v ===== *)
(** The tables of the catalog behind the NAS (catalog/models.py and
    catalog/repository.py): datasets, their files, the index of logical paths, the
    runs of the catalog rebuild and the versions of manifests; with the models that
    validate them (nas/types.py) and the service in front of the index
    (nas/path_mapping.py).

    A column that holds JSON text is the value of the text.  Instants are texts;
    the readings of the clock and the identifiers drawn are arguments. *)
From stdpp Require Import base list option strings.
From Stdlib Require Import Ascii ZArith Lia.
From S2P Require Import Prelude Wp Paths Domain Catalog Planner Capacity Json TapeModels Metadata.
#[local] Open Scope string_scope.
#[local] Open Scope Z_scope.

(** [a or b], [a or ""] on texts. *)
Definition py_or (a b : option string) : option string :=
  match a with Some "" | None => b | Some _ => a end.
Definition or_text (a : option string) (b : string) : string := default b (py_or a None).
(** [None] or empty. *)
Definition falsy (a : option string) : bool := bool_decide (py_or a None = None).

(** * Enumerations *)
Inductive DatasetStatus : Set :=
| DS_PENDING | DS_ARCHIVING | DS_ARCHIVED | DS_FAILED | DS_VERIFIED | DS_EXPORTED | DS_CANCELLED.
#[export] Instance DatasetStatus_eq_dec : EqDecision DatasetStatus.
Proof. solve_decision. Defined.
Inductive RebuildRunStatus : Set := RR_PLANNED | RR_RUNNING | RR_COMPLETED | RR_FAILED | RR_CANCELLED.
#[export] Instance RebuildRunStatus_eq_dec : EqDecision RebuildRunStatus.
Proof. solve_decision. Defined.

#[export] Instance NasFileState_enum : StrEnum NasFileState := {|
  enum_value s := match s with
    | ONLINE_CACHED => "online_cached" | OFFLINE_ON_TAPE => "offline_on_tape"
    | FS_HYDRATING => "hydrating" | MISSING_TAPE => "missing_tape" | FS_FAILED => "failed"
    | CORRUPT => "corrupt" | FS_EXPORTED => "exported" end;
  enum_members := [ONLINE_CACHED; OFFLINE_ON_TAPE; FS_HYDRATING; MISSING_TAPE; FS_FAILED; CORRUPT;
                   FS_EXPORTED];
|}.
#[export] Instance NasFileState_laws : StrEnumLaws NasFileState.
Proof. solve_enum_laws. Qed.
#[export] Instance IngestMode_enum : StrEnum IngestMode := {|
  enum_value m := match m with CACHE_DRIVE => "cache_drive" | SOURCE_STREAM => "source_stream" end;
  enum_members := [CACHE_DRIVE; SOURCE_STREAM];
|}.
#[export] Instance IngestMode_laws : StrEnumLaws IngestMode.
Proof. solve_enum_laws. Qed.

(** * Models (nas/types.py) *)
Record NasDataset : Type := MkNasDataset {
  ds_id : string; ds_pool_id : option string; ds_name : string; ds_source_path : option string;
  ds_source_host : option string; ds_policy_id : option string; ds_ingest_mode : option IngestMode;
  ds_volume_group_id : option string; ds_tape_set : list string;
  ds_shard_map : dict string (list string); ds_file_count : Z; ds_total_bytes : Z;
  ds_status : DatasetStatus; ds_copies_completed : Z; ds_manifest_path : option string;
  ds_created_at : option string; ds_updated_at : option string;
}.
Record NasFileRecord : Type := MkNasFile {
  nf_id : string; nf_dataset_id : string; nf_pool_id : option string; nf_relative_path : string;
  nf_source_path : option string; nf_size_bytes : Z; nf_mtime : option string;
  nf_checksum_sha256 : option string; nf_tape_barcode : option string; nf_tape_offset : option Z;
  nf_status : NasFileState; nf_cache_path : option string; nf_created_at : option string;
  nf_updated_at : option string;
}.
Record PathMappingRecord : Type := MkPathMapping {
  pm_id : string; pm_logical_path : string; pm_pool_id : string; pm_dataset_id : string;
  pm_primary_barcode : string; pm_all_barcodes : list string; pm_file_record_id : string;
  pm_file_state : NasFileState; pm_restore_strategy : string; pm_size : Z; pm_checksum : string;
  pm_last_seen_at : string; pm_created_at : string; pm_updated_at : string;
}.
Record CatalogRebuildRunRecord : Type := MkRebuildRun {
  rn_id : string; rn_status : RebuildRunStatus; rn_triggered_by : string;
  rn_barcodes_planned : list string; rn_barcodes_completed : list string;
  rn_barcodes_failed : list string; rn_barcodes_skipped : list string; rn_files_recovered : Z;
  rn_datasets_recovered : Z; rn_path_mappings_recovered : Z; rn_error_summary : list string;
  rn_created_at : string; rn_updated_at : string; rn_completed_at : option string;
}.
Record ManifestVersionRecord : Type := MkManifestVersion {
  vn_id : string; vn_barcode : string; vn_version_ts : string; vn_manifest_path : string;
  vn_sha256 : string; vn_file_count : Z; vn_is_current : bool; vn_recorded_at : string;
}.

(** [_strip_required_string]. *)
Definition _strip_required_string (max_length : nat) (value : string) : result string :=
  let stripped := strip value in
  if bool_decide (stripped = "" ∨ (max_length < String.length stripped)%nat) then Raise ValidationError
  else Ok stripped.
Definition NasDataset_validate (d : NasDataset) : result NasDataset :=
  name ← _strip_required_string 128 (ds_name d);
  Ok (MkNasDataset (ds_id d) (ds_pool_id d) name (ds_source_path d) (ds_source_host d)
        (ds_policy_id d) (ds_ingest_mode d) (ds_volume_group_id d) (ds_tape_set d) (ds_shard_map d)
        (ds_file_count d) (ds_total_bytes d) (ds_status d) (ds_copies_completed d)
        (ds_manifest_path d) (ds_created_at d) (ds_updated_at d)).
Definition NasFileRecord_validate (f : NasFileRecord) : result NasFileRecord :=
  if bool_decide (nf_relative_path f = "") then Raise ValidationError else Ok f.
Definition validate_logical_path (v : string) : result string :=
  let s := strip v in
  if bool_decide (s = "" ∨ ".." ∈ split_on "/"%char s) then Raise ValidationError else Ok s.
Definition with_logical_path (p : string) (r : PathMappingRecord) : PathMappingRecord :=
  MkPathMapping (pm_id r) p (pm_pool_id r) (pm_dataset_id r) (pm_primary_barcode r)
    (pm_all_barcodes r) (pm_file_record_id r) (pm_file_state r) (pm_restore_strategy r) (pm_size r)
    (pm_checksum r) (pm_last_seen_at r) (pm_created_at r) (pm_updated_at r).
Definition PathMappingRecord_validate (r : PathMappingRecord) : result PathMappingRecord :=
  p ← validate_logical_path (pm_logical_path r); Ok (with_logical_path p r).

(** * The tables *)

(** The row of a dataset has one column more than the model. *)
Record dataset_row : Type := DatasetRow {
  dr_dataset : NasDataset; dr_protection : option (dict string json);
}.
(** Path mappings are unique by path and pool. *)
Record nas_tables : Type := NasTables {
  nt_catalog : catalog;
  nt_datasets : dict string dataset_row;
  nt_files : dict string NasFileRecord;
  nt_mappings : dict (string * string) PathMappingRecord;
  nt_runs : dict string CatalogRebuildRunRecord;
  nt_versions : dict string ManifestVersionRecord;
}.
Definition with_nt_catalog c (s : nas_tables) : nas_tables :=
  NasTables c (nt_datasets s) (nt_files s) (nt_mappings s) (nt_runs s) (nt_versions s).
Definition with_datasets d (s : nas_tables) : nas_tables :=
  NasTables (nt_catalog s) d (nt_files s) (nt_mappings s) (nt_runs s) (nt_versions s).
Definition with_nas_files d (s : nas_tables) : nas_tables :=
  NasTables (nt_catalog s) (nt_datasets s) d (nt_mappings s) (nt_runs s) (nt_versions s).
Definition with_mappings d (s : nas_tables) : nas_tables :=
  NasTables (nt_catalog s) (nt_datasets s) (nt_files s) d (nt_runs s) (nt_versions s).
Definition with_runs d (s : nas_tables) : nas_tables :=
  NasTables (nt_catalog s) (nt_datasets s) (nt_files s) (nt_mappings s) d (nt_versions s).
Definition with_versions d (s : nas_tables) : nas_tables :=
  NasTables (nt_catalog s) (nt_datasets s) (nt_files s) (nt_mappings s) (nt_runs s) d.
Definition empty_tables : nas_tables := NasTables empty_catalog [] [] [] [] [].
Definition on_nas_catalog {A} (m : M catalog A) : M nas_tables A := zoom nt_catalog with_nt_catalog m.

(** ** Datasets *)
Definition get_nas_dataset (dataset_id : string) (s : nas_tables) : option NasDataset :=
  dr_dataset <$> dget (nt_datasets s) dataset_id.
Definition list_nas_datasets (pool_id : option string) (s : nas_tables) : list NasDataset :=
  let rows := dr_dataset <$> dvalues (nt_datasets s) in
  let rows := match pool_id with
              | Some p => filter (λ d, ds_pool_id d = Some p) rows
              | None => rows
              end in
  sort_by (λ a b, let ca := default "" (ds_created_at a) in let cb := default "" (ds_created_at b) in
                  negb (String.leb cb ca) || (bool_decide (ca = cb) && String.leb (ds_name a) (ds_name b)))
    rows.
Definition stamped (now : datetime) (row_created : option string) (d : NasDataset) : NasDataset :=
  MkNasDataset (ds_id d) (ds_pool_id d) (ds_name d) (ds_source_path d) (ds_source_host d)
    (ds_policy_id d) (ds_ingest_mode d) (ds_volume_group_id d) (ds_tape_set d) (ds_shard_map d)
    (ds_file_count d) (ds_total_bytes d) (ds_status d) (ds_copies_completed d) (ds_manifest_path d)
    (py_or row_created (py_or (ds_created_at d) (Some (isoformat now))))
    (py_or (ds_updated_at d) (Some (isoformat now))).
Definition upsert_nas_dataset (now : datetime) (config : NasDataset) : M nas_tables NasDataset :=
  parsed ← liftR (NasDataset_validate config);
  row ← gets (λ s, dget (nt_datasets s) (ds_id parsed));
  let d := stamped now (row ≫= λ r, ds_created_at (dr_dataset r)) parsed in
  modify (λ s, with_datasets
    (dset (nt_datasets s) (ds_id parsed) (DatasetRow d (row ≫= dr_protection))) s);;
  mret d.
Definition delete_nas_dataset (dataset_id : string) : M nas_tables bool :=
  row ← gets (get_nas_dataset dataset_id);
  match row with
  | None => mret false
  | Some _ => modify (λ s, with_datasets (ddel (nt_datasets s) dataset_id) s);; mret true
  end.

(** ** Files *)
Definition get_nas_file_record (file_id : string) (s : nas_tables) : option NasFileRecord :=
  dget (nt_files s) file_id.
Definition list_nas_file_records (dataset_id : string) (s : nas_tables) : list NasFileRecord :=
  sort_by (λ a b, String.leb (nf_relative_path a) (nf_relative_path b))
    (filter (λ f, nf_dataset_id f = dataset_id) (dvalues (nt_files s))).
Definition delete_nas_file_record (file_id : string) : M nas_tables (option NasFileRecord) :=
  row ← gets (get_nas_file_record file_id);
  match row with
  | None => mret None
  | Some f => modify (λ s, with_nas_files (ddel (nt_files s) file_id) s);; mret (Some f)
  end.
Definition set_stamps (created updated : option string) (f : NasFileRecord) : NasFileRecord :=
  MkNasFile (nf_id f) (nf_dataset_id f) (nf_pool_id f) (nf_relative_path f) (nf_source_path f)
    (nf_size_bytes f) (nf_mtime f) (nf_checksum_sha256 f) (nf_tape_barcode f) (nf_tape_offset f)
    (nf_status f) (nf_cache_path f) created updated.
Definition set_status (status : NasFileState) (f : NasFileRecord) : NasFileRecord :=
  MkNasFile (nf_id f) (nf_dataset_id f) (nf_pool_id f) (nf_relative_path f) (nf_source_path f)
    (nf_size_bytes f) (nf_mtime f) (nf_checksum_sha256 f) (nf_tape_barcode f) (nf_tape_offset f)
    status (nf_cache_path f) (nf_created_at f) (nf_updated_at f).
Definition upsert_nas_file_record (now : datetime) (config : NasFileRecord) : M nas_tables NasFileRecord :=
  parsed ← liftR (NasFileRecord_validate config);
  row ← gets (get_nas_file_record (nf_id parsed));
  let f := set_stamps (py_or (row ≫= nf_created_at) (py_or (nf_created_at parsed) (Some (isoformat now))))
             (py_or (nf_updated_at parsed) (Some (isoformat now))) parsed in
  modify (λ s, with_nas_files (dset (nt_files s) (nf_id parsed) f) s);;
  mret f.
Definition update_nas_file_status (now : datetime) (file_id : string) (status : NasFileState)
    : M nas_tables bool :=
  row ← gets (get_nas_file_record file_id);
  match row with
  | None => mret false
  | Some f =>
      parsed ← liftR (NasFileRecord_validate (set_status status f));
      let f := set_stamps (nf_created_at f) (Some (isoformat now)) (set_status (nf_status parsed) f) in
      modify (λ s, with_nas_files (dset (nt_files s) file_id f) s);;
      mret true
  end.

(** ** Rebuild runs and manifest versions *)
Definition create_rebuild_run (run : CatalogRebuildRunRecord) : M nas_tables CatalogRebuildRunRecord :=
  modify (λ s, with_runs (dset (nt_runs s) (rn_id run) run) s);; mret run.
Definition get_rebuild_run (run_id : string) (s : nas_tables) : option CatalogRebuildRunRecord :=
  dget (nt_runs s) run_id.
(** The updates, a dict in the source, as a function of the row. *)
Definition update_rebuild_run (run_id : string)
    (updates : CatalogRebuildRunRecord → CatalogRebuildRunRecord)
    : M nas_tables (option CatalogRebuildRunRecord) :=
  existing ← gets (get_rebuild_run run_id);
  match existing with
  | None => mret None
  | Some run => modify (λ s, with_runs (dset (nt_runs s) run_id (updates run)) s);; mret (Some (updates run))
  end.
Definition list_rebuild_runs (limit : nat) (s : nas_tables) : list CatalogRebuildRunRecord :=
  take limit (sort_by (λ a b, String.leb (rn_created_at b) (rn_created_at a)) (dvalues (nt_runs s))).

Definition create_manifest_version (v : ManifestVersionRecord) : M nas_tables ManifestVersionRecord :=
  modify (λ s, with_versions (dset (nt_versions s) (vn_id v) v) s);; mret v.
Definition list_manifest_versions (bc : string) (s : nas_tables) : list ManifestVersionRecord :=
  sort_by (λ a b, negb (String.leb (vn_version_ts a) (vn_version_ts b)) ||
                  (bool_decide (vn_version_ts a = vn_version_ts b) &&
                   String.leb (vn_recorded_at b) (vn_recorded_at a)))
    (filter (λ v, vn_barcode v = bc) (dvalues (nt_versions s))).

(** ** The index of logical paths *)
Definition get_path_mapping (logical_path pool_id : string) (s : nas_tables)
    : result (option PathMappingRecord) :=
  match dget (nt_mappings s) (logical_path, pool_id) with
  | None => Ok None
  | Some r => Some <$> PathMappingRecord_validate r
  end.
Definition mapping_row (now : datetime) (row : option PathMappingRecord) (r : PathMappingRecord)
    : PathMappingRecord :=
  let created := default (pm_created_at r) (pm_created_at <$> row) in
  MkPathMapping (match row with Some o => if bool_decide (pm_id o = "") then pm_id r else pm_id o
                 | None => pm_id r end)
    (pm_logical_path r) (pm_pool_id r) (pm_dataset_id r) (pm_primary_barcode r) (pm_all_barcodes r)
    (pm_file_record_id r) (pm_file_state r) (pm_restore_strategy r) (pm_size r) (pm_checksum r)
    (pm_last_seen_at r)
    (if bool_decide (created ≠ "") then created
     else if bool_decide (pm_created_at r ≠ "") then pm_created_at r else iso_z now)
    (iso_z now).
Definition upsert_path_mapping (now : datetime) (record : PathMappingRecord)
    : M nas_tables PathMappingRecord :=
  parsed ← liftR (PathMappingRecord_validate record);
  let key := (pm_logical_path parsed, pm_pool_id parsed) in
  row ← gets (λ s, dget (nt_mappings s) key);
  let r := mapping_row now row parsed in
  modify (λ s, with_mappings (dset (nt_mappings s) key r) s);;
  liftR (PathMappingRecord_validate r).
Definition delete_path_mapping (logical_path pool_id : string) : M nas_tables bool :=
  row ← gets (λ s, dget (nt_mappings s) (logical_path, pool_id));
  match row with
  | None => mret false
  | Some _ => modify (λ s, with_mappings (ddel (nt_mappings s) (logical_path, pool_id)) s);; mret true
  end.
Fixpoint bulk_upsert_loop (now : datetime) (entries : list PathMappingRecord) : M nas_tables unit :=
  match entries with
  | [] => mret tt
  | r :: entries => upsert_path_mapping now r;; bulk_upsert_loop now entries
  end.
Definition bulk_upsert_path_mappings (now : datetime) (entries : list PathMappingRecord)
    : M nas_tables Z :=
  bulk_upsert_loop now entries;; mret (Z.of_nat (length entries)).
Definition count_path_mappings (pool_id dataset_id : string) (s : nas_tables) : Z :=
  Z.of_nat (length (filter (λ r, (pool_id = "" ∨ pm_pool_id r = pool_id) ∧
                                 (dataset_id = "" ∨ pm_dataset_id r = dataset_id))
    (dvalues (nt_mappings s)))).

(** [LIKE] of SQLite: [%] is any text, [_] any character, and ASCII letters are
    compared without their case. *)
Fixpoint like (pattern text : list ascii) : bool :=
  match pattern with
  | [] => match text with [] => true | _ :: _ => false end
  | c :: pattern =>
      if bool_decide (c = "%"%char)
      then (fix anywhere (text : list ascii) : bool :=
              like pattern text || match text with [] => false | _ :: text => anywhere text end) text
      else match text with
           | [] => false
           | d :: text =>
               (bool_decide (c = "_"%char) || bool_decide (upper_ascii c = upper_ascii d)) &&
               like pattern text
           end
  end.
Definition sql_like (pattern text : string) : bool :=
  like (String.list_ascii_of_string pattern) (String.list_ascii_of_string text).
(** [json.dumps] of a list of texts, with the default separators. *)
Definition list_text (l : list string) : string :=
  "[" ++ String.concat ", " ((λ s, String.string_of_list_ascii (print_string s)) <$> l) ++ "]".

Record PathMappingSearchRequest : Type := MkPathSearch {
  ps_prefix : string; ps_contains : string; ps_pool_id : string; ps_dataset_id : string;
  ps_barcode : string; ps_file_state : option NasFileState; ps_limit : nat; ps_offset : nat;
}.
Definition quoted (s : string) : string := String quote (s ++ String quote "").
Definition search_matches (q : PathMappingSearchRequest) (r : PathMappingRecord) : bool :=
  (bool_decide (ps_prefix q = "") || sql_like (ps_prefix q ++ "%") (pm_logical_path r)) &&
  (bool_decide (ps_contains q = "") || sql_like ("%" ++ ps_contains q ++ "%") (pm_logical_path r)) &&
  (bool_decide (ps_pool_id q = "") || bool_decide (pm_pool_id r = ps_pool_id q)) &&
  (bool_decide (ps_dataset_id q = "") || bool_decide (pm_dataset_id r = ps_dataset_id q)) &&
  (bool_decide (ps_barcode q = "") || bool_decide (pm_primary_barcode r = ps_barcode q) ||
   sql_like ("%" ++ quoted (ps_barcode q) ++ "%") (list_text (pm_all_barcodes r))) &&
  match ps_file_state q with Some st => bool_decide (pm_file_state r = st) | None => true end.
Definition search_path_mappings (q : PathMappingSearchRequest) (s : nas_tables)
    : result (list PathMappingRecord) :=
  mapR PathMappingRecord_validate
    (take (ps_limit q) (drop (ps_offset q)
      (sort_by (λ a b, String.leb (pm_logical_path a) (pm_logical_path b))
        (filter (λ r, search_matches q r = true) (dvalues (nt_mappings s)))))).

(** * The service (nas/path_mapping.py) *)
Record PathLookupResult : Type := MkPathLookup {
  pr_logical_path : string; pr_found : bool; pr_pool_id : string; pr_dataset_id : string;
  pr_primary_barcode : string; pr_all_barcodes : list string; pr_file_state : NasFileState;
  pr_restore_strategy : string; pr_size : Z; pr_checksum : string; pr_warnings : list string;
}.
Definition record_file (now : datetime) (r : PathMappingRecord) : M nas_tables PathMappingRecord :=
  upsert_path_mapping now r.
(** The entries kept when the request does not overwrite: those the index has not. *)
Fixpoint absent_entries (entries : list PathMappingRecord) (s : nas_tables)
    : result (list PathMappingRecord) :=
  match entries with
  | [] => Ok []
  | r :: entries =>
      existing ← get_path_mapping (pm_logical_path r) (pm_pool_id r) s;
      rest ← absent_entries entries s;
      Ok (match existing with None => r :: rest | Some _ => rest end)
  end.
Definition bulk_record_files (now : datetime) (entries : list PathMappingRecord)
    (overwrite_existing : bool) : M nas_tables Z :=
  s ← getS;
  entries ← liftR (if overwrite_existing then Ok entries else absent_entries entries s);
  bulk_upsert_path_mappings now entries.
Definition lookup_warnings (r : PathMappingRecord) : list string :=
  ((if bool_decide (pm_file_state r = MISSING_TAPE) then ["missing_tape"] else []) ++
   (if bool_decide (1 < length (pm_all_barcodes r))%nat && bool_decide (strip (pm_restore_strategy r) = "")
    then ["multiple_barcodes_without_restore_strategy"] else []))%list.
Definition lookup_path (logical_path pool_id : string) (s : nas_tables) : result PathLookupResult :=
  record ← get_path_mapping logical_path pool_id s;
  Ok match record with
     | None => MkPathLookup logical_path false pool_id "" "" [] OFFLINE_ON_TAPE "single_tape" 0 "" []
     | Some r =>
         MkPathLookup (pm_logical_path r) true (pm_pool_id r) (pm_dataset_id r) (pm_primary_barcode r)
           (pm_all_barcodes r) (pm_file_state r) (pm_restore_strategy r) (pm_size r) (pm_checksum r)
           (lookup_warnings r)
     end.
Definition with_file_state (st : NasFileState) (r : PathMappingRecord) : PathMappingRecord :=
  MkPathMapping (pm_id r) (pm_logical_path r) (pm_pool_id r) (pm_dataset_id r) (pm_primary_barcode r)
    (pm_all_barcodes r) (pm_file_record_id r) st (pm_restore_strategy r) (pm_size r) (pm_checksum r)
    (pm_last_seen_at r) (pm_created_at r) (pm_updated_at r).
Definition update_file_state (now : datetime) (logical_path pool_id : string) (new_state : NasFileState)
    : M nas_tables bool :=
  s ← getS;
  record ← liftR (get_path_mapping logical_path pool_id s);
  match record with
  | None => mret false
  | Some r => upsert_path_mapping now (with_file_state new_state r);; mret true
  end.
Definition remove_path (logical_path pool_id : string) : M nas_tables bool :=
  delete_path_mapping logical_path pool_id.

Definition STATS_LIMIT : nat := Z.to_nat 10000.
Definition mapping_tapes (rs : list PathMappingRecord) : list string :=
  Capacity.unique (filter (λ b, b ≠ "") (concat ((λ r, pm_primary_barcode r :: pm_all_barcodes r) <$> rs))).
Definition list_tapes_for_pool (pool_id : string) (s : nas_tables) : result (list string) :=
  rs ← search_path_mappings (MkPathSearch "" "" pool_id "" "" None STATS_LIMIT 0) s;
  Ok (sort_by String.leb (mapping_tapes rs)).
Record mapping_stats : Type := MkStats {
  sx_total_files : Z; sx_total_bytes : Z; sx_by_state : dict string Z; sx_tape_count : Z;
  sx_pool_id : string; sx_dataset_id : string;
}.
Definition get_stats (pool_id dataset_id : string) (s : nas_tables) : result mapping_stats :=
  rs ← search_path_mappings (MkPathSearch "" "" pool_id dataset_id "" None STATS_LIMIT 0) s;
  Ok (MkStats (count_path_mappings pool_id dataset_id s) (sum_sizes pm_size rs)
        (foldl (λ d r, let k := enum_value (pm_file_state r) in dset d k (dget_or d k 0 + 1)) [] rs)
        (Z.of_nat (length (mapping_tapes rs))) pool_id dataset_id).
