(* ===== verification/RestorePlanner.v ===== *)
(** Restores of the network-attached front: the plan of
    openblade/nas/restore_planner.py over the records of a pool, and the queries
    of openblade/nas/service.py it makes.

    Of a pool and of a policy only what the planner reads is kept, the default
    policy of the one and the type of the other; a row of nas_file_spans is its
    path and the decoded text of its segments. *)
From stdpp Require Import base list option strings pretty sorting sets.
From Stdlib Require Import Ascii ZArith Lia.
From S2P Require Import Prelude Wp Domain Paths Catalog Capacity Planner Json TapeModels NasTables.
#[local] Open Scope string_scope.
#[local] Open Scope Z_scope.

Record nas_service := NasService {
  sv_tables : nas_tables;
  sv_pools : dict string (option string);
  sv_policies : dict string PolicyType;
  sv_spans : list (string * json);
}.

Record restore_plan_request := RestorePlanRequest {
  rr_pool_id : option string;
  rr_paths : list string;
  rr_destination : string;
  rr_priority : Z;
  rr_allow_parallel : bool;
  rr_max_drives : Z;
}.

Record restore_plan := RestorePlan {
  rp_job_id : string;
  rp_pool_id : option string;
  rp_requested_paths : list string;
  rp_destination : string;
  rp_priority : Z;
  rp_allow_parallel : bool;
  rp_max_drives : Z;
  rp_required_tapes : list string;
  rp_missing_tapes : list string;
  rp_exported_tapes : list string;
  rp_tape_load_order : list string;
  rp_batches_by_tape : dict string (list string);
  rp_parallel_restore_groups : list (list string);
  rp_estimated_tape_swaps : Z;
  rp_estimated_bytes : Z;
  rp_unavailable_files : list string;
  rp_warnings : list string;
  rp_is_safe_to_enqueue : bool;
}.

(** * The service *)
Definition lstrip_slashes (s : string) : string :=
  String.string_of_list_ascii
    (lstrip_chars (λ c, bool_decide (c = "/"%char)) (String.list_ascii_of_string s)).

Definition _normalize_path (path : string) : string :=
  let normalized := lstrip_slashes (posix_path ("/" ++ lstrip_slashes path)) in
  if bool_decide (normalized = ".") then "" else normalized.

Definition record_leb (a b : NasFileRecord) : bool :=
  if bool_decide (nf_relative_path a = nf_relative_path b) then String.leb (nf_id a) (nf_id b)
  else String.leb (nf_relative_path a) (nf_relative_path b).

Definition list_pool_file_records (pool_id : string) (s : nas_tables) : list NasFileRecord :=
  sort_by record_leb
    (concat ((λ d, list_nas_file_records (ds_id d) s) <$> list_nas_datasets (Some pool_id) s)).

(** [loaded_tapes] is given by nobody here. *)
Definition derive_file_state (record : NasFileRecord) : NasFileState :=
  match nf_status record with
  | FS_HYDRATING => FS_HYDRATING
  | FS_FAILED => FS_FAILED
  | CORRUPT => CORRUPT
  | FS_EXPORTED => FS_EXPORTED
  | status => if nf_tape_barcode record then status else MISSING_TAPE
  end.

(** * The planner *)
Definition set_add (x : string) (l : list string) : list string :=
  if bool_decide (x ∈ l) then l else (l ++ [x])%list.
Definition sorted_set (l : list string) : list string :=
  sort_by String.leb (foldl (λ acc x, set_add x acc) [] l).

Definition unavailable_states : list NasFileState := [MISSING_TAPE; FS_FAILED; CORRUPT; FS_EXPORTED].

Definition _resolve_records (pool_id : string) (requested_paths : list string) (s : nas_service)
    : list NasFileRecord :=
  let records := list_pool_file_records pool_id (sv_tables s) in
  match requested_paths with
  | [] => records
  | _ => filter (λ r, _normalize_path (nf_relative_path r) ∈ requested_paths) records
  end.

(** The barcodes of a list of segments, added to those known. *)
Definition add_segments (barcodes : list string) (segments : list json) : list string :=
  foldl (λ acc segment,
    match segment with
    | JObj d => match jget d "barcode" with
                | JStr b => if bool_decide (b = "") then acc else set_add b acc
                | _ => acc
                end
    | _ => acc
    end) barcodes segments.

Definition _span_barcodes_by_path (s : nas_service) : dict string (list string) :=
  foldl (λ spans '(path, segments),
    match segments with
    | JArr l =>
        let key := _normalize_path path in
        dset spans key (add_segments (dget_or spans key []) l)
    | _ => spans
    end) [] (sv_spans s).

(** What the loop over the records has gathered. *)
Record gathered := Gathered {
  ga_batches : dict string (list string);
  ga_counts : dict string Z;
  ga_missing : list string;
  ga_exported : list string;
  ga_unavailable : list string;
  ga_bytes : Z;
}.
Definition nothing_gathered : gathered := Gathered [] [] [] [] [] 0.

Definition add_to_batch (b path : string) (g : gathered) : gathered :=
  Gathered (dset (ga_batches g) b (dget_or (ga_batches g) b [] ++ [path])%list)
    (dset (ga_counts g) b (dget_or (ga_counts g) b 0 + 1))
    (ga_missing g) (ga_exported g) (ga_unavailable g) (ga_bytes g).

(** One tape of a span: another one than the record's, on which the file is not yet. *)
Definition add_span_tape (own path : string) (g : gathered) (b : string) : gathered :=
  if bool_decide (b ≠ own) && bool_decide (path ∉ dget_or (ga_batches g) b []) then add_to_batch b path g
  else g.

Definition restorable (r : NasFileRecord) : option string :=
  if bool_decide (derive_file_state r ∈ [OFFLINE_ON_TAPE; ONLINE_CACHED]) then py_or (nf_tape_barcode r) None
  else None.

Definition add_unavailable (path : string) (g : gathered) : gathered :=
  Gathered (ga_batches g) (ga_counts g) (ga_missing g) (ga_exported g) (ga_unavailable g ++ [path])%list
    (ga_bytes g).
Definition add_bytes (n : Z) (g : gathered) : gathered :=
  Gathered (ga_batches g) (ga_counts g) (ga_missing g) (ga_exported g) (ga_unavailable g) (ga_bytes g + n).
Definition add_missing (b : string) (g : gathered) : gathered :=
  Gathered (ga_batches g) (ga_counts g) (set_add b (ga_missing g)) (ga_exported g) (ga_unavailable g)
    (ga_bytes g).
Definition add_exported (b : string) (g : gathered) : gathered :=
  Gathered (ga_batches g) (ga_counts g) (ga_missing g) (set_add b (ga_exported g)) (ga_unavailable g)
    (ga_bytes g).

Definition gather_record (spans : dict string (list string)) (g : gathered) (r : NasFileRecord) : gathered :=
  let path := _normalize_path (nf_relative_path r) in
  let state := derive_file_state r in
  let g := if bool_decide (state ∈ unavailable_states) then add_unavailable path g
           else add_bytes (nf_size_bytes r) g in
  match restorable r with
  | Some own => foldl (add_span_tape own path) (add_to_batch own path g) (dget_or spans path [])
  | None =>
      match state, py_or (nf_tape_barcode r) None with
      | MISSING_TAPE, b => add_missing (default "<unknown>" b) g
      | FS_EXPORTED, Some b => add_exported b g
      | _, _ => g
      end
  end.

Definition gather (spans : dict string (list string)) (records : list NasFileRecord) : gathered :=
  foldl (gather_record spans) nothing_gathered records.

(** Most files first, then by barcode. *)
Definition count_leb (counts : dict string Z) (a b : string) : bool :=
  let ca := dget_or counts a 0 in
  let cb := dget_or counts b 0 in
  (cb <? ca) || (bool_decide (ca = cb) && String.leb a b).

Definition on_required (counts : dict string Z) (r : NasFileRecord) : bool :=
  match nf_tape_barcode r with Some b => dmem counts b | None => false end.

(** The one dataset of the records on the tapes, if there is just one. *)
Definition only_dataset (records : list NasFileRecord) (counts : dict string Z) (s : nas_service)
    : option NasDataset :=
  match foldl (λ acc x, set_add x acc) []
    (nf_dataset_id <$> filter (λ r, on_required counts r) records) with
  | [id] => get_nas_dataset id (sv_tables s)
  | _ => None
  end.

Definition _build_tape_load_order (pool_id : string) (records : list NasFileRecord)
    (counts : dict string Z) (s : nas_service) : list string :=
  match counts with
  | [] => []
  | _ =>
      let by_count := sort_by (count_leb counts) (dkeys counts) in
      let policy := match dget (sv_pools s) pool_id with
                    | Some (Some id) => if bool_decide (id = "") then None else dget (sv_policies s) id
                    | _ => None
                    end in
      match policy with
      | Some CRITICAL_SEQUENTIAL =>
          match only_dataset records counts s with
          | Some d =>
              match ds_tape_set d with
              | [] => sort_by String.leb (dkeys counts)
              | tapes =>
                  let ordered := filter (λ b, dmem counts b = true) tapes in
                  (ordered ++ sort_by String.leb (filter (λ b, b ∉ ordered) (dkeys counts)))%list
              end
          | None => sort_by String.leb (dkeys counts)
          end
      | _ => by_count
      end
  end.

(** [range(0, len(l), n)] and the slices: [n] at a time. *)
Fixpoint slices (fuel : nat) (n : nat) (l : list string) : list (list string) :=
  match fuel, l with
  | S fuel, _ :: _ => take n l :: slices fuel n (drop n l)
  | _, _ => []
  end.

(** [ceil(a / b)] of two counts, [b] positive: exact below 2^53. *)
Definition ceil_div (a b : Z) : Z := - ((- a) / b).

Definition drives_used (rq : restore_plan_request) : Z :=
  if rr_allow_parallel rq && (1 <? rr_max_drives rq) then rr_max_drives rq else 1.

Definition parallel_groups (rq : restore_plan_request) (order : list string) : list (list string) :=
  if rr_allow_parallel rq && (1 <? rr_max_drives rq)
  then slices (length order) (Z.to_nat (rr_max_drives rq)) order
  else (λ b, [b]) <$> order.

Definition comma_list (l : list string) : string := String.concat ", " l.
Definition len {A} (l : list A) : Z := Z.of_nat (length l).

Definition warn_if (b : bool) (text : string) : list string := if b then [text] else [].
Definition plan_warnings (missing exported unavailable : list string) (swaps : Z) : list string :=
  app (warn_if (bool_decide (missing ≠ []))
         (pretty (len missing) ++ " tape(s) required but not available: " ++ comma_list missing))
  (app (warn_if (bool_decide (exported ≠ []))
          (pretty (len exported) ++ " tape(s) have been exported: " ++ comma_list exported))
  (app (warn_if (bool_decide (unavailable ≠ []))
          (pretty (len unavailable) ++ " file(s) cannot be restored due to unavailable tapes"))
       (warn_if (3 <? swaps)
          ("This restore requires " ++ pretty swaps ++ " tape swaps. Consider restoring in batches.")))).

Definition plan (rq : restore_plan_request) (s : nas_service) : result restore_plan :=
  match rr_pool_id rq with
  | None => Raise ValueError
  | Some pool_id =>
      match dget (sv_pools s) pool_id with
      | None => Raise KeyError
      | Some _ =>
          let requested := _normalize_path <$> rr_paths rq in
          let records := _resolve_records pool_id requested s in
          let g := gather (_span_barcodes_by_path s) records in
          let order := _build_tape_load_order pool_id records (ga_counts g) s in
          let groups := parallel_groups rq order in
          let swaps := Z.max (ceil_div (len order) (drives_used rq) - 1) 0 in
          let missing := sort_by String.leb (ga_missing g) in
          let exported := sort_by String.leb (ga_exported g) in
          let unavailable := sorted_set (ga_unavailable g) in
          Ok (RestorePlan "" (Some pool_id) requested (rr_destination rq) (rr_priority rq)
                (rr_allow_parallel rq) (rr_max_drives rq) order missing exported order (ga_batches g) groups
                swaps (ga_bytes g) unavailable (plan_warnings missing exported unavailable swaps)
                (bool_decide (missing = []) && bool_decide (exported = []) && bool_decide (unavailable = [])))
      end
  end.

(** * What a plan promises *)
Definition logical_path (r : NasFileRecord) : string := _normalize_path (nf_relative_path r).

(** The records of the pool at the paths asked for, of all paths if there are none. *)
Definition asked (rq : restore_plan_request) (pool : string) (s : nas_service) (r : NasFileRecord) : Prop :=
  r ∈ dvalues (nt_files (sv_tables s)) ∧
  (∃ row, row ∈ dvalues (nt_datasets (sv_tables s)) ∧ ds_id (dr_dataset row) = nf_dataset_id r ∧
    ds_pool_id (dr_dataset row) = Some pool) ∧
  (rr_paths rq = [] ∨ ∃ p, p ∈ rr_paths rq ∧ _normalize_path p = logical_path r).

(** Failed, corrupt, exported or missing; one without a tape is missing, unless it
    is being hydrated. *)
Definition lost (r : NasFileRecord) : Prop :=
  nf_status r ∈ [FS_FAILED; CORRUPT; FS_EXPORTED; MISSING_TAPE] ∨
  nf_tape_barcode r = None ∧ nf_status r ≠ FS_HYDRATING.
#[export] Instance lost_dec r : Decision (lost r).
Proof. unfold lost. apply _. Defined.

(** A record that is cached or on tape, on a tape that has a name. *)
Definition on_tape (r : NasFileRecord) (own : string) : Prop :=
  nf_status r ∈ [ONLINE_CACHED; OFFLINE_ON_TAPE] ∧ nf_tape_barcode r = Some own ∧ own ≠ "".

(** A stored span of the path has a segment on the tape. *)
Definition spans_over (s : nas_service) (path b : string) : Prop :=
  ∃ p segments d, (p, JArr segments) ∈ sv_spans s ∧ _normalize_path p = path ∧ JObj d ∈ segments ∧
    jget d "barcode" = JStr b ∧ b ≠ "".

(** The file of a record is restored from its tape and the other tapes of its span. *)
Definition restored_from (s : nas_service) (r : NasFileRecord) (b : string) : Prop :=
  ∃ own, on_tape r own ∧ (b = own ∨ spans_over s (logical_path r) b).

Definition batch (d : dict string (list string)) (b : string) : list string := dget_or d b [].
(** The first tape has more files, or as many and comes first by name. *)
Definition fuller (d : dict string (list string)) (a b : string) : Prop :=
  (length (batch d b) < length (batch d a))%nat ∨
  length (batch d a) = length (batch d b) ∧ String.leb a b = true.
Definition by_name (a b : string) : Prop := String.leb a b = true.

Definition critical_pool (s : nas_service) (pool : string) : Prop :=
  ∃ id, dget (sv_pools s) pool = Some (Some id) ∧ id ≠ "" ∧ dget (sv_policies s) id = Some CRITICAL_SEQUENTIAL.
Definition tape_sets_ok (s : nas_service) : Prop :=
  ∀ id d, get_nas_dataset id (sv_tables s) = Some d → NoDup (ds_tape_set d).
(** Rows are told apart by their ids. *)
Definition ids_unique (s : nas_service) : Prop :=
  NoDup ((λ row, ds_id (dr_dataset row)) <$> dvalues (nt_datasets (sv_tables s))) ∧
  NoDup (nf_id <$> dvalues (nt_files (sv_tables s))).

Record plan_fits (rq : restore_plan_request) (pool : string) (s : nas_service) (rs : list NasFileRecord)
    (pl : restore_plan) : Prop := {
  pf_asked : ∀ r, r ∈ rs ↔ asked rq pool s r;
  pf_each : ids_unique s → NoDup rs;
  pf_batches : ∀ b p, p ∈ batch (rp_batches_by_tape pl) b ↔
    ∃ r, r ∈ rs ∧ logical_path r = p ∧ restored_from s r b;
  pf_order : ∀ b, b ∈ rp_tape_load_order pl ↔ batch (rp_batches_by_tape pl) b ≠ [];
  pf_once : tape_sets_ok s → NoDup (rp_tape_load_order pl);
  pf_fullest : ¬ critical_pool s pool →
    StronglySorted (fuller (rp_batches_by_tape pl)) (rp_tape_load_order pl);
  pf_sequential : critical_pool s pool → ∀ id d,
    get_nas_dataset id (sv_tables s) = Some d → ds_tape_set d ≠ [] →
    (∀ r b, r ∈ rs → nf_tape_barcode r = Some b → b ∈ rp_tape_load_order pl → nf_dataset_id r = id) →
    ∃ rest, rp_tape_load_order pl = (filter (λ b, b ∈ rp_tape_load_order pl) (ds_tape_set d) ++ rest)%list ∧
      StronglySorted by_name rest;
  pf_groups : concat (rp_parallel_restore_groups pl) = rp_tape_load_order pl ∧
    Forall (λ g, 1 ≤ len g ≤ drives_used rq) (rp_parallel_restore_groups pl);
  pf_swaps : rp_estimated_tape_swaps pl = Z.max (len (rp_parallel_restore_groups pl) - 1) 0;
  pf_bytes : rp_estimated_bytes pl = sum_sizes nf_size_bytes (filter (λ r, ¬ lost r) rs);
  pf_unavailable : ∀ p, p ∈ rp_unavailable_files pl ↔ ∃ r, r ∈ rs ∧ logical_path r = p ∧ lost r;
  pf_safe : rp_is_safe_to_enqueue pl = true ↔ ∀ r, r ∈ rs → ¬ lost r;
}.

(** Names the lemmas use. *)
Definition available (r : NasFileRecord) : bool := bool_decide (derive_file_state r ∉ unavailable_states).
Definition spans_of (s : nas_service) (path : string) : list string :=
  dget_or (_span_barcodes_by_path s) path [].

(** * Lemmas *)
Lemma available_lost r : available r = true ↔ ¬ lost r.
Proof.
  unfold available, lost, derive_file_state. rewrite bool_decide_eq_true.
  destruct r as [? ? ? ? ? ? ? ? tape ? st ? ? ?]; simpl. destruct st, tape; set_solver.
Qed.

Lemma unavailable_lost r : available r = false ↔ lost r.
Proof.
  pose proof (available_lost r). destruct (available r), (decide (lost r)); naive_solver.
Qed.

Lemma restorable_spec r own : restorable r = Some own ↔ on_tape r own.
Proof.
  unfold restorable, on_tape, derive_file_state.
  destruct r as [? ? ? ? ? ? ? ? tape ? st ? ? ?]; simpl.
  destruct st, tape as [[|c t]|]; simpl; set_solver.
Qed.

Lemma elem_of_concat {A} (x : A) ls : x ∈ concat ls ↔ ∃ l, x ∈ l ∧ l ∈ ls.
Proof.
  induction ls as [|l ls IH]; simpl; [set_solver|]. rewrite elem_of_app, IH. set_solver.
Qed.

Lemma records_spec rq pool s r :
  r ∈ _resolve_records pool (_normalize_path <$> rr_paths rq) s ↔ asked rq pool s r.
Proof.
  assert (r ∈ list_pool_file_records pool (sv_tables s) ↔
    r ∈ dvalues (nt_files (sv_tables s)) ∧
    (∃ row, row ∈ dvalues (nt_datasets (sv_tables s)) ∧ ds_id (dr_dataset row) = nf_dataset_id r ∧
      ds_pool_id (dr_dataset row) = Some pool)) as Hall.
  { unfold list_pool_file_records, list_nas_datasets, list_nas_file_records.
    rewrite elem_of_sort_by. rewrite elem_of_concat. split.
    - intros (l & Hr & (d & -> & Hd)%list_elem_of_fmap).
      rewrite elem_of_sort_by, list_elem_of_filter, list_elem_of_fmap in Hd.
      rewrite elem_of_sort_by, list_elem_of_filter in Hr. naive_solver.
    - intros (Hr & row & Hrow & Hd & Hp). eexists. split; [|apply list_elem_of_fmap_2].
      + by apply elem_of_sort_by, list_elem_of_filter.
      + rewrite elem_of_sort_by, list_elem_of_filter. split; [exact Hp|]. by apply list_elem_of_fmap_2. }
  unfold _resolve_records, asked. fold (logical_path r).
  destruct (rr_paths rq) as [|p ps]; csimpl; [rewrite Hall; naive_solver|].
  rewrite list_elem_of_filter, Hall. change (_normalize_path p :: _) with (_normalize_path <$> (p :: ps)).
  rewrite list_elem_of_fmap. fold (logical_path r). naive_solver.
Qed.

Lemma elem_set_add x y l : x ∈ set_add y l ↔ x = y ∨ x ∈ l.
Proof. unfold set_add. case_bool_decide; set_solver. Qed.

Lemma elem_sorted_set x l : x ∈ sorted_set l ↔ x ∈ l.
Proof.
  unfold sorted_set. rewrite elem_of_sort_by.
  assert (∀ acc, x ∈ foldl (λ acc x, set_add x acc) acc l ↔ x ∈ acc ∨ x ∈ l) as H.
  { induction l as [|y l IH]; intros acc; simpl; [set_solver|]. rewrite IH, elem_set_add. set_solver. }
  rewrite H. set_solver.
Qed.

Lemma records_once rq pool s : ids_unique s →
  NoDup (_resolve_records pool (_normalize_path <$> rr_paths rq) s).
Proof.
  intros [Hd Hf%NoDup_fmap_1]. assert (NoDup (list_pool_file_records pool (sv_tables s))) as Hall.
  { unfold list_pool_file_records. rewrite sort_by_perm. unfold list_nas_datasets. set (ds := sort_by _ _).
    assert (NoDup (ds_id <$> ds)) as Hds.
    { subst ds. rewrite sort_by_perm. eapply sublist_NoDup; [exact Hd|].
      rewrite (list_fmap_compose dr_dataset ds_id). apply fmap_sublist, sublist_filter. }
    clearbody ds. induction ds as [|d ds IH]; csimpl; [constructor|]. apply NoDup_cons in Hds as [Hn Hds].
    apply NoDup_app. split; [|split; [|by apply IH]].
    - unfold list_nas_file_records. rewrite sort_by_perm. by apply NoDup_filter.
    - intros r Hr (l & Hr' & (d' & -> & Hd')%list_elem_of_fmap)%elem_of_concat. apply Hn.
      unfold list_nas_file_records in *. rewrite elem_of_sort_by, list_elem_of_filter in Hr, Hr'.
      destruct Hr as [<- _], Hr' as [-> _]. by apply list_elem_of_fmap_2. }
  unfold _resolve_records. destruct (_normalize_path <$> rr_paths rq); [done|]. by apply NoDup_filter.
Qed.

Lemma add_segments_spec b acc l :
  b ∈ add_segments acc l ↔ b ∈ acc ∨ ∃ d, JObj d ∈ l ∧ jget d "barcode" = JStr b ∧ b ≠ "".
Proof.
  unfold add_segments. revert acc. induction l as [|x l IH]; intros acc; simpl; [set_solver|].
  rewrite IH. clear IH. assert ((∃ d, JObj d ∈ x :: l ∧ jget d "barcode" = JStr b ∧ b ≠ "") ↔
    (∃ d, x = JObj d ∧ jget d "barcode" = JStr b ∧ b ≠ "") ∨ ∃ d, JObj d ∈ l ∧ jget d "barcode" = JStr b ∧ b ≠ "") as ->.
  { setoid_rewrite elem_of_cons. split; [intros (d & [<-|?] & ?) | intros [(d & -> & ?)|(d & ? & ?)]]; eauto. }
  rewrite (or_assoc (b ∈ acc)). apply or_iff_compat_r.
  destruct x as [| | | | | |d]; try (split; [by left|by intros [?|(? & ? & ?)]]).
  assert ((∃ d0, JObj d = JObj d0 ∧ jget d0 "barcode" = JStr b ∧ b ≠ "") ↔ jget d "barcode" = JStr b ∧ b ≠ "") as ->.
  { split; [by intros (? & [= <-] & ?)|eauto]. }
  destruct (jget d "barcode") as [| | | |t| |]; try (split; [by left|by intros [?|[? ?]]]).
  case_bool_decide; [naive_solver|]. rewrite elem_set_add. naive_solver.
Qed.

Lemma spans_spec s path b : b ∈ spans_of s path ↔ spans_over s path b.
Proof.
  unfold spans_of, spans_over, _span_barcodes_by_path.
  assert (∀ l acc, b ∈ dget_or (foldl (λ spans '(path, segments),
    match segments with
    | JArr l => let key := _normalize_path path in dset spans key (add_segments (dget_or spans key []) l)
    | _ => spans
    end) acc l) path [] ↔ b ∈ dget_or acc path [] ∨
    ∃ p segments d, (p, JArr segments) ∈ l ∧ _normalize_path p = path ∧ JObj d ∈ segments ∧
      jget d "barcode" = JStr b ∧ b ≠ "") as H; [|rewrite H; set_solver].
  induction l as [|[p x] l IH]; intros acc; simpl; [set_solver|].
  rewrite IH. setoid_rewrite elem_of_cons. destruct x as [| | | | |l'|]; try naive_solver.
  unfold dget_or at 1. rewrite dget_dset. case_decide as Hp; simpl; [|naive_solver].
  rewrite add_segments_spec, Hp. naive_solver.
Qed.

(** ** The batches *)
Section batches.
Implicit Types (g : gathered) (b p own : string).

Lemma batch_dset d b b' l : batch (dset d b' l) b = if decide (b' = b) then l else batch d b.
Proof. unfold batch, dget_or. rewrite dget_dset. by case_decide. Qed.

Lemma add_to_batch_spec b' path g b p :
  p ∈ batch (ga_batches (add_to_batch b' path g)) b ↔
  p ∈ batch (ga_batches g) b ∨ b = b' ∧ p = path.
Proof. simpl. rewrite batch_dset. case_decide; subst; unfold batch; set_solver. Qed.

Lemma add_span_tape_spec own path g b' b p :
  p ∈ batch (ga_batches (add_span_tape own path g b')) b ↔
  p ∈ batch (ga_batches g) b ∨ b = b' ∧ b' ≠ own ∧ p = path.
Proof.
  unfold add_span_tape. case_bool_decide as Hne; simpl; [|set_solver].
  case_bool_decide as Hin; simpl.
  - rewrite batch_dset. case_decide; subst; unfold batch; set_solver.
  - unfold batch in *. set_solver.
Qed.

Lemma span_tapes_spec own path l g b p :
  p ∈ batch (ga_batches (foldl (add_span_tape own path) g l)) b ↔
  p ∈ batch (ga_batches g) b ∨ b ∈ l ∧ b ≠ own ∧ p = path.
Proof.
  revert g. induction l as [|b' l IH]; intros g; simpl; [set_solver|].
  rewrite IH, add_span_tape_spec, elem_of_cons. naive_solver.
Qed.

Lemma gather_record_spec spans g r b p :
  p ∈ batch (ga_batches (gather_record spans g r)) b ↔
  p ∈ batch (ga_batches g) b ∨
  logical_path r = p ∧ ∃ own, restorable r = Some own ∧ (b = own ∨ b ∈ dget_or spans (logical_path r) []).
Proof.
  unfold gather_record. fold (logical_path r). set (g1 := if bool_decide _ then _ else _).
  assert (ga_batches g1 = ga_batches g) as Hg1 by (subst g1; by case_bool_decide).
  clearbody g1.
  destruct (restorable r) as [own|].
  - rewrite span_tapes_spec, add_to_batch_spec, Hg1. destruct (decide (b = own)); naive_solver.
  - assert (ga_batches (match derive_file_state r, py_or (nf_tape_barcode r) None with
      | MISSING_TAPE, b => add_missing (default "<unknown>" b) g1
      | FS_EXPORTED, Some b => add_exported b g1 | _, _ => g1 end) = ga_batches g) as ->
      by by destruct (derive_file_state r), (py_or (nf_tape_barcode r) None).
    naive_solver.
Qed.

Lemma gather_spec spans rs b p :
  p ∈ batch (ga_batches (gather spans rs)) b ↔
  ∃ r, r ∈ rs ∧ logical_path r = p ∧
    ∃ own, restorable r = Some own ∧ (b = own ∨ b ∈ dget_or spans (logical_path r) []).
Proof.
  unfold gather. assert (∀ g, p ∈ batch (ga_batches (foldl (gather_record spans) g rs)) b ↔
    p ∈ batch (ga_batches g) b ∨ ∃ r, r ∈ rs ∧ logical_path r = p ∧
    ∃ own, restorable r = Some own ∧ (b = own ∨ b ∈ dget_or spans (logical_path r) [])) as H.
  { induction rs as [|r rs IH]; intros g; simpl; [set_solver|].
    rewrite IH, gather_record_spec. setoid_rewrite elem_of_cons. naive_solver. }
  rewrite H. unfold batch. set_solver.
Qed.

(** Every count is the length of a batch that is not empty. *)
Definition counted g : Prop :=
  dict_wf (ga_counts g) ∧ (∀ b, b ∈ dkeys (ga_counts g) ↔ batch (ga_batches g) b ≠ []) ∧
  ∀ b, dget_or (ga_counts g) b 0 = len (batch (ga_batches g) b).

Lemma counted_add b path g : counted g → counted (add_to_batch b path g).
Proof.
  intros (Hwf & Hk & Hc). split; [by apply dict_wf_dset|]. split; intros b'; simpl; rewrite batch_dset.
  - assert (b' ∈ dkeys (dset (ga_counts g) b (dget_or (ga_counts g) b 0 + 1)) ↔ b' = b ∨ b' ∈ dkeys (ga_counts g)) as ->.
    { unfold dkeys. destruct (dget (ga_counts g) b) as [n|] eqn:Hb.
      - rewrite dkeys_dset_in by eauto. split; [by right|]. intros [->|?]; [|done].
        apply dget_Some_elem in Hb. apply list_elem_of_fmap. by exists (b, n).
      - rewrite dset_notin, fmap_app, elem_of_app by done. csimpl. set_solver. }
    rewrite Hk. case_decide; subst; [|naive_solver]. split; [|by left]. intros _ Hnil. by apply app_eq_nil in Hnil as [_ ?].
  - unfold dget_or at 1. rewrite dget_dset. case_decide; subst; simpl; [|apply Hc].
    rewrite Hc. fold (batch (ga_batches g) b'). unfold len. rewrite length_app. simpl. lia.
Qed.

Lemma counted_gather spans rs : counted (gather spans rs).
Proof.
  unfold gather. assert (∀ g, counted g → counted (foldl (gather_record spans) g rs)) as H.
  { induction rs as [|r rs IH]; intros g Hg; simpl; [done|]. apply IH. unfold gather_record.
    set (g1 := if bool_decide _ then _ else _). assert (counted g1) as Hg1 by (subst g1; by case_bool_decide).
    clearbody g1. destruct (restorable r) as [own|].
    - apply (counted_add own (_normalize_path (nf_relative_path r))) in Hg1. revert Hg1.
      generalize (add_to_batch own (_normalize_path (nf_relative_path r)) g1).
      induction (dget_or spans _ []) as [|b l IHl]; intros g2 Hg2; simpl; [done|].
      apply IHl. unfold add_span_tape. destruct (_ && _); [by apply counted_add|done].
    - by destruct (derive_file_state r), (py_or (nf_tape_barcode r) None). }
  apply H. split; [constructor|]. split; intros b; simpl; unfold batch; [set_solver|done].
Qed.

(** ** What is counted *)
Definition tallied (rs : list NasFileRecord) g : Prop :=
  ga_bytes g = sum_sizes nf_size_bytes (filter (λ r, available r) rs) ∧
  ga_unavailable g = logical_path <$> filter (λ r, negb (available r)) rs ∧
  ((∀ r, r ∈ rs → available r = true) → ga_missing g = [] ∧ ga_exported g = []).

Lemma span_tapes_rest own path l g :
  let g' := foldl (add_span_tape own path) g l in
  ga_bytes g' = ga_bytes g ∧ ga_unavailable g' = ga_unavailable g ∧ ga_missing g' = ga_missing g ∧
  ga_exported g' = ga_exported g.
Proof.
  revert g. induction l as [|b l IH]; intros g; [done|]. simpl. destruct (IH (add_span_tape own path g b)) as (-> & -> & -> & ->).
  unfold add_span_tape. by destruct (_ && _).
Qed.

Lemma gather_record_rest spans g r :
  let g' := gather_record spans g r in
  ga_bytes g' = (if available r then ga_bytes g + nf_size_bytes r else ga_bytes g) ∧
  ga_unavailable g' = (if available r then ga_unavailable g else ga_unavailable g ++ [logical_path r])%list ∧
  (available r = true → ga_missing g' = ga_missing g ∧ ga_exported g' = ga_exported g).
Proof.
  cbn zeta. unfold gather_record, available. fold (logical_path r).
  destruct (restorable r) as [own|] eqn:Hr.
  - destruct (span_tapes_rest own (logical_path r) (dget_or spans (logical_path r) [])
      (add_to_batch own (logical_path r)
        (if bool_decide (derive_file_state r ∈ unavailable_states) then add_unavailable (logical_path r) g
         else add_bytes (nf_size_bytes r) g))) as (-> & -> & -> & ->).
    destruct (derive_file_state r); simpl; split_and!; done.
  - destruct (derive_file_state r), (py_or (nf_tape_barcode r) None); simpl; split_and!; done.
Qed.

Lemma filter_one {A} (f : A → bool) x : filter f [x] = if f x then [x] else [].
Proof.
  rewrite filter_cons. destruct (decide (f x)) as [H|H]; destruct (f x); done.
Qed.

Lemma sum_sizes_snoc (l : list NasFileRecord) r :
  sum_sizes nf_size_bytes (l ++ [r]) = sum_sizes nf_size_bytes l + nf_size_bytes r.
Proof. unfold sum_sizes. induction l as [|x l IH]; csimpl; [lia|]. rewrite IH. lia. Qed.

Lemma tallied_gather spans rs : tallied rs (gather spans rs).
Proof.
  induction rs as [|r rs (Hb & Hu & Hm)] using rev_ind; [done|].
  unfold gather. rewrite foldl_app. simpl. fold (gather spans rs).
  destruct (gather_record_rest spans (gather spans rs) r) as (Hb' & Hu' & Hm').
  unfold tallied.
  rewrite Hb', Hu', Hb, Hu, !filter_app, (filter_one available), (filter_one (λ r, negb (available r))).
  split_and!.
  - destruct (available r); [by rewrite sum_sizes_snoc | by rewrite app_nil_r].
  - destruct (available r); simpl; [by rewrite app_nil_r | by rewrite fmap_app].
  - intros Hall. destruct Hm' as [-> ->]; [apply Hall; set_solver|]. apply Hm. intros r' Hr'. apply Hall. set_solver.
Qed.
End batches.

(** ** The order of the tapes *)
Lemma dmem_keys {V} (d : dict string V) b : dmem d b = true ↔ b ∈ dkeys d.
Proof.
  unfold dmem, dkeys. destruct (dget d b) eqn:Hd.
  - split; [|done]. intros _. apply dget_Some_elem in Hd. apply list_elem_of_fmap. by eexists (_, _).
  - split; [done|]. by apply dget_None in Hd.
Qed.

Lemma by_name_sorted l : StronglySorted by_name (sort_by String.leb l).
Proof. apply (sort_by_sorted String.leb); [apply String.leb_total | apply string_leb_trans]. Qed.

Lemma count_leb_total counts a b : count_leb counts a b = true ∨ count_leb counts b a = true.
Proof.
  unfold count_leb. destruct (Z.lt_trichotomy (dget_or counts a 0) (dget_or counts b 0)) as [H|[H|H]].
  - right. apply Z.ltb_lt in H. by rewrite H.
  - rewrite H, Z.ltb_irrefl, bool_decide_true by done. apply String.leb_total.
  - left. apply Z.ltb_lt in H. by rewrite H.
Qed.

Lemma count_leb_spec counts a b : count_leb counts a b = true ↔
  dget_or counts b 0 < dget_or counts a 0 ∨ dget_or counts a 0 = dget_or counts b 0 ∧ String.leb a b = true.
Proof. unfold count_leb. by rewrite orb_true_iff, andb_true_iff, Z.ltb_lt, bool_decide_eq_true. Qed.

Lemma count_leb_trans counts a b c :
  count_leb counts a b = true → count_leb counts b c = true → count_leb counts a c = true.
Proof.
  rewrite !count_leb_spec. intros [H|[H Hs]] [H'|[H' Hs']]; [left; lia..|].
  right. split; [lia|]. by eapply string_leb_trans.
Qed.

Lemma by_count_sorted counts l : StronglySorted (λ a b, count_leb counts a b = true) (sort_by (count_leb counts) l).
Proof. apply (sort_by_sorted (count_leb counts)); [apply count_leb_total | apply count_leb_trans]. Qed.

Lemma load_order_spec pool rs counts s : dict_wf counts →
  (∀ b, b ∈ _build_tape_load_order pool rs counts s ↔ b ∈ dkeys counts) ∧
  (tape_sets_ok s → NoDup (_build_tape_load_order pool rs counts s)).
Proof.
  intros Hwf. unfold _build_tape_load_order.
  assert (∀ le, (∀ b, b ∈ sort_by le (dkeys counts) ↔ b ∈ dkeys counts) ∧
    (tape_sets_ok s → NoDup (sort_by le (dkeys counts)))) as Hsort.
  { intros le. split; [intros b; by rewrite elem_of_sort_by|]. intros _. by rewrite sort_by_perm. }
  destruct counts as [|kv counts']; [split; [done|constructor]|]. set (counts := kv :: counts') in *.
  destruct (match dget (sv_pools s) pool with Some (Some id) => _ | _ => None end) as [[]|]; try apply Hsort.
  unfold only_dataset. destruct (foldl _ _ _) as [|id [|]]; try apply Hsort.
  destruct (get_nas_dataset id _) as [d|] eqn:Hd; [|apply Hsort].
  destruct (ds_tape_set d) as [|t ts] eqn:Hts; [apply Hsort|]. split.
  - intros b. rewrite elem_of_app, elem_of_sort_by, !list_elem_of_filter, dmem_keys.
    destruct (decide (b ∈ t :: ts)); naive_solver.
  - intros Hok. specialize (Hok id d Hd). rewrite Hts in Hok. apply NoDup_app. split_and!.
    + by apply NoDup_filter.
    + intros b Hb. rewrite elem_of_sort_by, list_elem_of_filter. by intros [? _].
    + rewrite sort_by_perm. by apply NoDup_filter.
Qed.

(** The policy the order is made under. *)
Lemma critical_policy s pool :
  match (match dget (sv_pools s) pool with
         | Some (Some id) => if bool_decide (id = "") then None else dget (sv_policies s) id
         | _ => None
         end) with
  | Some CRITICAL_SEQUENTIAL => critical_pool s pool
  | _ => ¬ critical_pool s pool
  end.
Proof.
  unfold critical_pool. destruct (dget (sv_pools s) pool) as [[id|]|] eqn:Hp; [|naive_solver..].
  case_bool_decide; [naive_solver|]. destruct (dget (sv_policies s) id) as [[]|] eqn:Hq; naive_solver.
Qed.

Lemma fullest_first pool rs counts s : ¬ critical_pool s pool →
  StronglySorted (λ a b, count_leb counts a b = true) (_build_tape_load_order pool rs counts s).
Proof.
  intros Hc. unfold _build_tape_load_order. destruct counts as [|kv counts']; [constructor|].
  pose proof (critical_policy s pool) as H.
  destruct (match dget (sv_pools s) pool with Some (Some id) => _ | _ => None end) as [[]|];
    try apply by_count_sorted. by destruct Hc.
Qed.

Lemma set_add_same id l : (∀ x, x ∈ l → x = id) → l ≠ [] → foldl (λ acc x, set_add x acc) [] l = [id].
Proof.
  intros Hall Hne. destruct l as [|x l]; [done|]. assert (x = id) as -> by (apply Hall; by left). simpl.
  change (set_add id []) with [id]. assert (∀ x, x ∈ l → x = id) as Hl by (intros; apply Hall; by right).
  clear -Hl. induction l as [|x l IH]; [done|]. simpl. assert (x = id) as -> by (apply Hl; by left).
  unfold set_add at 2. rewrite bool_decide_true by by left. apply IH. intros; apply Hl. by right.
Qed.

Lemma sequential_order pool rs counts s id d : dict_wf counts → critical_pool s pool →
  get_nas_dataset id (sv_tables s) = Some d → ds_tape_set d ≠ [] →
  (∀ r b, r ∈ rs → nf_tape_barcode r = Some b → b ∈ dkeys counts → nf_dataset_id r = id) →
  (∀ b, b ∈ dkeys counts → ∃ r b, r ∈ rs ∧ nf_tape_barcode r = Some b ∧ b ∈ dkeys counts) →
  ∃ rest, _build_tape_load_order pool rs counts s = (filter (λ b, b ∈ dkeys counts) (ds_tape_set d) ++ rest)%list ∧
    StronglySorted by_name rest.
Proof.
  intros Hwf Hc Hd Hts Hone Hsome. unfold _build_tape_load_order.
  destruct counts as [|[b n] counts'].
  { exists []. split; [|constructor]. rewrite app_nil_r. symmetry. apply elem_of_nil_inv.
    intros x [Hx _]%list_elem_of_filter. by apply elem_of_nil in Hx. }
  set (counts := (b, n) :: counts') in *. pose proof (critical_policy s pool) as H.
  destruct (match dget (sv_pools s) pool with Some (Some id) => _ | _ => None end) as [[]|]; try done.
  unfold only_dataset. rewrite (set_add_same id).
  - rewrite Hd. destruct (ds_tape_set d) as [|t ts] eqn:Htape; [done|]. eexists. split; [|apply by_name_sorted].
    f_equal. apply list_filter_iff. intros x. apply dmem_keys.
  - intros x (r & -> & [Hr Hin]%list_elem_of_filter)%list_elem_of_fmap. unfold on_required in Hr.
    destruct (nf_tape_barcode r) as [b'|] eqn:Hb; [|done]. eapply Hone; [done..|]. apply dmem_keys. by destruct (dmem counts b').
  - destruct (Hsome b) as (r & b' & Hr & Hb & Hk); [by left|]. intros Hnil.
    assert (nf_dataset_id r ∈ (nf_dataset_id <$> filter (λ r, on_required counts r) rs)) as Hx; [|rewrite Hnil in Hx; by apply elem_of_nil in Hx].
    apply list_elem_of_fmap_2, list_elem_of_filter. split; [|done]. unfold on_required. rewrite Hb.
    apply dmem_keys in Hk. by rewrite Hk.
Qed.

(** ** The groups *)
Lemma slices_spec fuel n l : (1 ≤ n)%nat → (length l ≤ fuel)%nat →
  concat (slices fuel n l) = l ∧ Forall (λ g, 1 ≤ length g ≤ n)%nat (slices fuel n l) ∧
  len (slices fuel n l) = ceil_div (len l) (Z.of_nat n).
Proof.
  intros Hn. revert l. induction fuel as [|fuel IH]; intros l Hl.
  { destruct l; [|simpl in Hl; lia]. split_and!; [done|constructor|]. unfold ceil_div. simpl. by rewrite Z.div_0_l by lia. }
  destruct l as [|x l].
  { split_and!; [done|constructor|]. unfold ceil_div. simpl. by rewrite Z.div_0_l by lia. }
  set (l' := x :: l) in *. cbn [slices]. change (match l' with [] => _ | _ => ?y end) with y.
  destruct (IH (drop n l')) as (Hc & Hg & Hlen); [rewrite length_drop; simpl in *; lia|].
  split_and!.
  - simpl. by rewrite Hc, take_drop.
  - constructor; [|done]. rewrite length_take. subst l'. simpl. lia.
  - unfold len in *. cbn [length]. rewrite Nat2Z.inj_succ, Hlen, length_drop. unfold ceil_div.
    destruct (decide (length l' ≤ n)%nat).
    + replace (length l' - n)%nat with 0%nat by lia. rewrite Z.div_0_l by lia.
      assert (- Z.of_nat (length l') / Z.of_nat n = -1) as ->; [|lia].
      assert (1 ≤ length l')%nat by (subst l'; simpl; lia).
      symmetry. apply Z.div_unique with (r := Z.of_nat n - Z.of_nat (length l')); lia.
    + rewrite Nat2Z.inj_sub by lia.
      replace (- (Z.of_nat (length l') - Z.of_nat n)) with (- Z.of_nat (length l') + 1 * Z.of_nat n) by lia.
      rewrite Z.div_add by lia. lia.
Qed.

Lemma groups_spec rq order :
  concat (parallel_groups rq order) = order ∧
  Forall (λ g, 1 ≤ len g ≤ drives_used rq) (parallel_groups rq order) ∧
  len (parallel_groups rq order) = ceil_div (len order) (drives_used rq).
Proof.
  unfold parallel_groups, drives_used. destruct (rr_allow_parallel rq && (1 <? rr_max_drives rq)) eqn:Hp.
  - apply andb_prop in Hp as [_ Hp%Z.ltb_lt].
    destruct (slices_spec (length order) (Z.to_nat (rr_max_drives rq)) order) as (Hc & Hg & Hl); [lia..|].
    split; [done|]. split; [|by rewrite Hl, Z2Nat.id by lia].
    eapply Forall_impl; [exact Hg|]. intros g. unfold len. simpl. lia.
  - split; [|split].
    + induction order as [|b l IH]; [done|]. csimpl. by rewrite IH.
    + apply Forall_fmap, Forall_true. intros b. unfold len. simpl. lia.
    + unfold len, ceil_div. rewrite length_fmap, Z.div_1_r. lia.
Qed.

(** ** The plan *)
Lemma sorted_weaken {A} (R R' : A → A → Prop) l :
  (∀ x y, R x y → R' x y) → StronglySorted R l → StronglySorted R' l.
Proof. intros HR. induction 1; constructor; [done|]. eapply Forall_impl; [done|]. auto. Qed.

Lemma gathered_batches s rs b p :
  p ∈ batch (ga_batches (gather (_span_barcodes_by_path s) rs)) b ↔
  ∃ r, r ∈ rs ∧ logical_path r = p ∧ restored_from s r b.
Proof.
  rewrite gather_spec. unfold restored_from. setoid_rewrite restorable_spec.
  setoid_rewrite <-spans_spec. done.
Qed.

Lemma plan_safe s rs :
  let g := gather (_span_barcodes_by_path s) rs in
  bool_decide (sort_by String.leb (ga_missing g) = []) && bool_decide (sort_by String.leb (ga_exported g) = []) &&
    bool_decide (sorted_set (ga_unavailable g) = []) = true ↔ ∀ r, r ∈ rs → ¬ lost r.
Proof.
  cbn zeta. destruct (tallied_gather (_span_barcodes_by_path s) rs) as (_ & Hu & Hm). revert Hu Hm.
  generalize (gather (_span_barcodes_by_path s) rs) as g. intros g Hu Hm.
  assert (sorted_set (ga_unavailable g) = [] ↔ ∀ r, r ∈ rs → available r = true) as Hsafe.
  { split.
    - intros Hnil r Hr. destruct (available r) eqn:Ha; [done|]. exfalso.
      assert (logical_path r ∈ sorted_set (ga_unavailable g)) as Hx; [|rewrite Hnil in Hx; by apply elem_of_nil in Hx].
      rewrite elem_sorted_set, Hu. apply list_elem_of_fmap. exists r. split; [done|].
      apply list_elem_of_filter. by rewrite Ha.
    - intros Hall. apply elem_of_nil_inv. intros x. rewrite elem_sorted_set, Hu.
      intros (r & -> & [Ha Hr]%list_elem_of_filter)%list_elem_of_fmap. by rewrite Hall in Ha. }
  setoid_rewrite <-available_lost. rewrite !andb_true_iff, !bool_decide_eq_true, <-Hsafe.
  split; [by intros [_ ?]|]. intros Hnil. pose proof (proj1 Hsafe Hnil) as Hall. by destruct (Hm Hall) as [-> ->].
Qed.

Lemma restore_plan_spec rq s pl : plan rq s = Ok pl →
  ∃ pool rs, rr_pool_id rq = Some pool ∧ is_Some (dget (sv_pools s) pool) ∧ plan_fits rq pool s rs pl.
Proof.
  unfold plan. destruct (rr_pool_id rq) as [pool|]; [|done]. destruct (dget (sv_pools s) pool) as [pol|] eqn:Hpool; [|done].
  intros [= <-]. set (rs := _resolve_records _ _ _). exists pool, rs. split; [done|]. split; [by eexists|].
  set (spans := _span_barcodes_by_path s).
  destruct (counted_gather spans rs) as (Hwf & Hkeys & Hlen). destruct (tallied_gather spans rs) as (Hb & Hu & _).
  destruct (load_order_spec pool rs (ga_counts (gather spans rs)) s Hwf) as [Hin Hnd].
  assert (∀ b, b ∈ dkeys (ga_counts (gather spans rs)) → ∃ r b, r ∈ rs ∧ nf_tape_barcode r = Some b ∧
    b ∈ dkeys (ga_counts (gather spans rs))) as Hsome.
  { intros b Hk. apply Hkeys in Hk. destruct (batch _ b) as [|p l] eqn:Hbt; [done|].
    assert (p ∈ batch (ga_batches (gather spans rs)) b) as Hp by (rewrite Hbt; by left).
    apply gathered_batches in Hp as (r & Hr & Hlp & own & Hown & _). exists r, own. split; [done|].
    split; [apply Hown|]. apply Hkeys. intros Hnil.
    assert (p ∈ batch (ga_batches (gather spans rs)) own) as Hx; [|rewrite Hnil in Hx; by apply elem_of_nil in Hx].
    apply gathered_batches. exists r. split; [done|]. split; [done|]. exists own. auto. }
  set (order := _build_tape_load_order _ _ _ _) in *. destruct (groups_spec rq order) as (Hc & Hg & Hl).
  split; simpl.
  - apply records_spec.
  - apply records_once.
  - apply gathered_batches.
  - intros b. by rewrite Hin, Hkeys.
  - done.
  - intros Hcrit. eapply sorted_weaken; [|by apply fullest_first]. intros a b Hab.
    rewrite count_leb_spec, !Hlen in Hab. unfold fuller, len in *. destruct Hab as [?|[??]]; [left|right]; lia || split; [lia|done].
  - intros Hcrit id d Hd Hts Hone.
    destruct (sequential_order pool rs (ga_counts (gather spans rs)) s id d) as (rest & Hord & Hrest); try done.
    + intros r b Hr Hbar Hk. eapply Hone; [done..|]. by apply Hin.
    + exists rest. split; [|done]. unfold order at 1. rewrite Hord. f_equal. apply list_filter_iff. intros b. by rewrite Hin.
  - done.
  - by rewrite Hl.
  - rewrite Hb. f_equal. apply list_filter_iff. intros r. by rewrite Is_true_true, available_lost.
  - intros p. rewrite elem_sorted_set, Hu, list_elem_of_fmap. setoid_rewrite list_elem_of_filter.
    setoid_rewrite <-unavailable_lost.
    split; [intros (r & -> & Ha & Hr)|intros (r & Hr & <- & Ha)]; exists r; destruct (available r); naive_solver.
  - apply plan_safe.
Qed.

(** * Examples *)
Definition hydrating_service : nas_service :=
  let d := MkNasDataset "d" (Some "pool") "data" None None None None None [] [] 1 5 DS_ARCHIVED 1 None None None in
  let f := MkNasFile "f" "d" (Some "pool") "a.bin" None 5 None None (Some "TAPE01L8") None FS_HYDRATING None None None in
  NasService (with_nas_files [("f", f)] (with_datasets [("d", DatasetRow d None)] empty_tables)) [("pool", None)] [] [].

(** Three files on two tapes, one of them going on on a third tape, two drives. *)
Definition spanning_service : nas_service :=
  let d := MkNasDataset "d" (Some "pool") "data" None None None None None [] [] 3 9 DS_ARCHIVED 1 None None None in
  let f id p b := MkNasFile id "d" (Some "pool") p None 3 None None (Some b) None OFFLINE_ON_TAPE None None None in
  NasService
    (with_nas_files [("1", f "1" "a" "T1"); ("2", f "2" "b" "T2"); ("3", f "3" "c" "T2")]
      (with_datasets [("d", DatasetRow d None)] empty_tables))
    [("pool", None)] []
    [("/b", JArr [JObj [("barcode", JStr "T2")]; JObj [("barcode", JStr "T3")]])].

Example spanning_plan :
  match plan (RestorePlanRequest (Some "pool") [] "/restore" 5 true 2) spanning_service with
  | Ok p => rp_tape_load_order p = ["T2"; "T1"; "T3"] ∧
            rp_batches_by_tape p = [("T1", ["a"]); ("T2", ["b"; "c"]); ("T3", ["b"])] ∧
            rp_parallel_restore_groups p = [["T2"; "T1"]; ["T3"]] ∧ rp_estimated_tape_swaps p = 1 ∧
            rp_estimated_bytes p = 9 ∧ rp_is_safe_to_enqueue p = true
  | Raise _ => False
  end.
Proof. vm_compute. by split_and!. Qed.

(** * Properties *)

(** C27: The plan of a restore is exact.  It is made for the records of the pool at
    the paths asked for, of all paths if none is given, each taken once (their ids
    tell them apart).  Its batches name, for each
    tape, exactly the files of the records that are cached or on a tape with a
    name, each under its own tape and under every other tape of a stored span of
    its path.  A tape is loaded exactly when it has a file in its batch, and once if
    no dataset lists a tape twice; the fullest tape comes first, ties by name, or,
    under a critical policy, the tapes of the one dataset concerned in the order it
    lists them and then the others by name.  The groups are the load order cut
    into pieces of at most as many tapes as drives may work at once (one, unless
    the request allows more), with one swap fewer than groups, if there are any.  The bytes are those of the records that are not lost (missing,
    failed, corrupt or exported), the unavailable files are the lost ones, and the
    plan is safe to enqueue exactly when none is lost.  (A file that is being
    hydrated is thus counted, and restored from no tape: see [hydrating_left_out].)
    Without a pool, or with one unknown, there is no plan. *)
Theorem restore_plan_exact rq s :
  match plan rq s with
  | Ok pl => ∃ pool rs, rr_pool_id rq = Some pool ∧ is_Some (dget (sv_pools s) pool) ∧ plan_fits rq pool s rs pl
  | Raise e => (rr_pool_id rq = None ∧ e = ValueError) ∨
      (∃ pool, rr_pool_id rq = Some pool ∧ dget (sv_pools s) pool = None ∧ e = KeyError)
  end.
Proof.
  destruct (plan rq s) as [pl|e] eqn:Hp; [by apply restore_plan_spec|]. revert Hp. unfold plan.
  destruct (rr_pool_id rq) as [pool|]; [|intros [= <-]; by left].
  destruct (dget (sv_pools s) pool) eqn:Hd; [done|]. intros [= <-]. right. eauto.
Qed.

(** A plan that is safe to enqueue may leave a file out without a word: one that
    is being hydrated is counted in its bytes, is on a known tape, and is in no
    batch and in no list of unavailable files. *)
Theorem hydrating_left_out :
  match plan (RestorePlanRequest (Some "pool") ["/a.bin"] "/restore" 5 true 2) hydrating_service with
  | Ok p => rp_is_safe_to_enqueue p = true ∧ rp_estimated_bytes p = 5 ∧ rp_batches_by_tape p = [] ∧
            rp_tape_load_order p = [] ∧ rp_unavailable_files p = [] ∧ rp_warnings p = []
  | Raise _ => False
  end.
Proof. vm_compute. by split_and!. Qed.
