(* ===== verification/TreeRestore.v ===== *)
(** The restore of everything below a path of the catalog:
    openblade/jobs/tree_restore.py.

    Each file goes through the restore of sharded or of single files.  The
    calls of the progress callback are returned as a list.  The destination of a
    sharded file is a file or absent, never a directory. *)
From stdpp Require Import base list option strings pretty gmap.
From Stdlib Require Import Ascii ZArith QArith Lia.
From S2P Require Import Prelude Wp Domain Paths Leases Catalog Faults Library Reconcile CatalogStore.
From S2P Require Import Scheduler Bytes Ltfs Orchestrator TapeJob FileJob.
From S2P Require Queue Shard Archive ShardRestore FileRestore NasTables.
#[local] Open Scope string_scope.
#[local] Open Scope Z_scope.

(** * State *)
Record tree_request := TreeRestoreRequest {
  tq_catalog_prefix : string;
  tq_dest_dir : string;
  tq_dry_run : bool;
}.

Record tree_progress := TreeRestoreProgress {
  tp_barcode : string;
  tp_files_done : Z;
  tp_files_total : Z;
  tp_bytes_done : Z;
  tp_last_path : string;
  tp_failed : bool;
}.

Record tree_failure := TreeRestoreFailure {
  tf_catalog_path : string;
  tf_error : string;
}.

Record tree_result := TreeRestoreResult {
  tr_job_id : string;
  tr_catalog_prefix : string;
  tr_dest_dir : string;
  tr_files_restored : Z;
  tr_files_failed : Z;
  tr_bytes_restored : Z;
  tr_files_verified : Z;
  tr_per_tape_counts : dict string Z;
  tr_failures : list tree_failure;
  tr_skipped : list string;
  tr_dry_run : bool;
}.
Definition tree_ok (r : tree_result) : bool := bool_decide (length (tr_failures r) = 0%nat).

Record planned_file := PlannedFile {
  pf_catalog_path : string;
  pf_dest_path : string;
  pf_size_bytes : Z;
  pf_barcode : string;
  pf_sharded : bool;
}.
#[export] Instance planned_file_eq_dec : EqDecision planned_file.
Proof. solve_decision. Defined.

Definition failure_to_dict (f : tree_failure) : json :=
  JObj [("catalogPath", JStr (tf_catalog_path f)); ("error", JStr (tf_error f))].

Definition to_dict (r : tree_result) : dict string json :=
  let counts := sort_by (λ a b, String.leb a.1 b.1) (tr_per_tape_counts r) in
  [("jobId", JStr (tr_job_id r)); ("catalogPrefix", JStr (tr_catalog_prefix r));
   ("destDir", JStr (tr_dest_dir r)); ("dryRun", JBool (tr_dry_run r));
   ("filesRestored", JInt (tr_files_restored r)); ("filesFailed", JInt (tr_files_failed r));
   ("bytesRestored", JInt (tr_bytes_restored r)); ("filesVerified", JInt (tr_files_verified r));
   ("perTapeCounts", JObj ((λ kv, (kv.1, JInt kv.2)) <$> counts));
   ("tapesUsed", JArr ((λ kv, JStr kv.1) <$> counts));
   ("failures", JArr (failure_to_dict <$> tr_failures r));
   ("filesSkipped", JInt (Z.of_nat (length (tr_skipped r))));
   ("skippedPaths", JArr (JStr <$> tr_skipped r));
   ("status", JStr (if tree_ok r then "completed" else "failed"))].

(** * The plan *)

(** [s.lstrip] of slashes. *)
Definition lstrip_slash (s : string) : string :=
  String.string_of_list_ascii
    (lstrip_chars (λ c, bool_decide (c = "/"%char)) (String.list_ascii_of_string s)).

Definition _normalize_prefix (prefix : string) : string := path_join "/" (lstrip_slash (strip prefix)).

(** [p.parts]: the root first. *)
Definition all_parts (p : string) : list string :=
  (if bool_decide (path_root p = "") then path_parts p else path_root p :: path_parts p)%list.

(** [p.relative_to(q).parts]. *)
Definition relative_to (p q : string) : result (list string) :=
  if bool_decide (path_root p = path_root q) &&
     bool_decide (take (length (path_parts q)) (path_parts p) = path_parts q)
  then Ok (drop (length (path_parts q)) (path_parts p)) else Raise ValueError.

Definition raw_parts (catalog_path prefix : string) : result (list string) :=
  if bool_decide (prefix = "/") then Ok (drop 1 (all_parts catalog_path))
  else if bool_decide (catalog_path = prefix) then Ok [basename catalog_path]
  else relative_to catalog_path prefix.

Definition _relative_parts (catalog_path prefix : string) : result (list string) :=
  parts ← raw_parts catalog_path prefix;
  if bool_decide (".." ∈ parts) then Raise UnsafeCatalogPathError
  else
    let safe := filter (λ x, x ∉ [""; "/"; "."]) parts in
    if bool_decide (safe = []) then Raise UnsafeCatalogPathError else Ok safe.

(** [CatalogRepository.list_file_records]. *)
Definition list_file_records (path_prefix : string) (c : catalog) : list file_row :=
  let prefix := posix_path path_prefix in
  let like_prefix := if bool_decide (prefix = "/") then "%" else prefix ++ "%" in
  sort_by (λ a b, String.leb (fl_path a) (fl_path b))
    (select (λ r, bool_decide (fl_parent_id r = None) && NasTables.sql_like like_prefix (fl_path r))
       (ct_files c)).

(** [prefix.rstrip] of slashes. *)
Definition rstrip_slash (s : string) : string :=
  String.string_of_list_ascii
    (rstrip_chars (λ c, bool_decide (c = "/"%char)) (String.list_ascii_of_string s)).

Definition under (prefix path : string) : bool :=
  bool_decide (prefix = "/") || bool_decide (path = prefix) ||
  startswith path (rstrip_slash prefix ++ "/").

Definition _select_records (c : catalog) (prefix : string) : list file_row :=
  filter (λ r, under prefix (fl_path r) = true) (list_file_records prefix c).

(** The cartridges with an archived instance of one of the records, sorted. *)
Definition archived_barcodes (rs : list file_row) (c : catalog) : list string :=
  sort_by String.leb (remove_dups
    (rs ≫= λ r, fi_barcode <$> filter (λ i, fi_state i ∈ archived_states) (instances_of (fl_id r) c))).

Definition is_sharded (c : catalog) (r : file_row) : bool :=
  bool_decide (list_shard_records (fl_id r) c ≠ []) ||
  bool_decide (1 < ShardRestore.int_or (fl_shard_count r) 1).

(** Where the file is: the record's own instances first. *)
Definition barcodes_of (c : catalog) (r : file_row) : list string :=
  match archived_barcodes [r] c with
  | [] => if is_sharded c r then archived_barcodes (list_shard_records (fl_id r) c) c else []
  | barcodes => barcodes
  end.

Fixpoint plan_records (c : catalog) (prefix dest_dir : string) (rs : list file_row)
    : result (list planned_file * list string) :=
  match rs with
  | [] => Ok ([], [])
  | r :: rs =>
      match barcodes_of c r with
      | [] =>
          rest ← plan_records c prefix dest_dir rs;
          Ok (rest.1, fl_path r :: rest.2)
      | barcode :: _ =>
          parts ← _relative_parts (fl_path r) prefix;
          rest ← plan_records c prefix dest_dir rs;
          Ok (PlannedFile (fl_path r) (foldl path_join dest_dir parts) (fl_size_bytes r) barcode
                (is_sharded c r) :: rest.1, rest.2)
      end
  end.

Definition plan_leb (a b : planned_file) : bool :=
  if bool_decide (pf_barcode a = pf_barcode b) then String.leb (pf_catalog_path a) (pf_catalog_path b)
  else String.leb (pf_barcode a) (pf_barcode b).

Definition plan_tree_restore (rq : tree_request) (c : catalog) : result (list planned_file * list string) :=
  let prefix := _normalize_prefix (tq_catalog_prefix rq) in
  plan ← plan_records c prefix (posix_path (tq_dest_dir rq)) (_select_records c prefix);
  Ok (sort_by plan_leb plan.1, sort_by String.leb plan.2).

(** * The run *)
Notation state := (file_job FileRestore.locals).

(** The file at [dest]. *)
Definition replace_file (dest : string) (data : option bytes) (d : disk) : disk :=
  with_files (match data with Some b => <[dest := b]> (dk_files d) | None => delete dest (dk_files d) end) d.

(** [run_sharded_restore] on the file at [dest]. *)
Definition on_dest {A} (dest : string) (m : M ShardRestore.restore_state A) : M state A :=
  zoom (λ s, ShardRestore.RestoreState (fj_job s) (dk_files (fj_disk s) !! dest) 0 None false false)
       (λ t s, with_disk (replace_file dest (ShardRestore.rt_dest t) (fj_disk s))
                 (with_tapes (ShardRestore.rt_job t) s)) m.

Definition empty_result (rq : tree_request) (job_id : string) (skipped : list string) : tree_result :=
  TreeRestoreResult job_id (_normalize_prefix (tq_catalog_prefix rq)) (posix_path (tq_dest_dir rq))
    0 0 0 0 [] [] skipped (tq_dry_run rq).

Definition count_tape (counts : dict string Z) (barcode : string) : dict string Z :=
  dset counts barcode (dget_or counts barcode 0 + 1).

(** A file restored from [barcodes]. *)
Definition count_restored (item : planned_file) (verified : bool) (barcodes : list string)
    (r : tree_result) : tree_result :=
  TreeRestoreResult (tr_job_id r) (tr_catalog_prefix r) (tr_dest_dir r) (tr_files_restored r + 1)
    (tr_files_failed r) (tr_bytes_restored r + pf_size_bytes item)
    (if verified then tr_files_verified r + 1 else tr_files_verified r)
    (foldl count_tape (tr_per_tape_counts r) barcodes) (tr_failures r) (tr_skipped r) (tr_dry_run r).

Definition count_failed (item : planned_file) (message : string) (r : tree_result) : tree_result :=
  TreeRestoreResult (tr_job_id r) (tr_catalog_prefix r) (tr_dest_dir r) (tr_files_restored r)
    (tr_files_failed r + 1) (tr_bytes_restored r) (tr_files_verified r) (tr_per_tape_counts r)
    (tr_failures r ++ [TreeRestoreFailure (pf_catalog_path item) message])%list (tr_skipped r)
    (tr_dry_run r).

(** The tick after a file. *)
Definition progress_of (item : planned_file) (total : nat) (failed : bool) (r : tree_result)
    : tree_progress :=
  TreeRestoreProgress (pf_barcode item) (tr_files_restored r + tr_files_failed r) (Z.of_nat total)
    (tr_bytes_restored r) (pf_catalog_path item) failed.

(** A dry run counts what is planned. *)
Definition dry_count (r : tree_result) (item : planned_file) : tree_result :=
  count_restored item false [pf_barcode item] r.

Section tree.
Context (str_of class_of : exn → string) (w : file_surroundings) (job_id : string).
Let safe_job_error : exn → string := Queue.safe_job_error str_of class_of.

Definition child_detail (item : planned_file) : dict string json :=
  [("catalog_path", JStr (pf_catalog_path item)); ("dest_path", JStr (pf_dest_path item));
   ("parent_job_id", JStr job_id)].

(** Whether it was verified, and from which tapes; or the error of the sharded
    restore.  [None]: still waiting for a drive. *)
Definition restore_sharded (child : string) (item : planned_file)
    : M state (option (string + bool * list string)) :=
  r ← on_dest (pf_dest_path item)
        (ShardRestore.run_sharded_restore str_of w child
           (ShardRestore.ShardedRestoreRequest (pf_catalog_path item) Shard.DEFAULT_BLOCK_SIZE));
  mret (match r with
        | None => None
        | Some res =>
            let barcodes := match ShardRestore.so_source_barcodes res with
                            | [] => [pf_barcode item] | bcs => bcs end in
            Some (match ShardRestore.so_error res with
                  | Some error => if bool_decide (error = "")
                                  then inr (ShardRestore.so_checksum_verified res, barcodes) else inl error
                  | None => inr (ShardRestore.so_checksum_verified res, barcodes)
                  end)
        end).

Definition restore_plain (child : string) (item : planned_file)
    : M state (option (string + bool * list string)) :=
  r ← FileRestore.run_restore_job str_of class_of w child
        (FileRestore.RestoreRequest (pf_catalog_path item) (pf_dest_path item) false);
  mret ((λ res, inr (FileRestore.rs_checksum_verified res, [FileRestore.rs_source_barcode res])) <$> r).

Definition restore_item (child : string) (item : planned_file)
    : M state (option (string + bool * list string)) :=
  on_disk (make_parents (pf_dest_path item));;
  if pf_sharded item then restore_sharded child item else restore_plain child item.

Fixpoint restore_items (total : nat) (items : list planned_file)
    (acc : tree_result * list tree_progress) : M state (option (tree_result * list tree_progress)) :=
  match items with
  | [] => mret (Some acc)
  | item :: items =>
      uuid ← on_tapes (tick (w_uuid w));
      now ← on_tapes (tick (w_now w));
      child ← on_tapes (catalog_op (Catalog.create_job uuid now "restore" (child_detail item)));
      outcome ← attempt (restore_item (jb_id child) item);
      let failed message :=
        on_tapes (job_state_op w (jb_id child) "failed" (Some message));;
        let r := count_failed item message acc.1 in
        restore_items total items (r, acc.2 ++ [progress_of item total true r])%list in
      match outcome with
      | Ok None => mret None
      | Ok (Some (inr (verified, barcodes))) =>
          let r := count_restored item verified barcodes acc.1 in
          restore_items total items (r, acc.2 ++ [progress_of item total false r])%list
      | Ok (Some (inl error)) => failed error
      | Raise e => failed (safe_job_error e)
      end
  end.

Definition tree_error (r : tree_result) (total : nat) : string :=
  pretty (tr_files_failed r) ++ " of " ++ pretty total ++ " file(s) failed to restore".

Definition run_tree_restore (rq : tree_request) : M state (option (tree_result * list tree_progress)) :=
  on_tapes (job_state_op w job_id "running" None);;
  c ← gets fj_catalog;
  plan ← liftR (plan_tree_restore rq c);
  let '(planned, skipped) := plan in
  let result := empty_result rq job_id skipped in
  if tq_dry_run rq then
    on_tapes (job_state_op w job_id "completed" None);;
    mret (Some (foldl dry_count result planned, []))
  else
    r ← restore_items (length planned) planned (result, []);
    match r with
    | None => mret None
    | Some (r, ticks) =>
        (if tree_ok r then on_tapes (job_state_op w job_id "completed" None)
         else on_tapes (job_state_op w job_id "failed" (Some (tree_error r (length planned)))));;
        mret (Some (r, ticks))
    end.
End tree.

(** * The plan *)

(** ** Text *)
Lemma string_app_nil_r (s : string) : s ++ "" = s.
Proof. induction s as [|c s IH]; [done|]. change (String c (s ++ "") = String c s). by rewrite IH. Qed.

Lemma append_slash a t : (a ++ "/") ++ t = a ++ String "/" t.
Proof. induction a as [|c a IH]; [done|]. exact (f_equal (String c) IH). Qed.

Lemma like_any text : NasTables.like ["%"%char] text = true.
Proof. induction text as [|c text IH]; [done|]. simpl in *. by rewrite IH. Qed.

(** A text is like its own beginning, whatever its characters mean to [LIKE]. *)
Lemma sql_like_begins s t : NasTables.sql_like (s ++ "%") (s ++ t) = true.
Proof.
  unfold NasTables.sql_like. induction s as [|c s IH]; simpl.
  - apply like_any.
  - case_bool_decide as Hc; [|by rewrite IH, (bool_decide_true (upper_ascii c = _)), orb_true_r].
    match goal with |- _ || ?anywhere = true => assert (anywhere = true) as ->; [|by rewrite orb_true_r] end.
    destruct (String.list_ascii_of_string (s ++ t)); by rewrite IH.
Qed.

Lemma split_on_nonempty s : split_on "/"%char s ≠ [].
Proof. destruct s as [|c s]; simpl; [done|]. case_bool_decide; [done|]. by destruct (split_on _ s). Qed.
Lemma split_on_slash a t :
  split_on "/"%char (a ++ String "/" t) = (split_on "/"%char a ++ split_on "/"%char t)%list.
Proof.
  induction a as [|c a IH]; simpl; [done|]. case_bool_decide; rewrite IH; [done|].
  pose proof (split_on_nonempty a) as Hne. by destruct (split_on "/"%char a).
Qed.

Lemma path_parts_below a t : path_parts (a ++ String "/" t) = (path_parts a ++ path_parts t)%list.
Proof. unfold path_parts. by rewrite split_on_slash, filter_app. Qed.

(** ** The prefix *)
Lemma lstrip_last (P : ascii → bool) l c : P c = false → lstrip_chars P (c :: l) = c :: l.
Proof. intros Hc. simpl. by rewrite Hc. Qed.

Lemma last_char_join ps : ps ≠ [] → Forall path_part ps →
  ∃ u c, String.list_ascii_of_string (join_parts ps) = (u ++ [c])%list ∧ c ≠ "/"%char.
Proof.
  intros Hne Hps. induction Hps as [|x ps (Hx & _ & Hsl) Hps IH]; [done|]. destruct ps as [|y ps].
  - simpl. unfold no_slash in Hsl. destruct (String.list_ascii_of_string x) as [|c l] eqn:Hl using rev_ind.
    + by destruct x.
    + exists l, c. split; [done|]. intros ->. apply Hsl. set_solver.
  - destruct IH as (u & c & Hu & Hc); [done|].
    change (join_parts (x :: y :: ps)) with (x ++ String "/" (join_parts (y :: ps))).
    exists (String.list_ascii_of_string x ++ "/"%char :: u)%list, c. split; [|done].
    rewrite list_ascii_app. cbn [String.list_ascii_of_string]. rewrite Hu. by rewrite <-app_assoc.
Qed.

Lemma lstrip_slash_relative s : path_root (lstrip_slash s) = "".
Proof.
  unfold lstrip_slash. induction (String.list_ascii_of_string s) as [|c l IH]; [done|]. simpl.
  case_bool_decide; [done|]. by apply path_root_other.
Qed.

Lemma prefix_form s : ∃ ps, Forall path_part ps ∧ _normalize_prefix s = "/" ++ join_parts ps.
Proof.
  unfold _normalize_prefix, path_join. rewrite bool_decide_true by apply lstrip_slash_relative.
  eexists. split; [apply path_parts_ok|]. done.
Qed.

Lemma prefix_parts ps : Forall path_part ps →
  path_root ("/" ++ join_parts ps) = "/" ∧ path_parts ("/" ++ join_parts ps) = ps.
Proof. intros Hps. split; [by apply (render_root "/") | by apply (render_parts "/")]. Qed.

Lemma rstrip_prefix ps : ps ≠ [] → Forall path_part ps →
  rstrip_slash ("/" ++ join_parts ps) = "/" ++ join_parts ps.
Proof.
  intros Hne Hps. destruct (last_char_join ps) as (u & c & Hu & Hc); [done..|].
  change ("/" ++ join_parts ps) with (String "/" (join_parts ps)).
  assert (String.list_ascii_of_string (String "/" (join_parts ps)) = ("/"%char :: u) ++ [c])%list as Hl
    by (cbn [String.list_ascii_of_string]; by rewrite Hu).
  unfold rstrip_slash, rstrip_chars. rewrite Hl, rev_unit, lstrip_last by by apply bool_decide_false.
  rewrite <-rev_unit, rev_involutive, <-Hl. apply String.string_of_list_ascii_of_string.
Qed.

(** What lies under a prefix, and that [LIKE] finds it. *)
Lemma under_form ps path : Forall path_part ps → under ("/" ++ join_parts ps) path = true →
  ps = [] ∨ path = "/" ++ join_parts ps ∨ ∃ t, path = ("/" ++ join_parts ps) ++ String "/" t.
Proof.
  intros Hps. destruct (decide (ps = [])) as [->|Hne]; [by left|]. unfold under.
  rewrite rstrip_prefix by done. rewrite !orb_true_iff, !bool_decide_eq_true. intros [[H|H]|H].
  - exfalso. destruct (prefix_parts ps Hps) as [_ Hp]. rewrite H in Hp. by apply Hne.
  - by right; left.
  - right; right. apply startswith_inv in H as [t ->]. exists t. apply append_slash.
Qed.

Lemma under_like ps path : Forall path_part ps → under ("/" ++ join_parts ps) path = true →
  NasTables.sql_like (if bool_decide ("/" ++ join_parts ps = "/") then "%" else ("/" ++ join_parts ps) ++ "%") path
  = true.
Proof.
  intros Hps Hu. case_bool_decide as Hroot; [apply like_any|].
  destruct (under_form ps path Hps Hu) as [->|[->|[t ->]]]; [done| |apply sql_like_begins].
  rewrite <-(string_app_nil_r ("/" ++ join_parts ps)) at 2. apply sql_like_begins.
Qed.

(** The listing is exact. *)
Lemma select_records_exact s c : let prefix := _normalize_prefix s in
  _select_records c prefix ≡ₚ
  select (λ r, bool_decide (fl_parent_id r = None) && under prefix (fl_path r)) (ct_files c).
Proof.
  intros prefix. destruct (prefix_form s) as (ps & Hps & Hp). fold prefix in Hp. rewrite Hp.
  unfold _select_records, list_file_records.
  assert (posix_path ("/" ++ join_parts ps) = "/" ++ join_parts ps) as ->.
  { destruct (prefix_parts ps Hps) as [Hr Hparts]. rewrite posix_path_render, Hr, Hparts. done. }
  rewrite sort_by_perm. unfold select. rewrite list_filter_filter. apply reflexive_eq, list_filter_iff.
  intros r. pose proof (under_like ps (fl_path r) Hps) as Hl.
  destruct (bool_decide (fl_parent_id r = None)), (under _ (fl_path r)); simpl; [|naive_solver..].
  rewrite Hl by done. naive_solver.
Qed.

(** ** The destinations *)

(** [p] is strictly below [dir], without climbing out of it again. *)
Definition inside (dir p : string) : Prop :=
  path_root p = path_root dir ∧
  ∃ rest, path_parts p = (path_parts dir ++ rest)%list ∧ rest ≠ [] ∧ ".." ∉ rest.

(** Parts that can be joined on to a directory. *)
Definition safe_parts (l : list string) : Prop := l ≠ [] ∧ Forall path_part l ∧ ".." ∉ l.

Lemma part_kept x : path_part x → x ∉ [""; "/"; "."].
Proof.
  intros (H1 & H2 & H3) H. rewrite !elem_of_cons, elem_of_nil in H. destruct H as [->|[->|[->|[]]]]; try done.
  apply H3. by left.
Qed.
Lemma parts_kept l : Forall path_part l → filter (λ x, x ∉ [""; "/"; "."]) l = l.
Proof.
  induction 1 as [|x l Hx _ IH]; [done|]. rewrite filter_cons_True by by apply part_kept. by rewrite IH.
Qed.

(** Where the parts come from. *)
Definition parts_from (path prefix : string) (l : list string) : Prop :=
  prefix = "/" ∧ l = drop 1 (all_parts path) ∨
  prefix ≠ "/" ∧ path = prefix ∧ l = [basename path] ∨
  prefix ≠ "/" ∧ path ≠ prefix ∧ path_root path = path_root prefix ∧
    path_parts path = (path_parts prefix ++ l)%list.

Lemma raw_parts_spec path prefix l : raw_parts path prefix = Ok l →
  parts_from path prefix l ∧ (Forall path_part l ∨ l = [""]).
Proof.
  unfold raw_parts, parts_from. pose proof (path_parts_ok path) as Hok.
  repeat case_bool_decide; [intros [= <-]..|].
  - split; [auto|]. left. unfold all_parts. case_bool_decide; [by apply Forall_drop | done].
  - split; [auto|]. unfold basename.
    destruct (last (path_parts path)) as [x|] eqn:Hl; [left|by right].
    apply last_Some in Hl as [l Hl]. rewrite Hl in Hok. simpl. by apply Forall_app in Hok as [_ ?].
  - unfold relative_to. case_match eqn:H1; [|done]. intros [= <-]. apply andb_true_iff in H1 as [Hr Hp].
    apply bool_decide_eq_true in Hr, Hp. split; [|left; by apply Forall_drop].
    right; right. split_and!; [done..|]. rewrite <-Hp at 1. by rewrite take_drop.
Qed.

Lemma relative_parts_spec path prefix parts : _relative_parts path prefix = Ok parts →
  safe_parts parts ∧ parts_from path prefix parts.
Proof.
  unfold _relative_parts. destruct (raw_parts path prefix) as [l|e] eqn:Hraw; [|done]. cbn [mbind result_bind].
  apply raw_parts_spec in Hraw as [Hfrom Hl]. case_bool_decide as Hup; [done|].
  destruct Hl as [Hl | ->]; [|done]. rewrite parts_kept by done. case_bool_decide; [done|]. intros [= <-].
  by repeat split.
Qed.

(** Under the prefix, only an unsafe path is refused. *)
Lemma relative_parts_refusal ps path e : Forall path_part ps → under ("/" ++ join_parts ps) path = true →
  _relative_parts path ("/" ++ join_parts ps) = Raise e → e = UnsafeCatalogPathError.
Proof.
  intros Hps Hu. destruct (prefix_parts ps Hps) as [Hr Hp]. unfold _relative_parts, raw_parts.
  assert (∀ l, (if bool_decide (".." ∈ l) then Raise UnsafeCatalogPathError
    else if bool_decide (filter (λ x, x ∉ [""; "/"; "."]) l = []) then Raise UnsafeCatalogPathError
         else Ok (filter (λ x, x ∉ [""; "/"; "."]) l)) = Raise e → e = UnsafeCatalogPathError) as Hend.
  { intros l. repeat case_bool_decide; intros [= <-]; done. }
  repeat case_bool_decide; cbn [mbind result_bind]; [apply Hend..|].
  destruct (under_form ps path Hps Hu) as [->|[?|[t ->]]]; [done..|].
  unfold relative_to. rewrite path_parts_below, Hr, Hp, take_app_length.
  assert (path_root (("/" ++ join_parts ps) ++ String "/" t) = "/") as ->.
  { destruct ps as [|x ps]; [done|]. apply Forall_cons in Hps as [Hx _].
    destruct (join_parts_head x ps Hx) as (c & u & -> & Hc). simpl.
    by destruct c as [[] [] [] [] [] [] [] []]. }
  rewrite !bool_decide_true by done. apply Hend.
Qed.

Lemma joined_inside dir parts : safe_parts parts → inside dir (foldl path_join dir parts).
Proof.
  intros (Hne & Hok & Hup). destruct (joinpath_below dir parts Hok) as [Hr Hp]. split; [done|].
  by exists parts.
Qed.

(** Two paths that go to one place are one, but for the prefix itself. *)
Lemma destinations_apart dir prefix p q ps qs :
  _relative_parts p prefix = Ok ps → _relative_parts q prefix = Ok qs →
  foldl path_join dir ps = foldl path_join dir qs →
  posix_path p = p → posix_path q = q → path_root p = "/" → path_root q = "/" →
  p ≠ prefix → q ≠ prefix → p = q.
Proof.
  intros [(_ & Hps & _) Hp]%relative_parts_spec [(_ & Hqs & _) Hq]%relative_parts_spec He Hnp Hnq Hrp Hrq Hp' Hq'.
  assert (ps = qs) as <-.
  { destruct (joinpath_below dir ps Hps) as [_ H1]. destruct (joinpath_below dir qs Hqs) as [_ H2].
    rewrite He, H2 in H1. by simplify_list_eq. }
  rewrite <-Hnp, <-Hnq, !posix_path_render, Hrp, Hrq. f_equal.
  destruct Hp as [[-> Hp]|[(_ & ? & _)|(? & _ & _ & Hp)]]; [|done|].
  - destruct Hq as [[_ Hq]|[(? & _)|(? & _)]]; [|done..].
    unfold all_parts in Hp, Hq. rewrite Hrp, bool_decide_false in Hp by done.
    rewrite Hrq, bool_decide_false in Hq by done. unfold drop in Hp, Hq. by rewrite <-Hp, <-Hq.
  - destruct Hq as [[-> Hq]|[(_ & ? & _)|(_ & _ & _ & Hq)]]; [done..|]. by rewrite Hp, Hq.
Qed.

(** ** What is planned *)

(** The plan of one record. *)
Definition planned_as (c : catalog) (prefix dest_dir : string) (r : file_row) (it : planned_file) : Prop :=
  pf_catalog_path it = fl_path r ∧ pf_size_bytes it = fl_size_bytes r ∧ pf_sharded it = is_sharded c r ∧
  head (barcodes_of c r) = Some (pf_barcode it) ∧
  ∃ parts, _relative_parts (fl_path r) prefix = Ok parts ∧ pf_dest_path it = foldl path_join dest_dir parts.

Lemma plan_records_spec c prefix dest rs :
  match plan_records c prefix dest rs with
  | Ok (planned, skipped) =>
      (pf_catalog_path <$> planned) ++ skipped ≡ₚ fl_path <$> rs ∧
      Forall (λ it, ∃ r, r ∈ rs ∧ planned_as c prefix dest r it) planned ∧
      Forall (λ p, ∃ r, r ∈ rs ∧ fl_path r = p ∧ barcodes_of c r = []) skipped
  | Raise e => ∃ r, r ∈ rs ∧ barcodes_of c r ≠ [] ∧ _relative_parts (fl_path r) prefix = Raise e
  end%list.
Proof.
  induction rs as [|r rs IH]; simpl; [by repeat split|].
  assert (∀ (A : Type) (P : file_row → A → Prop) l, Forall (λ x, ∃ r, r ∈ rs ∧ P r x) l →
    Forall (λ x, ∃ r', r' ∈ r :: rs ∧ P r' x) l) as Hmore.
  { intros A P l Hl. eapply Forall_impl; [exact Hl|]. intros x (r' & ? & ?). exists r'. split; [by right | done]. }
  destruct (barcodes_of c r) as [|bc bcs] eqn:Hb; [|destruct (_relative_parts (fl_path r) prefix) as [parts|e] eqn:Hparts].
  - destruct (plan_records c prefix dest rs) as [[pl sk]|e]; cbn [mbind result_bind].
    + destruct IH as (Hp & Hpl & Hsk). split_and!; [|by apply Hmore|].
      * by rewrite <-Permutation_middle, Hp.
      * constructor; [|by apply Hmore]. exists r. by repeat split; [left|..].
    + destruct IH as (r' & ? & ?). exists r'. split; [by right | done].
  - cbn [mbind result_bind]. destruct (plan_records c prefix dest rs) as [[pl sk]|e]; cbn [mbind result_bind].
    + destruct IH as (Hp & Hpl & Hsk). split_and!; [| |by apply Hmore].
      * simpl. by rewrite Hp.
      * constructor; [|by apply Hmore]. exists r. split; [by left|]. unfold planned_as. rewrite Hb. simpl.
        split_and!; [done..|]. by exists parts.
    + destruct IH as (r' & ? & ?). exists r'. split; [by right | done].
  - cbn [mbind result_bind]. exists r. rewrite Hb. by repeat split; [left|..].
Qed.

(** ** Where a file may land *)

Lemma path_join_normal p q : path_root q = "" → posix_path (path_join p q) = path_join p q.
Proof.
  intros Hq. destruct (path_join_below p q Hq) as [Hr Hp]. rewrite posix_path_render, Hr, Hp.
  unfold path_join. by rewrite bool_decide_true.
Qed.
Lemma joinpath_normal p ps : posix_path p = p → Forall path_part ps →
  posix_path (foldl path_join p ps) = foldl path_join p ps.
Proof.
  intros Hp Hps. revert p Hp. induction Hps as [|x ps Hx _ IH]; intros p Hp; [done|]. simpl.
  by apply IH, path_join_normal, part_root.
Qed.

(** The destination; or, when that is a directory, the name in it. *)
Definition landings (it : planned_file) : list string :=
  [pf_dest_path it; path_join (pf_dest_path it) (basename (pf_catalog_path it))].
(** These, and the names a mismatch is put aside under. *)
Definition spot (it : planned_file) (p : string) : Prop :=
  ∃ d, d ∈ landings it ∧ (p = d ∨ FileRestore.put_aside d p).

Lemma removelast_below {A} (l l' : list A) : l' ≠ [] → removelast (l ++ l') = (l ++ removelast l')%list.
Proof. intros. by apply removelast_app. Qed.

Lemma aside_inside dir d p : inside dir d → FileRestore.put_aside d p → inside dir p.
Proof.
  intros (Hr & rest & Hp & Hne & Hup) [Hr' Hp']%with_name_beside. split; [congruence|].
  exists (removelast rest ++ [(basename d ++ ".quarantine")%string])%list.
  rewrite Hp', Hp, removelast_below, <-app_assoc by done. split; [done|]. split; [by destruct (removelast rest)|].
  rewrite elem_of_app, list_elem_of_singleton. intros [H|H].
  - apply Hup. rewrite removelast_firstn_len in H. rewrite <-(take_drop (pred (length rest)) rest), elem_of_app. by left.
  - apply (f_equal String.length) in H. rewrite Archive.str_length_app in H. simpl in H. lia.
Qed.

Lemma basename_among path prefix parts :
  parts_from path prefix parts → safe_parts parts → basename path ∈ parts.
Proof.
  intros Hfrom (Hne & _ & _). unfold basename.
  assert (∀ l, path_parts path = (l ++ parts)%list → default "" (last (path_parts path)) ∈ parts) as Hlast.
  { intros l ->. destruct (exists_last Hne) as (l' & x & ->). rewrite app_assoc, last_snoc. set_solver. }
  destruct Hfrom as [[_ ->]|[(_ & _ & ->)|(_ & _ & _ & Hp)]]; [|by left|by eapply Hlast].
  unfold all_parts in *. case_bool_decide; [|by apply (Hlast [])].
  apply (Hlast (take 1 (path_parts path))). by rewrite take_drop.
Qed.

Lemma spots_inside c prefix dir r it p :
  planned_as c prefix dir r it → spot it p → inside dir p.
Proof.
  intros (Hpath & _ & _ & _ & parts & [Hsafe Hfrom]%relative_parts_spec & Hdest) (d & Hd & Hp).
  assert (inside dir d) as Hin.
  { pose proof (joined_inside dir parts Hsafe) as Hin. rewrite <-Hdest in Hin.
    unfold landings in Hd. rewrite !elem_of_cons, elem_of_nil in Hd. destruct Hd as [->|[->|[]]]; [done|].
    pose proof (basename_among _ _ _ Hfrom Hsafe) as Hbase. rewrite <-Hpath in Hbase.
    destruct Hsafe as (_ & Hok & Hup). rewrite Forall_forall in Hok. pose proof (Hok _ Hbase) as Hb.
    destruct Hin as (Hr & rest & Hparts & Hne & Hrest).
    destruct (path_join_below (pf_dest_path it) (basename (pf_catalog_path it))) as [Hr' Hp']; [by apply part_root|].
    split; [congruence|]. exists (rest ++ [basename (pf_catalog_path it)])%list.
    rewrite Hp', Hparts, (part_parts (basename _)), <-app_assoc by done. split; [done|]. split; [by destruct rest|].
    rewrite elem_of_app, list_elem_of_singleton. intros [?|Heq]; [done|]. apply Hup. by rewrite Heq. }
  destruct Hp as [->|Hp]; [done | by eapply aside_inside].
Qed.

(** * The run *)
Notation reading := (calm tables).
Notation aside := (still tables (λ _ : FileRestore.locals, ())).

(** The bytes the catalog and the tapes have for a path, with the checksum of the
    record: of the latest archived instance, or reassembled from the shards. *)
Definition archived_bytes (c : catalog) (t : ltfs) (it : planned_file) (data : bytes) : Prop :=
  if pf_sharded it then
    ∃ f insts bs shards, get_file_record (pf_catalog_path it) c = Some f ∧
      ShardRestore.restore_plan f Shard.DEFAULT_BLOCK_SIZE c = inr (insts, bs) ∧
      Forall2 (ShardRestore.source_of t) insts shards ∧ ShardRestore.joined shards bs data ∧
      Shard.compute_checksum data = fl_checksum_sha256 f
  else
    ∃ f i, get_latest_instance_for_path (pf_catalog_path it) c = Ok (f, i) ∧
      tape_holds t (fi_barcode i) (fi_tape_path i) data ∧ sha256_hex data = fl_checksum_sha256 f.

Lemma archived_bytes_kept c c' t t' it data :
  tables c' = tables c → same_content t t' → archived_bytes c' t' it data → archived_bytes c t it data.
Proof.
  intros Hc%tables_rows Ht. unfold archived_bytes. destruct (pf_sharded it).
  - intros (f & insts & bs & shards & Hf & Hp & Hs & ?). exists f, insts, bs, shards.
    rewrite (ShardRestore.rows_record _ _ _ Hc) in Hf. rewrite (ShardRestore.rows_plan _ _ _ _ Hc) in Hp.
    split; [done|]. split; [done|]. split; [|done].
    eapply Forall2_impl; [exact Hs|]. intros. by eapply ShardRestore.source_of_content.
  - intros (f & i & Hl & Hh & ?). exists f, i. rewrite (FileRestore.rows_latest _ _ _ Hc) in Hl.
    split; [done|]. split; [by eapply tape_holds_content | done].
Qed.

(** At most the spots of the file differ. *)
Definition changed (it : planned_file) (s s' : state) : Prop :=
  ∀ p, ¬ spot it p → dk_files (fj_disk s') !! p = dk_files (fj_disk s) !! p.

(** The file has landed. *)
Definition landed (it : planned_file) (s s' : state) : Prop :=
  ∃ p data, p ∈ landings it ∧ dk_files (fj_disk s') !! p = Some data ∧
    archived_bytes (fj_catalog s) (tj_ltfs (fj_job s)) it data.

Section run.
Context (str_of class_of : exn → string) (w : file_surroundings) (job_id : string).

Definition item_done (it : planned_file) (s : state) (r : option (string + bool * list string)) (s' : state)
    : Prop :=
  reading (fj_job s) (fj_job s') ∧ changed it s s' ∧
  ∀ v bcs, r = Some (inr (v, bcs)) → v = true ∧ landed it s s'.
Definition item_failed (it : planned_file) (s s' : state) : Prop :=
  reading (fj_job s) (fj_job s') ∧ changed it s s'.

Lemma landing_spot it p : p ∈ landings it → spot it p.
Proof. intros Hp. exists p. auto. Qed.

Lemma same_changed it s s' : dk_files (fj_disk s') = dk_files (fj_disk s) → changed it s s'.
Proof. intros H p _. by rewrite H. Qed.

Lemma sharded_item_spec child it s : pf_sharded it = true →
  wp (restore_sharded str_of w child it) (item_done it s) (λ _, item_failed it s) s.
Proof.
  intros Hsh. unfold restore_sharded, on_dest. apply wp_bind, wp_zoom.
  set (t0 := ShardRestore.RestoreState _ _ _ _ _ _).
  assert (∀ t : ShardRestore.restore_state, reading (fj_job s) (ShardRestore.rt_job t) → ∀ p, ¬ spot it p →
    dk_files (replace_file (pf_dest_path it) (ShardRestore.rt_dest t) (fj_disk s)) !! p =
    dk_files (fj_disk s) !! p) as Hch.
  { intros t _ p Hp. assert (pf_dest_path it ≠ p) as Hne.
    { intros <-. apply Hp, landing_spot. by left. }
    unfold replace_file. destruct (ShardRestore.rt_dest t); simpl;
      [by rewrite lookup_insert_ne | by rewrite lookup_delete_ne]. }
  eapply wp_mono; [apply ShardRestore.run_restore_spec| |]; cbn beta.
  - intros r t [Hread Ha]. wp_step. split; [exact Hread|]. split; [exact (Hch t Hread)|].
    intros v bcs Hr. destruct r as [res|]; [|done].
    destruct Ha as [(Hv & He & f & insts & bs & Hf & Hp & shards & data & Hs & Hj & Hsum & Hd)|(_ & (e & He & Hne) & _)].
    + rewrite He, Hv in Hr. injection Hr as <- _. split; [done|].
      exists (pf_dest_path it), data. split; [by left|]. split.
      * simpl. rewrite Hd. apply lookup_insert_eq.
      * unfold archived_bytes. rewrite Hsh. by exists f, insts, bs, shards.
    + rewrite He, bool_decide_false in Hr by done. done.
  - intros e t [Hread _]. split; [exact Hread | exact (Hch t Hread)].
Qed.

Lemma plain_item_spec child it s : pf_sharded it = false → posix_path (pf_dest_path it) = pf_dest_path it →
  wp (restore_plain str_of class_of w child it) (item_done it s) (λ _, item_failed it s) s.
Proof.
  intros Hsh Hnormal. unfold restore_plain. apply wp_bind.
  set (rq := FileRestore.RestoreRequest _ _ _).
  assert (FileRestore._batch_dest rq (fj_disk s) ∈ landings it) as Hin.
  { unfold FileRestore._batch_dest, landings. simpl. rewrite Hnormal. destruct (is_dir _ _); set_solver. }
  pose proof (landing_spot it _ Hin) as Hspot.
  eapply wp_mono; [apply FileRestore.run_restore_job_spec| |]; cbn beta.
  - intros [res|] s' [Hread H]; wp_step; (split; [exact Hread|]).
    + destruct H as (f & i & Hl & -> & data & Hh & Hsum & Hd). split.
      * intros p Hp. rewrite Hd, lookup_insert_ne; [done | by intros <-].
      * intros v bcs [= <- _]. split; [done|]. exists (FileRestore._batch_dest rq (fj_disk s)), data.
        split; [done|]. split; [by rewrite Hd, lookup_insert_eq|].
        unfold archived_bytes. rewrite Hsh. by exists f, i.
    + split; [by apply same_changed | done].
  - intros e s' [Hread H]. split; [exact Hread|]. destruct H as [H|(f & i & _ & H)]; [by apply same_changed|].
    destruct H as [H|(data & _ & [H|(q & Hq & H)])]; [by apply same_changed|..]; intros p Hp; rewrite H.
    + rewrite lookup_insert_ne; [done | by intros <-].
    + rewrite lookup_insert_ne, lookup_delete_ne; [done | by intros <-|].
      intros <-. apply Hp. exists (FileRestore._batch_dest rq (fj_disk s)). auto.
Qed.

Lemma wp_make_parents p (Q : () → disk → Prop) (E : exn → disk → Prop) d :
  (∀ d', dk_files d' = dk_files d → Q tt d') → (∀ e, E e d) → wp (make_parents p) Q E d.
Proof. intros HQ HE. unfold make_parents. repeat wp_step; [by apply HE | by apply HQ]. Qed.

Lemma restore_item_spec child it s : posix_path (pf_dest_path it) = pf_dest_path it →
  wp (restore_item str_of class_of w child it) (item_done it s) (λ _, item_failed it s) s.
Proof.
  intros Hnormal. unfold restore_item. wp_step. apply wp_on_disk, wp_make_parents.
  2: { intros e. split; [apply (reflexivity (R := reading)) | by apply same_changed]. }
  intros d Hd. set (s1 := with_disk d s).
  assert (wp (if pf_sharded it then restore_sharded str_of w child it else restore_plain str_of class_of w child it)
    (item_done it s1) (λ _, item_failed it s1) s1) as H.
  { destruct (pf_sharded it) eqn:Hsh; [by apply sharded_item_spec | by apply plain_item_spec]. }
  eapply wp_mono; [exact H| |]; cbn beta; unfold item_done, item_failed, changed.
  - intros r s' (Hr & Hc & Hl). split; [exact Hr|]. split; [|exact Hl]. intros p Hp. rewrite Hc by done. simpl. by rewrite Hd.
  - intros e s' (Hr & Hc). split; [exact Hr|]. intros p Hp. rewrite Hc by done. simpl. by rewrite Hd.
Qed.

(** ** The loop *)
Context (planned : list planned_file) (skipped : list string) (s0 : state).
Hypothesis Hnormal : Forall (λ it, posix_path (pf_dest_path it) = pf_dest_path it) planned.

(** No other planned file has a spot of this one. *)
Definition alone (it : planned_file) : Prop :=
  ∀ it', it' ∈ planned → it' ≠ it → ∀ p, spot it p → ¬ spot it' p.

(** Whatever became of the files [done_]. *)
Record touched (done_ : list planned_file) (s : state) : Prop := {
  tc_read : reading (fj_job s0) (fj_job s);
  tc_disk : ∀ p, (∀ it, it ∈ done_ → ¬ spot it p) → dk_files (fj_disk s) !! p = dk_files (fj_disk s0) !! p;
}.

(** What the result says of them. *)
Record accounted (done_ : list planned_file) (r : tree_result) (s : state) : Prop := {
  ac_touched : touched done_ s;
  ac_total : tr_files_restored r + tr_files_failed r = Z.of_nat (length done_);
  ac_failed : tr_files_failed r = Z.of_nat (length (tr_failures r));
  ac_verified : tr_files_verified r = tr_files_restored r;
  ac_skipped : tr_skipped r = skipped;
  ac_landed : ∀ it, it ∈ done_ → pf_catalog_path it ∉ tf_catalog_path <$> tr_failures r → alone it →
    ∃ p data, p ∈ landings it ∧ dk_files (fj_disk s) !! p = Some data ∧
      archived_bytes (fj_catalog s0) (tj_ltfs (fj_job s0)) it data;
}.

Lemma touched_more done_ done_' s : done_ ⊆ done_' → touched done_ s → touched done_' s.
Proof. intros Hsub [H1 H2]. split; [done|]. intros p Hp. apply H2. auto. Qed.

Lemma touched_item done_ it s s' :
  touched done_ s → reading (fj_job s) (fj_job s') → changed it s s' → touched (done_ ++ [it]) s'.
Proof.
  intros [H1 H2] Hr Hc. split; [by etrans|]. intros p Hp.
  rewrite Hc by (apply Hp; set_solver). apply H2. intros it' ?. apply Hp. set_solver.
Qed.

Lemma accounted_aside done_ r s s' : aside s s' → accounted done_ r s → accounted done_ r s'.
Proof.
  intros [Hr Hd _] [[H1 H2] ? ? ? ? Hl]. split; try done; [split; [by etrans | by rewrite Hd]|]. by rewrite Hd.
Qed.

(** A file that failed is told by its path. *)
Lemma accounted_failed done_ it message r s s' :
  accounted done_ r s → reading (fj_job s) (fj_job s') → changed it s s' →
  (∀ it', it' ∈ done_ → it' ∈ planned) → it ∈ planned →
  accounted (done_ ++ [it]) (count_failed it message r) s'.
Proof.
  intros [Ht Htot Hf Hv Hsk Hl] Hr Hc Hdone Hit.
  split; simpl; rewrite ?length_app; simpl; try lia; [by eapply touched_item | done|].
  intros it' Hin Hnot Halone. rewrite fmap_app, not_elem_of_app in Hnot. destruct Hnot as [Hnot Hne].
  simpl in Hne. apply not_elem_of_cons in Hne as [Hne _].
  apply elem_of_app in Hin as [Hin|[->|[]%elem_of_nil]%elem_of_cons]; [|done].
  destruct (Hl it' Hin Hnot Halone) as (p & data & Hp & Hd & Hb). exists p, data. split; [done|]. split; [|done].
  rewrite Hc; [done|]. apply (Halone it Hit); [congruence | by apply landing_spot].
Qed.

Lemma accounted_restored done_ it bcs r s s' :
  accounted done_ r s → reading (fj_job s) (fj_job s') → changed it s s' → landed it s s' →
  it ∈ planned → accounted (done_ ++ [it]) (count_restored it true bcs r) s'.
Proof.
  intros [Ht Htot Hf Hv Hsk Hl] Hr Hc (p & data & Hp & Hd & Hb) Hit.
  split; simpl; rewrite ?length_app; simpl; try lia; [by eapply touched_item | done|].
  intros it' Hin Hnot Halone. destruct (decide (it' = it)) as [->|Hne].
  - exists p, data. split; [done|]. split; [done|]. destruct Ht as [[Hk Hcont _ _ _] _].
    by eapply archived_bytes_kept.
  - apply elem_of_app in Hin as [Hin|[->|[]%elem_of_nil]%elem_of_cons]; [|done].
    destruct (Hl it' Hin Hnot Halone) as (p' & data' & Hp' & Hd' & Hb'). exists p', data'.
    split; [done|]. split; [|done]. rewrite Hc; [done|]. apply (Halone it Hit); [congruence | by apply landing_spot].
Qed.

Lemma create_job_tables uuid now ty md : preserves (eq_on tables) (Catalog.create_job uuid now ty md).
Proof. unfold Catalog.create_job. solve_preserves. Qed.

Lemma restore_items_spec total (items done_ : list planned_file) acc s :
  (∀ it, it ∈ (done_ ++ items)%list → it ∈ planned) → accounted done_ acc.1 s →
  wp (restore_items str_of class_of w job_id total items acc)
    (λ r s', match r with
             | Some x => accounted (done_ ++ items)%list x.1 s'
             | None => touched (done_ ++ items)%list s'
             end)
    (λ _ s', touched (done_ ++ items)%list s') s.
Proof.
  revert done_ acc s. induction items as [|it items IH]; intros done_ acc s Hin Hacc.
  { simpl. wp_step. by rewrite app_nil_r. }
  assert (∀ (e : exn) s', aside s s' → touched (done_ ++ it :: items)%list s') as HE.
  { intros _ s' Hs. eapply (accounted_aside _ _ _ _ Hs), ac_touched in Hacc.
    eapply touched_more; [|done]. set_solver. }
  assert (it ∈ planned) as Hit by (apply Hin; set_solver).
  cbn [restore_items].
  apply (wp_bind_preserves aside) with (s0 := s); [auto with preserves | done | by eauto |]. intros uuid s1 H1.
  apply (wp_bind_preserves aside) with (s0 := s); [auto with preserves | done | by eauto |]. intros now s2 H2.
  apply (wp_bind_preserves aside) with (s0 := s);
    [apply on_tapes_still, catalog_op_calm, create_job_tables | done | by eauto |]. intros child s3 H3.
  apply (accounted_aside _ _ _ _ H3) in Hacc.
  assert (done_ ++ it :: items = (done_ ++ [it]) ++ items)%list as Happ by by rewrite <-app_assoc.
  rewrite Happ in *. clear HE.
  assert (∀ s', reading (fj_job s3) (fj_job s') → changed it s3 s' → touched ((done_ ++ [it]) ++ items)%list s') as HE.
  { intros s' Hr Hc. eapply touched_more; [|eapply touched_item; [apply Hacc | done..]]. set_solver. }
  assert (∀ message s', reading (fj_job s3) (fj_job s') → changed it s3 s' →
    wp (on_tapes (job_state_op w (jb_id child) "failed" (Some message));;
        restore_items str_of class_of w job_id total items
          (count_failed it message acc.1,
           acc.2 ++ [progress_of it total true (count_failed it message acc.1)])%list)
      (λ r s', match r with
               | Some x => accounted ((done_ ++ [it]) ++ items)%list x.1 s'
               | None => touched ((done_ ++ [it]) ++ items)%list s'
               end)
      (λ _ s', touched ((done_ ++ [it]) ++ items)%list s') s') as Hfail.
  { intros message s' Hr Hc. pose proof (HE s' Hr Hc) as Ht.
    apply (wp_bind_preserves aside) with (s0 := s'); [auto with preserves | done | |].
    - intros e s4 [H4 Hd4 _]. destruct Ht as [T1 T2]. split; [by etrans|]. by rewrite Hd4.
    - intros _ s4 H4. apply IH; [done|]. simpl. eapply accounted_aside; [exact H4|].
      eapply accounted_failed; [done..| |done]. intros it' ?. apply Hin. set_solver. }
  wp_step. apply wp_attempt. eapply wp_mono; [apply restore_item_spec| |]; cbn beta.
  - rewrite Forall_forall in Hnormal. by apply Hnormal.
  - intros [[error|[v bcs]]|] s' (Hr & Hc & Hl).
    + by apply Hfail.
    + destruct (Hl v bcs eq_refl) as [-> Hland]. apply IH; [done|]. simpl. by eapply accounted_restored.
    + wp_step. by apply HE.
  - intros e s' (Hr & Hc). by apply Hfail.
Qed.
End run.

(** ** The whole run *)
Lemma tables_barcodes c c' r : tables c' = tables c → barcodes_of c' r = barcodes_of c r ∧ is_sharded c' r = is_sharded c r.
Proof.
  intros [= Hf Hi]%tables_rows. unfold barcodes_of, archived_barcodes, is_sharded, list_shard_records, instances_of.
  by rewrite Hf, Hi.
Qed.
Lemma tables_tree_plan rq c c' : tables c' = tables c → plan_tree_restore rq c' = plan_tree_restore rq c.
Proof.
  intros Hc. unfold plan_tree_restore.
  assert (∀ p, _select_records c' p = _select_records c p) as Hsel.
  { intros p. pose proof (tables_rows _ _ Hc) as [= Hf _]. unfold _select_records, list_file_records. by rewrite Hf. }
  rewrite Hsel.
  assert (∀ p d rs, plan_records c' p d rs = plan_records c p d rs) as Hplan; [|by rewrite Hplan].
  intros p d rs. induction rs as [|r rs IH]; [done|]. simpl. destruct (tables_barcodes _ _ r Hc) as [-> ->].
  by rewrite IH.
Qed.

(** What a plan is made of. *)
Lemma plan_spec rq c : let prefix := _normalize_prefix (tq_catalog_prefix rq) in
  let dest := posix_path (tq_dest_dir rq) in
  match plan_tree_restore rq c with
  | Ok (planned, skipped) =>
      (pf_catalog_path <$> planned) ++ skipped ≡ₚ fl_path <$> _select_records c prefix ∧
      (∀ it, it ∈ planned → ∃ r, r ∈ _select_records c prefix ∧ planned_as c prefix dest r it) ∧
      (∀ p, p ∈ skipped → ∃ r, r ∈ _select_records c prefix ∧ fl_path r = p ∧ barcodes_of c r = [])
  | Raise e => ∃ r, r ∈ _select_records c prefix ∧ barcodes_of c r ≠ [] ∧
                 _relative_parts (fl_path r) prefix = Raise e
  end%list.
Proof.
  intros prefix dest. unfold plan_tree_restore. fold prefix dest.
  pose proof (plan_records_spec c prefix dest (_select_records c prefix)) as H.
  destruct (plan_records c prefix dest _) as [[planned skipped]|e]; [|exact H]. cbn [mbind result_bind fst snd].
  destruct H as (Hp & Hpl & Hsk). pose proof (proj1 (Forall_forall _ _) Hpl) as Hpl'.
  pose proof (proj1 (Forall_forall _ _) Hsk) as Hsk'. cbn beta in *. clear Hpl Hsk. split_and!.
  - rewrite <-Hp. by rewrite !sort_by_perm.
  - intros it Hit. apply Hpl'. by rewrite elem_of_sort_by in Hit.
  - intros p Hin. apply Hsk'. by rewrite elem_of_sort_by in Hin.
Qed.

Lemma planned_normal c prefix dir r it : posix_path dir = dir → planned_as c prefix dir r it →
  posix_path (pf_dest_path it) = pf_dest_path it.
Proof.
  intros Hdir (_ & _ & _ & _ & parts & [(_ & Hok & _) _]%relative_parts_spec & ->). by apply joinpath_normal.
Qed.

Lemma dry_counts planned r : let r' := foldl dry_count r planned in
  tr_files_restored r' = tr_files_restored r + Z.of_nat (length planned) ∧
  tr_files_failed r' = tr_files_failed r ∧ tr_failures r' = tr_failures r ∧ tr_skipped r' = tr_skipped r.
Proof.
  revert r. induction planned as [|it planned IH]; intros r; simpl; [split_and!; [lia|done..]|].
  destruct (IH (dry_count r it)) as (H1 & H2 & H3 & H4). simpl in *. split_and!; [lia|done..].
Qed.

Definition tree_outcome (rq : tree_request) (s : state) (res : tree_result) (s' : state) : Prop :=
  ∃ planned, plan_tree_restore rq (fj_catalog s) = Ok (planned, tr_skipped res) ∧
    tr_files_restored res + tr_files_failed res = Z.of_nat (length planned) ∧
    tr_files_failed res = Z.of_nat (length (tr_failures res)) ∧
    if tq_dry_run rq then tr_failures res = [] ∧ dk_files (fj_disk s') = dk_files (fj_disk s)
    else tr_files_verified res = tr_files_restored res ∧
      ∀ it, it ∈ planned → pf_catalog_path it ∉ tf_catalog_path <$> tr_failures res → alone planned it →
        ∃ p data, p ∈ landings it ∧ dk_files (fj_disk s') !! p = Some data ∧
          archived_bytes (fj_catalog s) (tj_ltfs (fj_job s)) it data.

Definition tree_frame (rq : tree_request) (s s' : state) : Prop :=
  reading (fj_job s) (fj_job s') ∧
  ∀ p, ¬ inside (posix_path (tq_dest_dir rq)) p → dk_files (fj_disk s') !! p = dk_files (fj_disk s) !! p.

Lemma run_tree_spec str_of class_of w job_id rq s :
  wp (run_tree_restore str_of class_of w job_id rq)
    (λ r s', tree_frame rq s s' ∧ ∀ res ticks, r = Some (res, ticks) → tree_outcome rq s res s')
    (λ _ s', tree_frame rq s s') s.
Proof.
  unfold run_tree_restore.
  assert (∀ s', aside s s' → tree_frame rq s s') as HE.
  { intros s' [Hr Hd _]. split; [exact Hr|]. intros p _. by rewrite Hd. }
  apply (wp_bind_preserves aside) with (s0 := s); [auto with preserves | done | by eauto |]. intros _ s1 H1.
  do 2 wp_step. pose proof (q_catalog _ _ (st_calm H1)) as Htables. rewrite (tables_tree_plan _ _ _ Htables).
  pose proof (plan_spec rq (fj_catalog s)) as Hplan. wp_step. wp_step; [|by apply HE]. destruct a as [planned skipped].
  change (tj_catalog (fj_job s)) with (fj_catalog s) in H. rewrite H in Hplan. destruct Hplan as (_ & Hpl & _).
  destruct (tq_dry_run rq) eqn:Hdry.
  { apply (wp_bind_preserves aside) with (s0 := s); [auto with preserves | done | by eauto |]. intros _ s2 H2.
    wp_step. split; [by apply HE|]. intros res ticks [= <- _]. exists planned.
    destruct (dry_counts planned (empty_result rq job_id skipped)) as (C1 & C2 & C3 & C4).
    rewrite C1, C2, C3, C4, Hdry. split; [done|]. simpl. split; [lia|]. split; [lia|]. split; [done|].
    by destruct H2 as [_ -> _]. }
  assert (Forall (λ it, posix_path (pf_dest_path it) = pf_dest_path it) planned) as Hnormal.
  { apply Forall_forall. intros it (r & _ & Hr)%Hpl. eapply planned_normal; [apply posix_path_idemp | exact Hr]. }
  assert (∀ s', touched s planned s' → tree_frame rq s s') as Htouched.
  { intros s' [Hr Hd]. split; [exact Hr|]. intros p Hp. apply Hd. intros it (r & _ & Has)%Hpl Hspot.
    apply Hp. by eapply spots_inside. }
  wp_step. eapply wp_mono.
  { apply (restore_items_spec str_of class_of w job_id planned skipped s Hnormal _ planned [] _ s1); [done|].
    destruct H1 as [Hr Hd _]. split; simpl; try done; [|by intros it ?%elem_of_nil].
    split; [exact Hr|]. intros p _. by rewrite Hd. }
  all: cbn beta; rewrite app_nil_l.
  - intros [[res ticks]|] s2 H2; [|wp_step; split; [by apply Htouched | done]].
    apply (wp_bind_preserves aside) with (s0 := s2); [destruct (tree_ok res); auto with preserves | done | |].
    + intros e s3 H3. apply Htouched. eapply ac_touched, accounted_aside; [exact H3 | exact H2].
    + intros _ s3 H3. wp_step. eapply accounted_aside in H2; [|exact H3].
      split; [by apply Htouched, (ac_touched _ _ _ _ _ _ H2)|]. intros res' ticks' [= <- _].
      exists planned. destruct H2 as [_ C1 C2 C3 C4 C5]. cbn [fst] in *. rewrite C4, Hdry.
      split; [done|]. split; [done|]. split; [done|]. split; [done|].
      intros it Hit Hnot Halone. by apply C5.
  - intros e s2 H2. by apply Htouched.
Qed.

(** * Examples

    Sharded archives, then the restore of a tree over the plant they leave. *)
Definition tree_state (lanes : list string) (mode : Shard.ShardMode.shard_mode)
    (files : list Archive.source_file) : state :=
  let s := (Archive.run_sample "/data" lanes mode files (Archive.sample_start no_faults no_faults)).2 in
  let c := (Catalog.create_job "job2" 1 "restore" [] (tj_catalog s)).2 in
  FileJob (TapeJob (Plant c [] (tj_ltfs s)) (new_scheduler 2 "job2" DEFAULT_LEASE_TTL) (tj_tick s)
             [] [] [] false [] [])
    FileRestore.sample_console (Disk ∅ ∅) FileRestore.no_locals.

Notation sample_tree := (run_tree_restore (λ _, "tape error") (λ _, "Error") FileRestore.sample_world "job2").

(** Files of one name in two directories stay apart; a striped file comes back
    from two tapes. *)
Example sample_tree_runs :
  let '(r, s) := sample_tree (TreeRestoreRequest " data//" "/dst" false)
                   (tree_state ["TAPE01L8"] Shard.ShardMode.STRIPE Archive.two_files) in
  (match r with
   | Ok (Some (res, ticks)) => Some (dget (to_dict res) "status", tr_per_tape_counts res, length ticks)
   | _ => None
   end) = Some (Some (JStr "completed"), [("TAPE01L8", 2)], 2%nat) ∧
  map_to_list (dk_files (fj_disk s)) =
    [("/dst/alpha/same.txt", bytes_of "one"); ("/dst/beta/same.txt", bytes_of "two")] ∧
  jb_state <$> get_job "job2" (fj_catalog s) = Some "completed".
Proof. vm_compute. by split_and!. Qed.

Example sample_tree_striped :
  let '(r, s) := sample_tree (TreeRestoreRequest "/" "/dst" false)
                   (tree_state ["TAPE01L8"; "TAPE02L8"] Shard.ShardMode.BLOCK_STRIPE
                      [Archive.SourceFile "/data/f" (bytes_of "abcdefghij")]) in
  (match r with
   | Ok (Some (res, _)) => Some (tr_files_restored res, tr_per_tape_counts res)
   | _ => None
   end) = Some (1, [("TAPE01L8", 1); ("TAPE02L8", 1)]) ∧
  map_to_list (dk_files (fj_disk s)) = [("/dst/data/f", bytes_of "abcdefghij")].
Proof. vm_compute. by split_and!. Qed.

(** * Properties *)

(** C15: The plan of a tree restore is exact and stays in its directory.  Every
    record of the catalog under the prefix that is not a shard is planned or
    reported as skipped, once, and nothing else is; what is skipped has no
    archived instance, what is planned has one on the tape it is planned for; a
    destination lies strictly below the directory, by components none of which
    climbs.  Two planned paths that are absolute, normal (as a path object spells
    them) and not the prefix itself never share a destination; the prefix and a
    path of the same name just below it do (see [tree_restore_overwrites]).  The
    plan fails only for a path with nothing safe to join. *)
Theorem tree_plan_exact (rq : tree_request) (c : catalog) :
  let prefix := _normalize_prefix (tq_catalog_prefix rq) in
  let listed := select (λ r, bool_decide (fl_parent_id r = None) && under prefix (fl_path r)) (ct_files c) in
  match plan_tree_restore rq c with
  | Ok (planned, skipped) =>
      (pf_catalog_path <$> planned) ++ skipped ≡ₚ fl_path <$> listed ∧
      (∀ p, p ∈ skipped → ∃ r, r ∈ listed ∧ fl_path r = p ∧ barcodes_of c r = []) ∧
      (∀ it, it ∈ planned → inside (posix_path (tq_dest_dir rq)) (pf_dest_path it) ∧
         ∃ r, r ∈ listed ∧ fl_path r = pf_catalog_path it ∧ head (barcodes_of c r) = Some (pf_barcode it)) ∧
      (∀ a b, a ∈ planned → b ∈ planned → pf_dest_path a = pf_dest_path b →
         (∀ it, it ∈ [a; b] → posix_path (pf_catalog_path it) = pf_catalog_path it ∧
            path_root (pf_catalog_path it) = "/" ∧ pf_catalog_path it ≠ prefix) →
         pf_catalog_path a = pf_catalog_path b)
  | Raise e => e = UnsafeCatalogPathError ∧ ∃ r, r ∈ listed ∧ barcodes_of c r ≠ [] ∧
      _relative_parts (fl_path r) prefix = Raise e
  end%list.
Proof.
  intros prefix listed. pose proof (plan_spec rq c) as H. cbv zeta in H. fold prefix in H.
  pose proof (select_records_exact (tq_catalog_prefix rq) c : _ ≡ₚ listed) as Hsel. fold prefix in Hsel.
  destruct (plan_tree_restore rq c) as [[planned skipped]|e].
  - destruct H as (Hp & Hpl & Hsk). split_and!.
    + by rewrite Hp, Hsel.
    + intros p (r & Hr & ?)%Hsk. exists r. by rewrite <-Hsel.
    + intros it (r & Hr & Hpath & _ & _ & Hb & parts & [Hsafe _]%relative_parts_spec & ->)%Hpl.
      split; [by apply joined_inside|]. exists r. rewrite <-Hsel. by split_and!.
    + intros a b (ra & _ & Ha & _ & _ & _ & ps & Hps & Hda)%Hpl (rb & _ & Hb & _ & _ & _ & qs & Hqs & Hdb)%Hpl Hd Hok.
      rewrite Hda, Hdb in Hd. rewrite <-Ha in Hps. rewrite <-Hb in Hqs.
      destruct (Hok a) as (? & ? & ?); [by left|]. destruct (Hok b) as (? & ? & ?); [by right; left|].
      by eapply destinations_apart.
  - destruct H as (r & Hr & Hb & He). split; [|exists r; by rewrite <-Hsel].
    destruct (prefix_form (tq_catalog_prefix rq)) as (ps & Hps & Hprefix). fold prefix in Hprefix.
    rewrite Hsel in Hr. unfold listed, select in Hr. apply list_elem_of_filter in Hr as [Hr _].
    rewrite Hprefix in *. eapply relative_parts_refusal; [done | | done].
    apply Is_true_true, andb_true_iff in Hr. by destruct Hr.
Qed.


(** A tree restore can lose a file to another: with a record at the prefix
    itself and one of the same name below it, as a catalog has once a file gave
    way to a directory, both go to one destination; both are counted restored and
    verified, the job is completed, and only the second is on the disk. *)
Theorem tree_restore_overwrites :
  let files := [Archive.SourceFile "/data/a" (bytes_of "one"); Archive.SourceFile "/data/a/a" (bytes_of "two")] in
  let '(r, s) := sample_tree (TreeRestoreRequest "/data/a" "/dst" false)
                   (tree_state ["TAPE01L8"] Shard.ShardMode.STRIPE files) in
  (match r with
   | Ok (Some (res, _)) => Some (tr_files_restored res, tr_files_verified res, tr_failures res, tr_skipped res)
   | _ => None
   end) = Some (2, 2, [], []) ∧
  jb_state <$> get_job "job2" (fj_catalog s) = Some "completed" ∧
  map_to_list (dk_files (fj_disk s)) = [("/dst/a", bytes_of "two")].
Proof. vm_compute. by split_and!. Qed.
