(* ===== verification/PathIndex.v ===== *)
(** The index of logical paths under its service (nas/path_mapping.py): the rows
    reached by any sequence of calls are well typed, so that no read of the index
    raises, although every read validates the rows it returns again. *)
From stdpp Require Import base list option strings sets.
From Stdlib Require Import Ascii ZArith Lia.
From S2P Require Import Prelude Wp Paths Domain Planner Capacity Json TapeModels Metadata NasTables.
#[local] Open Scope string_scope.

(** The calls that write. *)
Inductive index_call : Type :=
| Record_file (now : datetime) (r : PathMappingRecord)
| Bulk_record_files (now : datetime) (entries : list PathMappingRecord) (overwrite_existing : bool)
| Update_file_state (now : datetime) (path pool : string) (st : NasFileState)
| Remove_path (path pool : string).
Definition perform (c : index_call) : M nas_tables unit :=
  match c with
  | Record_file now r => record_file now r;; mret tt
  | Bulk_record_files now entries overwrite => bulk_record_files now entries overwrite;; mret tt
  | Update_file_state now path pool st => update_file_state now path pool st;; mret tt
  | Remove_path path pool => remove_path path pool;; mret tt
  end.
(** A call that raises leaves what it wrote before. *)
Definition after_calls (cs : list index_call) (t : nas_tables) : nas_tables :=
  foldl (λ t c, (perform c t).2) t cs.

(** * Rows well typed *)
Definition valid_row (x : (string * string) * PathMappingRecord) : Prop :=
  x.1 = (pm_logical_path x.2, pm_pool_id x.2) ∧ PathMappingRecord_validate x.2 = Ok x.2.
Definition valid_index (t : nas_tables) : Prop :=
  dict_wf (nt_mappings t) ∧ Forall valid_row (nt_mappings t).

Lemma ddel_Forall {K V} `{EqDecision K} (P : K * V → Prop) (d : dict K V) k :
  Forall P d → Forall P (ddel d k).
Proof. intros Hd. induction Hd as [|[k' v'] d Hx Hd IH]; simpl; [done|]. case_decide; auto. Qed.

Lemma validated_row r v : PathMappingRecord_validate r = Ok v → PathMappingRecord_validate v = Ok v.
Proof.
  unfold PathMappingRecord_validate, validate_logical_path. case_bool_decide as Hd; [done|].
  simpl. intros [= <-]. cbn [pm_logical_path with_logical_path].
  by rewrite strip_idemp, bool_decide_false.
Qed.
Lemma mapping_row_valid now row r : PathMappingRecord_validate r = Ok r →
  valid_row ((pm_logical_path r, pm_pool_id r), mapping_row now row r).
Proof.
  intros Hr. split; [done|]. revert Hr. unfold PathMappingRecord_validate. cbn [snd].
  change (pm_logical_path (mapping_row now row r)) with (pm_logical_path r).
  destruct (validate_logical_path _) as [p|]; [|done]. simpl. intros [= Hr].
  by rewrite <-Hr.
Qed.

(** ** Every call keeps the rows well typed *)
Notation keeps m := (∀ t, valid_index t → wp m (λ _, valid_index) (λ _, valid_index) t).
Lemma upsert_valid now r t : valid_index t →
  wp (upsert_path_mapping now r) (λ _, valid_index) (λ _, valid_index) t.
Proof.
  intros [Hwf Hall]. unfold upsert_path_mapping. apply wp_bind, wp_liftR; [|done]. intros v Hv. cbv zeta.
  apply wp_bind, wp_gets, wp_bind, wp_modify. set (row := mapping_row _ _ _).
  assert (valid_index (with_mappings
    (dset (nt_mappings t) (pm_logical_path v, pm_pool_id v) row) t)) as Hi.
  { split; [by apply dict_wf_dset|]. apply Forall_dset; [done|].
    by eapply mapping_row_valid, validated_row. }
  by apply wp_liftR.
Qed.
Lemma bulk_valid now entries t : valid_index t →
  wp (bulk_upsert_loop now entries) (λ _, valid_index) (λ _, valid_index) t.
Proof.
  revert t. induction entries as [|r entries IH]; intros t Ht; cbn [bulk_upsert_loop]; [by apply wp_ret|].
  apply wp_bind. eapply wp_mono; [by apply upsert_valid| |done]. cbn beta. intros _ t' Ht'. by apply IH.
Qed.
Lemma perform_valid c t : valid_index t → valid_index (perform c t).2.
Proof.
  intros Ht. apply wp_state. destruct c; cbn [perform]; apply wp_bind.
  - unfold record_file. eapply wp_mono; [by apply upsert_valid|..]; cbn beta; [|done].
    intros. by apply wp_ret.
  - unfold bulk_record_files, bulk_upsert_path_mappings. apply wp_bind, wp_getS, wp_bind, wp_liftR; [|done].
    intros l _. apply wp_bind. eapply wp_mono; [by apply bulk_valid|..]; cbn beta; [|done].
    intros _ t' Ht'. by apply wp_ret, wp_ret.
  - unfold update_file_state. apply wp_bind, wp_getS, wp_bind, wp_liftR; [|done].
    intros [r|] _; [|by apply wp_ret, wp_ret]. apply wp_bind.
    eapply wp_mono; [by apply upsert_valid|..]; cbn beta; [|done]. intros. by apply wp_ret, wp_ret.
  - unfold remove_path, delete_path_mapping. apply wp_bind, wp_gets. destruct (dget _ _); [|by apply wp_ret, wp_ret].
    apply wp_bind, wp_modify, wp_ret, wp_ret. destruct Ht as [Hwf Hall]. split.
    + by apply dict_wf_ddel.
    + by apply ddel_Forall.
Qed.
Lemma after_calls_valid cs t : valid_index t → valid_index (after_calls cs t).
Proof. revert t. induction cs as [|c cs IH]; intros t Ht; [done|]. by apply IH, perform_valid. Qed.

(** * Reading *)
Lemma search_valid q t : valid_index t → ∃ l, search_path_mappings q t = Ok l ∧
  ∀ r, r ∈ l → search_matches q r = true ∧ dget (nt_mappings t) (pm_logical_path r, pm_pool_id r) = Some r.
Proof.
  intros [Hwf Hall]. unfold search_path_mappings. set (l := take _ _).
  assert (∀ r, r ∈ l → search_matches q r = true ∧ ∃ k, (k, r) ∈ nt_mappings t) as Hl.
  { intros r Hr. unfold l in Hr. apply subseteq_take, subseteq_drop in Hr.
    rewrite elem_of_sort_by, list_elem_of_filter in Hr. destruct Hr as [Hm Hr]. split; [done|].
    apply list_elem_of_fmap in Hr as ([k r'] & -> & Hr). by exists k. }
  rewrite Forall_forall in Hall. exists l. split.
  - rewrite <-(list_fmap_id l) at 1. apply mapR_fmap_id, Forall_forall. intros r Hr.
    destruct (Hl r Hr) as [_ [k Hk]]. by apply (Hall (k, r)).
  - intros r Hr. destruct (Hl r Hr) as [Hm [k Hk]]. split; [done|]. destruct (Hall (k, r) Hk) as [Heq _].
    cbn [fst snd] in Heq. rewrite <-Heq. by apply elem_dget.
Qed.

(** C38: the index is well typed.  After any sequence of calls of the service, those
    that raised included, no read of it raises, though each validates every row it
    returns: a lookup answers, and finds exactly the paths the index has; a search
    answers with rows that match and that a lookup of their own path finds; the
    tapes of a pool and the statistics are computed. *)
Theorem index_well_typed (cs : list index_call) : let t := after_calls cs empty_tables in
  (∀ path pool, ∃ found, lookup_path path pool t = Ok found ∧
     (pr_found found = true ↔ is_Some (dget (nt_mappings t) (path, pool)))) ∧
  (∀ q, ∃ l, search_path_mappings q t = Ok l ∧ ∀ r, r ∈ l → search_matches q r = true ∧
     ∃ found, lookup_path (pm_logical_path r) (pm_pool_id r) t = Ok found ∧ pr_found found = true ∧
       pr_primary_barcode found = pm_primary_barcode r ∧ pr_all_barcodes found = pm_all_barcodes r) ∧
  (∀ pool, is_ok (list_tapes_for_pool pool t) = true) ∧
  (∀ pool dataset, is_ok (get_stats pool dataset t) = true).
Proof.
  intros t. assert (valid_index t) as Ht by (apply after_calls_valid; by split; [constructor|]).
  pose proof (λ q, search_valid q t Ht) as Hsearch. destruct Ht as [Hwf Hall].
  assert (∀ path pool r, dget (nt_mappings t) (path, pool) = Some r →
    lookup_path path pool t = Ok (MkPathLookup (pm_logical_path r) true (pm_pool_id r) (pm_dataset_id r)
      (pm_primary_barcode r) (pm_all_barcodes r) (pm_file_state r) (pm_restore_strategy r) (pm_size r)
      (pm_checksum r) (lookup_warnings r))) as Hrow.
  { intros path pool r Hr. destruct (Forall_dget _ _ _ _ Hall Hr) as [_ Hv]. cbn [snd] in Hv.
    unfold lookup_path, get_path_mapping. rewrite Hr, Hv. done. }
  split_and!.
  - intros path pool. destruct (dget (nt_mappings t) (path, pool)) as [r|] eqn:Hr.
    + eexists. split; [by apply Hrow|]. done.
    + eexists. unfold lookup_path, get_path_mapping. rewrite Hr. split; [done|].
      split; [done|]. by intros [].
  - intros q. destruct (Hsearch q) as (l & Hl & Hin). exists l. split; [done|]. intros r Hr.
    destruct (Hin r Hr) as [Hm Hd]. split; [done|]. eexists. split; [by apply Hrow|done].
  - intros pool. unfold list_tapes_for_pool. by destruct (Hsearch (MkPathSearch "" "" pool "" "" None STATS_LIMIT 0))
      as (l & -> & _).
  - intros pool dataset. unfold get_stats.
    by destruct (Hsearch (MkPathSearch "" "" pool dataset "" None STATS_LIMIT 0)) as (l & -> & _).
Qed.
