(* ===== verification/Lifecycle.v ===== *)
(** What follows the writing of a file to a tape (nas/archive_lifecycle.py): six
    steps that verify the bytes, record the file in the manifest and in the catalog
    shard of the tape, index its path and mark it archived; and the completion of a
    dataset. *)
From stdpp Require Import base list option strings sets.
From Stdlib Require Import Ascii ZArith Lia.
From S2P Require Import Prelude Wp Paths Bytes Domain Catalog Planner Capacity Json TapeModels.
From S2P Require Import Metadata LtfsBackend Generation NasTables.
#[local] Open Scope string_scope.
#[local] Open Scope Z_scope.

(** * State: the store of the tapes, the tables, and the readings taken so far *)
Record desk (S : Type) : Type := Desk { dk_backend : S; dk_tables : nas_tables; dk_tick : nat }.
Arguments Desk {S} _ _ _.
Arguments dk_backend {S} _.
Arguments dk_tables {S} _.
Arguments dk_tick {S} _.

(** The clock, as a date and as a number, and the identifiers drawn, by tick. *)
Record readings : Type := Readings {
  rd_now : nat → datetime; rd_instant : nat → Z; rd_uuid : nat → string;
}.

Definition on_backend {S A} (m : M S A) : M (desk S) A :=
  zoom dk_backend (λ b s, Desk b (dk_tables s) (dk_tick s)) m.
Definition on_tables {S A} (m : M nas_tables A) : M (desk S) A :=
  zoom dk_tables (λ t s, Desk (dk_backend s) t (dk_tick s)) m.
Definition tick {S A} (f : nat → A) : M (desk S) A := λ s,
  (Ok (f (dk_tick s)), Desk (dk_backend s) (dk_tables s) (Datatypes.S (dk_tick s))).
Definition of_tables {S A} (f : nas_tables → A) : M (desk S) A := gets (λ s, f (dk_tables s)).

(** * Results *)
Record ArchiveLifecycleResult : Type := MkLifecycleResult {
  al_file_record_id : string; al_logical_path : string; al_barcode : string; al_success : bool;
  al_steps_completed : list string; al_steps_failed : list string; al_errors : list string;
  al_final_file_state : string;
}.
Record DatasetArchiveResult : Type := MkDatasetResult {
  da_dataset_id : string; da_success : bool; da_files_completed : Z; da_files_failed : Z;
  da_file_results : list ArchiveLifecycleResult; da_dataset_marked_archived : bool;
  da_errors : list string;
}.

(** The order of the entries of a document. *)
Definition entry_le (a b : string * string) : bool :=
  negb (String.leb b.1 a.1) || (bool_decide (a.1 = b.1) && String.leb a.2 b.2).
Definition me_key (e : ManifestFileEntry) : string * string := (me_logical_path e, me_file_record_id e).
Definition se_key (e : CatalogShardFileEntry) : string * string := (se_logical_path e, se_file_record_id e).

Section lifecycle.
Context {S : Type} {BK : Backend S} {PD : Pydantic} {FT : FloatText} (w : readings).
Implicit Types (f : NasFileRecord) (bc tape_path policy_name : string).

Definition _get_dataset (dataset_id : string) : M (desk S) (option NasDataset) :=
  payload ← of_tables (get_nas_dataset dataset_id);
  match payload with None => mret None | Some d => Some <$> liftR (NasDataset_validate d) end.
Definition _require_dataset (dataset_id : string) : M (desk S) NasDataset :=
  dataset ← _get_dataset dataset_id;
  match dataset with None => raise ValueError | Some d => mret d end.
Definition _get_file_record (file_id : string) : M (desk S) (option NasFileRecord) :=
  payload ← of_tables (get_nas_file_record file_id);
  match payload with None => mret None | Some f => Some <$> liftR (NasFileRecord_validate f) end.
Definition _current_file_state (file_id : string) (fallback : NasFileState) : M (desk S) string :=
  current ← _get_file_record file_id;
  mret (enum_value (match current with None => fallback | Some f => nf_status f end)).

(** ** The steps *)
Definition _step_verify_checksum f bc tape_path : M (desk S) bool :=
  tape_bytes ← on_backend (_read_bytes bc tape_path);
  mret match tape_bytes with
       | None => false
       | Some c =>
           match py_or (nf_checksum_sha256 f) None with
           | Some expected => bool_decide (sha256_hex c = expected)
           | None => true
           end
       end.

Definition manifest_entry f tape_path policy_name : ManifestFileEntry :=
  MkManifestFileEntry (nf_relative_path f) tape_path (nf_dataset_id f) (nf_id f) (nf_size_bytes f)
    (or_text (nf_mtime f) "") (or_text (nf_checksum_sha256 f) "") 1 policy_name true.
Definition next_manifest (existing : option ManifestJson) (dataset : NasDataset) f bc tape_path policy_name
    : ManifestJson :=
  let old {A} (g : ManifestJson → list A) := match existing with Some m => g m | None => [] end in
  let files := (filter (λ e, me_file_record_id e ≠ nf_id f) (old mj_files)
                ++ [manifest_entry f tape_path policy_name])%list in
  MkManifestJson MANIFEST_SCHEMA bc
    match existing with Some m => mj_openblade_tape_id m | None => bc end
    match existing with Some m => mj_volume_group m | None => or_text (ds_volume_group_id dataset) "" end
    (_ordered_unique ((Some <$> old mj_pools) ++ (if falsy (nf_pool_id f) then [] else [nf_pool_id f])))
    (_ordered_unique ((Some <$> old mj_datasets) ++ [Some (nf_dataset_id f)]))
    (old mj_tape_sets) (old mj_shard_sets)
    (sort_by (λ a b, entry_le (me_key a) (me_key b)) files) "" [] "" None.
Definition _step_write_manifest f bc tape_path policy_name : M (desk S) bool :=
  dataset ← _require_dataset (nf_dataset_id f);
  existing ← on_backend (read_manifest bc);
  let manifest := next_manifest existing dataset f bc tape_path policy_name in
  now ← tick (rd_now w);
  temp_path ← on_backend (begin_write now bc manifest);
  on_backend (commit_write bc temp_path);;
  mv_valid <$> on_backend (validate_manifest bc).

Fixpoint tape_path_of (id : string) (entries : list ManifestFileEntry) : string :=
  match entries with
  | [] => ""
  | e :: entries => if bool_decide (me_file_record_id e = id) then me_tape_path e else tape_path_of id entries
  end.
Definition _resolve_tape_path bc (file_record_id : string) : M (desk S) string :=
  manifest ← on_backend (read_manifest bc);
  mret match manifest with Some m => tape_path_of file_record_id (mj_files m) | None => "" end.

Definition shard_entry (dataset : NasDataset) f tape_path (dataset_id pool_id : string)
    : CatalogShardFileEntry :=
  MkShardFileEntry (nf_relative_path f) tape_path dataset_id (nf_id f) pool_id (nf_size_bytes f)
    (or_text (nf_mtime f) "") (or_text (nf_checksum_sha256 f) "") (enum_value OFFLINE_ON_TAPE)
    (or_text (ds_policy_id dataset) "") 1 true.
Definition next_shard (existing : option CatalogShard) (dataset : NasDataset) f bc tape_path
    (dataset_id pool_id generated_at : string) : CatalogShard :=
  let old {A} (g : CatalogShard → list A) := match existing with Some s => g s | None => [] end in
  let files := sort_by (λ a b, entry_le (se_key a) (se_key b))
    (filter (λ e, se_file_record_id e ≠ nf_id f) (old sh_files)
     ++ [shard_entry dataset f tape_path dataset_id pool_id]) in
  let dataset_files := filter (λ e, se_dataset_id e = dataset_id) files in
  let datasets := (filter (λ d, sd_dataset_id d ≠ dataset_id) (old sh_datasets)
    ++ [MkShardDatasetEntry dataset_id pool_id (or_text (ds_volume_group_id dataset) "")
          (or_text (ds_policy_id dataset) "")
          match ds_ingest_mode dataset with Some m => enum_value m | None => "" end
          (Z.of_nat (length dataset_files)) (sum_sizes se_size dataset_files) [bc] [] None])%list in
  MkCatalogShard CATALOG_SHARD_SCHEMA bc
    match existing with Some s => sh_openblade_tape_id s | None => bc end
    match existing with Some s => sh_volume_group s | None => or_text (ds_volume_group_id dataset) "" end
    generated_at "0.1.0"
    (sort_by (λ a b, String.leb (sd_dataset_id a) (sd_dataset_id b)) datasets) files REBUILD_HINT.
Definition _step_write_catalog_shard f bc (dataset_id pool_id : string) : M (desk S) bool :=
  dataset ← _require_dataset dataset_id;
  existing ← on_backend (read_shard bc);
  tape_path ← _resolve_tape_path bc (nf_id f);
  now ← tick (rd_now w);
  on_backend (write_shard bc (next_shard existing dataset f bc tape_path dataset_id pool_id (iso_utc now)));;
  sv_valid <$> on_backend (validate_catalog_shard bc).

(** [t] and [u] are the readings of the model's defaults. *)
Definition mapping_of f bc (pool_id id created seen : string) : PathMappingRecord :=
  MkPathMapping id (nf_relative_path f) pool_id (nf_dataset_id f) bc [bc] (nf_id f) OFFLINE_ON_TAPE
    "single_tape" (nf_size_bytes f) (or_text (nf_checksum_sha256 f) "") seen created created.
Definition _step_update_path_mapping f bc (pool_id : string) : M (desk S) bool :=
  id ← tick (rd_uuid w);
  created ← tick (rd_now w);
  seen ← tick (rd_now w);
  built ← liftR (PathMappingRecord_validate (mapping_of f bc pool_id id (iso_z created) (iso_utc seen)));
  now ← tick (rd_now w);
  record ← on_tables (record_file now built);
  s ← getS;
  found ← liftR (lookup_path (pm_logical_path record) (pm_pool_id record) (dk_tables s));
  mret (pr_found found).

Definition next_tape_json (existing : option TapeJson) (cartridge : option cartridge_row) bc
    (created_at now : string) : TapeJson :=
  let old (g : TapeJson → string) (dflt : string) := match existing with Some x => g x | None => dflt end in
  MkTapeJson "openblade.tape.v1" (old tx_openblade_tape_id bc) bc (old tx_ltfs_volume_uuid "")
    (old tx_library_type "Quantum Scalar i3") created_at now (old tx_openblade_version "0.1.0")
    match existing with
    | Some x => tx_volume_group x
    | None => or_text (cartridge ≫= cr_volume_group_id) ""
    end
    match existing with Some x => tx_pools x | None => [] end
    (old tx_state "active") (old tx_generation "LTO-8") (old tx_notes "") None None.
Definition _step_update_tape_json bc : M (desk S) bool :=
  existing ← on_backend (read_tape_json bc);
  created_at ← match existing with
               | Some x => mret (tx_created_at x)
               | None => now ← tick (rd_now w); mret (iso_utc now)
               end;
  cartridge ← of_tables (λ t, get_cartridge bc (nt_catalog t));
  now ← tick (rd_now w);
  on_backend (write_tape_json bc (next_tape_json existing cartridge bc created_at (iso_utc now)));;
  written ← on_backend (read_tape_json bc);
  mret (bool_decide (is_Some written)).

Definition _step_mark_file_archived f : M (desk S) bool :=
  now ← tick (rd_now w);
  on_tables (update_nas_file_status now (nf_id f) OFFLINE_ON_TAPE).

(** ** One file *)
Definition lifecycle_steps f bc tape_path policy_name : list (string * M (desk S) bool) :=
  let pool_id := or_text (nf_pool_id f) "" in
  [("verify_checksum", _step_verify_checksum f bc tape_path);
   ("write_manifest", _step_write_manifest f bc tape_path policy_name);
   ("write_catalog_shard", _step_write_catalog_shard f bc (nf_dataset_id f) pool_id);
   ("update_path_mapping", _step_update_path_mapping f bc pool_id);
   ("update_tape_json", _step_update_tape_json bc);
   ("mark_file_archived", _step_mark_file_archived f)].

Definition step_result f bc (success : bool) (completed failed errors : list string) (state : string)
    : ArchiveLifecycleResult :=
  MkLifecycleResult (nf_id f) (nf_relative_path f) bc success completed failed errors state.
Fixpoint run_steps f bc (completed : list string) (steps : list (string * M (desk S) bool))
    : M (desk S) ArchiveLifecycleResult :=
  match steps with
  | [] =>
      state ← _current_file_state (nf_id f) OFFLINE_ON_TAPE;
      mret (step_result f bc true completed [] [] state)
  | (name, step) :: steps =>
      outcome ← attempt (
        ok ← step;
        if ok : bool then mret None
        else state ← _current_file_state (nf_id f) (nf_status f);
             mret (Some (step_result f bc false completed [name] [name ++ " failed"] state)));
      match outcome with
      | Ok None => run_steps f bc (completed ++ [name])%list steps
      | Ok (Some failed) => mret failed
      | Raise _ =>
          state ← _current_file_state (nf_id f) (nf_status f);
          mret (step_result f bc false completed [name]
                  [name ++ " encountered an unexpected error"] state)
      end
  end.
Definition complete_file_archive f bc tape_path policy_name : M (desk S) ArchiveLifecycleResult :=
  _current_file_state (nf_id f) (nf_status f);;
  run_steps f bc [] (lifecycle_steps f bc tape_path policy_name).

(** ** A dataset *)
Definition unresolved (current : NasFileRecord) bc (error state : string) : ArchiveLifecycleResult :=
  step_result current bc false [] ["resolve_tape_path"] [error] state.
Definition complete_one (barcode : string) (tape_paths : dict string string) policy_name f
    : M (desk S) ArchiveLifecycleResult :=
  stored ← _get_file_record (nf_id f);
  let current := default f stored in
  let resolved := or_text (nf_tape_barcode current) barcode in
  if bool_decide (resolved = "")
  then state ← _current_file_state (nf_id current) (nf_status current);
       mret (unresolved current barcode "missing barcode for file archive completion" state)
  else if bool_decide (nf_status current = OFFLINE_ON_TAPE)
  then mret (step_result current resolved true [] [] [] (enum_value OFFLINE_ON_TAPE))
  else match py_or (dget tape_paths (nf_id current)) None with
       | None =>
           state ← _current_file_state (nf_id current) (nf_status current);
           mret (unresolved current resolved ("missing tape path for file " ++ nf_id current) state)
       | Some tape_path => complete_file_archive current resolved tape_path policy_name
       end.
Fixpoint complete_each (barcode : string) (tape_paths : dict string string) policy_name
    (file_records : list NasFileRecord) : M (desk S) (list ArchiveLifecycleResult) :=
  match file_records with
  | [] => mret []
  | f :: file_records =>
      r ← complete_one barcode tape_paths policy_name f;
      rest ← complete_each barcode tape_paths policy_name file_records;
      mret (r :: rest)
  end.
Fixpoint refresh_each (file_records : list NasFileRecord) : M (desk S) (list NasFileRecord) :=
  match file_records with
  | [] => mret []
  | f :: file_records =>
      stored ← _get_file_record (nf_id f);
      rest ← refresh_each file_records;
      mret (default f stored :: rest)
  end.

Definition archived_dataset (d : NasDataset) (tape_set : list string)
    (shard_map : dict string (list string)) : NasDataset :=
  MkNasDataset (ds_id d) (ds_pool_id d) (ds_name d) (ds_source_path d) (ds_source_host d)
    (ds_policy_id d) (ds_ingest_mode d) (ds_volume_group_id d) tape_set shard_map (ds_file_count d)
    (ds_total_bytes d) DS_ARCHIVED (Z.of_nat (length tape_set)) (ds_manifest_path d)
    (ds_created_at d) (ds_updated_at d).
(** Mark the dataset, or say why not. *)
Definition mark_dataset_archived (dataset_id : string) : M (desk S) (option string) :=
  dataset ← _get_dataset dataset_id;
  match dataset with
  | None => mret (Some ("dataset " ++ dataset_id ++ " not found"))
  | Some d =>
      rows ← of_tables (list_nas_file_records dataset_id);
      all ← liftR (mapR NasFileRecord_validate rows);
      let tape_set := _ordered_unique (nf_tape_barcode <$> all) in
      let paths_on b := sort_by String.leb
            (nf_relative_path <$> filter (λ f, nf_tape_barcode f = Some b) all) in
      now ← tick (rd_now w);
      on_tables (upsert_nas_dataset now
        (archived_dataset d tape_set ((λ b, (b, paths_on b)) <$> tape_set)));;
      mret None
  end.
Definition complete_dataset_archive (dataset_id : string) (file_records : list NasFileRecord)
    (barcode : string) (tape_paths : dict string string) policy_name : M (desk S) DatasetArchiveResult :=
  results ← complete_each barcode tape_paths policy_name file_records;
  let failed := filter (λ r, al_success r = false) results in
  let errors := concat (al_errors <$> failed) in
  refreshed ← refresh_each file_records;
  let all_archived := bool_decide (refreshed ≠ []) &&
                      forallb (λ f, bool_decide (nf_status f = OFFLINE_ON_TAPE)) refreshed in
  refusal ← (if bool_decide (failed = []) && all_archived
             then r ← mark_dataset_archived dataset_id; mret (Some r) else mret None);
  let marked := bool_decide (refusal = Some None) in
  let errors := (errors ++ match refusal with Some (Some e) => [e] | _ => [] end ++
                 (if bool_decide (failed = []) && negb marked then ["dataset not marked archived"] else []))%list in
  mret (MkDatasetResult dataset_id (bool_decide (failed = []) && marked)
          (Z.of_nat (length results) - Z.of_nat (length failed)) (Z.of_nat (length failed))
          results marked errors).
End lifecycle.

(** * Where the documents of a tape change *)
Section frames.
Context {S : Type} {BK : Backend S} {BL : BackendLaws S} {PD : Pydantic} {FT : FloatText}.
Implicit Types (s : S) (bc p q : string).

(** Documents change only at the paths of [P]. *)
Definition touches (P : string → Prop) : relation S := λ s s',
  ∀ bc q, is_file q → ¬ P q → view s' bc q = view s bc q.
#[export] Instance touches_preorder P : PreOrder (touches P).
Proof.
  split; [done|]. intros s1 s2 s3 H12 H23 bc q Hq HP. by rewrite H23, H12.
Qed.
Lemma same_touches P s s' : same_files s s' → touches P s s'.
Proof. intros Hs bc q Hq _. by apply Hs. Qed.
Lemma touches_mono (P Q : string → Prop) s s' : (∀ q, P q → Q q) → touches P s s' → touches Q s s'.
Proof. intros HPQ Hs bc q Hq HQ. apply Hs; [done|]. intros HP. by apply HQ, HPQ. Qed.

Lemma writes_touches P bc ws s s' : Forall (λ x, P x.1) ws → writes bc ws s s' → touches P s s'.
Proof.
  intros HP Hw bc' q Hq HnP. rewrite (Hw bc' q Hq). rewrite written_none; [by case_match|].
  intros ([? c] & -> & Hin)%list_elem_of_fmap. rewrite Forall_forall in HP. by apply HnP, (HP (_, c)).
Qed.

Lemma quiet_touches {A} P (m : M S A) s : quiet m → wp m (λ _, touches P s) (λ _, touches P s) s.
Proof. intros Hm. eapply wp_mono; [apply Hm| |]; cbn beta; intros; by apply same_touches. Qed.

Lemma performs_touches {A} P bc ws (m : M S A) (Q : A → Prop) s : Forall (λ x, P x.1) ws →
  performs bc ws m Q → wp m (λ a s', Q a ∧ writes bc ws s s' ∧ touches P s s') (λ _, touches P s) s.
Proof.
  intros HP Hm. eapply wp_mono; [apply Hm| |]; cbn beta.
  - intros a s' [HQ Hw]. split_and!; [done..|]. by eapply writes_touches.
  - intros e s' (ws1 & x & ws2 & -> & Hw). eapply writes_touches; [|done].
    by apply Forall_app in HP as [HP _].
Qed.

Definition metadata_path (q : string) : Prop := startswith q "/.openblade/" = true.
End frames.

Lemma tmp_is_file s : is_file (s ++ ".tmp").
Proof. change ".tmp" with (".tm" ++ "p"). rewrite <-append_assoc. by apply is_file_app. Qed.
Lemma json_is_file s : is_file (s ++ ".json").
Proof. change ".json" with (".jso" ++ "n"). rewrite <-append_assoc. by apply is_file_app. Qed.

Section steps.
Context {S : Type} {BK : Backend S} {BL : BackendLaws S} {PD : Pydantic} {FT : FloatText} (w : readings).
Implicit Types (s : desk S) (b : S) (bc p q : string) (f : NasFileRecord).

(** ** The two-phase write of a manifest *)
Definition manifest_files (q : string) : Prop :=
  q ∈ [MANIFEST_PATH; MANIFEST_CHECKSUM_PATH] ∨ startswith q VERSION_PREFIX = true.
Definition temp_of (now : datetime) : string := VERSION_PREFIX ++ compact_stamp now ++ ".tmp".

Lemma performs_begin now bc m :
  performs bc [(temp_of now, text_bytes (model_dump m))] (begin_write now bc m) (λ r, r = temp_of now).
Proof.
  unfold begin_write. apply performs_quiet; [done|apply quiet_dirs|intros []].
  apply performs_quiet; [done|apply quiet_dir|intros []]. cbv zeta.
  eapply (performs_bind _ [_] []); [apply performs_text|]. intros [] _. by apply performs_ret.
Qed.

Lemma temp_files now : manifest_files (temp_of now) ∧ is_file (temp_of now) ∧
  manifest_files (removesuffix (temp_of now) ".tmp" ++ ".json").
Proof.
  unfold temp_of. split_and!.
  - right. apply startswith_app.
  - rewrite <-append_assoc. apply tmp_is_file.
  - right. rewrite <-append_assoc, removesuffix_app, append_assoc. apply startswith_app.
Qed.

Lemma wp_commit now bc j b : plain j → view b bc (temp_of now) = Some (text_bytes j) →
  wp (commit_write bc (temp_of now))
    (λ _ b', view b' bc MANIFEST_PATH = Some (text_bytes j) ∧
       view b' bc MANIFEST_CHECKSUM_PATH = Some (encode (sha256_hex (text_bytes j))) ∧
       touches manifest_files b b')
    (λ _ b', touches manifest_files b b') b.
Proof.
  intros Hj Hv. destruct (temp_files now) as (Ht & Htf & Hvf). unfold commit_write, _validate_temp_path.
  apply wp_bind, wp_raise_if; [by intros|]. intros _. apply wp_bind.
  eapply wp_mono; [by apply wp_read_text| |intros e b1 [_ H1]; by apply same_touches]; cbn beta.
  intros t b1 [Hr H1]. rewrite Hv in Hr. unfold text_bytes in Hr. rewrite text_of_encode in Hr.
  injection Hr as <-. rewrite loads_print by done. cbv zeta.
  set (version := removesuffix _ _ ++ ".json") in *.
  assert (performs bc [(version, text_bytes j); (MANIFEST_PATH, text_bytes j);
            (MANIFEST_CHECKSUM_PATH, encode (compute_json_checksum (canonical j)))]
    (ensure_openblade_dirs bc;; _ensure_dir bc VERSIONS_DIR;; _write_text bc version (dumps j);;
     _write_text bc MANIFEST_PATH (dumps j);;
     _write_text bc MANIFEST_CHECKSUM_PATH (compute_json_checksum (canonical j));;
     mret (compute_json_checksum (canonical j))) (λ _, True)) as Hp.
  { apply performs_quiet; [done|apply quiet_dirs|intros []].
    apply performs_quiet; [done|apply quiet_dir|intros []].
    eapply (performs_bind _ [_] (_ :: _)); [apply performs_text|]. intros [] _.
    eapply (performs_bind _ [_] (_ :: _)); [apply performs_text|]. intros [] _.
    eapply (performs_bind _ [_] []); [apply performs_text|]. intros [] _. by apply performs_ret. }
  eapply wp_mono; [eapply (performs_touches manifest_files); [|exact Hp]| |].
  - repeat (apply Forall_cons; split; [try exact Hvf; left; by apply (bool_decide_unpack _)|]).
    by apply Forall_nil.
  - cbn beta. intros _ b2 (_ & Hw & Ht2). split_and!.
    + by eapply writes_view.
    + eapply writes_view; [exact Hw|done|]. unfold written. simpl. unfold compute_json_checksum.
      by rewrite dumps_canonical.
    + etrans; [by apply same_touches|done].
  - cbn beta. intros e b2 Ht2. etrans; [by apply same_touches|done].
Qed.

(** ** The steps, one by one

    [aside P s s']: documents change only at the paths of [P], the tables not at
    all. *)
Definition aside (P : string → Prop) s s' : Prop :=
  touches P (dk_backend s) (dk_backend s') ∧ dk_tables s' = dk_tables s.
#[export] Instance aside_preorder P : PreOrder (aside P).
Proof.
  split; [by split|]. intros s1 s2 s3 [Ht1 He1] [Ht2 He2]. split; [by etrans|by rewrite He2].
Qed.

Lemma wp_backend {A} (m : M S A) (Q : A → desk S → Prop) (E : exn → desk S → Prop) s :
  wp m (λ a b, Q a (Desk b (dk_tables s) (dk_tick s)))
       (λ e b, E e (Desk b (dk_tables s) (dk_tick s))) (dk_backend s) →
  wp (on_backend m) Q E s.
Proof. intros Hm. unfold on_backend. by apply wp_zoom. Qed.

Lemma wp_desk_tick {A} (g : nat → A) (Q : A → desk S → Prop) (E : exn → desk S → Prop) s :
  Q (g (dk_tick s)) (Desk (dk_backend s) (dk_tables s) (Datatypes.S (dk_tick s))) → wp (tick g) Q E s.
Proof. intros HQ. by apply wp_unfold. Qed.

Lemma wp_require_dataset id (Q : NasDataset → desk S → Prop) (E : exn → desk S → Prop) s :
  (∀ d, Q d s) → (∀ e, E e s) → wp (_require_dataset id) Q E s.
Proof.
  intros HQ HE. unfold _require_dataset, _get_dataset, of_tables. do 2 apply wp_bind. apply wp_gets.
  destruct (get_nas_dataset _ _) as [d|]; [|by apply wp_ret, wp_raise].
  apply wp_fmap, wp_liftR; [|done]. intros d' _. by apply wp_ret.
Qed.

(** The bytes a step of verification accepts. *)
Definition verified f (c : bytes) : Prop :=
  ∀ expected, py_or (nf_checksum_sha256 f) None = Some expected → sha256_hex c = expected.
Lemma wp_verify f bc tape_path s : wp (_step_verify_checksum f bc tape_path)
  (λ ok s', aside (λ _, False) s s' ∧
     (ok = true → ∃ c, view (dk_backend s) bc tape_path = Some c ∧ verified f c))
  (λ _ s', aside (λ _, False) s s') s.
Proof.
  unfold _step_verify_checksum. apply wp_bind, wp_backend.
  eapply wp_mono; [apply bk_read_law| |]; cbn beta.
  - intros c b' [-> Hv]. apply wp_ret. split; [split; [by intros bc' q _ _|done]|].
    destruct (view _ bc tape_path) as [c|]; [|done]. intros Hok. exists c. split; [done|].
    intros expected He. rewrite He in Hok. by apply bool_decide_eq_true in Hok.
  - intros e b' [_ Hv]. split; [by intros bc' q _ _|done].
Qed.

Lemma next_manifest_ok existing dataset f bc tape_path policy_name :
  let m := next_manifest existing dataset f bc tape_path policy_name in
  settled m ∧ mj_schema m ∈ SUPPORTED_MANIFEST_SCHEMAS.
Proof. split; [done|]. apply (bool_decide_unpack _). by vm_compute. Qed.

(** After the step, whether its validation succeeds or not, the manifest is the
    next one with its checksum. *)
Lemma wp_manifest_step f bc tape_path policy_name s :
  wp (_step_write_manifest w f bc tape_path policy_name)
    (λ _ s', aside manifest_files s s' ∧ ∃ existing dataset,
       manifest_on (dk_backend s) bc = Ok existing ∧
       let c := text_bytes (model_dump (next_manifest existing dataset f bc tape_path policy_name)) in
       view (dk_backend s') bc MANIFEST_PATH = Some c ∧
       view (dk_backend s') bc MANIFEST_CHECKSUM_PATH = Some (encode (sha256_hex c)))
    (λ _ s', aside manifest_files s s') s.
Proof.
  unfold _step_write_manifest. apply wp_bind, wp_require_dataset; [|done]. intros dataset.
  apply wp_bind, wp_backend. eapply wp_mono; [apply wp_read_manifest| |]; cbn beta;
    [|intros e b1 H1; by split; [apply same_touches|]].
  intros existing b1 [Hex H1]. cbv zeta. set (m := next_manifest _ _ _ _ _ _).
  destruct (next_manifest_ok existing dataset f bc tape_path policy_name) as [Hm Hs]. fold m in Hm, Hs.
  apply wp_bind, wp_desk_tick. cbn [dk_backend dk_tables dk_tick]. set (now := rd_now w _).
  destruct (temp_files now) as (Ht & Htf & _).
  apply wp_bind, wp_backend. cbn [dk_backend dk_tables dk_tick].
  eapply wp_mono; [eapply (performs_touches manifest_files); [|apply performs_begin];
    by apply Forall_singleton| |]; cbn beta;
    [|intros e b2 H2; split; [etrans; [by apply same_touches|done]|done]].
  intros temp b2 (-> & Hw & H2). apply wp_bind, wp_backend. cbn [dk_backend dk_tables dk_tick].
  eapply wp_mono; [apply (wp_commit now bc (model_dump m)); [by apply dump_plain|]| |]; cbn beta.
  - eapply writes_view; [exact Hw|exact Htf|]. apply written_elem; [apply NoDup_singleton|by left].
  - intros _ b3 (Hvm & Hvc & H3). apply wp_fmap, wp_backend. cbn [dk_backend dk_tables dk_tick].
    assert (touches manifest_files (dk_backend s) b3) as Ht3
      by (etrans; [by apply same_touches|]; by etrans).
    eapply wp_mono; [apply wp_validate_manifest| |]; cbn beta.
    + intros r b4 [_ H4]. split; [split; [etrans; [done|by apply same_touches]|done]|].
      exists existing, dataset. split; [done|]. cbn [dk_backend]. fold m.
      by rewrite (H4 bc MANIFEST_PATH), (H4 bc MANIFEST_CHECKSUM_PATH).
    + intros e b4 H4. split; [etrans; [done|by apply same_touches]|done].
  - intros e b3 H3. split; [|done]. etrans; [by apply same_touches|]. by etrans.
Qed.

Definition shard_files (q : string) : Prop := q ∈ [SHARD_METADATA_PATH; SHARD_CHECKSUM_METADATA_PATH].
Lemma quiet_validate_shard bc : quiet (S := S) (validate_catalog_shard bc).
Proof.
  intros b. unfold validate_catalog_shard, _read_json_payload. do 2 apply wp_bind.
  eapply wp_mono; [by apply wp_read_text| |by intros e b1 []]; cbn beta. intros t b1 [_ H1].
  apply wp_ret. destruct (match t with Some _ => _ | None => _ end) as [d|]; [|by apply wp_ret].
  cbv zeta. destruct (validated _) as [x|]; [|by apply wp_ret].
  unfold _apply_checksum_validation. do 2 apply wp_bind.
  eapply wp_mono; [by apply wp_read_text| |intros e b2 []; by etrans]; cbn beta.
  intros u b2 [_ H2]. apply wp_ret. assert (same_files b b2) by by etrans.
  destruct u; cbv zeta; by apply wp_ret.
Qed.

Lemma wp_shard_step f bc dataset_id pool_id s :
  wp (_step_write_catalog_shard w f bc dataset_id pool_id)
    (λ _ s', aside shard_files s s' ∧ ∃ existing dataset m at_,
       shard_on (dk_backend s) bc = Ok existing ∧ manifest_on (dk_backend s) bc = Ok m ∧
       let tape_path := match m with Some m => tape_path_of (nf_id f) (mj_files m) | None => "" end in
       view (dk_backend s') bc SHARD_METADATA_PATH = Some (text_bytes (model_dump
         (next_shard existing dataset f bc tape_path dataset_id pool_id at_))))
    (λ _ s', aside shard_files s s') s.
Proof.
  unfold _step_write_catalog_shard. apply wp_bind, wp_require_dataset; [|done]. intros dataset.
  apply wp_bind, wp_backend. eapply wp_mono; [apply wp_read_shard| |]; cbn beta;
    [|intros e b1 H1; by split; [apply same_touches|]].
  intros existing b1 [Hex H1]. unfold _resolve_tape_path. do 2 apply wp_bind. apply wp_backend.
  cbn [dk_backend dk_tables dk_tick]. eapply wp_mono; [apply wp_read_manifest| |]; cbn beta;
    [|intros e b2 H2; split; [by do 2 (etrans; [by apply same_touches|])|done]].
  intros m b2 [Hm H2]. apply wp_ret. apply wp_bind, wp_desk_tick. cbn [dk_backend dk_tables dk_tick].
  unfold manifest_on in Hm. rewrite (H1 bc MANIFEST_PATH) in Hm by done.
  assert (touches shard_files (dk_backend s) b2) as Ht2
    by (by do 2 (etrans; [by apply same_touches|])).
  apply wp_bind, wp_backend. cbn [dk_backend dk_tables dk_tick].
  eapply wp_mono; [eapply (performs_touches shard_files); [|apply performs_shard]| |]; cbn beta.
  - repeat (apply Forall_cons; split; [by apply (bool_decide_unpack _)|]). by apply Forall_nil.
  - intros sum b3 (_ & Hw & H3). apply wp_fmap, wp_backend. cbn [dk_backend dk_tables dk_tick].
    eapply wp_mono; [apply quiet_validate_shard| |]; cbn beta.
    + intros r b4 H4. split; [split; [by do 2 (etrans; [done|]); apply same_touches|done]|].
      eexists existing, dataset, m, _. split_and!; [done..|]. cbv zeta. cbn [dk_backend].
      rewrite (H4 bc SHARD_METADATA_PATH) by done. by eapply writes_view.
    + intros e b4 H4. split; [by do 2 (etrans; [done|]); apply same_touches|done].
  - intros e b3 H3. split; [by etrans|done].
Qed.

(** The entry the index has for a file. *)
Definition indexed f bc (pool_id : string) (t : nas_tables) : Prop := ∃ p r,
  validate_logical_path (nf_relative_path f) = Ok p ∧ dget (nt_mappings t) (p, pool_id) = Some r ∧
  pm_primary_barcode r = bc ∧ bc ∈ pm_all_barcodes r ∧ pm_file_record_id r = nf_id f ∧
  pm_file_state r = OFFLINE_ON_TAPE.

Lemma wp_record_file now r p (t : nas_tables) : validate_logical_path (pm_logical_path r) = Ok p →
  let row := mapping_row now (dget (nt_mappings t) (p, pm_pool_id r)) (with_logical_path p r) in
  wp (record_file now r)
    (λ _ t', t' = with_mappings (dset (nt_mappings t) (p, pm_pool_id r) row) t)
    (λ _ t', t' = with_mappings (dset (nt_mappings t) (p, pm_pool_id r) row) t) t.
Proof.
  intros Hp row. unfold record_file, upsert_path_mapping.
  assert (PathMappingRecord_validate r = Ok (with_logical_path p r)) as Hv
    by (unfold PathMappingRecord_validate; by rewrite Hp).
  apply wp_bind, wp_liftR; rewrite Hv; [|done]. intros _ [= <-]. cbv zeta.
  apply wp_bind, wp_gets, wp_bind, wp_modify. by apply wp_liftR.
Qed.

Lemma wp_mapping_step f bc pool_id s :
  wp (_step_update_path_mapping w f bc pool_id)
    (λ ok s', dk_backend s' = dk_backend s ∧ nt_files (dk_tables s') = nt_files (dk_tables s) ∧
       (ok = true → indexed f bc pool_id (dk_tables s')))
    (λ _ s', dk_backend s' = dk_backend s ∧ nt_files (dk_tables s') = nt_files (dk_tables s)) s.
Proof.
  unfold _step_update_path_mapping. do 3 apply wp_bind, wp_desk_tick. cbn [dk_backend dk_tables dk_tick].
  set (r := mapping_of _ _ _ _ _ _). apply wp_bind, wp_liftR; [|done].
  intros built Hb. unfold PathMappingRecord_validate in Hb.
  destruct (validate_logical_path (pm_logical_path r)) as [p|] eqn:Hp; [|done]. injection Hb as <-.
  assert (validate_logical_path (pm_logical_path (with_logical_path p r)) = Ok p) as Hp'.
  { revert Hp. unfold validate_logical_path. cbn [pm_logical_path with_logical_path].
    case_bool_decide as Hd; [done|]. intros [= <-]. by rewrite strip_idemp, bool_decide_false. }
  apply wp_bind, wp_desk_tick. cbn [dk_backend dk_tables dk_tick]. apply wp_bind. unfold on_tables.
  apply wp_zoom. eapply wp_mono; [by apply wp_record_file| |]; cbn beta.
  - intros record t' ->. apply wp_bind, wp_getS, wp_bind. apply wp_liftR; [|done].
    intros found _. apply wp_ret. split_and!; [done..|]. intros _. exists p. eexists.
    split_and!; [exact Hp|apply dget_dset_eq|done|by left|done|done].
  - by intros e t' ->.
Qed.

Definition tape_files (q : string) : Prop := q = TAPE_JSON_PATH.
Lemma wp_tape_json_step bc s : wp (_step_update_tape_json w bc)
  (λ ok s', aside tape_files s s' ∧
     (ok = true → ∃ x, tape_json_on (dk_backend s') bc = Ok (Some x)))
  (λ _ s', aside tape_files s s') s.
Proof.
  unfold _step_update_tape_json. apply wp_bind, wp_backend.
  eapply wp_mono; [apply wp_read_tape_json| |]; cbn beta;
    [|intros e b1 H1; by split; [apply same_touches|]].
  intros existing b1 [_ H1]. apply wp_bind.
  assert (∀ n, wp (match existing with
                   | Some x => mret (tx_created_at x)
                   | None => now ← tick (rd_now w); mret (iso_utc now) end)
    (λ _ s', dk_backend s' = b1 ∧ dk_tables s' = dk_tables s)
    (λ _ s', aside tape_files s s') (Desk b1 (dk_tables s) n)) as Hc.
  { intros n. destruct existing; [by apply wp_ret|]. by apply wp_bind, wp_desk_tick, wp_ret. }
  eapply wp_mono; [apply Hc| |done]; cbn beta. intros created s2 [<- Ht2]. unfold of_tables.
  apply wp_bind, wp_gets, wp_bind, wp_desk_tick. cbn [dk_backend dk_tables dk_tick]. rewrite Ht2.
  set (x := next_tape_json _ _ _ _ _). apply wp_bind, wp_backend. cbn [dk_backend dk_tables dk_tick].
  eapply wp_mono; [eapply (performs_touches tape_files); [|apply performs_tape_json];
    by apply Forall_singleton| |]; cbn beta;
    [|intros e b3 H3; split; [etrans; [by apply same_touches|done]|done]].
  intros _ b3 (_ & Hw & H3). apply wp_bind, wp_backend. cbn [dk_backend dk_tables dk_tick].
  assert (touches tape_files (dk_backend s) b3) as Ht3 by (etrans; [by apply same_touches|done]).
  eapply wp_mono; [apply wp_read_tape_json| |]; cbn beta.
  - intros r b4 [Hr H4]. apply wp_ret. split; [split; [etrans; [done|by apply same_touches]|done]|].
    intros _. exists x. unfold tape_json_on. cbn [dk_backend]. rewrite (H4 bc TAPE_JSON_PATH) by done.
    assert (view b3 bc TAPE_JSON_PATH = Some (text_bytes (model_dump x))) as ->;
      [|by apply document_written].
    eapply writes_view; [exact Hw|done|]. apply written_elem; [apply NoDup_singleton|by left].
  - intros e b4 H4. split; [etrans; [done|by apply same_touches]|done].
Qed.

Lemma wp_mark_step f s : wp (_step_mark_file_archived w f)
  (λ ok s', dk_backend s' = dk_backend s ∧ nt_mappings (dk_tables s') = nt_mappings (dk_tables s) ∧
     if ok : bool then ∃ g, dget (nt_files (dk_tables s')) (nf_id f) = Some g ∧ nf_status g = OFFLINE_ON_TAPE
     else nt_files (dk_tables s') = nt_files (dk_tables s))
  (λ _ s', dk_backend s' = dk_backend s ∧ nt_files (dk_tables s') = nt_files (dk_tables s)) s.
Proof.
  unfold _step_mark_file_archived, update_nas_file_status. apply wp_bind, wp_desk_tick. unfold on_tables.
  apply wp_zoom, wp_bind, wp_gets. cbn [dk_backend dk_tables dk_tick].
  destruct (get_nas_file_record _ _) as [g|] eqn:Hg; [|by apply wp_ret].
  apply wp_bind, wp_liftR; [|done]. intros g' Hg'. apply wp_bind, wp_modify, wp_ret.
  split_and!; [done..|]. eexists. split; [apply dget_dset_eq|]. revert Hg'.
  unfold NasFileRecord_validate. case_bool_decide; [done|]. by intros [= <-].
Qed.

Lemma current_state_pure id fallback s : ∃ r, _current_file_state id fallback s = (r, s).
Proof.
  unfold _current_file_state, _get_file_record, of_tables.
  monad_unfold. destruct (get_nas_file_record _ _) as [g|]; [|by eexists].
  destruct (NasFileRecord_validate g); by eexists.
Qed.
Lemma wp_current id fallback (Q : string → desk S → Prop) (E : exn → desk S → Prop) s :
  (∀ st, Q st s) → (∀ e, E e s) → wp (_current_file_state id fallback) Q E s.
Proof.
  intros HQ HE. apply wp_unfold. destruct (current_state_pure id fallback s) as [r ->].
  destruct r; auto.
Qed.

(** A step that succeeds leads to the rest; a step that does not ends the run. *)
Lemma wp_run_cons (Fail : desk S → Prop) (Q : ArchiveLifecycleResult → desk S → Prop)
    (E : exn → desk S → Prop) f bc completed name step steps s :
  wp step (λ ok s1, if ok : bool then wp (run_steps f bc (completed ++ [name])%list steps) Q E s1
                    else Fail s1) (λ _ s1, Fail s1) s →
  (∀ res s1, Fail s1 → al_success res = false → Q res s1) → (∀ e s1, Fail s1 → E e s1) →
  wp (run_steps f bc completed ((name, step) :: steps)) Q E s.
Proof.
  intros Hstep HQ HE. cbn [run_steps]. apply wp_bind, wp_attempt, wp_bind.
  eapply wp_mono; [exact Hstep| |]; cbn beta.
  - intros [] s1 H1; [by apply wp_ret|]. apply wp_bind, wp_current.
    + intros st. apply wp_ret, wp_ret. by apply HQ.
    + intros e. apply wp_bind, wp_current; [|by intros; apply HE]. intros st. apply wp_ret. by apply HQ.
  - intros e s1 H1. apply wp_bind, wp_current; [|by intros; apply HE]. intros st. apply wp_ret. by apply HQ.
Qed.

(** ** What a file archived leaves behind *)
Lemma tape_path_of_unique id x (l : list ManifestFileEntry) : x ∈ l → me_file_record_id x = id →
  (∀ e, e ∈ l → me_file_record_id e = id → e = x) → tape_path_of id l = me_tape_path x.
Proof.
  intros Hx Hid Hu. induction l as [|e l IH]; [by apply not_elem_of_nil in Hx|]. simpl.
  case_bool_decide as He; [by rewrite (Hu e ltac:(by left) He)|].
  apply elem_of_cons in Hx as [->|Hx]; [done|]. apply IH; [done|]. intros e' He'. apply Hu. by right.
Qed.

Lemma next_manifest_files existing dataset f bc tape_path policy_name e :
  e ∈ mj_files (next_manifest existing dataset f bc tape_path policy_name) ↔
  e = manifest_entry f tape_path policy_name ∨
  ∃ m, existing = Some m ∧ e ∈ mj_files m ∧ me_file_record_id e ≠ nf_id f.
Proof.
  unfold next_manifest. cbn [mj_files]. rewrite elem_of_sort_by, elem_of_app, list_elem_of_filter,
    list_elem_of_singleton. destruct existing as [m|]; [naive_solver|].
  rewrite elem_of_nil. naive_solver.
Qed.

Lemma next_manifest_path existing dataset f bc tape_path policy_name :
  tape_path_of (nf_id f) (mj_files (next_manifest existing dataset f bc tape_path policy_name)) = tape_path.
Proof.
  rewrite (tape_path_of_unique _ (manifest_entry f tape_path policy_name)); [done| |done|].
  - apply next_manifest_files. by left.
  - intros e [->|(m & _ & _ & He)]%next_manifest_files Hid; [done|by destruct He].
Qed.

Definition pool_of f : string := or_text (nf_pool_id f) "".
(** The documents of the tape, from those before. *)
Definition manifest_recorded f bc tape_path policy_name b b' : Prop := ∃ existing dataset,
  manifest_on b bc = Ok existing ∧
  let c := text_bytes (model_dump (next_manifest existing dataset f bc tape_path policy_name)) in
  view b' bc MANIFEST_PATH = Some c ∧ view b' bc MANIFEST_CHECKSUM_PATH = Some (encode (sha256_hex c)).
Definition shard_recorded f bc tape_path b b' : Prop := ∃ existing dataset at_,
  shard_on b bc = Ok existing ∧
  view b' bc SHARD_METADATA_PATH = Some (text_bytes (model_dump
    (next_shard existing dataset f bc tape_path (nf_dataset_id f) (pool_of f) at_))).
Definition bytes_verified f bc tape_path b : Prop := ∃ c, view b bc tape_path = Some c ∧ verified f c.

Definition untouched_files s s' : Prop :=
  touches metadata_path (dk_backend s) (dk_backend s') ∧ nt_files (dk_tables s') = nt_files (dk_tables s).
Definition recorded f bc tape_path policy_name s s' : Prop :=
  touches metadata_path (dk_backend s) (dk_backend s') ∧
  bytes_verified f bc tape_path (dk_backend s) ∧
  manifest_recorded f bc tape_path policy_name (dk_backend s) (dk_backend s') ∧
  shard_recorded f bc tape_path (dk_backend s) (dk_backend s') ∧
  (∃ x, tape_json_on (dk_backend s') bc = Ok (Some x)) ∧
  indexed f bc (pool_of f) (dk_tables s').

Lemma manifest_files_below q : manifest_files q → metadata_path q.
Proof.
  intros [Hq|Hq].
  - rewrite !elem_of_cons, elem_of_nil in Hq. by destruct_or! Hq; subst.
  - by apply startswith_inv in Hq as [r ->].
Qed.
Lemma shard_files_below q : shard_files q → metadata_path q.
Proof. intros Hq. unfold shard_files in Hq. rewrite !elem_of_cons, elem_of_nil in Hq. by destruct_or! Hq; subst. Qed.
Lemma tape_files_below q : tape_files q → metadata_path q.
Proof. by intros ->. Qed.

Definition marked f (t : nas_tables) : Prop :=
  ∃ g, dget (nt_files t) (nf_id f) = Some g ∧ nf_status g = OFFLINE_ON_TAPE.

Lemma aside_untouched P s s1 s2 : (∀ q, P q → metadata_path q) →
  untouched_files s s1 → aside P s1 s2 → untouched_files s s2.
Proof.
  intros HP [Ht Hf] [Ht2 He]. split; [|by rewrite He]. etrans; [done|]. by eapply touches_mono.
Qed.
Lemma same_untouched s s1 s2 : untouched_files s s1 → dk_backend s2 = dk_backend s1 →
  nt_files (dk_tables s2) = nt_files (dk_tables s1) → untouched_files s s2.
Proof. intros [Ht Hf] Hb Hn. split; [by rewrite Hb|by rewrite Hn]. Qed.

(** What a run leaves behind, by its outcome. *)
Definition outcome f bc tape_path policy_name s (res : ArchiveLifecycleResult) s' : Prop :=
  (al_success res = true → recorded f bc tape_path policy_name s s' ∧ marked f (dk_tables s')) ∧
  (al_success res = false → untouched_files s s').
Definition raised f bc tape_path policy_name s s' : Prop :=
  untouched_files s s' ∨ recorded f bc tape_path policy_name s s'.

Section run.
Context (f : NasFileRecord) (bc tape_path policy_name : string) (s0 : desk S).
Notation run completed steps s :=
  (wp (run_steps f bc completed steps) (outcome f bc tape_path policy_name s0)
     (λ _ : exn, raised f bc tape_path policy_name s0) s).

Lemma wp_next completed name step steps s :
  wp step (λ ok s1, if ok : bool then run (completed ++ [name])%list steps s1 else untouched_files s0 s1)
    (λ _ s1, untouched_files s0 s1) s → run completed ((name, step) :: steps) s.
Proof.
  intros Hs. eapply wp_run_cons; [exact Hs| |by left].
  intros res s1 Hf Hr. split; [congruence|done].
Qed.

(** A step that only writes documents, and leads to [R] when it succeeds. *)
Lemma wp_next_aside P (R : desk S → Prop) completed name step steps s :
  untouched_files s0 s → (∀ q, P q → metadata_path q) →
  wp step (λ ok s1, aside P s s1 ∧ (ok = true → R s1)) (λ _ s1, aside P s s1) s →
  (∀ s1, untouched_files s0 s1 → aside P s s1 → R s1 → run (completed ++ [name])%list steps s1) →
  run completed ((name, step) :: steps) s.
Proof.
  intros Hu HP Hstep Hrest. apply wp_next. eapply wp_mono; [exact Hstep| |]; cbn beta.
  - intros ok s1 [H1 HR]. assert (untouched_files s0 s1) by by eapply aside_untouched.
    destruct ok; [|done]. by apply Hrest; [..|apply HR].
  - intros e s1 H1. by eapply aside_untouched.
Qed.
End run.

(** A document is not one of another step's. *)
Ltac apart :=
  first [done | by intros [] | by intros Hx%(bool_decide_pack _)
        | intros [Hx|Hx]; [by apply (bool_decide_pack _) in Hx|done]].
(** A step whose outcome does not depend on its answer. *)
Ltac weaken H :=
  eapply wp_mono; [apply H| |done]; cbn beta; intros ? ? [Ha HR];
  split; [exact Ha|intros _; exact HR].

(** The last three steps, on a tape whose manifest and shard are written. *)
Lemma wp_finish f bc tape_path policy_name s0 s completed :
  untouched_files s0 s → bytes_verified f bc tape_path (dk_backend s0) →
  manifest_recorded f bc tape_path policy_name (dk_backend s0) (dk_backend s) →
  shard_recorded f bc tape_path (dk_backend s0) (dk_backend s) →
  wp (run_steps f bc completed
        [("update_path_mapping", _step_update_path_mapping w f bc (pool_of f));
         ("update_tape_json", _step_update_tape_json w bc);
         ("mark_file_archived", _step_mark_file_archived w f)])
    (outcome f bc tape_path policy_name s0) (λ _, raised f bc tape_path policy_name s0) s.
Proof.
  intros Hu Hb Hm Hsh. apply wp_next. eapply wp_mono; [apply wp_mapping_step| |]; cbn beta;
    [|intros e s1 [H1 Hn1]; by eapply same_untouched].
  intros ok s1 (H1 & Hn1 & Hix). assert (untouched_files s0 s1) as Hu1 by by eapply same_untouched.
  destruct ok; [|done]. specialize (Hix eq_refl). rewrite <-H1 in Hm, Hsh.
  eapply wp_next_aside; [done|apply tape_files_below|apply wp_tape_json_step|].
  intros s2 Hu2 [H2 He2] Hx. rewrite <-He2 in Hix.
  assert (∀ s3, dk_backend s3 = dk_backend s2 → nt_mappings (dk_tables s3) = nt_mappings (dk_tables s2) →
    recorded f bc tape_path policy_name s0 s3) as Hrec.
  { intros s3 Hb3 Ht3. unfold recorded. rewrite Hb3. split_and!; [by destruct Hu2| done | | |done|].
    - destruct Hm as (existing & dataset & Hold & Hm & Hsum). exists existing, dataset.
      by rewrite (H2 bc MANIFEST_PATH), (H2 bc MANIFEST_CHECKSUM_PATH) by apart.
    - destruct Hsh as (existing & dataset & at_ & Hold & Hsh). exists existing, dataset, at_.
      by rewrite (H2 bc SHARD_METADATA_PATH) by apart.
    - destruct Hix as (p & r & Hp & Hr & Hrest). exists p, r. by rewrite Ht3. }
  apply wp_next. eapply wp_mono; [apply wp_mark_step| |]; cbn beta;
    [|intros e s3 [H3 Hn3]; by eapply same_untouched].
  intros ok s3 (H3 & Hmp & Hok). destruct ok; [|by eapply same_untouched].
  cbn [run_steps]. apply wp_bind, wp_current; [|intros e; right; by apply Hrec].
  intros st. apply wp_ret. split; [|done]. intros _. split; [by apply Hrec|exact Hok].
Qed.

Lemma wp_complete f bc tape_path policy_name s :
  wp (complete_file_archive w f bc tape_path policy_name)
    (outcome f bc tape_path policy_name s) (λ _, raised f bc tape_path policy_name s) s.
Proof.
  assert (untouched_files s s) as H0 by by split.
  unfold complete_file_archive. apply wp_bind, wp_current; [|by left]. intros _.
  unfold lifecycle_steps. fold (pool_of f).
  eapply (wp_next_aside _ _ _ _ _ (λ _, False)); [done|by intros q []|apply wp_verify|]. intros s1 Hu1 [H1 _] Hbytes.
  eapply wp_next_aside; [done|apply manifest_files_below|weaken wp_manifest_step|].
  cbn beta. intros s2 Hu2 [H2 _] (existing & dataset & Hold & Hm & Hsum).
  unfold manifest_on in Hold. rewrite (H1 bc MANIFEST_PATH) in Hold by apart.
  destruct (next_manifest_ok existing dataset f bc tape_path policy_name) as [Hset Hsup].
  eapply wp_next_aside; [done|apply shard_files_below|weaken wp_shard_step|].
  cbn beta. intros s3 Hu3 [H3 _] (existing2 & dataset2 & m' & at_ & Hold2 & Hm' & Hsh).
  unfold manifest_on in Hm'. rewrite Hm, manifest_written in Hm' by done. injection Hm' as <-.
  cbv zeta in Hsh. rewrite next_manifest_path in Hsh. unfold shard_on in Hold2.
  rewrite (H2 bc SHARD_METADATA_PATH), (H1 bc SHARD_METADATA_PATH) in Hold2 by apart.
  apply wp_finish; [done..| |by exists existing2, dataset2, at_].
  exists existing, dataset. by rewrite (H3 bc MANIFEST_PATH), (H3 bc MANIFEST_CHECKSUM_PATH) by apart.
Qed.
End steps.

Section documented.
Context {S : Type} {BK : Backend S} {BL : BackendLaws S} {PD : Pydantic} {FT : FloatText}.
Implicit Types (s : desk S) (b : S) (bc : string) (f : NasFileRecord).

Lemma next_shard_datasets existing dataset f bc tape_path dataset_id pool_id at_ d :
  d ∈ sh_datasets (next_shard existing dataset f bc tape_path dataset_id pool_id at_) →
  sd_dataset_id d = dataset_id ∧ sd_protection d = None ∧ sd_tape_set d = [bc] ∧ sd_pool_id d = pool_id ∨
  ∃ x, existing = Some x ∧ d ∈ sh_datasets x.
Proof.
  unfold next_shard. cbn [sh_datasets]. rewrite elem_of_sort_by, elem_of_app, list_elem_of_filter,
    list_elem_of_singleton. intros [[_ Hd]| ->]; [|by left]. right. destruct existing as [x|]; [by exists x|].
  by apply not_elem_of_nil in Hd.
Qed.

Lemma next_shard_settled existing dataset f bc tape_path dataset_id pool_id at_ :
  (∀ x, existing = Some x → settled x) →
  settled (next_shard existing dataset f bc tape_path dataset_id pool_id at_).
Proof.
  intros Hold. apply Forall_forall. intros d [(_ & Hd & _)|(x & Hx & Hd)]%next_shard_datasets.
  - cbn. by rewrite Hd.
  - specialize (Hold x Hx). apply Forall_forall with (x := d) in Hold; done.
Qed.

Lemma next_shard_files existing dataset f bc tape_path dataset_id pool_id at_ e :
  e ∈ sh_files (next_shard existing dataset f bc tape_path dataset_id pool_id at_) ↔
  e = shard_entry dataset f tape_path dataset_id pool_id ∨
  ∃ x, existing = Some x ∧ e ∈ sh_files x ∧ se_file_record_id e ≠ nf_id f.
Proof.
  unfold next_shard. cbn [sh_files]. rewrite elem_of_sort_by, elem_of_app, list_elem_of_filter,
    list_elem_of_singleton. destruct existing as [x|]; [naive_solver|].
  rewrite elem_of_nil. naive_solver.
Qed.

(** The manifest names the file where it is, and still names the others. *)
Definition in_manifest f bc tape_path policy_name b b' : Prop := ∃ m,
  manifest_on b' bc = Ok (Some m) ∧ manifest_entry f tape_path policy_name ∈ mj_files m ∧
  ∀ m0 e, manifest_on b bc = Ok (Some m0) → e ∈ mj_files m0 → me_file_record_id e ≠ nf_id f →
    e ∈ mj_files m.
Definition in_shard f bc tape_path b b' : Prop := ∃ x dataset,
  shard_on b' bc = Ok (Some x) ∧
  shard_entry dataset f tape_path (nf_dataset_id f) (pool_of f) ∈ sh_files x ∧
  ∀ x0 e, shard_on b bc = Ok (Some x0) → e ∈ sh_files x0 → se_file_record_id e ≠ nf_id f →
    e ∈ sh_files x.
Definition documented f bc tape_path policy_name s s' : Prop :=
  bytes_verified f bc tape_path (dk_backend s) ∧
  in_manifest f bc tape_path policy_name (dk_backend s) (dk_backend s') ∧
  in_shard f bc tape_path (dk_backend s) (dk_backend s') ∧
  indexed f bc (pool_of f) (dk_tables s').

Lemma recorded_documented f bc tape_path policy_name s s' :
  (∀ x, shard_on (dk_backend s) bc = Ok (Some x) → settled x) →
  recorded f bc tape_path policy_name s s' → documented f bc tape_path policy_name s s'.
Proof.
  intros Hset (_ & Hb & (ex & ds & Hold & Hm & _) & (ex2 & ds2 & at_ & Hold2 & Hsh) & _ & Hix).
  split_and!; [done| | |done].
  - destruct (next_manifest_ok ex ds f bc tape_path policy_name) as [Hs Hsup].
    eexists. split_and!.
    + unfold manifest_on. rewrite Hm. by apply manifest_written.
    + apply next_manifest_files. by left.
    + intros m0 e Hm0 He Hid. apply next_manifest_files. right. exists m0. split; [congruence|done].
  - eexists _, ds2. split_and!.
    + unfold shard_on. rewrite Hsh. apply document_written, next_shard_settled.
      intros x ->. by apply Hset.
    + apply next_shard_files. by left.
    + intros x0 e Hx0 He Hid. apply next_shard_files. right. exists x0. split; [congruence|done].
Qed.
End documented.

(** C6: a file is marked archived only once its tape documents it.  Whatever step
    of [complete_file_archive] fails, on any store of tapes: nothing but the
    metadata below /.openblade changes; unless the bytes on the tape have the
    checksum of the file, and the manifest and the catalog shard of the tape and the
    index name it where it is, keeping every other file they named, the records of
    the files stay as they were; a success means that all this holds and that the
    record says offline on tape, a failure that no record changed. *)
Theorem archived_once_documented {S : Type} `{BL : BackendLaws S, PD : Pydantic, FT : FloatText} w f bc
    tape_path policy_name (s s' : desk S) r :
  (∀ x, shard_on (dk_backend s) bc = Ok (Some x) → settled x) →
  complete_file_archive w f bc tape_path policy_name s = (r, s') →
  (∀ bc' q, is_file q → ¬ metadata_path q → view (dk_backend s') bc' q = view (dk_backend s) bc' q) ∧
  (nt_files (dk_tables s') = nt_files (dk_tables s) ∨ documented f bc tape_path policy_name s s') ∧
  match r with
  | Ok res => if al_success res
              then documented f bc tape_path policy_name s s' ∧ marked f (dk_tables s')
              else nt_files (dk_tables s') = nt_files (dk_tables s)
  | Raise _ => True
  end.
Proof.
  intros Hset Hr. pose proof (wp_run _ _ _ _ (wp_complete w f bc tape_path policy_name s) _ _ Hr) as Ho.
  pose proof (recorded_documented f bc tape_path policy_name s s' Hset) as Hdoc.
  destruct r as [res|e].
  - destruct Ho as [Hok Hno]. destruct (al_success res).
    + destruct (Hok eq_refl) as [Hrec Hmark]. split; [apply Hrec|]. split; [right|]; auto.
    + destruct (Hno eq_refl) as [Ht Hf]. split; [apply Ht|]. split; [by left|done].
  - destruct Ho as [[Ht Hf]|Hrec]; [split; [apply Ht|by split; [left|]]|].
    split; [apply Hrec|]. split; [right; auto|done].
Qed.

#[local] Existing Instance strict_types.
#[local] Existing Instance no_floats.
#[local] Notation noon := (MkDatetime 2025 1 2 12 0 0 0).
#[local] Notation clock := (Readings (λ _, noon) (λ _, 0) (λ _, "id")).
#[local] Notation abc_sum := "ba7816bf8f01cfea414140de5dae2223b00361a396177a9cb410ff61f20015ad".
#[local] Notation sample_dataset :=
  (MkNasDataset "ds" (Some "p") "ds" None None None (Some CACHE_DRIVE) (Some "vg") [] [] 1 3
     DS_ARCHIVING 0 None None None).
#[local] Notation sample_file :=
  (MkNasFile "f1" "ds" (Some "p") "a" None 3 None (Some abc_sum) (Some "TAPE01L8") None FS_HYDRATING
     None None None).
#[local] Notation sample_desk room :=
  (Desk (Station (Ltfs.with_tapes [("TAPE01L8", Ltfs.MockTapeContents "TAPE01L8" room 3
            [("/ds/a", Ltfs.MockFileRecord "/ds/a" 3 abc_sum (bytes_of "abc") 0)] true
            MountState.MOUNTED_RW)] Ltfs.mounted_ltfs) (λ n, Z.of_nat n) 0)
     (NasTables empty_catalog [("ds", DatasetRow sample_dataset None)] [("f1", sample_file)] [] [] []) 0).
#[local] Notation completed room :=
  (complete_file_archive clock sample_file "TAPE01L8" "/ds/a" "gold" (sample_desk room)).
#[local] Notation answer room := (al_success <$> (completed room).1).

(** With room for the documents, and without. *)
Lemma archived_once_documented_witness :
  answer 9000 = Ok true ∧ answer 1500 = Ok false ∧
  documented sample_file "TAPE01L8" "/ds/a" "gold" (sample_desk 9000) (completed 9000).2 ∧
  nt_files (dk_tables (completed 1500).2) = [("f1", sample_file)].
Proof.
  assert (answer 9000 = Ok true) as Hok by (vm_compute; reflexivity).
  assert (answer 1500 = Ok false) as Hfull by (vm_compute; reflexivity).
  assert (∀ room x, shard_on (dk_backend (sample_desk room)) "TAPE01L8" = Ok (Some x) → settled x) as Hset.
  { intros room x Hx. vm_compute in Hx. discriminate Hx. }
  split_and!; [exact Hok|exact Hfull| |].
  - pose proof (archived_once_documented clock sample_file "TAPE01L8" "/ds/a" "gold" (sample_desk 9000)
      _ _ (Hset _) (surjective_pairing (completed 9000))) as H.
    revert Hok H. generalize (completed 9000). intros [[res|e] s'] Hok H;
      cbn [fst snd fmap result_fmap] in Hok, H; [|discriminate Hok].
    injection Hok as Hok. rewrite Hok in H. apply H.
  - pose proof (archived_once_documented clock sample_file "TAPE01L8" "/ds/a" "gold" (sample_desk 1500)
      _ _ (Hset _) (surjective_pairing (completed 1500))) as H.
    revert Hfull H. generalize (completed 1500). intros [[res|e] s'] Hfull H;
      cbn [fst snd fmap result_fmap] in Hfull, H; [|discriminate Hfull].
    injection Hfull as Hfull. rewrite Hfull in H. apply H.
Defined.
