(* ===== verification/Rebuild.v ===== *)
(** The rebuild of the catalog from the tapes (nas/catalog_rebuild.py and
    nas/catalog_rebuild_worker.py): planning a run over the metadata of the tapes,
    and recovering datasets, files, index entries and manifest versions from the
    catalog shards of the tapes planned. *)
From stdpp Require Import base list option strings sets.
From Stdlib Require Import Ascii ZArith Lia.
From S2P Require Import Prelude Wp Paths Bytes Domain Protection Catalog Planner Capacity Json TapeModels.
From S2P Require Import Metadata LtfsBackend Generation NasTables Lifecycle.
#[local] Open Scope string_scope.
#[local] Open Scope Z_scope.

(** * Requests and plans (nas/types.py) *)
Record RebuildPlanRequest : Type := MkRebuildRequest {
  rb_barcodes : list string; rb_triggered_by : string; rb_dry_run : bool;
}.
(** The model admits at most 500 barcodes. *)
Definition make_rebuild_request (barcodes : list string) (triggered_by : string) (dry_run : bool)
    : result RebuildPlanRequest :=
  if bool_decide (500 < length barcodes)%nat then Raise ValidationError
  else Ok (MkRebuildRequest barcodes triggered_by dry_run).
Record UncommittedGeneration : Type := MkUncommitted {
  ug_barcode : string; ug_generation_id : string; ug_reason : string;
}.
Record MissingSibling : Type := MkMissingSibling {
  ms_barcode : string; ms_required_by_barcode : string; ms_generation_id : option string;
}.
Record RebuildPlanResult : Type := MkRebuildPlan {
  rp_run_id : string; rp_dry_run : bool; rp_barcodes_to_scan : list string;
  rp_barcodes_missing_manifest : list string; rp_barcodes_missing_shard : list string;
  rp_barcodes_invalid : list string; rp_estimated_files : Z; rp_estimated_datasets : Z;
  rp_estimated_path_mappings : Z; rp_uncommitted_generations : list UncommittedGeneration;
  rp_missing_siblings : list MissingSibling; rp_warnings : list string; rp_safe_to_enqueue : bool;
}.

(** What the scan of one tape finds. *)
Inductive scan_result : Type :=
| NoTapeJson
| MissingManifest
| CorruptManifest
| InvalidManifest
| MissingShard
| Uncommitted (g : UncommittedGeneration)
| Scanned (siblings : list MissingSibling) (files datasets mappings : Z).

(** [NasFileState(s)], offline on tape when there is no such state. *)
Definition state_of_text (s : string) : NasFileState :=
  match enum_of_value s with Ok st => st | Raise _ => OFFLINE_ON_TAPE end.

Section rebuild.
Context {S : Type} {BK : Backend S} {PD : Pydantic} {FT : FloatText} (w : readings).
Implicit Types (bc barcode : string).

(** [shard_to_path_mappings] (nas/catalog_shard.py): the model validates every
    record it builds. *)
Definition entry_mapping (shard : CatalogShard) (id created : string) (e : CatalogShardFileEntry)
    : result PathMappingRecord :=
  PathMappingRecord_validate
    (MkPathMapping id (se_logical_path e) (se_pool_id e) (se_dataset_id e) (sh_barcode shard)
       [sh_barcode shard] (se_file_record_id e) (state_of_text (se_file_state e)) "single_tape"
       (se_size e) (se_checksum e) (sh_generated_at shard) created created).
Fixpoint mappings_of (shard : CatalogShard) (entries : list CatalogShardFileEntry)
    : M (desk S) (list PathMappingRecord) :=
  match entries with
  | [] => mret []
  | e :: entries =>
      id ← tick (rd_uuid w);
      created ← tick (rd_now w);
      r ← liftR (entry_mapping shard id (iso_z created) e);
      rest ← mappings_of shard entries;
      mret (r :: rest)
  end.
Definition shard_to_path_mappings (shard : CatalogShard) : M (desk S) (list PathMappingRecord) :=
  mappings_of shard (sh_files shard).

(** [file_entries_from_path_mappings]: the entries of the records a tape holds. *)
Definition entry_of_mapping (r : PathMappingRecord) : CatalogShardFileEntry :=
  MkShardFileEntry (pm_logical_path r) (pm_logical_path r) (pm_dataset_id r) (pm_file_record_id r)
    (pm_pool_id r) (pm_size r) "" (pm_checksum r) (enum_value (pm_file_state r)) "" 1 false.
Definition file_entries_from_path_mappings (records : list PathMappingRecord) barcode
    : list CatalogShardFileEntry :=
  entry_of_mapping <$> filter (λ r, barcode = "" ∨ barcode ∈ pm_primary_barcode r :: pm_all_barcodes r) records.

(** ** Planning *)
Definition _unique_barcodes (barcodes : list string) : list string := Capacity.unique barcodes.

Definition scan_tape (requested : list string) barcode : M (desk S) scan_result :=
  tape ← on_backend (read_tape_json barcode);
  if bool_decide (tape = None) then mret NoTapeJson
  else
    manifest ← on_backend (read_manifest barcode);
    match manifest with
    | None =>
        existing_files ← on_backend (list_metadata_files barcode "/.openblade/manifest");
        mret (if bool_decide (MANIFEST_PATH ∈ existing_files) then CorruptManifest else MissingManifest)
    | Some manifest =>
        validation ← on_backend (validate_manifest barcode);
        if negb (mv_valid validation) then mret InvalidManifest
        else
          shard ← on_backend (read_shard barcode);
          match shard with
          | None => mret MissingShard
          | Some shard =>
              uncommitted ← on_backend (_uncommitted_reason barcode manifest);
              match uncommitted with
              | Some reason =>
                  mret (Uncommitted (MkUncommitted barcode (mj_generation_id manifest) reason))
              | None =>
                  mappings ← shard_to_path_mappings shard;
                  mret (Scanned
                    ((λ sibling, MkMissingSibling sibling barcode (py_or (Some (mj_generation_id manifest)) None))
                       <$> filter (λ sibling, sibling ∉ requested) (mj_sibling_tapes manifest))
                    (Z.of_nat (length (sh_files shard))) (Z.of_nat (length (sh_datasets shard)))
                    (Z.of_nat (length mappings)))
              end
          end
    end.
Fixpoint scan_tapes (requested barcodes : list string) : M (desk S) (list (string * scan_result)) :=
  match barcodes with
  | [] => mret []
  | bc :: barcodes =>
      r ← scan_tape requested bc;
      rest ← scan_tapes requested barcodes;
      mret ((bc, r) :: rest)
  end.

Definition scan_warning (x : string * scan_result) : list string :=
  match x.2 with
  | NoTapeJson => [x.1 ++ ": tape metadata unavailable"]
  | MissingManifest => [x.1 ++ ": manifest.json missing"]
  | CorruptManifest => [x.1 ++ ": manifest.json exists but could not be parsed"]
  | InvalidManifest => [x.1 ++ ": manifest validation failed"]
  | MissingShard => [x.1 ++ ": catalog-shard.json missing"]
  | Uncommitted _ | Scanned _ _ _ _ => []
  end.
Definition barcodes_with (P : scan_result → bool) (scans : list (string * scan_result)) : list string :=
  (filter (λ x, P x.2 = true) scans).*1.
Definition to_scan (r : scan_result) : bool := match r with Scanned _ _ _ _ => true | _ => false end.
Definition is_invalid (r : scan_result) : bool :=
  match r with CorruptManifest | InvalidManifest => true | _ => false end.
Definition int_text (z : Z) : string := String.string_of_list_ascii (print_int z).
Definition plan_of (run_id : string) (dry_run : bool) (scans : list (string * scan_result))
    : RebuildPlanResult :=
  let uncommitted := omap (λ x : string * scan_result, match x.2 with Uncommitted g => Some g | _ => None end) scans in
  let siblings := concat ((λ x : string * scan_result, match x.2 with Scanned l _ _ _ => l | _ => [] end) <$> scans) in
  let total g := sum_sizes (λ x : string * scan_result, g x.2) scans in
  let scanned := barcodes_with to_scan scans in
  let invalid := barcodes_with is_invalid scans in
  let warnings := (concat (scan_warning <$> scans) ++
    (if bool_decide (length uncommitted = O) then [] else
       [(int_text (Z.of_nat (length uncommitted)) ++ " uncommitted generation(s) skipped: " ++
         String.concat ", " ((λ u, ug_barcode u ++ " (" ++ ug_generation_id u ++ ": " ++ ug_reason u ++ ")")
                               <$> uncommitted))%string]) ++
    (if bool_decide (length siblings = O) then [] else
       [(int_text (Z.of_nat (length siblings)) ++ " sibling tape(s) missing from request: " ++
         String.concat ", " ((λ m, ms_barcode m ++ " (required by " ++ ms_required_by_barcode m ++ ")")
                               <$> siblings))%string]))%list in
  MkRebuildPlan run_id dry_run scanned
    (barcodes_with (λ r, match r with MissingManifest => true | _ => false end) scans)
    (barcodes_with (λ r, match r with MissingShard => true | _ => false end) scans)
    invalid
    (total (λ r, match r with Scanned _ n _ _ => n | _ => 0 end))
    (total (λ r, match r with Scanned _ _ n _ => n | _ => 0 end))
    (total (λ r, match r with Scanned _ _ _ n => n | _ => 0 end))
    uncommitted siblings warnings
    (bool_decide (invalid = []) && bool_decide (scanned ≠ [])).

Definition planned_run (run_id triggered_by : string) (planned : list string) (now : string)
    : CatalogRebuildRunRecord :=
  MkRebuildRun run_id RR_PLANNED triggered_by planned [] [] [] 0 0 0 [] now now None.
Definition plan_rebuild (request : RebuildPlanRequest) : M (desk S) RebuildPlanResult :=
  scans ← scan_tapes (rb_barcodes request) (_unique_barcodes (rb_barcodes request));
  if rb_dry_run request then mret (plan_of "" true scans)
  else
    now ← tick (rd_now w);
    run_id ← tick (rd_uuid w);
    on_tables (create_rebuild_run
      (planned_run run_id (rb_triggered_by request) (barcodes_with to_scan scans) (iso_z now)));;
    mret (plan_of run_id false scans).

(** ** Recovery *)
Definition _parse_ingest_mode (value : string) : option IngestMode :=
  match enum_of_value value with Ok m => Some m | Raise _ => None end.

Definition merge_missing (base more : list string) : list string :=
  foldl (λ l b, if bool_decide (b ∈ l) then l else l ++ [b])%list base more.
Definition recovered_dataset (now : string) barcode (e : CatalogShardDatasetEntry)
    (existing : option NasDataset) : NasDataset :=
  let old {A} (g : NasDataset → option A) : option A := existing ≫= g in
  let merged := merge_missing match existing with Some d => ds_tape_set d | None => [] end
                  match sd_tape_set e with [] => [barcode] | l => l end in
  MkNasDataset (sd_dataset_id e) (py_or (Some (sd_pool_id e)) (old ds_pool_id))
    (or_text (ds_name <$> existing) (sd_dataset_id e)) (old ds_source_path) (old ds_source_host)
    (py_or (Some (sd_policy e)) (old ds_policy_id))
    match _parse_ingest_mode (sd_ingest_mode e) with Some m => Some m | None => old ds_ingest_mode end
    (py_or (Some (sd_volume_group e)) (old ds_volume_group_id)) merged
    match existing with Some d => ds_shard_map d | None => [] end
    (sd_file_count e) (sd_total_bytes e) DS_ARCHIVED (Z.of_nat (length merged))
    (Some "/.openblade/manifest.json") (old ds_created_at) (Some now).
(** [ProtectionPolicy.from_dict] and the errors the recovery passes over: what it
    raises otherwise, [UnsupportedProtectionError] and its kin, are [ValueError]s. *)
Definition _recover_dataset_protection (dataset_id : string) (protection : option (dict string json))
    : M nas_tables unit :=
  match protection with
  | None => mret tt
  | Some d =>
      match Protection.from_dict d with
      | Raise _ => mret tt
      | Ok policy =>
          modify (λ s, match dget (nt_datasets s) dataset_id with
                       | None => s
                       | Some row => with_datasets (dset (nt_datasets s) dataset_id
                           (DatasetRow (dr_dataset row) (Some (sorted_members (Protection.to_dict policy))))) s
                       end)
      end
  end.
(** The count of what the catalog did not have. *)
Definition count_new {A} (existing : option A) (count : Z) : Z :=
  match existing with None => count + 1 | Some _ => count end.
Fixpoint recover_datasets barcode (count : Z) (entries : list CatalogShardDatasetEntry)
    : M (desk S) Z :=
  match entries with
  | [] => mret count
  | e :: entries =>
      existing ← of_tables (get_nas_dataset (sd_dataset_id e));
      now ← tick (rd_now w);
      stamp ← tick (rd_now w);
      dataset ← liftR (NasDataset_validate (recovered_dataset (iso_z now) barcode e existing));
      on_tables (upsert_nas_dataset stamp dataset);;
      on_tables (_recover_dataset_protection (sd_dataset_id e) (sd_protection e));;
      recover_datasets barcode (count_new existing count) entries
  end.
Definition _recover_datasets barcode (shard : CatalogShard) : M (desk S) Z :=
  recover_datasets barcode 0 (sh_datasets shard).

Definition recovered_file (now : string) barcode (e : CatalogShardFileEntry)
    (existing : option NasFileRecord) : NasFileRecord :=
  let old {A} (g : NasFileRecord → option A) : option A := existing ≫= g in
  MkNasFile (se_file_record_id e) (se_dataset_id e) (py_or (Some (se_pool_id e)) (old nf_pool_id))
    (se_logical_path e) (old nf_source_path) (se_size e) (py_or (Some (se_mtime e)) (old nf_mtime))
    (py_or (Some (se_checksum e)) (old nf_checksum_sha256))
    (Some (or_text (old nf_tape_barcode) barcode)) (old nf_tape_offset) OFFLINE_ON_TAPE None
    (old nf_created_at) (Some now).
Fixpoint recover_files barcode (count : Z) (entries : list CatalogShardFileEntry) : M (desk S) Z :=
  match entries with
  | [] => mret count
  | e :: entries =>
      existing ← of_tables (get_nas_file_record (se_file_record_id e));
      now ← tick (rd_now w);
      stamp ← tick (rd_now w);
      f ← liftR (NasFileRecord_validate (recovered_file (iso_z now) barcode e existing));
      on_tables (upsert_nas_file_record stamp f);;
      recover_files barcode (count_new existing count) entries
  end.
Definition _recover_files barcode (shard : CatalogShard) : M (desk S) Z :=
  recover_files barcode 0 (sh_files shard).

Definition with_all_barcodes (l : list string) (r : PathMappingRecord) : PathMappingRecord :=
  MkPathMapping (pm_id r) (pm_logical_path r) (pm_pool_id r) (pm_dataset_id r) (pm_primary_barcode r) l
    (pm_file_record_id r) (pm_file_state r) (pm_restore_strategy r) (pm_size r) (pm_checksum r)
    (pm_last_seen_at r) (pm_created_at r) (pm_updated_at r).
Fixpoint recover_path_mappings (count : Z) (records : list PathMappingRecord) : M (desk S) Z :=
  match records with
  | [] => mret count
  | r :: records =>
      s ← getS;
      existing ← liftR (lookup_path (pm_logical_path r) (pm_pool_id r) (dk_tables s));
      now ← tick (rd_now w);
      if pr_found existing
      then on_tables (record_file now
             (with_all_barcodes (merge_missing (pr_all_barcodes existing) (pm_all_barcodes r)) r));;
           recover_path_mappings count records
      else on_tables (record_file now r);; recover_path_mappings (count + 1) records
  end.
Definition _recover_path_mappings (shard : CatalogShard) : M (desk S) Z :=
  records ← shard_to_path_mappings shard;
  recover_path_mappings 0 records.

(** The stamp of a version: the part of its path between prefix and suffix. *)
Definition _extract_version_ts (path : string) : string :=
  if startswith path VERSION_PREFIX
  then let remainder := String.string_of_list_ascii
         (drop (String.length VERSION_PREFIX) (String.list_ascii_of_string path)) in
       if endswith remainder ".json" then removesuffix remainder ".json"
       else if endswith remainder ".tmp" then removesuffix remainder ".tmp" else ""
  else "".
Definition _select_version_paths (paths : list string) : list string :=
  let selected := foldl (λ (d : dict string string) path,
      let ts := _extract_version_ts path in
      if bool_decide (ts = "") then d
      else if negb (dmem d ts) || endswith path ".json" then dset d ts path else d)
    [] (sort_by String.leb paths) in
  (λ ts, dget_or selected ts "") <$> sort_by (λ a b, String.leb b a) (dkeys selected).
(** A payload that is no object has no [get]. *)
Definition payload_files (payload : json) : result Z :=
  match payload with
  | JObj d => Ok match dget_or d "files" (JArr []) with JArr l => Z.of_nat (length l) | _ => 0 end
  | _ => Raise AttributeError
  end.
Fixpoint recover_versions barcode (current_checksum : string) (count : Z) (paths : list string)
    : M (desk S) Z :=
  match paths with
  | [] => mret count
  | path :: paths =>
      payload ← on_backend (_read_json barcode path);
      let version_ts := _extract_version_ts path in
      match payload with
      | None => recover_versions barcode current_checksum count paths
      | Some payload =>
          if bool_decide (version_ts = "") then recover_versions barcode current_checksum count paths
          else
            file_count ← liftR (payload_files payload);
            let sha256 := compute_json_checksum payload in
            now ← tick (rd_now w);
            on_tables (create_manifest_version
              (MkManifestVersion (barcode ++ ":" ++ version_ts) barcode version_ts path sha256 file_count
                 (bool_decide (current_checksum ≠ "") && bool_decide (current_checksum = sha256)) (iso_z now)));;
            recover_versions barcode current_checksum (count + 1) paths
      end
  end.
Definition _recover_manifest_versions barcode : M (desk S) Z :=
  current_manifest ← on_backend (read_manifest barcode);
  let current_checksum := match current_manifest with
                          | Some m => compute_json_checksum (model_dump m)
                          | None => ""
                          end in
  files ← on_backend (list_metadata_files barcode VERSION_PREFIX);
  recover_versions barcode current_checksum 0 (_select_version_paths files).

(** ** The run *)

(** The counts of files, datasets and mappings a tape adds, and whether its recovery
    went to the end: what was counted before a failure stays counted. *)
Definition recover_tape barcode (shard : CatalogShard) : M (desk S) (Z * Z * Z * bool) :=
  uuid ← tick (rd_uuid w);
  instant ← tick (rd_instant w);
  datasets ← attempt (on_tables (on_nas_catalog (Catalog.add_cartridge uuid instant barcode None));;
                      _recover_datasets barcode shard);
  match datasets with
  | Raise _ => mret (0, 0, 0, false)
  | Ok d =>
      files ← attempt (_recover_files barcode shard);
      match files with
      | Raise _ => mret (0, d, 0, false)
      | Ok f =>
          mappings ← attempt (_recover_path_mappings shard);
          match mappings with
          | Raise _ => mret (f, d, 0, false)
          | Ok m =>
              versions ← attempt (_recover_manifest_versions barcode);
              mret (f, d, m, is_ok versions)
          end
      end
  end.
Record recovery_report : Type := MkReport {
  rr_completed : list string; rr_failed : list string; rr_errors : list string;
  rr_files : Z; rr_datasets : Z; rr_mappings : Z;
}.
Definition add_report (barcode : string) (error : option string) (counts : Z * Z * Z) (r : recovery_report)
    : recovery_report :=
  let '(f, d, m) := counts in
  match error with
  | None => MkReport (barcode :: rr_completed r) (rr_failed r) (rr_errors r)
              (f + rr_files r) (d + rr_datasets r) (m + rr_mappings r)
  | Some e => MkReport (rr_completed r) (barcode :: rr_failed r) (e :: rr_errors r)
                (f + rr_files r) (d + rr_datasets r) (m + rr_mappings r)
  end.
Fixpoint recover_tapes (barcodes : list string) : M (desk S) recovery_report :=
  match barcodes with
  | [] => mret (MkReport [] [] [] 0 0 0)
  | barcode :: barcodes =>
      shard ← attempt (on_backend (read_shard barcode));
      match shard with
      | Raise _ =>
          rest ← recover_tapes barcodes;
          mret (add_report barcode (Some ("failed to recover catalog data for " ++ barcode)) (0, 0, 0) rest)
      | Ok None =>
          rest ← recover_tapes barcodes;
          mret (add_report barcode (Some ("catalog shard unavailable for " ++ barcode)) (0, 0, 0) rest)
      | Ok (Some shard) =>
          '(counts, ok) ← recover_tape barcode shard;
          rest ← recover_tapes barcodes;
          mret (add_report barcode
                  (if ok : bool then None else Some ("failed to recover catalog data for " ++ barcode))
                  counts rest)
      end
  end.

Definition started (now : string) (r : CatalogRebuildRunRecord) : CatalogRebuildRunRecord :=
  MkRebuildRun (rn_id r) RR_RUNNING (rn_triggered_by r) (rn_barcodes_planned r) (rn_barcodes_completed r)
    (rn_barcodes_failed r) (rn_barcodes_skipped r) (rn_files_recovered r) (rn_datasets_recovered r)
    (rn_path_mappings_recovered r) [] (rn_created_at r) now (rn_completed_at r).
Definition finished (now : string) (skipped : list string) (p : recovery_report)
    (r : CatalogRebuildRunRecord) : CatalogRebuildRunRecord :=
  MkRebuildRun (rn_id r) (if bool_decide (rr_failed p = []) then RR_COMPLETED else RR_FAILED)
    (rn_triggered_by r) (rn_barcodes_planned r) (rr_completed p) (rr_failed p) skipped (rr_files p)
    (rr_datasets p) (rr_mappings p) (rr_errors p) (rn_created_at r) now (Some now).
Definition execute_rebuild_run (run_id : string) : M (desk S) CatalogRebuildRunRecord :=
  stored_run ← of_tables (get_rebuild_run run_id);
  match stored_run with
  | None => raise KeyError
  | Some run =>
      raise_if (bool_decide (rn_status run ≠ RR_PLANNED)) ValueError;;
      started_at ← tick (rd_now w);
      updated ← on_tables (update_rebuild_run run_id (started (iso_z started_at)));
      match updated with
      | None => raise AssertionError
      | Some current =>
          report ← recover_tapes (rn_barcodes_planned current);
          finished_at ← tick (rd_now w);
          final ← on_tables (update_rebuild_run run_id
                    (finished (iso_z finished_at) (rn_barcodes_skipped current) report));
          match final with None => raise AssertionError | Some run => mret run end
      end
  end.

(** * The worker (nas/catalog_rebuild_worker.py) *)
Definition _normalize_barcodes (barcodes : list string) : list string :=
  Capacity.unique (filter (λ b, b ≠ "") (strip <$> barcodes)).
Definition empty_run (id triggered_by now : string) : CatalogRebuildRunRecord :=
  MkRebuildRun id RR_COMPLETED triggered_by [] [] [] [] 0 0 0 [] now now (Some now).
Definition _create_empty_run (triggered_by : string) : M (desk S) CatalogRebuildRunRecord :=
  now ← tick (rd_now w);
  id ← tick (rd_uuid w);
  on_tables (create_rebuild_run (empty_run id triggered_by (iso_z now))).
Definition auto_plan_and_execute (barcodes : list string) (triggered_by : string) (dry_run_first : bool)
    : M (desk S) CatalogRebuildRunRecord :=
  let normalized := _normalize_barcodes barcodes in
  if bool_decide (normalized = []) then _create_empty_run triggered_by
  else
    (if dry_run_first
     then request ← liftR (make_rebuild_request normalized triggered_by true);
          dry_run ← plan_rebuild request;
          raise_if (negb (rp_safe_to_enqueue dry_run)) ValueError
     else mret tt);;
    request ← liftR (make_rebuild_request normalized triggered_by false);
    plan ← plan_rebuild request;
    execute_rebuild_run (rp_run_id plan).
Definition rebuild_status (run_id : string) : M (desk S) (option CatalogRebuildRunRecord) :=
  of_tables (get_rebuild_run run_id).
(** The cartridges the catalog lists. *)
Definition recover_from_loaded_tapes (triggered_by : string) : M (desk S) CatalogRebuildRunRecord :=
  cartridges ← of_tables (λ t, list_cartridges (nt_catalog t));
  auto_plan_and_execute (_normalize_barcodes (strip ∘ cr_barcode <$> cartridges)) triggered_by true.
End rebuild.

(** * What a scan accepts *)
Section scanning.
Context {S : Type} {BK : Backend S} {BL : BackendLaws S} {PD : Pydantic} {FT : FloatText} (w : readings).
Implicit Types (s : desk S) (b : S) (bc : string).

(** The generation of a manifest is committed: it has none, as before generations,
    or its marker carries the hashes of the manifest and the shard on the tape. *)
Definition committed b bc (m : ManifestJson) : Prop :=
  mj_generation_id m = "" ∨ ∃ p, marker_path (mj_generation_id m) = Ok p ∧
    verdict_of (view b bc MANIFEST_PATH) (view b bc p) (view b bc SHARD_METADATA_PATH) = Ok None.
Definition rebuildable b bc : Prop :=
  (∃ x, tape_json_on b bc = Ok (Some x)) ∧ ∃ m x, manifest_on b bc = Ok (Some m) ∧
  valid_manifest (view b bc MANIFEST_PATH) (view b bc MANIFEST_CHECKSUM_PATH) = true ∧
  shard_on b bc = Ok (Some x) ∧ committed b bc m.

Notation quietly := (aside (λ _, False)).
Lemma same_quietly s b : same_files (dk_backend s) b → quietly s (Desk b (dk_tables s) (dk_tick s)).
Proof. intros Hs. split; [by apply same_touches|done]. Qed.
Lemma quietly_view s s' bc q : quietly s s' → is_file q →
  view (dk_backend s') bc q = view (dk_backend s) bc q.
Proof. intros [Ht _] Hq. by apply Ht; [|intros []]. Qed.
Lemma quietly_docs s s' bc : quietly s s' →
  tape_json_on (dk_backend s') bc = tape_json_on (dk_backend s) bc ∧
  manifest_on (dk_backend s') bc = manifest_on (dk_backend s) bc ∧
  shard_on (dk_backend s') bc = shard_on (dk_backend s) bc.
Proof. intros Hq. unfold tape_json_on, manifest_on, shard_on. by rewrite !(quietly_view s s'). Qed.
Lemma quietly_committed s s' bc m : quietly s s' →
  committed (dk_backend s') bc m ↔ committed (dk_backend s) bc m.
Proof.
  intros Hq. unfold committed. do 2 f_equiv. intros p. split; intros [Hp Hv]; (split; [done|]);
    pose proof (marker_path_apart _ _ Hp) as [Hf _]; revert Hv; by rewrite !(quietly_view s s').
Qed.
Lemma quietly_rebuildable s s' bc : quietly s s' →
  rebuildable (dk_backend s') bc ↔ rebuildable (dk_backend s) bc.
Proof.
  intros Hq. destruct (quietly_docs s s' bc Hq) as (Ht & Hm & Hsh). unfold rebuildable.
  rewrite Ht, Hm, Hsh, !(quietly_view s s') by done.
  split; intros [? (m & x & ? & ? & ? & ?)]; (split; [done|]); exists m, x; split_and!; try done;
    by apply (quietly_committed s s' bc m Hq).
Qed.

(** A reader of documents, in a program that changes nothing. *)
Lemma wp_quiet_read {A B} (m : M S A) (P : A → Prop) (k : A → M (desk S) B)
    (Q : B → desk S → Prop) s0 s :
  quietly s0 s → wp m (λ a b, P a ∧ same_files (dk_backend s) b) (λ _ b, same_files (dk_backend s) b)
    (dk_backend s) →
  (∀ a s1, P a → quietly s0 s1 → wp (k a) Q (λ _ s', quietly s0 s') s1) →
  wp (on_backend m ≫= k) Q (λ _ s', quietly s0 s') s.
Proof.
  intros H0 Hm Hk. apply wp_bind, wp_backend.
  eapply wp_mono; [exact Hm| |]; cbn beta.
  - intros a b [HP Hs]. apply Hk; [done|]. etrans; [exact H0|]. by apply same_quietly.
  - intros e b Hs. etrans; [exact H0|]. by apply same_quietly.
Qed.

Lemma wp_mappings_of shard entries s :
  wp (mappings_of w shard entries)
    (λ rs s', dk_backend s' = dk_backend s ∧ dk_tables s' = dk_tables s ∧
       Forall2 (λ e r, ∃ id created, entry_mapping shard id created e = Ok r) entries rs)
    (λ _ s', dk_backend s' = dk_backend s ∧ dk_tables s' = dk_tables s) s.
Proof.
  revert s. induction entries as [|e entries IH]; intros s; cbn [mappings_of]; [by apply wp_ret|].
  do 2 apply wp_bind, wp_desk_tick. cbn [dk_backend dk_tables dk_tick].
  apply wp_bind, wp_liftR; [|done]. intros r Hr. apply wp_bind.
  eapply wp_mono; [apply IH| |]; cbn beta; cbn [dk_backend dk_tables].
  - intros rs s' (Hb & Ht & Hrs). apply wp_ret. split_and!; [done..|]. constructor; [by eexists _, _|done].
  - done.
Qed.

Lemma wp_list_files bc prefix b : wp (list_metadata_files bc prefix)
  (λ _ b', True ∧ same_files b b') (λ _, same_files b) b.
Proof.
  unfold list_metadata_files. apply wp_bind. eapply wp_mono; [apply bk_files_law| |]; cbn beta.
  - intros l b' [_ Hv]. apply wp_ret. split; [done|]. by intros bc' q _.
  - intros e b' Hv. by intros bc' q _.
Qed.

Lemma wp_committed bc m b : wp (_uncommitted_reason bc m)
  (λ r b', (r = None ↔ committed b bc m) ∧ same_files b b') (λ _, same_files b) b.
Proof.
  destruct (decide (mj_generation_id m = "")) as [Hg|Hg].
  { unfold _uncommitted_reason. rewrite bool_decide_true by done. apply wp_ret.
    split; [|done]. split; [|done]. by left. }
  destruct (marker_path (mj_generation_id m)) as [p|e] eqn:Hp.
  - eapply wp_mono; [by apply wp_uncommitted| |done]; cbn beta. intros r b' [Hv Hs].
    split; [|done]. unfold committed. rewrite Hp. split.
    + intros ->. right. by exists p.
    + intros [?|(p' & [= <-] & Hv')]; [done|]. congruence.
  - unfold _uncommitted_reason, read_commit_marker. rewrite bool_decide_false by done.
    assert (¬ committed b bc m) as Hn by (intros [?|(p & Hp' & _)]; congruence).
    revert Hp. unfold marker_path. destruct (_safe_name _) as [name|]; simpl; intros Hp; last first.
    { do 2 apply wp_bind. by apply wp_liftR. }
    do 2 apply wp_bind. apply wp_liftR; [|done]. intros _ [= <-]. rewrite Hp.
    unfold read_model, catching. apply wp_try_except, wp_bind, wp_liftR; [done|].
    intros e' [= <-]. case_bool_decide; [|by apply wp_raise]. by apply wp_ret, wp_ret.
Qed.

(** A tape is to be scanned exactly if it is rebuildable. *)
Lemma wp_scan_tape requested bc s :
  wp (scan_tape w requested bc)
    (λ r s', quietly s s' ∧ (to_scan r = true ↔ rebuildable (dk_backend s) bc))
    (λ _ s', quietly s s') s.
Proof.
  unfold scan_tape. eapply wp_quiet_read; [done|apply wp_read_tape_json|]. intros x s1 Hx H1.
  case_bool_decide as Hn.
  { apply wp_ret. split; [done|]. split; [done|]. intros [[y Hy] _]. congruence. }
  apply not_eq_None_Some in Hn as [y ->].
  destruct (quietly_docs s s1 bc H1) as (_ & Hmv & _).
  eapply wp_quiet_read; [done|apply wp_read_manifest|]. intros m s2 Hm H2. rewrite Hmv in Hm.
  destruct m as [m|]; last first.
  { eapply wp_quiet_read; [done|apply wp_list_files|]. intros l s3 _ H3. apply wp_ret.
    split; [done|]. split; [by case_match|]. intros (_ & m' & x' & Hm' & _). congruence. }
  eapply wp_quiet_read; [done|apply wp_validate_manifest|]. intros v s3 Hv H3.
  cbn beta in Hv. rewrite !(quietly_view s s2) in Hv by done.
  destruct (mv_valid v) eqn:Hvv; cbn [negb]; last first.
  { apply wp_ret. split; [done|]. split; [done|]. intros (_ & m' & x' & _ & Hv' & _). congruence. }
  destruct (quietly_docs s s3 bc H3) as (_ & _ & Hsv).
  eapply wp_quiet_read; [done|apply wp_read_shard|]. intros sh s4 Hsh H4. rewrite Hsv in Hsh.
  destruct sh as [sh|]; last first.
  { apply wp_ret. split; [done|]. split; [done|]. intros (_ & m' & x' & _ & _ & Hx' & _). congruence. }
  eapply wp_quiet_read; [done|apply wp_committed|]. intros u s5 Hu H5.
  cbn beta in Hu. rewrite (quietly_committed s s4) in Hu by done.
  destruct u as [reason|].
  { apply wp_ret. split; [done|]. split; [done|]. intros (_ & m' & x' & Hm' & _ & _ & Hc).
    assert (m' = m) as -> by congruence. by apply Hu in Hc. }
  apply wp_bind. eapply wp_mono; [apply wp_mappings_of| |]; cbn beta.
  - intros rs s6 (Hb & Ht & _). apply wp_ret. split.
    + etrans; [exact H5|]. split; [|done]. by rewrite Hb.
    + split; [|done]. intros _. split; [by exists y|]. exists m, sh. split_and!; [done..|by apply Hu].
  - intros e s6 [Hb Ht]. etrans; [exact H5|]. split; [|done]. by rewrite Hb.
Qed.

Lemma wp_scan_tapes requested bcs s :
  wp (scan_tapes w requested bcs)
    (λ rs s', quietly s s' ∧ rs.*1 = bcs ∧
       Forall (λ x, to_scan x.2 = true ↔ rebuildable (dk_backend s) x.1) rs)
    (λ _ s', quietly s s') s.
Proof.
  revert s. induction bcs as [|bc bcs IH]; intros s; cbn [scan_tapes].
  { apply wp_ret. split; [done|]. by split; [|apply Forall_nil]. }
  apply wp_bind. eapply wp_mono; [apply wp_scan_tape| |done]; cbn beta. intros r s1 [H1 Hr].
  apply wp_bind. eapply wp_mono; [apply IH| |intros e s2 H2; by etrans]; cbn beta.
  intros rs s2 (H2 & Hbs & Hrs). apply wp_ret. split; [by etrans|]. split; [by rewrite <-Hbs|].
  apply Forall_cons. split; [done|]. eapply Forall_impl; [exact Hrs|]. cbn beta. intros [b r'] ->.
  by rewrite (quietly_rebuildable s s1).
Qed.
End scanning.

Lemma elem_of_uniques {A} `{EqDecision A} (l : list A) x : x ∈ Capacity.unique l ↔ x ∈ l.
Proof.
  induction l as [|y l IH]; [done|]. cbn [Capacity.unique]. rewrite !elem_of_cons, list_elem_of_filter, IH.
  destruct (decide (x = y)); naive_solver.
Qed.
Lemma uniques_NoDup {A} `{EqDecision A} (l : list A) : NoDup (Capacity.unique l).
Proof.
  induction l as [|y l IH]; [constructor|]. cbn [Capacity.unique]. apply NoDup_cons. split.
  - rewrite list_elem_of_filter. tauto.
  - by apply NoDup_filter.
Qed.

Section planning.
Context {S : Type} {BK : Backend S} {BL : BackendLaws S} {PD : Pydantic} {FT : FloatText} (w : readings).
Implicit Types (s : desk S) (b : S) (bc : string).

Lemma elem_of_barcodes_with P (scans : list (string * scan_result)) bc :
  bc ∈ barcodes_with P scans ↔ ∃ r, (bc, r) ∈ scans ∧ P r = true.
Proof.
  unfold barcodes_with. rewrite list_elem_of_fmap. split.
  - intros ([b r] & -> & [HP Hx]%list_elem_of_filter). by exists r.
  - intros (r & Hr & HP). exists (bc, r). by rewrite list_elem_of_filter.
Qed.
Lemma barcodes_with_NoDup P (scans : list (string * scan_result)) :
  NoDup scans.*1 → NoDup (barcodes_with P scans).
Proof. intros Hn. eapply sublist_NoDup; [exact Hn|]. apply fmap_sublist, sublist_filter. Qed.

(** The plan of a request: its tapes that are rebuildable, each once. *)
Definition plans b (requested : list string) (plan : RebuildPlanResult) : Prop :=
  NoDup (rp_barcodes_to_scan plan) ∧
  (∀ bc, bc ∈ rp_barcodes_to_scan plan ↔ bc ∈ requested ∧ rebuildable b bc) ∧
  (rp_safe_to_enqueue plan = true → rp_barcodes_to_scan plan ≠ []).

Lemma plan_of_plans b requested run_id dry_run scans :
  scans.*1 = _unique_barcodes requested →
  Forall (λ x, to_scan x.2 = true ↔ rebuildable b x.1) scans →
  plans b requested (plan_of run_id dry_run scans).
Proof.
  intros Hbs Hr. unfold plans. cbn [plan_of rp_barcodes_to_scan rp_safe_to_enqueue]. split_and!.
  - apply barcodes_with_NoDup. rewrite Hbs. apply uniques_NoDup.
  - intros bc. rewrite elem_of_barcodes_with, <-(elem_of_uniques requested).
    unfold _unique_barcodes in Hbs. rewrite <-Hbs, list_elem_of_fmap. rewrite Forall_forall in Hr. split.
    + intros (r & Hx & Hs). split; [by exists (bc, r)|]. by apply (Hr (bc, r)).
    + intros (([b' r] & -> & Hx) & Hb). exists r. split; [done|]. by apply (Hr (b', r)).
  - intros [_ Hn]%andb_true_iff. by apply bool_decide_eq_true in Hn.
Qed.

Lemma wp_plan_rebuild request s :
  wp (plan_rebuild w request)
    (λ plan s', touches (λ _, False) (dk_backend s) (dk_backend s') ∧
       plans (dk_backend s) (rb_barcodes request) plan ∧
       if rb_dry_run request then dk_tables s' = dk_tables s
       else ∃ now, dk_tables s' = with_runs (dset (nt_runs (dk_tables s)) (rp_run_id plan)
              (planned_run (rp_run_id plan) (rb_triggered_by request) (rp_barcodes_to_scan plan) now))
              (dk_tables s))
    (λ _ s', aside (λ _, False) s s') s.
Proof.
  unfold plan_rebuild. apply wp_bind.
  eapply wp_mono; [apply wp_scan_tapes| |done]; cbn beta. intros scans s1 ([H1 He1] & Hbs & Hr).
  destruct (rb_dry_run request).
  { apply wp_ret. split_and!; [done|by apply plan_of_plans|done]. }
  do 2 apply wp_bind, wp_desk_tick. cbn [dk_backend dk_tables dk_tick].
  apply wp_bind. unfold on_tables, create_rebuild_run. apply wp_zoom, wp_bind, wp_modify, wp_ret, wp_ret.
  cbn [dk_backend dk_tables dk_tick]. split_and!; [done|by apply plan_of_plans|].
  rewrite He1. by eexists.
Qed.
End planning.
