(* ===== verification/CatalogRecovery.v ===== *)
(** What a rebuild of the catalog recovers (nas/catalog_rebuild.py and
    nas/catalog_rebuild_worker.py): every file, index entry and dataset of the
    catalog shards of the tapes planned, and nothing else; with what the archive
    lifecycle leaves on a tape, a catalog that is lost is recovered from it. *)
From stdpp Require Import base list option strings sets.
From Stdlib Require Import Ascii ZArith Lia.
From S2P Require Import Prelude Wp Paths Bytes Domain Catalog Planner Capacity Json TapeModels.
From S2P Require Import Metadata LtfsBackend Generation NasTables Lifecycle Rebuild.
From S2P Require Ltfs.
#[local] Open Scope string_scope.
#[local] Open Scope Z_scope.

(** * What a run recovers

    The catalog has the tables [t0] before; the documents of the tapes are those of
    [b]; the run is over the tapes [bcs]. *)
Section recovering.
Context {S : Type} {BK : Backend S} {BL : BackendLaws S} {PD : Pydantic} {FT : FloatText} (w : readings).
Context (b : S) (bcs : list string) (t0 : nas_tables).
Implicit Types (s : desk S) (t : nas_tables) (bc : string) (x : CatalogShard).

Definition source bc x : Prop := bc ∈ bcs ∧ shard_on b bc = Ok (Some x).

(** The record [g] says what the entry [e] says. *)
Definition describes (g : NasFileRecord) (e : CatalogShardFileEntry) : Prop :=
  nf_dataset_id g = se_dataset_id e ∧ nf_relative_path g = se_logical_path e ∧
  nf_size_bytes g = se_size e ∧ nf_status g = OFFLINE_ON_TAPE ∧
  (se_checksum e ≠ "" → nf_checksum_sha256 g = Some (se_checksum e)).
Definition entry_of (id bc : string) (e : CatalogShardFileEntry) : Prop :=
  ∃ x, source bc x ∧ e ∈ sh_files x ∧ se_file_record_id e = id.
(** The tape of a file: the one it had before, or one with an entry. *)
Definition hosted (id : string) (tape : option string) : Prop :=
  (∃ g, dget (nt_files t0) id = Some g ∧ tape = nf_tape_barcode g) ∨
  ∃ bc e, entry_of id bc e ∧ tape = Some bc.
(** The record of a file recovered: what an entry says, on the tape it had before
    or on one with an entry. *)
Definition file_known (id : string) t : Prop := ∃ g, dget (nt_files t) id = Some g ∧
  (∃ bc e, entry_of id bc e ∧ describes g e) ∧
  hosted id (nf_tape_barcode g).
Definition mapped (tape path pool : string) t : Prop := ∃ r, dget (nt_mappings t) (path, pool) = Some r ∧
  tape ∈ pm_all_barcodes r ∧ ∃ bc x e, source bc x ∧ e ∈ sh_files x ∧
  validate_logical_path (se_logical_path e) = Ok path ∧ se_pool_id e = pool ∧
  pm_primary_barcode r = sh_barcode x ∧ pm_file_record_id r = se_file_record_id e.
Definition archived_on (id tape : string) t : Prop := ∃ d, get_nas_dataset id t = Some d ∧
  ds_status d = DS_ARCHIVED ∧ tape ∈ ds_tape_set d.

(** Nothing is forgotten, and no record is invented. *)
Definition remembers t t' : Prop :=
  (∀ id, file_known id t → file_known id t') ∧
  (∀ tape path pool, mapped tape path pool t → mapped tape path pool t') ∧
  (∀ id tape, archived_on id tape t → archived_on id tape t').
#[export] Instance remembers_preorder : PreOrder remembers.
Proof. split; [by split|]. intros t1 t2 t3 (? & ? & ?) (? & ? & ?). split_and!; auto. Qed.
Definition honest t : Prop := ∀ id, dget (nt_files t) id = dget (nt_files t0) id ∨ file_known id t.
Definition inv s : Prop := touches (λ _, False) b (dk_backend s) ∧ honest (dk_tables s).
Definition grows s s' : Prop := inv s' ∧ remembers (dk_tables s) (dk_tables s').
Lemma grows_refl s : inv s → grows s s.
Proof. by split. Qed.
Lemma grows_trans s1 s2 s3 : grows s1 s2 → grows s2 s3 → grows s1 s3.
Proof. intros [_ H1] [? H2]. split; [done|]. by etrans. Qed.
(** A change of the tables that no fact speaks of. *)
Lemma grows_frame s t' n : inv s → nt_files t' = nt_files (dk_tables s) →
  nt_mappings t' = nt_mappings (dk_tables s) → nt_datasets t' = nt_datasets (dk_tables s) →
  grows s (Desk (dk_backend s) t' n).
Proof.
  intros [Hd Hh] Hf Hm Hds. split; [split; [done|]|].
  - unfold honest, file_known. cbn [dk_tables]. by rewrite Hf.
  - unfold remembers, file_known, mapped, archived_on, get_nas_dataset. cbn [dk_tables].
    by rewrite Hf, Hm, Hds.
Qed.

(** ** Files *)
Lemma recovered_hosted now bc x e (r : option NasFileRecord) : source bc x → e ∈ sh_files x →
  (r = dget (nt_files t0) (se_file_record_id e) ∨ ∃ g, r = Some g ∧
   hosted (se_file_record_id e) (nf_tape_barcode g)) →
  hosted (se_file_record_id e) (nf_tape_barcode (recovered_file now bc e r)).
Proof.
  intros Hx He Hr. cbn. unfold or_text, py_or.
  assert (hosted (se_file_record_id e) (Some bc)) as Hnew
    by (right; exists bc, e; split; [by exists x|done]).
  destruct r as [g|]; [|done]. cbn [mbind option_bind].
  destruct (nf_tape_barcode g) as [v|] eqn:Hv; [|done]. destruct v as [|c v]; [done|].
  change (default bc (Some (String c v))) with (String c v). rewrite <-Hv.
  destruct Hr as [Hr|(g' & [= <-] & Hg)]; [|done]. left. by exists g.
Qed.

Lemma wp_recover_file bc x e count entries s (Q : Z → desk S → Prop) :
  source bc x → e ∈ sh_files x → inv s →
  (∀ s', grows s s' → file_known (se_file_record_id e) (dk_tables s') →
     ∀ n, wp (recover_files w bc n entries) Q (λ _ s'', grows s s'') s') →
  wp (recover_files w bc count (e :: entries)) Q (λ _ s'', grows s s'') s.
Proof.
  intros Hx He Hi Hk. cbn [recover_files]. unfold of_tables. apply wp_bind, wp_gets.
  do 2 apply wp_bind, wp_desk_tick. cbn [dk_backend dk_tables dk_tick].
  set (existing := get_nas_file_record _ _). apply wp_bind, wp_liftR; last first.
  { intros _ _. by apply grows_frame. }
  intros f Hf. unfold NasFileRecord_validate in Hf. case_bool_decide as Hp; [done|]. injection Hf as <-.
  apply wp_bind. unfold on_tables, upsert_nas_file_record. apply wp_zoom. cbn [dk_backend dk_tables dk_tick].
  apply wp_bind, wp_liftR; last first.
  { intros _ _. by apply grows_frame. }
  intros f Hf. unfold NasFileRecord_validate in Hf. rewrite bool_decide_false in Hf by done.
  injection Hf as <-. apply wp_bind, wp_gets, wp_bind, wp_modify, wp_ret.
  cbn [dk_backend dk_tables dk_tick]. set (g := set_stamps _ _ _).
  destruct Hi as [Hd Hh].
  assert (file_known (se_file_record_id e)
    (with_nas_files (dset (nt_files (dk_tables s)) (se_file_record_id e) g) (dk_tables s))) as Hknown.
  { exists g. split; [apply dget_dset_eq|]. split.
    - exists bc, e. split; [by exists x|]. split_and!; [done..|]. intros Hc. cbn. by destruct (se_checksum e).
    - apply (recovered_hosted "" bc x e existing); [done..|].
      destruct (Hh (se_file_record_id e)) as [Hs|(g0 & Hg0 & _ & Hh0)]; [by left|].
      right. by exists g0. }
  assert (∀ id, id ≠ se_file_record_id e →
    dget (dset (nt_files (dk_tables s)) (se_file_record_id e) g) id = dget (nt_files (dk_tables s)) id) as Hother
    by (intros id Hid; by apply dget_dset_ne).
  apply Hk; [|exact Hknown]. split; [split; [done|]|].
  - intros id. destruct (decide (id = se_file_record_id e)) as [->|Hid]; [by right|].
    unfold file_known. cbn [nt_files with_nas_files dk_tables]. rewrite !Hother by done. apply Hh.
  - split_and!; [|done..]. intros id Hid0. destruct (decide (id = se_file_record_id e)) as [->|Hid]; [done|].
    revert Hid0. unfold file_known. cbn [nt_files with_nas_files dk_tables]. by rewrite !Hother.
Qed.

Lemma wp_recover_files bc x count entries s : source bc x → entries ⊆ sh_files x → inv s →
  wp (recover_files w bc count entries)
    (λ _ s', grows s s' ∧ ∀ e, e ∈ entries → file_known (se_file_record_id e) (dk_tables s'))
    (λ _ s', grows s s') s.
Proof.
  intros Hx. revert count s. induction entries as [|e entries IH]; intros count s Hsub Hi.
  { apply wp_ret. split; [by apply grows_refl|]. by intros e ?%not_elem_of_nil. }
  eapply wp_recover_file; [done|set_solver|done|]. intros s1 H1 He n.
  eapply wp_mono; [apply IH; [set_solver|apply H1]| |]; cbn beta.
  - intros _ s2 [H2 Hes]. split; [by eapply grows_trans|]. intros e' [->|He']%elem_of_cons; [|by apply Hes].
    by apply H2.
  - intros _ s2 H2. by eapply grows_trans.
Qed.

(** ** The index *)
Lemma validate_logical_path_idemp v p : validate_logical_path v = Ok p → validate_logical_path p = Ok p.
Proof.
  unfold validate_logical_path. case_bool_decide as Hd; [done|]. intros [= <-].
  by rewrite strip_idemp, bool_decide_false.
Qed.
(** The mapping of an entry. *)
Definition maps_entry x (e : CatalogShardFileEntry) (r : PathMappingRecord) : Prop :=
  validate_logical_path (se_logical_path e) = Ok (pm_logical_path r) ∧ pm_pool_id r = se_pool_id e ∧
  pm_primary_barcode r = sh_barcode x ∧ sh_barcode x ∈ pm_all_barcodes r ∧
  pm_file_record_id r = se_file_record_id e.
Lemma entry_mapping_maps x id created e r : entry_mapping x id created e = Ok r → maps_entry x e r.
Proof.
  unfold entry_mapping, PathMappingRecord_validate, maps_entry. cbn [pm_logical_path].
  destruct (validate_logical_path _) as [p|]; [|done]. intros [= <-]. cbn. split_and!; [done..| |done].
  by left.
Qed.

Lemma elem_of_merge_missing v (l more : list string) : v ∈ merge_missing l more ↔ v ∈ l ∨ v ∈ more.
Proof.
  unfold merge_missing. revert l. induction more as [|y more IH]; intros l; cbn [foldl]; [set_solver|].
  rewrite IH. case_bool_decide; set_solver.
Qed.

Lemma lookup_path_row path pool t : validate_logical_path path = Ok path →
  match lookup_path path pool t with
  | Ok found => if pr_found found
                then ∃ r, dget (nt_mappings t) (path, pool) = Some r ∧ pr_all_barcodes found = pm_all_barcodes r
                else dget (nt_mappings t) (path, pool) = None
  | Raise _ => True
  end.
Proof.
  intros Hp. unfold lookup_path, get_path_mapping.
  destruct (dget (nt_mappings t) (path, pool)) as [r|]; [|done].
  unfold PathMappingRecord_validate. destruct (validate_logical_path (pm_logical_path r)) as [p|]; [|done].
  simpl. by exists r.
Qed.

(** The index with the mapping of an entry, which keeps the tapes the row had. *)
Lemma grows_mapping bc x e r now s n : source bc x → e ∈ sh_files x → inv s →
  validate_logical_path (se_logical_path e) = Ok (pm_logical_path r) → pm_pool_id r = se_pool_id e →
  pm_primary_barcode r = sh_barcode x → pm_file_record_id r = se_file_record_id e →
  let key := (pm_logical_path r, pm_pool_id r) in
  (∀ row tape, dget (nt_mappings (dk_tables s)) key = Some row → tape ∈ pm_all_barcodes row →
     tape ∈ pm_all_barcodes r) →
  sh_barcode x ∈ pm_all_barcodes r →
  let t' := with_mappings (dset (nt_mappings (dk_tables s)) key
              (mapping_row now (dget (nt_mappings (dk_tables s)) key) (with_logical_path (pm_logical_path r) r)))
              (dk_tables s) in
  grows s (Desk (dk_backend s) t' n) ∧ mapped (sh_barcode x) (pm_logical_path r) (pm_pool_id r) t'.
Proof.
  intros Hx He [Hd Hh] Hp Hpool Hprim Hid key Hall Hin t'.
  assert (∀ tape, tape ∈ pm_all_barcodes r → mapped tape (pm_logical_path r) (pm_pool_id r) t') as Hm.
  { intros tape Ht. eexists. split; [apply dget_dset_eq|]. split; [done|]. by exists bc, x, e. }
  split; [|by apply Hm]. split; [done|]. split_and!; [done| |done].
  intros tape path pool (row & Hrow & Ht & Hsrc). destruct (decide ((path, pool) = key)) as [[= -> ->]|Hne].
  - apply Hm. by eapply Hall.
  - exists row. split; [|done]. cbn [dk_tables t' with_mappings nt_mappings]. by rewrite dget_dset_ne.
Qed.

Lemma wp_recover_mappings bc x count records s : source bc x → inv s →
  (∀ r, r ∈ records → ∃ e, e ∈ sh_files x ∧ maps_entry x e r) →
  wp (recover_path_mappings w count records)
    (λ _ s', grows s s' ∧ ∀ r, r ∈ records →
       mapped (sh_barcode x) (pm_logical_path r) (pm_pool_id r) (dk_tables s'))
    (λ _ s', grows s s') s.
Proof.
  intros Hx. revert count s. induction records as [|r records IH]; intros count s Hi Hrs.
  { apply wp_ret. split; [by apply grows_refl|]. by intros r ?%not_elem_of_nil. }
  destruct (Hrs r ltac:(by left)) as (e & He & Hp & Hpool & Hprim & Hin & Hid).
  pose proof (validate_logical_path_idemp _ _ Hp) as Hpp. cbn [recover_path_mappings].
  apply wp_bind, wp_getS, wp_bind. pose proof (lookup_path_row _ (pm_pool_id r) (dk_tables s) Hpp) as Hl.
  apply wp_liftR; [|intros e' _; by apply grows_refl]. intros found Hf. rewrite Hf in Hl.
  apply wp_bind, wp_desk_tick. cbn [dk_backend dk_tables dk_tick].
  assert (∀ r', pm_logical_path r' = pm_logical_path r → pm_pool_id r' = pm_pool_id r →
    pm_primary_barcode r' = pm_primary_barcode r → pm_file_record_id r' = pm_file_record_id r →
    sh_barcode x ∈ pm_all_barcodes r' →
    (∀ row tape, dget (nt_mappings (dk_tables s)) (pm_logical_path r, pm_pool_id r) = Some row →
       tape ∈ pm_all_barcodes row → tape ∈ pm_all_barcodes r') →
    ∀ count' now n, wp (on_tables (record_file now r');; recover_path_mappings w count' records)
      (λ _ s', grows s s' ∧ ∀ r0, r0 ∈ r :: records →
         mapped (sh_barcode x) (pm_logical_path r0) (pm_pool_id r0) (dk_tables s'))
      (λ _ s', grows s s') (Desk (dk_backend s) (dk_tables s) n)) as Hrec.
  { intros r' E1 E2 E3 E4 Hin' Hrow count' now n.
    destruct (grows_mapping bc x e r' now s n) as [Hg Hm]; try done; try congruence; [by rewrite E1, E2|].
    apply wp_bind. unfold on_tables. apply wp_zoom. cbn [dk_backend dk_tables dk_tick].
    eapply wp_mono; [apply (wp_record_file _ _ (pm_logical_path r')); by rewrite E1| |]; cbn beta;
      [|by intros e' t' ->].
    intros _ t' ->. eapply wp_mono; [apply IH; [apply Hg|set_solver]| |]; cbn beta.
    - intros _ s2 [H2 Hms]. split; [by eapply grows_trans|].
      intros r0 [->|Hr0]%elem_of_cons; [|by apply Hms]. rewrite <-E1, <-E2. by apply H2.
    - intros _ s2 H2. by eapply grows_trans. }
  destruct (pr_found found); apply Hrec; try done.
  - cbn [with_all_barcodes pm_all_barcodes]. rewrite elem_of_merge_missing. by right.
  - intros row tape Hrow Ht. destruct Hl as (row' & Hrow' & Ha). cbn [with_all_barcodes pm_all_barcodes].
    rewrite elem_of_merge_missing, Ha. left. congruence.
  - intros row tape Hrow. congruence.
Qed.

(** ** Datasets *)
Lemma wp_protection id protection t : wp (_recover_dataset_protection id protection)
  (λ _ t', nt_files t' = nt_files t ∧ nt_mappings t' = nt_mappings t ∧
     ∀ id', get_nas_dataset id' t' = get_nas_dataset id' t)
  (λ _ _, False) t.
Proof.
  unfold _recover_dataset_protection. destruct protection as [d|]; [|by apply wp_ret].
  destruct (Protection.from_dict d) as [policy|]; [|by apply wp_ret].
  apply wp_modify. destruct (dget (nt_datasets t) id) as [row|] eqn:Hrow; [|done].
  split_and!; [done..|]. intros id'. unfold get_nas_dataset. cbn [nt_datasets with_datasets].
  destruct (decide (id' = id)) as [->|Hne].
  - by rewrite dget_dset_eq, Hrow.
  - by rewrite dget_dset_ne.
Qed.

(** The tapes an entry puts a dataset on. *)
Definition entry_tapes bc (e : CatalogShardDatasetEntry) : list string :=
  match sd_tape_set e with [] => [bc] | l => l end.
Lemma grows_dataset id d t' s n : inv s → nt_files t' = nt_files (dk_tables s) →
  nt_mappings t' = nt_mappings (dk_tables s) → get_nas_dataset id t' = Some d →
  (∀ id', id' ≠ id → get_nas_dataset id' t' = get_nas_dataset id' (dk_tables s)) →
  ds_status d = DS_ARCHIVED →
  (∀ d0 tape, get_nas_dataset id (dk_tables s) = Some d0 → tape ∈ ds_tape_set d0 → tape ∈ ds_tape_set d) →
  grows s (Desk (dk_backend s) t' n).
Proof.
  intros [Hd Hh] Hf Hm Hid Hother Hst Hkeep. split; [split; [done|]|].
  - unfold honest, file_known. cbn [dk_tables]. by rewrite Hf.
  - unfold remembers, file_known, mapped. cbn [dk_tables]. rewrite Hf, Hm. split_and!; [done..|].
    intros id' tape (d0 & Hd0 & Hst0 & Ht). destruct (decide (id' = id)) as [->|Hne].
    + exists d. split_and!; [done..|]. by eapply Hkeep.
    + exists d0. by rewrite Hother.
Qed.

Lemma wp_recover_datasets bc count entries s : inv s →
  wp (recover_datasets w bc count entries)
    (λ _ s', grows s s' ∧ ∀ e tape, e ∈ entries → tape ∈ entry_tapes bc e →
       archived_on (sd_dataset_id e) tape (dk_tables s'))
    (λ _ s', grows s s') s.
Proof.
  revert count s. induction entries as [|e entries IH]; intros count s Hi.
  { apply wp_ret. split; [by apply grows_refl|]. by intros e tape ?%not_elem_of_nil. }
  cbn [recover_datasets]. unfold of_tables. apply wp_bind, wp_gets.
  do 2 apply wp_bind, wp_desk_tick. cbn [dk_backend dk_tables dk_tick].
  set (existing := get_nas_dataset _ _). apply wp_bind, wp_liftR; [|intros _ _; by apply grows_frame].
  intros d Hd. apply wp_bind. unfold on_tables, upsert_nas_dataset. apply wp_zoom.
  cbn [dk_backend dk_tables dk_tick]. apply wp_bind, wp_liftR; [|intros _ _; by apply grows_frame].
  intros d' Hd'. apply wp_bind, wp_gets, wp_bind, wp_modify, wp_ret. cbn [dk_backend dk_tables dk_tick].
  assert (ds_id d' = sd_dataset_id e ∧ ds_status d' = DS_ARCHIVED ∧ ds_tape_set d' =
    merge_missing (default [] (ds_tape_set <$> existing)) (entry_tapes bc e)) as (Hid & Hst & Hset).
  { revert Hd Hd'. unfold NasDataset_validate. destruct (_strip_required_string _ _); [|done].
    simpl. intros [= <-]. cbn [ds_name]. destruct (_strip_required_string _ _); [|done].
    simpl. intros [= <-]. cbn. by destruct existing. }
  set (d2 := stamped _ _ _). rewrite Hid. apply wp_bind, wp_zoom. cbn [dk_backend dk_tables dk_tick].
  set (t1 := with_datasets _ _). assert (get_nas_dataset (sd_dataset_id e) t1 = Some d2) as Hd2.
  { unfold get_nas_dataset. cbn [nt_datasets with_datasets t1]. by rewrite dget_dset_eq. }
  assert (∀ id', id' ≠ sd_dataset_id e → get_nas_dataset id' t1 = get_nas_dataset id' (dk_tables s)) as Hother.
  { intros id' Hne. unfold get_nas_dataset. cbn [nt_datasets with_datasets t1]. by rewrite dget_dset_ne. }
  eapply wp_mono; [apply wp_protection| |by intros ? ? []]; cbn beta. intros _ t2 (Hf2 & Hm2 & Hg2).
  cbn [dk_backend dk_tables dk_tick]. match goal with |- wp _ _ _ ?st => set (s2 := st) end.
  assert (grows s s2) as H2.
  { apply (grows_dataset (sd_dataset_id e) d2); [done| | | | |done|].
    - by rewrite Hf2.
    - by rewrite Hm2.
    - by rewrite Hg2.
    - intros id' Hne. by rewrite Hg2, Hother.
    - intros d0 tape Hd0 Ht. change (ds_tape_set d2) with (ds_tape_set d'). rewrite Hset, elem_of_merge_missing.
      left. unfold existing. by rewrite Hd0. }
  eapply wp_mono; [apply IH; apply H2| |intros e' s3 H3; by eapply grows_trans]; cbn beta.
  intros _ s3 [H3 Hes]. split; [by eapply grows_trans|].
  intros e' tape [->|He']%elem_of_cons Ht; [|by apply Hes]. apply H3. exists d2.
  split_and!; [by rewrite <-Hd2; apply Hg2|done|].
  change (ds_tape_set d2) with (ds_tape_set d'). rewrite Hset, elem_of_merge_missing. by right.
Qed.

(** ** Versions *)
Lemma grows_quiet s b' n : inv s → same_files (dk_backend s) b' → grows s (Desk b' (dk_tables s) n).
Proof. intros [Hd Hh] Hs. split; [|done]. split; [|done]. etrans; [exact Hd|]. by apply same_touches. Qed.
Lemma wp_quietly {A B} (m : M S A) (k : A → M (desk S) B) (Q : B → desk S → Prop) s :
  quiet m → inv s → (∀ a s', grows s s' → wp (k a) Q (λ _ s'', grows s s'') s') →
  wp (on_backend m ≫= k) Q (λ _ s'', grows s s'') s.
Proof.
  intros Hm Hi Hk. apply wp_bind, wp_backend. eapply wp_mono; [apply Hm| |]; cbn beta.
  - intros a b' Hs. apply Hk. by apply grows_quiet.
  - intros e b' Hs. by apply grows_quiet.
Qed.
Lemma quiet_json bc p : quiet (_read_json (S := S) bc p).
Proof.
  unfold _read_json, _read_text. apply quiet_bind.
  - apply quiet_bind; [apply quiet_read|]. intros [c|]; [|apply quiet_ret].
    unfold fmap, M_fmap. apply quiet_bind; [apply quiet_liftR|]. intros t. apply quiet_ret.
  - intros [t|]; [|apply quiet_ret]. destruct (loads t); [apply quiet_ret|apply quiet_raise].
Qed.

Lemma wp_recover_versions bc checksum count paths s : inv s →
  wp (recover_versions w bc checksum count paths) (λ _ s', grows s s') (λ _ s', grows s s') s.
Proof.
  revert count s. induction paths as [|path paths IH]; intros count s Hi; [by apply wp_ret, grows_refl|].
  assert (∀ count' s', grows s s' → wp (recover_versions w bc checksum count' paths)
    (λ _ s'', grows s s'') (λ _ s'', grows s s'') s') as Hrest.
  { intros count' s' H1. eapply wp_mono; [apply IH, H1| |]; cbn beta; intros; by eapply grows_trans. }
  cbn [recover_versions]. apply wp_quietly; [apply quiet_json|done|]. intros payload s1 H1. cbv zeta.
  destruct payload as [j|]; [|by apply Hrest]. case_bool_decide; [by apply Hrest|].
  apply wp_bind, wp_liftR; [|done]. intros n _. apply wp_bind, wp_desk_tick.
  cbn [dk_backend dk_tables dk_tick]. apply wp_bind. unfold on_tables, create_manifest_version.
  apply wp_zoom, wp_bind, wp_modify, wp_ret. cbn [dk_backend dk_tables dk_tick]. apply Hrest.
  eapply grows_trans; [exact H1|]. apply grows_frame; [apply H1|done..].
Qed.

Lemma wp_recover_manifest_versions bc s : inv s →
  wp (_recover_manifest_versions w bc) (λ _ s', grows s s') (λ _ s', grows s s') s.
Proof.
  intros Hi. unfold _recover_manifest_versions.
  apply wp_quietly; [|done|].
  { intros b'. eapply wp_mono; [apply wp_read_manifest| |done]; cbn beta. by intros r b2 [_ H2]. }
  intros m s1 H1. cbv zeta. apply wp_bind, wp_backend.
  eapply wp_mono; [apply wp_list_files| |]; cbn beta.
  - intros files b2 [_ H2]. assert (grows s (Desk b2 (dk_tables s1) (dk_tick s1))) as Hg
      by (eapply grows_trans; [done|apply grows_quiet; [apply H1|done]]).
    eapply wp_mono; [apply wp_recover_versions, Hg| |]; cbn beta; intros; by eapply grows_trans.
  - intros e b2 H2. eapply grows_trans; [done|apply grows_quiet; [apply H1|done]].
Qed.

(** ** A tape *)
Definition recovered bc x t : Prop :=
  (∀ e, e ∈ sh_files x → file_known (se_file_record_id e) t ∧
     ∃ p, validate_logical_path (se_logical_path e) = Ok p ∧ mapped (sh_barcode x) p (se_pool_id e) t) ∧
  (∀ d tape, d ∈ sh_datasets x → tape ∈ entry_tapes bc d → archived_on (sd_dataset_id d) tape t).
Lemma recovered_mono bc x t t' : remembers t t' → recovered bc x t → recovered bc x t'.
Proof.
  intros (Hf & Hm & Hd) [Hfiles Hds]. split; [|auto]. intros e He.
  destruct (Hfiles e He) as (Hk & p & Hp & Hmap). split; [auto|]. exists p. auto.
Qed.

Lemma add_cartridge_frame uuid instant bc s : inv s →
  wp (on_tables (S := S) (on_nas_catalog (Catalog.add_cartridge uuid instant bc None)))
    (λ _ s', grows s s') (λ _ s', grows s s') s.
Proof.
  intros Hi. unfold on_tables, on_nas_catalog. do 2 apply wp_zoom.
  eapply wp_mono; [apply wp_trivial| |]; cbn beta; intros; by apply grows_frame.
Qed.

Lemma wp_recover_path_mappings bc x s : source bc x → inv s →
  wp (_recover_path_mappings w x)
    (λ _ s', grows s s' ∧ ∀ e, e ∈ sh_files x → ∃ p,
       validate_logical_path (se_logical_path e) = Ok p ∧
       mapped (sh_barcode x) p (se_pool_id e) (dk_tables s'))
    (λ _ s', grows s s') s.
Proof.
  intros Hx Hi. unfold _recover_path_mappings, shard_to_path_mappings. apply wp_bind.
  assert (∀ s1, dk_backend s1 = dk_backend s → dk_tables s1 = dk_tables s → grows s s1) as Hsame.
  { intros [b1 t1 n1]. cbn [dk_backend dk_tables]. intros -> ->. by apply grows_frame. }
  eapply wp_mono; [apply wp_mappings_of| |]; cbn beta; [|by intros e s1 [Hb Ht]; apply Hsame].
  intros rs s1 (Hb & Ht & Hrs). specialize (Hsame s1 Hb Ht).
  assert (∀ r, r ∈ rs → ∃ e, e ∈ sh_files x ∧ maps_entry x e r) as Hfrom.
  { intros r Hr. apply list_elem_of_lookup in Hr as [i Hr].
    destruct (Forall2_lookup_r _ _ _ _ _ Hrs Hr) as (e & He & id & created & Hm).
    exists e. split; [by eapply list_elem_of_lookup_2|]. by eapply entry_mapping_maps. }
  eapply wp_mono; [by eapply wp_recover_mappings; [|apply Hsame|]| |]; cbn beta.
  - intros _ s2 [H2 Hms]. split; [by eapply grows_trans|]. intros e He.
    apply list_elem_of_lookup in He as [i He].
    destruct (Forall2_lookup_l _ _ _ _ _ Hrs He) as (r & Hr & id & created & Hm).
    destruct (entry_mapping_maps _ _ _ _ _ Hm) as (Hp & Hpool & _). eexists. split; [exact Hp|].
    rewrite <-Hpool. apply Hms. by eapply list_elem_of_lookup_2.
  - intros e s2 H2. by eapply grows_trans.
Qed.

Lemma wp_recover_tape bc x s : source bc x → inv s →
  wp (recover_tape w bc x)
    (λ r s', grows s s' ∧ (r.2 = true → recovered bc x (dk_tables s'))) (λ _ _, False) s.
Proof.
  intros Hx Hi. unfold recover_tape. do 2 apply wp_bind, wp_desk_tick. cbn [dk_backend dk_tables dk_tick].
  match goal with |- wp _ _ _ ?st => assert (grows s st) as H0 by by apply grows_frame end.
  apply wp_bind, wp_attempt, wp_bind.
  eapply wp_mono; [apply add_cartridge_frame, H0| |]; cbn beta; last first.
  { intros e s1 H1. apply wp_ret. by split; [eapply grows_trans; [|exact H1]|]. }
  intros _ s1 H1. assert (grows s s1) as Hs1 by (by eapply grows_trans; [|exact H1]).
  eapply wp_mono; [apply wp_recover_datasets, Hs1| |]; cbn beta; last first.
  { intros e s2 H2. apply wp_ret. by split; [eapply grows_trans; [|exact H2]|]. }
  intros d s2 [H2 Hds]. assert (grows s s2) as Hs2 by by eapply grows_trans.
  apply wp_bind, wp_attempt. eapply wp_mono; [eapply wp_recover_files; [done|done|apply Hs2]| |];
    cbn beta; last first.
  { intros e s3 H3. apply wp_ret. by split; [eapply grows_trans; [|exact H3]|]. }
  intros f s3 [H3 Hfs]. assert (grows s s3) as Hs3 by by eapply grows_trans.
  apply wp_bind, wp_attempt. eapply wp_mono; [eapply (wp_recover_path_mappings bc); [done|apply Hs3]| |];
    cbn beta; last first.
  { intros e s4 H4. apply wp_ret. by split; [eapply grows_trans; [|exact H4]|]. }
  intros m s4 [H4 Hms]. assert (grows s s4) as Hs4 by by eapply grows_trans.
  apply wp_bind, wp_attempt. eapply wp_mono; [eapply wp_recover_manifest_versions, Hs4| |]; cbn beta;
    last first.
  { intros e s5 H5. apply wp_ret. by split; [eapply grows_trans; [|exact H5]|]. }
  intros v s5 H5. apply wp_ret. split; [by eapply grows_trans|]. intros _.
  apply (recovered_mono _ _ (dk_tables s4)); [apply H5|]. split.
  - intros e He. split; [by apply H4, Hfs|]. by apply Hms.
  - intros e tape He Ht. by apply H4, H3, Hds.
Qed.

(** ** The run *)
Definition recovered_tape t bc : Prop := ∃ x, source bc x ∧ recovered bc x t.
Lemma recovered_tape_mono bc s s' : grows s s' → recovered_tape (dk_tables s) bc →
  recovered_tape (dk_tables s') bc.
Proof. intros [_ Hr] (x & Hx & H). exists x. split; [done|]. by eapply recovered_mono. Qed.

Lemma wp_recover_tapes l s : l ⊆ bcs → inv s →
  wp (recover_tapes w l)
    (λ r s', grows s s' ∧ (rr_failed r = [] → rr_completed r = l ∧
       ∀ bc, bc ∈ l → recovered_tape (dk_tables s') bc))
    (λ _ _, False) s.
Proof.
  revert s. induction l as [|bc l IH]; intros s Hl Hi; cbn [recover_tapes].
  { apply wp_ret. split; [by apply grows_refl|]. intros _. split; [done|]. by intros bc ?%not_elem_of_nil. }
  assert (∀ s1 e counts, grows s s1 → (e = None → recovered_tape (dk_tables s1) bc) →
    wp (rest ← recover_tapes w l; mret (add_report bc e counts rest))
      (λ r s', grows s s' ∧ (rr_failed r = [] → rr_completed r = bc :: l ∧
         ∀ bc', bc' ∈ bc :: l → recovered_tape (dk_tables s') bc')) (λ _ _, False) s1) as Hrest.
  { intros s1 e [[f d] m] H1 He. apply wp_bind.
    eapply wp_mono; [apply IH; [set_solver|apply H1]| |done]; cbn beta. intros rest s2 [H2 Hok].
    apply wp_ret. split; [by eapply grows_trans|]. destruct e as [e|]; [done|].
    cbn [add_report rr_failed rr_completed]. intros Hf. destruct (Hok Hf) as [-> Hrec].
    split; [done|]. intros bc' [->|Hbc]%elem_of_cons; [|by apply Hrec].
    eapply recovered_tape_mono; [done|by apply He]. }
  apply wp_bind, wp_attempt, wp_backend. eapply wp_mono; [apply wp_read_shard| |]; cbn beta.
  - intros sh b1 [Hsh H1]. assert (grows s (Desk b1 (dk_tables s) (dk_tick s))) as Hs1
      by by apply grows_quiet.
    destruct sh as [x|]; [|by apply Hrest].
    assert (source bc x) as Hx.
    { split; [set_solver|]. revert Hsh. unfold shard_on. destruct Hi as [Hd _].
      by rewrite (Hd bc SHARD_METADATA_PATH) by (first [done|by intros []]). }
    apply wp_bind. eapply wp_mono; [eapply wp_recover_tape; [exact Hx|apply Hs1]| |by intros ? ? []].
    cbn beta. intros [counts ok] s2 [H2 Hok]. apply Hrest; [by eapply grows_trans; [|exact H2]|].
    destruct ok; [|done]. intros _. exists x. split; [done|]. by apply Hok.
  - intros e b1 H1. apply Hrest; [by apply grows_quiet|done].
Qed.

Lemma wp_update_run run_id updates s : inv s →
  wp (on_tables (S := S) (update_rebuild_run run_id updates))
    (λ r s', grows s s' ∧ r = updates <$> get_rebuild_run run_id (dk_tables s))
    (λ _ _, False) s.
Proof.
  intros Hi. unfold on_tables, update_rebuild_run. apply wp_zoom, wp_bind, wp_gets.
  destruct (get_rebuild_run _ _) as [r|].
  - apply wp_bind, wp_modify, wp_ret. split; [by apply grows_frame|done].
  - apply wp_ret. split; [by apply grows_frame|done].
Qed.

(** A run that completes has recovered every tape of its plan. *)
Lemma wp_execute run_id s run0 : inv s → get_rebuild_run run_id (dk_tables s) = Some run0 →
  rn_barcodes_planned run0 ⊆ bcs →
  wp (execute_rebuild_run w run_id)
    (λ r s', grows s s' ∧ (rn_status r = RR_COMPLETED → ∀ bc, bc ∈ rn_barcodes_planned run0 →
       recovered_tape (dk_tables s') bc))
    (λ _ s', grows s s') s.
Proof.
  intros Hi Hrun Hsub. unfold execute_rebuild_run, of_tables. apply wp_bind, wp_gets. rewrite Hrun.
  apply wp_bind, wp_raise_if; [intros _; by apply grows_refl|]. intros _.
  apply wp_bind, wp_desk_tick. cbn [dk_backend dk_tables dk_tick].
  match goal with |- wp _ _ _ ?st => assert (grows s st) as H0 by by apply grows_frame end.
  apply wp_bind. eapply wp_mono; [apply wp_update_run, H0| |by intros ? ? []]; cbn beta.
  intros r s1 [H1 ->]. cbn [dk_tables]. rewrite Hrun. cbn [fmap option_fmap option_map].
  assert (grows s s1) as Hs1 by (by eapply grows_trans; [|exact H1]).
  apply wp_bind. eapply wp_mono; [apply wp_recover_tapes; [done|apply Hs1]| |by intros ? ? []]; cbn beta.
  intros report s2 [H2 Hok]. assert (grows s s2) as Hs2 by by eapply grows_trans.
  apply wp_bind, wp_desk_tick. cbn [dk_backend dk_tables dk_tick].
  match goal with |- wp _ _ _ ?st =>
    assert (grows s2 st) as H3 by (apply grows_frame; [apply H2|done..]) end.
  apply wp_bind. eapply wp_mono; [apply wp_update_run, H3| |by intros ? ? []]; cbn beta.
  intros r s4 [H4 ->]. assert (grows s2 s4) as Hs4 by (by eapply grows_trans; [|exact H4]).
  assert (grows s s4) by by eapply grows_trans.
  cbn [dk_tables]. destruct (get_rebuild_run run_id (dk_tables s2)) as [r4|];
    cbn [fmap option_fmap option_map]; [|by apply wp_raise].
  apply wp_ret. split; [done|]. cbn [finished rn_status]. case_bool_decide as Hf; [|done].
  intros _ bc Hbc. eapply recovered_tape_mono; [exact Hs4|]. by apply Hok.
Qed.
End recovering.

Section worker.
Context {S : Type} {BK : Backend S} {BL : BackendLaws S} {PD : Pydantic} {FT : FloatText} (w : readings).
Implicit Types (s : desk S) (b : S) (bc : string).

Notation nowhere := (touches (λ _, False)).
Lemma touches_rebuildable b b' bc : nowhere b b' → rebuildable b' bc ↔ rebuildable b bc.
Proof. intros Hb. by apply (quietly_rebuildable (Desk b empty_tables 0) (Desk b' empty_tables 0)). Qed.

(** What a call of the worker does: [planned] are the tapes it may recover. *)
Definition rebuilt s barcodes (r : result CatalogRebuildRunRecord) s' : Prop := ∃ planned,
  (∀ bc, bc ∈ planned → bc ∈ _normalize_barcodes barcodes ∧ rebuildable (dk_backend s) bc) ∧
  inv (dk_backend s) planned (dk_tables s) s' ∧
  ∀ run, r = Ok run → rn_status run = RR_COMPLETED → ∀ bc, bc ∈ _normalize_barcodes barcodes →
    rebuildable (dk_backend s) bc → recovered_tape (dk_backend s) planned (dk_tables s) (dk_tables s') bc.

Lemma rebuilt_nothing s barcodes r s' : nowhere (dk_backend s) (dk_backend s') →
  nt_files (dk_tables s') = nt_files (dk_tables s) →
  (∀ run, r = Ok run → _normalize_barcodes barcodes = []) → rebuilt s barcodes r s'.
Proof.
  intros Hd Hf Hr. exists []. split_and!; [by intros bc ?%not_elem_of_nil| |].
  - split; [done|]. intros id. left. by rewrite Hf.
  - intros run Hrun _ bc Hbc. rewrite (Hr run Hrun) in Hbc. by apply not_elem_of_nil in Hbc.
Qed.

Lemma wp_plan_execute barcodes triggered_by s s1 :
  nowhere (dk_backend s) (dk_backend s1) → dk_tables s1 = dk_tables s →
  wp (request ← liftR (make_rebuild_request (_normalize_barcodes barcodes) triggered_by false);
      plan ← plan_rebuild w request; execute_rebuild_run w (rp_run_id plan))
    (λ r s', rebuilt s barcodes (Ok r) s') (λ e s', rebuilt s barcodes (Raise e) s') s1.
Proof.
  intros H1 Ht1. apply wp_bind, wp_liftR; [|intros e _; by apply rebuilt_nothing; [|rewrite Ht1|]].
  intros request. unfold make_rebuild_request. case_bool_decide; [done|]. intros [= <-].
  apply wp_bind. eapply wp_mono; [apply wp_plan_rebuild| |]; cbn beta; last first.
  { intros e s2 [H2 Ht2]. apply rebuilt_nothing; [by etrans|by rewrite Ht2, Ht1|done]. }
  cbn [rb_barcodes rb_triggered_by rb_dry_run]. intros plan s2 (H2 & (_ & Hplan & _) & now & Ht2).
  set (planned := rp_barcodes_to_scan plan) in *.
  assert (∀ bc, bc ∈ planned ↔ bc ∈ _normalize_barcodes barcodes ∧ rebuildable (dk_backend s) bc) as Hp
    by (intros bc; rewrite Hplan; by rewrite touches_rebuildable).
  assert (inv (dk_backend s) planned (dk_tables s) s2) as Hi.
  { split; [by etrans|]. intros id. left. by rewrite Ht2, Ht1. }
  eapply wp_mono; [eapply (wp_execute w _ planned _ _ _ _ Hi)| |]; cbn beta.
  - rewrite Ht2. apply dget_dset_eq.
  - done.
  - cbn [planned_run rn_barcodes_planned]. intros run s3 [[H3 _] Hok]. exists planned.
    split; [intros bc; apply Hp|]. split; [done|]. intros run' [= <-] Hc bc Hbc Hr.
    apply Hok; [done|]. by apply Hp.
  - intros e s3 [H3 _]. exists planned. split; [intros bc; apply Hp|]. by split.
Qed.

Lemma wp_auto barcodes triggered_by dry_run_first s :
  wp (auto_plan_and_execute w barcodes triggered_by dry_run_first)
    (λ r s', rebuilt s barcodes (Ok r) s') (λ e s', rebuilt s barcodes (Raise e) s') s.
Proof.
  unfold auto_plan_and_execute. cbv zeta. case_bool_decide as Hn.
  { unfold _create_empty_run. do 2 apply wp_bind, wp_desk_tick. unfold on_tables, create_rebuild_run.
    apply wp_zoom, wp_bind, wp_modify, wp_ret. by apply rebuilt_nothing. }
  apply wp_bind. destruct dry_run_first; [|by apply wp_ret, wp_plan_execute].
  apply wp_bind, wp_liftR; [|intros e _; by apply rebuilt_nothing].
  intros request Hreq. unfold make_rebuild_request in Hreq. revert Hreq.
  case_bool_decide; [done|]. intros [= <-].
  apply wp_bind. eapply wp_mono; [apply wp_plan_rebuild| |]; cbn beta; last first.
  { intros e s2 [H2 Ht2]. apply rebuilt_nothing; [done|by rewrite Ht2|done]. }
  cbn [rb_dry_run]. intros plan s2 (H2 & _ & Ht2). apply wp_raise_if; intros _.
  - apply rebuilt_nothing; [done|by rewrite Ht2|done].
  - by apply wp_plan_execute.
Qed.
End worker.

Section lost.
Context {S : Type} {BK : Backend S} {BL : BackendLaws S} {PD : Pydantic} {FT : FloatText}.
Implicit Types (s : desk S) (b : S) (bc : string) (f : NasFileRecord).

Lemma normalize_one bc : strip bc = bc → bc ≠ "" → _normalize_barcodes [bc] = [bc].
Proof. intros Hs Hn. unfold _normalize_barcodes. simpl. rewrite Hs. by rewrite filter_cons_True. Qed.

(** A tape the lifecycle has documented is rebuildable, and its shard has one entry
    for the file. *)
Lemma recorded_rebuildable f bc tape_path policy_name s s' :
  recorded f bc tape_path policy_name s s' →
  (∃ x, shard_on (dk_backend s') bc = Ok (Some x)) → rebuildable (dk_backend s') bc.
Proof.
  intros (_ & _ & (ex & ds & _ & Hm & Hc) & _ & Hx & _) [x Hsh]. split; [done|].
  destruct (next_manifest_ok ex ds f bc tape_path policy_name) as [Hset Hsup].
  exists (next_manifest ex ds f bc tape_path policy_name), x. split_and!.
  - unfold manifest_on. rewrite Hm. by apply manifest_written.
  - rewrite Hm, Hc. by apply valid_manifest_written.
  - done.
  - by left.
Qed.

Lemma recorded_shard f bc tape_path policy_name s s' :
  (∀ x, shard_on (dk_backend s) bc = Ok (Some x) → settled x) →
  recorded f bc tape_path policy_name s s' → ∃ x ds,
  let e := shard_entry ds f tape_path (nf_dataset_id f) (pool_of f) in
  shard_on (dk_backend s') bc = Ok (Some x) ∧ sh_barcode x = bc ∧ e ∈ sh_files x ∧
  (∀ e', e' ∈ sh_files x → se_file_record_id e' = nf_id f → e' = e) ∧
  ∃ d, d ∈ sh_datasets x ∧ sd_dataset_id d = nf_dataset_id f ∧ sd_tape_set d = [bc].
Proof.
  intros Hset (_ & _ & _ & (ex & ds & at_ & Hold & Hsh) & _).
  exists (next_shard ex ds f bc tape_path (nf_dataset_id f) (pool_of f) at_), ds. cbv zeta. split_and!.
  - unfold shard_on. rewrite Hsh. apply document_written, next_shard_settled. intros x ->. by apply Hset.
  - done.
  - apply next_shard_files. by left.
  - intros e' [->|(x & _ & _ & Hne)]%next_shard_files Hid; [done|]. by rewrite Hid in Hne.
  - unfold next_shard. cbn [sh_datasets]. cbv zeta.
    match goal with |- context [(_ ++ [?d])%list] => exists d end. split; [|done].
    rewrite elem_of_sort_by. apply elem_of_app. right. by left.
Qed.
End lost.

(** C7: a rebuild that completes has recovered every tape it could.  Whatever the
    catalog has before and however the call of the worker ends, no document on a
    tape changes, and no record of a file is invented: a record is the one before,
    or says what the shard of a tape requested says whose manifest is valid and
    whose generation is committed.  If the run says completed, every such tape is
    recovered: its files are known and offline on tape, its paths indexed with the
    tape among their tapes, its datasets archived on it. *)
Theorem rebuild_recovers {S : Type} `{BL : BackendLaws S, PD : Pydantic, FT : FloatText} w barcodes triggered_by
    dry_run_first (s s' : desk S) r :
  auto_plan_and_execute w barcodes triggered_by dry_run_first s = (r, s') →
  (∀ bc q, is_file q → view (dk_backend s') bc q = view (dk_backend s) bc q) ∧
  ∃ planned,
    (∀ bc, bc ∈ planned → bc ∈ _normalize_barcodes barcodes ∧ rebuildable (dk_backend s) bc) ∧
    (∀ id, dget (nt_files (dk_tables s')) id = dget (nt_files (dk_tables s)) id ∨
       file_known (dk_backend s) planned (dk_tables s) id (dk_tables s')) ∧
    ∀ run, r = Ok run → rn_status run = RR_COMPLETED →
      ∀ bc, bc ∈ _normalize_barcodes barcodes → rebuildable (dk_backend s) bc →
      ∃ x, shard_on (dk_backend s) bc = Ok (Some x) ∧
        recovered (dk_backend s) planned (dk_tables s) bc x (dk_tables s').
Proof.
  intros Hr. pose proof (wp_run _ _ _ _ (wp_auto w barcodes triggered_by dry_run_first s) _ _ Hr) as Ho.
  assert (rebuilt s barcodes r s') as (planned & Hp & [Hd Hh] & Hok) by by destruct r.
  split; [intros bc q Hq; by apply Hd; [|intros []]|]. exists planned. split_and!; [done..|].
  intros run Hrun Hc bc Hbc Hb. destruct (Hok run Hrun Hc bc Hbc Hb) as (x & [_ Hx] & Hrec). by exists x.
Qed.

(** C3: a catalog that is lost is recovered from the tape.  Let a file be archived
    to a tape ([complete_file_archive] succeeds, on any store of tapes), and then all
    the tables be replaced by others that know no file.  If the worker rebuilds the
    catalog from this tape and its run says completed, the file is back: a record
    with its dataset, path, size and checksum, offline on this tape; its dataset
    archived on this tape; its path indexed there; and at its place on the tape the
    bytes that were verified. *)
Theorem lost_catalog_recovered {S : Type} `{BL : BackendLaws S, PD : Pydantic, FT : FloatText} w w' f bc tape_path
    policy_name (s s1 s2 : desk S) res t0 n triggered_by dry_run_first run :
  (∀ x, shard_on (dk_backend s) bc = Ok (Some x) → settled x) →
  is_file tape_path → ¬ metadata_path tape_path → strip bc = bc → bc ≠ "" →
  complete_file_archive w f bc tape_path policy_name s = (Ok res, s1) → al_success res = true →
  nt_files t0 = [] →
  auto_plan_and_execute w' [bc] triggered_by dry_run_first (Desk (dk_backend s1) t0 n) = (Ok run, s2) →
  rn_status run = RR_COMPLETED →
  (∃ g, dget (nt_files (dk_tables s2)) (nf_id f) = Some g ∧ nf_dataset_id g = nf_dataset_id f ∧
     nf_relative_path g = nf_relative_path f ∧ nf_size_bytes g = nf_size_bytes f ∧
     nf_status g = OFFLINE_ON_TAPE ∧ nf_tape_barcode g = Some bc ∧
     ∀ sum, py_or (nf_checksum_sha256 f) None = Some sum → nf_checksum_sha256 g = Some sum) ∧
  (∃ d, get_nas_dataset (nf_dataset_id f) (dk_tables s2) = Some d ∧ ds_status d = DS_ARCHIVED ∧
     bc ∈ ds_tape_set d) ∧
  (∃ p r, validate_logical_path (nf_relative_path f) = Ok p ∧
     dget (nt_mappings (dk_tables s2)) (p, pool_of f) = Some r ∧ pm_primary_barcode r = bc ∧
     bc ∈ pm_all_barcodes r) ∧
  ∃ c, view (dk_backend s2) bc tape_path = Some c ∧ verified f c.
Proof.
  intros Hset Hf Hmp Hstrip Hne Hrun Hok Ht0 Hrb Hc.
  pose proof (wp_run _ _ _ _ (wp_complete w f bc tape_path policy_name s) _ _ Hrun) as [Ho _].
  destruct (Ho Hok) as [Hrec _].
  destruct (recorded_shard _ _ _ _ _ _ Hset Hrec) as (x & ds & Hx & Hxb & He & Hu & d & Hd & Hdi & Hds).
  assert (rebuildable (dk_backend s1) bc) as Hb by (eapply recorded_rebuildable; [done|by exists x]).
  pose proof (wp_run _ _ _ _ (wp_auto w' [bc] triggered_by dry_run_first _) _ _ Hrb)
    as (planned & Hp & [Hd2 _] & Hall). cbn [dk_backend dk_tables] in Hp, Hd2, Hall.
  rewrite normalize_one in Hp, Hall by done.
  destruct (Hall run eq_refl Hc bc ltac:(by left) Hb) as (x' & [_ Hx'] & Hfiles & Hdatasets).
  assert (x' = x) as -> by congruence.
  assert (∀ bc' x', source (dk_backend s1) planned bc' x' → bc' = bc ∧ x' = x) as Honly.
  { intros bc' x2 [Hin Hx2]. destruct (Hp bc' Hin) as [->%list_elem_of_singleton _]. split; congruence. }
  destruct (Hfiles _ He) as ((g & Hg & (bc1 & e1 & (x1 & Hs1 & He1 & Hid1) & Hdesc) & Hhost) & Hmap).
  apply Honly in Hs1 as [-> ->]. rewrite (Hu _ He1 Hid1) in Hdesc.
  destruct Hdesc as (D1 & D2 & D3 & D4 & D5). split_and!.
  - exists g. split_and!; [done..| |].
    + unfold hosted in Hhost. rewrite Ht0 in Hhost. destruct Hhost as [Hn|(bc2 & e2 & (x2 & Hs2 & _) & Hh)].
      * by destruct Hn as (g0 & Hn & _).
      * by apply Honly in Hs2 as [-> _].
    + intros sum Hsum. cbn [shard_entry se_checksum] in D5. unfold or_text in D5. rewrite Hsum in D5.
      apply D5. revert Hsum. unfold py_or. destruct (nf_checksum_sha256 f) as [[|c v]|]; [done| |done].
      by intros [= <-].
  - rewrite <-Hdi. apply (Hdatasets d bc Hd). unfold entry_tapes. rewrite Hds. by left.
  - destruct Hmap as (p & Hvp & r & Hr & Hin & bc2 & x2 & e2 & Hs2 & _ & _ & _ & Hprim & _).
    apply Honly in Hs2 as [-> ->]. rewrite Hxb in Hprim, Hin. by exists p, r.
  - destruct Hrec as (Ht & (c & Hv & Hver) & _). exists c. split; [|done].
    rewrite (Hd2 bc tape_path) by (first [done|by intros []]). by rewrite Ht.
Qed.

(** the recovery from the tapes loaded asks the lost catalog which tapes there
    are.  On a catalog without cartridges [recover_from_loaded_tapes] reads no tape,
    whatever is on them: it stores a run that says completed, with no barcode
    planned and no file recovered, and leaves the datasets, files and index as they
    are. *)
Theorem loaded_tapes_unseen {S : Type} `{BK : Backend S, PD : Pydantic, FT : FloatText} w triggered_by (s : desk S) :
  ct_cartridges (nt_catalog (dk_tables s)) = [] →
  ∃ run s', recover_from_loaded_tapes w triggered_by s = (Ok run, s') ∧
    rn_status run = RR_COMPLETED ∧ rn_barcodes_planned run = [] ∧ rn_files_recovered run = 0 ∧
    dk_backend s' = dk_backend s ∧
    dk_tables s' = with_runs (dset (nt_runs (dk_tables s)) (rn_id run) run) (dk_tables s).
Proof.
  intros Hc. unfold recover_from_loaded_tapes, of_tables.
  assert (list_cartridges (nt_catalog (dk_tables s)) = []) as Hl
    by (unfold list_cartridges; by rewrite Hc).
  monad_unfold. rewrite Hl. eexists _, _. split; [reflexivity|by split_and!].
Qed.

#[local] Existing Instance strict_types.
#[local] Existing Instance no_floats.
#[local] Notation noon := (MkDatetime 2025 1 2 12 0 0 0).
#[local] Notation clock := (Readings (λ _, noon) (λ _, 0) (λ _, "id")).
#[local] Notation abc_sum := "ba7816bf8f01cfea414140de5dae2223b00361a396177a9cb410ff61f20015ad".
#[local] Notation sample_dataset :=
  (MkNasDataset "ds" (Some "p") "ds" None None None (Some CACHE_DRIVE) (Some "vg") [] [] 1 3
     DS_ARCHIVING 0 None None None).
#[local] Notation sample_file :=
  (MkNasFile "f1" "ds" (Some "p") "a" None 3 None (Some abc_sum) (Some "TAPE01L8") None FS_HYDRATING
     None None None).
#[local] Notation sample_desk :=
  (Desk (Station (Ltfs.with_tapes [("TAPE01L8", Ltfs.MockTapeContents "TAPE01L8" 9000 3
            [("/ds/a", Ltfs.MockFileRecord "/ds/a" 3 abc_sum (bytes_of "abc") 0)] true
            MountState.MOUNTED_RW)] Ltfs.mounted_ltfs) (λ n, Z.of_nat n) 0)
     (NasTables empty_catalog [("ds", DatasetRow sample_dataset None)] [("f1", sample_file)] [] [] []) 0).
#[local] Notation archived := (complete_file_archive clock sample_file "TAPE01L8" "/ds/a" "gold" sample_desk).
#[local] Notation lost := (Desk (dk_backend archived.2) empty_tables 0).
#[local] Notation rebuild := (auto_plan_and_execute clock ["TAPE01L8"] "operator" false lost).
#[local] Notation tape := "TAPE01L8".
(** A run that returns a value of which something is known. *)
Lemma ok_run {A B S} (g : A → B) (x : result A * S) y : g <$> x.1 = Ok y → ∃ a, x = (Ok a, x.2) ∧ g a = y.
Proof. destruct x as [[a|e] s]; intros H; [|discriminate H]. injection H as H. by exists a. Qed.
Lemma sample_archived : al_success <$> archived.1 = Ok true.
Proof. vm_compute. reflexivity. Qed.
Lemma sample_settled x : shard_on (dk_backend sample_desk) tape = Ok (Some x) → settled x.
Proof. intros Hx. vm_compute in Hx. discriminate Hx. Qed.
Lemma sample_rebuild : rn_status <$> rebuild.1 = Ok RR_COMPLETED.
Proof. vm_compute. reflexivity. Qed.
Lemma sample_rebuildable : rebuildable (dk_backend archived.2) tape.
Proof.
  destruct (ok_run _ _ _ sample_archived) as (res & Hres & Hok).
  pose proof (wp_run _ _ _ _ (wp_complete clock sample_file tape "/ds/a" "gold" sample_desk) _ _ Hres)
    as [H _]. destruct (H Hok) as [Hrec _].
  destruct (recorded_shard _ _ _ _ _ _ sample_settled Hrec) as (x & _ & Hx & _).
  eapply recorded_rebuildable; [exact Hrec|by exists x].
Qed.

Lemma rebuild_recovers_witness : ∃ planned x,
  shard_on (dk_backend archived.2) tape = Ok (Some x) ∧
  recovered (dk_backend archived.2) planned empty_tables tape x (dk_tables rebuild.2).
Proof.
  destruct (ok_run _ _ _ sample_rebuild) as (run & Hrun & Hc). pose proof sample_rebuildable as Hb.
  revert Hrun Hb. generalize rebuild.2, archived.2. intros s2 s1 Hrun Hb.
  destruct (rebuild_recovers clock [tape] "operator" false (Desk (dk_backend s1) empty_tables 0) _ _ Hrun)
    as (_ & planned & _ & _ & H).
  exists planned. cbn [dk_backend dk_tables] in H. by apply (H run eq_refl Hc tape); [left|].
Defined.

Lemma lost_catalog_recovered_witness : ∃ g, dget (nt_files (dk_tables rebuild.2)) "f1" = Some g ∧
  nf_relative_path g = "a" ∧ nf_size_bytes g = 3 ∧ nf_status g = OFFLINE_ON_TAPE ∧
  nf_tape_barcode g = Some tape.
Proof.
  destruct (ok_run _ _ _ sample_archived) as (res & Hres & Hok).
  destruct (ok_run _ _ _ sample_rebuild) as (run & Hrun & Hc).
  revert Hres Hrun. generalize rebuild.2, archived.2. intros s2 s1 Hres Hrun.
  pose proof (lost_catalog_recovered clock clock sample_file tape "/ds/a" "gold" sample_desk _ _ res
    empty_tables 0 "operator" false run sample_settled ltac:(reflexivity) ltac:(intros H; discriminate H)
    ltac:(reflexivity) ltac:(discriminate) Hres Hok eq_refl Hrun Hc)
    as [(g & Hg & _ & Hp & Hs & Hst & Ht & _) _].
  exists g. by split_and!.
Defined.

(** On the tables that were lost, with the tape there. *)
Lemma loaded_tapes_unseen_witness : rebuildable (dk_backend archived.2) tape ∧
  ∃ run s', recover_from_loaded_tapes clock "operator" lost = (Ok run, s') ∧
    rn_status run = RR_COMPLETED ∧ rn_files_recovered run = 0.
Proof.
  split; [exact sample_rebuildable|]. generalize archived.2. intros s1.
  destruct (loaded_tapes_unseen clock "operator" (Desk (dk_backend s1) empty_tables 0) eq_refl)
    as (run & s' & Hr & Hc & _ & Hf & _).
  exists run, s'. by split_and!.
Defined.
