(* ===== verification/Rbac.v ===== *)
(** Users, roles, tokens and the audit of who may do what:
    openblade/nas/rbac_service.py and the tables of
    openblade/catalog/repository.py behind it.

    Rows are values of the models of nas/types.py; a column of JSON text is the
    value of the text.  The readings of the clock and of the random source, the
    key derivation and the parsing of an instant are arguments. *)
From stdpp Require Import base list option strings pretty.
From Stdlib Require Import Ascii ZArith Lia.
From S2P Require Import Prelude Wp Domain Paths Bytes Catalog.
#[local] Open Scope string_scope.
#[local] Open Scope Z_scope.

(** * Data *)
Module RbacPermission.
Inductive rbac_permission : Set :=
| TAPE_READ | TAPE_WRITE | TAPE_FORMAT | TAPE_EJECT | NAS_READ | NAS_WRITE | NAS_ADMIN
| CATALOG_READ | CATALOG_REBUILD | USER_ADMIN | TOKEN_MANAGE | AUDIT_READ | SYSTEM_ADMIN.
Definition rbac_permission_value (x : rbac_permission) : string :=
  match x with
  | TAPE_READ => "tape:read" | TAPE_WRITE => "tape:write" | TAPE_FORMAT => "tape:format"
  | TAPE_EJECT => "tape:eject" | NAS_READ => "nas:read" | NAS_WRITE => "nas:write"
  | NAS_ADMIN => "nas:admin" | CATALOG_READ => "catalog:read" | CATALOG_REBUILD => "catalog:rebuild"
  | USER_ADMIN => "user:admin" | TOKEN_MANAGE => "token:manage" | AUDIT_READ => "audit:read"
  | SYSTEM_ADMIN => "system:admin"
  end.
Definition rbac_permission_members : list rbac_permission :=
  [TAPE_READ; TAPE_WRITE; TAPE_FORMAT; TAPE_EJECT; NAS_READ; NAS_WRITE; NAS_ADMIN;
   CATALOG_READ; CATALOG_REBUILD; USER_ADMIN; TOKEN_MANAGE; AUDIT_READ; SYSTEM_ADMIN].
End RbacPermission.
Notation permission := RbacPermission.rbac_permission.
Notation permission_value := RbacPermission.rbac_permission_value.
#[export] Instance rbac_permission_eq_dec : EqDecision permission.
Proof. solve_decision. Defined.

Record rbac_role := RbacRole {
  ro_id : string;
  ro_name : string;
  ro_description : string;
  ro_permissions : list permission;
  ro_created_at : string;
  ro_updated_at : string;
}.

Record rbac_user := RbacUser {
  us_id : string;
  us_username : string;
  us_hashed_password : string;
  us_role_id : string;
  us_email : string;
  us_full_name : string;
  us_is_active : bool;
  us_is_admin : bool;
  us_api_token_ids : list string;
  us_created_at : string;
  us_updated_at : string;
  us_last_login_at : option string;
}.

Record rbac_token := RbacApiToken {
  ap_id : string;
  ap_user_id : string;
  ap_name : string;
  ap_token_hash : string;
  ap_permissions : list permission;
  ap_expires_at : option string;
  ap_created_at : string;
  ap_last_used_at : option string;
  ap_revoked : bool;
}.

Record audit_event := RbacAuditEvent {
  ev_id : string;
  ev_event_type : string;
  ev_user_id : option string;
  ev_username : string;
  ev_resource : string;
  ev_action : string;
  ev_outcome : string;
  ev_details : dict string json;
  ev_created_at : string;
  ev_ip_address : option string;
}.

Record create_user_request := CreateUserRequest {
  cu_username : string;
  cu_password : string;
  cu_role_id : string;
  cu_email : string;
  cu_full_name : string;
  cu_is_admin : bool;
}.

Record create_token_request := CreateTokenRequest {
  kr_name : string;
  kr_permissions : list permission;
  kr_expires_at : option string;
}.

Record create_token_result := CreateTokenResult {
  kt_token_id : string;
  kt_raw_token : string;
  kt_token_record : rbac_token;
}.

(** What is shown of a user: no hash. *)
Record user_summary := UserSummary {
  sm_id : string;
  sm_username : string;
  sm_role_id : string;
  sm_email : string;
  sm_full_name : string;
  sm_is_active : bool;
  sm_is_admin : bool;
  sm_created_at : string;
  sm_last_login_at : option string;
}.
Definition summary_of (u : rbac_user) : user_summary :=
  UserSummary (us_id u) (us_username u) (us_role_id u) (us_email u) (us_full_name u) (us_is_active u)
    (us_is_admin u) (us_created_at u) (us_last_login_at u).

(** The tables, with the number of readings taken. *)
Record rbac := Rbac {
  rb_roles : dict string rbac_role;
  rb_users : dict string rbac_user;
  rb_tokens : dict string rbac_token;
  rb_events : dict string audit_event;
  rb_tick : nat;
}.
Definition with_roles d (s : rbac) : rbac := Rbac d (rb_users s) (rb_tokens s) (rb_events s) (rb_tick s).
Definition with_users d (s : rbac) : rbac := Rbac (rb_roles s) d (rb_tokens s) (rb_events s) (rb_tick s).
Definition with_api_tokens d (s : rbac) : rbac := Rbac (rb_roles s) (rb_users s) d (rb_events s) (rb_tick s).
Definition with_events d (s : rbac) : rbac := Rbac (rb_roles s) (rb_users s) (rb_tokens s) d (rb_tick s).

Definition tick : M rbac nat := λ s,
  (Ok (rb_tick s), Rbac (rb_roles s) (rb_users s) (rb_tokens s) (rb_events s) (S (rb_tick s))).

Definition IntegrityError : exn := OtherError "IntegrityError".
Definition MultipleResultsFound : exn := OtherError "MultipleResultsFound".

(** The readings: the text of the time, the identifiers and the secrets drawn,
    and the instant an expiry is compared with; the key derivation; and the
    instant a text stands for. *)
Class rbac_env := RbacEnv {
  now : nat → string;
  uuid : nat → string;
  secret : nat → string;
  clock : nat → Z;
  pbkdf2_hmac : string → string → string;
  parse_datetime : string → result Z;
}.

(** * The tables *)
Section rbac.
Context `{env : rbac_env}.

(** A name is unique among the other rows. *)
Definition taken {R} (name_of : R → string) (d : dict string R) (id name : string) : bool :=
  existsb (λ kv, bool_decide (name_of kv.2 = name) && bool_decide (kv.1 ≠ id)) d.

(** ** Roles *)
Definition get_role (role_id : string) (s : rbac) : option rbac_role := dget (rb_roles s) role_id.
Definition get_role_by_name (name : string) (s : rbac) : option rbac_role :=
  select_one (λ r, bool_decide (ro_name r = name)) (rb_roles s).
Definition list_roles (s : rbac) : list rbac_role :=
  sort_by (λ a b, String.leb (ro_name a) (ro_name b)) (dvalues (rb_roles s)).

Definition put_role (r : rbac_role) : M rbac unit :=
  s ← getS;
  raise_if (taken ro_name (rb_roles s) (ro_id r) (ro_name r)) IntegrityError;;
  modify (λ s, with_roles (dset (rb_roles s) (ro_id r) r) s).

(** Creates the row, or replaces it but for the time it was created. *)
Definition create_role (id name description : string) (permissions : list permission) : M rbac rbac_role :=
  n ← tick;
  s ← getS;
  let created := match get_role id s with
                 | Some r => if bool_decide (ro_created_at r = "") then now n else ro_created_at r
                 | None => now n
                 end in
  let r := RbacRole id name description permissions created (now n) in
  put_role r;; mret r.

Definition update_role (role_id name description : string) (permissions : list permission)
    : M rbac (option rbac_role) :=
  s ← getS;
  match get_role role_id s with
  | None => mret None
  | Some r =>
      n ← tick;
      let r := RbacRole role_id name description permissions (ro_created_at r) (now n) in
      put_role r;; mret (Some r)
  end.

Definition delete_role (role_id : string) : M rbac bool := λ s,
  (Ok (dmem (rb_roles s) role_id), with_roles (ddel (rb_roles s) role_id) s).

Definition operator_permissions : list permission :=
  [RbacPermission.TAPE_READ; RbacPermission.TAPE_WRITE; RbacPermission.TAPE_EJECT; RbacPermission.NAS_READ;
   RbacPermission.NAS_WRITE; RbacPermission.CATALOG_READ; RbacPermission.CATALOG_REBUILD;
   RbacPermission.TOKEN_MANAGE].
Definition readonly_permissions : list permission :=
  [RbacPermission.TAPE_READ; RbacPermission.NAS_READ; RbacPermission.CATALOG_READ; RbacPermission.AUDIT_READ].
Definition default_roles : list (string * string * list permission) :=
  [("admin", "Built-in administrator role", RbacPermission.rbac_permission_members);
   ("operator", "Built-in operator role", operator_permissions);
   ("readonly", "Built-in read-only role", readonly_permissions)].

Definition seed_default_roles : M rbac unit :=
  forM default_roles (λ '(name, description, permissions),
    s ← getS;
    match get_role_by_name name s with
    | Some _ => mret tt
    | None => create_role name name description permissions;; mret tt
    end).

(** ** Users *)
Definition get_user (user_id : string) (s : rbac) : option rbac_user := dget (rb_users s) user_id.
Definition get_user_by_username (username : string) (s : rbac) : option rbac_user :=
  select_one (λ u, bool_decide (us_username u = username)) (rb_users s).
Definition list_user_rows (active_only : bool) (s : rbac) : list rbac_user :=
  sort_by (λ a b, String.leb (us_username a) (us_username b))
    (select (λ u, negb active_only || us_is_active u) (rb_users s)).

Definition put_user (u : rbac_user) : M rbac unit :=
  s ← getS;
  raise_if (taken us_username (rb_users s) (us_id u) (us_username u)) IntegrityError;;
  modify (λ s, with_users (dset (rb_users s) (us_id u) u) s).

Definition create_user_row (username hashed role_id email full_name : string) (is_admin : bool)
    : M rbac rbac_user :=
  n ← tick;
  let u := RbacUser (uuid n) username hashed role_id email full_name true is_admin [] (now n) (now n) None in
  put_user u;; mret u.

(** [update_user] of the tokens alone. *)
Definition update_user_tokens (user_id : string) (ids : list string) : M rbac (option rbac_user) :=
  s ← getS;
  match get_user user_id s with
  | None => mret None
  | Some u =>
      n ← tick;
      let u := RbacUser user_id (us_username u) (us_hashed_password u) (us_role_id u) (us_email u)
        (us_full_name u) (us_is_active u) (us_is_admin u) ids (us_created_at u) (now n)
        (us_last_login_at u) in
      put_user u;; mret (Some u)
  end.

Definition deactivate_user_row (user_id : string) : M rbac bool :=
  s ← getS;
  match get_user user_id s with
  | None => mret false
  | Some u =>
      n ← tick;
      modify (with_users (dset (rb_users s) user_id
        (RbacUser (us_id u) (us_username u) (us_hashed_password u) (us_role_id u) (us_email u)
           (us_full_name u) false (us_is_admin u) (us_api_token_ids u) (us_created_at u) (now n)
           (us_last_login_at u))));;
      mret true
  end.

(** ** Tokens *)
Definition get_api_token (token_id : string) (s : rbac) : option rbac_token := dget (rb_tokens s) token_id.

(** [scalar_one_or_none]: hashes are not unique by themselves. *)
Definition get_api_token_by_hash (token_hash : string) (s : rbac) : result (option rbac_token) :=
  match select (λ t, bool_decide (ap_token_hash t = token_hash)) (rb_tokens s) with
  | [] => Ok None
  | [t] => Ok (Some t)
  | _ => Raise MultipleResultsFound
  end.

(** Newest first, then by name. *)
Definition list_api_tokens (user_id : string) (s : rbac) : list rbac_token :=
  sort_by (λ a b, if bool_decide (ap_created_at a = ap_created_at b) then String.leb (ap_name a) (ap_name b)
                  else String.leb (ap_created_at b) (ap_created_at a))
    (select (λ t, bool_decide (ap_user_id t = user_id)) (rb_tokens s)).

Definition create_api_token (user_id name token_hash : string) (permissions : list permission)
    (expires_at : option string) : M rbac rbac_token :=
  n ← tick;
  let t := RbacApiToken (uuid n) user_id name token_hash permissions expires_at (now n) None false in
  modify (λ s, with_api_tokens (dset (rb_tokens s) (uuid n) t) s);;
  mret t.

Definition set_revoked (t : rbac_token) : rbac_token :=
  RbacApiToken (ap_id t) (ap_user_id t) (ap_name t) (ap_token_hash t) (ap_permissions t) (ap_expires_at t)
    (ap_created_at t) (ap_last_used_at t) true.
Definition set_last_used (ts : string) (t : rbac_token) : rbac_token :=
  RbacApiToken (ap_id t) (ap_user_id t) (ap_name t) (ap_token_hash t) (ap_permissions t) (ap_expires_at t)
    (ap_created_at t) (Some ts) (ap_revoked t).

Definition change_token (token_id : string) (f : rbac_token → rbac_token) : M rbac bool :=
  s ← getS;
  match get_api_token token_id s with
  | None => mret false
  | Some t => modify (with_api_tokens (dset (rb_tokens s) token_id (f t)));; mret true
  end.
Definition revoke_api_token (token_id : string) : M rbac bool := change_token token_id set_revoked.
Definition update_token_last_used (token_id ts : string) : M rbac unit :=
  _ ← change_token token_id (set_last_used ts); mret tt.

(** ** The audit *)
Definition create_audit_event (event_type : string) (user_id : option string)
    (username resource action outcome : string) (details : dict string json) (ip : option string)
    : M rbac unit :=
  n ← tick;
  let e := RbacAuditEvent (uuid n) event_type user_id username resource action outcome details (now n) ip in
  modify (λ s, with_events (dset (rb_events s) (uuid n) e) s).

Definition list_audit_events (limit : nat) (user_id event_type : option string) (s : rbac) : list audit_event :=
  take limit (sort_by (λ a b, String.leb (ev_created_at b) (ev_created_at a))
    (select (λ e, (match user_id with Some u => bool_decide (ev_user_id e = Some u) | None => true end) &&
                  (match event_type with Some t => bool_decide (ev_event_type e = t) | None => true end))
       (rb_events s))).

(** * The service *)
Definition _SENSITIVE_DETAIL_KEYS : list string := ["password"; "token"; "raw_token"; "hashed_password"].

Fixpoint _sanitize_details (value : json) : json :=
  match value with
  | JObj d =>
      JObj ((fix go (d : list (string * json)) : list (string * json) :=
               match d with
               | [] => []
               | (key, item) :: d =>
                   if bool_decide (key ∈ _SENSITIVE_DETAIL_KEYS) then go d
                   else (key, _sanitize_details item) :: go d
               end) d)
  | JArr l => JArr (map _sanitize_details l)
  | v => v
  end.

Definition sanitized (details : dict string json) : dict string json :=
  match _sanitize_details (JObj details) with JObj d => d | _ => [] end.

Definition emit_audit_event (event_type : string) (user_id : option string)
    (username resource action outcome : string) (details : dict string json) (ip : option string)
    : M rbac unit :=
  create_audit_event event_type user_id username resource action outcome (sanitized details) ip.

Definition grants (role_id : string) (p : permission) (s : rbac) : bool :=
  match get_role role_id s with Some r => bool_decide (p ∈ ro_permissions r) | None => false end.

Definition check_permission (user_id : string) (p : permission) (s : rbac) : bool :=
  match get_user user_id s with
  | None => false
  | Some u => us_is_active u && (us_is_admin u || grants (us_role_id u) p s)
  end.

(** The actor of an event: the user, or what was given. *)
Definition actor_id (user_id : string) (s : rbac) : option string :=
  Some (match get_user user_id s with Some u => us_id u | None => user_id end).
Definition actor_name (user_id : string) (s : rbac) : string :=
  match get_user user_id s with Some u => us_username u | None => "" end.

Definition require_permission (user_id : string) (p : permission) : M rbac unit :=
  s ← getS;
  if check_permission user_id p s then mret tt
  else
    emit_audit_event "permission_denied" (actor_id user_id s) (actor_name user_id s) "rbac"
      (permission_value p) "denied" [("permission", JStr (permission_value p))] None;;
    raise PermissionError.

Definition _is_expired (at_ : Z) (expires_at : option string) : result bool :=
  match expires_at with
  | None => Ok false
  | Some text => expires ← parse_datetime text; Ok (bool_decide (expires ≤ at_))
  end.

Definition token_hash_of (raw_token : string) : string := sha256_hex (bytes_of raw_token).

Definition authenticate_by_token (raw_token : string) : M rbac (option rbac_user) :=
  s ← getS;
  found ← liftR (get_api_token_by_hash (token_hash_of raw_token) s);
  match found with
  | None => mret None
  | Some t =>
      if ap_revoked t then mret None
      else
        n ← tick;
        expired ← liftR (_is_expired (clock n) (ap_expires_at t));
        if expired : bool then mret None
        else
          match get_user (ap_user_id t) s with
          | None => mret None
          | Some u =>
              if us_is_active u then update_token_last_used (ap_id t) (now n);; mret (Some u) else mret None
          end
  end.

Definition create_user (rq : create_user_request) : M rbac user_summary :=
  s ← getS;
  raise_if (negb (is_some (get_role (cu_role_id rq) s))) ValueError;;
  n ← tick;
  let salt := secret n in
  let hashed := pbkdf2_hmac (cu_password rq) salt in
  u ← create_user_row (cu_username rq) ("pbkdf2$260000$" ++ salt ++ "$" ++ hashed) (cu_role_id rq)
        (cu_email rq) (cu_full_name rq) (cu_is_admin rq);
  let summary := summary_of u in
  emit_audit_event "user_created" (Some (sm_id summary)) (sm_username summary) "rbac:user" "create" "success"
    [("role_id", JStr (sm_role_id summary)); ("email", JStr (sm_email summary));
     ("full_name", JStr (sm_full_name summary))] None;;
  mret summary.

Definition opt_str (o : option string) : json := match o with Some s => JStr s | None => JNull end.

Definition create_token (user_id : string) (rq : create_token_request) : M rbac create_token_result :=
  s ← getS;
  match get_user user_id s with
  | None => raise ValueError
  | Some u =>
      n ← tick;
      let raw_token := secret n in
      t ← create_api_token user_id (kr_name rq) (token_hash_of raw_token) (kr_permissions rq) (kr_expires_at rq);
      when (bool_decide (ap_id t ∉ us_api_token_ids u))
        (_ ← update_user_tokens (us_id u) (us_api_token_ids u ++ [ap_id t])%list; mret tt);;
      emit_audit_event "token_created" (Some (us_id u)) (us_username u) "rbac:token" "create" "success"
        [("token_id", JStr (ap_id t)); ("name", JStr (ap_name t));
         ("permissions", JArr ((λ p, JStr (permission_value p)) <$> ap_permissions t));
         ("expires_at", opt_str (ap_expires_at t))] None;;
      mret (CreateTokenResult (ap_id t) raw_token t)
  end.

Definition revoke_token (token_id revoked_by_user_id : string) : M rbac bool :=
  s ← getS;
  let emit outcome details :=
    emit_audit_event "token_revoked" (actor_id revoked_by_user_id s) (actor_name revoked_by_user_id s)
      "rbac:token" "revoke" outcome details None in
  match get_api_token token_id s with
  | None => emit "not_found" [("token_id", JStr token_id)];; mret false
  | Some t =>
      revoked ← revoke_api_token token_id;
      emit (if revoked : bool then "success" else "failed")
        [("token_id", JStr token_id); ("target_user_id", JStr (ap_user_id t))];;
      mret revoked
  end.

Definition list_users (active_only : bool) (s : rbac) : list user_summary :=
  summary_of <$> list_user_rows active_only s.
Definition get_user_summary (user_id : string) (s : rbac) : option user_summary :=
  summary_of <$> get_user user_id s.

Definition deactivate_user (user_id deactivated_by : string) : M rbac bool :=
  s ← getS;
  deactivated ← deactivate_user_row user_id;
  emit_audit_event "user_deactivated" (actor_id deactivated_by s) (actor_name deactivated_by s) "rbac:user"
    "deactivate" (if deactivated : bool then "success" else "not_found")
    [("target_user_id", JStr user_id)] None;;
  mret deactivated.

(** The tables with the built-in roles in place, as every service finds them. *)
Definition seeded (s : rbac) : rbac := (seed_default_roles s).2.

(** A place in a value, and what is there. *)
Inductive json_step := Key (k : string) | Index (i : nat).
Fixpoint at_path (j : json) (path : list json_step) : option json :=
  match path with
  | [] => Some j
  | Key k :: path => match j with JObj d => x ← dget d k; at_path x path | _ => None end
  | Index i :: path => match j with JArr l => x ← l !! i; at_path x path | _ => None end
  end.

(** The keys whose values are secrets. *)
Definition secret_key (k : string) : Prop := k = "password" ∨ k = "token" ∨ k = "raw_token" ∨ k = "hashed_password".
#[export] Instance secret_key_dec k : Decision (secret_key k).
Proof. unfold secret_key. apply _. Defined.
Definition secret_step (x : json_step) : Prop := match x with Key k => secret_key k | Index _ => False end.
#[export] Instance secret_step_dec x : Decision (secret_step x).
Proof. destruct x; simpl; apply _. Defined.

(** [w] shows [v] itself: the same scalar, an array of the same length, an object
    with the same keys but those of secrets. *)
Definition shows (v w : json) : Prop :=
  match v, w with
  | JObj d, JObj d' => d'.*1 = filter (λ k, ¬ secret_key k) d.*1
  | JArr l, JArr l' => length l' = length l
  | JObj _, _ | JArr _, _ => False
  | _, _ => w = v
  end.

(** * Invariant *)

(** Rows of users and tokens are filed under their identifier, which was drawn
    at an earlier reading. *)
Definition drawn (s : rbac) (k : string) : Prop := ∃ m, (m < rb_tick s)%nat ∧ k = uuid m.
Definition rbac_wf (s : rbac) : Prop :=
  (∀ k u, get_user k s = Some u → us_id u = k ∧ drawn s k) ∧
  (∀ k t, get_api_token k s = Some t → ap_id t = k ∧ drawn s k) ∧ dict_wf (rb_users s).

(** Rows stay; an inactive user stays so, and so does a revoked token, whose
    hash does not change either. *)
Definition outlives (s s' : rbac) : Prop :=
  (∀ k u, get_user k s = Some u → ∃ u', get_user k s' = Some u' ∧
     (us_is_active u = false → us_is_active u' = false)) ∧
  (∀ k t, get_api_token k s = Some t → ∃ t', get_api_token k s' = Some t' ∧
     ap_token_hash t' = ap_token_hash t ∧ (ap_revoked t = true → ap_revoked t' = true)).
Definition evolves (s s' : rbac) : Prop := rbac_wf s → rbac_wf s' ∧ outlives s s'.

(** What a part of a program leaves alone: from the reading [n0] on, rows outside
    the given sets keep their value. *)
Definition frame (n0 : nat) (Pr Pu Pt : string → Prop) (s s' : rbac) : Prop :=
  (n0 ≤ rb_tick s)%nat →
  (n0 ≤ rb_tick s')%nat ∧ (∀ k, get_role k s' = get_role k s ∨ Pr k) ∧
  (∀ k, get_user k s' = get_user k s ∨ Pu k) ∧ (∀ k, get_api_token k s' = get_api_token k s ∨ Pt k).
End rbac.

(** * Lemmas *)
Section lemmas.
Context `{env : rbac_env} `{uuid_inj : !Inj (=) (=) uuid}.

#[export] Instance outlives_preorder : PreOrder outlives.
Proof using Type.
  split.
  - intros s. split; eauto.
  - intros s1 s2 s3 [Hu1 Ht1] [Hu2 Ht2]. split.
    + intros k u (u2 & Hk2 & H2)%Hu1. destruct (Hu2 _ _ Hk2) as (u3 & ? & ?). naive_solver.
    + intros k t (t2 & Hk2 & E2 & H2)%Ht1. destruct (Ht2 _ _ Hk2) as (t3 & ? & ? & ?).
      exists t3. split; [done|]. split; [congruence | auto].
Qed.
#[export] Instance evolves_preorder : PreOrder evolves.
Proof using Type.
  split; [by intros s|]. intros s1 s2 s3 H12 H23 H1. destruct (H12 H1) as [H2 ?], (H23 H2) as [? ?].
  split; [done | by etrans].
Qed.
#[export] Instance frame_preorder n0 Pr Pu Pt : PreOrder (frame n0 Pr Pu Pt).
Proof using Type.
  split; [intros s Hn; auto 6|]. intros s1 s2 s3 H12 H23 H1.
  destruct (H12 H1) as (H2 & Hr & Hu & Ht), (H23 H2) as (H3 & Hr' & Hu' & Ht').
  split_and!; [done| | |]; intros k; [destruct (Hr k), (Hr' k) | destruct (Hu k), (Hu' k) |
    destruct (Ht k), (Ht' k)]; auto; left; congruence.
Qed.

Lemma drawn_tick s s' k : (rb_tick s ≤ rb_tick s')%nat → drawn s k → drawn s' k.
Proof using Type. intros ? (m & ? & ->). exists m. split; [lia|done]. Qed.

(** ** One row written *)
Lemma evolves_tick : preserves evolves tick.
Proof using Type.
  intros s (Hu & Ht & Hd). split; [|split; eauto].
  split_and!; [intros k u Hk%Hu|intros k t Hk%Ht|done]; (split; [apply Hk|]);
    (eapply drawn_tick; [|apply Hk]); simpl; lia.
Qed.

Lemma evolves_user s k u' :
  us_id u' = k → drawn s k →
  (∀ u, get_user k s = Some u → us_is_active u = false → us_is_active u' = false) →
  evolves s (with_users (dset (rb_users s) k u') s).
Proof using Type.
  intros Hid Hk Hact (Hu & Ht & Hd). unfold rbac_wf, outlives, drawn, get_user, get_api_token in *. simpl.
  split; split_and?; eauto using dict_wf_dset; intros k' u0; rewrite dget_dset; case_decide; subst; [|eauto..].
  by intros [= <-].
Qed.

Lemma evolves_token s k t' :
  ap_id t' = k → drawn s k →
  (∀ t, get_api_token k s = Some t → ap_token_hash t' = ap_token_hash t ∧
     (ap_revoked t = true → ap_revoked t' = true)) →
  evolves s (with_api_tokens (dset (rb_tokens s) k t') s).
Proof using Type.
  intros Hid Hk Hact (Hu & Ht & Hd). unfold rbac_wf, outlives, drawn, get_user, get_api_token in *. simpl.
  split; split_and?; eauto using dict_wf_dset; intros k' t0; rewrite dget_dset; case_decide; subst; [|eauto..].
  by intros [= <-].
Qed.

(** An identifier not drawn yet names no row. *)
Lemma fresh_user s m : rbac_wf s → (rb_tick s ≤ m)%nat → get_user (uuid m) s = None.
Proof.
  intros (Hu & _) Hm. destruct (get_user (uuid m) s) as [u|] eqn:Hg; [|done].
  apply Hu in Hg as (_ & m' & ? & ->%(inj uuid)). lia.
Qed.
Lemma fresh_token s m : rbac_wf s → (rb_tick s ≤ m)%nat → get_api_token (uuid m) s = None.
Proof.
  intros (_ & Ht & _) Hm. destruct (get_api_token (uuid m) s) as [t|] eqn:Hg; [|done].
  apply Ht in Hg as (_ & m' & ? & ->%(inj uuid)). lia.
Qed.

Lemma evolves_put_user s u' :
  drawn s (us_id u') →
  (∀ u, get_user (us_id u') s = Some u → us_is_active u = false → us_is_active u' = false) →
  evolves s (put_user u' s).2.
Proof using Type.
  intros Hd Ha. unfold put_user. msimp.
  destruct (taken _ _ _ _); [reflexivity|]. by apply evolves_user.
Qed.

Lemma evolves_create_user_row a b c d e f : preserves evolves (create_user_row a b c d e f).
Proof.
  intros s Hwf. unfold create_user_row. msimp.
  match goal with |- context [put_user ?u ?s1] => set (u' := u); set (s1' := s1) end.
  assert (evolves s s1') as He by apply (evolves_tick s).
  assert (evolves s1' (put_user u' s1').2) as Hp.
  { apply evolves_put_user; [exists (rb_tick s); subst s1' u'; simpl; split; [lia|done]|].
    subst u' s1'. cbn [us_id]. intros u1 Hu. exfalso. change (get_user (uuid (rb_tick s)) s = Some u1) in Hu.
    by rewrite (fresh_user s _ Hwf (le_n _)) in Hu. }
  apply (transitivity (R := evolves)) with s1'; [done| |done].
  intros H1. specialize (Hp H1). destruct (put_user u' s1') as [[[]|] s2]; apply Hp.
Qed.

Lemma evolves_update_user_tokens id ids : preserves evolves (update_user_tokens id ids).
Proof using Type.
  intros s Hwf. unfold update_user_tokens. msimp. destruct (get_user id s) as [u|] eqn:Hg; [|split; [done|reflexivity]].
  destruct (proj1 Hwf _ _ Hg) as [Hid Hd].
  match goal with |- context [put_user ?u ?s1] => set (u' := u); set (s1' := s1) end.
  assert (evolves s1' (put_user u' s1').2) as Hp.
  { apply evolves_put_user; [by apply (drawn_tick s); [simpl; lia|] |].
    intros u0 Hu0. cbn [us_id u'] in Hu0. change (get_user id s = Some u0) in Hu0. by simplify_eq. }
  apply (transitivity (R := evolves)) with s1'; [apply (evolves_tick s)| |done].
  intros H1. specialize (Hp H1). destruct (put_user u' s1') as [[[]|] s2]; apply Hp.
Qed.

Lemma evolves_deactivate_user_row id : preserves evolves (deactivate_user_row id).
Proof using Type.
  intros s Hwf. unfold deactivate_user_row. msimp.
  destruct (get_user id s) as [u|] eqn:Hg; [|split; [done|reflexivity]].
  destruct (proj1 Hwf _ _ Hg) as [Hid Hd]. cbn [snd].
  apply (transitivity (R := evolves)) with (tick s).2; [apply (evolves_tick s)| |done].
  apply (evolves_user (tick s).2); [done|apply (drawn_tick s); [simpl; lia|done]|done].
Qed.

Lemma evolves_create_api_token a b c d e : preserves evolves (create_api_token a b c d e).
Proof.
  intros s Hwf. unfold create_api_token. msimp.
  apply (transitivity (R := evolves)) with (tick s).2; [apply (evolves_tick s)| |done].
  apply (evolves_token (tick s).2); [done|exists (rb_tick s); simpl; split; [lia|done]|].
  intros t Ht. exfalso. change (get_api_token (uuid (rb_tick s)) s = Some t) in Ht.
  by rewrite fresh_token in Ht.
Qed.

Lemma evolves_change_token id f :
  (∀ t, ap_id (f t) = ap_id t ∧ ap_token_hash (f t) = ap_token_hash t ∧
        (ap_revoked t = true → ap_revoked (f t) = true)) →
  preserves evolves (change_token id f).
Proof using Type.
  intros Hf s Hwf. unfold change_token. msimp.
  destruct (get_api_token id s) as [t|] eqn:Hg; [|split; [done|reflexivity]]. cbn [snd].
  destruct (proj1 (proj2 Hwf) _ _ Hg) as [Hid Hd]. apply evolves_token; [|done| |done].
  - by rewrite (proj1 (Hf t)).
  - intros t0 Ht0. assert (t0 = t) as -> by congruence. apply Hf.
Qed.

Lemma evolves_audit a b c d e f g h : preserves evolves (create_audit_event a b c d e f g h).
Proof using Type. intros s. apply (evolves_tick s). Qed.

Lemma evolves_put_role r : preserves evolves (put_role r).
Proof using Type. intros s Hwf. unfold put_role. msimp.
  by destruct (taken _ _ _ _); (split; [|split; eauto]). Qed.

(** ** Frames *)
Section frames.
Context (n0 : nat) (Pr Pu Pt : string → Prop).
Notation R := (frame n0 Pr Pu Pt).

Lemma frame_intro s s' : ((n0 ≤ rb_tick s)%nat → R s s') → R s s'.
Proof using Type. intros H Hn. by apply H. Qed.
Lemma frame_tick : preserves R tick.
Proof using Type. intros s Hn. simpl. split_and!; [lia|auto..]. Qed.
Lemma frame_audit a b c d e f g h : preserves R (create_audit_event a b c d e f g h).
Proof using Type. intros s Hn. simpl. split_and!; [lia|auto..]. Qed.
Lemma frame_put_role r : Pr (ro_id r) → preserves R (put_role r).
Proof using Type.
  intros Hr s Hn. unfold put_role. msimp. destruct (taken _ _ _ _); cbn [snd]; [auto|].
  split_and!; [done| |auto..]. intros k. unfold get_role. simpl. rewrite dget_dset. case_decide; subst; auto.
Qed.
Lemma frame_put_user u : Pu (us_id u) → preserves R (put_user u).
Proof using Type.
  intros Hr s Hn. unfold put_user. msimp. destruct (taken _ _ _ _); cbn [snd]; [auto|].
  split_and!; [done|auto| |auto]. intros k. unfold get_user. simpl. rewrite dget_dset. case_decide; subst; auto.
Qed.
#[local] Hint Resolve frame_tick frame_put_user : preserves.
Lemma frame_modify_users k u s : Pu k → R s (with_users (dset (rb_users s) k u) s).
Proof using Type.
  intros Hk Hn. split_and!; [done|auto| |auto]. intros k'. unfold get_user. simpl. rewrite dget_dset.
  case_decide; subst; auto.
Qed.
Lemma frame_modify_tokens k t s : Pt k → R s (with_api_tokens (dset (rb_tokens s) k t) s).
Proof using Type.
  intros Hk Hn. split_and!; [done|auto|auto|]. intros k'. unfold get_api_token. simpl. rewrite dget_dset.
  case_decide; subst; auto.
Qed.
Lemma frame_create_user_row a b c d e f :
  (∀ m, (n0 ≤ m)%nat → Pu (uuid m)) → preserves R (create_user_row a b c d e f).
Proof using Type.
  intros HP s. apply frame_intro. intros Hn. unfold create_user_row. msimp.
  match goal with |- context [put_user ?u ?s1] => pose proof (frame_put_user u (HP _ Hn) s1) as H end.
  etrans; [apply (frame_tick s)|]. by destruct (put_user _ _) as [[[]|] s2].
Qed.
Lemma frame_update_user_tokens id ids : Pu id → preserves R (update_user_tokens id ids).
Proof using Type.
  intros HP. unfold update_user_tokens. solve_preserves.
Qed.
Lemma frame_deactivate_user_row id : Pu id → preserves R (deactivate_user_row id).
Proof using Type.
  intros HP s. unfold deactivate_user_row. msimp. destruct (get_user id s) as [u|]; [|reflexivity].
  etrans; [apply (frame_tick s)|]. by apply (frame_modify_users _ _ (tick s).2).
Qed.
Lemma frame_create_api_token a b c d e :
  (∀ m, (n0 ≤ m)%nat → Pt (uuid m)) → preserves R (create_api_token a b c d e).
Proof using Type.
  intros HP s. apply frame_intro. intros Hn. unfold create_api_token. msimp.
  etrans; [apply (frame_tick s)|]. apply (frame_modify_tokens _ _ (tick s).2). auto.
Qed.
Lemma frame_change_token id f : Pt id → preserves R (change_token id f).
Proof using Type.
  intros HP s. unfold change_token. msimp. destruct (get_api_token id s); [|reflexivity].
  by apply frame_modify_tokens.
Qed.
End frames.
End lemmas.
#[export] Hint Resolve evolves_tick evolves_create_user_row evolves_update_user_tokens
  evolves_deactivate_user_row evolves_create_api_token evolves_audit evolves_put_role
  frame_tick frame_audit frame_put_role frame_put_user frame_create_user_row frame_update_user_tokens
  frame_deactivate_user_row frame_create_api_token frame_change_token : preserves.

(** ** The service *)
Section service.
Context `{env : rbac_env} `{uuid_inj : !Inj (=) (=) uuid}.

Lemma evolves_create_role a b c d : preserves evolves (create_role a b c d).
Proof using Type. unfold create_role. solve_preserves. Qed.
Lemma evolves_update_role a b c d : preserves evolves (update_role a b c d).
Proof using Type. unfold update_role. solve_preserves. Qed.
#[local] Hint Resolve evolves_create_role evolves_update_role : preserves.
Lemma evolves_seed : preserves evolves seed_default_roles.
Proof using Type. unfold seed_default_roles. solve_preserves. Qed.
Lemma evolves_emit a b c d e f g h : preserves evolves (emit_audit_event a b c d e f g h).
Proof using Type. apply evolves_audit. Qed.
#[local] Hint Resolve evolves_seed evolves_emit : preserves.
Lemma evolves_require_permission u p : preserves evolves (require_permission u p).
Proof using Type. unfold require_permission. solve_preserves. Qed.
Lemma evolves_revoke_api_token id : preserves evolves (revoke_api_token id).
Proof using Type. apply evolves_change_token. by intros t. Qed.
Lemma evolves_last_used id ts : preserves evolves (update_token_last_used id ts).
Proof using Type.
  unfold update_token_last_used. apply preserves_bind; [apply _| |solve_preserves].
  apply evolves_change_token. by intros t.
Qed.
#[local] Hint Resolve evolves_revoke_api_token evolves_last_used : preserves.
Lemma evolves_authenticate raw : preserves evolves (authenticate_by_token raw).
Proof using Type. unfold authenticate_by_token. solve_preserves. Qed.
Lemma evolves_create_user rq : preserves evolves (create_user rq).
Proof. unfold create_user. solve_preserves. Qed.
Lemma evolves_create_token id rq : preserves evolves (create_token id rq).
Proof. unfold create_token. solve_preserves. Qed.
Lemma evolves_revoke_token id u : preserves evolves (revoke_token id u).
Proof using Type. unfold revoke_token. solve_preserves. Qed.
Lemma evolves_deactivate_user id u : preserves evolves (deactivate_user id u).
Proof using Type. unfold deactivate_user. solve_preserves. Qed.

(** ** Seeding *)
(** The same but for the roles. *)
Definition same_rows (s s' : rbac) : Prop :=
  rb_users s' = rb_users s ∧ rb_tokens s' = rb_tokens s ∧ rb_events s' = rb_events s ∧
  (rb_tick s ≤ rb_tick s')%nat.

Lemma seed_role_spec name description permissions s0 s :
  same_rows s0 s →
  wp (s ← getS;
      match get_role_by_name name s with
      | Some _ => mret tt
      | None => create_role name name description permissions;; mret tt
      end) (λ _, same_rows s0) (λ _ _, False) s.
Proof using Type.
  intros (Hu & Ht & He & Hn). do 2 wp_step. destruct (get_role_by_name name s) eqn:Hg; [by wp_step|].
  unfold create_role, put_role. apply wp_bind, wp_bind. apply wp_unfold. cbn [tick].
  apply wp_bind, wp_getS. apply wp_bind, wp_bind, wp_getS. apply wp_bind, wp_raise_if.
  - intros Htk. unfold taken in Htk. apply existsb_exists in Htk as ([k r] & Hin & Hk).
    cbn [fst snd ro_id ro_name rb_roles] in *. exfalso.
    apply andb_prop in Hk as [Hname%bool_decide_eq_true _].
    apply list_elem_of_In in Hin.
    unfold get_role_by_name, select_one, select in Hg. apply head_None in Hg.
    assert (r ∈ filter (λ r, bool_decide (ro_name r = name)) (dvalues (rb_roles s))) as Hr.
    { apply list_elem_of_filter. split; [by apply bool_decide_spec|].
      apply list_elem_of_fmap. by exists (k, r). }
    rewrite Hg in Hr. by apply elem_of_nil in Hr.
  - intros _. apply wp_modify. repeat apply wp_ret. repeat split; simpl; auto; lia.
Qed.

(** The row of a built-in role, and whether every name of one is carried. *)
Definition built_in (k : string) (s : rbac) : Prop :=
  ∃ d ps r, (k, d, ps) ∈ default_roles ∧ get_role k s = Some r ∧
    ro_id r = k ∧ ro_name r = k ∧ ro_description r = d ∧ ro_permissions r = ps.
Definition all_named (s : rbac) : Prop := ∀ x, x ∈ default_roles → is_Some (get_role_by_name x.1.1 s).

(** What seeding makes of the roles: a row stays, or is that of a built-in role;
    nothing changes when every built-in name is carried. *)
Definition reseeded (s s' : rbac) : Prop :=
  (∀ k, get_role k s' = get_role k s ∨ built_in k s') ∧ (all_named s → s' = s).
#[export] Instance reseeded_preorder : PreOrder reseeded.
Proof using Type.
  split; [by split; [left|]|]. intros s1 s2 s3 [H1 N1] [H2 N2]. split.
  - intros k. destruct (H2 k) as [Hk|?]; [|by right]. destruct (H1 k) as [Hk'|(d & ps & r & ? & ? & ?)].
    + left. congruence.
    + right. exists d, ps, r. split_and?; naive_solver congruence.
  - intros Hn. rewrite (N2 ltac:(by rewrite (N1 Hn))). by apply N1.
Qed.

Lemma seed_reseeded : preserves reseeded seed_default_roles.
Proof using Type.
  unfold seed_default_roles. apply preserves_forM; [apply _|]. intros [[name d] ps] Hin s. msimp.
  destruct (get_role_by_name name s) eqn:Hname; [reflexivity|].
  unfold create_role, put_role. msimp.
  match goal with |- context [taken ro_name ?a ?b ?c] => destruct (taken ro_name a b c) end; cbn [snd]; split.
  - by left.
  - intros Hn. destruct (Hn _ Hin) as [r Hr]. simpl in Hr. congruence.
  - intros k. unfold built_in, get_role. cbn [rb_roles with_roles ro_id]. rewrite dget_dset. case_decide as Hk; [right|by left].
    subst k. eexists d, ps, _. by split_and!.
  - intros Hn. destruct (Hn _ Hin) as [r Hr]. simpl in Hr. congruence.
Qed.

Lemma seed_spec s : seed_default_roles s = (Ok tt, seeded s) ∧ same_rows s (seeded s).
Proof using Type.
  assert (wp seed_default_roles (λ _, same_rows s) (λ _ _, False) s) as H.
  { apply wp_forM; [|by repeat split]. intros [[name description] permissions] s' _. apply seed_role_spec. }
  unfold seeded. apply wp_unfold in H. destruct (seed_default_roles s) as [[[]|e] s']; done.
Qed.

Lemma wp_seed {A} (k : M rbac A) Q E s :
  (same_rows s (seeded s) → wp k Q E (seeded s)) → wp (seed_default_roles;; k) Q E s.
Proof using Type.
  intros Hk. destruct (seed_spec s) as [Hs Hr]. apply wp_bind, wp_unfold. rewrite Hs. auto.
Qed.

(** ** What the audit keeps of the details *)
Lemma sanitize_obj d : _sanitize_details (JObj d) =
  JObj (omap (λ kv, if bool_decide (kv.1 ∈ _SENSITIVE_DETAIL_KEYS) then None
                    else Some (kv.1, _sanitize_details kv.2)) d).
Proof using Type.
  cbn [_sanitize_details]. f_equal. induction d as [|[k x] d IH]; [done|]. csimpl.
  case_bool_decide; [done|]. by f_equal.
Qed.

Lemma dget_sanitized d k :
  dget (omap (λ kv : string * json, if bool_decide (kv.1 ∈ _SENSITIVE_DETAIL_KEYS) then None
                    else Some (kv.1, _sanitize_details kv.2)) d) k =
  if bool_decide (k ∈ _SENSITIVE_DETAIL_KEYS) then None else _sanitize_details <$> dget d k.
Proof using Type.
  induction d as [|[k' x] d IH]; [by case_bool_decide|]. csimpl.
  destruct (decide (k' = k)) as [->|Hk].
  - destruct (bool_decide (k ∈ _SENSITIVE_DETAIL_KEYS)); [done|]. simpl. by rewrite !decide_True by done.
  - rewrite decide_False by done. destruct (bool_decide (k' ∈ _)); simpl; [|rewrite decide_False by done]; apply IH.
Qed.

Lemma sensitive_secret k : k ∈ _SENSITIVE_DETAIL_KEYS ↔ secret_key k.
Proof using Type.
  unfold _SENSITIVE_DETAIL_KEYS, secret_key. rewrite !elem_of_cons, elem_of_nil. naive_solver.
Qed.

Lemma sanitize_at_path path j :
  at_path (_sanitize_details j) path =
  if decide (Exists secret_step path) then None else _sanitize_details <$> at_path j path.
Proof using Type.
  revert j. induction path as [|[k|i] path IH]; intros j; [by rewrite decide_False by by intros ?%Exists_nil| |].
  - destruct j as [| | | | | |d]; try (destruct (decide (Exists secret_step (Key k :: path))); reflexivity).
    rewrite sanitize_obj. cbn [at_path]. rewrite dget_sanitized.
    destruct (decide (secret_key k)) as [Hk|Hk].
    { rewrite bool_decide_true by by apply sensitive_secret. simpl. rewrite decide_True; [done|]. by left. }
    rewrite bool_decide_false by by rewrite sensitive_secret.
    rewrite (decide_ext _ (Exists secret_step path)) by (rewrite Exists_cons; naive_solver).
    destruct (dget d k) as [x|]; simpl; [apply IH|]; by destruct (decide (Exists secret_step path)).
  - destruct j as [| | | | |l|]; try (destruct (decide (Exists secret_step (Index i :: path))); reflexivity).
    cbn [at_path _sanitize_details]. change (map ?f l) with (f <$> l). rewrite list_lookup_fmap.
    rewrite (decide_ext _ (Exists secret_step path)) by (rewrite Exists_cons; naive_solver).
    destruct (l !! i) as [x|]; simpl; [apply IH|]; by destruct (decide (Exists secret_step path)).
Qed.

Lemma sanitize_shows v : shows v (_sanitize_details v).
Proof using Type.
  destruct v as [| | | | |l|d]; try done; [by simpl; rewrite length_map|]. rewrite sanitize_obj. simpl.
  induction d as [|[k x] d IH]; [done|]. csimpl. case_bool_decide as Hk; rewrite sensitive_secret in Hk.
  - rewrite filter_cons_False; [done|]. naive_solver.
  - rewrite filter_cons_True by done. simpl. f_equal. exact IH.
Qed.

Lemma sanitized_obj d : JObj (sanitized d) = _sanitize_details (JObj d).
Proof using Type. unfold sanitized. by rewrite sanitize_obj. Qed.
End service.
#[export] Hint Resolve evolves_create_role evolves_update_role evolves_seed evolves_emit
  evolves_require_permission evolves_authenticate evolves_create_user evolves_create_token
  evolves_revoke_token evolves_deactivate_user : preserves.

(** * Properties *)

(** C40: What the audit stores of the details it is given.  An emission adds one
    row, with the fields it was given, and changes nothing else.  At a place of its
    details that is reached through a key of a secret (password, token, raw_token
    or hashed_password) there is nothing.  At any other place there is something
    exactly if there was, and it shows it: a scalar is the same, an array has the
    same length, an object has the same keys in the same order but for those of
    secrets. *)
Theorem audit_sanitized `{env : rbac_env} (event_type : string) (user_id : option string)
    (username resource action outcome : string) (details : dict string json) (ip : option string)
    (s : rbac) :
  ∃ e, emit_audit_event event_type user_id username resource action outcome details ip s =
    (Ok tt, Rbac (rb_roles s) (rb_users s) (rb_tokens s)
              (dset (rb_events s) (uuid (rb_tick s)) e) (S (rb_tick s))) ∧
    (ev_id e, ev_event_type e, ev_user_id e, ev_username e, ev_resource e, ev_action e, ev_outcome e) =
    (uuid (rb_tick s), event_type, user_id, username, resource, action, outcome) ∧
    (ev_created_at e, ev_ip_address e) = (now (rb_tick s), ip) ∧
    ∀ path, match at_path (JObj (ev_details e)) path, at_path (JObj details) path with
            | None, None => True
            | None, Some _ => Exists secret_step path
            | Some w, Some v => ¬ Exists secret_step path ∧ shows v w
            | Some _, None => False
            end.
Proof.
  exists (RbacAuditEvent (uuid (rb_tick s)) event_type user_id username resource action outcome
    (sanitized details) (now (rb_tick s)) ip).
  split_and!; [done..|]. intros path. cbn [ev_details]. rewrite sanitized_obj, sanitize_at_path.
  case_decide; destruct (at_path (JObj details) path) as [v|]; simpl; try done.
  split; [done | apply sanitize_shows].
Qed.

(** Secrets are dropped at any depth; the rest stays. *)
Example sanitized_sample :
  sanitized [("name", JStr "ci"); ("token", JStr "s6");
             ("list", JArr [JObj [("password", JStr "pw"); ("n", JInt 3)]; JNull])] =
  [("name", JStr "ci"); ("list", JArr [JObj [("n", JInt 3)]; JNull])].
Proof. done. Qed.
