(* ===== verification/RbacRoutes.v ===== *)
(** The guards and the handlers in front of the service:
    openblade/api/rbac_deps.py, routes_rbac.py and routes_tape_ops.py.

    Who the session cookie belongs to is an argument of a request.  A service is
    made anew for every dependency that asks for one, and making it seeds the
    built-in roles. *)
From stdpp Require Import base list option strings pretty relations.
From Stdlib Require Import ZArith Lia.
From S2P Require Import Prelude Wp Domain Paths Catalog Ltfs Orchestrator Rbac.
#[local] Open Scope string_scope.
#[local] Open Scope Z_scope.

(** An [AmlUser], with the host its request comes from. *)
Record caller := Caller {
  cl_name : string;
  cl_role : Z;
  cl_host : option string;
}.

Inductive rbac_call :=
| ListUsers (active_only : bool)
| CreateUser (payload : create_user_request)
| GetUser (user_id : string)
| DeactivateUser (user_id : string)
| ListRoles
| CreateRole (id name description : string) (permissions : list permission)
| GetRole (role_id : string)
| UpdateRole (role_id name description : string) (permissions : list permission)
| CreateToken (payload : create_token_request)
| ListTokens
| RevokeToken (token_id : string)
| ListAuditEvents (user_id event_type : option string) (limit : Z).

Inductive rbac_answer :=
| Users (l : list user_summary)
| User (u : user_summary)
| Roles (l : list rbac_role)
| Role (r : rbac_role)
| Tokens (l : list rbac_token)
| Token (t : create_token_result)
| Events (l : list audit_event)
| WSResultCode (summary : string).

Section routes.
Context `{env : rbac_env}.

Definition _rbac_user_for_aml_user (current_user : caller) (s : rbac) : option rbac_user :=
  get_user_by_username (cl_name current_user) s.
Definition _is_admin_user (current_user : caller) : bool := bool_decide (cl_role current_user = 0).

(** * Guards *)
Definition ensure_permission_for_user (current_user : caller) (p : permission) (ip : option string)
    : M rbac unit :=
  s ← getS;
  match _rbac_user_for_aml_user current_user s with
  | Some u =>
      try_except (require_permission (us_id u) p)
        (λ e, if bool_decide (e = PermissionError) then raise (HTTPException 403) else raise e)
  | None =>
      if _is_admin_user current_user then mret tt
      else
        emit_audit_event "permission_denied" None (cl_name current_user) "rbac" (permission_value p) "denied"
          [("permission", JStr (permission_value p))] ip;;
        raise (HTTPException 403)
  end.

(** The dependency: a service, then the check. *)
Definition permission_dep (p : permission) (current_user : caller) : M rbac unit :=
  seed_default_roles;;
  ensure_permission_for_user current_user p (cl_host current_user).

Definition _current_rbac_user (current_user : caller) (s : rbac) : option rbac_user :=
  get_user_by_username (cl_name current_user) s.

Definition _audit_actor (current_user : caller) (s : rbac) : option string * string :=
  match _current_rbac_user current_user s with
  | Some u => (Some (us_id u), us_username u)
  | None => (None, cl_name current_user)
  end.

Definition any_granted (current_user : caller) (ps : list permission) (s : rbac) : bool :=
  match _current_rbac_user current_user s with
  | Some u => existsb (λ p, check_permission (us_id u) p s) ps
  | None => bool_decide (cl_role current_user = 0)
  end.

Definition _ensure_any_permission (current_user : caller) (ps : list permission) : M rbac unit :=
  s ← getS;
  if any_granted current_user ps s then mret tt
  else
    let '(id, name) := _audit_actor current_user s in
    emit_audit_event "permission_denied" id name "rbac"
      (String.concat "|" (permission_value <$> ps)) "denied"
      [("permissions", JArr (JStr ∘ permission_value <$> ps))] (cl_host current_user);;
    raise (HTTPException 403).

(** * Handlers *)
Definition or_404 {A} (o : option A) : M rbac A :=
  match o with Some a => mret a | None => raise (HTTPException 404) end.

(** The caller's own row, which the token handlers ask for. *)
Definition own_user (current_user : caller) : M rbac rbac_user :=
  s ← getS; or_404 (_current_rbac_user current_user s).

Definition users_admin : list permission := [RbacPermission.SYSTEM_ADMIN; RbacPermission.USER_ADMIN].

Definition get_user_route (user_id : string) (current_user : caller) : M rbac rbac_answer :=
  seed_default_roles;;
  s ← getS;
  (if match _current_rbac_user current_user s with
      | Some u => bool_decide (us_id u = user_id)
      | None => false
      end
   then mret tt
   else _ensure_any_permission current_user [RbacPermission.USER_ADMIN]);;
  s ← getS;
  User <$> or_404 (get_user_summary user_id s).

Definition deactivate_user_route (user_id : string) (current_user : caller) : M rbac rbac_answer :=
  permission_dep RbacPermission.USER_ADMIN current_user;;
  seed_default_roles;;
  s ← getS;
  let actor := match _current_rbac_user current_user s with
               | Some u => us_id u
               | None => cl_name current_user
               end in
  deactivated ← deactivate_user user_id actor;
  if deactivated : bool then mret (WSResultCode "User deactivated") else raise (HTTPException 404).

Definition role_event (event_type action : string) (current_user : caller) (r : rbac_role) : M rbac unit :=
  s ← getS;
  let '(id, name) := _audit_actor current_user s in
  emit_audit_event event_type id name "rbac:role" action "success"
    [("role_id", JStr (ro_id r)); ("name", JStr (ro_name r))] None.

Definition create_role_route (id name description : string) (permissions : list permission)
    (current_user : caller) : M rbac rbac_answer :=
  permission_dep RbacPermission.SYSTEM_ADMIN current_user;;
  seed_default_roles;;
  created ← create_role id name description permissions;
  role_event "role_created" "create" current_user created;;
  mret (Role created).

Definition update_role_route (role_id name description : string) (permissions : list permission)
    (current_user : caller) : M rbac rbac_answer :=
  permission_dep RbacPermission.SYSTEM_ADMIN current_user;;
  seed_default_roles;;
  updated ← update_role role_id name description permissions;
  r ← or_404 updated;
  role_event "role_updated" "update" current_user r;;
  mret (Role r).

Definition create_token_route (payload : create_token_request) (current_user : caller)
    : M rbac rbac_answer :=
  permission_dep RbacPermission.TOKEN_MANAGE current_user;;
  seed_default_roles;;
  u ← own_user current_user;
  Token <$> create_token (us_id u) payload.

Definition list_tokens_route (current_user : caller) : M rbac rbac_answer :=
  permission_dep RbacPermission.TOKEN_MANAGE current_user;;
  seed_default_roles;;
  u ← own_user current_user;
  s ← getS;
  mret (Tokens (list_api_tokens (us_id u) s)).

Definition revoke_token_route (token_id : string) (current_user : caller) : M rbac rbac_answer :=
  permission_dep RbacPermission.TOKEN_MANAGE current_user;;
  seed_default_roles;;
  u ← own_user current_user;
  s ← getS;
  t ← or_404 (get_api_token token_id s);
  raise_if (bool_decide (ap_user_id t ≠ us_id u)) (HTTPException 403);;
  revoke_token token_id (us_id u);;
  mret (WSResultCode "Token revoked").

(** The bounds of [limit] are checked when the dependencies have run. *)
Definition list_audit_route (user_id event_type : option string) (limit : Z) (current_user : caller)
    : M rbac rbac_answer :=
  permission_dep RbacPermission.AUDIT_READ current_user;;
  seed_default_roles;;
  raise_if (negb (bool_decide (1 ≤ limit ≤ 1000))) (HTTPException 422);;
  s ← getS;
  mret (Events (list_audit_events (Z.to_nat limit) user_id event_type s)).

Definition list_users_route (active_only : bool) (current_user : caller) : M rbac rbac_answer :=
  seed_default_roles;;
  _ensure_any_permission current_user users_admin;;
  s ← getS;
  mret (Users (list_users active_only s)).

Definition create_user_route (payload : create_user_request) (current_user : caller)
    : M rbac rbac_answer :=
  seed_default_roles;;
  _ensure_any_permission current_user users_admin;;
  User <$> create_user payload.

(** Any session may read the roles. *)
Definition list_roles_route : M rbac rbac_answer :=
  seed_default_roles;;
  s ← getS;
  mret (Roles (list_roles s)).

Definition get_role_route (role_id : string) : M rbac rbac_answer :=
  seed_default_roles;;
  s ← getS;
  Role <$> or_404 (get_role role_id s).

(** The router. *)
Definition handle (call : rbac_call) (current_user : caller) : M rbac rbac_answer :=
  match call with
  | ListUsers active_only => list_users_route active_only current_user
  | CreateUser payload => create_user_route payload current_user
  | GetUser user_id => get_user_route user_id current_user
  | DeactivateUser user_id => deactivate_user_route user_id current_user
  | ListRoles => list_roles_route
  | CreateRole id name description permissions =>
      create_role_route id name description permissions current_user
  | GetRole role_id => get_role_route role_id
  | UpdateRole role_id name description permissions =>
      update_role_route role_id name description permissions current_user
  | CreateToken payload => create_token_route payload current_user
  | ListTokens => list_tokens_route current_user
  | RevokeToken token_id => revoke_token_route token_id current_user
  | ListAuditEvents user_id event_type limit => list_audit_route user_id event_type limit current_user
  end.

(** * Tape operations

    The request reaches the orchestrator when the caller passes the check. *)
Record site := Site {
  st_rbac : rbac;
  st_plant : plant;
}.
Definition on_rbac {A} (m : M rbac A) : M site A := zoom st_rbac (λ r s, Site r (st_plant s)) m.
Definition on_plant {A} (m : M plant A) : M site A := zoom st_plant (λ p s, Site (st_rbac s) p) m.

Definition _permission_for_op (op_type : tape_op_type) : permission :=
  if bool_decide (op_type ∈ [TapeOpType.READ; TapeOpType.VERIFY]) then RbacPermission.TAPE_READ
  else RbacPermission.TAPE_WRITE.

Definition execute_tape_op (str_of : exn → string) (oenv : op_env) (payload : tape_op_request)
    (current_user : caller) : M site tape_op_record :=
  on_rbac (seed_default_roles;;
           ensure_permission_for_user current_user (_permission_for_op (rq_op_type payload))
             (cl_host current_user));;
  try_except (on_plant (execute true str_of oenv payload))
    (λ e, if bool_decide (e ∈ [OperationNotConfirmedError; ValueError]) then raise (HTTPException 400)
          else raise e).

Definition get_op (op_id : string) (p : plant) : option tape_op_record := dget (pl_ops p) op_id.

Definition tape_op_status_value (x : tape_op_status) : string :=
  match x with
  | TapeOpStatus.QUEUED => "queued" | TapeOpStatus.RUNNING => "running"
  | TapeOpStatus.COMPLETED => "completed" | TapeOpStatus.FAILED => "failed"
  | TapeOpStatus.CANCELLED => "cancelled" | TapeOpStatus.SKIPPED => "skipped"
  end.

Definition list_ops (bc status : option string) (limit : nat) (p : plant) : list tape_op_record :=
  take limit (sort_by (λ a b, to_created_at b <=? to_created_at a)
    (select (λ r, (match bc with Some b => bool_decide (to_barcode r = b) | None => true end) &&
                  (match status with
                   | Some x => bool_decide (tape_op_status_value (to_status r) = x)
                   | None => true
                   end))
       (pl_ops p))).

Definition get_tape_op (op_id : string) (current_user : caller) : M site tape_op_record :=
  on_rbac (permission_dep RbacPermission.TAPE_READ current_user);;
  s ← getS;
  on_rbac (or_404 (get_op op_id (st_plant s))).

Definition list_tape_ops (bc status : option string) (limit : Z) (current_user : caller)
    : M site (list tape_op_record) :=
  on_rbac (permission_dep RbacPermission.TAPE_READ current_user);;
  raise_if (negb (bool_decide (1 ≤ limit ≤ 1000))) (HTTPException 422);;
  s ← getS;
  mret (list_ops bc status (Z.to_nat limit) (st_plant s)).

(** * What a caller may do *)

(** The row of a caller, and a permission the caller holds: the row is active and
    is of an administrator or of a role with the permission; without a row, the
    session is of an administrator. *)
Definition own_row (current_user : caller) (s : rbac) : option rbac_user :=
  head (filter (λ u, us_username u = cl_name current_user) (dvalues (rb_users s))).
Definition holds (current_user : caller) (p : permission) (s : rbac) : bool :=
  match own_row current_user s with
  | Some u => us_is_active u && (us_is_admin u ||
      match dget (rb_roles s) (us_role_id u) with
      | Some r => bool_decide (p ∈ ro_permissions r)
      | None => false
      end)
  | None => bool_decide (cl_role current_user = 0)
  end.

Definition is_self (current_user : caller) (user_id : string) (s : rbac) : bool :=
  match own_row current_user s with
  | Some u => bool_decide (us_id u = user_id)
  | None => false
  end.

Definition permitted (call : rbac_call) (current_user : caller) (s : rbac) : bool :=
  match call with
  | ListUsers _ | CreateUser _ =>
      holds current_user RbacPermission.SYSTEM_ADMIN s || holds current_user RbacPermission.USER_ADMIN s
  | GetUser user_id => is_self current_user user_id s || holds current_user RbacPermission.USER_ADMIN s
  | DeactivateUser _ => holds current_user RbacPermission.USER_ADMIN s
  | ListRoles | GetRole _ => true
  | CreateRole _ _ _ _ | UpdateRole _ _ _ _ => holds current_user RbacPermission.SYSTEM_ADMIN s
  | CreateToken _ | ListTokens | RevokeToken _ => holds current_user RbacPermission.TOKEN_MANAGE s
  | ListAuditEvents _ _ _ => holds current_user RbacPermission.AUDIT_READ s
  end.

(** [s'] has one more event than [s], a denial of [name]. *)
Definition denied_event (name : string) (s s' : rbac) : Prop :=
  ∃ id e, s' = Rbac (rb_roles s) (rb_users s) (rb_tokens s) (dset (rb_events s) id e) (S (rb_tick s)) ∧
    ev_event_type e = "permission_denied" ∧ ev_outcome e = "denied" ∧ ev_username e = name.

(** The tables as the body of a handler finds them: behind a permission
    dependency, the second service has seeded too. *)
Definition entered (call : rbac_call) (s : rbac) : rbac :=
  match call with
  | ListUsers _ | CreateUser _ | GetUser _ | ListRoles | GetRole _ => seeded s
  | _ => seeded (seeded s)
  end.

(** The rows a permitted call may change. *)
Definition may_change_role (call : rbac_call) (role_id : string) : Prop :=
  match call with
  | CreateRole id _ _ _ | UpdateRole id _ _ _ => role_id = id
  | _ => False
  end.
Definition may_change_user (call : rbac_call) (current_user : caller) (s : rbac) (user_id : string) : Prop :=
  match call with
  | CreateUser _ => get_user user_id s = None
  | DeactivateUser id => user_id = id
  | CreateToken _ => is_self current_user user_id s = true
  | _ => False
  end.
Definition may_change_token (call : rbac_call) (current_user : caller) (s : rbac) (token_id : string) : Prop :=
  match call with
  | CreateToken _ => get_api_token token_id s = None
  | RevokeToken id => token_id = id ∧
      ∃ t, get_api_token id s = Some t ∧ is_self current_user (ap_user_id t) s = true
  | _ => False
  end.
Definition changes_only (call : rbac_call) (current_user : caller) (s s' : rbac) : Prop :=
  (∀ k, get_role k s' ≠ get_role k s → may_change_role call k) ∧
  (∀ k, get_user k s' ≠ get_user k s → may_change_user call current_user s k) ∧
  (∀ k, get_api_token k s' ≠ get_api_token k s → may_change_token call current_user s k).

(** * Histories *)

(** Requests, and tokens presented. *)
Inductive rbac_step : relation rbac :=
| step_call call current_user s : rbac_step s (handle call current_user s).2
| step_authenticate raw_token s : rbac_step s (authenticate_by_token raw_token s).2.

Definition empty_rbac : rbac := Rbac [] [] [] [] 0.
Definition rbac_reachable (s : rbac) : Prop := rtc rbac_step empty_rbac s.

(** What a request comes to, once entered: refused, with one event and no other
    change, or run. *)
Definition answered_as (call : rbac_call) (current_user : caller) (s : rbac)
    (r : result rbac_answer) (s' : rbac) : Prop :=
  if permitted call current_user (seeded s) then changes_only call current_user (entered call s) s'
  else r = Raise (HTTPException 403) ∧ denied_event (cl_name current_user) (seeded s) s'.

(** From the tables as the request finds them.  Making the service puts built-in
    roles back, whoever asks: a role changes only so, or when the call names it. *)
Definition put_back (s s' : rbac) (k : string) : Prop := built_in k s' ∧ ¬ all_named s.
Definition request_outcome (call : rbac_call) (c : caller) (s : rbac) (r : result rbac_answer) (s' : rbac)
    : Prop :=
  if permitted call c (seeded s) then
    (∀ k, get_role k s' ≠ get_role k s → may_change_role call k ∨ put_back s s' k) ∧
    (∀ k, get_user k s' ≠ get_user k s → may_change_user call c s k) ∧
    (∀ k, get_api_token k s' ≠ get_api_token k s → may_change_token call c s k)
  else
    r = Raise (HTTPException 403) ∧ rb_users s' = rb_users s ∧ rb_tokens s' = rb_tokens s ∧
    (∀ k, get_role k s' ≠ get_role k s → put_back s s' k) ∧
    ∃ id e, rb_events s' = dset (rb_events s) id e ∧
      (ev_event_type e, ev_outcome e, ev_username e) = ("permission_denied", "denied", cl_name c).

(** The permission a tape operation needs. *)
Definition needed (o : tape_op_type) : permission :=
  match o with
  | TapeOpType.READ | TapeOpType.VERIFY => RbacPermission.TAPE_READ
  | TapeOpType.LOAD | TapeOpType.UNLOAD | TapeOpType.FORMAT | TapeOpType.WRITE | TapeOpType.MOVE
  | TapeOpType.EJECT | TapeOpType.IMPORT | TapeOpType.EXPORT => RbacPermission.TAPE_WRITE
  end.

(** What a tape request comes to. *)
Definition tape_answered (str_of : exn → string) (oenv : op_env) (rq : tape_op_request) (c : caller)
    (w : site) (o : result tape_op_record * site) : Prop :=
  let r0 := seeded (st_rbac w) in
  let '(r, w') := o in
  if holds c (needed (rq_op_type rq)) r0 then
    let '(r1, p1) := execute true str_of oenv rq (st_plant w) in
    w' = Site r0 p1 ∧
    r = match r1 with
        | Raise e => Raise (if bool_decide (e ∈ [OperationNotConfirmedError; ValueError])
                            then HTTPException 400 else e)
        | Ok row => Ok row
        end
  else r = Raise (HTTPException 403) ∧ st_plant w' = st_plant w ∧
       denied_event (cl_name c) r0 (st_rbac w').

(** A sequence of requests. *)
Definition run_calls (l : list (rbac_call * caller)) (s : rbac) : rbac :=
  foldl (λ s x, (handle x.1 x.2 s).2) s l.

(** A user nothing is granted to any more, and a token that opens nothing. *)
Definition user_locked_out (id : string) (s : rbac) : Prop :=
  (∀ p, check_permission id p s = false) ∧
  (∀ raw u s', authenticate_by_token raw s = (Ok (Some u), s') → us_id u ≠ id).
Definition token_dead (raw : string) (s : rbac) : Prop :=
  ∀ u s', authenticate_by_token raw s ≠ (Ok (Some u), s').
End routes.

(** * Lemmas *)
#[export] Instance rbac_role_eq_dec : EqDecision rbac_role.
Proof. solve_decision. Defined.

Section lemmas.
Context `{env : rbac_env} `{uuid_inj : !Inj (=) (=) uuid}.
Implicit Types (c : caller) (s : rbac).

Lemma current_user_row c s u : rbac_wf s → _current_rbac_user c s = Some u →
  get_user (us_id u) s = Some u ∧ us_username u = cl_name c.
Proof using Type.
  unfold _current_rbac_user, get_user_by_username, select_one, select. intros (Hu & _ & Hd) Hg.
  apply head_Some_elem_of in Hg. apply list_elem_of_filter in Hg as [Hn%bool_decide_spec Hin].
  split; [|done]. apply list_elem_of_fmap in Hin as ([k u'] & -> & Hk). cbn [snd].
  apply elem_dget in Hk; [|done]. destruct (Hu _ _ Hk) as [-> _]. done.
Qed.

Lemma own_row_current c s : own_row c s = _current_rbac_user c s.
Proof using Type.
  unfold own_row, _current_rbac_user, get_user_by_username, select_one, select. f_equal.
  apply list_filter_iff. intros u. by rewrite bool_decide_spec.
Qed.

(** The service decides by what the tables say. *)
Lemma holds_check c p s : rbac_wf s → holds c p s =
  match _current_rbac_user c s with
  | Some u => check_permission (us_id u) p s
  | None => bool_decide (cl_role c = 0)
  end.
Proof using Type.
  intros Hwf. unfold holds. rewrite own_row_current. destruct (_current_rbac_user c s) as [u|] eqn:Hu; [|done].
  destruct (current_user_row c s u Hwf Hu) as [Hrow _]. unfold check_permission. by rewrite Hrow.
Qed.
Lemma holds_granted c p s : rbac_wf s → any_granted c [p] s = holds c p s.
Proof using Type.
  intros Hwf. rewrite holds_check by done. unfold any_granted.
  destruct (_current_rbac_user c s); [simpl; by rewrite orb_false_r | done].
Qed.

(** A denial that is noted and raised. *)
Lemma wp_denied {A} id name res act det ip e s (Q : A → rbac → Prop) E :
  (∀ s', denied_event name s s' → E e s') →
  wp (emit_audit_event "permission_denied" id name res act "denied" det ip;; raise e) Q E s.
Proof using Type.
  intros HE. apply wp_unfold. unfold emit_audit_event, create_audit_event. msimp.
  apply HE. by eexists _, _.
Qed.

Lemma wp_ensure_permission c p ip s Q E :
  rbac_wf s → (holds c p s = true → Q tt s) →
  (holds c p s = false → ∀ s', denied_event (cl_name c) s s' → E (HTTPException 403) s') →
  wp (ensure_permission_for_user c p ip) Q E s.
Proof using Type.
  intros Hwf HQ HE. rewrite holds_check in HQ, HE by done. unfold ensure_permission_for_user. do 2 wp_step.
  change (_rbac_user_for_aml_user c s) with (_current_rbac_user c s).
  destruct (_current_rbac_user c s) as [u|] eqn:Hu.
  - destruct (current_user_row c s u Hwf Hu) as [Hrow Hname].
    apply wp_try_except. unfold require_permission. do 2 wp_step.
    destruct (check_permission (us_id u) p s); [by apply wp_ret, HQ|].
    apply wp_denied. unfold actor_name. rewrite Hrow, Hname. intros s' Hs'.
    rewrite bool_decide_true by done. apply wp_raise. auto.
  - unfold _is_admin_user. destruct (bool_decide _); [by apply wp_ret, HQ|]. apply wp_denied. auto.
Qed.

Lemma wp_permission_dep {A} p c (k : M rbac A) Q E s :
  rbac_wf s →
  (rbac_wf (seeded s) → same_rows s (seeded s) → holds c p (seeded s) = true → wp k Q E (seeded s)) →
  (holds c p (seeded s) = false → ∀ s', denied_event (cl_name c) (seeded s) s' → E (HTTPException 403) s') →
  wp (permission_dep p c;; k) Q E s.
Proof using Type.
  intros Hwf Hk HE. apply wp_bind. unfold permission_dep. apply wp_seed. intros Hs.
  assert (rbac_wf (seeded s)) as Hwf1 by apply (evolves_seed s Hwf).
  apply wp_ensure_permission; auto.
Qed.

Lemma wp_ensure_any {A} c ps (k : M rbac A) Q E s :
  rbac_wf s → (any_granted c ps s = true → wp k Q E s) →
  (any_granted c ps s = false → ∀ s', denied_event (cl_name c) s s' → E (HTTPException 403) s') →
  wp (_ensure_any_permission c ps;; k) Q E s.
Proof using Type.
  intros Hwf Hk HE. apply wp_bind. unfold _ensure_any_permission. do 2 wp_step.
  destruct (any_granted c ps s); [by apply wp_ret, Hk|].
  destruct (_audit_actor c s) as [id name] eqn:Ha. apply wp_denied. intros s' Hs'. apply HE; [done|].
  replace (cl_name c) with name; [done|]. unfold _audit_actor in Ha.
  destruct (_current_rbac_user c s) as [u|] eqn:Hu; [|by simplify_eq].
  destruct (current_user_row c s u Hwf Hu) as [_ <-]. by simplify_eq.
Qed.

(** A part that stays within a frame changes only what the call may. *)
Lemma wp_frame {A} (call : rbac_call) c (m : M rbac A) s :
  preserves (frame (rb_tick s) (may_change_role call) (may_change_user call c s)
    (may_change_token call c s)) m →
  wp m (λ _, changes_only call c s) (λ _, changes_only call c s) s.
Proof using Type.
  intros Hm. apply wp_state. destruct (Hm s (le_n _)) as (_ & Hr & Hu & Ht).
  split_and!; intros k Hk; [destruct (Hr k) | destruct (Hu k) | destruct (Ht k)]; done.
Qed.

Lemma is_self_row c s u : _current_rbac_user c s = Some u → is_self c (us_id u) s = true.
Proof using Type. unfold is_self. rewrite own_row_current. intros ->. by apply bool_decide_eq_true. Qed.

(** ** Bodies *)
Notation within call c s m :=
  (wp m (λ _, changes_only call c s) (λ _, changes_only call c s) s).

Lemma wp_or_404 {A} (o : option A) (Q : A → rbac → Prop) E s :
  (∀ a, o = Some a → Q a s) → (o = None → E (HTTPException 404) s) → wp (or_404 o) Q E s.
Proof using Type. intros HQ HE. destruct o; [by apply wp_ret, HQ | by apply wp_raise, HE]. Qed.

Lemma unchanged call c s : changes_only call c s s.
Proof using Type. by split_and!. Qed.

Lemma wp_own_user {A} call c (k : rbac_user → M rbac A) s :
  (∀ u, _current_rbac_user c s = Some u → within call c s (k u)) → within call c s (own_user c ≫= k).
Proof using Type.
  intros Hk. apply wp_bind. unfold own_user. do 2 wp_step.
  apply wp_or_404; [done | intros; apply unchanged].
Qed.

Lemma create_user_within payload c s : rbac_wf s →
  within (CreateUser payload) c s (User <$> create_user payload).
Proof.
  intros Hwf. apply wp_frame. apply preserves_bind; [apply _| |solve_preserves]. unfold create_user.
  assert (∀ m, (rb_tick s ≤ m)%nat → may_change_user (CreateUser payload) c s (uuid m)).
  { intros m Hm. by apply fresh_user. }
  solve_preserves.
Qed.

Lemma create_token_within payload c s : rbac_wf s →
  within (CreateToken payload) c s (u ← own_user c; Token <$> create_token (us_id u) payload).
Proof.
  intros Hwf. apply wp_own_user. intros u Hu. destruct (current_user_row c s u Hwf Hu) as [Hrow _].
  wp_step. unfold create_token. do 2 wp_step. rewrite Hrow.
  assert (∀ m, (rb_tick s ≤ m)%nat → may_change_token (CreateToken payload) c s (uuid m)).
  { intros m Hm. by apply fresh_token. }
  assert (may_change_user (CreateToken payload) c s (us_id u)) by by apply is_self_row.
  apply wp_frame. solve_preserves.
Qed.

Lemma revoke_token_within token_id c s :
  within (RevokeToken token_id) c s
    (u ← own_user c; s ← getS; t ← or_404 (get_api_token token_id s);
     raise_if (bool_decide (ap_user_id t ≠ us_id u)) (HTTPException 403);;
     revoke_token token_id (us_id u);; mret (WSResultCode "Token revoked")).
Proof using Type.
  apply wp_own_user. intros u Hu. do 3 wp_step.
  apply wp_or_404; [|intros; apply unchanged]. intros t Ht. do 2 wp_step; [apply unchanged|].
  assert (may_change_token (RevokeToken token_id) c s token_id).
  { split; [done|]. exists t. split; [done|]. case_bool_decide as Hne; [done|].
    rewrite Hne. by apply is_self_row. }
  apply wp_frame. unfold revoke_token. solve_preserves.
Qed.

(** ** Handlers *)
Notation answered call c s m :=
  (wp m (λ a, answered_as call c s (Ok a)) (λ e, answered_as call c s (Raise e)) s).

Lemma answered_body call c s s1 (m : M rbac rbac_answer) :
  permitted call c (seeded s) = true → entered call s = s1 → within call c s1 m →
  wp m (λ a, answered_as call c s (Ok a)) (λ e, answered_as call c s (Raise e)) s1.
Proof using Type.
  intros Hp <- Hm. unfold answered_as. rewrite Hp. by eapply wp_mono.
Qed.

Lemma answered_denied call c s s' :
  permitted call c (seeded s) = false → denied_event (cl_name c) (seeded s) s' →
  answered_as call c s (Raise (HTTPException 403)) s'.
Proof using Type. intros Hp Hd. unfold answered_as. by rewrite Hp. Qed.

(** A handler behind a dependency. *)
Lemma answered_dep call c p s (m : M rbac rbac_answer) :
  (permitted call c (seeded s) = holds c p (seeded s)) → entered call s = seeded (seeded s) →
  (∀ s1, rbac_wf s1 → within call c s1 m) → rbac_wf s →
  answered call c s (permission_dep p c;; seed_default_roles;; m).
Proof using Type.
  intros Hp He Hm Hwf. apply wp_permission_dep; [done| |].
  - intros Hwf1 _ Hh. apply wp_seed. intros _. apply answered_body; [by rewrite Hp|done|].
    apply Hm, (evolves_seed _ Hwf1).
  - intros Hh s' Hs'. apply answered_denied; [by rewrite Hp|done].
Qed.

(** A handler that asks for one of several permissions. *)
Lemma answered_any call c ps s (m : M rbac rbac_answer) :
  (rbac_wf (seeded s) → permitted call c (seeded s) = any_granted c ps (seeded s)) → entered call s = seeded s →
  (∀ s1, rbac_wf s1 → within call c s1 m) → rbac_wf s →
  answered call c s (seed_default_roles;; _ensure_any_permission c ps;; m).
Proof using Type.
  intros Hp He Hm Hwf. apply wp_seed. intros _.
  assert (rbac_wf (seeded s)) as Hwf1 by apply (evolves_seed s Hwf).
  specialize (Hp Hwf1). apply wp_ensure_any; [done| |].
  - intros Hh. apply answered_body; [by rewrite Hp|done|]. by apply Hm.
  - intros Hh s' Hs'. apply answered_denied; [by rewrite Hp|done].
Qed.

Lemma admin_granted c s : rbac_wf s → any_granted c users_admin s =
  holds c RbacPermission.SYSTEM_ADMIN s || holds c RbacPermission.USER_ADMIN s.
Proof using Type.
  intros Hwf. rewrite !holds_check by done. unfold any_granted. destruct (_current_rbac_user c s).
  - simpl. by rewrite orb_false_r.
  - by rewrite orb_diag.
Qed.

Lemma handle_guarded call c s : rbac_wf s → answered call c s (handle call c).
Proof.
  intros Hwf. destruct call as [ao|rq|id|id| |id n d ps|id|id n d ps|rq| |id|u e l]; cbn [handle].
  - apply answered_any; [by intros; rewrite admin_granted|done| |done].
    intros s1 _. apply wp_frame. solve_preserves.
  - apply answered_any; [by intros; rewrite admin_granted|done| |done]. apply create_user_within.
  - unfold get_user_route. apply wp_seed. intros _.
    assert (rbac_wf (seeded s)) as Hwf1 by apply (evolves_seed s Hwf).
    do 2 wp_step. rewrite <-own_row_current.
    change (match own_row c (seeded s) with Some u => _ | None => _ end) with (is_self c id (seeded s)).
    assert (∀ s1, within (GetUser id) c s1 (s ← getS; User <$> or_404 (get_user_summary id s))) as Hb.
    { intros s1. do 3 wp_step. apply wp_or_404; intros; apply unchanged. }
    destruct (is_self c id (seeded s)) eqn:Hself.
    + do 2 wp_step. apply (answered_body (GetUser id)); [|done|apply Hb]. cbn [permitted].
      by rewrite Hself.
    + apply wp_ensure_any; [done| |]; intros Hh.
      * apply (answered_body (GetUser id)); [|done|apply Hb]. cbn [permitted].
        by rewrite <-(holds_granted c _ _ Hwf1), Hh, orb_true_r.
      * intros s' Hs'. apply answered_denied; [|done]. cbn [permitted].
        by rewrite <-(holds_granted c _ _ Hwf1), Hself, Hh.
  - apply answered_dep; [done..| |done]. intros s1 _. apply wp_frame. unfold deactivate_user.
    assert (may_change_user (DeactivateUser id) c s1 id) by done. solve_preserves.
  - apply wp_seed. intros _. apply (answered_body ListRoles); [done..|].
    apply wp_frame. solve_preserves.
  - apply answered_dep; [done..| |done]. intros s1 _. apply wp_frame.
    assert (may_change_role (CreateRole id n d ps) id) by done.
    unfold create_role, role_event. solve_preserves.
  - apply wp_seed. intros _. apply (answered_body (GetRole id)); [done..|].
    do 3 wp_step. apply wp_or_404; intros; apply unchanged.
  - apply answered_dep; [done..| |done]. intros s1 _. apply wp_frame.
    assert (may_change_role (UpdateRole id n d ps) id) by done.
    unfold update_role, role_event, or_404. solve_preserves.
  - apply answered_dep; [done..| |done]. apply create_token_within.
  - apply answered_dep; [done..| |done]. intros s1 _. apply wp_own_user. intros u0 _.
    do 2 wp_step. apply wp_ret, unchanged.
  - apply answered_dep; [done..| |done]. intros s1 _. apply revoke_token_within.
  - apply answered_dep; [done..| |done]. intros s1 _. apply wp_frame. solve_preserves.
Qed.

(** ** From the tables as they were *)
Lemma seeded_reseeded s : reseeded s (seeded s).
Proof using Type. apply seed_reseeded. Qed.

Lemma entered_reseeded call s : reseeded s (entered call s) ∧ same_rows s (entered call s).
Proof using Type.
  assert (reseeded s (seeded (seeded s)) ∧ same_rows s (seeded (seeded s))) as H2.
  { split; [etrans; apply seeded_reseeded|]. destruct (seed_spec s) as [_ (H1 & H2 & H3 & H4)].
    destruct (seed_spec (seeded s)) as [_ (H5 & H6 & H7 & H8)]. split_and!; [congruence..|lia]. }
  destruct call; first [exact H2 | split; [apply seeded_reseeded | apply seed_spec]].
Qed.

Lemma role_put_back s s1 s' k :
  reseeded s s1 → (get_role k s' = get_role k s1 ∨ get_role k s' ≠ get_role k s1) →
  get_role k s' ≠ get_role k s → get_role k s' ≠ get_role k s1 ∨ put_back s s' k.
Proof using Type.
  intros [Hr Hn] [Heq|Hne] Hk; [right|by left]. destruct (Hr k) as [Hk1|(d & ps & r & Hin & Hg & Hrest)]; [congruence|].
  split; [exists d, ps, r; by rewrite Heq|]. intros Hall. apply Hk. by rewrite Heq, (Hn Hall).
Qed.

Lemma outcome_from call c s r s' : answered_as call c s r s' → request_outcome call c s r s'.
Proof using Type.
  unfold answered_as, request_outcome. destruct (permitted call c (seeded s)).
  - destruct (entered_reseeded call s) as [Hre (Hu & Ht & _)]. intros (H1 & H2 & H3).
    assert (∀ k, may_change_user call c (entered call s) k → may_change_user call c s k) as Hmu.
    { destruct call; simpl; try done; unfold get_user, is_self, own_row; simpl in Hu; by rewrite ?Hu. }
    assert (∀ k, may_change_token call c (entered call s) k → may_change_token call c s k) as Hmt.
    { destruct call; simpl; try done; unfold get_api_token, is_self, own_row; simpl in Hu, Ht; by rewrite ?Hu, ?Ht. }
    split_and!.
    + intros k Hk. edestruct (role_put_back s (entered call s) s' k) as [Hne|?]; [done| |done|left; by apply H1|by right].
      destruct (decide (get_role k s' = get_role k (entered call s))); auto.
    + intros k Hk. apply Hmu, H2. unfold get_user in *. by rewrite Hu.
    + intros k Hk. apply Hmt, H3. unfold get_api_token in *. by rewrite Ht.
  - intros (-> & id & e & -> & He1 & He2 & He3). destruct (seed_spec s) as [_ (Hu & Ht & He & _)].
    split_and!; [done..| |].
    + intros k Hk. destruct (role_put_back s (seeded s) _ k (seeded_reseeded s) (or_introl eq_refl) Hk) as [Hne|?]; [|done].
      by destruct Hne.
    + exists id, e. cbn [rb_events]. rewrite He. split; [done | congruence].
Qed.

(** ** Histories *)
Lemma evolves_ensure c p ip : preserves evolves (ensure_permission_for_user c p ip).
Proof using Type. unfold ensure_permission_for_user. solve_preserves. Qed.
Lemma evolves_any c ps : preserves evolves (_ensure_any_permission c ps).
Proof using Type. unfold _ensure_any_permission. solve_preserves. Qed.
Lemma evolves_404 {A} (o : option A) : preserves evolves (or_404 o).
Proof using Type. unfold or_404. solve_preserves. Qed.
#[local] Hint Resolve evolves_ensure evolves_any evolves_404 : preserves.
Lemma evolves_dep p c : preserves evolves (permission_dep p c).
Proof using Type. unfold permission_dep. solve_preserves. Qed.
Lemma evolves_own_user c : preserves evolves (own_user c).
Proof using Type. unfold own_user. solve_preserves. Qed.
Lemma evolves_role_event a b c r : preserves evolves (role_event a b c r).
Proof using Type. unfold role_event. solve_preserves. Qed.
#[local] Hint Resolve evolves_dep evolves_own_user evolves_role_event : preserves.

Lemma evolves_handle call c : preserves evolves (handle call c).
Proof.
  destruct call; cbn [handle];
    unfold list_users_route, create_user_route, list_roles_route, get_role_route, get_user_route,
      deactivate_user_route, create_role_route, update_role_route,
      create_token_route, list_tokens_route, revoke_token_route, list_audit_route;
    solve_preserves.
Qed.

Lemma steps_evolve s s' : rtc rbac_step s s' → evolves s s'.
Proof.
  induction 1 as [s|s1 s2 s3 Hs _ IH]; [reflexivity|]. etrans; [|exact IH].
  destruct Hs as [call c s|raw s]; [apply evolves_handle | apply evolves_authenticate].
Qed.

Lemma empty_wf : rbac_wf empty_rbac.
Proof using Type. split_and!; [done..|constructor]. Qed.
Lemma reachable_rbac_wf s : rbac_reachable s → rbac_wf s.
Proof. intros Hs%steps_evolve. apply Hs, empty_wf. Qed.

(** ** Who gets in *)
Lemma authenticate_inv raw s u s' : authenticate_by_token raw s = (Ok (Some u), s') →
  ∃ t, select (λ t, bool_decide (ap_token_hash t = token_hash_of raw)) (rb_tokens s) = [t] ∧
    ap_revoked t = false ∧ get_user (ap_user_id t) s = Some u ∧ us_is_active u = true.
Proof using Type.
  unfold authenticate_by_token, get_api_token_by_hash. msimp.
  destruct (select _ _) as [|t [|]] eqn:Hsel; [done| |done]. destruct (ap_revoked t) eqn:Hrev; [done|].
  msimp. destruct (_is_expired _ _) as [[]|]; [done| |done].
  change (get_user (ap_user_id t) _) with (get_user (ap_user_id t) s).
  destruct (get_user (ap_user_id t) s) as [u'|] eqn:Hu; [|done].
  destruct (us_is_active u') eqn:Hact; [|done]. intros Hrun. exists t.
  split_and!; [done..| |]; [f_equal|]; destruct (update_token_last_used _ _ _) as [[]]; by simplify_eq.
Qed.

Lemma inactive_locked_out id u s : rbac_wf s → get_user id s = Some u → us_is_active u = false →
  user_locked_out id s.
Proof using Type.
  intros Hwf Hg Ha. split; [intros p; unfold check_permission; by rewrite Hg, Ha|].
  intros raw u' s' (t & _ & _ & Hu & Hact)%authenticate_inv <-.
  destruct (proj1 Hwf _ _ Hu) as [Heq _]. rewrite Heq in Hg. congruence.
Qed.

Lemma revoked_dead id t raw s : get_api_token id s = Some t → ap_revoked t = true →
  ap_token_hash t = token_hash_of raw → token_dead raw s.
Proof using Type.
  intros Hg Hr Hh u s' (t' & Hsel & Hr' & _)%authenticate_inv.
  assert (t ∈ [t']) as Ht%list_elem_of_singleton; [|congruence]. rewrite <-Hsel. unfold select.
  apply list_elem_of_filter. split; [by apply bool_decide_spec|].
  apply list_elem_of_fmap. exists (id, t). split; [done|]. by apply dget_Some_elem.
Qed.

Lemma wp_emit ty id name res act out det ip (Q : () → rbac → Prop) E s :
  (∀ s', rb_users s' = rb_users s → rb_tokens s' = rb_tokens s → Q tt s') →
  wp (emit_audit_event ty id name res act out det ip) Q E s.
Proof using Type. intros HQ. apply wp_unfold. by apply HQ. Qed.

Lemma deactivate_effect id c s : wp (handle (DeactivateUser id) c)
  (λ _ s', ∃ u, get_user id s' = Some u ∧ us_is_active u = false) (λ _ _, True) s.
Proof using Type.
  cbn [handle]. unfold deactivate_user_route.
  apply wp_bind. eapply wp_mono; [apply wp_trivial| |done]. intros [] s1 _. cbn beta.
  apply wp_bind. eapply wp_mono; [apply wp_trivial| |done]. intros [] s2 _. cbn beta.
  do 2 wp_step. unfold deactivate_user. apply wp_bind, wp_bind, wp_getS, wp_bind.
  unfold deactivate_user_row. do 2 wp_step. destruct (get_user id s2) as [u|].
  - apply wp_bind, wp_unfold. cbn [tick]. apply wp_bind, wp_modify, wp_ret, wp_bind, wp_emit.
    intros s3 Hu _. apply wp_ret, wp_ret. unfold get_user. rewrite Hu. simpl.
    rewrite dget_dset_eq. by eexists.
  - apply wp_ret, wp_bind, wp_emit. intros s3 _ _. by apply wp_ret, wp_raise.
Qed.

Lemma revoke_effect id t c s : rbac_wf s → get_api_token id s = Some t →
  wp (handle (RevokeToken id) c)
    (λ _ s', ∃ t', get_api_token id s' = Some t' ∧ ap_revoked t' = true ∧
       ap_token_hash t' = ap_token_hash t) (λ _ _, True) s.
Proof.
  intros Hwf Hg. cbn [handle]. unfold revoke_token_route.
  eapply (wp_bind_preserves evolves); [apply evolves_dep|reflexivity|done|]. intros [] s1 He1.
  eapply (wp_bind_preserves evolves); [apply evolves_seed|exact He1|done|]. intros [] s2 He2.
  destruct (He2 Hwf) as [Hwf2 [_ Hlive]]. destruct (Hlive _ _ Hg) as (t2 & Hg2 & Hh2 & _).
  apply wp_bind. unfold own_user. do 2 wp_step. apply wp_or_404; [|done]. intros u _.
  do 3 wp_step. apply wp_or_404; [|done]. intros t3 Hg3. do 2 wp_step; [done|].
  unfold revoke_token, revoke_api_token, change_token. do 3 wp_step. rewrite Hg2. do 3 wp_step.
  rewrite Hg2. apply wp_bind, wp_modify, wp_ret. apply wp_bind, wp_emit. intros s3 _ Ht.
  apply wp_ret, wp_ret. exists (set_revoked t2). unfold get_api_token. rewrite Ht.
  split; [apply dget_dset_eq|by split].
Qed.

Lemma run_calls_steps l s : rtc rbac_step s (run_calls l s).
Proof using Type.
  revert s. induction l as [|[call c] l IH]; intros s; [constructor|].
  eapply rtc_l; [constructor|apply IH].
Qed.
End lemmas.

(** ** A site *)
Definition sample_rbac_env : rbac_env :=
  RbacEnv (λ n, ("t" ++ pretty n)%string) (λ n, ("u" ++ pretty n)%string) (λ n, ("s" ++ pretty n)%string) Z.of_nat
    (λ password salt, (salt ++ password)%string) (λ text, match py_int text with Some z => Ok z | None => Raise ValueError end).
Lemma sample_uuid_inj : Inj (=) (=) (uuid (rbac_env := sample_rbac_env)).
Proof. intros a b [= H]. by apply pretty_nat_inj. Qed.
Definition root_caller : caller := Caller "root" 0 None.
Definition alice : caller := Caller "alice" 1 (Some "10.0.0.7").
Definition alice_request : create_user_request :=
  CreateUserRequest "alice" "pw" "operator" "a@b" "Alice" false.
Definition helpdesk_request : create_user_request :=
  CreateUserRequest "helpdesk" "pw" "helpdesk" "" "" false.
Definition token_request : create_token_request := CreateTokenRequest "ci" [RbacPermission.TAPE_READ] None.
(** Alice, an operator, was made by the administrator and made a token. *)
Notation alice_calls := [(CreateUser alice_request, root_caller); (CreateToken token_request, alice)].
Notation alice_site := (run_calls (env := sample_rbac_env) alice_calls empty_rbac).

(** * Properties *)

(** C16: The handlers of /auth do nothing for a caller without the permission: the
    request is refused with 403, the log of audit events gains one denial in the
    caller's name, and no user and no token changes.  With the permission, only the
    rows the request names change: a new user, the user deactivated, the role
    created or updated, the caller's own row and a new token, or a token that
    belongs to the caller.  Whoever asks, making the service may put the row of a
    built-in role back, and does so only when some built-in name is carried by no
    role; that apart, no role changes but the one a permitted request names.  The
    permission is held when the caller's row is active and is an administrator's or
    of a role with it, the built-in roles in place; without a row, when the session
    is an administrator's. *)
Theorem rbac_requests_guarded `{env : rbac_env} `{uuid_inj : !Inj (=) (=) uuid}
    (call : rbac_call) (current_user : caller) (s : rbac) :
  rbac_reachable s →
  match handle call current_user s with
  | (r, s') => request_outcome call current_user s r s'
  end.
Proof.
  intros Hs%reachable_rbac_wf. pose proof (handle_guarded call current_user s Hs) as H.
  rewrite wp_unfold in H. destruct (handle call current_user s) as [[]]; by apply outcome_from.
Qed.

Lemma rbac_requests_guarded_witness :
  permitted (DeactivateUser "u4") alice (seeded (env := sample_rbac_env) alice_site) = false ∧
  match handle (env := sample_rbac_env) (DeactivateUser "u4") alice alice_site with
  | (r, s') => request_outcome (env := sample_rbac_env) (DeactivateUser "u4") alice alice_site r s'
  end.
Proof.
  split; [by vm_compute|].
  apply (rbac_requests_guarded (env := sample_rbac_env) (uuid_inj := sample_uuid_inj)).
  apply run_calls_steps.
Defined.

(** C17: A lockout is for good.  Once the deactivation of a user has been answered,
    no later sequence of requests and presented tokens gives the user a
    permission or lets one of its tokens in; once the revocation of a token has
    been answered, the text of that token authenticates nobody any more. *)
Theorem lockout_permanent `{env : rbac_env} `{uuid_inj : !Inj (=) (=) uuid} (c : caller) (s : rbac) :
  rbac_reachable s →
  (∀ id a s1 s2, handle (DeactivateUser id) c s = (Ok a, s1) → rtc rbac_step s1 s2 →
     user_locked_out id s2) ∧
  (∀ id t a s1 s2, handle (RevokeToken id) c s = (Ok a, s1) → get_api_token id s = Some t →
     rtc rbac_step s1 s2 → ∀ raw, token_hash_of raw = ap_token_hash t → token_dead raw s2).
Proof.
  intros Hs%reachable_rbac_wf. split.
  - intros id a s1 s2 Hh H12%steps_evolve. pose proof (evolves_handle (DeactivateUser id) c s Hs) as [Hs1 _].
    pose proof (wp_run _ _ _ _ (deactivate_effect id c s) _ _ Hh) as (u & Hu & Ha). rewrite Hh in Hs1.
    destruct (H12 Hs1) as [Hs2 [Hlive _]]. destruct (Hlive _ _ Hu) as (u2 & Hu2 & Hact).
    eapply inactive_locked_out; eauto.
  - intros id t a s1 s2 Hh Hg H12%steps_evolve raw Hraw.
    pose proof (evolves_handle (RevokeToken id) c s Hs) as [Hs1 _].
    pose proof (wp_run _ _ _ _ (revoke_effect id t c s Hs Hg) _ _ Hh) as (t1 & Ht1 & Hr1 & Hh1).
    rewrite Hh in Hs1. destruct (H12 Hs1) as [_ [_ Hlive]].
    destruct (Hlive _ _ Ht1) as (t2 & Ht2 & Hh2 & Hr2). eapply revoked_dead; eauto. congruence.
Qed.

(** Alice's token is revoked by its owner, and she is then deactivated. *)
Notation after_revoke := (handle (env := sample_rbac_env) (RevokeToken "u7") alice alice_site).2.
Lemma lockout_permanent_witness :
  user_locked_out (env := sample_rbac_env) "u4"
    (handle (env := sample_rbac_env) (DeactivateUser "u4") root_caller alice_site).2 ∧
  token_dead (env := sample_rbac_env) "s6"
    (run_calls (env := sample_rbac_env) [(CreateToken token_request, alice); (ListTokens, alice)] after_revoke).
Proof.
  split.
  - apply (proj1 (lockout_permanent (env := sample_rbac_env) (uuid_inj := sample_uuid_inj) root_caller
      alice_site (run_calls_steps _ _)) "u4" (WSResultCode "User deactivated")
      (handle (env := sample_rbac_env) (DeactivateUser "u4") root_caller alice_site).2);
      [by vm_compute | constructor].
  - eapply (proj2 (lockout_permanent (env := sample_rbac_env) (uuid_inj := sample_uuid_inj) alice
      alice_site (run_calls_steps _ _)) "u7" _ (WSResultCode "Token revoked") after_revoke);
      [by vm_compute | by vm_compute | apply run_calls_steps | by vm_compute].
Defined.

(** C18: A tape request reaches the orchestrator exactly when the caller holds
    tape:read, for reading and verifying, or tape:write, for every other operation,
    formatting and ejecting included (see [format_needs_tape_write]); then the
    answer and the plant are the orchestrator's, refusals and bad requests answered
    with 400.  Otherwise the plant is as it was, the answer is 403 and the denial
    is on record. *)
Theorem tape_ops_guarded `{env : rbac_env} `{uuid_inj : !Inj (=) (=) uuid} (str_of : exn → string)
    (oenv : op_env) (rq : tape_op_request) (c : caller) (w : site) :
  rbac_reachable (st_rbac w) →
  tape_answered str_of oenv rq c w (execute_tape_op str_of oenv rq c w).
Proof.
  intros Hs%reachable_rbac_wf. unfold tape_answered. set (r0 := seeded (st_rbac w)).
  assert (needed (rq_op_type rq) = _permission_for_op (rq_op_type rq)) as -> by by destruct (rq_op_type rq).
  set (p := _permission_for_op (rq_op_type rq)). set (guard := seed_default_roles;; ensure_permission_for_user c p (cl_host c)).
  assert (wp guard (λ _ s', s' = r0 ∧ holds c p r0 = true)
    (λ e s', e = HTTPException 403 ∧ holds c p r0 = false ∧ denied_event (cl_name c) r0 s') (st_rbac w)) as Hg.
  { apply wp_seed. intros _. apply wp_ensure_permission; [apply (evolves_seed _ Hs)|by split|by intros ? s1 ?; split_and!]. }
  unfold execute_tape_op, on_rbac, zoom. fold p. fold guard. msimp.
  apply wp_unfold in Hg. destruct (guard (st_rbac w)) as [[[]|e] s1].
  - destruct Hg as [-> ->]. unfold on_plant, zoom. cbn [st_plant st_rbac].
    destruct (execute _ _ _ _ _) as [[row|e] p1]; [done|]. by destruct (bool_decide _).
  - by destruct Hg as (-> & -> & Hd).
Qed.

Notation eve := (Caller "eve" 1 None).
Notation format_request := (sample_request TapeOpType.FORMAT (Some 0) None []).
Lemma tape_ops_guarded_witness :
  holds eve RbacPermission.TAPE_WRITE (seeded (env := sample_rbac_env) alice_site) = false ∧
  tape_answered (env := sample_rbac_env) (λ _, "error") sample_env format_request eve
    (Site alice_site sample_plant)
    (execute_tape_op (env := sample_rbac_env) (λ _, "error") sample_env format_request eve
       (Site alice_site sample_plant)).
Proof.
  split; [by vm_compute|].
  apply (tape_ops_guarded (env := sample_rbac_env) (uuid_inj := sample_uuid_inj)), run_calls_steps.
Defined.

(** * Remarks *)

(** The token of the sample opens the door, until it is revoked. *)
Example token_opens :
  match (authenticate_by_token (env := sample_rbac_env) "s6" alice_site).1 with
  | Ok (Some u) => us_username u = "alice"
  | _ => False
  end.
Proof. by vm_compute. Qed.

(** A built-in role that is renamed loses its new name and permissions with the
    next request: seeding misses the name and writes the row of the identifier. *)
Notation renamed :=
  (handle (env := sample_rbac_env) (UpdateRole "operator" "ops" "" []) root_caller alice_site).2.
Example renamed_role_reset :
  ro_permissions <$> get_role "operator" renamed = Some [] ∧
  (ro_name <$> get_role "operator" (seeded (env := sample_rbac_env) renamed),
   ro_permissions <$> get_role "operator" (seeded (env := sample_rbac_env) renamed)) =
  (Some "operator", Some operator_permissions).
Proof. by vm_compute. Qed.

(** Who may administer users may make an administrator. *)
Notation helpdesk_calls :=
  [(CreateRole "helpdesk" "helpdesk" "" [RbacPermission.USER_ADMIN], root_caller);
   (CreateUser helpdesk_request, root_caller);
   (CreateUser (CreateUserRequest "mallory" "pw" "helpdesk" "" "" true), Caller "helpdesk" 1 None)].
Example user_admin_makes_admin :
  let s := run_calls (env := sample_rbac_env) helpdesk_calls empty_rbac in
  holds (Caller "helpdesk" 1 None) RbacPermission.SYSTEM_ADMIN s = false ∧
  holds (Caller "mallory" 1 None) RbacPermission.SYSTEM_ADMIN s = true.
Proof. by vm_compute. Qed.

(** Formatting needs no more than the permission to write. *)
Example format_needs_tape_write :
  _permission_for_op TapeOpType.FORMAT = RbacPermission.TAPE_WRITE ∧
  RbacPermission.TAPE_FORMAT ∉ operator_permissions ∧
  holds alice (_permission_for_op TapeOpType.FORMAT) alice_site = true.
Proof. split; [done|]. split; [unfold operator_permissions; set_solver | by vm_compute]. Qed.
